(* ===== verification/_CoqProject ===== *)
-Q . S2P
Prelude.v
Crash.v
Ordered.v
Ipnet.v
Text.v
Frame.v
Envelope.v
Control.v
Tables.v
Credential.v
RelayNet.v
Replay.v
Seal.v
Leases.v
Config.v
Registry.v
Directory.v
Ipam.v
NetState.v
Sync.v
RateLimit.v
Join.v
Flow.v
Lpm.v
Peers.v
Sessions.v
Engine.v
Endpoint.v
EndToEnd.v
Pins.v
Routes.v
Validate.v
Admin.v
Coordinator.v
AdminAuth.v
DataSession.v
Rpc.v
Token.v
Lanes.v
Member.v
Resolver.v
Client.v
Forwarder.v
Http.v
Updater.v
RelayHost.v
KernelRoutes.v
KeyFiles.v
Store.v
Restart.v
Api.v
Trust.v
Typed.v
Host.v
AddrText.v
Journal.v
Buckets.v
ControlConn.v
LinkTasks.v
