(* ===== verification/Prelude.v ===== *)
(** * nqvpn: a verification development of the coordinator, the relays, the members and the wire

    nqvpn is a VPN in which a coordinator keeps a registry of members and
    publishes a generation-numbered view of each network, members hold a control
    session to it and follow that view, relays forward sealed frames between the
    clients attached to them and to each other, and endpoints seal frames end to
    end.  This library translates the Rust sources under src/crates/ into Rocq
    functions and proves what makes them correct.

    ** Parts of the program and where they are modelled

    The wire:
    - [Frame] (nqvpn-proto frame.rs): the routed header, the hop byte, probes,
      trace notes and decisions, as codecs on lists of bytes; [Flow] (flow.rs):
      the flow hash and the choice of lane.
    - [Envelope] (envelope.rs, stream.rs): control envelopes, decoded from a
      buffer ([envelope_decode]) and read from a stream ([read_envelope]).
    - [Lanes] (transport.rs): a packet channel in stream mode, with its queues,
      writers and readers.
    - [Control] (control.rs, types.rs): [Snapshot], [Delta], [normalize], [diff],
      [apply], [digest] and the lookups; the messages members send.
    - [Credential] (credential.rs): [sign], [verify] and the peeking functions.
    - [Token] (token.rs): what an operator copies to a new machine.
    - [Replay], [Seal] (seal.rs): the receive window, [PairSession] and the
      handshake.
    - [DataSession] (nqvpn-session lib.rs): [session_accept], [dial] and the loop
      of a session ([run_step]) between members and relays.
    - [Rpc] (rpc.rs, errors.rs): calls and their replies over a control session.

    A relay:
    - [Tables] (nqvpn-relay tables.rs): [route] and the counters.
    - [RelayNet] (net.rs): the sessions held ([registration_insert],
      [registration_drop]), the data plane ([forward]), admission ([net_verify]),
      heartbeats and [net_reconcile].
    - [RelayHost] (endpoint.rs): a relay that is an endpoint too
      ([LocalEndpoint]), with its cache of the relays' addresses.
    - [Host] (exitcheck.rs, and ifaces.rs and endpoint_guard.rs of
      nqvpn-endpoint): is the host fit to be an exit, which prefixes are its own,
      and the lock that keeps two endpoints of a network apart.

    The coordinator:
    - [Config] (nqvpn-coord config.rs), [Registry] (registry.rs), [Leases]
      (leases.rs), [Ipam] (ipam.rs), [Directory] (directory.rs): configuration,
      durable records, liveness and attachments, the address plan, and the view
      derived from them ([recompute]) with the ring of recent deltas.
    - [NetState] (state.rs and control.rs): one network under its lock, with
      [publish], the debounce, the push queues of the control sessions and the
      handlers that run for them.
    - [RateLimit] (state.rs, [RateLimiter]): the per-source limiter.
    - [Join] (state.rs, [AppState::join], with secrets.rs, signer.rs, api.rs and
      the relay address rules of config.rs): the join transaction in its two
      phases, [join_admit] and [join_locked], under different locks.
    - [Validate] (config.rs): [validate_network_with], the check every network
      configuration passes.
    - [Admin] (admin.rs): the operators' changes to networks and members, with
      [import]; [Coordinator]: all of these together with joins and the control
      plane as one step relation ([coord_step]).
    - [AdminAuth] (auth.rs, api.rs): logging in, sessions, the admin check and
      the origin guard; [Api] (api.rs, ws.rs): the router, every handler
      ([handle]), the status of a network and the live feed ([feed]).
    - [ControlConn] (control.rs): a control connection from the first packet to
      the teardown, around the handlers of [NetState] ([conn_hello],
      [loop_step]); [Buckets] (control.rs, and the relay's tables.rs): the token
      buckets in double precision.
    - [Store] (db.rs, and the stored form of a network of config.rs): the tables,
      statements and transactions, and the map they stand for; [Restart]
      (main.rs, state.rs): serving again what the database holds; [Typed]: every
      configuration has the prefix its accessor expects.

    A member:
    - [Sync] (nqvpn-sync link.rs): [View], the read loop's handling of pushes,
      and the protocol between the coordinator of [NetState] and one member as a
      step relation ([sys_step]).
    - [Member] (link.rs [run_member], join.rs, and the join client's parsing and
      retry schedule of joinapi.rs): the control loop and the renewal task
      ([member_step]); [LinkTasks] (link.rs, reconcile.rs): the task that writes
      ([writer_step]) and the one that reconciles a node with its view
      ([reconciler_step]).

    An endpoint and the client around it:
    - [Lpm] (lpm.rs), [Peers] (nqvpn-endpoint peers.rs): prefixes, owners and
      the ingress filter; [Sessions] (peers.rs): the sessions with a peer, their
      hand-over, limits and expiry.
    - [Engine] (engine.rs): outbound, inbound, handshakes, the packet queue,
      rekeying; [Endpoint]: its invariants over every interleaving;
      [EndToEnd]: two engines and any number of relays in between.
    - [Routes], [Pins] (routes.rs): wanted routes, exclusions, route-all, the
      reconciliation of the kernel table, and the journal of host routes;
      [KernelRoutes] (routes.rs, [NetRouteProgrammer]): both on the operating
      system's own table; [Journal] (routes.rs): the journal as the text file it
      is, and the resolvers of resolv.conf.
    - [Resolver], [Client] (nqvpn-client client.rs): the relay address cache,
      applying views and join facts, and the uplink loop.
    - [KeyFiles] (identity.rs, seal.rs, signer.rs): keys and certificates on a
      directory that a power cut may hit.
    - [Trust] (quic.rs, joinapi.rs, the config.rs of client and relay): where the
      token comes from and which certificates it makes a member accept.

    Programs around them:
    - [Http] (nqvpn-proto joinapi.rs, nqvpn-update lib.rs): the two HTTPS clients'
      reading of responses; [Updater] (nqvpn-update lib.rs): releases, downloads
      and the replacement of the executable ([update_run]).
    - [Forwarder] (nqvpn-forward lib.rs): the UDP forwarder ([fwd_step]).

    Shared: this file (integers, results, byte strings, tactics, generic
    lemmas), [Ordered] (sorting, [BTreeMap] iteration, binary search), [Ipnet]
    (addresses and prefixes) and [Text] (trimming, splitting, and the textual
    form of addresses as the standard library reads and prints it), [AddrText]
    (every address printed is read back as it was), [Crash]
    (programs over durable state, with every point at which they may die, and the
    triples [Pins], [Updater], [KeyFiles] and [KernelRoutes] are proved with).

    ** How the code is represented

    Unsigned integers are [Z] with their width written out where it matters:
    [⊕] wraps at 64 bits (the crates are built without overflow checks), [⊖]
    and [sat_add] saturate.  Bytes are [list Z].  A [BTreeMap] is a [gmap] walked
    in key order by [bt_iter]; a [HashMap] is a [gmap], and where an outcome
    could depend on its order the theorem quantifies over orders
    ([attachments_over]) or the operation is a pointwise map.  Structs are
    records, enums inductive types, [Result] the type of this file.  A handler
    is a function from state and arguments (clocks included) to the new state
    and what it returns; what it hands to the transport is a list of outputs
    ([Effect], [Out], [SessionOut], [MemberOut]).  Storage faults are boolean
    arguments ([save_ok], [ae_cfg_ok]).  A task that awaits is a step function
    of its state and of the event that wakes it ([run_step], [member_step],
    [call_start], [call_sent] and [call_poll], [uplink_turn] and
    [uplink_dialed]), and the theorems quantify over the sequences of events.

    Code that is not in the repository is a parameter with a class of laws that
    states its documented behaviour, and an instance that satisfies them: ipnet
    ([IpNetOps], [IpNetLaws], [ipnet_ref]), base64, serde_json and ed25519-dalek
    ([CredLib], [CredLaws], [B64Alphabet], [Base64], [JoinLib]), snow
    ([NoiseLib], [NoiseLaws], [NoiseStatic]), tokio's bounded channels
    ([MpscOps], [MpscLaws], [LaneQueue], [LaneQueueLaws]), the prefix trie
    ([TrieOps]), bincode ([SessionCodec], [RpcCodec], [CtlCodec], the argument [enc] of
    [digest]), serde_json for the HTTP clients ([JoinJson]), the machine an
    update runs on ([UpdateWorld]), the kernel's tables ([RouteProgrammer], [HostRouteTable],
    and the route_manager crate, [RouteManager] and [ManagerLaws]), SQLite and the
    JSON of its columns ([SqliteOps], [SqliteLaws], [StoreCodec],
    [StoreCodecLaws]), the bodies of requests ([ApiJson]), webpki and certificates
    ([TlsLib]), the reading of a private key ([KeyDer]); name resolution ([resolve_host]) and argon2 ([verify_password]) are plain
    function arguments; a quinn stream is its remaining bytes and its end
    ([Rx]), cut in chunks by an arbitrary function.

    ** What the theorems show

    - Codecs: encoding and decoding are inverse and reject what they should
      ([header_codec_exact], [control_frames_roundtrip_disjoint],
      [envelope_codec_exact], [envelope_decode_prefix_stable]); reading from a
      stream is decoding its bytes ([read_envelope_is_decode]); the hop byte is
      a loop guard ([hop_guard_exact]); lanes keep packets whole and in order
      ([lanes_in_order]); HTTP responses are read as they were framed
      ([responses_read_back]); a token admits its member ([token_admits]).
    - Views: a delta carries a view exactly ([view_diff_apply], [apply_branches]),
      canonical form is canonical and lookups in it exact
      ([normal_form_canonical], [view_lookups_exact]).
    - Relay: the decision is the forwarding rule ([route_exact]), tables and
      sessions agree in every reachable state ([session_tables_agree]), frames
      are forwarded verbatim, at most once over a mesh link, end to end through
      two relays, and never lost silently ([forward_verbatim],
      [two_relay_delivery], [no_silent_drop]); sessions replace each other
      cleanly ([newest_session_wins]), admission is exact ([admission_exact]),
      reconciling a view converges ([reconcile_converges]).
    - Data sessions: both ends agree on whether one opened ([opening_agrees]),
      it is held by a credential in force ([session_vouched]), dead peers are
      noticed after the configured misses and only then ([probe_liveness]).
    - RPC: replies reach their calls and no waiter leaks ([rpc_correlated]); a
      call gets what the far handler says ([rpc_answered]).
    - Credentials and sealing: [sign_verify], [verify_accepts_only_bound]; the
      window refines an unbounded memory ([replay_window_refines]), a sealed
      stream opens exactly once ([sealed_stream_exactly_once]), failures move
      nothing ([unseal_failure_inert]), handshakes complete and are bound to
      their pair and network ([handshake_completes], [handshake_bound]).
    - Endpoint: sessions are vouched for by the view in every interleaving
      ([sessions_vouched]), what is delivered is authentic
      ([delivered_authentic]) and owned by its sender ([ingress_exact]), no
      frame takes a working session away ([working_session_kept]), replayed
      handshakes are refused ([replayed_handshake_refused]), and the first
      packet and all that waited arrive after one handshake
      ([first_packet_delivered]).
    - Routes: the kernel is brought to what is wanted ([kernel_reconciled]),
      the host's own routes are left alone ([excluded_routes_harmless]),
      route-all never cuts the transport ([route_all_keeps_transport],
      [exit_gateway_exact]), pins are exact and survive a crash at any point
      ([pins_exact], [pins_crash_safe]), also as the text they are written in
      ([journal_survives]); on the operating system's table no
      route through another interface is touched ([host_routes_spared]), and a
      relay never captures the path to another relay ([relay_routes_guarded]).
    - Host: an exit reports ready only with forwarding on and a masquerade rule
      ([exit_ready_means]), the host's prefixes cover its addresses
      ([local_prefixes_cover]), one endpoint holds a lock
      ([endpoint_exclusive]).
    - Identity and trust: keys and certificates survive failures and power cuts
      whole, private and unredirected ([identity_durable],
      [static_key_durable]); a token leads to the coordinator that issued it, and
      a pin is never discarded ([member_trusts_issuer]).
    - Client and member: applying a view makes the tables agree
      ([view_applied]), relays are chosen by rank ([relay_attached]), the loop
      and its slot agree ([uplink_coherent]), resolved addresses are kept
      ([resolved_kept]); a member stays one until replaced ([member_persists]),
      tells what is news and presents the newest credential it was handed
      ([writer_tells]), and is reconciled with the view it holds
      ([reconciler_current]).
    - Coordinator: ids and generations are never reused
      ([node_ids_never_reused], [generations_strictly_increase]); attachments
      follow the newest claim ([attachments_exact], [move_wins],
      [heartbeat_quiet_sound], [expire_exact]); prefixes and default routes are
      published by rule ([prefix_owner_rule], [default_route_iff_ready]);
      allocations collide with nobody and take only abandoned addresses
      ([allocation_sound], [reclaim_only_abandoned]); the ring catches a member
      up exactly ([catch_up_exact]).
    - Joining: only the present holder of a secret joins, however the network
      changed since the secret was resolved ([join_only_secret_holder]); what a
      join grants is durable before anyone sees it and a failed join leaves no
      trace ([join_durable]); its credential is admitted for its lifetime
      ([join_credential_admitted]); another machine replaces the previous one
      for good ([join_replaces_instance]); routes are the declared ones
      ([join_routes_declared]); attempts are limited per source
      ([rate_limit_exact]).
    - Administration: the check accepts exactly the valid configurations
      ([validate_exact]) and leaves no address with two meanings
      ([validated_unambiguous]); a secret names one member whatever operators
      and members do ([secret_names_one]); rotating retires a secret everywhere
      ([rotation_retires]); an import is all or nothing ([import_atomic]); only
      admins are let in ([admin_access_exact]), and without them no request
      learns or changes what is not public ([api_guarded]).
    - Storage: the database is a map through failures and crashes
      ([store_refines]), a restarted coordinator serves what the previous one did
      ([restart_serves]), no configuration makes storing or serving panic
      ([configs_typed]).
    - The forwarder keeps clients apart and none is pushed out
      ([forwarder_isolates]); an update leaves a working executable whatever
      fails and wherever it dies ([update_safe]).
    - The control protocol: over every interleaving of publications, queues,
      resyncs, heartbeats, reconnects and restarts of the member, a member holds
      only published views ([member_view_published]), a synced session leads to
      the current one ([synced_session_delivers]), one heartbeat repairs what
      was missed ([heartbeat_catches_up]); and the one case in which catching up
      cannot work, a chain longer than the push queue ([long_chain_overflows]).
      A session is held by whom the coordinator verified, heartbeats over budget
      are put aside and the newest is never lost ([control_session_sound]); the
      connections nobody vouched for are capped ([unauthenticated_capped]), and
      no bucket gives more than it holds ([bucket_bounded], [budget_bounded]).

    ** Bounds and fuel

    Loops are structural recursions or folds.  Fuel appears in [next_free] (one
    more than the members held: [next_free_found]), in [scan_loop] (the number of
    addresses scanned), in the stream reader (the bytes still to read:
    [read_envelope_is_decode] gives the result on every branch) and in the
    binary search (the length of the list: [binary_search_find]), in [trim_bytes]
    (the length: [trim_bytes_spec]), in [fmt_digits] (the digits of the width),
    in [read_frames] (the bytes arrived: [lanes_in_order] gives the packets
    on every prefix), in the chunk decoders, [split_whitespace] and lossy decoding
    (the bytes left: [responses_read_back] gives the body) and in [get_run] (the
    number of requests the code allows).  Counters that wrap carry a hypothesis that they have not
    reached 2^64 where a theorem needs it.

    ** What is not modelled

    The sockets under the handlers (connecting, accepting, QUIC datagrams, the
    set-up of rustls and quinn, the signatures rustls checks), timers (when
    one fires is an event), process set-up and the parsing of configuration files, what is
    random (keys, certificates, secrets are arguments), opening the database file
    and its permissions, the text of JSON and PEM, the web page, TUN devices, the branches for macOS, what is only
    logged; lock poisoning.  The protocol of
    [Sync] covers the messages of the member's present connection; a heartbeat
    of an older connection that is still being read while a new one registers is
    not among its steps, nor is a restart of the coordinator itself, across
    which [generations_strictly_increase] speaks. *)

From stdpp Require Export base tactics orders option list list_numbers numbers
  sorting gmap fin_maps strings pretty relations.
From Stdlib Require Export ZArith Lia.

#[global] Open Scope Z_scope.

(** ** Machine integers

    A Rust unsigned integer of width [w] is a [Z] in [0, 2^w).  The crates are
    built without [overflow-checks], so [+] on run-time values wraps. *)

Definition u_range (w : Z) (x : Z) : Prop := 0 ≤ x < 2 ^ w.

#[export] Instance u_range_dec w x : Decision (u_range w x).
Proof. unfold u_range. apply _. Defined.

Definition wadd64 (x y : Z) : Z := (x + y) mod 2 ^ 64.
Definition u64_max : Z := 2 ^ 64 - 1.
Definition u32_max : Z := 2 ^ 32 - 1.
Definition sat_sub (x y : Z) : Z := Z.max 0 (x - y).
Definition sat_add (w x y : Z) : Z := Z.min (2 ^ w - 1) (x + y).
Definition sat_mul (w x y : Z) : Z := Z.min (2 ^ w - 1) (x * y).

Declare Scope nq_scope.
Delimit Scope nq_scope with nq.
Infix "⊕" := wadd64 (at level 50, left associativity) : nq_scope.
Infix "⊖" := sat_sub (at level 50, left associativity) : nq_scope.
#[global] Open Scope nq_scope.

Lemma wadd64_small x y : 0 ≤ x + y < 2 ^ 64 → x ⊕ y = x + y.
Proof. intros. by apply Z.mod_small. Qed.

Lemma wadd64_range x y : u_range 64 (x ⊕ y).
Proof. unfold u_range, wadd64. apply Z.mod_pos_bound. lia. Qed.

(** ** [Result] *)

Inductive Result (T E : Type) : Type :=
| Ok (v : T)
| Err (e : E).
Arguments Ok {T E} _.
Arguments Err {T E} _.

(** Rust's [Option::or]. *)
Definition or_else {A} (a b : option A) : option A := match a with Some x => Some x | None => b end.

Definition is_none {A} (o : option A) : bool := match o with None => true | Some _ => false end.

Definition is_ok {T E} (r : Result T E) : bool :=
  match r with Ok _ => true | Err _ => false end.

#[global] Instance Result_eq_dec `{EqDecision T, EqDecision E} : EqDecision (Result T E).
Proof. solve_decision. Defined.

Notation "'let?' x ':=' c 'in' k" :=
  (match c with Ok x => k | Err e => Err e end)
  (at level 10, x pattern, c at level 200, k at level 200) : nq_scope.

(** ** Tactics *)

(** Close a decidable goal by evaluating it. *)
Ltac by_decide := apply (bool_decide_unpack _); vm_compute; exact I.

(** Split every boolean test of the goal or the context into its proposition. *)
Ltac bool_prop :=
  repeat match goal with
  | H : _ && _ = true |- _ => apply andb_true_iff in H as [? ?]
  | H : _ || _ = false |- _ => apply orb_false_iff in H as [? ?]
  | H : negb _ = true |- _ => apply negb_true_iff in H
  | H : negb _ = false |- _ => apply negb_false_iff in H
  | H : (_ <=? _) = true |- _ => apply Z.leb_le in H
  | H : (_ <=? _) = false |- _ => apply Z.leb_gt in H
  | H : (_ <? _) = true |- _ => apply Z.ltb_lt in H
  | H : (_ <? _) = false |- _ => apply Z.ltb_ge in H
  | H : (_ =? _) = true |- _ => apply Z.eqb_eq in H
  | H : (_ =? _) = false |- _ => apply Z.eqb_neq in H
  | H : bool_decide _ = true |- _ => apply bool_decide_eq_true_1 in H
  | H : bool_decide _ = false |- _ => apply bool_decide_eq_false_1 in H
  end.

(** Case split on the first [if] or [match] of the goal, remembering it. *)
Ltac case_on :=
  match goal with
  | |- context [if decide ?P then _ else _] => destruct (decide P)
  | |- context [if ?b then _ else _] => destruct b eqn:?
  | |- context [match ?x with _ => _ end] => destruct x eqn:?
  end; bool_prop; simplify_eq/=.

Ltac case_in H :=
  match type of H with
  | context [if decide ?P then _ else _] => destruct (decide P)
  | context [if ?b then _ else _] => destruct b eqn:?
  | context [match ?x with _ => _ end] => destruct x eqn:?
  end; bool_prop; simplify_eq/=.

Create HintDb nq discriminated.
Create Rewrite HintDb nqr.
Create Rewrite HintDb rnr.
#[export] Hint Resolve wadd64_range : nq.

(** ** Big-endian byte strings

    [uN::to_be_bytes] and [uN::from_be_bytes]: a byte is a [Z] in [0, 256). *)

Definition is_byte (b : Z) : Prop := 0 ≤ b < 256.

#[export] Instance is_byte_dec b : Decision (is_byte b).
Proof. unfold is_byte. apply _. Defined.

Fixpoint to_be (n : nat) (x : Z) : list Z :=
  match n with
  | O => []
  | S n' => to_be n' (x / 256) ++ [x mod 256]
  end.

Definition from_be (bs : list Z) : Z := foldl (λ acc b, acc * 256 + b) 0 bs.

Lemma from_be_snoc bs b : from_be (bs ++ [b]) = from_be bs * 256 + b.
Proof. unfold from_be. by rewrite foldl_snoc. Qed.

Lemma to_be_length n x : length (to_be n x) = n.
Proof. revert x; induction n as [|n IH]; intros x; [done|]. cbn. rewrite length_app, IH. cbn. lia. Qed.

Lemma to_be_bytes n x : Forall is_byte (to_be n x).
Proof.
  revert x; induction n as [|n IH]; intros x; cbn; [constructor|].
  apply Forall_app; split; [apply IH|]. repeat constructor.
  all: unfold is_byte; pose proof (Z.mod_pos_bound x 256); lia.
Qed.

Lemma from_to_be n x : 0 ≤ x < 256 ^ Z.of_nat n → from_be (to_be n x) = x.
Proof.
  revert x; induction n as [|n IH]; intros x Hx.
  - cbn in *. lia.
  - cbn [to_be]. rewrite from_be_snoc, IH.
    + pose proof (Z.div_mod x 256). lia.
    + rewrite Nat2Z.inj_succ, Z.pow_succ_r in Hx by lia.
      split; [apply Z.div_pos; lia|]. apply Z.div_lt_upper_bound; lia.
Qed.

Lemma from_be_range bs : Forall is_byte bs → 0 ≤ from_be bs < 256 ^ Z.of_nat (length bs).
Proof.
  induction bs as [|b bs IH] using rev_ind; intros H; [cbn; lia|].
  apply Forall_app in H as [H1 H2]. inv H2. specialize (IH H1).
  rewrite from_be_snoc, length_app, Nat2Z.inj_add. cbn [length].
  rewrite Z.pow_add_r by lia. unfold is_byte in *. change (256 ^ Z.of_nat 1) with 256. lia.
Qed.

Lemma to_from_be bs : Forall is_byte bs → to_be (length bs) (from_be bs) = bs.
Proof.
  induction bs as [|b bs IH] using rev_ind; intros H; [done|].
  apply Forall_app in H as [H1 H2]. inv H2.
  rewrite length_app, Nat.add_comm. cbn [length Nat.add to_be].
  rewrite from_be_snoc. unfold is_byte in *.
  rewrite Z.div_add_l, Z.div_small, Z.add_0_r, IH by (done || lia).
  by rewrite Z.add_comm, Z.mod_add, Z.mod_small by lia.
Qed.

Arguments to_be : simpl never.
Arguments from_be : simpl never.
#[export] Hint Resolve to_be_bytes : nq.
#[export] Hint Rewrite to_be_length : nqr.

(** ** Lists *)

Lemma foldl_inv {A B} (P : B → Prop) (f : B → A → B) (l : list A) (b : B) :
  P b → (∀ b a, a ∈ l → P b → P (f b a)) → P (foldl f b l).
Proof.
  revert b; induction l as [|a l IH]; intros b Hb Hf; cbn; [done|].
  apply IH; [apply Hf; [left|done]|]. intros b' a' Ha. apply Hf. by right.
Qed.

Lemma elem_of_filter_b {A} (f : A → bool) (l : list A) x :
  x ∈ List.filter f l ↔ f x = true ∧ x ∈ l.
Proof. rewrite !list_elem_of_In, List.filter_In. tauto. Qed.

(** ** Reachability *)

Lemma rtc_inv_preserved {A} (R : relation A) (P : A → Prop) x y :
  (∀ a b, R a b → P a → P b) → P x → rtc R x y → P y.
Proof. intros Hstep Hx. induction 1; eauto. Qed.

(** ** Pairwise *)

Lemma Forall2_impl_elem {A B} (P Q : A → B → Prop) l k :
  Forall2 P l k → (∀ x y, x ∈ l → y ∈ k → P x y → Q x y) → Forall2 Q l k.
Proof. induction 1 as [|x y l k Hp Hl IH]; intros Hi; constructor; [apply Hi; [by left|by left|done]|]. apply IH. intros a b Ha Hb. apply Hi; by right. Qed.

Lemma Forall2_elem_l {A B} (P : A → B → Prop) l k x : Forall2 P l k → x ∈ l → ∃ y, y ∈ k ∧ P x y.
Proof.
  induction 1 as [|a b l k Hp Hl IH]; [by intros []%not_elem_of_nil|]. intros [->|Hx]%elem_of_cons; [exists b; split; [by left|done]|].
  destruct (IH Hx) as (y & ? & ?). exists y. split; [by right|done].
Qed.

Lemma Forall2_elem_r {A B} (P : A → B → Prop) l k y : Forall2 P l k → y ∈ k → ∃ x, x ∈ l ∧ P x y.
Proof.
  induction 1 as [|a b l k Hp Hl IH]; [by intros []%not_elem_of_nil|]. intros [->|Hx]%elem_of_cons; [exists a; split; [by left|done]|].
  destruct (IH Hx) as (x & ? & ?). exists x. split; [by right|done].
Qed.
