(* ===== verification/Crash.v ===== *)
(** * Programs that may not survive

    A program over a world that outlives the process (routing tables, files)
    returns its result, the world it leaves, and every world it went through, in
    order: the points at which the process may die. [triple] is the program logic
    of the components that are proved safe at each of them. *)

From S2P Require Import Prelude.

Definition Run (W A : Type) : Type := W → A * W * list W.

Section programs.
Context {W : Type}.

Definition run_ret {A} (a : A) : Run W A := λ w, (a, w, []).
Definition run_bind {A B} (m : Run W A) (f : A → Run W B) : Run W B :=
  λ w, let '(a, w1, tr1) := m w in let '(b, w2, tr2) := f a w1 in (b, w2, tr1 ++ tr2).
Definition run_read {A} (f : W → A) : Run W A := λ w, (f w, w, []).
(** An atomic change. *)
Definition run_act {A} (f : W → A * W) : Run W A := λ w, let '(a, w') := f w in (a, w', [w']).
(** A change that is not atomic: it passes through these worlds first. *)
Definition run_slow {A} (through : W → list W) (f : W → A * W) : Run W A := λ w, let '(a, w') := f w in (a, w', through w ++ [w']).

Fixpoint run_each {A B} (f : A → Run W B) (l : list A) : Run W (list B) :=
  match l with
  | [] => run_ret []
  | a :: l' => run_bind (f a) (λ b, run_bind (run_each f l') (λ bs, run_ret (b :: bs)))
  end.
End programs.

Notation "x <-- m ; k" := (run_bind m (λ x, k)) (at level 60, m at level 99, k at level 200, right associativity).
Notation "m ;; k" := (run_bind m (λ _, k)).

Section triples.
Context {W : Type}.
(** What holds whenever the process may die. *)
Context (C : W → Prop).

Definition triple {A} (pre : W → Prop) (m : Run W A) (post : A → W → Prop) : Prop :=
  ∀ w, pre w → let '(a, w', tr) := m w in Forall C tr ∧ post a w'.

Lemma t_ret {A} (a : A) pre post : (∀ w, pre w → post a w) → triple pre (run_ret a) post.
Proof. intros Hp w Hw. split; [constructor|auto]. Qed.

Lemma t_read {A} (f : W → A) pre post : (∀ w, pre w → post (f w) w) → triple pre (run_read f) post.
Proof. intros Hp w Hw. split; [constructor|auto]. Qed.

Lemma t_act {A} (f : W → A * W) pre post : (∀ w, pre w → C (f w).2 ∧ post (f w).1 (f w).2) → triple pre (run_act f) post.
Proof. intros Hp w Hw. unfold run_act. destruct (Hp w Hw). destruct (f w). split; [by repeat constructor|done]. Qed.

Lemma t_slow {A} through (f : W → A * W) pre post :
  (∀ w, pre w → Forall C (through w) ∧ C (f w).2 ∧ post (f w).1 (f w).2) → triple pre (run_slow through f) post.
Proof. intros Hp w Hw. unfold run_slow. destruct (Hp w Hw) as (H1 & H2 & H3). destruct (f w). split; [apply Forall_app; by repeat constructor|done]. Qed.

Lemma t_bind {A B} (m : Run W A) (f : A → Run W B) pre mid post :
  triple pre m mid → (∀ a, triple (mid a) (f a) post) → triple pre (run_bind m f) post.
Proof.
  intros Hm Hf w Hw. unfold run_bind. specialize (Hm w Hw). destruct (m w) as [[a w1] tr1]. destruct Hm as [T1 M].
  specialize (Hf a w1 M). destruct (f a w1) as [[b w2] tr2]. destruct Hf as [T2 P]. split; [by apply Forall_app|done].
Qed.

Lemma t_read_bind {A B} (f : W → A) v (k : A → Run W B) pre post :
  (∀ w, pre w → f w = v) → triple pre (k v) post → triple pre (run_bind (run_read f) k) post.
Proof.
  intros Hv Hk w Hw. unfold run_bind, run_read. rewrite (Hv w Hw). specialize (Hk w Hw). by destruct (k v w) as [[b w2] tr].
Qed.

Lemma t_pure {A} (φ : Prop) (m : Run W A) (pre : W → Prop) post : (φ → triple pre m post) → triple (λ w, pre w ∧ φ) m post.
Proof. intros Hm w [Hw Hφ]. by apply Hm. Qed.

Lemma t_weaken {A} (m : Run W A) (pre pre' : W → Prop) (post post' : A → W → Prop) :
  triple pre m post → (∀ w, pre' w → pre w) → (∀ a w, post a w → post' a w) → triple pre' m post'.
Proof. intros Hm Hp Hq w Hw. specialize (Hm w (Hp _ Hw)). destruct (m w) as [[a w'] tr]. destruct Hm. auto. Qed.
End triples.
