(* ===== verification/Ordered.v ===== *)
(** * Ordered collections

    [Ord] keys, the stable [sort_by_key], [dedup_by], and [BTreeMap] as a
    finite map whose iteration is in key order. *)

From S2P Require Import Prelude.

(** ** Keys with Rust's [Ord] *)

Class OrdKey (K : Type) := {
  kleb : K → K → bool;
  kleb_total : ∀ a b, kleb a b = true ∨ kleb b a = true;
  kleb_trans : ∀ a b c, kleb a b = true → kleb b c = true → kleb a c = true;
  kleb_antisym : ∀ a b, kleb a b = true → kleb b a = true → a = b;
}.

#[export] Program Instance OrdKey_Z : OrdKey Z := {| kleb := Z.leb |}.
Next Obligation. intros. rewrite !Z.leb_le. lia. Qed.
Next Obligation. intros ???. rewrite !Z.leb_le. lia. Qed.
Next Obligation. intros ??. rewrite !Z.leb_le. lia. Qed.

#[export] Program Instance OrdKey_string : OrdKey string := {| kleb := String.leb |}.
Next Obligation. intros. apply String.leb_total. Qed.
Next Obligation.
  intros a b c Ha Hb. apply Is_true_true. apply Is_true_true in Ha, Hb.
  exact (transitivity (R := String.le) Ha Hb).
Qed.
Next Obligation. intros a b Ha Hb. by apply String.leb_antisym. Qed.

(** Lexicographic order on pairs, as derived for tuples. *)
#[export] Program Instance OrdKey_prod {A B} `{EqDecision A, OrdKey A, OrdKey B} : OrdKey (A * B) :=
  {| kleb p q := if decide (p.1 = q.1) then kleb p.2 q.2 else kleb p.1 q.1 |}.
Next Obligation.
  intros ?????[a b] [c d]; cbn. repeat case_decide; simplify_eq; apply kleb_total.
Qed.
Next Obligation.
  intros ?????[a b] [c d] [e f]; cbn. repeat case_decide; simplify_eq; eauto using kleb_trans.
  intros Hx Hy. pose proof (kleb_antisym _ _ Hx Hy). congruence.
Qed.
Next Obligation.
  intros ?????[a b] [c d]; cbn. repeat case_decide; simplify_eq; intros Hx Hy.
  - f_equal. by apply kleb_antisym.
  - pose proof (kleb_antisym _ _ Hx Hy). congruence.
Qed.

(** An order through an injective key. *)
#[program] Definition ord_by {A K} `{OrdKey K} (f : A → K) (Hf : ∀ a b, f a = f b → a = b) : OrdKey A :=
  {| kleb a b := kleb (f a) (f b) |}.
Next Obligation. intros A K ? f Hf a b. apply kleb_total. Qed.
Next Obligation. intros A K ? f Hf a b c. cbn. apply kleb_trans. Qed.
Next Obligation. intros A K ? f Hf a b H1 H2. apply Hf. by apply kleb_antisym. Qed.


Definition kltb {K} `{OrdKey K} (a b : K) : bool := negb (kleb b a).

Section keys.
Context {K : Type} `{OrdKey K}.

Lemma kleb_refl a : kleb a a = true.
Proof. by destruct (kleb_total a a). Qed.

Lemma kltb_leb a b : kltb a b = true → kleb a b = true.
Proof. unfold kltb. intros Hn%negb_true_iff. destruct (kleb_total a b); congruence. Qed.

Lemma kltb_irrefl a : kltb a a = false.
Proof. unfold kltb. by rewrite kleb_refl. Qed.

Lemma kltb_ne a b : kltb a b = true → a ≠ b.
Proof. intros Hl ->. by rewrite kltb_irrefl in Hl. Qed.

Lemma kltb_trans a b c : kltb a b = true → kltb b c = true → kltb a c = true.
Proof.
  intros H1 H2. unfold kltb. apply negb_true_iff, not_true_iff_false. intros Hc.
  pose proof (kleb_trans _ _ _ (kltb_leb _ _ H2) Hc) as Hb.
  unfold kltb in H1. rewrite Hb in H1. done.
Qed.

Lemma kleb_ltb_trans a b c : kleb a b = true → kltb b c = true → kltb a c = true.
Proof.
  intros H1 H2. unfold kltb. apply negb_true_iff, not_true_iff_false. intros Hc.
  pose proof (kleb_trans _ _ _ Hc H1) as Hb. unfold kltb in H2. rewrite Hb in H2. done.
Qed.

Lemma kleb_ne_ltb a b : kleb a b = true → a ≠ b → kltb a b = true.
Proof.
  intros Hle Hne. unfold kltb. apply negb_true_iff, not_true_iff_false. intros Hb.
  by destruct Hne; apply kleb_antisym.
Qed.
End keys.

(** ** [slice::sort_by_key] (stable) and [Vec::dedup_by] *)

Section sorting.
Context {A K : Type} `{OrdKey K} (key : A → K).

Fixpoint insert_by (x : A) (l : list A) : list A :=
  match l with
  | [] => [x]
  | y :: l' => if kleb (key x) (key y) then x :: l else y :: insert_by x l'
  end.

Fixpoint sort_by_key (l : list A) : list A :=
  match l with
  | [] => []
  | x :: l' => insert_by x (sort_by_key l')
  end.

Definition le_key (x y : A) : Prop := kleb (key x) (key y) = true.
Definition lt_key (x y : A) : Prop := kltb (key x) (key y) = true.

Lemma insert_by_perm x l : insert_by x l ≡ₚ x :: l.
Proof.
  induction l as [|y l IH]; cbn; [done|]. destruct (kleb _ _); [done|].
  rewrite IH. apply Permutation_swap.
Qed.

Lemma sort_by_key_perm l : sort_by_key l ≡ₚ l.
Proof. induction l as [|x l IH]; cbn; [done|]. by rewrite insert_by_perm, IH. Qed.

Lemma insert_by_sorted x l : StronglySorted le_key l → StronglySorted le_key (insert_by x l).
Proof.
  induction 1 as [|y l Hs IH Hy]; cbn; [repeat constructor|].
  destruct (kleb (key x) (key y)) eqn:Hxy.
  - constructor; [by constructor|]. constructor; [done|].
    eapply Forall_impl; [exact Hy|]. unfold le_key. eauto using kleb_trans.
  - constructor; [done|]. rewrite insert_by_perm. constructor; [|done].
    unfold le_key. destruct (kleb_total (key x) (key y)); congruence.
Qed.

Lemma sort_by_key_sorted l : StronglySorted le_key (sort_by_key l).
Proof. induction l; cbn; [constructor|]. by apply insert_by_sorted. Qed.

Lemma elem_of_sort_by_key x l : x ∈ sort_by_key l ↔ x ∈ l.
Proof. by rewrite sort_by_key_perm. Qed.

Lemma insert_by_id x l : Forall (le_key x) l → insert_by x l = x :: l.
Proof. destruct l as [|y l]; [done|]. intros Hf. inv Hf. cbn. by rewrite H2. Qed.

Lemma sort_by_key_id l : StronglySorted le_key l → sort_by_key l = l.
Proof. induction 1; cbn; [done|]. by rewrite IHStronglySorted, insert_by_id. Qed.

(** A list strictly sorted by key is determined by its elements. *)
Lemma lt_sorted_ext l1 l2 :
  StronglySorted lt_key l1 → StronglySorted lt_key l2 →
  (∀ x, x ∈ l1 ↔ x ∈ l2) → l1 = l2.
Proof.
  intros H1. revert l2. induction H1 as [|x l1 Hs IH Hx]; intros l2 H2 Hel.
  - destruct l2 as [|y l2]; [done|]. exfalso. apply (not_elem_of_nil y), Hel. left.
  - destruct H2 as [|y l2 Hs2 Hy].
    { exfalso. apply (not_elem_of_nil x), Hel. left. }
    rewrite Forall_forall in Hx, Hy.
    assert (x = y) as ->.
    { assert (x ∈ y :: l2) as [->|Hin]%elem_of_cons by (apply Hel; left); [done|].
      assert (y ∈ x :: l1) as [->|Hin']%elem_of_cons by (apply Hel; left); [done|].
      exfalso. apply Hy in Hin. apply Hx in Hin'.
      apply (kltb_ne (key x) (key x)); [|done]. eauto using kltb_trans. }
    f_equal. apply IH; [done|]. intros z.
    assert (∀ l : list A, (∀ z, z ∈ l → lt_key y z) → y ∉ l) as Hnot.
    { intros l Hl Hin%Hl. unfold lt_key in Hin. by rewrite kltb_irrefl in Hin. }
    split; intros Hz.
    + assert (z ∈ y :: l2) as [->|?]%elem_of_cons by (apply Hel; by right); [|done].
      by destruct (Hnot l1).
    + assert (z ∈ y :: l1) as [->|?]%elem_of_cons by (apply Hel; by right); [|done].
      by destruct (Hnot l2).
Qed.

Lemma lt_sorted_le l : StronglySorted lt_key l → StronglySorted le_key l.
Proof.
  induction 1; constructor; [done|]. eapply Forall_impl; [done|]. intros ?. apply kltb_leb.
Qed.

Lemma lt_sorted_key_inj l x y :
  StronglySorted lt_key l → x ∈ l → y ∈ l → key x = key y → x = y.
Proof.
  induction 1 as [|z l Hs IH Hz]; [by intros ?%elem_of_nil|].
  rewrite Forall_forall in Hz.
  intros [->|Hx]%elem_of_cons [->|Hy]%elem_of_cons Hk; [done| | |by apply IH].
  - apply Hz, kltb_ne in Hy. done.
  - apply Hz, kltb_ne in Hx. congruence.
Qed.
End sorting.

(** [Vec::dedup_by(|a, b| same a b)]: an element equal to the last one kept is dropped. *)
Fixpoint dedup_by_aux {A} (same : A → A → bool) (kept : A) (l : list A) : list A :=
  match l with
  | [] => []
  | x :: l' => if same x kept then dedup_by_aux same kept l' else x :: dedup_by_aux same x l'
  end.

Definition dedup_by {A} (same : A → A → bool) (l : list A) : list A :=
  match l with [] => [] | x :: l' => x :: dedup_by_aux same x l' end.

(** First element with a given key. *)
Fixpoint find_key {A K} `{EqDecision K} (key : A → K) (k : K) (l : list A) : option A :=
  match l with
  | [] => None
  | x :: l' => if decide (key x = k) then Some x else find_key key k l'
  end.

Section find_key.
Context {A K : Type} `{EqDecision K, OrdKey K} (key : A → K).

Lemma find_key_key k l x : find_key key k l = Some x → key x = k ∧ x ∈ l.
Proof.
  induction l as [|y l IH]; cbn; [done|]. case_decide; intros; simplify_eq.
  - split; [done|left].
  - destruct IH; [done|]. split; [done|by right].
Qed.

Lemma find_key_None k l : find_key key k l = None ↔ ∀ x, x ∈ l → key x ≠ k.
Proof.
  induction l as [|y l IH]; cbn.
  - split; [by intros _ x ?%elem_of_nil|done].
  - case_decide; (split; [|intros Hall]).
    + done.
    + by destruct (Hall y); [left|].
    + rewrite IH. by intros Hall x [->|?]%elem_of_cons; auto.
    + apply IH. intros x ?. apply Hall. by right.
Qed.

Lemma find_key_app k l1 l2 :
  find_key key k (l1 ++ l2) = match find_key key k l1 with Some x => Some x | None => find_key key k l2 end.
Proof. induction l1 as [|y l1 IH]; cbn; [done|]. by case_decide. Qed.

Lemma find_key_insert_by k x l :
  find_key key k (insert_by key x l) = if decide (key x = k) then Some x else find_key key k l.
Proof.
  induction l as [|y l IH]; cbn; [done|]. destruct (kleb (key x) (key y)) eqn:Hle; cbn.
  - done.
  - rewrite IH. destruct (decide (key y = k)) as [Hy|], (decide (key x = k)) as [Hx|]; try done.
    by rewrite Hx, Hy, kleb_refl in Hle.
Qed.

(** The sort is stable: the first element with a key stays the first. *)
Lemma find_key_sort k l : find_key key k (sort_by_key key l) = find_key key k l.
Proof. induction l as [|x l IH]; cbn; [done|]. by rewrite find_key_insert_by, IH. Qed.

Definition same_key (a b : A) : bool := bool_decide (key a = key b).

Lemma find_key_dedup_aux k y l :
  key y ≠ k → find_key key k (dedup_by_aux same_key y l) = find_key key k l.
Proof.
  revert y. induction l as [|x l IH]; intros y Hy; cbn; [done|].
  unfold same_key at 1. case_bool_decide as Hk.
  - rewrite decide_False by congruence. by apply IH.
  - cbn. case_decide; [done|]. by apply IH.
Qed.

Lemma find_key_dedup k l : find_key key k (dedup_by same_key l) = find_key key k l.
Proof. destruct l as [|x l]; cbn; [done|]. case_decide; [done|]. by apply find_key_dedup_aux. Qed.

Lemma dedup_aux_sorted y l :
  StronglySorted (le_key key) l → Forall (le_key key y) l →
  StronglySorted (lt_key key) (dedup_by_aux same_key y l) ∧ Forall (lt_key key y) (dedup_by_aux same_key y l).
Proof.
  intros Hs. revert y. induction Hs as [|x l Hs IH Hx]; intros y Hy; cbn; [by split; constructor|].
  inv Hy. destruct (same_key x y) eqn:Hsk; unfold same_key in Hsk; bool_prop; [by apply IH|].
  destruct (IH x Hx) as [Hd1 Hd2].
  assert (lt_key key y x) as Hlt by (apply kleb_ne_ltb; [done|congruence]).
  split; [by constructor|]. constructor; [done|].
  eapply Forall_impl; [exact Hd2|]. unfold lt_key in *. eauto using kltb_trans.
Qed.

Lemma dedup_sorted l : StronglySorted (le_key key) l → StronglySorted (lt_key key) (dedup_by same_key l).
Proof. destruct 1; cbn; [constructor|]. edestruct dedup_aux_sorted; [done..|]. by constructor. Qed.

Lemma elem_of_lt_sorted l x :
  StronglySorted (lt_key key) l → x ∈ l ↔ find_key key (key x) l = Some x.
Proof.
  intros Hs. split; [|by intros [_ ?]%find_key_key].
  intros Hx. destruct (find_key key (key x) l) as [y|] eqn:Hf.
  - apply find_key_key in Hf as [Hk Hy]. f_equal. by eapply lt_sorted_key_inj.
  - by destruct (proj1 (find_key_None _ _) Hf x).
Qed.

Lemma lt_sorted_find_ext l1 l2 :
  StronglySorted (lt_key key) l1 → StronglySorted (lt_key key) l2 →
  (∀ k, find_key key k l1 = find_key key k l2) → l1 = l2.
Proof.
  intros H1 H2 He. apply (lt_sorted_ext key); [done..|]. intros x.
  by rewrite !elem_of_lt_sorted, He.
Qed.
End find_key.

(** ** [BTreeMap]

    [collect] inserts in order, so of two entries with one key the later wins;
    iteration is in ascending key order. *)

Section btree.
Context {K V : Type} `{Countable K, OrdKey K}.

Definition bt_collect (l : list (K * V)) : gmap K V := foldl (λ m p, <[p.1 := p.2]> m) ∅ l.
Definition bt_iter (m : gmap K V) : list (K * V) := sort_by_key fst (map_to_list m).
Definition bt_keys (m : gmap K V) : list K := (bt_iter m).*1.
Definition bt_values (m : gmap K V) : list V := (bt_iter m).*2.

Lemma elem_of_bt_iter m k v : (k, v) ∈ bt_iter m ↔ m !! k = Some v.
Proof. unfold bt_iter. by rewrite elem_of_sort_by_key, elem_of_map_to_list. Qed.

Lemma bt_iter_NoDup m : NoDup (bt_iter m).*1.
Proof. unfold bt_iter. rewrite sort_by_key_perm. apply NoDup_fst_map_to_list. Qed.

Lemma le_sorted_NoDup_lt {A} (key : A → K) l :
  StronglySorted (le_key key) l → NoDup (key <$> l) → StronglySorted (lt_key key) l.
Proof.
  induction 1 as [|x l Hs IH Hx]; intros Hnd; [constructor|].
  cbn in Hnd. apply NoDup_cons in Hnd as [Hn Hnd].
  constructor; [by apply IH|]. rewrite Forall_forall in *. intros y Hy.
  apply kleb_ne_ltb; [by apply Hx|]. intros Hk. apply Hn. rewrite Hk. by apply list_elem_of_fmap_2.
Qed.

Lemma bt_iter_sorted m : StronglySorted (lt_key fst) (bt_iter m).
Proof. apply le_sorted_NoDup_lt; [apply sort_by_key_sorted|apply bt_iter_NoDup]. Qed.

Lemma elem_of_bt_keys m k : k ∈ bt_keys m ↔ is_Some (m !! k).
Proof.
  unfold bt_keys. rewrite list_elem_of_fmap. split.
  - intros [[k' v] [-> Hin]]. apply elem_of_bt_iter in Hin. eauto.
  - intros [v Hv]. exists (k, v). by rewrite elem_of_bt_iter.
Qed.

Lemma elem_of_bt_values m v : v ∈ bt_values m ↔ ∃ k, m !! k = Some v.
Proof.
  unfold bt_values. rewrite list_elem_of_fmap. split.
  - intros [[k v'] [-> Hin]]. apply elem_of_bt_iter in Hin. eauto.
  - intros [k Hv]. exists (k, v). by rewrite elem_of_bt_iter.
Qed.

Lemma bt_collect_snoc l p : bt_collect (l ++ [p]) = <[p.1 := p.2]> (bt_collect l).
Proof. unfold bt_collect. by rewrite foldl_snoc. Qed.
End btree.

(** Sort by key and drop duplicates, keeping the one that came last. *)
Definition keep_last_sorted {A K} `{EqDecision K, OrdKey K} (key : A → K) (l : list A) : list A :=
  dedup_by (same_key key) (sort_by_key key (reverse l)).

Section keep_last.
Context {A K : Type} `{Countable K, OrdKey K} (key : A → K).

Lemma keep_last_sorted_sorted l : StronglySorted (lt_key key) (keep_last_sorted key l).
Proof. apply dedup_sorted, sort_by_key_sorted. Qed.

Lemma find_key_keep_last k l :
  find_key key k (keep_last_sorted key l) = find_key key k (reverse l).
Proof. unfold keep_last_sorted. by rewrite find_key_dedup, find_key_sort. Qed.

Lemma keep_last_sorted_id l : StronglySorted (lt_key key) l → keep_last_sorted key l = l.
Proof.
  intros Hs. apply (lt_sorted_find_ext key); [apply keep_last_sorted_sorted|done|].
  intros k. rewrite find_key_keep_last.
  destruct (find_key key k (reverse l)) as [x|] eqn:Hf.
  - apply find_key_key in Hf as [<- Hx]. rewrite elem_of_reverse in Hx.
    symmetry. by apply elem_of_lt_sorted.
  - symmetry. apply find_key_None. intros x Hx.
    apply (proj1 (find_key_None key k _) Hf). by rewrite elem_of_reverse.
Qed.

Definition keyed (l : list A) : list (K * A) := (λ x, (key x, x)) <$> l.

Lemma bt_collect_keyed l k : bt_collect (keyed l) !! k = find_key key k (reverse l).
Proof.
  unfold keyed. induction l as [|x l IH] using rev_ind; [done|].
  rewrite fmap_app, list_fmap_singleton, bt_collect_snoc, reverse_snoc. cbn.
  case_decide as Hk; [subst; by rewrite lookup_insert_eq|]. by rewrite lookup_insert_ne.
Qed.

(** Values of a map whose entries sit under their own key come out strictly sorted. *)
Definition self_keyed (m : gmap K A) : Prop := map_Forall (λ k x, key x = k) m.

Lemma bt_collect_self_keyed l : self_keyed (bt_collect (keyed l)).
Proof. intros k x. rewrite bt_collect_keyed. by intros [? _]%find_key_key. Qed.

Lemma bt_values_sorted m : self_keyed m → StronglySorted (lt_key key) (bt_values m).
Proof.
  intros Hm. unfold bt_values.
  assert (Forall (λ p : K * A, key p.2 = p.1) (bt_iter m)) as Hall.
  { apply Forall_forall. intros [k x] Hin%elem_of_bt_iter. by apply Hm. }
  pose proof (bt_iter_sorted m) as Hs. induction Hs as [|[k x] l Hs IH Hx]; cbn; [constructor|].
  inv Hall. constructor; [by apply IH|]. rewrite Forall_fmap.
  rewrite Forall_forall in *. intros [k' y] Hy. specialize (Hx _ Hy).
  match goal with Hf : ∀ z, z ∈ l → _ |- _ => specialize (Hf _ Hy) end.
  unfold lt_key in *; cbn in *. congruence.
Qed.

Lemma find_key_bt_values m k : self_keyed m → find_key key k (bt_values m) = m !! k.
Proof.
  intros Hm. destruct (m !! k) as [x|] eqn:Hk.
  - pose proof (Hm _ _ Hk) as Hkx; cbn in Hkx. rewrite <- Hkx. apply elem_of_lt_sorted; [by apply bt_values_sorted|].
    apply elem_of_bt_values. eauto.
  - apply find_key_None. intros x [k' Hx]%elem_of_bt_values Hkx.
    pose proof (Hm _ _ Hx) as Hk'; cbn in Hk'. congruence.
Qed.

Lemma bt_values_find_ext m l :
  self_keyed m → StronglySorted (lt_key key) l → (∀ k, m !! k = find_key key k l) → bt_values m = l.
Proof.
  intros Hm Hl He. apply (lt_sorted_find_ext key); [by apply bt_values_sorted|done|].
  intros k. by rewrite find_key_bt_values, He.
Qed.

(** Collecting into a map and sorting with "last wins" are the same thing. *)
Lemma keep_last_sorted_collect l : keep_last_sorted key l = bt_values (bt_collect (keyed l)).
Proof.
  symmetry. apply bt_values_find_ext; [apply bt_collect_self_keyed|apply keep_last_sorted_sorted|].
  intros k. by rewrite bt_collect_keyed, find_key_keep_last.
Qed.
End keep_last.

(** ** [slice::binary_search_by_key]

    The index of an element with the key, by halving [lo, hi). *)

Section bsearch.
Context {A K : Type} `{EqDecision K, OrdKey K} (key : A → K).

Fixpoint bsearch_aux (fuel lo hi : nat) (k : K) (l : list A) : option nat :=
  match fuel with
  | O => None
  | S fuel' =>
    if (lo <? hi)%nat then
      let mid := (lo + (hi - lo) / 2)%nat in
      match l !! mid with
      | None => None
      | Some x =>
        if decide (key x = k) then Some mid
        else if kltb (key x) k then bsearch_aux fuel' (S mid) hi k l
        else bsearch_aux fuel' lo mid k l
      end
    else None
  end.

Definition binary_search_by_key (k : K) (l : list A) : option nat :=
  bsearch_aux (S (length l)) 0 (length l) k l.

Lemma lt_sorted_lookup l i j x y :
  StronglySorted (lt_key key) l → l !! i = Some x → l !! j = Some y → (i < j)%nat →
  kltb (key x) (key y) = true.
Proof.
  intros Hs. revert i j. induction Hs as [|z l Hs IH Hz]; intros i j Hi Hj Hij; [done|].
  destruct j as [|j]; [lia|]. cbn in Hj. destruct i as [|i]; cbn in Hi.
  - simplify_eq. rewrite Forall_forall in Hz. apply Hz, list_elem_of_lookup. eauto.
  - apply (IH i j); [done..|lia].
Qed.

Lemma bsearch_aux_Some fuel lo hi k l i :
  bsearch_aux fuel lo hi k l = Some i → ∃ x, l !! i = Some x ∧ key x = k.
Proof.
  revert lo hi. induction fuel as [|fuel IH]; intros lo hi; cbn; [by intros|]. intros Hb.
  repeat case_in Hb; eauto.
Qed.

Lemma bsearch_aux_None fuel lo hi k l :
  StronglySorted (lt_key key) l → (hi - lo < fuel)%nat → (hi ≤ length l)%nat →
  (∀ i x, l !! i = Some x → (i < lo)%nat → kltb (key x) k = true) →
  (∀ i x, l !! i = Some x → (hi ≤ i)%nat → kltb k (key x) = true) →
  bsearch_aux fuel lo hi k l = None → ∀ x, x ∈ l → key x ≠ k.
Proof.
  intros Hs. revert lo hi. induction fuel as [|fuel IH]; intros lo hi Hf Hh Hlo Hhi; [lia|]. cbn [bsearch_aux]. cbv zeta.
  destruct (Nat.ltb_spec lo hi) as [Hlt|Hge].
  - set (mid := (lo + (hi - lo) / 2)%nat).
    assert (lo ≤ mid < hi)%nat as Hm by (pose proof (Nat.div_lt (hi - lo) 2); lia).
    destruct (l !! mid) as [x|] eqn:Hx; [|apply lookup_ge_None in Hx; lia].
    case_decide as Hk; [done|]. destruct (kltb (key x) k) eqn:Hlk.
    + apply IH; [lia..| |done]. intros i y Hy Hi.
      destruct (decide (i = mid)) as [->|]; [by simplify_eq|].
      eapply kltb_trans; [|exact Hlk]. eapply lt_sorted_lookup; [done..|lia].
    + assert (kltb k (key x) = true) as Hkx.
      { apply kleb_ne_ltb; [|congruence]. by apply negb_false_iff. }
      apply IH; [lia..|done|]. intros i y Hy Hi.
      destruct (decide (i = mid)) as [->|]; [by simplify_eq|].
      eapply kltb_trans; [exact Hkx|]. eapply lt_sorted_lookup; [done..|lia].
  - intros _ x [i Hi]%list_elem_of_lookup Hk. destruct (decide (i < lo)%nat).
    + by destruct (kltb_ne _ _ (Hlo _ _ Hi ltac:(done))).
    + by destruct (kltb_ne _ _ (Hhi _ _ Hi ltac:(lia))).
Qed.

(** On a strictly sorted list the search is exact. *)
Lemma binary_search_find l k :
  StronglySorted (lt_key key) l →
  match binary_search_by_key k l with Some i => l !! i | None => None end = find_key key k l.
Proof.
  intros Hs. unfold binary_search_by_key. destruct (bsearch_aux _ _ _ _ _) as [i|] eqn:Hb.
  - apply bsearch_aux_Some in Hb as (x & Hx & <-). rewrite Hx. symmetry.
    apply elem_of_lt_sorted; [done|]. apply list_elem_of_lookup. eauto.
  - symmetry. apply find_key_None. eapply bsearch_aux_None; [done| | | | |exact Hb]; [lia..|].
    intros i x Hx%lookup_lt_Some. lia.
Qed.
End bsearch.

(** ** [BTreeSet]: a [gset], iterated in ascending order *)

Definition bs_iter {A} `{Countable A, OrdKey A} (s : gset A) : list A := sort_by_key (λ x : A, x) (elements s).

Lemma elem_of_bs_iter {A} `{Countable A, OrdKey A} (s : gset A) x : x ∈ bs_iter s ↔ x ∈ s.
Proof. unfold bs_iter. by rewrite elem_of_sort_by_key, elem_of_elements. Qed.

Lemma bs_iter_NoDup {A} `{Countable A, OrdKey A} (s : gset A) : NoDup (bs_iter s).
Proof. unfold bs_iter. rewrite sort_by_key_perm. apply NoDup_elements. Qed.
