(* ===== verification/Ipnet.v ===== *)
(** * Addresses and prefixes

    [std::net::IpAddr] with the predicates the program uses, the data of
    [ipnet::IpNet], and the interface of the [ipnet] crate: its operations are
    parameters ([IpNetOps]), its documented behaviour a class of laws
    ([IpNetLaws]), and [ipnet_ref] is one implementation that satisfies them. *)

From Stdlib Require Import Ascii.
From S2P Require Import Prelude Ordered.

(** ** [std::net::IpAddr] *)

Inductive IpAddr : Type :=
| V4 (a : Z)
| V6 (a : Z).

#[export] Instance IpAddr_eq_dec : EqDecision IpAddr.
Proof. solve_decision. Defined.

#[export] Instance IpAddr_countable : Countable IpAddr.
Proof.
  refine (inj_countable' (λ ip, match ip with V4 a => inl a | V6 a => inr a end)
    (λ s : Z + Z, match s with inl a => V4 a | inr a => V6 a end) _).
  by intros [].
Defined.

Definition wf_addr (ip : IpAddr) : Prop :=
  match ip with V4 a => u_range 32 a | V6 a => u_range 128 a end.

Definition ip_is_ipv4 (ip : IpAddr) : bool := match ip with V4 _ => true | V6 _ => false end.
Definition ip_width (ip : IpAddr) : Z := match ip with V4 _ => 32 | V6 _ => 128 end.
Definition ip_bits (ip : IpAddr) : Z := match ip with V4 a => a | V6 a => a end.

Definition ip_is_loopback (ip : IpAddr) : bool :=
  match ip with V4 a => a / 2 ^ 24 =? 127 | V6 a => a =? 1 end.
Definition ip_is_unspecified (ip : IpAddr) : bool := ip_bits ip =? 0.
Definition ip_is_multicast (ip : IpAddr) : bool :=
  match ip with V4 a => a / 2 ^ 28 =? 14 | V6 a => a / 2 ^ 120 =? 255 end.
Definition ip_is_broadcast (ip : IpAddr) : bool :=
  match ip with V4 a => a =? u32_max | V6 _ => false end.

(** ** [ipnet::IpNet] *)

Inductive IpNet : Type :=
| Net4 (addr len : Z)
| Net6 (addr len : Z).

#[export] Instance IpNet_eq_dec : EqDecision IpNet.
Proof. solve_decision. Defined.

#[export] Instance IpNet_countable : Countable IpNet.
Proof.
  refine (inj_countable'
    (λ n, match n with Net4 a l => inl (a, l) | Net6 a l => inr (a, l) end)
    (λ s : (Z * Z) + (Z * Z), match s with inl (a, l) => Net4 a l | inr (a, l) => Net6 a l end) _).
  by intros [].
Defined.

Definition net_addr (n : IpNet) : IpAddr := match n with Net4 a _ => V4 a | Net6 a _ => V6 a end.
Definition net_prefix_len (n : IpNet) : Z := match n with Net4 _ l => l | Net6 _ l => l end.
Definition net_width (n : IpNet) : Z := ip_width (net_addr n).
Definition same_family (a b : IpAddr) : bool := Bool.eqb (ip_is_ipv4 a) (ip_is_ipv4 b).

(** What [Ipv4Net::new] and [Ipv6Net::new] accept. *)
Definition wf_net (n : IpNet) : Prop := wf_addr (net_addr n) ∧ 0 ≤ net_prefix_len n ≤ net_width n.

(** The derived orders: the IPv4 variant first, then field by field. *)
#[export] Instance OrdKey_IpAddr : OrdKey IpAddr :=
  ord_by (λ ip, match ip with V4 a => (0, a) | V6 a => (1, a) end) ltac:(by intros [] [] [=]; subst).

#[export] Instance OrdKey_IpNet : OrdKey IpNet :=
  ord_by (λ n, match n with Net4 a l => (0, (a, l)) | Net6 a l => (1, (a, l)) end) ltac:(by intros [] [] [=]; subst).

(** The block number of an address at a prefix length. *)
Definition block (w len a : Z) : Z := a / 2 ^ (w - len).

Definition set_addr (n : IpNet) (a : Z) : IpNet :=
  match n with Net4 _ l => Net4 a l | Net6 _ l => Net6 a l end.

(** The host prefix of an address: /32 or /128. *)
Definition host_net (ip : IpAddr) : IpNet := match ip with V4 a => Net4 a 32 | V6 a => Net6 a 128 end.

Class IpNetOps := {
  net_contains : IpNet → IpAddr → bool;
  net_contains_net : IpNet → IpNet → bool;
  net_trunc : IpNet → IpNet;
  net_network : IpNet → IpAddr;
  net_broadcast : IpNet → IpAddr;
  net_to_string : IpNet → string;
  net_parse : string → option IpNet;
}.

Definition mask_low (w len a : Z) : Z := block w len a * 2 ^ (w - len).

Class IpNetLaws (O : IpNetOps) : Prop := {
  net_contains_spec n ip : wf_net n → wf_addr ip →
    net_contains n ip = true ↔
    same_family (net_addr n) ip = true ∧
    block (net_width n) (net_prefix_len n) (ip_bits (net_addr n)) =
    block (net_width n) (net_prefix_len n) (ip_bits ip);
  net_contains_net_spec n m : wf_net n → wf_net m →
    net_contains_net n m = true ↔
    same_family (net_addr n) (net_addr m) = true ∧ net_prefix_len n ≤ net_prefix_len m ∧
    block (net_width n) (net_prefix_len n) (ip_bits (net_addr n)) =
    block (net_width n) (net_prefix_len n) (ip_bits (net_addr m));
  net_trunc_spec n : wf_net n →
    net_trunc n = set_addr n (mask_low (net_width n) (net_prefix_len n) (ip_bits (net_addr n)));
  net_trunc_twice n : net_trunc (net_trunc n) = net_trunc n;
  net_network_spec n : wf_net n → net_network n = net_addr (net_trunc n);
  net_broadcast_spec n : wf_net n →
    net_broadcast n = net_addr (set_addr n
      (mask_low (net_width n) (net_prefix_len n) (ip_bits (net_addr n)) + 2 ^ (net_width n - net_prefix_len n) - 1));
  net_parse_to_string n : net_parse (net_to_string n) = Some n;
}.

(** ** A reference implementation *)

Fixpoint pos_bits (p : positive) : string :=
  match p with xH => EmptyString | xO q => String "0"%char (pos_bits q) | xI q => String "1"%char (pos_bits q) end.

Fixpoint bits_pos (s : string) : positive :=
  match s with
  | EmptyString => xH
  | String c s' => if Ascii.eqb c "0"%char then xO (bits_pos s') else xI (bits_pos s')
  end.

Lemma bits_pos_bits p : bits_pos (pos_bits p) = p.
Proof. induction p; cbn; by f_equal. Qed.

#[export] Instance ipnet_ref : IpNetOps := {|
  net_contains n ip :=
    same_family (net_addr n) ip &&
    (block (net_width n) (net_prefix_len n) (ip_bits (net_addr n)) =?
     block (net_width n) (net_prefix_len n) (ip_bits ip));
  net_contains_net n m :=
    same_family (net_addr n) (net_addr m) && (net_prefix_len n <=? net_prefix_len m) &&
    (block (net_width n) (net_prefix_len n) (ip_bits (net_addr n)) =?
     block (net_width n) (net_prefix_len n) (ip_bits (net_addr m)));
  net_trunc n := set_addr n (mask_low (net_width n) (net_prefix_len n) (ip_bits (net_addr n)));
  net_network n :=
    net_addr (set_addr n (mask_low (net_width n) (net_prefix_len n) (ip_bits (net_addr n))));
  net_broadcast n := net_addr (set_addr n
      (mask_low (net_width n) (net_prefix_len n) (ip_bits (net_addr n)) + 2 ^ (net_width n - net_prefix_len n) - 1));
  net_to_string n := pos_bits (encode n);
  net_parse s := decode (bits_pos s);
|}.

#[export] Instance ipnet_ref_laws : IpNetLaws ipnet_ref.
Proof.
  constructor; cbn; try done.
  - intros n ip _ _. by rewrite andb_true_iff, Z.eqb_eq.
  - intros n m _ _. rewrite !andb_true_iff, Z.leb_le, Z.eqb_eq. tauto.
  - intros n. assert (∀ w len a, mask_low w len (mask_low w len a) = mask_low w len a) as Hm.
    { intros w len a. unfold mask_low, block. destruct (decide (2 ^ (w - len) = 0)) as [->|]; [lia|]. by rewrite Z.div_mul. }
    destruct n as [a l|a l]; unfold net_width; cbn; by rewrite Hm.
  - intros n. by rewrite bits_pos_bits, decode_encode.
Qed.

(** ** Consequences of the laws *)

Section laws.
Context `{O : IpNetOps, !IpNetLaws O}.

Lemma net_to_string_inj n m : net_to_string n = net_to_string m → n = m.
Proof.
  intros He. apply (f_equal net_parse) in He. rewrite !net_parse_to_string in He. congruence.
Qed.

Lemma wf_net_len n : wf_net n → 0 ≤ net_prefix_len n ≤ net_width n.
Proof. by intros [_ ?]. Qed.

Lemma mask_low_block w len a : 0 ≤ len ≤ w → block w len (mask_low w len a) = block w len a.
Proof. intros. unfold mask_low, block. apply Z.div_mul. apply Z.pow_nonzero; lia. Qed.

Lemma mask_low_range w len a : 0 ≤ len ≤ w → u_range w a → u_range w (mask_low w len a).
Proof.
  unfold u_range, mask_low, block. intros Hl Ha.
  assert (0 < 2 ^ (w - len)) by (apply Z.pow_pos_nonneg; lia).
  pose proof (Z.mul_div_le a (2 ^ (w - len))). pose proof (Z.div_pos a (2 ^ (w - len))). nia.
Qed.

Lemma trunc_len n : wf_net n → net_prefix_len (net_trunc n) = net_prefix_len n.
Proof. intros Hw. rewrite net_trunc_spec by done. by destruct n. Qed.

Lemma trunc_wf n : wf_net n → wf_net (net_trunc n).
Proof.
  intros Hw. rewrite net_trunc_spec by done. destruct Hw as [Ha Hl].
  destruct n as [a l|a l]; cbn in *; (split; cbn; [by apply mask_low_range|done]).
Qed.

Lemma trunc_idemp n : wf_net n → net_trunc (net_trunc n) = net_trunc n.
Proof.
  intros Hw. rewrite (net_trunc_spec (net_trunc n)) by by apply trunc_wf.
  rewrite net_trunc_spec by done. destruct Hw as [_ Hl].
  destruct n as [a l|a l]; unfold net_width in *; cbn in *; f_equal;
    unfold mask_low at 1; by rewrite mask_low_block.
Qed.

Lemma contains_trunc n ip : wf_net n → wf_addr ip → net_contains (net_trunc n) ip = net_contains n ip.
Proof.
  intros Hw Hi. apply eq_true_iff_eq.
  rewrite !net_contains_spec by auto using trunc_wf. rewrite net_trunc_spec by done.
  destruct Hw as [_ Hl]. destruct n as [a l|a l]; unfold net_width in *; cbn in *;
    by rewrite mask_low_block.
Qed.

Lemma wf_host_net ip : wf_addr ip → wf_net (host_net ip).
Proof. by destruct ip; intros; (split; [done|unfold net_width; cbn; lia]). Qed.

Lemma contains_host_net n ip : wf_net n → wf_addr ip → net_contains_net n (host_net ip) = net_contains n ip.
Proof.
  intros Hw Hi. apply eq_true_iff_eq.
  rewrite net_contains_spec, net_contains_net_spec by auto using wf_host_net.
  pose proof (wf_net_len n Hw). destruct n, ip; unfold net_width in *; cbn in *; intuition (done || lia).
Qed.

Lemma block_coarser w l1 l2 a : 0 ≤ l1 ≤ l2 → l2 ≤ w → block w l1 a = block w l2 a / 2 ^ (l2 - l1).
Proof.
  intros H1 H2. unfold block. rewrite Z.div_div by (try apply Z.pow_nonzero; try apply Z.pow_pos_nonneg; lia). rewrite <- Z.pow_add_r by lia. do 2 f_equal. lia.
Qed.

(** Of two prefixes that share an address the longer lies in the shorter. *)
Lemma contains_nested n m ip : wf_net n → wf_net m → wf_addr ip → net_contains n ip = true → net_contains m ip = true →
  net_prefix_len n ≤ net_prefix_len m → net_contains_net n m = true.
Proof.
  intros Hn Hm Hi [Fn Bn]%net_contains_spec [Fm Bm]%net_contains_spec Hl; [|done..]. apply net_contains_net_spec; [done..|].
  pose proof (wf_net_len _ Hn). pose proof (wf_net_len _ Hm).
  assert (net_width m = net_width n) as Hw.
  { clear -Fn Fm. unfold net_width, same_family in *. by destruct (net_addr n), (net_addr m), ip. }
  split; [|split; [done|]].
  - clear -Fn Fm. unfold same_family in *. by destruct (net_addr n), (net_addr m), ip.
  - rewrite Bn, (block_coarser (net_width n) (net_prefix_len n) (net_prefix_len m) (ip_bits ip)) by lia.
    rewrite (block_coarser (net_width n) (net_prefix_len n) (net_prefix_len m) (ip_bits (net_addr m))) by lia.
    rewrite Hw in Bm. by rewrite Bm.
Qed.

Lemma contains_network n m : wf_net n → wf_net m → net_contains_net n m = true → net_contains n (net_network m) = true.
Proof.
  intros Hn Hm (Hf & Hl & Hb)%net_contains_net_spec; [|done..]. rewrite net_network_spec by done. pose proof (trunc_wf m Hm) as [Hw _].
  apply net_contains_spec; [done..|]. pose proof (wf_net_len _ Hm). rewrite net_trunc_spec by done.
  assert (net_width n = net_width m) as E by (clear -Hf; unfold net_width, same_family in *; by destruct (net_addr n), (net_addr m)).
  assert (block (net_width n) (net_prefix_len n) (mask_low (net_width m) (net_prefix_len m) (ip_bits (net_addr m))) =
          block (net_width n) (net_prefix_len n) (ip_bits (net_addr m))) as Hk.
  { pose proof (wf_net_len _ Hn). rewrite !(block_coarser _ (net_prefix_len n) (net_prefix_len m)) by lia. rewrite E. by rewrite mask_low_block by lia. }
  split; [by destruct m|]. rewrite Hb, <- Hk. by destruct m.
Qed.

(** Two prefixes that share an address: one holds the other's network address. *)
Lemma share_network n m ip : wf_net n → wf_net m → wf_addr ip → net_contains n ip = true → net_contains m ip = true →
  net_contains n (net_network m) = true ∨ net_contains m (net_network n) = true.
Proof.
  intros Hn Hm Hi Cn Cm. destruct (Z.le_ge_cases (net_prefix_len n) (net_prefix_len m)); [left|right]; (apply contains_network; [done..|]; by eapply (contains_nested _ _ ip)).
Qed.
End laws.
