(* ===== verification/Text.v ===== *)
(** * Strings of the standard library

    What the program uses of [str] and of [IpAddr]'s textual form, on strings
    as their UTF-8 bytes: trimming, prefixes, the parser of [FromStr] and the
    printer of [Display]. *)

From Stdlib Require Import Ascii.
From S2P Require Import Prelude Ordered Ipnet.

Definition str_bytes (s : string) : list Z := (λ c, Z.of_nat (nat_of_ascii c)) <$> String.list_ascii_of_string s.
Definition bytes_str (l : list Z) : string := String.string_of_list_ascii ((λ b, ascii_of_nat (Z.to_nat b)) <$> l).

Lemma str_bytes_inj a b : str_bytes a = str_bytes b → a = b.
Proof.
  assert (Inj (=) (=) (λ c, Z.of_nat (nat_of_ascii c))) as Hinj.
  { intros x y Hxy. apply Nat2Z.inj in Hxy. apply (f_equal ascii_of_nat) in Hxy. by rewrite !ascii_nat_embedding in Hxy. }
  unfold str_bytes. intros He. apply (inj (fmap _)) in He.
  apply (f_equal String.string_of_list_ascii) in He. by rewrite !String.string_of_list_ascii_of_string in He.
Qed.

(** ** Characters *)

Definition is_ascii_digit (b : Z) : bool := (48 <=? b) && (b <=? 57).
Definition is_ascii_alpha (b : Z) : bool := ((65 <=? b) && (b <=? 90)) || ((97 <=? b) && (b <=? 122)).
Definition is_ascii_hexdigit (b : Z) : bool :=
  is_ascii_digit b || ((65 <=? b) && (b <=? 70)) || ((97 <=? b) && (b <=? 102)).

(** [char::to_digit(radix)] for radix 10 and 16. *)
Definition to_digit (radix b : Z) : option Z :=
  let d := if is_ascii_digit b then b - 48 else
           if (65 <=? b) && (b <=? 70) then b - 55 else
           if (97 <=? b) && (b <=? 102) then b - 87 else 16 in
  if d <? radix then Some d else None.

(** ** [strip_prefix] and [trim] *)

Fixpoint strip_bytes (p s : list Z) : option (list Z) :=
  match p, s with
  | [], _ => Some s
  | x :: p', y :: s' => if x =? y then strip_bytes p' s' else None
  | _ :: _, [] => None
  end.

Definition strip_prefix (p s : string) : option string := bytes_str <$> strip_bytes (str_bytes p) (str_bytes s).

(** The characters with the White_Space property, encoded. *)
Definition white_space : list (list Z) :=
  [[9]; [10]; [11]; [12]; [13]; [32]; [194; 133]; [194; 160]; [225; 154; 128]] ++
  ((λ i, [226; 128; 128 + i]) <$> [0; 1; 2; 3; 4; 5; 6; 7; 8; 9; 10; 40; 41; 47]) ++
  [[226; 129; 159]; [227; 128; 128]].

Fixpoint strip_any (ws : list (list Z)) (s : list Z) : option (list Z) :=
  match ws with
  | [] => None
  | w :: ws' => match strip_bytes w s with Some s' => Some s' | None => strip_any ws' s end
  end.

(** Every turn removes a byte, so the length is enough fuel. *)
Fixpoint trim_bytes (fuel : nat) (ws : list (list Z)) (s : list Z) : list Z :=
  match fuel with
  | O => s
  | S n => match strip_any ws s with Some s' => trim_bytes n ws s' | None => s end
  end.

Definition trim (s : string) : string :=
  let b := str_bytes s in
  let b := trim_bytes (length b) white_space b in
  let b := rev (trim_bytes (length b) ((@rev Z) <$> white_space) (rev b)) in
  bytes_str b.

(** ** Splitting, and numbers *)

(** [split_once] and [rsplit_once] at an ASCII character. *)
Fixpoint split_bytes (c : Z) (s : list Z) : option (list Z * list Z) :=
  match s with
  | [] => None
  | b :: s' => if b =? c then Some ([], s') else (λ p : list Z * list Z, (b :: p.1, p.2)) <$> split_bytes c s'
  end.

Fixpoint rsplit_bytes (c : Z) (s : list Z) : option (list Z * list Z) :=
  match s with
  | [] => None
  | b :: s' =>
      match rsplit_bytes c s' with
      | Some (h, t) => Some (b :: h, t)
      | None => if b =? c then Some ([], s') else None
      end
  end.

Definition both_str (p : list Z * list Z) : string * string := (bytes_str p.1, bytes_str p.2).
Definition split_once (c : Z) (s : string) : option (string * string) := both_str <$> split_bytes c (str_bytes s).
Definition rsplit_once (c : Z) (s : string) : option (string * string) := both_str <$> rsplit_bytes c (str_bytes s).

Fixpoint skip_byte (c : Z) (s : list Z) : list Z :=
  match s with b :: s' => if b =? c then skip_byte c s' else s | [] => [] end.
Definition trim_start_matches (c : Z) (s : string) : string := bytes_str (skip_byte c (str_bytes s)).
Definition trim_end_matches (c : Z) (s : string) : string := bytes_str (rev (skip_byte c (rev (str_bytes s)))).

(** [from_str] of an unsigned integer up to [max]: a sign [+] is accepted. *)
Fixpoint parse_digits (max acc : Z) (s : list Z) : option Z :=
  match s with
  | [] => Some acc
  | b :: s' => d ← to_digit 10 b; if acc * 10 + d <=? max then parse_digits max (acc * 10 + d) s' else None
  end.

Definition parse_u16 (s : string) : option Z :=
  match match str_bytes s with 43 :: r => r | r => r end with [] => None | r => parse_digits 65535 0 r end.

(** ** Parsing addresses: the parser of [core::net]

    A reader takes the input and returns what it read and the rest; on
    failure the caller still has the input, as [read_atomically] arranges. *)

Definition reader (A : Type) := list Z → option (A * list Z).

Definition read_given_char (c : Z) : reader unit := λ s,
  match s with b :: s' => if b =? c then Some (tt, s') else None | [] => None end.

(** The digit loop of [read_number], [left] more digits allowed; a digit more,
    or a value above [max], refuses. *)
Fixpoint read_digits (left : nat) (radix max acc : Z) (s : list Z) : option (Z * list Z) :=
  match s with
  | [] => Some (acc, [])
  | b :: s' =>
      match to_digit radix b with
      | None => Some (acc, s)
      | Some d =>
          match left with
          | O => None
          | S left' => let acc := acc * radix + d in if acc <=? max then read_digits left' radix max acc s' else None
          end
      end
  end.

Definition read_number (radix : Z) (max_digits : nat) (max : Z) (allow_zero_prefix : bool) : reader Z := λ s,
  match s with
  | [] => None
  | b :: _ =>
      match read_digits max_digits radix max 0 s with
      | None => None
      | Some (v, s') =>
          let digit_count := (length s - length s')%nat in
          if (digit_count =? 0)%nat then None else
          if negb allow_zero_prefix && (b =? 48) && (1 <? digit_count)%nat then None else Some (v, s')
      end
  end.

Definition read_separator {A} (sep : Z) (index : nat) (inner : reader A) : reader A := λ s,
  if (0 <? index)%nat then match read_given_char sep s with Some (_, s') => inner s' | None => None end else inner s.

Fixpoint read_octets (index left : nat) (acc : Z) (s : list Z) : option (Z * list Z) :=
  match left with
  | O => Some (acc, s)
  | S left' =>
      match read_separator 46 index (read_number 10 3 255 false) s with
      | Some (o, s') => read_octets (S index) left' (acc * 256 + o) s'
      | None => None
      end
  end.

Definition read_ipv4_addr : reader Z := read_octets 0 4 0.

(** [read_groups] into [limit] slots, from slot [index]: the groups read,
    whether they end in an IPv4 address, and the rest. *)
Fixpoint read_groups (left index limit : nat) (s : list Z) : list Z * bool * list Z :=
  match left with
  | O => ([], false, s)
  | S left' =>
      let v4 := if (index <? limit - 1)%nat then read_separator 58 index read_ipv4_addr s else None in
      match v4 with
      | Some (a, s') => ([a / 2 ^ 16; a mod 2 ^ 16], true, s')
      | None =>
          match read_separator 58 index (read_number 16 4 65535 true) s with
          | Some (g, s') => let '(gs, b, s'') := read_groups left' (S index) limit s' in (g :: gs, b, s'')
          | None => ([], false, s)
          end
      end
  end.

Definition from_groups (gs : list Z) : Z := foldl (λ acc g, acc * 2 ^ 16 + g) 0 gs.

Definition read_ipv6_addr : reader Z := λ s,
  let '(front, head_ipv4, s) := read_groups 8 0 8 s in
  if (length front =? 8)%nat then Some (from_groups front, s) else
  if head_ipv4 then None else
  match read_given_char 58 s with
  | None => None
  | Some (_, s) =>
      match read_given_char 58 s with
      | None => None
      | Some (_, s) =>
          let limit := (8 - (length front + 1))%nat in
          let '(back, _, s) := read_groups limit 0 limit s in
          Some (from_groups (front ++ replicate (8 - length front - length back) 0 ++ back), s)
      end
  end.

(** [str::parse::<IpAddr>]: the whole input must be read. *)
Definition ip_parse (s : string) : option IpAddr :=
  let b := str_bytes s in
  match (match read_ipv4_addr b with
         | Some (a, r) => Some (V4 a, r)
         | None => match read_ipv6_addr b with Some (a, r) => Some (V6 a, r) | None => None end
         end) with
  | Some (ip, []) => Some ip
  | _ => None
  end.

(** ** Printing *)

(** The digits of [x], at most [fuel] of them; below [radix ^ fuel] all. *)
Fixpoint fmt_digits (fuel : nat) (radix x : Z) : list Z :=
  match fuel with
  | O => []
  | S n => (if x <? radix then [] else fmt_digits n radix (x / radix)) ++
           [let d := x mod radix in if d <? 10 then 48 + d else 87 + d]
  end.

(** [{:x}] of a [u16] and [{}] of a [u8]. *)
Definition fmt_hex16 (x : Z) : list Z := fmt_digits 4 16 x.
Definition fmt_u8 (x : Z) : list Z := fmt_digits 3 10 x.

Fixpoint join_with (sep : list Z) (ps : list (list Z)) : list Z :=
  match ps with [] => [] | [p] => p | p :: ps' => p ++ sep ++ join_with sep ps' end.

Definition fmt_ipv4 (a : Z) : list Z := join_with [46] (fmt_u8 <$> to_be 4 a).

(** [Ipv6Addr::segments]. *)
Definition segment (a i : Z) : Z := (a / 2 ^ (112 - 16 * i)) mod 2 ^ 16.
Definition segments (a : Z) : list Z := segment a <$> [0; 1; 2; 3; 4; 5; 6; 7].

(** The first of the longest runs of zero segments, as (start, length): the
    running span of the loop in [Display]. *)
Fixpoint zero_span (i : nat) (gs : list Z) (longest current : nat * nat) : nat * nat :=
  match gs with
  | [] => longest
  | g :: gs' =>
      if g =? 0 then
        let current := ((if (current.2 =? 0)%nat then i else current.1), S current.2) in
        zero_span (S i) gs' (if (longest.2 <? current.2)%nat then current else longest) current
      else zero_span (S i) gs' longest (0, 0)%nat
  end.

Definition ipv4_mapped (a : Z) : bool := a / 2 ^ 32 =? 65535.

Definition fmt_ipv6 (a : Z) : list Z :=
  if ipv4_mapped a then str_bytes "::ffff:" ++ fmt_ipv4 (a mod 2 ^ 32) else
  let gs := segments a in
  let '(start, len) := zero_span 0 gs (0, 0)%nat (0, 0)%nat in
  let groups := λ l, join_with [58] (fmt_hex16 <$> l) in
  if (1 <? len)%nat then groups (take start gs) ++ [58; 58] ++ groups (drop (start + len) gs)
  else groups gs.

Definition ip_to_string (ip : IpAddr) : string :=
  bytes_str (match ip with V4 a => fmt_ipv4 a | V6 a => fmt_ipv6 a end).

(** [IpAddr::to_canonical]: an IPv4-mapped IPv6 address is its IPv4 address. *)
Definition to_canonical (ip : IpAddr) : IpAddr :=
  match ip with
  | V6 a => if ipv4_mapped a then V4 (a mod 2 ^ 32) else V6 a
  | V4 a => V4 a
  end.

(** ** Trimming *)

Lemma bytes_of_str s : Forall is_byte (str_bytes s).
Proof.
  unfold str_bytes. apply Forall_fmap, Forall_forall. intros c _. cbn. unfold is_byte.
  pose proof (nat_ascii_bounded c). lia.
Qed.

Lemma str_bytes_bytes_str l : Forall is_byte l → str_bytes (bytes_str l) = l.
Proof.
  intros Hl. unfold str_bytes, bytes_str. rewrite String.list_ascii_of_string_of_list_ascii, <- list_fmap_compose.
  rewrite <- (list_fmap_id l) at 2. apply list_fmap_ext. intros i x Hx. cbn.
  assert (is_byte x) as [H1 H2] by (by eapply Forall_lookup_1). rewrite nat_ascii_embedding by lia. lia.
Qed.

Lemma strip_bytes_some w s s' : strip_bytes w s = Some s' ↔ s = w ++ s'.
Proof.
  revert s. induction w as [|x w IH]; intros [|y s]; cbn; try naive_solver.
  destruct (Z.eqb_spec x y) as [->|]; [rewrite IH|]; naive_solver.
Qed.

Lemma strip_any_some ws s s' : strip_any ws s = Some s' → ∃ w, w ∈ ws ∧ s = w ++ s'.
Proof.
  induction ws as [|w ws IH]; cbn; [done|]. destruct (strip_bytes w s) eqn:E.
  - intros [= ->]. apply strip_bytes_some in E. exists w. split; [left|done].
  - intros (w' & ? & ?)%IH. exists w'. split; [by right|done].
Qed.

Lemma strip_any_none ws s : strip_any ws s = None ↔ ∀ w s', w ∈ ws → s ≠ w ++ s'.
Proof.
  induction ws as [|w ws IH]; cbn; [split; [intros _ w s' []%not_elem_of_nil|done]|].
  destruct (strip_bytes w s) eqn:E.
  - apply strip_bytes_some in E. split; [done|]. intros H. exfalso. by eapply H; [left|].
  - rewrite IH. split; intros H w' s'; [intros [->|Hw]%elem_of_cons; [|by apply H]|intros; apply H; by right].
    intros He. apply strip_bytes_some in He. congruence.
Qed.

(** [trim_bytes] with enough fuel ends where nothing more can go, having
    dropped a prefix. *)
Lemma trim_bytes_spec fuel ws s : [] ∉ ws → (length s ≤ fuel)%nat →
  strip_any ws (trim_bytes fuel ws s) = None ∧ ∃ p, s = p ++ trim_bytes fuel ws s.
Proof.
  intros Hn. revert s. induction fuel as [|fuel IH]; intros s Hl; cbn.
  - destruct s; cbn in Hl; [|lia]. split; [|by exists []]. apply strip_any_none. intros w s' Hw Hs.
    symmetry in Hs. apply app_nil in Hs as [-> _]. done.
  - destruct (strip_any ws s) as [s1|] eqn:E; [|split; [done|by exists []]].
    apply strip_any_some in E as (w & Hw & ->). destruct (IH s1) as (H1 & p & Hp).
    { rewrite length_app in Hl. destruct w; [done|]. cbn in Hl. lia. }
    split; [done|]. exists (w ++ p). rewrite <- app_assoc. by f_equal.
Qed.

Lemma trim_bytes_stop fuel ws s : strip_any ws s = None → trim_bytes fuel ws s = s.
Proof. destruct fuel; cbn; [done|]. by intros ->. Qed.

Lemma white_space_nonempty : [] ∉ white_space ∧ [] ∉ (rev (A:=Z) <$> white_space).
Proof. split; by_decide. Qed.

Lemma trim_idempotent s : trim (trim s) = trim s.
Proof.
  destruct white_space_nonempty as [Hw Hr]. unfold trim at 2 3. cbn zeta.
  set (b := str_bytes s). destruct (trim_bytes_spec (length b) white_space b Hw) as (Hs1 & p & Hp); [done|].
  set (b1 := trim_bytes (length b) white_space b) in *.
  destruct (trim_bytes_spec (length b1) ((@rev Z) <$> white_space) (rev b1) Hr) as (Hs2 & q & Hq); [rewrite length_rev; done|].
  set (b2 := trim_bytes (length b1) ((@rev Z) <$> white_space) (rev b1)) in *.
  assert (b1 = rev b2 ++ rev q) as Hb1 by (rewrite <- rev_app_distr, <- Hq; by rewrite rev_involutive).
  assert (Forall is_byte (rev b2)) as Hbytes.
  { assert (Forall is_byte b) as Hb by apply bytes_of_str. rewrite Hp, Hb1 in Hb. by apply Forall_app in Hb as [_ [? _]%Forall_app]. }
  unfold trim. rewrite str_bytes_bytes_str by done. rewrite (trim_bytes_stop _ white_space (rev b2)).
  - rewrite rev_involutive. by rewrite trim_bytes_stop.
  - apply strip_any_none. intros w s' Hin He. rewrite strip_any_none in Hs1. eapply (Hs1 w (s' ++ rev q)); [done|].
    by rewrite Hb1, He, app_assoc.
Qed.
