(* ===== verification/Frame.v ===== *)
(** * Data-plane frames (crates/nqvpn-proto/src/frame.rs)

    The routed header, hop-local probes and trace notes as byte codecs, the
    in-place hop counter, and the decision vocabulary. *)

From S2P Require Import Prelude.

Definition T_DATA : Z := 0x01.
Definition T_HANDSHAKE : Z := 0x02.
Definition T_PROBE : Z := 0xF1.
Definition T_REPLY : Z := 0xF2.
Definition T_TRACE_NOTE : Z := 0xF3.

Definition ROUTED_HEADER_LEN : nat := 15.
Definition PROBE_LEN : nat := 17.
Definition TRACE_NOTE_LEN : nat := 19.
Definition FLAG_TRACE : Z := 0x01.
Definition MAX_HOPS : Z := 2.
Definition OFF_FLAGS : nat := 9.
Definition OFF_HOP : nat := 10.

(** [&buf[a..b]] inside a checked length. *)
Definition slice (a b : nat) (buf : list Z) : list Z := take (b - a) (drop a buf).

(** ** Routed header *)

Record RoutedHeader := mkRoutedHeader {
  rh_kind : Z;
  rh_src_id : Z;
  rh_dst_id : Z;
  rh_flags : Z;
  rh_hop : Z;
  rh_trace : Z;
}.

#[export] Instance RoutedHeader_eq_dec : EqDecision RoutedHeader.
Proof. solve_decision. Defined.

Definition header_new (kind src_id dst_id trace : Z) : RoutedHeader :=
  mkRoutedHeader kind src_id dst_id 0 0 trace.

Definition header_write (h : RoutedHeader) (out : list Z) : list Z :=
  out ++ [rh_kind h] ++ to_be 4 (rh_src_id h) ++ to_be 4 (rh_dst_id h) ++
  [rh_flags h] ++ [rh_hop h] ++ to_be 4 (rh_trace h).

Definition header_parse (buf : list Z) : option RoutedHeader :=
  if (length buf <? ROUTED_HEADER_LEN)%nat then None else
  let kind := buf !!! 0%nat in
  if negb (kind =? T_DATA) && negb (kind =? T_HANDSHAKE) then None else
  Some (mkRoutedHeader kind
    (from_be (slice 1 5 buf)) (from_be (slice 5 9 buf))
    (buf !!! OFF_FLAGS) (buf !!! OFF_HOP)
    (from_be (slice 11 15 buf))).

Definition header_traced (h : RoutedHeader) : bool := negb (Z.land (rh_flags h) FLAG_TRACE =? 0).

(** Count one more hop in place: the new count and the buffer, or [None] with
    the buffer untouched. *)
Definition bump_hop (buf : list Z) : option Z * list Z :=
  if (length buf <? ROUTED_HEADER_LEN)%nat then (None, buf) else
  let next := sat_add 8 (buf !!! OFF_HOP) 1 in
  if MAX_HOPS <? next then (None, buf) else (Some next, <[OFF_HOP := next]> buf).

(** ** Probes *)

Record Probe := mkProbe { pr_kind : Z; pr_seq : Z; pr_t_sent : Z }.

Definition probe_encode (p : Probe) : list Z := [pr_kind p] ++ to_be 8 (pr_seq p) ++ to_be 8 (pr_t_sent p).

Definition probe_parse (buf : list Z) : option Probe :=
  if (length buf <? PROBE_LEN)%nat || (negb (buf !!! 0%nat =? T_PROBE) && negb (buf !!! 0%nat =? T_REPLY))
  then None
  else Some (mkProbe (buf !!! 0%nat) (from_be (slice 1 9 buf)) (from_be (slice 9 17 buf))).

Definition probe_into_reply (p : Probe) : Probe := mkProbe T_REPLY (pr_seq p) (pr_t_sent p).

(** ** Decisions *)

Inductive Decision : Set :=
| DeliverLocal
| ForwardMesh
| TerminateHere
| DropSrcSpoofed
| DropNoSecondHop
| DropMeshLinkDown
| DropDstUnknown
| DropNoEndpoint
| DropTooManyHops
| DropSendFailed
| DropRateLimited
| DropMalformed.

#[export] Instance Decision_eq_dec : EqDecision Decision.
Proof. solve_decision. Defined.

Definition decision_u8 (d : Decision) : Z :=
  match d with
  | DeliverLocal => 1 | ForwardMesh => 2 | TerminateHere => 3
  | DropSrcSpoofed => 16 | DropNoSecondHop => 17 | DropMeshLinkDown => 18
  | DropDstUnknown => 19 | DropNoEndpoint => 20 | DropTooManyHops => 21
  | DropSendFailed => 22 | DropRateLimited => 23 | DropMalformed => 24
  end.

Definition decision_from_u8 (v : Z) : option Decision :=
  match v with
  | 1 => Some DeliverLocal | 2 => Some ForwardMesh | 3 => Some TerminateHere
  | 16 => Some DropSrcSpoofed | 17 => Some DropNoSecondHop | 18 => Some DropMeshLinkDown
  | 19 => Some DropDstUnknown | 20 => Some DropNoEndpoint | 21 => Some DropTooManyHops
  | 22 => Some DropSendFailed | 23 => Some DropRateLimited | 24 => Some DropMalformed
  | _ => None
  end.

Definition decision_as_str (d : Decision) : string :=
  match d with
  | DeliverLocal => "deliver_local" | ForwardMesh => "forward_mesh"
  | TerminateHere => "terminate_here" | DropSrcSpoofed => "drop_src_spoofed"
  | DropNoSecondHop => "drop_no_second_hop" | DropMeshLinkDown => "drop_mesh_link_down"
  | DropDstUnknown => "drop_dst_unknown" | DropNoEndpoint => "drop_no_endpoint"
  | DropTooManyHops => "drop_too_many_hops" | DropSendFailed => "drop_send_failed"
  | DropRateLimited => "drop_rate_limited" | DropMalformed => "drop_malformed"
  end.

Definition decision_is_drop (d : Decision) : bool := 16 <=? decision_u8 d.

Definition decision_ALL : list Decision :=
  [DeliverLocal; ForwardMesh; TerminateHere; DropSrcSpoofed; DropNoSecondHop;
   DropMeshLinkDown; DropDstUnknown; DropNoEndpoint; DropTooManyHops;
   DropSendFailed; DropRateLimited; DropMalformed].

(** ** Trace notes *)

Record TraceNote := mkTraceNote {
  tn_origin : Z;
  tn_trace : Z;
  tn_hop : Z;
  tn_relay_id : Z;
  tn_decision : Decision;
  tn_detail : Z;
}.

Definition note_encode (n : TraceNote) : list Z :=
  [T_TRACE_NOTE] ++ to_be 4 (tn_origin n) ++ to_be 4 (tn_trace n) ++ [tn_hop n] ++
  to_be 4 (tn_relay_id n) ++ [decision_u8 (tn_decision n)] ++ to_be 4 (tn_detail n).

Definition note_parse (buf : list Z) : option TraceNote :=
  if (length buf <? TRACE_NOTE_LEN)%nat || negb (buf !!! 0%nat =? T_TRACE_NOTE) then None else
  match decision_from_u8 (buf !!! 14%nat) with
  | None => None
  | Some d =>
    Some (mkTraceNote (from_be (slice 1 5 buf)) (from_be (slice 5 9 buf)) (buf !!! 9%nat)
            (from_be (slice 10 14 buf)) d (from_be (slice 15 19 buf)))
  end.

(** ** Well-formed values: every field at its width *)

Definition wf_header (h : RoutedHeader) : Prop :=
  (rh_kind h = T_DATA ∨ rh_kind h = T_HANDSHAKE) ∧
  u_range 32 (rh_src_id h) ∧ u_range 32 (rh_dst_id h) ∧
  u_range 8 (rh_flags h) ∧ u_range 8 (rh_hop h) ∧ u_range 32 (rh_trace h).

Definition wf_note (n : TraceNote) : Prop :=
  u_range 32 (tn_origin n) ∧ u_range 32 (tn_trace n) ∧ u_range 8 (tn_hop n) ∧
  u_range 32 (tn_relay_id n) ∧ u_range 32 (tn_detail n).

Definition wf_probe (p : Probe) : Prop :=
  (pr_kind p = T_PROBE ∨ pr_kind p = T_REPLY) ∧ u_range 64 (pr_seq p) ∧ u_range 64 (pr_t_sent p).

(** ** Byte-level proof support *)

Lemma to_be_4_inv x : ∃ a b c d, to_be 4 x = [a; b; c; d].
Proof. pose proof (to_be_length 4 x). by destruct (to_be 4 x) as [|?[|?[|?[|?[|]]]]]; simplify_eq/=; eauto. Qed.

Lemma to_be_8_inv x : ∃ a b c d e f g h, to_be 8 x = [a; b; c; d; e; f; g; h].
Proof.
  pose proof (to_be_length 8 x).
  destruct (to_be 8 x) as [|?[|?[|?[|?[|?[|?[|?[|?[|]]]]]]]]]; simplify_eq/=. eauto 10.
Qed.

Lemma from_to_be_u32 x : u_range 32 x → from_be (to_be 4 x) = x.
Proof. intros. apply from_to_be. done. Qed.

Lemma from_to_be_u64 x : u_range 64 x → from_be (to_be 8 x) = x.
Proof. intros. apply from_to_be. done. Qed.

(** Name the bytes of every encoded field, so that reading the fields back computes. *)
Ltac open_be :=
  repeat match goal with
  | |- context [to_be 4 ?x] =>
      let E := fresh "E" in destruct (to_be_4_inv x) as (? & ? & ? & ? & E); rewrite !E
  | |- context [to_be 8 ?x] =>
      let E := fresh "E" in destruct (to_be_8_inv x) as (? & ? & ? & ? & ? & ? & ? & ? & E); rewrite !E
  end.

(** ... and fold a field read back into the number it encodes. *)
Ltac close_be :=
  rewrite ?take_0;
  repeat match goal with E : to_be _ _ = ?l |- context [from_be ?l] => rewrite <- !E end;
  rewrite ?from_to_be_u32, ?from_to_be_u64 by done.

(** Name the first [n] bytes of a buffer known to be at least that long. *)
Tactic Notation "explode_bytes" integer(n) ident(buf) hyp(H) :=
  do n (destruct buf as [|? buf]; [exfalso; cbn in H; lia|]).

Lemma to_from_be_4 a b c d : Forall is_byte [a; b; c; d] → to_be 4 (from_be [a; b; c; d]) = [a; b; c; d].
Proof. apply to_from_be. Qed.

Lemma from_be_u32 bs : length bs = 4%nat → Forall is_byte bs → u_range 32 (from_be bs).
Proof. intros Hl Hb. pose proof (from_be_range bs Hb) as Hr. by rewrite Hl in Hr. Qed.

Lemma slice_bytes a b (buf : list Z) : Forall is_byte buf → Forall is_byte (slice a b buf).
Proof. intros. by apply Forall_take, Forall_drop. Qed.

Lemma slice_length a b (buf : list Z) : (a ≤ b ≤ length buf)%nat → length (slice a b buf) = (b - a)%nat.
Proof. intros. unfold slice. rewrite length_take, length_drop. lia. Qed.

(** ** The routed header *)

Lemma header_write_app h out : header_write h out = out ++ header_write h [].
Proof. by unfold header_write. Qed.

Lemma header_parse_write h rest : wf_header h → header_parse (header_write h [] ++ rest) = Some h.
Proof.
  intros (Hk & Hs & Hd & Hf & Hh & Ht). destruct h as [k s d f hp t].
  unfold header_write, header_parse; cbn [rh_kind rh_src_id rh_dst_id rh_flags rh_hop rh_trace] in *.
  open_be. cbn. close_be. by destruct Hk as [-> | ->].
Qed.

Lemma header_parse_inv buf h :
  header_parse buf = Some h →
  (ROUTED_HEADER_LEN ≤ length buf)%nat ∧ (rh_kind h = T_DATA ∨ rh_kind h = T_HANDSHAKE).
Proof.
  unfold header_parse. intros Hp. repeat case_in Hp. apply Nat.ltb_ge in Heqb. split; [done|].
  destruct (Z.eqb_spec (buf !!! 0%nat) T_DATA), (Z.eqb_spec (buf !!! 0%nat) T_HANDSHAKE); auto.
  by rewrite andb_true_r in *.
Qed.

Lemma header_write_parse buf h :
  Forall is_byte buf → header_parse buf = Some h →
  wf_header h ∧ header_write h [] = take ROUTED_HEADER_LEN buf.
Proof.
  intros Hb Hp. destruct (header_parse_inv _ _ Hp) as [Hl Hk].
  unfold ROUTED_HEADER_LEN in Hl. explode_bytes 15 buf Hl.
  unfold header_parse in Hp; cbn in Hp. case_in Hp.
  rewrite !Forall_cons in Hb. destruct_and! Hb.
  split.
  - repeat split; cbn; try done; try apply from_be_u32; rewrite ?Forall_cons; try done; unfold is_byte in *; lia.
  - unfold header_write. cbn. by rewrite !to_from_be_4 by (rewrite !Forall_cons; split_and!; done).
Qed.

(** ** The hop counter *)

Definition with_hop (h : RoutedHeader) (hop : Z) : RoutedHeader :=
  mkRoutedHeader (rh_kind h) (rh_src_id h) (rh_dst_id h) (rh_flags h) hop (rh_trace h).

Lemma header_parse_set_hop buf h x :
  header_parse buf = Some h → header_parse (<[OFF_HOP := x]> buf) = Some (with_hop h x).
Proof.
  intros Hp. destruct (header_parse_inv _ _ Hp) as [Hl _].
  unfold ROUTED_HEADER_LEN in Hl. explode_bytes 15 buf Hl.
  unfold header_parse in *; cbn in *. by case_in Hp.
Qed.

Lemma bump_hop_spec buf h :
  Forall is_byte buf → header_parse buf = Some h →
  bump_hop buf = if rh_hop h <? MAX_HOPS
                 then (Some (rh_hop h + 1), <[OFF_HOP := rh_hop h + 1]> buf)
                 else (None, buf).
Proof.
  intros Hb Hp. destruct (header_write_parse _ _ Hb Hp) as [(_ & _ & _ & _ & Hh & _) _].
  destruct (header_parse_inv _ _ Hp) as [Hl _].
  assert (buf !!! OFF_HOP = rh_hop h) as Hhop.
  { unfold header_parse in Hp. by repeat case_in Hp. }
  unfold bump_hop, sat_add. rewrite (proj2 (Nat.ltb_ge _ _)) by done. rewrite Hhop.
  unfold u_range, MAX_HOPS in *. destruct (Z.ltb_spec (rh_hop h) 2).
  - rewrite Z.min_r by lia. by rewrite (proj2 (Z.ltb_ge _ _)) by lia.
  - by rewrite (proj2 (Z.ltb_lt _ _)) by lia.
Qed.

(** [n] relays in a row forwarding one frame. *)
Fixpoint relays_bump (n : nat) (buf : list Z) : option (list Z) :=
  match n with
  | O => Some buf
  | S n' => match bump_hop buf with (Some _, buf') => relays_bump n' buf' | (None, _) => None end
  end.

Lemma relays_bump_ok n buf h :
  Forall is_byte buf → header_parse buf = Some h → rh_hop h + Z.of_nat n ≤ MAX_HOPS →
  ∃ buf', relays_bump n buf = Some buf' ∧ header_parse buf' = Some (with_hop h (rh_hop h + Z.of_nat n)) ∧
          ∀ i, i ≠ OFF_HOP → buf' !! i = buf !! i.
Proof.
  revert buf h. induction n as [|n IH]; intros buf h Hb Hp Hn.
  { exists buf. cbn. rewrite Z.add_0_r. by destruct h. }
  cbn. rewrite (bump_hop_spec _ _ Hb Hp). rewrite (proj2 (Z.ltb_lt _ _)) by (unfold MAX_HOPS in *; lia).
  destruct (header_write_parse _ _ Hb Hp) as [(_ & _ & _ & _ & Hh & _) _].
  destruct (IH (<[OFF_HOP := rh_hop h + 1]> buf) (with_hop h (rh_hop h + 1))) as (buf' & He & Hp' & Hi).
  - apply Forall_insert; [done|]. unfold is_byte, MAX_HOPS, u_range in *. lia.
  - by apply header_parse_set_hop.
  - cbn. lia.
  - exists buf'. split; [done|]. split.
    + rewrite Hp'. unfold with_hop. cbn. do 2 f_equal. lia.
    + intros i Hne. rewrite Hi by done. by apply list_lookup_insert_ne.
Qed.

Lemma relays_bump_none n buf h :
  Forall is_byte buf → header_parse buf = Some h → (0 < n)%nat → MAX_HOPS < rh_hop h + Z.of_nat n →
  relays_bump n buf = None.
Proof.
  revert buf h. induction n as [|n IH]; intros buf h Hb Hp Hpos Hn; [lia|].
  cbn. rewrite (bump_hop_spec _ _ Hb Hp). destruct (Z.ltb_spec (rh_hop h) MAX_HOPS); [|done].
  destruct (header_write_parse _ _ Hb Hp) as [(_ & _ & _ & _ & Hh & _) _].
  destruct n as [|n]; [lia|].
  apply (IH _ (with_hop h (rh_hop h + 1))); [|by apply header_parse_set_hop|lia|cbn; lia].
  apply Forall_insert; [done|]. unfold is_byte, MAX_HOPS, u_range in *. lia.
Qed.

(** ** Properties *)

(** [RoutedHeader::parse] and [write] are inverse on the 15 header bytes: a
    written header is read back whatever follows it, and a header that parses
    has every field at its width and re-encodes to exactly the bytes read. *)
Theorem header_codec_exact :
  (∀ h rest, wf_header h → header_parse (header_write h [] ++ rest) = Some h) ∧
  (∀ buf h, Forall is_byte buf → header_parse buf = Some h →
     wf_header h ∧ header_write h [] = take ROUTED_HEADER_LEN buf).
Proof. split; [apply header_parse_write|apply header_write_parse]. Qed.

(** The hop counter is a loop guard that no table can override: a frame
    survives exactly as many relays as bring its [hop] to [MAX_HOPS], each
    relay adds one and changes no other byte, and one relay more drops it. *)
Theorem hop_guard_exact n buf h :
  Forall is_byte buf → header_parse buf = Some h →
  (rh_hop h + Z.of_nat n ≤ MAX_HOPS →
   ∃ buf', relays_bump n buf = Some buf' ∧ header_parse buf' = Some (with_hop h (rh_hop h + Z.of_nat n)) ∧
           ∀ i, i ≠ OFF_HOP → buf' !! i = buf !! i) ∧
  ((0 < n)%nat → MAX_HOPS < rh_hop h + Z.of_nat n → relays_bump n buf = None).
Proof. eauto using relays_bump_ok, relays_bump_none. Qed.

Lemma hop_guard_exact_witness :
  ∃ buf', relays_bump 2 (header_write (header_new T_DATA 1 2 0) []) = Some buf' ∧
          relays_bump 3 (header_write (header_new T_DATA 1 2 0) []) = None ∧
          header_parse buf' = Some (mkRoutedHeader T_DATA 1 2 0 2 0).
Proof.
  set (b := header_write (header_new T_DATA 1 2 0) []).
  assert (Forall is_byte b) as Hb by by_decide.
  destruct (hop_guard_exact 2 b (header_new T_DATA 1 2 0) Hb eq_refl) as [H2 _].
  destruct H2 as (buf' & He & Hp & _); [unfold MAX_HOPS; cbn; lia|].
  destruct (hop_guard_exact 3 b (header_new T_DATA 1 2 0) Hb eq_refl) as [_ H3].
  exists buf'. split; [exact He|]. split; [apply H3; [lia|unfold MAX_HOPS; cbn; lia]|exact Hp].
Defined.

(** Probes and trace notes survive the wire, a reply keeps the probe's
    sequence and timestamp, and the three frame families are disjoint: a note or
    a probe never parses as a routed frame, so no relay forwards one. *)
Theorem control_frames_roundtrip_disjoint :
  (∀ p rest, wf_probe p → probe_parse (probe_encode p ++ rest) = Some p ∧ header_parse (probe_encode p ++ rest) = None) ∧
  (∀ p rest, wf_probe p →
     probe_parse (probe_encode (probe_into_reply p) ++ rest) = Some (mkProbe T_REPLY (pr_seq p) (pr_t_sent p))) ∧
  (∀ n rest, wf_note n → note_parse (note_encode n ++ rest) = Some n ∧
     header_parse (note_encode n ++ rest) = None ∧ probe_parse (note_encode n ++ rest) = None).
Proof.
  split; [|split].
  - intros [k s t] rest (Hk & Hs & Ht). cbn in Hk, Hs, Ht.
    unfold probe_encode, probe_parse, header_parse; cbn [pr_kind pr_seq pr_t_sent]. open_be. cbn. close_be.
    by destruct Hk as [-> | ->].
  - intros [k s t] rest (Hk & Hs & Ht). cbn in Hk, Hs, Ht.
    unfold probe_encode, probe_parse, probe_into_reply; cbn [pr_kind pr_seq pr_t_sent]. open_be. cbn. by close_be.
  - intros [o t h r d x] rest (Ho & Ht & Hh & Hr & Hx). cbn in Ho, Ht, Hh, Hr, Hx.
    unfold note_encode, note_parse, header_parse, probe_parse;
      cbn [tn_origin tn_trace tn_hop tn_relay_id tn_decision tn_detail]. open_be. cbn. close_be. by destruct d.
Qed.

(** The decision byte is a bijection between the twelve decisions and the
    codes [from_u8] accepts, every decision is in [ALL] exactly once, and
    [is_drop] says precisely that the published name starts with "drop_". *)
Theorem decision_codes_exact :
  (∀ d, decision_from_u8 (decision_u8 d) = Some d) ∧
  (∀ v d, decision_from_u8 v = Some d → decision_u8 d = v) ∧
  NoDup decision_ALL ∧ (∀ d, d ∈ decision_ALL) ∧
  (∀ d, decision_is_drop d = String.prefix "drop_" (decision_as_str d)).
Proof.
  split; [by intros []|]. split.
  { intros v d Hv. unfold decision_from_u8 in Hv. by repeat case_match; simplify_eq. }
  split; [by_decide|]. split; [|by intros []]. intros []; by_decide.
Qed.
