(* ===== verification/Envelope.v ===== *)
(** * Control envelopes (crates/nqvpn-proto/src/envelope.rs, stream.rs)

    The frozen 8-byte header, its per-kind caps and version check, decoding
    from a buffer and reading one envelope from a stream that delivers its
    bytes in chunks of any size. *)

From S2P Require Import Prelude Frame.

Definition PROTO_MAJOR : Z := 1.
Definition PROTO_MINOR : Z := 1.
Definition HEADER_LEN : nat := 8.
Definition MAX_PAYLOAD : Z := 1024 * 1024.
Definition MAX_VIEW_PAYLOAD : Z := 16 * 1024 * 1024.

Inductive Kind : Set :=
| KHello | KHelloAck | KSnapshot | KDelta | KHeartbeat | KResync | KRefresh
| KExitReadiness | KRequest | KResponse.

Definition kind_u16 (k : Kind) : Z :=
  match k with
  | KHello => 1 | KHelloAck => 2 | KSnapshot => 3 | KDelta => 4 | KHeartbeat => 5
  | KResync => 6 | KRefresh => 7 | KExitReadiness => 8 | KRequest => 16 | KResponse => 17
  end.

Definition max_payload_for (kind : Z) : Z :=
  if (kind =? kind_u16 KSnapshot) || (kind =? kind_u16 KDelta) then MAX_VIEW_PAYLOAD else MAX_PAYLOAD.

Record VersionMismatch := mkVersionMismatch { vm_peer : Z * Z; vm_ours : Z * Z }.

Definition check_version (major minor : Z) : Result unit VersionMismatch :=
  if (major =? PROTO_MAJOR) && (minor =? PROTO_MINOR) then Ok tt
  else Err (mkVersionMismatch (major, minor) (PROTO_MAJOR, PROTO_MINOR)).

Inductive EnvelopeError : Set :=
| IncompatibleMajor (major : Z)
| TooLarge (len : Z)
| Truncated (need : nat).

Record Envelope := mkEnvelope {
  env_major : Z;
  env_minor : Z;
  env_kind : Z;
  env_payload : list Z;
}.

#[export] Instance EnvelopeError_eq_dec : EqDecision EnvelopeError.
Proof. solve_decision. Defined.
#[export] Instance Envelope_eq_dec : EqDecision Envelope.
Proof. solve_decision. Defined.

Definition envelope_new (kind : Kind) (payload : list Z) : Envelope :=
  mkEnvelope PROTO_MAJOR PROTO_MINOR (kind_u16 kind) payload.

(** [payload.len() as u32] truncates to 32 bits. *)
Definition envelope_encode (e : Envelope) : list Z :=
  [env_major e] ++ [env_minor e] ++ to_be 2 (env_kind e) ++
  to_be 4 (Z.of_nat (length (env_payload e)) mod 2 ^ 32) ++ env_payload e.

Definition envelope_decode (buf : list Z) : Result (Envelope * nat) EnvelopeError :=
  if (length buf <? HEADER_LEN)%nat then Err (Truncated (HEADER_LEN - length buf)) else
  let major := buf !!! 0%nat in
  if negb (major =? PROTO_MAJOR) then Err (IncompatibleMajor major) else
  let minor := buf !!! 1%nat in
  let kind := from_be (slice 2 4 buf) in
  let len := from_be (slice 4 8 buf) in
  if max_payload_for kind <? len then Err (TooLarge len) else
  let total := (HEADER_LEN + Z.to_nat len)%nat in
  if (length buf <? total)%nat then Err (Truncated (total - length buf)) else
  Ok (mkEnvelope major minor kind (slice HEADER_LEN total buf), total).

(** ** Reading from a stream

    What a [quinn::RecvStream] still has to deliver, and how it ends. *)

Inductive StreamEnd : Set := Finished | Reset.

Record Rx := mkRx { rx_bytes : list Z; rx_end : StreamEnd }.

Inductive StreamError : Set :=
| SIo
| SClosed
| SEnvelope (e : EnvelopeError).

Definition end_error (e : StreamEnd) : StreamError :=
  match e with Finished => SClosed | Reset => SIo end.

Definition READ_CHUNK : nat := Z.to_nat (64 * 1024).

Section stream.
(** How many bytes the transport hands out at the [i]-th chunk read: any
    number, of which a read returns at least one and at most what was asked. *)
Context (chunk : nat → nat).

Definition read_exact (n : nat) (rx : Rx) : Result (list Z * Rx) StreamError :=
  if (length (rx_bytes rx) <? n)%nat then Err (end_error (rx_end rx))
  else Ok (take n (rx_bytes rx), mkRx (drop n (rx_bytes rx)) (rx_end rx)).

(** [Ok None] is the end of a finished stream. *)
Definition read_chunk (i want : nat) (rx : Rx) : Result (option (list Z) * Rx) StreamError :=
  match rx_bytes rx with
  | [] => match rx_end rx with Finished => Ok (None, rx) | Reset => Err SIo end
  | bs =>
    let k := Nat.min want (Nat.max 1 (chunk i)) in
    Ok (Some (take k bs), mkRx (drop k bs) (rx_end rx))
  end.

Fixpoint read_payload (fuel i len : nat) (payload : list Z) (rx : Rx) : Result (list Z * Rx) StreamError :=
  if (length payload <? len)%nat then
    match fuel with
    | O => Err SIo
    | S fuel' =>
      let want := Nat.min (len - length payload) READ_CHUNK in
      match read_chunk i want rx with
      | Ok (Some c, rx') => read_payload fuel' (S i) len (payload ++ c) rx'
      | Ok (None, _) => Err SClosed
      | Err e => Err e
      end
    end
  else Ok (payload, rx).

Definition read_envelope_max (rx : Rx) (max : Z) : Result (Envelope * Rx) StreamError :=
  let? (header, rx1) := read_exact HEADER_LEN rx in
  match envelope_decode header with
  | Err (IncompatibleMajor m) => Err (SEnvelope (IncompatibleMajor m))
  | Err (TooLarge l) => Err (SEnvelope (TooLarge l))
  | Err (Truncated _) | Ok _ =>
    let kind := from_be (slice 2 4 header) in
    let len := from_be (slice 4 8 header) in
    if negb (header !!! 0%nat =? PROTO_MAJOR) then Err (SEnvelope (IncompatibleMajor (header !!! 0%nat))) else
    if (max_payload_for kind <? len) || (max <? len) then Err (SEnvelope (TooLarge len)) else
    let? (payload, rx2) := read_payload (Z.to_nat len) 0 (Z.to_nat len) [] rx1 in
    Ok (mkEnvelope (header !!! 0%nat) (header !!! 1%nat) kind payload, rx2)
  end.

Definition read_envelope (rx : Rx) : Result (Envelope * Rx) StreamError := read_envelope_max rx u32_max.
End stream.

(** ** Lemmas *)

Definition wf_envelope (e : Envelope) : Prop :=
  env_major e = PROTO_MAJOR ∧ u_range 8 (env_minor e) ∧ u_range 16 (env_kind e) ∧
  Z.of_nat (length (env_payload e)) ≤ max_payload_for (env_kind e).

Lemma max_payload_for_bound kind : 0 ≤ max_payload_for kind ≤ MAX_VIEW_PAYLOAD.
Proof. unfold max_payload_for, MAX_VIEW_PAYLOAD, MAX_PAYLOAD. case_on; lia. Qed.

Lemma slice_skip (n total : nat) (hdr rest : list Z) :
  length hdr = n → slice n (n + total) (hdr ++ rest) = take total rest.
Proof. intros <-. unfold slice. rewrite drop_app_length. f_equal. lia. Qed.

(** Decoding, once the header is there: [rest] is what follows it. *)
Lemma envelope_decode_header hdr rest :
  length hdr = HEADER_LEN →
  envelope_decode (hdr ++ rest) =
    let kind := from_be (slice 2 4 hdr) in
    let len := from_be (slice 4 8 hdr) in
    if negb (hdr !!! 0%nat =? PROTO_MAJOR) then Err (IncompatibleMajor (hdr !!! 0%nat)) else
    if max_payload_for kind <? len then Err (TooLarge len) else
    if (length rest <? Z.to_nat len)%nat then Err (Truncated (Z.to_nat len - length rest)) else
    Ok (mkEnvelope (hdr !!! 0%nat) (hdr !!! 1%nat) kind (take (Z.to_nat len) rest), (HEADER_LEN + Z.to_nat len)%nat).
Proof.
  intros Hl. unfold HEADER_LEN in Hl.
  destruct hdr as [|b0 [|b1 [|b2 [|b3 [|b4 [|b5 [|b6 [|b7 [|]]]]]]]]]; try done. clear Hl.
  unfold envelope_decode, HEADER_LEN. cbn [app length].
  rewrite (proj2 (Nat.ltb_ge _ 8)) by lia. cbn [lookup_total list_lookup_total].
  change (slice 2 4 [b0; b1; b2; b3; b4; b5; b6; b7]) with [b2; b3].
  change (slice 4 8 [b0; b1; b2; b3; b4; b5; b6; b7]) with [b4; b5; b6; b7].
  change (slice 2 4 (b0 :: _)) with (b2 :: b3 :: take 0 (b4 :: b5 :: b6 :: b7 :: rest)).
  change (slice 4 8 (b0 :: _)) with (b4 :: b5 :: b6 :: b7 :: take 0 rest). rewrite !take_0.
  generalize (from_be [b2; b3]) (from_be [b4; b5; b6; b7]). intros kind len. cbv zeta.
  rewrite (slice_skip 8 _ [b0; b1; b2; b3; b4; b5; b6; b7] rest) by done.
  case_on; [done|]. case_on; [done|].
  destruct (Nat.ltb_spec (length rest) (Z.to_nat len)).
  - by rewrite (proj2 (Nat.ltb_lt _ _)) by lia.
  - by rewrite (proj2 (Nat.ltb_ge _ _)) by lia.
Qed.

(** Split a buffer that holds a whole header. *)
Lemma split_header (buf : list Z) :
  (HEADER_LEN ≤ length buf)%nat → ∃ hdr rest, buf = hdr ++ rest ∧ length hdr = HEADER_LEN.
Proof.
  intros. exists (take HEADER_LEN buf), (drop HEADER_LEN buf).
  rewrite take_drop, length_take. split; [done|lia].
Qed.

Lemma read_payload_spec chunk fuel i len payload rx :
  (len - length payload ≤ fuel)%nat → (length payload ≤ len)%nat →
  read_payload chunk fuel i len payload rx =
    if (length payload + length (rx_bytes rx) <? len)%nat then Err (end_error (rx_end rx))
    else Ok (payload ++ take (len - length payload) (rx_bytes rx),
             mkRx (drop (len - length payload) (rx_bytes rx)) (rx_end rx)).
Proof.
  revert i payload rx. induction fuel as [|fuel IH]; intros i payload [bs e] Hf Hp; cbn [read_payload rx_bytes rx_end].
  - rewrite (proj2 (Nat.ltb_ge (length payload) len)) by lia.
    rewrite (proj2 (Nat.ltb_ge _ _)) by lia. replace (len - length payload)%nat with 0%nat by lia.
    by rewrite take_0, drop_0, app_nil_r.
  - destruct (Nat.ltb_spec (length payload) len) as [Hlt|Hge].
    2: { rewrite (proj2 (Nat.ltb_ge _ _)) by lia. replace (len - length payload)%nat with 0%nat by lia.
         by rewrite take_0, drop_0, app_nil_r. }
    unfold read_chunk; cbn [rx_bytes rx_end]. destruct bs as [|b bs].
    { rewrite (proj2 (Nat.ltb_lt _ _)) by (cbn; lia). by destruct e. }
    set (k := Nat.min (Nat.min (len - length payload) READ_CHUNK) (Nat.max 1 (chunk i))).
    assert (1 ≤ k ≤ len - length payload)%nat as Hk.
    { assert (1 ≤ READ_CHUNK)%nat by (unfold READ_CHUNK; lia). lia. }
    remember (b :: bs) as l eqn:Hl. assert (1 ≤ length l)%nat by (subst; cbn; lia).
    rewrite IH; cbn [rx_bytes rx_end]; rewrite ?length_app, ?length_take, ?length_drop; [|lia..].
    destruct (Nat.ltb_spec (length payload + length l) len).
    { rewrite (proj2 (Nat.ltb_lt _ _)) by lia. done. }
    rewrite (proj2 (Nat.ltb_ge _ _)) by lia. rewrite Nat.min_l by lia.
    f_equal. rewrite <- app_assoc, drop_drop. f_equal.
    + f_equal. rewrite <- (take_drop k (take (len - length payload) l)).
      rewrite take_take, (Nat.min_l k) by lia. f_equal. rewrite take_drop_commute. do 2 f_equal. lia.
    + do 2 f_equal. lia.
Qed.

(** ** Properties *)

(** An envelope within its kind's cap is decoded back exactly, whatever
    bytes follow it, and decoding consumes the header and the payload only;
    conversely what decodes re-encodes to the very bytes consumed. *)
Theorem envelope_codec_exact :
  (∀ e rest, wf_envelope e →
     envelope_decode (envelope_encode e ++ rest) = Ok (e, (HEADER_LEN + length (env_payload e))%nat)) ∧
  (∀ buf e n, Forall is_byte buf → envelope_decode buf = Ok (e, n) →
     wf_envelope e ∧ (n ≤ length buf)%nat ∧ envelope_encode e = take n buf).
Proof.
  split.
  - intros [ma mi k p] rest (Hma & Hmi & Hk & Hp). cbn in Hma, Hmi, Hk, Hp. subst ma.
    pose proof (max_payload_for_bound k) as Hb. unfold MAX_VIEW_PAYLOAD in Hb.
    unfold envelope_encode; cbn [env_major env_minor env_kind env_payload].
    rewrite Z.mod_small by lia.
    replace (([PROTO_MAJOR] ++ [mi] ++ to_be 2 k ++ to_be 4 (Z.of_nat (length p)) ++ p) ++ rest)
      with (([PROTO_MAJOR; mi] ++ to_be 2 k ++ to_be 4 (Z.of_nat (length p))) ++ (p ++ rest))
      by (cbn; by rewrite <- !app_assoc).
    rewrite envelope_decode_header by (cbn; rewrite !length_app, !to_be_length; done).
    pose proof (from_to_be 2 k Hk) as Hk2. pose proof (from_to_be_u32 (Z.of_nat (length p))) as Hp4.
    destruct (to_be 2 k) as [|k0 [|k1 [|]]] eqn:E2; try (apply (f_equal length) in E2; by rewrite to_be_length in E2).
    open_be. cbn -[Z.to_nat Nat.ltb]. rewrite Hk2, <- E, Hp4 by (unfold u_range; lia).
    rewrite (proj2 (Z.ltb_ge _ _)) by lia. rewrite Nat2Z.id, (proj2 (Nat.ltb_ge _ _)) by (rewrite length_app; lia).
    by rewrite take_app_length.
  - intros buf e n Hb Hd.
    assert (HEADER_LEN ≤ length buf)%nat as Hl.
    { unfold envelope_decode in Hd. case_in Hd. by apply Nat.ltb_ge. }
    destruct (split_header buf Hl) as (hdr & rest & -> & Hh). rewrite envelope_decode_header in Hd by done.
    apply Forall_app in Hb as [Hb _]. unfold HEADER_LEN in Hh.
    pose proof (slice_bytes 2 4 hdr Hb) as H2. pose proof (slice_bytes 4 8 hdr Hb) as H4.
    destruct hdr as [|b0 [|b1 [|b2 [|b3 [|b4 [|b5 [|b6 [|b7 [|]]]]]]]]]; try done. cbn in H2, H4.
    cbn -[Z.to_nat Nat.ltb] in Hd. repeat case_in Hd.
    match goal with Hlt : (length rest <? _)%nat = false |- _ => apply Nat.ltb_ge in Hlt end.
    pose proof (from_be_range _ H2) as Hr2. pose proof (from_be_u32 [b4; b5; b6; b7] eq_refl H4) as Hr4.
    unfold u_range in Hr4. rewrite !Forall_cons in Hb. destruct Hb as (_ & Hb1 & _). unfold is_byte in Hb1.
    split; [|split].
    + unfold wf_envelope, u_range; cbn in *. rewrite length_take, Nat.min_l by lia. split_and!; lia.
    + cbn. lia.
    + unfold envelope_encode; cbn [env_major env_minor env_kind env_payload].
      rewrite length_take, Nat.min_l, Z2Nat.id, Z.mod_small by lia.
      pose proof (to_from_be [b2; b3] H2) as E2. cbn [length] in E2. rewrite E2.
      by rewrite to_from_be_4 by done.
Qed.

(** Decoding is prefix-stable: more bytes never change an envelope already
    decoded or an error already reported, and [Truncated n] means that exactly
    [n] more bytes are needed before anything else can be said. *)
Theorem envelope_decode_prefix_stable buf ext :
  match envelope_decode buf with
  | Ok (e, n) => envelope_decode (buf ++ ext) = Ok (e, n)
  | Err (Truncated n) =>
      (0 < n)%nat ∧
      ((length ext < n)%nat → envelope_decode (buf ++ ext) = Err (Truncated (n - length ext)))
  | Err e => envelope_decode (buf ++ ext) = Err e
  end.
Proof.
  destruct (decide (HEADER_LEN ≤ length buf)%nat) as [Hl|Hl].
  - destruct (split_header buf Hl) as (hdr & rest & -> & Hh). rewrite <- app_assoc.
    rewrite !envelope_decode_header by done. cbv zeta.
    destruct (negb (hdr !!! 0%nat =? PROTO_MAJOR)); [done|].
    destruct (max_payload_for _ <? _); [done|]. rewrite length_app.
    destruct (Nat.ltb_spec (length rest) (Z.to_nat (from_be (slice 4 8 hdr)))).
    + split; [lia|]. intros. rewrite (proj2 (Nat.ltb_lt _ _)) by lia. do 2 f_equal. lia.
    + rewrite (proj2 (Nat.ltb_ge _ _)) by lia. by rewrite take_app_le.
  - unfold envelope_decode at 1. rewrite (proj2 (Nat.ltb_lt _ _)) by lia. split; [lia|].
    intros. unfold envelope_decode. rewrite length_app, (proj2 (Nat.ltb_lt _ _)) by lia. do 2 f_equal. lia.
Qed.

(** Reading an envelope from a stream gives what decoding the stream's
    bytes in one buffer gives, however the transport cuts them into chunks:
    the same envelope and exactly its bytes consumed, the same refusal, and
    the stream's own end when the bytes stop short.  The loop terminates. *)
Theorem read_envelope_is_decode chunk rx :
  Forall is_byte (rx_bytes rx) →
  read_envelope chunk rx =
    match envelope_decode (rx_bytes rx) with
    | Ok (e, n) => Ok (e, mkRx (drop n (rx_bytes rx)) (rx_end rx))
    | Err (Truncated _) => Err (end_error (rx_end rx))
    | Err e => Err (SEnvelope e)
    end.
Proof.
  destruct rx as [bs en]. cbn [rx_bytes rx_end]. intros Hb. unfold read_envelope, read_envelope_max, read_exact.
  cbn [rx_bytes rx_end].
  destruct (Nat.ltb_spec (length bs) HEADER_LEN) as [Hl|Hl].
  { unfold envelope_decode. by rewrite (proj2 (Nat.ltb_lt _ _)) by done. }
  destruct (split_header bs Hl) as (hdr & rest & -> & Hh).
  rewrite <- Hh, take_app_length, drop_app_length.
  rewrite (envelope_decode_header hdr rest) by done.
  pose proof (envelope_decode_header hdr [] Hh) as Hd. rewrite app_nil_r in Hd. rewrite Hd. clear Hd. cbv zeta.
  apply Forall_app in Hb as [Hb _].
  assert (0 ≤ from_be (slice 4 8 hdr) ≤ u32_max) as Hlen.
  { pose proof (from_be_u32 (slice 4 8 hdr)) as Hu. unfold u_range, u32_max in *.
    rewrite slice_length in Hu by (unfold HEADER_LEN in *; lia). specialize (Hu eq_refl (slice_bytes _ _ _ Hb)). lia. }
  destruct (negb (hdr !!! 0%nat =? PROTO_MAJOR)) eqn:Hm; [done|].
  destruct (max_payload_for (from_be (slice 2 4 hdr)) <? from_be (slice 4 8 hdr)) eqn:Hc; [done|].
  rewrite (proj2 (Z.ltb_ge u32_max _)) by lia. cbn [orb].
  rewrite read_payload_spec by (cbn; lia). cbn [length Nat.add Nat.sub app rx_bytes rx_end]. rewrite Nat.sub_0_r.
  destruct (length rest <? Z.to_nat (from_be (slice 4 8 hdr)))%nat eqn:Hrest;
    destruct (0 <? Z.to_nat (from_be (slice 4 8 hdr)))%nat; try done; by rewrite <- Hh, drop_app_add.
Qed.

Lemma read_envelope_is_decode_witness :
  read_envelope (λ _, 2%nat) (mkRx (envelope_encode (envelope_new KHeartbeat [1; 2; 3; 4; 5]) ++ [9]) Finished) =
    Ok (envelope_new KHeartbeat [1; 2; 3; 4; 5], mkRx [9] Finished).
Proof. rewrite read_envelope_is_decode; [vm_compute; reflexivity|by_decide]. Defined.
