(* ===== verification/Control.v ===== *)
(** * The network view (crates/nqvpn-proto/src/control.rs, types.rs)

    Snapshots, deltas and the three operations every holder of a view runs:
    [normalize], [diff]/[apply], and the content [digest]. *)

From S2P Require Import Prelude Ordered Ipnet.

Inductive Role : Set := Client | Relay.

#[export] Instance Role_eq_dec : EqDecision Role.
Proof. solve_decision. Defined.

Record PeerInfo := mkPeerInfo {
  pi_node_id : Z;
  pi_name : string;
  pi_role : Role;
  pi_prefixes : list IpNet;
  pi_pubkey : string;
  pi_online : bool;
  pi_login_gen : Z;
}.

Record AttachmentEntry := mkAttachmentEntry { ae_node_id : Z; ae_relay_id : Z }.

Record RelayEndpoint := mkRelayEndpoint {
  re_relay_id : Z;
  re_name : string;
  re_addr : string;
  re_cert_fp : string;
}.

Record NetworkMtu := mkNetworkMtu { nm_mtu : Z; nm_limited_by : string }.

Record KeyInfo := mkKeyInfo { ki_kid : string; ki_key : string; ki_state : string }.

Record Snapshot := mkSnapshot {
  s_gen : Z;
  s_members : list PeerInfo;
  s_attachments : list AttachmentEntry;
  s_relays : list RelayEndpoint;
  s_mtu : NetworkMtu;
  s_keys : list KeyInfo;
  s_reserved_prefixes : list IpNet;
}.

Record Delta := mkDelta {
  d_base_gen : Z;
  d_gen : Z;
  d_members_changed : list PeerInfo;
  d_members_removed : list Z;
  d_attachments_changed : list AttachmentEntry;
  d_attachments_removed : list Z;
  d_relays : option (list RelayEndpoint);
  d_mtu : option NetworkMtu;
  d_keys : option (list KeyInfo);
  d_reserved_prefixes : option (list IpNet);
}.

Record GenerationGap := mkGenerationGap { gg_base : Z; gg_have : Z }.

#[export] Instance PeerInfo_eq_dec : EqDecision PeerInfo.
Proof. solve_decision. Defined.
#[export] Instance AttachmentEntry_eq_dec : EqDecision AttachmentEntry.
Proof. solve_decision. Defined.
#[export] Instance RelayEndpoint_eq_dec : EqDecision RelayEndpoint.
Proof. solve_decision. Defined.
#[export] Instance NetworkMtu_eq_dec : EqDecision NetworkMtu.
Proof. solve_decision. Defined.
#[export] Instance KeyInfo_eq_dec : EqDecision KeyInfo.
Proof. solve_decision. Defined.
#[export] Instance Snapshot_eq_dec : EqDecision Snapshot.
Proof. solve_decision. Defined.
#[export] Instance Delta_eq_dec : EqDecision Delta.
Proof. solve_decision. Defined.
#[export] Instance GenerationGap_eq_dec : EqDecision GenerationGap.
Proof. solve_decision. Defined.

Definition snapshot_default : Snapshot := mkSnapshot 0 [] [] [] (mkNetworkMtu 0 "") [] [].

Definition with_gen (g : Z) (s : Snapshot) : Snapshot :=
  mkSnapshot g (s_members s) (s_attachments s) (s_relays s) (s_mtu s) (s_keys s) (s_reserved_prefixes s).

(** ** Operations *)

(** Family, then address numerically, then length. *)
Definition prefix_order (p : IpNet) : Z * Z * Z :=
  match p with Net4 a l => (4, a, l) | Net6 a l => (6, a, l) end.

Definition normalize_prefixes (l : list IpNet) : list IpNet :=
  dedup_by (λ a b, bool_decide (a = b)) (sort_by_key prefix_order l).

Definition normalize (s : Snapshot) : Snapshot :=
  mkSnapshot (s_gen s)
    (keep_last_sorted pi_node_id (s_members s))
    (keep_last_sorted ae_node_id (s_attachments s))
    (keep_last_sorted re_relay_id (s_relays s))
    (s_mtu s)
    (keep_last_sorted ki_kid (s_keys s))
    (normalize_prefixes (s_reserved_prefixes s)).

(** [then]: [Some] of the newer value when the two differ. *)
Definition changed {A} `{EqDecision A} (old new : A) : option A :=
  if decide (old = new) then None else Some new.

Definition member_map (l : list PeerInfo) : gmap Z PeerInfo :=
  bt_collect ((λ m, (pi_node_id m, m)) <$> l).
Definition attachment_map (l : list AttachmentEntry) : gmap Z Z :=
  bt_collect ((λ a, (ae_node_id a, ae_relay_id a)) <$> l).

Definition diff (self newer : Snapshot) : Delta :=
  let old_m := member_map (s_members self) in
  let new_m := member_map (s_members newer) in
  let old_a := attachment_map (s_attachments self) in
  let new_a := attachment_map (s_attachments newer) in
  mkDelta (s_gen self) (s_gen newer)
    (List.filter (λ m, negb (bool_decide (old_m !! pi_node_id m = Some m))) (bt_values new_m))
    (List.filter (λ id, bool_decide (new_m !! id = None)) (bt_keys old_m))
    ((λ p, mkAttachmentEntry p.1 p.2) <$>
       List.filter (λ p, negb (bool_decide (old_a !! p.1 = Some p.2))) (bt_iter new_a))
    (List.filter (λ n, bool_decide (new_a !! n = None)) (bt_keys old_a))
    (changed (s_relays self) (s_relays newer))
    (changed (s_mtu self) (s_mtu newer))
    (changed (s_keys self) (s_keys newer))
    (changed (s_reserved_prefixes self) (s_reserved_prefixes newer)).

(** [BTreeMap::remove] and [insert] for every element of a list, in order. *)
Definition bt_remove_all {V} (ids : list Z) (m : gmap Z V) : gmap Z V := foldl (λ m id, delete id m) m ids.
Definition bt_insert_all {V} (l : list (Z * V)) (m : gmap Z V) : gmap Z V :=
  foldl (λ m p, <[p.1 := p.2]> m) m l.

Definition apply (self : Snapshot) (d : Delta) : Snapshot * Result unit GenerationGap :=
  if d_gen d <=? s_gen self then (self, Ok tt) else
  if negb (d_base_gen d =? s_gen self) then (self, Err (mkGenerationGap (d_base_gen d) (s_gen self))) else
  let members :=
    bt_insert_all ((λ m, (pi_node_id m, m)) <$> d_members_changed d)
      (bt_remove_all (d_members_removed d) (member_map (s_members self))) in
  let attachments :=
    bt_insert_all ((λ a, (ae_node_id a, ae_relay_id a)) <$> d_attachments_changed d)
      (bt_remove_all (d_attachments_removed d) (attachment_map (s_attachments self))) in
  (normalize (mkSnapshot (d_gen d)
     (bt_values members)
     ((λ p, mkAttachmentEntry p.1 p.2) <$> bt_iter attachments)
     (default (s_relays self) (d_relays d))
     (default (s_mtu self) (d_mtu d))
     (default (s_keys self) (d_keys d))
     (default (s_reserved_prefixes self) (d_reserved_prefixes d))), Ok tt).

Definition member (self : Snapshot) (id : Z) : option PeerInfo :=
  match binary_search_by_key pi_node_id id (s_members self) with
  | Some i => s_members self !! i
  | None => None
  end.

Definition attachment_of (self : Snapshot) (id : Z) : option Z :=
  match binary_search_by_key ae_node_id id (s_attachments self) with
  | Some i => ae_relay_id <$> s_attachments self !! i
  | None => None
  end.

(** FNV-1a over the [bincode] encoding of the canonical view with [gen] zeroed;
    the encoding itself is the serializer's. *)
Definition fnv_step (h b : Z) : Z := (Z.lxor h b * 0x100000001b3) mod 2 ^ 64.
Definition fnv1a (bytes : list Z) : Z := foldl fnv_step 0xcbf29ce484222325 bytes.

Definition digest (encode_unbounded : Snapshot → list Z) (self : Snapshot) : Z :=
  fnv1a (encode_unbounded (normalize (with_gen 0 self))).

(** ** Heartbeats *)

Record AttachedClient := mkAttachedClient { ac_node_id : Z; ac_session_id : Z }.

Record LinkTraffic := mkLinkTraffic {
  lt_peer_id : Z; lt_tx_bytes : Z; lt_tx_pkts : Z; lt_rx_bytes : Z; lt_rx_pkts : Z; lt_up : bool }.

Record TrafficReport := mkTrafficReport {
  tr_links : list LinkTraffic; tr_local_bytes : Z; tr_local_pkts : Z;
  tr_terminated_bytes : Z; tr_terminated_pkts : Z }.

Record Heartbeat := mkHeartbeat {
  hb_gen : Z;
  hb_digest : Z;
  hb_attached : list AttachedClient;
  hb_mesh_up : list Z;
  hb_attached_to : option Z;
  hb_usable_mtu : Z;
  hb_traffic : option TrafficReport;
}.

Definition heartbeat_default : Heartbeat := mkHeartbeat 0 0 [] [] None 0 None.

Record ExitReadiness := mkExitReadiness { er_ip_forward : bool; er_masquerade : bool }.

#[export] Instance ExitReadiness_eq_dec : EqDecision ExitReadiness.
Proof. solve_decision. Defined.

Definition exit_ok (r : ExitReadiness) : bool := er_ip_forward r && er_masquerade r.

Definition CLOSE_REPLACED : Z := 7.
Definition CLOSE_RECONFIGURED : Z := 8.

(** ** Canonical form *)

Definition is_normal (s : Snapshot) : Prop :=
  StronglySorted (lt_key pi_node_id) (s_members s) ∧
  StronglySorted (lt_key ae_node_id) (s_attachments s) ∧
  StronglySorted (lt_key re_relay_id) (s_relays s) ∧
  StronglySorted (lt_key ki_kid) (s_keys s) ∧
  StronglySorted (lt_key prefix_order) (s_reserved_prefixes s).

Lemma prefix_order_inj a b : prefix_order a = prefix_order b → a = b.
Proof. by destruct a, b; intros; simplify_eq/=. Qed.

Lemma dedup_by_ext {A} (f g : A → A → bool) l : (∀ a b, f a b = g a b) → dedup_by f l = dedup_by g l.
Proof.
  intros He. destruct l as [|x l]; cbn; [done|]. f_equal. revert x.
  induction l as [|y l IH]; intros x; cbn; [done|]. by rewrite He, !IH.
Qed.

Lemma normalize_prefixes_dedup l :
  normalize_prefixes l = dedup_by (same_key prefix_order) (sort_by_key prefix_order l).
Proof.
  apply dedup_by_ext. intros a b. unfold same_key. apply bool_decide_ext.
  split; [by intros ->|apply prefix_order_inj].
Qed.

Lemma normalize_prefixes_sorted l : StronglySorted (lt_key prefix_order) (normalize_prefixes l).
Proof. rewrite normalize_prefixes_dedup. apply dedup_sorted, sort_by_key_sorted. Qed.

Lemma normalize_prefixes_id l : StronglySorted (lt_key prefix_order) l → normalize_prefixes l = l.
Proof.
  intros Hs. apply (lt_sorted_find_ext prefix_order); [apply normalize_prefixes_sorted|done|].
  intros k. by rewrite normalize_prefixes_dedup, find_key_dedup, find_key_sort.
Qed.

Lemma elem_of_normalize_prefixes p l : p ∈ normalize_prefixes l ↔ p ∈ l.
Proof.
  rewrite (elem_of_lt_sorted prefix_order) by apply normalize_prefixes_sorted.
  rewrite normalize_prefixes_dedup, find_key_dedup, find_key_sort. split.
  - by intros [_ ?]%find_key_key.
  - intros Hp. destruct (find_key prefix_order (prefix_order p) l) as [q|] eqn:Hf.
    + apply find_key_key in Hf as [Hq _]. f_equal. by apply prefix_order_inj.
    + by destruct (proj1 (find_key_None _ _ _) Hf p).
Qed.

Lemma normalize_normal s : is_normal (normalize s).
Proof. repeat split; cbn; auto using keep_last_sorted_sorted, normalize_prefixes_sorted. Qed.

Lemma normalize_id s : is_normal s → normalize s = s.
Proof.
  intros (H1 & H2 & H3 & H4 & H5). destruct s; cbn in *. unfold normalize; cbn.
  by rewrite !keep_last_sorted_id, normalize_prefixes_id.
Qed.

Lemma normalize_gen s : s_gen (normalize s) = s_gen s.
Proof. done. Qed.

#[export] Hint Resolve normalize_normal : nq.

(** ** Maps patched by a delta *)

Section patch.
Context {V : Type} `{EqDecision V}.
Implicit Types (m old new : gmap Z V) (l : list (Z * V)).

Lemma bt_remove_all_lookup ids m k :
  bt_remove_all ids m !! k = if decide (k ∈ ids) then None else m !! k.
Proof.
  unfold bt_remove_all. revert m. induction ids as [|i ids IH]; intros m; cbn.
  - by rewrite decide_False by apply not_elem_of_nil.
  - rewrite IH. destruct (decide (k = i)) as [->|Hne].
    + rewrite (decide_True (P := i ∈ i :: ids)) by left. case_decide; [done|]. apply lookup_delete_eq.
    + rewrite lookup_delete_ne by done. apply decide_ext. rewrite elem_of_cons. naive_solver.
Qed.

Lemma bt_insert_all_other l m k : (∀ v, (k, v) ∉ l) → bt_insert_all l m !! k = m !! k.
Proof.
  unfold bt_insert_all. revert m. induction l as [|[i v] l IH]; intros m Hk; cbn; [done|].
  rewrite IH by (intros w Hw; apply (Hk w); by right).
  apply lookup_insert_ne. intros ->. apply (Hk v). left.
Qed.

Lemma bt_insert_all_same l m k w :
  (k, w) ∈ l → (∀ v, (k, v) ∈ l → v = w) → bt_insert_all l m !! k = Some w.
Proof.
  unfold bt_insert_all. revert m. induction l as [|[i v] l IH]; intros m Hin Hall; [by apply elem_of_nil in Hin|].
  cbn. destruct (decide ((k, w) ∈ l)) as [Hl|Hl].
  - apply IH; [done|]. intros u Hu. apply Hall. by right.
  - apply elem_of_cons in Hin as [Hkv|?]; [|done]. simplify_eq.
    change (bt_insert_all l (<[i := v]> m) !! i = Some v). rewrite bt_insert_all_other.
    + apply lookup_insert_eq.
    + intros u Hu. rewrite (Hall u) in Hu by by right. done.
Qed.

(** Removing what is gone and inserting what changed turns [old] into [new]. *)
Lemma patch_map old new ch rm :
  (∀ k v, (k, v) ∈ ch ↔ new !! k = Some v ∧ old !! k ≠ Some v) →
  (∀ k, k ∈ rm ↔ is_Some (old !! k) ∧ new !! k = None) →
  bt_insert_all ch (bt_remove_all rm old) = new.
Proof.
  intros Hch Hrm. apply map_eq. intros k. destruct (new !! k) as [v|] eqn:Hn.
  - destruct (decide ((k, v) ∈ ch)) as [Hin|Hnot].
    + apply bt_insert_all_same; [done|]. intros u [Hu _]%Hch. congruence.
    + rewrite bt_insert_all_other.
      2: { intros u Hu. pose proof (proj1 (Hch _ _) Hu) as [Hu' _]. simplify_eq. done. }
      rewrite bt_remove_all_lookup, decide_False by (rewrite Hrm, Hn; by intros [_ ?]).
      rewrite Hch in Hnot. destruct (old !! k) as [u|] eqn:Ho.
      * destruct (decide (Some u = Some v)); [done|]. exfalso. apply Hnot. split; [done|congruence].
      * exfalso. apply Hnot. split; [done|congruence].
  - rewrite bt_insert_all_other by (intros u [Hu _]%Hch; congruence).
    rewrite bt_remove_all_lookup. case_decide as Hd; [done|].
    rewrite Hrm in Hd. apply eq_None_not_Some. naive_solver.
Qed.
End patch.

(** ** What a list of members or attachments means: its lookups *)

Lemma member_map_lookup l k : member_map l !! k = find_key pi_node_id k (reverse l).
Proof. apply bt_collect_keyed. Qed.

Lemma attachment_map_lookup l k : attachment_map l !! k = ae_relay_id <$> find_key ae_node_id k (reverse l).
Proof.
  unfold attachment_map. induction l as [|x l IH] using rev_ind; [done|].
  rewrite fmap_app, list_fmap_singleton, bt_collect_snoc, reverse_snoc. cbn.
  case_decide as Hk; [subst; by rewrite lookup_insert_eq|]. by rewrite lookup_insert_ne.
Qed.

Lemma find_key_reverse_sorted {A K} `{EqDecision K, OrdKey K} (key : A → K) k l :
  StronglySorted (lt_key key) l → find_key key k (reverse l) = find_key key k l.
Proof.
  intros Hs. rewrite <- (keep_last_sorted_id key l Hs) at 2. by rewrite find_key_keep_last.
Qed.

Lemma member_map_keep l : member_map (keep_last_sorted pi_node_id l) = member_map l.
Proof.
  apply map_eq. intros k. rewrite !member_map_lookup.
  rewrite find_key_reverse_sorted by apply keep_last_sorted_sorted. apply find_key_keep_last.
Qed.

Lemma attachment_map_keep l : attachment_map (keep_last_sorted ae_node_id l) = attachment_map l.
Proof.
  apply map_eq. intros k. rewrite !attachment_map_lookup.
  rewrite find_key_reverse_sorted by apply keep_last_sorted_sorted. by rewrite find_key_keep_last.
Qed.

Lemma member_map_self_keyed l : self_keyed pi_node_id (member_map l).
Proof. apply bt_collect_self_keyed. Qed.

Lemma keep_members l : keep_last_sorted pi_node_id l = bt_values (member_map l).
Proof. apply keep_last_sorted_collect. Qed.

Definition entries_of (m : gmap Z Z) : list AttachmentEntry := (λ p, mkAttachmentEntry p.1 p.2) <$> bt_iter m.

Lemma entries_of_sorted m : StronglySorted (lt_key ae_node_id) (entries_of m).
Proof.
  unfold entries_of. pose proof (bt_iter_sorted m) as Hs. induction Hs as [|p l Hs IH Hp]; cbn; [constructor|].
  constructor; [done|]. by rewrite Forall_fmap.
Qed.

Lemma elem_of_entries m e : e ∈ entries_of m ↔ m !! ae_node_id e = Some (ae_relay_id e).
Proof.
  unfold entries_of. rewrite list_elem_of_fmap. destruct e as [n r]; cbn. split.
  - intros [[k v] [? Hin]]. simplify_eq/=. by apply elem_of_bt_iter.
  - intros Hm. exists (n, r). by rewrite elem_of_bt_iter.
Qed.

Lemma keep_attachments l : keep_last_sorted ae_node_id l = entries_of (attachment_map l).
Proof.
  apply (lt_sorted_ext ae_node_id); [apply keep_last_sorted_sorted|apply entries_of_sorted|].
  intros e. rewrite (elem_of_lt_sorted ae_node_id) by apply keep_last_sorted_sorted.
  rewrite find_key_keep_last, elem_of_entries, attachment_map_lookup. destruct (find_key _ _ _) as [x|] eqn:Hf; cbn.
  - apply find_key_key in Hf as [Hx _]. destruct x, e; cbn in *. naive_solver.
  - naive_solver.
Qed.

Lemma changed_default {A} `{EqDecision A} (f : A → A) (a b : A) :
  (∀ x, f (f x) = f x) → f (default (f a) (changed a b)) = f b.
Proof. intros Hf. unfold changed. case_decide; cbn; [by subst|done]. Qed.

Lemma keep_last_idemp {A K} `{Countable K, OrdKey K} (key : A → K) (l : list A) :
  keep_last_sorted key (keep_last_sorted key l) = keep_last_sorted key l.
Proof. apply keep_last_sorted_id, keep_last_sorted_sorted. Qed.

Lemma diff_members_patch old new :
  let d := diff old new in
  bt_insert_all ((λ m, (pi_node_id m, m)) <$> d_members_changed d)
    (bt_remove_all (d_members_removed d) (member_map (s_members old))) = member_map (s_members new).
Proof.
  apply patch_map.
  - intros k m. rewrite list_elem_of_fmap. cbn. split.
    + intros [m' [? Hin]]. simplify_eq. rewrite elem_of_filter_b in Hin. destruct Hin as [Hb [k' Hk]%elem_of_bt_values].
      pose proof (member_map_self_keyed _ _ _ Hk) as E; cbn in E; subst k'. bool_prop. done.
    + intros [Hn Ho]. pose proof (member_map_self_keyed _ _ _ Hn) as E; cbn in E; subst k.
      exists m. split; [done|]. rewrite elem_of_filter_b. split; [by apply negb_true_iff, bool_decide_eq_false_2|].
      apply elem_of_bt_values. eauto.
  - intros k. cbn. rewrite elem_of_filter_b, bool_decide_eq_true, elem_of_bt_keys. tauto.
Qed.

Lemma diff_attachments_patch old new :
  let d := diff old new in
  bt_insert_all ((λ a, (ae_node_id a, ae_relay_id a)) <$> d_attachments_changed d)
    (bt_remove_all (d_attachments_removed d) (attachment_map (s_attachments old))) = attachment_map (s_attachments new).
Proof.
  apply patch_map.
  - intros k r. rewrite list_elem_of_fmap. cbn. split.
    + intros [a [? Hin]]. simplify_eq. apply list_elem_of_fmap in Hin as [[k' r'] [-> Hin]]. cbn.
      rewrite elem_of_filter_b, elem_of_bt_iter in Hin. destruct Hin as [Hb Hn]. bool_prop. done.
    + intros [Hn Ho]. exists (mkAttachmentEntry k r). split; [done|]. apply list_elem_of_fmap. exists (k, r).
      split; [done|]. rewrite elem_of_filter_b, elem_of_bt_iter.
      split; [by apply negb_true_iff, bool_decide_eq_false_2|done].
  - intros k. cbn. rewrite elem_of_filter_b, bool_decide_eq_true, elem_of_bt_keys. tauto.
Qed.

Lemma diff_apply_raw a b : s_gen a < s_gen b → apply (normalize a) (diff a b) = (normalize b, Ok tt).
Proof.
  intros Hg. unfold apply. cbn [d_gen d_base_gen diff s_gen normalize].
  rewrite (proj2 (Z.leb_gt _ _)) by done. rewrite Z.eqb_refl. cbn [negb]. f_equal.
  unfold normalize at 1. cbn [s_members s_attachments s_relays s_mtu s_keys s_reserved_prefixes s_gen normalize].
  rewrite member_map_keep, attachment_map_keep, diff_members_patch, diff_attachments_patch.
  fold (entries_of (attachment_map (s_attachments b))). rewrite <- keep_members, <- keep_attachments.
  unfold normalize. cbn [diff d_relays d_mtu d_keys d_reserved_prefixes].
  rewrite !keep_last_idemp, !changed_default by (intros; apply keep_last_idemp).
  f_equal; [by apply (changed_default (λ x, x))|].
  apply changed_default. intros. apply normalize_prefixes_id, normalize_prefixes_sorted.
Qed.

Lemma diff_apply a b :
  is_normal a → is_normal b → s_gen a < s_gen b → apply a (diff a b) = (b, Ok tt).
Proof.
  intros Ha Hb Hg. pose proof (diff_apply_raw a b Hg) as He. by rewrite !normalize_id in He.
Qed.

Lemma apply_normal s d : is_normal s → is_normal (apply s d).1.
Proof. intros. unfold apply. repeat case_on; auto with nq. Qed.

Lemma apply_duplicate s d : d_gen d ≤ s_gen s → apply s d = (s, Ok tt).
Proof. intros. unfold apply. by rewrite (proj2 (Z.leb_le _ _)). Qed.

(** Two views mean the same: every lookup, the MTU and the reserved set agree. *)
Definition same_content (a b : Snapshot) : Prop :=
  (∀ k, find_key pi_node_id k (reverse (s_members a)) = find_key pi_node_id k (reverse (s_members b))) ∧
  (∀ k, find_key ae_node_id k (reverse (s_attachments a)) = find_key ae_node_id k (reverse (s_attachments b))) ∧
  (∀ k, find_key re_relay_id k (reverse (s_relays a)) = find_key re_relay_id k (reverse (s_relays b))) ∧
  s_mtu a = s_mtu b ∧
  (∀ k, find_key ki_kid k (reverse (s_keys a)) = find_key ki_kid k (reverse (s_keys b))) ∧
  (∀ p, p ∈ s_reserved_prefixes a ↔ p ∈ s_reserved_prefixes b).

Lemma keep_last_ext {A K} `{Countable K, OrdKey K} (key : A → K) (l1 l2 : list A) :
  keep_last_sorted key l1 = keep_last_sorted key l2 ↔
  ∀ k, find_key key k (reverse l1) = find_key key k (reverse l2).
Proof.
  split.
  - intros He k. by rewrite <- !(find_key_keep_last key), He.
  - intros He. apply (lt_sorted_find_ext key); [apply keep_last_sorted_sorted..|].
    intros k. by rewrite !find_key_keep_last.
Qed.

Lemma normalize_prefixes_ext l1 l2 :
  normalize_prefixes l1 = normalize_prefixes l2 ↔ ∀ p, p ∈ l1 ↔ p ∈ l2.
Proof.
  split.
  - intros He p. by rewrite <- (elem_of_normalize_prefixes p l1), He, elem_of_normalize_prefixes.
  - intros He. apply (lt_sorted_ext prefix_order); [apply normalize_prefixes_sorted..|].
    intros p. by rewrite !elem_of_normalize_prefixes.
Qed.

Lemma normalize_ext a b : s_gen a = s_gen b → normalize a = normalize b ↔ same_content a b.
Proof.
  intros Hg. unfold normalize, same_content. rewrite Hg. split.
  - intros He. injection He as E1 E2 E3 E4 E5 E6.
    by rewrite <- !keep_last_ext, <- normalize_prefixes_ext.
  - intros (E1 & E2 & E3 & E4 & E5 & E6). rewrite <- !keep_last_ext in *.
    rewrite <- normalize_prefixes_ext in E6. congruence.
Qed.

(** ** Properties *)

(** C28: a delta carries a view exactly: applying [diff a b] to the canonical
    form of [a] gives the canonical form of [b], also when the lists the
    difference was taken over are unsorted or hold duplicate keys. *)
Theorem view_diff_apply a b :
  s_gen a < s_gen b → apply (normalize a) (diff a b) = (normalize b, Ok tt).
Proof. apply diff_apply_raw. Qed.

(** [apply] on every branch: a delta up to a generation already held
    changes nothing; one based on another generation is refused with both
    generations named and the view untouched; otherwise the view moves to the
    delta's generation in canonical form, each member being the changed one if
    listed, absent if removed and not changed, and as before otherwise. *)
Theorem apply_branches s d :
  (d_gen d ≤ s_gen s → apply s d = (s, Ok tt)) ∧
  (s_gen s < d_gen d → d_base_gen d ≠ s_gen s →
     apply s d = (s, Err (mkGenerationGap (d_base_gen d) (s_gen s)))) ∧
  (s_gen s < d_gen d → d_base_gen d = s_gen s →
     ∃ s', apply s d = (s', Ok tt) ∧ s_gen s' = d_gen d ∧ is_normal s' ∧
       ∀ k, find_key pi_node_id k (s_members s') =
            match find_key pi_node_id k (reverse (d_members_changed d)) with
            | Some m => Some m
            | None => if decide (k ∈ d_members_removed d) then None
                      else find_key pi_node_id k (reverse (s_members s))
            end).
Proof.
  split; [apply apply_duplicate|]. split.
  { intros Hg Hb. unfold apply. rewrite (proj2 (Z.leb_gt _ _)) by done. by rewrite (proj2 (Z.eqb_neq _ _)). }
  intros Hg Hb. unfold apply. rewrite (proj2 (Z.leb_gt _ _)) by done. rewrite (proj2 (Z.eqb_eq _ _)) by done.
  eexists. split; [done|]. split; [done|]. split; [apply normalize_normal|]. intros k. cbn [s_members normalize].
  rewrite find_key_keep_last, <- member_map_lookup. set (M := bt_insert_all _ _).
  assert (∀ l (m : gmap Z PeerInfo) k, bt_insert_all ((λ x, (pi_node_id x, x)) <$> l) m !! k =
            match find_key pi_node_id k (reverse l) with Some x => Some x | None => m !! k end) as Hins.
  { intros l m j. induction l as [|x l IH] using rev_ind; [done|].
    rewrite fmap_app, list_fmap_singleton, reverse_snoc. unfold bt_insert_all in *. rewrite foldl_snoc. cbn.
    case_decide as Hj; [subst; by rewrite lookup_insert_eq|]. by rewrite lookup_insert_ne. }
  assert (self_keyed pi_node_id M) as HM.
  { intros i x. unfold M. rewrite Hins. destruct (find_key _ _ _) as [y|] eqn:Hf.
    - intros; simplify_eq. by apply find_key_key in Hf as [? _].
    - rewrite bt_remove_all_lookup. case_decide; [done|]. apply member_map_self_keyed. }
  rewrite member_map_lookup, find_key_reverse_sorted by by apply bt_values_sorted.
  rewrite find_key_bt_values by done. unfold M. rewrite Hins. destruct (find_key _ _ _); [done|].
  by rewrite bt_remove_all_lookup, member_map_lookup.
Qed.

(** Canonical form is canonical: normalising is idempotent, its result is
    strictly sorted, and two views normalise to one value exactly when they
    mean the same, so the digest (for any serializer) depends on the content
    alone and not on the generation, the order or shadowed duplicates. *)
Theorem normal_form_canonical enc :
  (∀ s, is_normal (normalize s) ∧ normalize (normalize s) = normalize s) ∧
  (∀ a b, s_gen a = s_gen b → normalize a = normalize b ↔ same_content a b) ∧
  (∀ a b, same_content a b → digest enc a = digest enc b).
Proof.
  split; [|split].
  - intros s. split; [apply normalize_normal|]. apply normalize_id, normalize_normal.
  - apply normalize_ext.
  - intros a b Hab. unfold digest. do 2 f_equal. by apply normalize_ext.
Qed.

(** The binary searches of a canonical view are exact lookups: the last
    entry declared for the id, or none. *)
Theorem view_lookups_exact s id :
  member (normalize s) id = find_key pi_node_id id (reverse (s_members s)) ∧
  attachment_of (normalize s) id = ae_relay_id <$> find_key ae_node_id id (reverse (s_attachments s)).
Proof.
  unfold member, attachment_of. cbn [s_members s_attachments normalize]. split.
  - rewrite binary_search_find by apply keep_last_sorted_sorted. apply find_key_keep_last.
  - rewrite <- find_key_keep_last, <- binary_search_find by apply keep_last_sorted_sorted.
    by destruct (binary_search_by_key _ _ _).
Qed.

Module ViewExample.
Definition peer (id : Z) (online : bool) : PeerInfo := mkPeerInfo id "n" Client [Net4 id 32] "PK" online 1.
Definition old_view : Snapshot :=
  mkSnapshot 1 [peer 2 true; peer 1 true; peer 2 false] [mkAttachmentEntry 2 9] [] (mkNetworkMtu 1350 "config") [] [Net4 10 8].
Definition new_view : Snapshot :=
  mkSnapshot 2 [peer 3 true; peer 1 false] [] [] (mkNetworkMtu 1300 "config") [] [Net4 10 8].
End ViewExample.

Lemma view_diff_apply_witness :
  apply (normalize ViewExample.old_view) (diff ViewExample.old_view ViewExample.new_view) =
    (normalize ViewExample.new_view, Ok tt) ∧
  d_members_removed (diff ViewExample.old_view ViewExample.new_view) = [2].
Proof. split; [apply view_diff_apply; reflexivity|vm_compute; reflexivity]. Defined.
