(* ===== verification/Tables.v ===== *)
(** * The relay's forwarding decision (crates/nqvpn-relay/src/tables.rs)

    The two forwarding tables, [route], and the per-decision counters. *)

From S2P Require Import Prelude Frame.

Inductive Route : Set :=
| RLocal (id : Z)
| RMesh (id : Z)
| RMe
| RDrop (d : Decision).

#[export] Instance Route_eq_dec : EqDecision Route.
Proof. solve_decision. Defined.

Definition route_decision (r : Route) : Decision :=
  match r with
  | RLocal _ => DeliverLocal
  | RMesh _ => ForwardMesh
  | RMe => TerminateHere
  | RDrop d => d
  end.

Inductive Origin : Set :=
| OClient (node : Z)
| ORelay (relay : Z).

#[export] Instance Origin_eq_dec : EqDecision Origin.
Proof. solve_decision. Defined.

Record Tables := mkTables {
  t_my_node_id : Z;
  t_local : gset Z;
  t_attachments : gmap Z Z;
  t_mesh : gset Z;
}.

Definition tables_new (my_node_id : Z) : Tables := mkTables my_node_id ∅ ∅ ∅.

Definition set_local (node : Z) (present : bool) (t : Tables) : Tables :=
  mkTables (t_my_node_id t)
    (if present then {[node]} ∪ t_local t else t_local t ∖ {[node]})
    (t_attachments t) (t_mesh t).

Definition set_mesh (relay : Z) (present : bool) (t : Tables) : Tables :=
  mkTables (t_my_node_id t) (t_local t) (t_attachments t)
    (if present then {[relay]} ∪ t_mesh t else t_mesh t ∖ {[relay]}).

(** [entries.into_iter().collect()]: of two entries with one key the later wins. *)
Definition replace_attachments (entries : list (Z * Z)) (t : Tables) : Tables :=
  mkTables (t_my_node_id t) (t_local t) (foldl (λ m p, <[p.1 := p.2]> m) ∅ entries) (t_mesh t).

(** The guard both origins pass before any lookup. *)
Definition src_spoofed (t : Tables) (origin : Origin) (src_id : Z) : bool :=
  match origin with
  | OClient session_node => negb (session_node =? src_id)
  | ORelay relay => negb (src_id =? relay) && negb (bool_decide (t_attachments t !! src_id = Some relay))
  end.

Definition route (t : Tables) (origin : Origin) (src_id dst_id : Z) : Route :=
  if src_spoofed t origin src_id then RDrop DropSrcSpoofed else
  if dst_id =? t_my_node_id t then RMe else
  if bool_decide (dst_id ∈ t_local t) then RLocal dst_id else
  match origin with
  | ORelay _ => RDrop DropNoSecondHop
  | OClient _ =>
      if bool_decide (dst_id ∈ t_mesh t) then RMesh dst_id else
      match t_attachments t !! dst_id with
      | Some relay => if bool_decide (relay ∈ t_mesh t) then RMesh relay else RDrop DropMeshLinkDown
      | None => RDrop DropDstUnknown
      end
  end.

(** ** Counters *)

Record Counters := mkCounters { c_by_decision : list Z }.

Definition counters_default : Counters := mkCounters (replicate (length decision_ALL) 0).

(** [Decision::ALL.iter().position(|x| *x == d)] *)
Fixpoint position (d : Decision) (l : list Decision) : option nat :=
  match l with
  | [] => None
  | x :: l' => if decide (x = d) then Some O else S <$> position d l'
  end.

Definition note (d : Decision) (c : Counters) : Counters :=
  match position d decision_ALL with
  | Some i => mkCounters (alter (λ n, n ⊕ 1) i (c_by_decision c))
  | None => c
  end.

Definition get (c : Counters) (d : Decision) : Z :=
  match position d decision_ALL with
  | Some i => c_by_decision c !!! i
  | None => 0
  end.

Definition counters_snapshot (c : Counters) : list (string * Z) :=
  (λ d, (decision_as_str d, get c d)) <$> decision_ALL.

Record ByteCounter := mkByteCounter { bc_bytes : Z; bc_pkts : Z }.
Definition byte_counter_default : ByteCounter := mkByteCounter 0 0.
Definition byte_add (bytes : Z) (b : ByteCounter) : ByteCounter :=
  mkByteCounter (bc_bytes b ⊕ bytes) (bc_pkts b ⊕ 1).

Record LinkCounters := mkLinkCounters { lc_tx : ByteCounter; lc_rx : ByteCounter }.
Definition link_counters_default : LinkCounters := mkLinkCounters byte_counter_default byte_counter_default.

#[export] Instance ByteCounter_eq_dec : EqDecision ByteCounter.
Proof. solve_decision. Defined.
#[export] Instance LinkCounters_eq_dec : EqDecision LinkCounters.
Proof. solve_decision. Defined.

(** ** The forwarding rule, as DESIGN section 6 states it *)

(** Who may speak for [src]: a client only for itself, a relay for itself and
    for the members the attachment table places on it. *)
Definition speaks_for (t : Tables) (o : Origin) (src : Z) : Prop :=
  match o with
  | OClient n => n = src
  | ORelay r => src = r ∨ t_attachments t !! src = Some r
  end.

(** The relay the table knows for a destination that is not here. *)
Definition next_relay (t : Tables) (dst : Z) : option Z :=
  if decide (dst ∈ t_mesh t) then Some dst else t_attachments t !! dst.

Inductive route_spec (t : Tables) (o : Origin) (src dst : Z) : Route → Prop :=
| rs_spoofed : ¬ speaks_for t o src → route_spec t o src dst (RDrop DropSrcSpoofed)
| rs_me : speaks_for t o src → dst = t_my_node_id t → route_spec t o src dst RMe
| rs_local : speaks_for t o src → dst ≠ t_my_node_id t → dst ∈ t_local t →
    route_spec t o src dst (RLocal dst)
| rs_second r : speaks_for t o src → o = ORelay r → dst ≠ t_my_node_id t → dst ∉ t_local t →
    route_spec t o src dst (RDrop DropNoSecondHop)
| rs_mesh r : o = OClient src → dst ≠ t_my_node_id t → dst ∉ t_local t →
    next_relay t dst = Some r → r ∈ t_mesh t → route_spec t o src dst (RMesh r)
| rs_down r : o = OClient src → dst ≠ t_my_node_id t → dst ∉ t_local t →
    next_relay t dst = Some r → r ∉ t_mesh t → route_spec t o src dst (RDrop DropMeshLinkDown)
| rs_unknown : o = OClient src → dst ≠ t_my_node_id t → dst ∉ t_local t →
    next_relay t dst = None → route_spec t o src dst (RDrop DropDstUnknown).

Lemma src_spoofed_spec t o src : src_spoofed t o src = false ↔ speaks_for t o src.
Proof.
  destruct o; cbn.
  - rewrite negb_false_iff. apply Z.eqb_eq.
  - rewrite andb_false_iff, !negb_false_iff, Z.eqb_eq, bool_decide_eq_true. done.
Qed.

Lemma route_spec_sound t o src dst : route_spec t o src dst (route t o src dst).
Proof.
  unfold route. destruct (src_spoofed t o src) eqn:Hs.
  { apply rs_spoofed. rewrite <- src_spoofed_spec. congruence. }
  apply src_spoofed_spec in Hs.
  case_on; [by apply rs_me|]. case_on; [by apply rs_local|].
  destruct o as [n|r]; [|by eapply rs_second].
  cbn in Hs. subst.
  unfold next_relay in *. case_on.
  - eapply (rs_mesh _ _ _ _ dst); unfold next_relay; rewrite ?decide_True; done.
  - case_on; [case_on|].
    + eapply rs_mesh; unfold next_relay; rewrite ?decide_False; done.
    + eapply rs_down; unfold next_relay; rewrite ?decide_False; done.
    + eapply rs_unknown; unfold next_relay; rewrite ?decide_False; done.
Qed.

Lemma route_spec_fun t o src dst r1 r2 :
  route_spec t o src dst r1 → route_spec t o src dst r2 → r1 = r2.
Proof.
  intros H1 H2; destruct H1; destruct H2; simplify_eq/=; try done; try naive_solver.
Qed.

Lemma route_relay_never_mesh t r src dst x : route t (ORelay r) src dst ≠ RMesh x.
Proof.
  intros He. pose proof (route_spec_sound t (ORelay r) src dst) as Hs. rewrite He in Hs. by inv Hs.
Qed.

(** ** Counters *)

Lemma position_ALL d : ∃ i, position d decision_ALL = Some i ∧ (i < length decision_ALL)%nat.
Proof. destruct d; eexists; (split; [vm_compute; reflexivity|vm_compute; lia]). Qed.

Lemma position_inj d d' : position d decision_ALL = position d' decision_ALL → d = d'.
Proof. by destruct d, d'. Qed.

Definition wf_counters (c : Counters) : Prop :=
  length (c_by_decision c) = length decision_ALL ∧ Forall (u_range 64) (c_by_decision c).

Lemma counters_default_wf : wf_counters counters_default.
Proof. split; [done|]. repeat constructor; done. Qed.

Lemma note_wf d c : wf_counters c → wf_counters (note d c).
Proof.
  intros [Hl Hf]. unfold note. destruct (position d decision_ALL); [|done]. split; cbn.
  - by rewrite length_alter.
  - apply Forall_alter; [done|]. intros. apply wadd64_range.
Qed.

Lemma get_note c d d' : wf_counters c → get (note d c) d' = if decide (d = d') then get c d' ⊕ 1 else get c d'.
Proof.
  intros [Hl _]. unfold get, note. destruct (position_ALL d) as (i & Hi & Hlt).
  destruct (position_ALL d') as (j & Hj & Hlt'). rewrite Hi, Hj. cbn. case_decide as Hd.
  - subst. rewrite Hi in Hj. simplify_eq.
    destruct (lookup_lt_is_Some_2 (c_by_decision c) j) as [x Hx]; [by rewrite Hl|].
    erewrite !list_lookup_total_correct; [done|done|]. rewrite list_lookup_alter_eq, Hx. done.
  - assert (i ≠ j) by (intros ->; apply Hd, position_inj; congruence).
    by rewrite list_lookup_total_alter_ne.
Qed.

Lemma get_range c d : wf_counters c → u_range 64 (get c d).
Proof.
  intros [Hl Hf]. unfold get. destruct (position_ALL d) as (i & -> & Hlt).
  eapply Forall_lookup_1; [done|]. apply list_lookup_lookup_total_lt. by rewrite Hl.
Qed.

(** How often [d] occurs in a list of noted decisions. *)
Definition occurrences (d : Decision) (ds : list Decision) : Z :=
  Z.of_nat (length (List.filter (λ x, bool_decide (x = d)) ds)).

(** ** Properties *)

(** [route] is exactly the forwarding rule of DESIGN section 6: the result
    is the one outcome the rule allows, so a spoofed source is dropped before
    any lookup, a frame ends at this relay when addressed to it, goes to an
    attached client, or (from a client only) to the one relay the tables name,
    with link-down and unknown kept apart. *)
Theorem route_exact t o src dst r : route t o src dst = r ↔ route_spec t o src dst r.
Proof.
  split; [intros <-; apply route_spec_sound|]. intros Hr. eapply route_spec_fun; [apply route_spec_sound|done].
Qed.

(** The counters are exact: after any sequence of noted decisions the
    counter of each decision is how often it was noted (modulo 2^64), no other
    counter moves, and the status snapshot lists every decision once under its
    trace name. *)
Theorem counters_exact ds d :
  let c := foldl (λ c x, note x c) counters_default ds in
  get c d = occurrences d ds mod 2 ^ 64 ∧
  counters_snapshot c = (λ d, (decision_as_str d, occurrences d ds mod 2 ^ 64)) <$> decision_ALL.
Proof.
  cbn zeta.
  assert (∀ d, get (foldl (λ c x, note x c) counters_default ds) d = occurrences d ds mod 2 ^ 64) as Hget.
  { assert (∀ ds, wf_counters (foldl (λ c x, note x c) counters_default ds)) as Hwf.
    { intros l. apply foldl_inv; [apply counters_default_wf|]. intros. by apply note_wf. }
    clear d. intros d. induction ds as [|x l IH] using rev_ind.
    - by destruct d.
    - rewrite foldl_snoc, get_note, IH by done. unfold occurrences. rewrite List.filter_app, length_app.
      cbn [List.filter]. case_decide as Hx.
      + rewrite bool_decide_eq_true_2 by done. cbn [length]. unfold wadd64. rewrite Zplus_mod_idemp_l.
        f_equal. lia.
      + rewrite bool_decide_eq_false_2 by done. cbn [length]. by rewrite Nat.add_0_r. }
  split; [done|]. unfold counters_snapshot. apply list_fmap_ext. intros ? x _. by rewrite Hget.
Qed.
