(* ===== verification/Credential.v ===== *)
(** * Member credentials (crates/nqvpn-proto/src/credential.rs)

    The compact JWS the coordinator signs and every relay verifies offline.
    Base64, serde_json and ed25519-dalek are parameters ([CredLib]). *)

From S2P Require Import Prelude Control.
From Stdlib Require Import Ascii.

Definition AUD : string := "nqvpn-v1".
Definition LEEWAY_SECS : Z := 120.

Record Header := mkHeader { h_alg : string; h_typ : string; h_kid : string }.

Record Claims := mkClaims {
  cl_iss : string;
  cl_aud : string;
  cl_network_id : string;
  cl_network_uuid : string;
  cl_node_id : Z;
  cl_sub : string;
  cl_role : Role;
  cl_pubkey : string;
  cl_cert_fp : string;
  cl_prefixes : list string;
  cl_login_gen : Z;
  cl_iat : Z;
  cl_exp : Z;
}.

Inductive CredError : Type :=
| Malformed
| BadAlg (alg : string)
| UnknownKid (kid : string)
| BadSignature
| Expired (exp now : Z)
| NotYetValid (iat now : Z)
| BadAud (aud : string)
| BadIss (iss : string)
| BadNetwork (network : string).

Record Expected := mkExpected { ex_iss : string; ex_network_id : string; ex_network_uuid : string }.

#[export] Instance Header_eq_dec : EqDecision Header.
Proof. solve_decision. Defined.
#[export] Instance Claims_eq_dec : EqDecision Claims.
Proof. solve_decision. Defined.
#[export] Instance CredError_eq_dec : EqDecision CredError.
Proof. solve_decision. Defined.

Class CredLib := {
  SigningKey : Type;
  VerifyingKey : Type;
  verifying_key : SigningKey → VerifyingKey;
  key_sign : SigningKey → string → list Z;
  verify_strict : VerifyingKey → string → list Z → bool;
  b64url_encode : list Z → string;
  b64url_decode : string → option (list Z);
  header_to_vec : Header → list Z;
  header_from_slice : list Z → option Header;
  claims_to_vec : Claims → list Z;
  claims_from_slice : list Z → option Claims;
  json_str_field : list Z → string → option string;
  json_u64_field : list Z → string → option Z;
}.

(** [str::split(c)]: always at least one part. *)
Fixpoint split_on (c : ascii) (s : string) : list string :=
  match s with
  | EmptyString => [EmptyString]
  | String x s' =>
      if Ascii.eqb x c then EmptyString :: split_on c s'
      else match split_on c s' with
           | [] => [String x EmptyString]
           | p :: ps => String x p :: ps
           end
  end.

#[local] Arguments Ascii.eqb : simpl never.

Fixpoint no_char (c : ascii) (s : string) : bool :=
  match s with EmptyString => true | String x s' => negb (Ascii.eqb x c) && no_char c s' end.

Class CredLaws (L : CredLib) : Prop := {
  b64_roundtrip bs : b64url_decode (b64url_encode bs) = Some bs;
  b64_no_dot bs : no_char "."%char (b64url_encode bs) = true;
  header_json_roundtrip h : header_from_slice (header_to_vec h) = Some h;
  claims_json_roundtrip c : claims_from_slice (claims_to_vec c) = Some c;
  signature_valid k m : verify_strict (verifying_key k) m (key_sign k m) = true;
  signature_length k m : length (key_sign k m) = 64%nat;
  claims_u64_fields c :
    json_u64_field (claims_to_vec c) "iat" = Some (cl_iat c) ∧
    json_u64_field (claims_to_vec c) "exp" = Some (cl_exp c) ∧
    json_u64_field (claims_to_vec c) "node_id" = Some (cl_node_id c) ∧
    json_str_field (claims_to_vec c) "network_id" = Some (cl_network_id c);
}.

Section credential.
Context `{L : CredLib}.

Definition sign (claims : Claims) (kid : string) (key : SigningKey) : string :=
  let header := mkHeader "EdDSA" "JWT" kid in
  let h := b64url_encode (header_to_vec header) in
  let p := b64url_encode (claims_to_vec claims) in
  let signing_input := (h +:+ "." +:+ p)%string in
  let sig := key_sign key signing_input in
  (signing_input +:+ "." +:+ b64url_encode sig)%string.

(** The JSON payload of an unverified token. *)
Definition peek (token : string) : option (list Z) :=
  match split_on "." token with
  | _ :: p :: _ => b64url_decode p
  | _ => None
  end.

Definition peek_network (token : string) : option string :=
  j ← peek token; json_str_field j "network_id".
Definition peek_u64 (token field : string) : option Z := j ← peek token; json_u64_field j field.
Definition peek_node_id (token : string) : option Z :=
  v ← peek_u64 token "node_id"; if v <? 2 ^ 32 then Some v else None.
Definition peek_exp (token : string) : option Z := peek_u64 token "exp".

Definition renew_after_secs (token : string) : Z :=
  match peek_u64 token "iat", peek_u64 token "exp" with
  | Some iat, Some exp =>
      if iat <? exp then Z.max (((exp - iat) * 2) mod 2 ^ 64 / 3) 30 else 300
  | _, _ => 300
  end.

Definition find_kid (kid : string) (keys : list (string * VerifyingKey)) : option VerifyingKey :=
  snd <$> List.find (λ p, String.eqb p.1 kid) keys.

(** The checks made on the claims once the signature holds. *)
Definition check_claims (claims : Claims) (expected : Expected) (now : Z) : Result Claims CredError :=
  if sat_add 64 (cl_exp claims) LEEWAY_SECS <=? now then Err (Expired (cl_exp claims) now) else
  if sat_add 64 now LEEWAY_SECS <? cl_iat claims then Err (NotYetValid (cl_iat claims) now) else
  if negb (String.eqb (cl_aud claims) AUD) then Err (BadAud (cl_aud claims)) else
  if negb (String.eqb (cl_iss claims) (ex_iss expected)) then Err (BadIss (cl_iss claims)) else
  if negb (String.eqb (cl_network_id claims) (ex_network_id expected))
     || negb (String.eqb (cl_network_uuid claims) (ex_network_uuid expected))
  then Err (BadNetwork (cl_network_id claims)) else
  Ok claims.

Definition ok_or {A E} (o : option A) (e : E) : Result A E :=
  match o with Some a => Ok a | None => Err e end.

Definition verify (token : string) (keys : list (string * VerifyingKey)) (expected : Expected) (now : Z)
    : Result Claims CredError :=
  match split_on "." token with
  | [h; p; s] =>
      let? hb := ok_or (b64url_decode h) Malformed in
      let? header := ok_or (header_from_slice hb) Malformed in
      if negb (String.eqb (h_alg header) "EdDSA") then Err (BadAlg (h_alg header)) else
      let? key := ok_or (find_kid (h_kid header) keys) (UnknownKid (h_kid header)) in
      let? sig := ok_or (b64url_decode s) Malformed in
      if negb (length sig =? 64)%nat then Err Malformed else
      if negb (verify_strict key (h +:+ "." +:+ p)%string sig) then Err BadSignature else
      let? pb := ok_or (b64url_decode p) Malformed in
      let? claims := ok_or (claims_from_slice pb) Malformed in
      check_claims claims expected now
  | _ => Err Malformed
  end.

(** What an acceptor may conclude from a credential it accepted. *)
Definition bound_to (c : Claims) (e : Expected) (now : Z) : Prop :=
  now < sat_add 64 (cl_exp c) LEEWAY_SECS ∧ cl_iat c ≤ sat_add 64 now LEEWAY_SECS ∧
  cl_aud c = AUD ∧ cl_iss c = ex_iss e ∧
  cl_network_id c = ex_network_id e ∧ cl_network_uuid c = ex_network_uuid e.

Lemma check_claims_ok c e now c' : check_claims c e now = Ok c' ↔ c' = c ∧ bound_to c e now.
Proof.
  unfold check_claims, bound_to. split.
  - repeat case_on; intros; simplify_eq.
    repeat match goal with H : String.eqb _ _ = true |- _ => apply String.eqb_eq in H end. done.
  - intros (-> & H1 & H2 & H3 & H4 & H5 & H6). rewrite H3, H4, H5, H6.
    rewrite !String.eqb_refl. rewrite (proj2 (Z.leb_gt _ _)), (proj2 (Z.ltb_ge _ _)) by done. done.
Qed.
End credential.

Lemma split_on_no_char c s : no_char c s = true → split_on c s = [s].
Proof.
  induction s as [|x s IH]; cbn; [done|]. intros [Hx Hs]%andb_true_iff. apply negb_true_iff in Hx.
  by rewrite Hx, IH.
Qed.

Lemma string_app_cons x (s t : string) : (String x s +:+ t = String x (s +:+ t))%string.
Proof. reflexivity. Qed.

Lemma string_app_nil (t : string) : (EmptyString +:+ t = t)%string.
Proof. reflexivity. Qed.

Lemma split_on_app c s t : no_char c s = true → split_on c (s +:+ String c t) = s :: split_on c t.
Proof.
  induction s as [|x s IH]; rewrite ?string_app_cons, ?string_app_nil; cbn; [by rewrite Ascii.eqb_refl|].
  intros [Hx Hs]%andb_true_iff. apply negb_true_iff in Hx. by rewrite Hx, IH.
Qed.

Lemma string_app_assoc (a b c : string) : ((a +:+ b) +:+ c = a +:+ (b +:+ c))%string.
Proof. induction a as [|x a IH]; [done|]. by rewrite !string_app_cons, IH. Qed.

Section credential_laws.
Context `{L : CredLib, !CredLaws L}.

Lemma sign_parts claims kid key :
  let h := b64url_encode (header_to_vec (mkHeader "EdDSA" "JWT" kid)) in
  let p := b64url_encode (claims_to_vec claims) in
  split_on "." (sign claims kid key) =
  [h; p; b64url_encode (key_sign key (h +:+ "." +:+ p)%string)].
Proof.
  cbn zeta. unfold sign. rewrite !string_app_assoc, !string_app_cons, !string_app_nil.
  rewrite !split_on_app by apply b64_no_dot. by rewrite split_on_no_char by apply b64_no_dot.
Qed.

Lemma verify_signed claims kid key keys expected now :
  find_kid kid keys = Some (verifying_key key) →
  verify (sign claims kid key) keys expected now = check_claims claims expected now.
Proof.
  intros Hk. unfold verify. rewrite sign_parts. cbn zeta.
  rewrite !b64_roundtrip. cbn [ok_or]. rewrite header_json_roundtrip. cbn. rewrite Hk. cbn.
  rewrite signature_length. cbn [Nat.eqb negb].
  rewrite signature_valid. cbn [negb]. by rewrite claims_json_roundtrip.
Qed.

Lemma peek_signed claims kid key :
  peek_network (sign claims kid key) = Some (cl_network_id claims) ∧
  (cl_node_id claims < 2 ^ 32 → peek_node_id (sign claims kid key) = Some (cl_node_id claims)).
Proof.
  destruct (claims_u64_fields claims) as (_ & _ & Hn & Hi).
  unfold peek_network, peek_node_id, peek_u64, peek. rewrite sign_parts. cbn zeta. rewrite b64_roundtrip. cbn.
  rewrite Hn, Hi. cbn. split; [done|]. intros Hlt. by rewrite (proj2 (Z.ltb_lt _ _)).
Qed.

(** A credential the coordinator signs is accepted by every relay that
    holds the signing key under that key id, returning the very claims, when
    they bind to what the relay expects and the clock is within the leeway;
    otherwise it is refused by the claim checks alone. *)
Theorem sign_verify claims kid key keys expected now :
  find_kid kid keys = Some (verifying_key key) →
  verify (sign claims kid key) keys expected now = check_claims claims expected now ∧
  (verify (sign claims kid key) keys expected now = Ok claims ↔ bound_to claims expected now).
Proof. intros Hk. rewrite verify_signed, check_claims_ok by done. naive_solver. Qed.

(** An accepted credential proves all it should: it splits in exactly
    three parts, names EdDSA and a key the verifier holds, carries that
    key's signature over header and payload, and its claims (those of the
    signed payload) bind to the expected audience, issuer, network id and
    uuid inside the clock leeway. *)
Theorem verify_accepts_only_bound token keys expected now claims :
  verify token keys expected now = Ok claims →
  ∃ h p s hb header key sig pb,
    split_on "." token = [h; p; s] ∧
    b64url_decode h = Some hb ∧ header_from_slice hb = Some header ∧ h_alg header = "EdDSA"%string ∧
    find_kid (h_kid header) keys = Some key ∧
    b64url_decode s = Some sig ∧ length sig = 64%nat ∧
    verify_strict key (h +:+ "." +:+ p)%string sig = true ∧
    b64url_decode p = Some pb ∧ claims_from_slice pb = Some claims ∧
    bound_to claims expected now.
Proof.
  unfold verify. destruct (split_on "." token) as [|h [|p [|s [|? ?]]]]; try done.
  destruct (b64url_decode h) as [hb|] eqn:E1; cbn; [|done].
  destruct (header_from_slice hb) as [header|] eqn:E2; cbn; [|done].
  destruct (String.eqb (h_alg header) "EdDSA") eqn:E3; cbn; [|done].
  destruct (find_kid (h_kid header) keys) as [key|] eqn:E4; cbn; [|done].
  destruct (b64url_decode s) as [sig|] eqn:E5; cbn; [|done].
  destruct (length sig =? 64)%nat eqn:E6; cbn [negb]; [|done].
  destruct (verify_strict key _ sig) eqn:E7; cbn [negb]; [|done].
  destruct (b64url_decode p) as [pb|] eqn:E8; cbn; [|done].
  destruct (claims_from_slice pb) as [c|] eqn:E9; cbn; [|done].
  intros [-> Hb]%check_claims_ok. apply String.eqb_eq in E3. apply Nat.eqb_eq in E6.
  exists h, p, s, hb, header, key, sig, pb. done.
Qed.

(** A member renews in time: for a credential living at least 45
    seconds the wait read off the token is two thirds of its lifetime, at
    least 30 seconds, and ends before the expiry; a token that cannot be
    read falls back to 300 seconds. *)
Theorem renewal_before_expiry claims kid key :
  u_range 64 (cl_iat claims) → cl_iat claims + 45 ≤ cl_exp claims < 2 ^ 63 →
  let w := renew_after_secs (sign claims kid key) in
  30 ≤ w ∧ w = (cl_exp claims - cl_iat claims) * 2 / 3 ∧ cl_iat claims + w < cl_exp claims.
Proof.
  intros Hi He. cbn zeta. unfold renew_after_secs, peek_u64, peek. rewrite sign_parts. cbn zeta.
  rewrite b64_roundtrip. cbn. destruct (claims_u64_fields claims) as (-> & -> & _). cbn.
  unfold u_range in Hi. rewrite (proj2 (Z.ltb_lt _ _)) by lia. rewrite Z.mod_small by lia.
  pose proof (Z.div_mod ((cl_exp claims - cl_iat claims) * 2) 3). pose proof (Z.mod_pos_bound ((cl_exp claims - cl_iat claims) * 2) 3).
  lia.
Qed.
End credential_laws.

(** ** A concrete library, and the properties at a concrete credential *)

Module CredExample.
#[export] Instance Role_countable : Countable Role.
Proof.
  refine (inj_countable' (λ r, match r with Client => true | Relay => false end)
            (λ b : bool, if b then Client else Relay) _). by intros [].
Defined.
#[export] Instance Header_countable : Countable Header.
Proof.
  refine (inj_countable' (λ h, (h_alg h, h_typ h, h_kid h)) (λ p, mkHeader p.1.1 p.1.2 p.2) _). by intros [].
Defined.
#[export] Instance Claims_countable : Countable Claims.
Proof.
  refine (inj_countable'
    (λ c, ((cl_iss c, cl_aud c, cl_network_id c, cl_network_uuid c, cl_node_id c),
           (cl_sub c, cl_role c, cl_pubkey c, cl_cert_fp c), (cl_prefixes c, cl_login_gen c, cl_iat c, cl_exp c)))
    (λ '((a, b, c, d, e), (f, g, h, i), (j, k, l, m)), mkClaims a b c d e f g h i j k l m) _).
  by intros [].
Defined.

Fixpoint pos_str (p : positive) : string :=
  match p with xH => EmptyString | xO q => String "0"%char (pos_str q) | xI q => String "1"%char (pos_str q) end.
Fixpoint str_pos (s : string) : positive :=
  match s with
  | EmptyString => xH
  | String c s' => if Ascii.eqb c "0"%char then xO (str_pos s') else xI (str_pos s')
  end.
Lemma str_pos_str p : str_pos (pos_str p) = p.
Proof. induction p; cbn; by f_equal. Qed.
Lemma pos_str_no_dot p : no_char "."%char (pos_str p) = true.
Proof. induction p; cbn; done. Qed.

Definition claims_of (l : list Z) : option Claims := match l with [Zpos p] => decode p | _ => None end.

Definition lib : CredLib := {|
  SigningKey := Z; VerifyingKey := Z; verifying_key := λ k, k;
  key_sign := λ k _, replicate 64 k;
  verify_strict := λ k _ sig, bool_decide (sig = replicate 64 k);
  b64url_encode := λ l, pos_str (encode l);
  b64url_decode := λ s, decode (str_pos s);
  header_to_vec := λ h, [Zpos (encode h)];
  header_from_slice := λ l, match l with [Zpos p] => decode p | _ => None end;
  claims_to_vec := λ c, [Zpos (encode c)];
  claims_from_slice := claims_of;
  json_str_field := λ l f, if String.eqb f "network_id" then cl_network_id <$> claims_of l else None;
  json_u64_field := λ l f,
    if String.eqb f "iat" then cl_iat <$> claims_of l else
    if String.eqb f "exp" then cl_exp <$> claims_of l else
    if String.eqb f "node_id" then cl_node_id <$> claims_of l else None;
|}.

Lemma lib_laws : CredLaws lib.
Proof.
  constructor; cbn; intros.
  - by rewrite str_pos_str, decode_encode.
  - apply pos_str_no_dot.
  - by rewrite decode_encode.
  - by rewrite decode_encode.
  - by apply bool_decide_eq_true_2.
  - done.
  - by rewrite decode_encode.
Qed.

Definition member_claims : Claims :=
  mkClaims "nqvpn-coord" AUD "net" "uuid" 7 "alice" Client "PK" "sha256:aa" ["10.0.0.7/32"%string] 3 1000 4600.
Definition relay_expects : Expected := mkExpected "nqvpn-coord" "net" "uuid".
End CredExample.

Lemma sign_verify_witness :
  let L := CredExample.lib in
  verify (sign CredExample.member_claims "k1" 5) [("k0"%string, 4); ("k1"%string, 5)] CredExample.relay_expects 4719
    = Ok CredExample.member_claims.
Proof.
  cbn zeta. pose proof CredExample.lib_laws.
  apply (sign_verify (L := CredExample.lib)); [reflexivity|]. by_decide.
Defined.

Lemma verify_accepts_only_bound_witness :
  let L := CredExample.lib in
  bound_to CredExample.member_claims CredExample.relay_expects 1500.
Proof.
  cbn zeta.
  destruct (verify_accepts_only_bound (L := CredExample.lib)
    (sign (L := CredExample.lib) CredExample.member_claims "k1" 5) [("k1"%string, 5)] CredExample.relay_expects 1500
    CredExample.member_claims) as (h & p & s & hb & header & key & sig & pb & H).
  - vm_compute. reflexivity.
  - apply H.
Defined.

Lemma renewal_before_expiry_witness :
  renew_after_secs (L := CredExample.lib) (sign (L := CredExample.lib) CredExample.member_claims "k1" 5) = 2400.
Proof.
  pose proof CredExample.lib_laws.
  destruct (renewal_before_expiry (L := CredExample.lib) CredExample.member_claims "k1" 5) as (_ & Hw & _);
    [by_decide|by_decide|]. rewrite Hw. reflexivity.
Defined.
