(* ===== verification/RelayNet.v ===== *)
(** * One network on a relay (crates/nqvpn-relay/src/net.rs)

    The sessions a relay holds, the byte-level data plane ([forward]), admission
    ([net_verify]) and [reconcile].  What the code hands to other tasks or to
    the transport is an [Effect]; a call returns the new state and its effects
    in order.  Where the code walks a [HashMap] the model walks it in key
    order. *)

From S2P Require Import Prelude Ordered Ipnet Frame Control Tables Credential.

(** Close codes of a data session (crates/nqvpn-session/src/lib.rs). *)
Definition SESSION_CLOSE_REPLACED : Z := 8.
Definition SESSION_CLOSE_EVICTED : Z := 9.
Definition SESSION_CLOSE_STALE_LOGIN : Z := 11.

Definition COORD_ISS : string := "nqvpn-coord".
Definition FRAME_SLACK : Z := Z.of_nat ROUTED_HEADER_LEN + 8 + 16 + 256.
Definition NO_VIEW_GRACE : Z := 20.
Definition TRACE_NOTES_PER_SEC : Z := 64.

(** A session, as far as the relay looks at it: [ss_chan] names its connection. *)
Record Session := mkSession {
  ss_chan : Z;
  ss_peer : Z;
  ss_peer_fp : string;
  ss_login_gen : Z;
}.

Record Held := mkHeld { he_id : Z; he_session : Session; he_dialed : bool }.

(** [NoteBudget], with [now] in milliseconds of the monotonic clock. *)
Record NoteBudget := mkNoteBudget { nb_window : Z; nb_used : Z }.

Definition note_allow (now : Z) (b : NoteBudget) : NoteBudget * bool :=
  let b := if 1000 <=? now ⊖ nb_window b then mkNoteBudget now 0 else b in
  let used := (nb_used b + 1) mod 2 ^ 32 in
  (mkNoteBudget (nb_window b) used, used <=? TRACE_NOTES_PER_SEC).

Inductive Chaos : Set :=
| CDuplicate
| CCorrupt (n : Z)
| CDrop (n : Z).

Inductive Effect : Type :=
| ESend (chan : Z) (bytes : list Z)
| ESendOn (chan : Z) (bytes : list Z) (lane : Z)
| EDeliver (bytes : list Z)
| EEndpointSync (view : Snapshot)
| EClose (chan : Z) (code : Z) (why : string)
| EKick
| EReplaced
| ERefresh (chan : Z) (credential : string)
| EDialerAbort (id : Z)
| EDialerSpawn (entry : RelayEndpoint).

#[export] Instance Session_eq_dec : EqDecision Session.
Proof. solve_decision. Defined.
#[export] Instance Held_eq_dec : EqDecision Held.
Proof. solve_decision. Defined.
#[export] Instance Chaos_eq_dec : EqDecision Chaos.
Proof. solve_decision. Defined.
#[export] Instance Effect_eq_dec : EqDecision Effect.
Proof. solve_decision. Defined.

(** The session maps and the forwarding table that mirrors them. *)
Record SessionMaps := mkSessionMaps {
  sm_tables : Tables;
  sm_clients : gmap Z Held;
  sm_mesh : gmap Z Held;
  sm_session_seq : Z;
}.

(** The data-plane counters. *)
Record Stats := mkStats {
  st_counters : Counters;
  st_traffic : gmap Z LinkCounters;
  st_local_switched : ByteCounter;
  st_terminated : ByteCounter;
  st_chaos_seq : Z;
}.

Section relay_net.
Context `{L : CredLib}.

Record RelayNet := mkRelayNet {
  rn_network_id : string;
  rn_network_uuid : string;
  rn_my_node_id : Z;
  rn_view : Snapshot;
  rn_refused : bool;
  rn_stopped : bool;
  rn_credential : string;
  rn_keys : list (string * VerifyingKey);
  rn_sess : SessionMaps;
  rn_dialers : gmap Z string;
  rn_stats : Stats;
  rn_endpoint : bool;
  rn_chaos : option Chaos;
  rn_exit_designated : bool;
  rn_exit_ready : option ExitReadiness;
  rn_created : Z;
  rn_mtu_ceiling : Z;
  rn_max_frame : Z;
}.

Definition net_new (network_id network_uuid : string) (my_node_id : Z) (credential : string) (now : Z) : RelayNet :=
  mkRelayNet network_id network_uuid my_node_id snapshot_default false false credential []
    (mkSessionMaps (tables_new my_node_id) ∅ ∅ 1) ∅
    (mkStats counters_default ∅ byte_counter_default byte_counter_default 0)
    false None false None now 0 0.

Definition set_sess (f : SessionMaps → SessionMaps) (n : RelayNet) : RelayNet :=
  let '(mkRelayNet a b c d e f' g h s i st k l m o p q r) := n in
  mkRelayNet a b c d e f' g h (f s) i st k l m o p q r.
Definition set_stats (f : Stats → Stats) (n : RelayNet) : RelayNet :=
  let '(mkRelayNet a b c d e f' g h s i st k l m o p q r) := n in
  mkRelayNet a b c d e f' g h s i (f st) k l m o p q r.
Definition set_dialers (ds : gmap Z string) (n : RelayNet) : RelayNet :=
  let '(mkRelayNet a b c d e f' g h s i st k l m o p q r) := n in
  mkRelayNet a b c d e f' g h s ds st k l m o p q r.
Definition set_keys (ks : list (string * VerifyingKey)) (n : RelayNet) : RelayNet :=
  let '(mkRelayNet a b c d e f' g h s i st k l m o p q r) := n in
  mkRelayNet a b c d e f' g ks s i st k l m o p q r.
Definition set_max_frame (x : Z) (n : RelayNet) : RelayNet :=
  let '(mkRelayNet a b c d e f' g h s i st k l m o p q r) := n in
  mkRelayNet a b c d e f' g h s i st k l m o p q x.
Definition set_exit (des : bool) (ready : option ExitReadiness) (n : RelayNet) : RelayNet :=
  let '(mkRelayNet a b c d e f' g h s i st k l m o p q r) := n in
  mkRelayNet a b c d e f' g h s i st k l des ready p q r.
Definition set_cred (cred : string) (n : RelayNet) : RelayNet :=
  let '(mkRelayNet a b c d e f' g h s i st k l m o p q r) := n in
  mkRelayNet a b c d e f' cred h s i st k l m o p q r.

(** What other tasks write: the view and the link's flags, the endpoint, the
    fault injector and the MTU ceiling. *)
Definition set_link (view : Snapshot) (refused stopped endpoint : bool) (chaos : option Chaos) (ceiling : Z)
    (n : RelayNet) : RelayNet :=
  let '(mkRelayNet a b c d e f' g h s i st k l m o p q r) := n in
  mkRelayNet a b c view refused stopped g h s i st endpoint chaos m o p ceiling r.

(** ** Counters *)

Definition count (d : Decision) (s : Stats) : Stats :=
  mkStats (note d (st_counters s)) (st_traffic s) (st_local_switched s) (st_terminated s) (st_chaos_seq s).

(** [link_counters(peer)]: the peer's counters, created on first use. *)
Definition link_counters (peer : Z) (s : Stats) : LinkCounters :=
  default link_counters_default (st_traffic s !! peer).

Definition add_rx (peer bytes : Z) (s : Stats) : Stats :=
  let c := link_counters peer s in
  mkStats (st_counters s) (<[peer := mkLinkCounters (lc_tx c) (byte_add bytes (lc_rx c))]> (st_traffic s))
    (st_local_switched s) (st_terminated s) (st_chaos_seq s).
Definition add_tx (peer bytes : Z) (s : Stats) : Stats :=
  let c := link_counters peer s in
  mkStats (st_counters s) (<[peer := mkLinkCounters (byte_add bytes (lc_tx c)) (lc_rx c)]> (st_traffic s))
    (st_local_switched s) (st_terminated s) (st_chaos_seq s).
Definition add_switched (bytes : Z) (s : Stats) : Stats :=
  mkStats (st_counters s) (st_traffic s) (byte_add bytes (st_local_switched s)) (st_terminated s) (st_chaos_seq s).
Definition add_terminated (bytes : Z) (s : Stats) : Stats :=
  mkStats (st_counters s) (st_traffic s) (st_local_switched s) (byte_add bytes (st_terminated s)) (st_chaos_seq s).
Definition bump_chaos (s : Stats) : Stats :=
  mkStats (st_counters s) (st_traffic s) (st_local_switched s) (st_terminated s) (st_chaos_seq s ⊕ 1).

(** ** Data plane *)

Definition channel_for (n : RelayNet) (r : Route) : option Z :=
  match r with
  | RLocal id => (λ h, ss_chan (he_session h)) <$> sm_clients (rn_sess n) !! id
  | RMesh id => (λ h, ss_chan (he_session h)) <$> sm_mesh (rn_sess n) !! id
  | _ => None
  end.

Definition trace (n : RelayNet) (h : RoutedHeader) (hop : Z) (arrived_on : option Z) (d : Decision) (detail : Z)
    : list Effect :=
  if negb (header_traced h) then [] else
  let bytes := note_encode (mkTraceNote (rh_src_id h) (rh_trace h) hop (rn_my_node_id n) d detail) in
  match arrived_on with
  | Some chan => [ESend chan bytes]
  | None => if rn_endpoint n then [EDeliver bytes] else []
  end.

(** A trace note on its way back to the origin of the traced frame. *)
Definition forward_note (n : RelayNet) (origin : Origin) (datagram : list Z) : list Effect :=
  match origin, note_parse datagram with
  | ORelay peer, Some tn =>
      if negb (tn_relay_id tn =? peer) then [] else
      if tn_origin tn =? rn_my_node_id n then
        if rn_endpoint n then [EDeliver datagram] else []
      else match channel_for n (RLocal (tn_origin tn)) with
           | Some chan => [ESend chan datagram]
           | None => []
           end
  | _, _ => []
  end.

Definition corrupt (n : RelayNet) (buf : list Z) : list Z :=
  match last buf with
  | Some b => <[pred (length buf) := (b + (1 + rn_my_node_id n mod 200)) mod 256]> buf
  | None => buf
  end.

Definition chaos_hits (every seq : Z) : bool := (0 <? every) && (seq mod every =? 0).

(** The [Local | Mesh] arm of [forward]: [sent] is what the transport's
    [send_on] answers for the frame. *)
Definition forward_send (n : RelayNet) (origin : Origin) (arrived_on : option Z) (sent : bool)
    (bytes : Z) (h : RoutedHeader) (hop : Z) (buf : list Z) (lane : Z) (r : Route) (detail : Z)
    : RelayNet * list Effect :=
  let chaos := rn_chaos n in
  let seq := st_chaos_seq (rn_stats n) in
  let n := set_stats bump_chaos n in
  let dropped := match chaos with Some (CDrop k) => chaos_hits k seq | _ => false end in
  if dropped then (n, []) else
  let buf := match chaos with
             | Some (CCorrupt k) => if chaos_hits k seq then corrupt n buf else buf
             | _ => buf
             end in
  let sends := match channel_for n r with
               | Some c =>
                   (if decide (chaos = Some CDuplicate) then [ESendOn c buf lane] else []) ++ [ESendOn c buf lane]
               | None => []
               end in
  let ok := match channel_for n r with Some _ => sent | None => false end in
  if ok then
    let n := match r, origin with
             | RMesh id, _ => set_stats (add_tx id bytes) n
             | RLocal _, OClient _ => set_stats (add_switched bytes) n
             | _, _ => n
             end in
    (n, sends ++ trace n h hop arrived_on (route_decision r) detail)
  else
    let n := set_stats (count DropSendFailed) n in
    (n, sends ++ trace n h hop arrived_on DropSendFailed detail).

Definition forward (n : RelayNet) (origin : Origin) (arrived_on : option Z) (sent : bool)
    (datagram : list Z) (lane : Z) : RelayNet * list Effect :=
  let bytes := Z.of_nat (length datagram) in
  let n := match origin with ORelay peer => set_stats (add_rx peer bytes) n | _ => n end in
  let max := rn_max_frame n in
  if (0 <? max) && (max <? bytes) then (set_stats (count DropMalformed) n, []) else
  if bool_decide (head datagram = Some T_TRACE_NOTE) then (n, forward_note n origin datagram) else
  match header_parse datagram with
  | None => (set_stats (count DropMalformed) n, [])
  | Some h =>
      match bump_hop datagram with
      | (None, _) =>
          let n := set_stats (count DropTooManyHops) n in
          (n, trace n h (rh_hop h) arrived_on DropTooManyHops 0)
      | (Some hop, buf) =>
          let r := route (sm_tables (rn_sess n)) origin (rh_src_id h) (rh_dst_id h) in
          let n := set_stats (count (route_decision r)) n in
          match r with
          | RLocal id | RMesh id => forward_send n origin arrived_on sent bytes h hop buf lane r id
          | RMe =>
              if rn_endpoint n then
                let n := set_stats (add_terminated bytes) n in
                (n, trace n h hop arrived_on TerminateHere (rn_my_node_id n) ++ [EDeliver buf])
              else
                let n := set_stats (count DropNoEndpoint) n in
                (n, trace n h hop arrived_on DropNoEndpoint 0)
          | RDrop d => (n, trace n h hop arrived_on d 0)
          end
      end
  end.

(** [allowed] is the session bucket's verdict, [true] without a bucket. *)
Definition forward_limited (n : RelayNet) (origin : Origin) (arrived_on : option Z) (allowed sent : bool)
    (datagram : list Z) (lane : Z) : RelayNet * list Effect :=
  if negb allowed then (set_stats (count DropRateLimited) n, [])
  else forward n origin arrived_on sent datagram lane.

(** What [run_mesh] does with a datagram of a peer relay: trace notes over
    the budget are dropped before [forward]. *)
Definition mesh_datagram (n : RelayNet) (notes : NoteBudget) (now : Z) (peer chan : Z) (sent : bool)
    (d : list Z) (lane : Z) : RelayNet * NoteBudget * list Effect :=
  if bool_decide (head d = Some T_TRACE_NOTE) then
    let '(notes, allowed) := note_allow now notes in
    if negb allowed then (n, notes, []) else
    let '(n, eff) := forward n (ORelay peer) (Some chan) sent d lane in (n, notes, eff)
  else let '(n, eff) := forward n (ORelay peer) (Some chan) sent d lane in (n, notes, eff).

(** ** Session lifecycle: [Registration::insert] and its [Drop] *)

Record Registration := mkRegistration { reg_node : Z; reg_id : Z; reg_mesh : bool }.

Definition registration_insert (n : RelayNet) (node : Z) (session : Session) (dialed mesh : bool)
    : RelayNet * list Effect * Registration :=
  let sm := rn_sess n in
  let id := sm_session_seq sm in
  let old := if mesh then sm_mesh sm !! node else sm_clients sm !! node in
  let held := mkHeld id session dialed in
  let sm' :=
    if mesh
    then mkSessionMaps (set_mesh node true (sm_tables sm)) (sm_clients sm) (<[node := held]> (sm_mesh sm)) (id ⊕ 1)
    else mkSessionMaps (set_local node true (sm_tables sm)) (<[node := held]> (sm_clients sm)) (sm_mesh sm) (id ⊕ 1) in
  let closes := match old with
                | Some o => [EClose (ss_chan (he_session o)) SESSION_CLOSE_REPLACED
                               (if mesh then "replaced by a newer mesh session" else "replaced by a newer session")]
                | None => []
                end in
  (set_sess (λ _, sm') n, closes ++ [EKick], mkRegistration node id mesh).

Definition registration_drop (n : RelayNet) (r : Registration) : RelayNet * list Effect :=
  let sm := rn_sess n in
  let held := if reg_mesh r then sm_mesh sm !! reg_node r else sm_clients sm !! reg_node r in
  match held with
  | Some h =>
      if he_id h =? reg_id r then
        let sm' :=
          if reg_mesh r
          then mkSessionMaps (set_mesh (reg_node r) false (sm_tables sm)) (sm_clients sm)
                 (delete (reg_node r) (sm_mesh sm)) (sm_session_seq sm)
          else mkSessionMaps (set_local (reg_node r) false (sm_tables sm)) (delete (reg_node r) (sm_clients sm))
                 (sm_mesh sm) (sm_session_seq sm) in
        (set_sess (λ _, sm') n, [EKick])
      else (n, [])
  | None => (n, [])
  end.

(** ** Admission *)

Inductive VerifyError : Type :=
| VNoKeys
| VCredential (e : CredError)
| VCertMismatch
| VSelf
| VRefused
| VRetired
| VStaleLogin
| VRoleMismatch
| VNotInFleet
| VNotInView
| VNoView.

Definition ensure {E} (b : bool) (e : E) : Result unit E := if b then Ok tt else Err e.

(** The view's say on a member whose credential holds. [elapsed] is the time
    since the network was set up, in seconds. *)
Definition vouch (view : Snapshot) (claims : Claims) (elapsed : Z) : Result unit VerifyError :=
  let known := negb (bool_decide (s_members view = [])) in
  let in_fleet := existsb (λ r, re_relay_id r =? cl_node_id claims) (s_relays view) in
  match member view (cl_node_id claims) with
  | Some m =>
      if cl_login_gen claims <? pi_login_gen m then Err VStaleLogin else
      let? _ := ensure (bool_decide (pi_role m = cl_role claims)) VRoleMismatch in
      ensure (negb (bool_decide (cl_role claims = Relay)) || in_fleet) VNotInFleet
  | None => if known then Err VNotInView else ensure (elapsed <? NO_VIEW_GRACE) VNoView
  end.

Definition net_verify (n : RelayNet) (credential presented_fp : string) (now elapsed : Z)
    : Result Claims VerifyError :=
  let? _ := ensure (negb (bool_decide (length (rn_keys n) = 0%nat))) VNoKeys in
  match verify credential (rn_keys n) (mkExpected COORD_ISS (rn_network_id n) (rn_network_uuid n)) now with
  | Err e => Err (VCredential e)
  | Ok claims =>
      let? _ := ensure (String.eqb (cl_cert_fp claims) presented_fp) VCertMismatch in
      let? _ := ensure (negb (cl_node_id claims =? rn_my_node_id n)) VSelf in
      let? _ := ensure (negb (rn_refused n)) VRefused in
      let? _ := ensure (negb (rn_stopped n)) VRetired in
      let? _ := vouch (rn_view n) claims elapsed in
      Ok claims
  end.

(** ** Facts reported to the coordinator *)

Definition mesh_peers (n : RelayNet) : list Z := bt_keys (sm_mesh (rn_sess n)).

(** Every live mesh peer gets a traffic row before the report is taken. *)
Definition touch_traffic (n : RelayNet) : RelayNet :=
  set_stats (λ s,
    mkStats (st_counters s)
      (foldl (λ t peer, match t !! peer with Some _ => t | None => <[peer := link_counters_default]> t end)
         (st_traffic s) (bt_keys (sm_mesh (rn_sess n))))
      (st_local_switched s) (st_terminated s) (st_chaos_seq s)) n.

Definition traffic_report (n : RelayNet) : RelayNet * TrafficReport :=
  let n := touch_traffic n in
  let links :=
    (λ p : Z * LinkCounters, mkLinkTraffic p.1 (bc_bytes (lc_tx p.2)) (bc_pkts (lc_tx p.2))
            (bc_bytes (lc_rx p.2)) (bc_pkts (lc_rx p.2)) (bool_decide (is_Some (sm_mesh (rn_sess n) !! p.1))))
    <$> bt_iter (st_traffic (rn_stats n)) in
  let s := rn_stats n in
  (n, mkTrafficReport links (bc_bytes (st_local_switched s)) (bc_pkts (st_local_switched s))
        (bc_bytes (st_terminated s)) (bc_pkts (st_terminated s))).

Definition net_heartbeat (n : RelayNet) : RelayNet * Heartbeat :=
  let attached := (λ p : Z * Held, mkAttachedClient p.1 (he_id p.2)) <$> bt_iter (sm_clients (rn_sess n)) in
  let mesh_up := mesh_peers n in
  let '(n, traffic) := traffic_report n in
  (n, mkHeartbeat 0 0 attached mesh_up None 0 (Some traffic)).

(** ** Settings learnt from a join, and stopping *)

Definition set_exit_designated (granted : list IpNet) (n : RelayNet) : RelayNet :=
  let is_exit := existsb (λ c, net_prefix_len c =? 0) granted in
  set_exit is_exit (if is_exit then rn_exit_ready n else None) n.

Definition set_exit_readiness (reading : ExitReadiness) (n : RelayNet) : RelayNet :=
  if rn_exit_designated n then set_exit true (Some reading) n else n.

(** [vk_from_b64]: base64 and [VerifyingKey::from_bytes]. *)
Definition set_signing_keys (vk_from_b64 : string → option VerifyingKey) (infos : list KeyInfo) (n : RelayNet)
    : RelayNet :=
  set_keys (omap (λ k, (λ v, (ki_kid k, v)) <$> vk_from_b64 (ki_key k)) infos) n.

Definition set_credential (credential : string) (n : RelayNet) : RelayNet * list Effect :=
  (set_cred credential n,
   (λ h, ERefresh (ss_chan (he_session h)) credential) <$>
     List.filter he_dialed (bt_values (sm_mesh (rn_sess n)))).

Definition suspend (n : RelayNet) (why : string) : list Effect :=
  (λ h, EClose (ss_chan (he_session h)) SESSION_CLOSE_EVICTED why) <$>
    (bt_values (sm_clients (rn_sess n)) ++ bt_values (sm_mesh (rn_sess n))).

Definition retire (n : RelayNet) (why : string) : RelayNet * list Effect :=
  (set_dialers ∅ n,
   (EDialerAbort <$> bt_keys (rn_dialers n)) ++
   (if decide (sm_clients (rn_sess n) = ∅ ∧ sm_mesh (rn_sess n) = ∅) then [] else suspend n why)).

Definition own_claims (credential : string) : option Claims := j ← peek credential; claims_from_slice j.

(** [EReplaced] only when the relay's own view confirms the peer's word. *)
Definition peer_says_stale (n : RelayNet) : list Effect :=
  match cl_login_gen <$> own_claims (rn_credential n), pi_login_gen <$> member (rn_view n) (rn_my_node_id n) with
  | Some ours, Some published => if ours <? published then [EReplaced] else [EKick]
  | _, _ => [EKick]
  end.

Definition close_mesh (n : RelayNet) (peer : Z) : list Effect * bool :=
  match sm_mesh (rn_sess n) !! peer with
  | Some h => ([EClose (ss_chan (he_session h)) SESSION_CLOSE_EVICTED "link cut"], true)
  | None => ([], false)
  end.

(** ** Reconcile *)

Definition close_held (h : Held) (code : Z) (why : string) : Effect := EClose (ss_chan (he_session h)) code why.

(** Why the view no longer vouches for a held session, if it does not. *)
Definition stale_reason (view : Snapshot) (held : Held) : option (Z * string) :=
  let node := ss_peer (he_session held) in
  match member view node with
  | None => Some (SESSION_CLOSE_EVICTED, "no longer a member"%string)
  | Some m =>
      if he_dialed held then
        match List.find (λ r, re_relay_id r =? node) (s_relays view) with
        | Some r => if negb (String.eqb (re_cert_fp r) (ss_peer_fp (he_session held)))
                    then Some (SESSION_CLOSE_EVICTED, "relay certificate changed"%string) else None
        | None => None
        end
      else if ss_login_gen (he_session held) <? pi_login_gen m
           then Some (SESSION_CLOSE_STALE_LOGIN, "replaced by a newer join"%string) else None
  end.

Definition evictions (n : RelayNet) (view : Snapshot) : list Effect :=
  if decide (s_members view = []) then [] else
  omap (λ h, (λ p : Z * string, close_held h p.1 p.2) <$> stale_reason view h)
    (bt_values (sm_clients (rn_sess n)) ++ bt_values (sm_mesh (rn_sess n))).

Definition wanted (my_node_id : Z) (view : Snapshot) : gmap Z RelayEndpoint :=
  bt_collect ((λ r, (re_relay_id r, r)) <$> List.filter (λ r, my_node_id <? re_relay_id r) (s_relays view)).

Definition dialer_sig (entry : RelayEndpoint) : string := (re_addr entry +:+ "|" +:+ re_cert_fp entry)%string.

Definition mesh_close (n : RelayNet) (id : Z) (why : string) : list Effect :=
  match sm_mesh (rn_sess n) !! id with Some h => [close_held h SESSION_CLOSE_EVICTED why] | None => [] end.

Definition drop_dialer (n : RelayNet) (st : gmap Z string * list Effect) (id : Z) : gmap Z string * list Effect :=
  (delete id st.1, st.2 ++ [EDialerAbort id] ++ mesh_close n id "relay left the fleet").

Definition want_dialer (n : RelayNet) (st : gmap Z string * list Effect) (p : Z * RelayEndpoint)
    : gmap Z string * list Effect :=
  let '(id, entry) := p in
  let sig := dialer_sig entry in
  match st.1 !! id with
  | Some old =>
      if String.eqb old sig then st
      else (<[id := sig]> st.1,
            st.2 ++ [EDialerAbort id] ++ mesh_close n id "relay address changed" ++ [EDialerSpawn entry])
  | None => (<[id := sig]> st.1, st.2 ++ [EDialerSpawn entry])
  end.

Definition reconcile_dialers (n : RelayNet) (view : Snapshot) : gmap Z string * list Effect :=
  let want := wanted (rn_my_node_id n) view in
  let gone := List.filter (λ id, bool_decide (want !! id = None)) (bt_keys (rn_dialers n)) in
  let st := foldl (drop_dialer n) (rn_dialers n, []) gone in
  foldl (want_dialer n) st (bt_iter want).

Definition fleet_drops (n : RelayNet) (view : Snapshot) : list Effect :=
  if decide (s_relays view = []) then [] else
  let fleet := re_relay_id <$> s_relays view in
  (λ p : Z * Held, close_held p.2 SESSION_CLOSE_EVICTED "relay left the fleet") <$>
    List.filter (λ p : Z * Held, negb (bool_decide (p.1 ∈ fleet))) (bt_iter (sm_mesh (rn_sess n))).

Definition prune_traffic (n : RelayNet) : RelayNet :=
  let live := dom (sm_clients (rn_sess n)) ∪ dom (sm_mesh (rn_sess n)) in
  set_stats (λ s, mkStats (st_counters s) (filter (λ p, p.1 ∈ live) (st_traffic s))
                    (st_local_switched s) (st_terminated s) (st_chaos_seq s)) n.

Definition net_reconcile (vk_from_b64 : string → option VerifyingKey) (n : RelayNet) (view : Snapshot)
    : RelayNet * list Effect :=
  let n := if decide (s_keys view = []) then n else set_signing_keys vk_from_b64 (s_keys view) n in
  if rn_stopped n then retire n "this relay was replaced in this network" else
  let n := set_sess (λ sm,
    mkSessionMaps
      (replace_attachments ((λ a, (ae_node_id a, ae_relay_id a)) <$> s_attachments view) (sm_tables sm))
      (sm_clients sm) (sm_mesh sm) (sm_session_seq sm)) n in
  let mtu := Z.max (rn_mtu_ceiling n) (nm_mtu (s_mtu view)) in
  let n := set_max_frame (if 0 <? mtu then mtu + FRAME_SLACK else 0) n in
  let stale := evictions n view in
  let '(dialers, dial) := reconcile_dialers n view in
  let n := set_dialers dialers n in
  let drops := fleet_drops n view in
  let n := prune_traffic n in
  (n, stale ++ dial ++ drops ++ (if rn_endpoint n then [EEndpointSync view] else [])).
End relay_net.

Arguments set_stats : simpl never.
Arguments set_sess : simpl never.
Arguments set_keys : simpl never.
Arguments set_dialers : simpl never.
Arguments set_max_frame : simpl never.
Arguments set_exit : simpl never.
Arguments set_cred : simpl never.
Arguments set_link : simpl never.

(** ** Frame lemmas of the setters *)

Section setters.
Context `{L : CredLib}.
Implicit Types n : RelayNet.

Lemma sess_set_stats f n : rn_sess (set_stats f n) = rn_sess n.
Proof. by destruct n. Qed.
Lemma sess_set_sess f n : rn_sess (set_sess f n) = f (rn_sess n).
Proof. by destruct n. Qed.
Lemma sess_set_keys ks n : rn_sess (set_keys ks n) = rn_sess n.
Proof. by destruct n. Qed.
Lemma sess_set_max_frame x n : rn_sess (set_max_frame x n) = rn_sess n.
Proof. by destruct n. Qed.
Lemma sess_set_dialers ds n : rn_sess (set_dialers ds n) = rn_sess n.
Proof. by destruct n. Qed.
Lemma sess_set_exit a b n : rn_sess (set_exit a b n) = rn_sess n.
Proof. by destruct n. Qed.
Lemma sess_set_cred c n : rn_sess (set_cred c n) = rn_sess n.
Proof. by destruct n. Qed.
Lemma sess_set_link v a b c d e n : rn_sess (set_link v a b c d e n) = rn_sess n.
Proof. by destruct n. Qed.
Lemma id_set_link v a b c d e n : rn_my_node_id (set_link v a b c d e n) = rn_my_node_id n.
Proof. by destruct n. Qed.
Lemma id_set_stats f n : rn_my_node_id (set_stats f n) = rn_my_node_id n.
Proof. by destruct n. Qed.
Lemma id_set_sess f n : rn_my_node_id (set_sess f n) = rn_my_node_id n.
Proof. by destruct n. Qed.
Lemma id_set_keys ks n : rn_my_node_id (set_keys ks n) = rn_my_node_id n.
Proof. by destruct n. Qed.
Lemma id_set_max_frame x n : rn_my_node_id (set_max_frame x n) = rn_my_node_id n.
Proof. by destruct n. Qed.
Lemma id_set_dialers ds n : rn_my_node_id (set_dialers ds n) = rn_my_node_id n.
Proof. by destruct n. Qed.
Lemma id_set_exit a b n : rn_my_node_id (set_exit a b n) = rn_my_node_id n.
Proof. by destruct n. Qed.
Lemma id_set_cred c n : rn_my_node_id (set_cred c n) = rn_my_node_id n.
Proof. by destruct n. Qed.
Lemma stats_set_stats f n : rn_stats (set_stats f n) = f (rn_stats n).
Proof. by destruct n. Qed.
Lemma chaos_set_stats f n : rn_chaos (set_stats f n) = rn_chaos n.
Proof. by destruct n. Qed.
Lemma max_set_stats f n : rn_max_frame (set_stats f n) = rn_max_frame n.
Proof. by destruct n. Qed.
Lemma endpoint_set_stats f n : rn_endpoint (set_stats f n) = rn_endpoint n.
Proof. by destruct n. Qed.
Lemma stopped_set_keys ks n : rn_stopped (set_keys ks n) = rn_stopped n.
Proof. by destruct n. Qed.
Lemma dialers_set_dialers ds n : rn_dialers (set_dialers ds n) = ds.
Proof. by destruct n. Qed.
Lemma dialers_set_stats f n : rn_dialers (set_stats f n) = rn_dialers n.
Proof. by destruct n. Qed.
Lemma dialers_set_keys ks n : rn_dialers (set_keys ks n) = rn_dialers n.
Proof. by destruct n. Qed.
Lemma dialers_set_sess f n : rn_dialers (set_sess f n) = rn_dialers n.
Proof. by destruct n. Qed.
Lemma dialers_set_max_frame x n : rn_dialers (set_max_frame x n) = rn_dialers n.
Proof. by destruct n. Qed.
End setters.

#[export] Hint Rewrite @sess_set_stats @sess_set_sess @sess_set_keys @sess_set_max_frame @sess_set_dialers
  @sess_set_link @id_set_link @sess_set_exit @sess_set_cred @id_set_stats @id_set_sess @id_set_keys @id_set_max_frame @id_set_dialers
  @id_set_exit @id_set_cred @stats_set_stats @chaos_set_stats @max_set_stats @endpoint_set_stats
  @stopped_set_keys @dialers_set_dialers @dialers_set_stats @dialers_set_keys @dialers_set_sess
  @dialers_set_max_frame : rnr.

Ltac rn_simpl := autorewrite with rnr; rewrite ?stats_set_stats, ?sess_set_sess.

(** ** The sessions and the forwarding table *)

Section sessions.
Context `{L : CredLib}.
Implicit Types n : RelayNet.

(** The forwarding table lists exactly the sessions held. *)
Definition sess_inv (me : Z) (sm : SessionMaps) : Prop :=
  t_my_node_id (sm_tables sm) = me ∧
  t_local (sm_tables sm) = dom (sm_clients sm) ∧ t_mesh (sm_tables sm) = dom (sm_mesh sm).

(** Everything the code does to one network, by any task. *)
Inductive net_step : RelayNet → RelayNet → Prop :=
| ns_forward n o arr sent d lane : net_step n (forward n o arr sent d lane).1
| ns_limited n o arr allowed sent d lane : net_step n (forward_limited n o arr allowed sent d lane).1
| ns_insert n node s dialed mesh : net_step n (registration_insert n node s dialed mesh).1.1
| ns_drop n r : net_step n (registration_drop n r).1
| ns_reconcile vk n view : net_step n (net_reconcile vk n view).1
| ns_heartbeat n : net_step n (net_heartbeat n).1
| ns_retire n why : net_step n (retire n why).1
| ns_keys vk infos n : net_step n (set_signing_keys vk infos n)
| ns_credential cred n : net_step n (set_credential cred n).1
| ns_exit granted n : net_step n (set_exit_designated granted n)
| ns_ready reading n : net_step n (set_exit_readiness reading n)
| ns_mesh_datagram n notes now peer chan sent d lane :
    net_step n (mesh_datagram n notes now peer chan sent d lane).1.1
| ns_link view refused stopped ep chaos ceiling n :
    net_step n (set_link view refused stopped ep chaos ceiling n).

Lemma forward_send_sess n o arr sent bytes h hop buf lane r detail :
  rn_sess (forward_send n o arr sent bytes h hop buf lane r detail).1 = rn_sess n ∧
  rn_my_node_id (forward_send n o arr sent bytes h hop buf lane r detail).1 = rn_my_node_id n.
Proof. unfold forward_send. repeat (case_on; cbn; rn_simpl; try done). Qed.

Lemma forward_sess n o arr sent d lane :
  rn_sess (forward n o arr sent d lane).1 = rn_sess n ∧
  rn_my_node_id (forward n o arr sent d lane).1 = rn_my_node_id n.
Proof.
  unfold forward. destruct o; cbn;
    repeat (case_on; cbn; rewrite ?(proj1 (forward_send_sess _ _ _ _ _ _ _ _ _ _ _)),
                            ?(proj2 (forward_send_sess _ _ _ _ _ _ _ _ _ _ _)); rn_simpl; try done).
Qed.

Lemma insert_inv n node s dialed mesh :
  sess_inv (rn_my_node_id n) (rn_sess n) →
  let n' := (registration_insert n node s dialed mesh).1.1 in
  sess_inv (rn_my_node_id n') (rn_sess n').
Proof.
  intros (Hm & Hl & Hs). cbn. rn_simpl. destruct mesh; unfold sess_inv; cbn; rewrite dom_insert_L; set_solver.
Qed.

Lemma drop_inv n r :
  sess_inv (rn_my_node_id n) (rn_sess n) →
  let n' := (registration_drop n r).1 in sess_inv (rn_my_node_id n') (rn_sess n').
Proof.
  intros (Hm & Hl & Hs). cbn. unfold registration_drop.
  destruct (if reg_mesh r then _ else _); [|done]. case_on; cbn; [|done]. rn_simpl.
  destruct (reg_mesh r); unfold sess_inv; cbn; rewrite dom_delete_L; set_solver.
Qed.

Lemma reconcile_inv vk n view :
  sess_inv (rn_my_node_id n) (rn_sess n) →
  let n' := (net_reconcile vk n view).1 in sess_inv (rn_my_node_id n') (rn_sess n').
Proof.
  intros Hi. cbn. unfold net_reconcile. set (n1 := if decide _ then n else _).
  assert (rn_sess n1 = rn_sess n ∧ rn_my_node_id n1 = rn_my_node_id n) as [E1 E2].
  { unfold n1, set_signing_keys. case_decide; rn_simpl; done. }
  case_on; cbn; [by rn_simpl; rewrite E1, E2|].
  destruct (reconcile_dialers _ _) as [ds dial]. cbn. unfold prune_traffic. rn_simpl. rewrite E1, E2. done.
Qed.

Lemma net_step_inv n n' :
  net_step n n' → sess_inv (rn_my_node_id n) (rn_sess n) → sess_inv (rn_my_node_id n') (rn_sess n').
Proof.
  destruct 1; intros Hi.
  - destruct (forward_sess n o arr sent d lane) as [-> ->]. done.
  - unfold forward_limited. case_on; cbn; [by rn_simpl|].
    destruct (forward_sess n o arr sent d lane) as [-> ->]. done.
  - by apply insert_inv.
  - by apply drop_inv.
  - by apply reconcile_inv.
  - cbn. unfold touch_traffic. by rn_simpl.
  - cbn. by rn_simpl.
  - unfold set_signing_keys. by rn_simpl.
  - cbn. by rn_simpl.
  - unfold set_exit_designated. by rn_simpl.
  - unfold set_exit_readiness. case_on; by rn_simpl.
  - unfold mesh_datagram. pose proof (forward_sess n (ORelay peer) (Some chan) sent d lane) as Hf.
    destruct (forward n _ _ _ _ _) as [n' eff], (note_allow now notes) as [b' ok]. cbn in Hf.
    destruct Hf as [E1 E2]. repeat case_on; cbn; rewrite ?E1, ?E2; done.
  - by rn_simpl.
Qed.

(** In every state the relay can reach, by any interleaving of its
    tasks, the forwarding table lists exactly the client and mesh sessions
    held: a frame routed to a client or a relay always has a channel to leave
    on, and no session held is missing from the table. *)
Theorem session_tables_agree nid uuid me cred t0 n :
  rtc net_step (net_new nid uuid me cred t0) n →
  t_local (sm_tables (rn_sess n)) = dom (sm_clients (rn_sess n)) ∧
  t_mesh (sm_tables (rn_sess n)) = dom (sm_mesh (rn_sess n)) ∧
  ∀ o src dst, let r := route (sm_tables (rn_sess n)) o src dst in
    match r with RLocal _ | RMesh _ => is_Some (channel_for n r) | _ => channel_for n r = None end.
Proof.
  intros Hr.
  assert (sess_inv (rn_my_node_id n) (rn_sess n)) as (Hm & Hl & Hs).
  { revert Hr. apply (rtc_inv_preserved net_step (λ n, sess_inv (rn_my_node_id n) (rn_sess n))).
    - apply net_step_inv.
    - split; [done|]. cbn. by rewrite !dom_empty_L. }
  split; [done|]. split; [done|]. intros o src dst. cbn zeta.
  pose proof (route_spec_sound (sm_tables (rn_sess n)) o src dst) as Hsp. destruct Hsp; cbn; try done.
  - rewrite Hl in *. apply fmap_is_Some. by apply elem_of_dom.
  - rewrite Hs in *. apply fmap_is_Some. by apply elem_of_dom.
Qed.
End sessions.

(** ** What [forward] sends *)

Section data_plane.
Context `{L : CredLib}.
Implicit Types n : RelayNet.

Lemma channel_set_stats f n r : channel_for (set_stats f n) r = channel_for n r.
Proof. destruct n, r; done. Qed.
Lemma trace_set_stats f n h hop arr d detail : trace (set_stats f n) h hop arr d detail = trace n h hop arr d detail.
Proof. by destruct n. Qed.

Lemma trace_no_send n h hop arr d detail c b l : ESendOn c b l ∉ trace n h hop arr d detail.
Proof.
  unfold trace. repeat case_on; rewrite ?list_elem_of_singleton; try done; by apply not_elem_of_nil.
Qed.

Lemma forward_send_effects n o arr sent bytes h hop buf lane r detail :
  rn_chaos n = None →
  (forward_send n o arr sent bytes h hop buf lane r detail).2 =
  match channel_for n r with
  | Some c => ESendOn c buf lane ::
              trace n h hop arr (if sent then route_decision r else DropSendFailed) detail
  | None => trace n h hop arr DropSendFailed detail
  end.
Proof.
  intros Hc. unfold forward_send. rewrite Hc. cbn. rewrite channel_set_stats.
  destruct (channel_for n r); [destruct sent|]; cbn.
  - destruct r, o; cbn; by rewrite !trace_set_stats.
  - by rewrite !trace_set_stats.
  - by rewrite !trace_set_stats.
Qed.

(** The guards a frame passes before it is routed. *)
Definition frame_admitted (n : RelayNet) (d : list Z) : Prop :=
  ¬ (0 < rn_max_frame n < Z.of_nat (length d)).

Lemma header_parse_not_note d h : header_parse d = Some h → head d ≠ Some T_TRACE_NOTE.
Proof.
  unfold header_parse. case_on; [done|]. destruct d as [|x d]; [done|]. cbn. intros H [= ->].
  discriminate H.
Qed.

Lemma forward_sends n o arr sent d lane c b l :
  rn_chaos n = None →
  ESendOn c b l ∈ (forward n o arr sent d lane).2 ↔
  l = lane ∧ frame_admitted n d ∧ ∃ h hop, header_parse d = Some h ∧ bump_hop d = (Some hop, b) ∧
    channel_for n (route (sm_tables (rn_sess n)) o (rh_src_id h) (rh_dst_id h)) = Some c.
Proof.
  intros Hc. unfold forward, frame_admitted.
  set (n1 := match o with OClient _ => n | ORelay peer => _ end).
  assert (rn_sess n1 = rn_sess n ∧ rn_max_frame n1 = rn_max_frame n ∧ rn_chaos n1 = None ∧
          (∀ r, channel_for n1 r = channel_for n r)) as (Es & Em & Ec & Ech).
  { unfold n1; destruct o; [done|]. rn_simpl. repeat split; [done|]. apply channel_set_stats. }
  rewrite Em. destruct ((0 <? rn_max_frame n) && (rn_max_frame n <? Z.of_nat (length d))) eqn:Hmax.
  { bool_prop. cbn. rewrite elem_of_nil. split; [done|]. intros (_ & Hn & _). destruct Hn. done. }
  assert (¬ 0 < rn_max_frame n < Z.of_nat (length d)) as Hadm.
  { intros [H1 H2]. apply andb_false_iff in Hmax as [?|?]; bool_prop; lia. }
  case_bool_decide as Hnote.
  { cbn. split.
    - unfold forward_note. repeat case_on; rewrite ?list_elem_of_singleton, ?elem_of_nil; done.
    - intros (_ & _ & h & hop & Hh%header_parse_not_note & _). done. }
  destruct (header_parse d) as [h|] eqn:Hh.
  2: { cbn. rewrite elem_of_nil. naive_solver. }
  destruct (bump_hop d) as [[hop|] buf] eqn:Hb.
  2: { cbn. split; [intros ?%trace_no_send; done|naive_solver]. }
  rewrite Es. set (r := route _ _ _ _).
  assert (channel_for n r = channel_for n1 r) as Hch by done.
  transitivity (l = lane ∧ b = buf ∧ channel_for n r = Some c).
  2: { split; [intros (-> & -> & ?); split; [done|split; [done|]]; by exists h, hop|].
       intros (-> & _ & h' & hop' & ? & ? & ?). by simplify_eq. }
  destruct r as [id|id| |dd]; cbn [route_decision].
  1,2: rewrite forward_send_effects by (by rn_simpl); rewrite channel_set_stats, <- Hch;
    destruct (channel_for n _) as [c'|]; rewrite ?elem_of_cons; (split; [intros [?|Ht%trace_no_send] || intros Ht%trace_no_send|]); naive_solver.
  - split; [|by intros (? & ? & ?)]. repeat case_on; cbn; rewrite ?elem_of_app, ?list_elem_of_singleton.
    + by intros [?%trace_no_send|?].
    + by intros ?%trace_no_send.
  - split; [|by intros (? & ? & ?)]. cbn. by intros ?%trace_no_send.
Qed.
End data_plane.

Section data_plane_properties.
Context `{L : CredLib}.
Implicit Types n : RelayNet.

Lemma bump_hop_some d hop buf :
  bump_hop d = (Some hop, buf) →
  (ROUTED_HEADER_LEN ≤ length d)%nat ∧ hop = d !!! OFF_HOP + 1 ∧ hop ≤ MAX_HOPS ∧ buf = <[OFF_HOP := hop]> d.
Proof.
  unfold bump_hop. repeat case_on; intros; simplify_eq. unfold sat_add, MAX_HOPS in *.
  apply Nat.ltb_ge in Heqb. rewrite Z.min_r in * by lia. split; [done|]. split; [done|]. split; [lia|done].
Qed.

Lemma header_parse_hop d h : header_parse d = Some h → rh_hop h = d !!! OFF_HOP.
Proof. unfold header_parse. repeat case_on; intros; simplify_eq. done. Qed.

(** The one receiver a frame may be sent to, and why it may. *)
Definition allowed_exit (n : RelayNet) (o : Origin) (h : RoutedHeader) (chan : Z) : Prop :=
  let t := sm_tables (rn_sess n) in
  speaks_for t o (rh_src_id h) ∧
  ((∃ held, sm_clients (rn_sess n) !! rh_dst_id h = Some held ∧ ss_chan (he_session held) = chan) ∨
   (∃ r held, o = OClient (rh_src_id h) ∧ next_relay t (rh_dst_id h) = Some r ∧
      sm_mesh (rn_sess n) !! r = Some held ∧ ss_chan (he_session held) = chan)).

Lemma channel_for_exit n o h chan :
  channel_for n (route (sm_tables (rn_sess n)) o (rh_src_id h) (rh_dst_id h)) = Some chan →
  allowed_exit n o h chan.
Proof.
  pose proof (route_spec_sound (sm_tables (rn_sess n)) o (rh_src_id h) (rh_dst_id h)) as Hs.
  destruct Hs; cbn; intros Hc; try done; apply fmap_Some in Hc as (held & Hl & ->).
  - split; [done|]. left. eauto.
  - subst o. split; [done|]. right. eauto 10.
Qed.

(** A relay forwards verbatim: every frame it sends for another member is
    the frame that arrived with its hop byte raised by one and nothing else
    changed, on the same lane, at most [MAX_HOPS] hops from its origin; its
    source is one the arriving session may speak for; and it leaves either to
    the session of the client it is addressed to or, only if it came from a
    client, to the one relay the tables name.  So a frame that came from a
    relay never crosses another mesh link. *)
Theorem forward_verbatim n o arr sent d lane c b l :
  rn_chaos n = None →
  ESendOn c b l ∈ (forward n o arr sent d lane).2 →
  l = lane ∧ ∃ h, header_parse d = Some h ∧ rh_hop h + 1 ≤ MAX_HOPS ∧
    b = <[OFF_HOP := rh_hop h + 1]> d ∧ allowed_exit n o h c.
Proof.
  intros Hc Hin. apply forward_sends in Hin as (-> & _ & h & hop & Hh & Hb & Hch); [|done].
  split; [done|]. exists h. apply bump_hop_some in Hb as (_ & -> & Hle & ->).
  rewrite (header_parse_hop _ _ Hh). split; [done|]. split; [done|]. split; [done|]. by apply channel_for_exit.
Qed.

(** Exactly the counter of [d0] among the drop counters moved, by one. *)
Definition drops_moved (d0 : option Decision) (c c' : Counters) : Prop :=
  ∀ d, decision_is_drop d = true → get c' d = if decide (Some d = d0) then get c d ⊕ 1 else get c d.

(** The fate of a frame: handed to a channel that took it, delivered to this
    relay's own endpoint, or counted as one drop. *)
Definition one_fate (sent : bool) (c c' : Counters) (eff : list Effect) : Prop :=
  (sent = true ∧ (∃ ch b l, ESendOn ch b l ∈ eff) ∧ drops_moved None c c') ∨
  ((∃ b, last eff = Some (EDeliver b)) ∧ drops_moved None c c') ∨
  (∃ d0, decision_is_drop d0 = true ∧ drops_moved (Some d0) c c').

Lemma counters_add_rx peer bytes s : st_counters (add_rx peer bytes s) = st_counters s.
Proof. done. Qed.

Lemma moved_note c d : wf_counters c → drops_moved (if decision_is_drop d then Some d else None) c (note d c).
Proof.
  intros Hc x Hx. rewrite get_note by done. destruct (decide (d = x)) as [->|Hne].
  - by rewrite Hx, decide_True.
  - rewrite decide_False; [done|]. destruct (decision_is_drop d); congruence.
Qed.

Lemma forward_send_fate n o arr sent bytes h hop buf lane r id c :
  rn_chaos n = None → wf_counters c → st_counters (rn_stats n) = note (route_decision r) c →
  (r = RLocal id ∨ r = RMesh id) →
  let res := forward_send n o arr sent bytes h hop buf lane r id in
  one_fate sent c (st_counters (rn_stats res.1)) res.2.
Proof.
  intros Hch Hc Hn Hr. cbn zeta.
  assert (drops_moved None c (note (route_decision r) c)) as Hmv.
  { pose proof (moved_note c (route_decision r) Hc). by destruct Hr as [-> | ->]. }
  assert (drops_moved (Some DropSendFailed) c (note DropSendFailed (note (route_decision r) c))) as Hmv2.
  { intros x Hx. rewrite get_note by by apply note_wf. rewrite (Hmv x Hx).
    rewrite (decide_False (P := Some x = None)) by done.
    destruct (decide (DropSendFailed = x)); [subst; by rewrite decide_True|]. by rewrite decide_False by congruence. }
  pose proof (forward_send_effects n o arr sent bytes h hop buf lane r id Hch) as He. rewrite He. clear He.
  unfold forward_send. rewrite Hch. cbn [rn_chaos]. rewrite channel_set_stats.
  destruct (channel_for n r) as [ch|] eqn:Hcf; cbn; [destruct sent|].
  - left. split; [done|]. split; [exists ch, buf, lane; left|].
    destruct r, o; cbn; rn_simpl; cbn; rewrite ?Hn; done.
  - right; right. exists DropSendFailed. split; [done|]. cbn. rn_simpl. cbn. by rewrite Hn.
  - right; right. exists DropSendFailed. split; [done|]. cbn. rn_simpl. cbn. by rewrite Hn.
Qed.

(** No frame is lost silently: every datagram other than a trace note
    meets exactly one fate.  It is handed to a channel that accepted it, or
    delivered to this relay's own endpoint, with no drop counter moving; or
    it is dropped and exactly one drop counter moves, by one. *)
Theorem no_silent_drop n o arr sent d lane :
  rn_chaos n = None → wf_counters (st_counters (rn_stats n)) → head d ≠ Some T_TRACE_NOTE →
  let res := forward n o arr sent d lane in
  one_fate sent (st_counters (rn_stats n)) (st_counters (rn_stats res.1)) res.2.
Proof.
  intros Hch Hc Hd. cbn zeta. unfold forward.
  set (n1 := match o with OClient _ => n | ORelay peer => _ end).
  assert (st_counters (rn_stats n1) = st_counters (rn_stats n) ∧ rn_chaos n1 = None) as [Ec Ech].
  { unfold n1; destruct o; rn_simpl; done. }
  assert (∀ dd, decision_is_drop dd = true → ∀ eff,
    one_fate sent (st_counters (rn_stats n)) (st_counters (rn_stats (set_stats (count dd) n1))) eff) as Hdrop.
  { intros dd Hdd eff. right; right. exists dd. split; [done|]. rn_simpl. cbn. rewrite Ec.
    pose proof (moved_note _ dd Hc) as Hm. by rewrite Hdd in Hm. }
  case_on; [by apply Hdrop|]. rewrite bool_decide_eq_false_2 by done.
  destruct (header_parse d) as [h|]; [|by apply Hdrop].
  destruct (bump_hop d) as [[hop|] buf]; [|by apply Hdrop].
  destruct (route _ _ _ _) as [id|id| |dd] eqn:Hr.
  1,2: apply forward_send_fate; rn_simpl; try done; [by cbn; rewrite Ec|by eauto].
  - rn_simpl. destruct (rn_endpoint n1).
    + right; left. cbn. split; [exists buf; by rewrite last_snoc|]. rn_simpl. cbn. rewrite Ec.
      exact (moved_note _ TerminateHere Hc).
    + right; right. exists DropNoEndpoint. split; [done|]. cbn. rn_simpl. cbn. rewrite Ec.
      intros x Hx. rewrite !get_note by auto using note_wf. destruct x; try done; repeat case_decide; done.
  - cbn. apply Hdrop. clear -Hr. pose proof (route_spec_sound (sm_tables (rn_sess n1)) o (rh_src_id h) (rh_dst_id h)) as Hs.
    rewrite Hr in Hs. by inv Hs.
Qed.
End data_plane_properties.

Section delivery.
Context `{L : CredLib}.
Implicit Types n a b : RelayNet.

(** [c], attached to [a], addresses [dst], attached to [b]; the tables of both
    relays say so and the mesh link between them is up. *)
Record connected (a b : RelayNet) (c dst chAB chB : Z) : Prop := {
  cn_a_inv : sess_inv (rn_my_node_id a) (rn_sess a);
  cn_b_inv : sess_inv (rn_my_node_id b) (rn_sess b);
  cn_a_chaos : rn_chaos a = None;
  cn_b_chaos : rn_chaos b = None;
  cn_not_here : dst ≠ rn_my_node_id a ∧ dst ∉ t_local (sm_tables (rn_sess a));
  cn_next : next_relay (sm_tables (rn_sess a)) dst = Some (rn_my_node_id b);
  cn_link : ∃ h, sm_mesh (rn_sess a) !! rn_my_node_id b = Some h ∧ ss_chan (he_session h) = chAB;
  cn_src : t_attachments (sm_tables (rn_sess b)) !! c = Some (rn_my_node_id a);
  cn_dst : dst ≠ rn_my_node_id b;
  cn_held : ∃ h, sm_clients (rn_sess b) !! dst = Some h ∧ ss_chan (he_session h) = chB;
}.

Lemma length_set_hop (x : Z) d : length (<[OFF_HOP := x]> d) = length d.
Proof. apply length_insert. Qed.

(** C1: two relays carry a frame end to end: when the tables of both agree
    on where source and destination are attached and their mesh link is up,
    a fresh frame a client sends goes out on the mesh link, leaves the second
    relay on the destination's session with the header saying two hops and
    the sealed payload untouched, and no further relay would send it on. *)
Theorem two_relay_delivery a b c dst chAB chB d h arrA arrB lane sentA sentB :
  connected a b c dst chAB chB →
  Forall is_byte d → header_parse d = Some h → rh_hop h = 0 → rh_src_id h = c → rh_dst_id h = dst →
  frame_admitted a d → frame_admitted b d →
  ∃ d1 d2,
    ESendOn chAB d1 lane ∈ (forward a (OClient c) arrA sentA d lane).2 ∧
    ESendOn chB d2 lane ∈ (forward b (ORelay (rn_my_node_id a)) arrB sentB d1 lane).2 ∧
    header_parse d2 = Some (with_hop h 2) ∧ drop ROUTED_HEADER_LEN d2 = drop ROUTED_HEADER_LEN d ∧
    ∀ n o arr sent ch x l, rn_chaos n = None → ESendOn ch x l ∉ (forward n o arr sent d2 lane).2.
Proof.
  intros [[Hia [Hla Hma]] [Hib [Hlb Hmb]] Ha Hb [Hn1 Hn2] Hnx (hA & HA1 & HA2) Hsrc Hd (hB & HB1 & HB2)]
    Hby Hh Hhop Hs Ht Hada Hadb.
  pose proof (bump_hop_spec _ _ Hby Hh) as B1. rewrite Hhop in B1. cbn in B1.
  set (d1 := <[OFF_HOP := 1]> d) in *.
  assert (Forall is_byte d1) as Hby1 by (apply Forall_insert; [done|]; unfold is_byte; lia).
  pose proof (header_parse_set_hop _ _ 1 Hh) as Hh1. fold d1 in Hh1.
  pose proof (bump_hop_spec _ _ Hby1 Hh1) as B2. cbn in B2.
  set (d2 := <[OFF_HOP := 2]> d1) in *.
  assert (Forall is_byte d2) as Hby2 by (apply Forall_insert; [done|]; unfold is_byte; lia).
  pose proof (header_parse_set_hop _ _ 2 Hh1) as Hh2. fold d2 in Hh2.
  exists d1, d2. split; [|split; [|split; [|split]]].
  - apply forward_sends; [done|]. split; [done|]. split; [done|]. exists h, 1. split; [done|]. split; [done|].
    assert (route (sm_tables (rn_sess a)) (OClient c) (rh_src_id h) (rh_dst_id h) = RMesh (rn_my_node_id b)) as ->.
    { eapply route_spec_fun; [apply route_spec_sound|]. subst. apply rs_mesh; try done; [by rewrite Hia|].
      rewrite Hma. apply elem_of_dom. eauto. }
    cbn. by rewrite HA1, <- HA2.
  - apply forward_sends; [done|]. split; [done|]. split; [unfold frame_admitted, d1; by rewrite length_set_hop|].
    exists (with_hop h 1), 2. split; [done|]. split; [done|]. cbn [with_hop rh_src_id rh_dst_id].
    assert (route (sm_tables (rn_sess b)) (ORelay (rn_my_node_id a)) (rh_src_id h) (rh_dst_id h) = RLocal dst) as ->.
    { eapply route_spec_fun; [apply route_spec_sound|]. subst. apply rs_local; [by right|by rewrite Hib|].
      rewrite Hlb. apply elem_of_dom. eauto. }
    cbn. by rewrite HB1, <- HB2.
  - done.
  - unfold d2, d1. by rewrite !drop_insert_lt by (unfold OFF_HOP, ROUTED_HEADER_LEN; lia).
  - intros n o arr sent ch x l Hc Hin. apply forward_sends in Hin as (_ & _ & h' & hop & _ & Hb' & _); [|done].
    rewrite (bump_hop_spec _ _ Hby2 Hh2) in Hb'. done.
Qed.

(** When the view vouches for the holder of verified claims. *)
Definition vouched (view : Snapshot) (c : Claims) (elapsed : Z) : Prop :=
  match member view (cl_node_id c) with
  | Some m => pi_login_gen m ≤ cl_login_gen c ∧ pi_role m = cl_role c ∧
              (cl_role c = Relay → ∃ r, r ∈ s_relays view ∧ re_relay_id r = cl_node_id c)
  | None => s_members view = [] ∧ elapsed < NO_VIEW_GRACE
  end.

Lemma in_fleet_true (rs : list RelayEndpoint) id :
  existsb (λ r, re_relay_id r =? id) rs = true ↔ ∃ r, r ∈ rs ∧ re_relay_id r = id.
Proof.
  rewrite existsb_exists. split; intros (x & Hx & Hk); exists x.
  - apply list_elem_of_In in Hx. by apply Z.eqb_eq in Hk.
  - split; [by apply list_elem_of_In|]. by apply Z.eqb_eq.
Qed.

Lemma ensure_true {E} (b : bool) (e : E) u : ensure b e = Ok u ↔ b = true.
Proof. destruct b, u; cbn; naive_solver. Qed.

Lemma vouch_ok view c elapsed u : vouch view c elapsed = Ok u ↔ vouched view c elapsed.
Proof.
  unfold vouch, vouched. destruct (member view (cl_node_id c)) as [m|].
  - destruct (Z.ltb_spec (cl_login_gen c) (pi_login_gen m)); [split; [done|lia]|].
    unfold ensure at 1. case_bool_decide as Hr; [|naive_solver]. rewrite ensure_true.
    rewrite orb_true_iff, negb_true_iff, bool_decide_eq_false, in_fleet_true.
    destruct (decide (cl_role c = Relay)); naive_solver.
  - destruct (decide (s_members view = [])) as [He|Hne].
    + rewrite bool_decide_eq_true_2 by done. cbn. rewrite ensure_true, Z.ltb_lt. naive_solver.
    + rewrite bool_decide_eq_false_2 by done. cbn. naive_solver.
Qed.

(** Admission is exact: a session is accepted with the claims of its
    credential exactly when the credential verifies under the keys held, its
    certificate is the one presented, it is another node, the relay is
    neither refused nor replaced, and the view vouches for it: listed with no
    newer login and the same role (a relay also in the fleet), or, with no
    view yet, within the start-up grace. *)
Theorem admission_exact n cred fp now elapsed c :
  net_verify n cred fp now elapsed = Ok c ↔
  rn_keys n ≠ [] ∧
  verify cred (rn_keys n) (mkExpected COORD_ISS (rn_network_id n) (rn_network_uuid n)) now = Ok c ∧
  cl_cert_fp c = fp ∧ cl_node_id c ≠ rn_my_node_id n ∧ rn_refused n = false ∧ rn_stopped n = false ∧
  vouched (rn_view n) c elapsed.
Proof.
  unfold net_verify. split.
  - case_bool_decide as Hk; cbn; [done|].
    destruct (verify _ _ _ _) as [c'|e] eqn:Hv; cbn; [|done].
    destruct (String.eqb_spec (cl_cert_fp c') fp); cbn; [|done].
    destruct (Z.eqb_spec (cl_node_id c') (rn_my_node_id n)); cbn; [done|].
    destruct (rn_refused n), (rn_stopped n); cbn; try done.
    destruct (vouch (rn_view n) c' elapsed) as [u|] eqn:Hu; [|done]. intros; simplify_eq.
    apply vouch_ok in Hu. rewrite length_zero_iff_nil in Hk. done.
  - intros (Hk & -> & Hf & Hi & -> & -> & Hm). rewrite bool_decide_eq_false_2 by by rewrite length_zero_iff_nil.
    cbn.
    rewrite (proj2 (String.eqb_eq _ _)) by done. rewrite (proj2 (Z.eqb_neq _ _)) by done. cbn.
    by rewrite (proj2 (vouch_ok _ _ _ tt)) by done.
Qed.
End delivery.

(** ** Sessions come and go *)

Section lifecycle.
Context `{L : CredLib}.
Implicit Types n : RelayNet.

Definition held_at (n : RelayNet) (mesh : bool) (node : Z) : option Held :=
  if mesh then sm_mesh (rn_sess n) !! node else sm_clients (rn_sess n) !! node.

(** The newest session wins: registering a session for a node that has
    one closes the older as replaced, and from then on the teardown of any
    registration issued before leaves the state untouched, whenever it runs,
    while the newer session's own teardown removes exactly it. *)
Theorem newest_session_wins n node s dialed mesh older :
  reg_id older < sm_session_seq (rn_sess n) → reg_node older = node → reg_mesh older = mesh →
  let '(n', eff, r) := registration_insert n node s dialed mesh in
  held_at n' mesh node = Some (mkHeld (reg_id r) s dialed) ∧
  (∀ o, held_at n mesh node = Some o → ∃ why, EClose (ss_chan (he_session o)) SESSION_CLOSE_REPLACED why ∈ eff) ∧
  registration_drop n' older = (n', []) ∧
  (∀ node', node' ≠ node → held_at (registration_drop n' r).1 mesh node' = held_at n mesh node') ∧
  held_at (registration_drop n' r).1 mesh node = None ∧
  held_at (registration_drop n' r).1 (negb mesh) = held_at n (negb mesh).
Proof.
  intros Hid <- <-. unfold held_at, registration_insert, registration_drop; cbn.
  destruct (reg_mesh older); rn_simpl; cbn; rewrite !lookup_insert_eq; cbn;
    rewrite Z.eqb_refl, (proj2 (Z.eqb_neq _ _)) by lia; cbn; rn_simpl; cbn.
  all: split; [done|]; split; [intros o ->; eexists; left|]; split; [done|].
  all: split; [intros node' Hne; by rewrite lookup_delete_ne, lookup_insert_ne|].
  all: split; [apply lookup_delete_eq|done].
Qed.

Lemma want_dialer_fst n st p : (want_dialer n st p).1 = <[p.1 := dialer_sig p.2]> st.1.
Proof.
  destruct p as [id e], st as [m eff]; cbn. destruct (m !! id) as [old|] eqn:Ho; [|done].
  destruct (String.eqb_spec old (dialer_sig e)); [|done]. subst. by rewrite insert_id.
Qed.

Lemma foldl_want_fst n l st :
  (foldl (want_dialer n) st l).1 = bt_insert_all ((λ p, (p.1, dialer_sig p.2)) <$> l) st.1.
Proof.
  revert st. induction l as [|p l IH]; intros st; [done|]. cbn. rewrite IH, want_dialer_fst. done.
Qed.

Lemma foldl_drop_fst n l st : (foldl (drop_dialer n) st l).1 = bt_remove_all l st.1.
Proof. revert st. induction l as [|p l IH]; intros st; [done|]. cbn. by rewrite IH. Qed.

Lemma reconcile_dialers_fst n view :
  (reconcile_dialers n view).1 = dialer_sig <$> wanted (rn_my_node_id n) view.
Proof.
  unfold reconcile_dialers. rewrite foldl_want_fst, foldl_drop_fst. cbn. apply map_eq. intros id.
  rewrite lookup_fmap. set (w := wanted _ _). destruct (w !! id) as [e|] eqn:He; cbn.
  - apply bt_insert_all_same.
    + apply list_elem_of_fmap. exists (id, e). split; [done|]. by apply elem_of_bt_iter.
    + intros v Hin. apply list_elem_of_fmap in Hin as ([id' e'] & ? & Hin). simplify_eq/=.
      apply elem_of_bt_iter in Hin. congruence.
  - rewrite bt_insert_all_other.
    + rewrite bt_remove_all_lookup. case_decide as Hd; [done|]. rewrite elem_of_filter_b, bool_decide_eq_true in Hd.
      rewrite elem_of_bt_keys in Hd. apply eq_None_not_Some. naive_solver.
    + intros v Hin. apply list_elem_of_fmap in Hin as ([id' e'] & ? & Hin). simplify_eq/=.
      apply elem_of_bt_iter in Hin. congruence.
Qed.

Lemma foldl_want_quiet n l st :
  (∀ id e, (id, e) ∈ l → st.1 !! id = Some (dialer_sig e)) → foldl (want_dialer n) st l = st.
Proof.
  induction l as [|[id e] l IH]; intros Hl; [done|]. cbn.
  rewrite (Hl id e) by left. rewrite (proj2 (String.eqb_eq _ _)) by done. apply IH. intros ?? ?. apply Hl. by right.
Qed.

Lemma reconcile_dialers_quiet n view :
  rn_dialers n = dialer_sig <$> wanted (rn_my_node_id n) view → reconcile_dialers n view = (rn_dialers n, []).
Proof.
  intros Hd. unfold reconcile_dialers.
  assert (List.filter (λ id, bool_decide (wanted (rn_my_node_id n) view !! id = None)) (bt_keys (rn_dialers n)) = []) as ->.
  { apply elem_of_nil_inv. intros x. rewrite elem_of_filter_b, bool_decide_eq_true, elem_of_bt_keys, Hd.
    rewrite lookup_fmap, fmap_is_Some. intros [E [? ?]]. congruence. }
  cbn. apply foldl_want_quiet. intros id e Hin%elem_of_bt_iter. cbn. by rewrite Hd, lookup_fmap, Hin.
Qed.

(** Nothing for the view to change: every session held is vouched for and
    every mesh peer is in the fleet. *)
Definition settled (n : RelayNet) (view : Snapshot) : Prop :=
  (∀ node h, sm_clients (rn_sess n) !! node = Some h → stale_reason view h = None) ∧
  (∀ node h, sm_mesh (rn_sess n) !! node = Some h → stale_reason view h = None ∧ node ∈ re_relay_id <$> s_relays view).

Lemma settled_quiet n view : settled n view → evictions n view = [] ∧ fleet_drops n view = [].
Proof.
  intros [Hc Hm]. unfold evictions, fleet_drops. split.
  - case_decide; [done|]. apply elem_of_nil_inv. intros x. rewrite list_elem_of_omap. setoid_rewrite elem_of_app.
    setoid_rewrite elem_of_bt_values. intros (h & [[k Hk]|[k Hk]] & Hs).
    + by rewrite (Hc _ _ Hk) in Hs.
    + destruct (Hm _ _ Hk) as [E _]. by rewrite E in Hs.
  - case_decide; [done|]. apply elem_of_nil_inv. intros x. rewrite list_elem_of_fmap.
    intros ([k h] & _ & Hin). rewrite elem_of_filter_b, elem_of_bt_iter in Hin. destruct Hin as [Hb Hk].
    cbn in *. bool_prop. by destruct (Hm _ _ Hk).
Qed.

(** The state [net_reconcile] leaves when the network is not retired. *)
Lemma reconcile_state vk n view :
  rn_stopped n = false →
  let n' := (net_reconcile vk n view).1 in
  rn_dialers n' = dialer_sig <$> wanted (rn_my_node_id n) view ∧
  rn_my_node_id n' = rn_my_node_id n ∧
  sm_clients (rn_sess n') = sm_clients (rn_sess n) ∧ sm_mesh (rn_sess n') = sm_mesh (rn_sess n) ∧
  t_attachments (sm_tables (rn_sess n')) = attachment_map (s_attachments view) ∧
  dom (st_traffic (rn_stats n')) ⊆ dom (sm_clients (rn_sess n)) ∪ dom (sm_mesh (rn_sess n)).
Proof.
  intros Hst. cbn zeta. unfold net_reconcile. set (n1 := if decide _ then n else _).
  assert (rn_sess n1 = rn_sess n ∧ rn_my_node_id n1 = rn_my_node_id n ∧ rn_stopped n1 = false) as (E1 & E2 & E3).
  { unfold n1, set_signing_keys. case_decide; rn_simpl; done. }
  rewrite E3. match goal with |- context [reconcile_dialers ?m view] =>
    pose proof (reconcile_dialers_fst m view) as Hd; destruct (reconcile_dialers m view) as [ds dial] end.
  cbn in *. revert Hd. unfold prune_traffic. rn_simpl. rewrite E1, E2. intros ->.
  repeat (split; [done|]).
  intros k [x Hx]%elem_of_dom. apply map_lookup_filter_Some in Hx as [_ Hx]. done.
Qed.

Lemma evicts_stale n view node h code why :
  s_members view ≠ [] →
  (sm_clients (rn_sess n) !! node = Some h ∨ sm_mesh (rn_sess n) !! node = Some h) →
  stale_reason view h = Some (code, why) → close_held h code why ∈ evictions n view.
Proof.
  intros Hne Hh Hs. unfold evictions. rewrite decide_False by done. apply list_elem_of_omap. exists h.
  rewrite Hs. split; [|done]. rewrite elem_of_app, !elem_of_bt_values. destruct Hh; eauto.
Qed.

(** Reconcile converges and then is quiet: it leaves one dialer, with
    the current address and certificate, for exactly the fleet's relays with
    a higher id, the attachment table of the view, and traffic counters only
    for peers held; it touches no session itself, but closes every session
    the view no longer vouches for; and once the sessions held are settled,
    reconciling the same view again starts, stops and closes nothing. *)
Theorem reconcile_converges vk n view :
  rn_stopped n = false →
  let '(n', eff) := net_reconcile vk n view in
  rn_dialers n' = dialer_sig <$> wanted (rn_my_node_id n) view ∧
  t_attachments (sm_tables (rn_sess n')) = attachment_map (s_attachments view) ∧
  sm_clients (rn_sess n') = sm_clients (rn_sess n) ∧ sm_mesh (rn_sess n') = sm_mesh (rn_sess n) ∧
  dom (st_traffic (rn_stats n')) ⊆ dom (sm_clients (rn_sess n)) ∪ dom (sm_mesh (rn_sess n)) ∧
  (s_members view ≠ [] → ∀ node h code why,
     (sm_clients (rn_sess n) !! node = Some h ∨ sm_mesh (rn_sess n) !! node = Some h) →
     stale_reason view h = Some (code, why) → EClose (ss_chan (he_session h)) code why ∈ eff) ∧
  (settled n view → ∀ e, e ∈ (net_reconcile vk n' view).2 → e = EEndpointSync view).
Proof.
  intros Hst. pose proof (reconcile_state vk n view Hst) as (H1 & H2 & H3 & H4 & H5 & H6).
  assert (rn_stopped (net_reconcile vk n view).1 = false) as Hst'.
  { clear -Hst. unfold net_reconcile, set_signing_keys. destruct n; cbn in *; subst.
    case_decide; cbn; destruct (reconcile_dialers _ _); done. }
  assert (s_members view ≠ [] → ∀ node h code why,
     (sm_clients (rn_sess n) !! node = Some h ∨ sm_mesh (rn_sess n) !! node = Some h) →
     stale_reason view h = Some (code, why) →
     EClose (ss_chan (he_session h)) code why ∈ (net_reconcile vk n view).2) as Hev.
  { intros Hne node h code why Hh Hs. clear -Hst Hne Hh Hs.
    unfold net_reconcile. set (n1 := if decide _ then n else _).
    assert (rn_sess n1 = rn_sess n ∧ rn_stopped n1 = false) as (E1 & E3).
    { unfold n1, set_signing_keys. case_decide; rn_simpl; done. }
    rewrite E3. destruct (reconcile_dialers _ _) as [ds dial]. cbn. apply elem_of_app. left.
    eapply (evicts_stale _ _ node); [done| |done]. rn_simpl. cbn. by rewrite E1. }
  destruct (net_reconcile vk n view) as [n' eff]. cbn in *.
  do 6 (split; [done|]). intros Hset e.
  unfold net_reconcile. set (n1 := if decide _ then n' else _).
  assert (rn_sess n1 = rn_sess n' ∧ rn_stopped n1 = false ∧ rn_my_node_id n1 = rn_my_node_id n' ∧
          rn_dialers n1 = rn_dialers n') as (E1 & E3 & E4 & E5).
  { unfold n1, set_signing_keys. case_decide; rn_simpl; done. }
  rewrite E3. rewrite reconcile_dialers_quiet by (rn_simpl; rewrite E5, E4, H2; done).
  match goal with |- context [evictions ?m view] => assert (settled m view) as [-> _]%settled_quiet end.
  { unfold settled. rn_simpl. cbn. by rewrite E1, H3, H4. }
  match goal with |- context [fleet_drops ?m view] => assert (settled m view) as [_ ->]%settled_quiet end.
  { unfold settled. rn_simpl. cbn. by rewrite E1, H3, H4. }
  cbn. case_on; rewrite ?list_elem_of_singleton, ?elem_of_nil; done.
Qed.
End lifecycle.

(** ** A two-relay fleet built by the operations *)

Module FleetExample.
#[local] Existing Instance CredExample.lib.

Definition peer (id : Z) (r : Role) : PeerInfo := mkPeerInfo id "n" r [] "PK" true 1.
Definition view : Snapshot :=
  mkSnapshot 5 [peer 1 Relay; peer 2 Relay; peer 10 Client; peer 20 Client]
    [mkAttachmentEntry 10 1; mkAttachmentEntry 20 2]
    [mkRelayEndpoint 1 "a" "a:1" "fpA"; mkRelayEndpoint 2 "b" "b:1" "fpB"]
    (mkNetworkMtu 1350 "config") [] [].

Definition open (node chan : Z) (dialed mesh : bool) (n : RelayNet) : RelayNet :=
  (registration_insert n node (mkSession chan node (if mesh then "fpB" else "fpC") 1) dialed mesh).1.1.

Definition vk (s : string) : option (@VerifyingKey CredExample.lib) := None.
Definition relayA : RelayNet :=
  (net_reconcile vk (open 2 102 true true (open 10 110 false false (net_new "net" "uuid" 1 "cred" 0))) view).1.
Definition relayB : RelayNet :=
  (net_reconcile vk (open 1 201 false true (open 20 220 false false (net_new "net" "uuid" 2 "cred" 0))) view).1.

Definition frame : list Z := header_write (mkRoutedHeader T_DATA 10 20 1 0 77) [] ++ [9; 9; 9].
End FleetExample.

Lemma session_tables_agree_witness :
  t_local (sm_tables (rn_sess FleetExample.relayA)) = {[10]}.
Proof.
  destruct (session_tables_agree (L := CredExample.lib) "net" "uuid" 1 "cred" 0 FleetExample.relayA) as (E & _ & _).
  - eapply rtc_l; [apply (ns_insert _ 10 (mkSession 110 10 "fpC" 1) false false)|].
    eapply rtc_l; [apply (ns_insert _ 2 (mkSession 102 2 "fpB" 1) true true)|].
    eapply rtc_l; [apply (ns_reconcile FleetExample.vk _ FleetExample.view)|]. apply rtc_refl.
  - rewrite E. by_decide.
Defined.

Lemma forward_verbatim_witness :
  ∃ h, header_parse FleetExample.frame = Some h ∧
    allowed_exit (L := CredExample.lib) FleetExample.relayA (OClient 10) h 102.
Proof.
  destruct (forward_verbatim (L := CredExample.lib) FleetExample.relayA (OClient 10) (Some 110) true FleetExample.frame 0
    102 (<[OFF_HOP := 1]> FleetExample.frame) 0) as (_ & h & Hh & _ & _ & Hx).
  - reflexivity.
  - by_decide.
  - exists h. split; [exact Hh|exact Hx].
Defined.

Lemma no_silent_drop_witness :
  let res := forward (L := CredExample.lib) FleetExample.relayA (OClient 11) (Some 110) true FleetExample.frame 0 in
  one_fate true (st_counters (rn_stats FleetExample.relayA)) (st_counters (rn_stats res.1)) res.2 ∧
  get (st_counters (rn_stats res.1)) DropSrcSpoofed = 1.
Proof.
  cbn zeta. split; [|vm_compute; reflexivity].
  apply (no_silent_drop (L := CredExample.lib)); [reflexivity|apply counters_default_wf|by_decide].
Defined.

Lemma two_relay_delivery_witness :
  ∃ d1 d2,
    ESendOn 102 d1 0 ∈ (forward (L := CredExample.lib) FleetExample.relayA (OClient 10) (Some 110) true FleetExample.frame 0).2 ∧
    ESendOn 220 d2 0 ∈ (forward (L := CredExample.lib) FleetExample.relayB (ORelay 1) (Some 201) true d1 0).2.
Proof.
  destruct (two_relay_delivery (L := CredExample.lib) FleetExample.relayA FleetExample.relayB 10 20 102 220
    FleetExample.frame (mkRoutedHeader T_DATA 10 20 1 0 77) (Some 110) (Some 201) 0 true true)
    as (d1 & d2 & H1 & H2 & _).
  - constructor.
    + repeat split; by_decide.
    + repeat split; by_decide.
    + reflexivity.
    + reflexivity.
    + by_decide.
    + reflexivity.
    + eexists. split; [vm_compute; reflexivity|reflexivity].
    + reflexivity.
    + by_decide.
    + eexists. split; [vm_compute; reflexivity|reflexivity].
  - by_decide.
  - reflexivity.
  - reflexivity.
  - reflexivity.
  - reflexivity.
  - intros [H1 H2]. revert H2. vm_compute. discriminate.
  - intros [H1 H2]. revert H2. vm_compute. discriminate.
  - exists d1, d2. split; [exact H1|exact H2].
Defined.

Lemma newest_session_wins_witness :
  let '(n', eff, r) := registration_insert (L := CredExample.lib) FleetExample.relayA 10
    (mkSession 111 10 "fpC" 2) false false in
  registration_drop n' (mkRegistration 10 1 false) = (n', []).
Proof.
  apply (newest_session_wins (L := CredExample.lib) FleetExample.relayA 10 (mkSession 111 10 "fpC" 2) false false
    (mkRegistration 10 1 false)); reflexivity.
Defined.

Lemma reconcile_converges_witness :
  let '(n', _) := net_reconcile (L := CredExample.lib) FleetExample.vk FleetExample.relayA FleetExample.view in
  rn_dialers n' = {[2 := "b:1|fpB"%string]}.
Proof.
  pose proof (reconcile_converges (L := CredExample.lib) FleetExample.vk FleetExample.relayA FleetExample.view eq_refl) as H.
  destruct (net_reconcile _ _ _) as [n' eff]. destruct H as [-> _]. by_decide.
Defined.
