(* ===== verification/Replay.v ===== *)
(** * The receive window (crates/nqvpn-proto/src/seal.rs, [ReplayWindow])

    The 32-word ring of bits the receiver keeps over explicit counters, and its
    refinement to the set of all counters ever committed. *)

From S2P Require Import Prelude.

Definition REPLAY_WINDOW : Z := 2048.
Definition WINDOW_WORDS : nat := 32.

Record ReplayWindow := mkReplayWindow {
  rw_highest : Z;
  rw_bits : list Z;
  rw_seen_any : bool;
}.

Definition window_default : ReplayWindow := mkReplayWindow 0 (replicate WINDOW_WORDS 0) false.

Definition slot (ctr : Z) : Z := ctr mod REPLAY_WINDOW.
Definition word_of (idx : Z) : nat := Z.to_nat (idx / 64).
Definition mask_of (idx : Z) : Z := Z.shiftl 1 (idx mod 64).

Definition bit_get (bits : list Z) (ctr : Z) : bool :=
  negb (Z.land (bits !!! word_of (slot ctr)) (mask_of (slot ctr)) =? 0).

Definition bit_set (bits : list Z) (ctr : Z) : list Z :=
  alter (λ w, Z.lor w (mask_of (slot ctr))) (word_of (slot ctr)) bits.

(** [&= !mask]: the complement at 64 bits. *)
Definition bit_clear (bits : list Z) (ctr : Z) : list Z :=
  alter (λ w, Z.land w (Z.lxor (mask_of (slot ctr)) u64_max)) (word_of (slot ctr)) bits.

Definition check (w : ReplayWindow) (ctr : Z) : bool :=
  if negb (rw_seen_any w) || (rw_highest w <? ctr) then true else
  if REPLAY_WINDOW <=? rw_highest w - ctr then false else
  negb (bit_get (rw_bits w) ctr).

Definition commit (w : ReplayWindow) (ctr : Z) : ReplayWindow :=
  if negb (rw_seen_any w) then mkReplayWindow ctr (bit_set (replicate WINDOW_WORDS 0) ctr) true else
  let '(highest, bits) :=
    if rw_highest w <? ctr then
      let advance := ctr - rw_highest w in
      (ctr,
       if REPLAY_WINDOW <=? advance then replicate WINDOW_WORDS 0
       else foldl bit_clear (rw_bits w) (seqZ (rw_highest w + 1) advance))
    else (rw_highest w, rw_bits w) in
  mkReplayWindow highest (bit_set bits ctr) (rw_seen_any w).

Definition accept (w : ReplayWindow) (ctr : Z) : ReplayWindow * bool :=
  if negb (check w ctr) then (w, false) else (commit w ctr, true).

(** A sequence of counters through [accept]: the verdicts in order. *)
Fixpoint accept_all (w : ReplayWindow) (cs : list Z) : ReplayWindow * list bool :=
  match cs with
  | [] => (w, [])
  | c :: cs' => let '(w1, v) := accept w c in let '(w2, vs) := accept_all w1 cs' in (w2, v :: vs)
  end.

(** ** What the window stands for: every counter ever committed *)

(** Judge [c] against the whole history [hist], newest first. *)
Definition top (hist : list Z) : Z := foldr Z.max 0 hist.

Definition spec_check (hist : list Z) (c : Z) : bool :=
  bool_decide (hist = []) || (top hist <? c) || ((top hist - c <? REPLAY_WINDOW) && negb (bool_decide (c ∈ hist))).

Fixpoint spec_accept_all (hist : list Z) (cs : list Z) : list Z * list bool :=
  match cs with
  | [] => (hist, [])
  | c :: cs' =>
      let v := spec_check hist c in
      let '(h2, vs) := spec_accept_all (if v then c :: hist else hist) cs' in (h2, v :: vs)
  end.

(** ** Bits *)

Definition wf_bits (bits : list Z) : Prop := length bits = WINDOW_WORDS ∧ Forall (u_range 64) bits.

(** The bit at slot [i] of the ring. *)
Definition ring (bits : list Z) (i : Z) : bool := Z.testbit (bits !!! word_of i) (i mod 64).

Lemma slot_range c : 0 ≤ slot c < REPLAY_WINDOW.
Proof. apply Z.mod_pos_bound. unfold REPLAY_WINDOW. lia. Qed.

Lemma word_of_lt i : 0 ≤ i < REPLAY_WINDOW → (word_of i < WINDOW_WORDS)%nat.
Proof.
  unfold word_of, REPLAY_WINDOW, WINDOW_WORDS. intros Hi.
  assert (i / 64 < 32) by (apply Z.div_lt_upper_bound; lia). assert (0 ≤ i / 64) by (apply Z.div_pos; lia). lia.
Qed.

Lemma mask_testbit i k : 0 ≤ k → Z.testbit (mask_of i) k = (k =? i mod 64).
Proof.
  intros Hk. unfold mask_of. pose proof (Z.mod_pos_bound i 64). rewrite Z.shiftl_1_l.
  rewrite Z.pow2_bits_eqb by lia. apply Z.eqb_sym.
Qed.

Lemma bit_get_ring bits c : bit_get bits c = ring bits (slot c).
Proof.
  unfold bit_get, ring. set (i := slot c). set (w := bits !!! word_of i).
  pose proof (Z.mod_pos_bound i 64).
  destruct (Z.testbit w (i mod 64)) eqn:Hb.
  - apply negb_true_iff, Z.eqb_neq. intros Hz.
    assert (Z.testbit (Z.land w (mask_of i)) (i mod 64) = false) as E by (rewrite Hz; apply Z.bits_0).
    by rewrite Z.land_spec, Hb, mask_testbit, Z.eqb_refl in E by lia.
  - apply negb_false_iff, Z.eqb_eq. apply Z.bits_inj'. intros k Hk. rewrite Z.bits_0, Z.land_spec, mask_testbit by done.
    destruct (Z.eqb_spec k (i mod 64)); [subst; by rewrite Hb|apply andb_false_r].
Qed.

Lemma u64_max_testbit k : 0 ≤ k < 64 → Z.testbit u64_max k = true.
Proof. intros. change u64_max with (Z.ones 64). by apply Z.ones_spec_low. Qed.

Lemma word_mod_inj i j :
  0 ≤ i < REPLAY_WINDOW → 0 ≤ j < REPLAY_WINDOW → word_of i = word_of j → i mod 64 = j mod 64 → i = j.
Proof.
  unfold word_of, REPLAY_WINDOW. intros Hi Hj Hw Hm.
  assert (0 ≤ i / 64) by (apply Z.div_pos; lia). assert (0 ≤ j / 64) by (apply Z.div_pos; lia).
  pose proof (Z.div_mod i 64). pose proof (Z.div_mod j 64). lia.
Qed.

(** A word update at slot [i] that sets or clears just that bit. *)
Lemma ring_alter f bits i j b :
  wf_bits bits → 0 ≤ i < REPLAY_WINDOW → 0 ≤ j < REPLAY_WINDOW →
  (∀ w k, 0 ≤ k < 64 → Z.testbit (f w) k = if k =? i mod 64 then b else Z.testbit w k) →
  ring (alter f (word_of i) bits) j = if j =? i then b else ring bits j.
Proof.
  intros [Hl _] Hi Hj Hf. unfold ring. pose proof (Z.mod_pos_bound j 64).
  destruct (decide (word_of i = word_of j)) as [He|Hne].
  - rewrite <- He.
    destruct (lookup_lt_is_Some_2 bits (word_of i)) as [w Hw]; [rewrite Hl; by apply word_of_lt|].
    erewrite !list_lookup_total_correct; [|done|by rewrite list_lookup_alter_eq, Hw].
    rewrite Hf by lia. destruct (Z.eqb_spec (j mod 64) (i mod 64)) as [Em|Em].
    + by rewrite (word_mod_inj j i), Z.eqb_refl.
    + rewrite (proj2 (Z.eqb_neq _ _)); [done|]. intros ->. done.
  - rewrite list_lookup_total_alter_ne by done. rewrite (proj2 (Z.eqb_neq _ _)); [done|]. intros ->. done.
Qed.

Lemma ring_set bits c j :
  wf_bits bits → 0 ≤ j < REPLAY_WINDOW → ring (bit_set bits c) j = (j =? slot c) || ring bits j.
Proof.
  intros Hw Hj. unfold bit_set. rewrite (ring_alter _ _ _ _ true); [by destruct (j =? slot c)|done|apply slot_range|done|].
  intros w k Hk. rewrite Z.lor_spec, mask_testbit by lia. destruct (_ =? _); [apply orb_true_r|apply orb_false_r].
Qed.

Lemma ring_clear bits c j :
  wf_bits bits → 0 ≤ j < REPLAY_WINDOW → ring (bit_clear bits c) j = negb (j =? slot c) && ring bits j.
Proof.
  intros Hw Hj. unfold bit_clear. rewrite (ring_alter _ _ _ _ false); [by destruct (j =? slot c)|done|apply slot_range|done|].
  intros w k Hk. rewrite Z.land_spec, Z.lxor_spec, mask_testbit, u64_max_testbit by lia.
  destruct (_ =? _); [apply andb_false_r|apply andb_true_r].
Qed.

Lemma testbit_high x k : u_range 64 x → 64 ≤ k → Z.testbit x k = false.
Proof.
  unfold u_range. intros Hx Hk. destruct (Z.eq_dec x 0) as [->|]; [apply Z.bits_0|].
  apply Z.bits_above_log2; [lia|]. assert (Z.log2 x < 64) by (apply Z.log2_lt_pow2; lia). lia.
Qed.

Lemma u64_of_testbit x : 0 ≤ x → (∀ k, 64 ≤ k → Z.testbit x k = false) → u_range 64 x.
Proof.
  intros H0 Hb. split; [done|]. destruct (Z.eq_dec x 0) as [->|]; [lia|].
  apply Z.log2_lt_pow2; [lia|]. apply Z.nle_gt. intros Hle. pose proof (Z.bit_log2 x). rewrite Hb in H by done.
  assert (false = true) by (apply H; lia). done.
Qed.

Lemma mask_u64 i : u_range 64 (mask_of i).
Proof.
  apply u64_of_testbit; [unfold mask_of; rewrite Z.shiftl_1_l; apply Z.pow_nonneg; lia|].
  intros k Hk. rewrite mask_testbit by lia. pose proof (Z.mod_pos_bound i 64). apply Z.eqb_neq. lia.
Qed.

Lemma bit_set_wf bits c : wf_bits bits → wf_bits (bit_set bits c).
Proof.
  intros [Hl Hf]. split; [unfold bit_set; by rewrite length_alter|]. apply Forall_alter; [done|]. intros w _ Hw.
  pose proof (mask_u64 (slot c)) as Hm. apply u64_of_testbit; [apply Z.lor_nonneg; unfold u_range in *; lia|].
  intros k Hk. by rewrite Z.lor_spec, !testbit_high.
Qed.

Lemma bit_clear_wf bits c : wf_bits bits → wf_bits (bit_clear bits c).
Proof.
  intros [Hl Hf]. split; [unfold bit_clear; by rewrite length_alter|]. apply Forall_alter; [done|]. intros w _ Hw.
  apply u64_of_testbit; [apply Z.land_nonneg; unfold u_range in *; lia|].
  intros k Hk. by rewrite Z.land_spec, testbit_high.
Qed.

Lemma zero_wf : wf_bits (replicate WINDOW_WORDS 0).
Proof. split; [done|]. repeat constructor; done. Qed.

Lemma ring_zero i : 0 ≤ i < REPLAY_WINDOW → ring (replicate WINDOW_WORDS 0) i = false.
Proof.
  intros Hi%word_of_lt. unfold ring. rewrite lookup_total_replicate_2 by done. apply Z.bits_0.
Qed.

Lemma clear_all_wf bits cs : wf_bits bits → wf_bits (foldl bit_clear bits cs).
Proof. intros. apply foldl_inv; [done|]. intros. by apply bit_clear_wf. Qed.

Lemma ring_clear_all bits cs j :
  wf_bits bits → 0 ≤ j < REPLAY_WINDOW →
  ring (foldl bit_clear bits cs) j = negb (bool_decide (j ∈ slot <$> cs)) && ring bits j.
Proof.
  revert bits. induction cs as [|c cs IH]; intros bits Hw Hj; [done|].
  cbn [foldl fmap list_fmap]. rewrite IH, ring_clear by auto using bit_clear_wf.
  case_bool_decide as H1; case_bool_decide as H2; destruct (Z.eqb_spec j (slot c)); cbn; try done;
    rewrite elem_of_cons in *; naive_solver.
Qed.

(** ** The window represents the recent part of the history *)

Definition window_repr (w : ReplayWindow) (hist : list Z) : Prop :=
  wf_bits (rw_bits w) ∧ rw_seen_any w = negb (bool_decide (hist = [])) ∧ Forall (λ c, 0 ≤ c) hist ∧
  (hist ≠ [] → rw_highest w = top hist ∧
     ∀ c, 0 ≤ c → top hist - REPLAY_WINDOW < c ≤ top hist → ring (rw_bits w) (slot c) = bool_decide (c ∈ hist)).

Lemma top_ge hist c : c ∈ hist → c ≤ top hist.
Proof. induction hist as [|h hist IH]; [by intros ?%elem_of_nil|]. intros [->|Hin%IH]%elem_of_cons; cbn; unfold top in *; lia. Qed.

Lemma slot_inj a b : Z.abs (a - b) < REPLAY_WINDOW → slot a = slot b → a = b.
Proof.
  unfold slot, REPLAY_WINDOW. intros Hd He. pose proof (Z.div_mod a 2048). pose proof (Z.div_mod b 2048).
  assert (a / 2048 = b / 2048) by nia. lia.
Qed.

Lemma window_default_repr : window_repr window_default [].
Proof. split; [apply zero_wf|]. done. Qed.

Lemma check_spec w hist c : window_repr w hist → 0 ≤ c → check w c = spec_check hist c.
Proof.
  intros (Hw & Hs & Hf & Hr) Hc. unfold check, spec_check. rewrite Hs, negb_involutive.
  case_bool_decide as He; [done|]. destruct (Hr He) as [-> Hb]. cbn.
  destruct (Z.ltb_spec (top hist) c); [done|]. cbn.
  destruct (Z.leb_spec REPLAY_WINDOW (top hist - c)); [by rewrite (proj2 (Z.ltb_ge _ _))|].
  rewrite (proj2 (Z.ltb_lt _ _)) by done. cbn. by rewrite bit_get_ring, Hb by lia.
Qed.

Lemma set_repr bits hist c j :
  wf_bits bits → Z.abs (j - c) < REPLAY_WINDOW →
  ring bits (slot j) = bool_decide (j ∈ hist) → ring (bit_set bits c) (slot j) = bool_decide (j ∈ c :: hist).
Proof.
  intros Hw Hd Hb. rewrite ring_set by auto using slot_range. rewrite Hb.
  destruct (Z.eqb_spec (slot j) (slot c)) as [He|Hne]; cbn.
  - apply slot_inj in He; [|done]. subst. symmetry. apply bool_decide_eq_true_2. left.
  - apply bool_decide_ext. rewrite elem_of_cons. naive_solver.
Qed.

(** What the bits hold before the new counter is set: the history, over the
    window that now ends at [c]. *)
Lemma slide_repr w hist c j :
  window_repr w hist → hist ≠ [] → top hist < c → 0 ≤ j → c - REPLAY_WINDOW < j ≤ c →
  let bits := if REPLAY_WINDOW <=? c - rw_highest w then replicate WINDOW_WORDS 0
              else foldl bit_clear (rw_bits w) (seqZ (rw_highest w + 1) (c - rw_highest w)) in
  wf_bits bits ∧ ring bits (slot j) = bool_decide (j ∈ hist).
Proof.
  intros (Hw & _ & Hf & Hr) Hne Hc Hj0 Hj. destruct (Hr Hne) as [-> Hb]. cbn zeta.
  assert (top hist < j → j ∉ hist) as Hout by (intros Hlt Hin%top_ge; lia).
  destruct (Z.leb_spec REPLAY_WINDOW (c - top hist)).
  - split; [apply zero_wf|]. rewrite ring_zero by apply slot_range. symmetry.
    apply bool_decide_eq_false_2, Hout. lia.
  - split; [by apply clear_all_wf|]. rewrite ring_clear_all by auto using slot_range.
    destruct (decide (top hist < j)) as [Hlt|Hge].
    + rewrite bool_decide_eq_true_2; [cbn; symmetry; by apply bool_decide_eq_false_2, Hout|].
      apply list_elem_of_fmap. exists j. split; [done|]. apply elem_of_seqZ. lia.
    + rewrite bool_decide_eq_false_2; [cbn; apply Hb; lia|].
      intros (k & Hk & Hin)%list_elem_of_fmap. apply elem_of_seqZ in Hin. apply slot_inj in Hk; lia.
Qed.

Lemma commit_repr w hist c :
  window_repr w hist → 0 ≤ c → spec_check hist c = true → window_repr (commit w c) (c :: hist).
Proof.
  intros Hrep Hc Hs. pose proof Hrep as (Hw & Hsa & Hf & Hr). unfold commit. rewrite Hsa, negb_involutive.
  case_bool_decide as He.
  { subst. cbn. split; [apply bit_set_wf, zero_wf|]. split; [done|]. split; [by constructor|]. intros _.
    cbn. rewrite Z.max_l by lia. split; [done|]. intros j Hj Hjc. apply set_repr; [apply zero_wf|lia|].
    rewrite ring_zero by apply slot_range. done. }
  destruct (Hr He) as [Hh Hb]. unfold spec_check in Hs. rewrite bool_decide_eq_false_2 in Hs by done. cbn in Hs.
  destruct (Z.ltb_spec (rw_highest w) c) as [Hlt|Hge].
  - rewrite Hh in Hlt.
    assert (∀ j, 0 ≤ j → c - REPLAY_WINDOW < j ≤ c → _) as Hsl by exact (λ j H1 H2, slide_repr w hist c j Hrep He Hlt H1 H2).
    cbn zeta in Hsl. destruct (Hsl c) as [Hwf _]; [done|unfold REPLAY_WINDOW; lia|].
    set (bits := if REPLAY_WINDOW <=? _ then _ else _) in *.
    split; [by apply bit_set_wf|]. split; [done|]. split; [by constructor|]. intros _.
    cbn [rw_highest rw_bits top foldr]. fold (top hist). rewrite Z.max_l by lia. split; [done|].
    intros j Hj Hjc. apply set_repr; [done|lia|]. by apply Hsl.
  - split; [by apply bit_set_wf|]. split; [done|]. split; [by constructor|]. intros _.
    cbn [rw_highest rw_bits top foldr]. fold (top hist). rewrite Z.max_r by lia. split; [done|].
    intros j Hj Hjc. destruct (Z.ltb_spec (top hist) c); [lia|]. cbn in Hs. bool_prop.
    apply set_repr; [done|lia|]. by apply Hb.
Qed.

Lemma accept_repr w hist c :
  window_repr w hist → 0 ≤ c →
  (accept w c).2 = spec_check hist c ∧ window_repr (accept w c).1 (if spec_check hist c then c :: hist else hist).
Proof.
  intros Hr Hc. unfold accept. rewrite (check_spec _ _ _ Hr Hc). destruct (spec_check hist c) eqn:Hs; cbn; [|done].
  split; [done|]. by apply commit_repr.
Qed.

Lemma accept_all_repr w hist cs :
  window_repr w hist → Forall (λ c, 0 ≤ c) cs →
  (accept_all w cs).2 = (spec_accept_all hist cs).2 ∧ window_repr (accept_all w cs).1 (spec_accept_all hist cs).1.
Proof.
  intros Hr Hf. revert w hist Hr. induction Hf as [|c cs Hc Hf IH]; intros w hist Hr; [done|].
  cbn. destruct (accept_repr w hist c Hr Hc) as [Hv Hr']. destruct (accept w c) as [w1 v]. cbn in *. subst v.
  destruct (IH w1 _ Hr') as [Hvs Hr2].
  destruct (accept_all w1 cs), (spec_accept_all _ cs). cbn in *. subst. done.
Qed.

(** The history of the abstract run is exactly the accepted counters, each once. *)
Lemma spec_history_NoDup hist cs :
  NoDup hist → NoDup (spec_accept_all hist cs).1.
Proof.
  revert hist. induction cs as [|c cs IH]; intros hist Hn; [done|]. cbn.
  specialize (IH (if spec_check hist c then c :: hist else hist)).
  destruct (spec_accept_all _ cs); cbn in *. apply IH. destruct (spec_check hist c) eqn:Hs; [|done].
  constructor; [|done]. intros Hin. pose proof (top_ge _ _ Hin). unfold spec_check in Hs.
  rewrite (bool_decide_eq_true_2 (c ∈ hist)), andb_false_r, orb_false_r in Hs by done.
  apply orb_true_iff in Hs as [Hs|Hs]; bool_prop; [subst; by apply elem_of_nil in Hin|lia].
Qed.

(** The counters accepted, in order. *)
Definition accepted (cs : list Z) (vs : list bool) : list Z := fst <$> List.filter snd (zip cs vs).

Lemma spec_history_accepted hist cs :
  let r := spec_accept_all hist cs in r.1 = reverse (accepted cs r.2) ++ hist.
Proof.
  revert hist. induction cs as [|c cs IH]; intros hist; [done|]. cbn [spec_accept_all].
  specialize (IH (if spec_check hist c then c :: hist else hist)).
  destruct (spec_accept_all _ cs) as [h vs]; cbn [fst snd] in *. unfold accepted in *. cbn [zip zip_with List.filter snd].
  rewrite IH. destruct (spec_check hist c); [|done]. rewrite fmap_cons, reverse_cons, <- (assoc_L (++)). done.
Qed.

(** ** Properties *)

(** C30: the 2048-bit ring refines the unbounded history: over any sequence of
    counters the verdicts are those of a judge that remembers every counter
    ever accepted and refuses only an accepted one or one at least 2048 behind
    the highest. *)
Theorem replay_window_refines cs :
  Forall (u_range 64) cs → (accept_all window_default cs).2 = (spec_accept_all [] cs).2.
Proof.
  intros Hf. apply accept_all_repr; [apply window_default_repr|]. eapply Forall_impl; [done|]. by intros c [? _].
Qed.

Lemma replay_window_refines_witness :
  (accept_all window_default [5; 5; 4; 2053; 5; 6; 4000; 3000; 3000]).2 =
    [true; false; true; true; false; true; true; true; false].
Proof. rewrite replay_window_refines by by_decide. vm_compute. reflexivity. Defined.

(** No counter is ever accepted twice, whatever the order and gaps in
    which counters arrive. *)
Theorem replay_accepts_once cs :
  Forall (u_range 64) cs → NoDup (accepted cs (accept_all window_default cs).2).
Proof.
  intros Hf. destruct (accept_all_repr window_default [] cs window_default_repr) as [-> _].
  { eapply Forall_impl; [done|]. by intros c [? _]. }
  pose proof (spec_history_NoDup [] cs (NoDup_nil_2)) as Hn. rewrite spec_history_accepted, app_nil_r in Hn.
  by rewrite reverse_Permutation in Hn.
Qed.

Lemma replay_accepts_once_witness :
  accepted [1; 3000; 1; 2; 3000; 2999] (accept_all window_default [1; 3000; 1; 2; 3000; 2999]).2 = [1; 3000; 2999] ∧
  NoDup (accepted [1; 3000; 1; 2; 3000; 2999] (accept_all window_default [1; 3000; 1; 2; 3000; 2999]).2).
Proof. split; [vm_compute; reflexivity|apply replay_accepts_once; by_decide]. Defined.
