(* ===== verification/Seal.v ===== *)
(** * End-to-end sessions (crates/nqvpn-proto/src/seal.rs)

    The msg1 timestamp, the handshake prologue and [PairSession].  The Noise
    implementation (the [snow] crate) is a parameter: its operations are
    [NoiseLib], what the code relies on is [NoiseLaws]. *)

From Stdlib Require Import Ascii.
From S2P Require Import Prelude Text Frame Replay.

Definition REKEY_AFTER_SECS : Z := 120.
Definition RESPONDER_REKEY_DELAY_SECS : Z := 10.
Definition REJECT_AFTER_SECS : Z := 180.
Definition PREVIOUS_GRACE_SECS : Z := 10.
Definition HANDSHAKE_TIMEOUT_SECS : Z := 5.
Definition REKEY_AFTER_MESSAGES : Z := 2 ^ 40.
Definition REJECT_AFTER_MESSAGES : Z := 2 ^ 40 + 2 ^ 30.

(** ** [Tai64n] *)

Record Tai64n := mkTai64n { ts_secs : Z; ts_nanos : Z }.

#[export] Instance Tai64n_eq_dec : EqDecision Tai64n.
Proof. solve_decision. Defined.

Definition tai_to_bytes (t : Tai64n) : list Z := to_be 8 (ts_secs t) ++ to_be 4 (ts_nanos t).

Definition tai_from_payload (p : list Z) : Tai64n :=
  let secs := if (8 <=? length p)%nat then from_be (slice 0 8 p) else 0 in
  let nanos := if (12 <=? length p)%nat then from_be (slice 8 12 p) else 0 in
  mkTai64n secs nanos.

Definition tai_succ (t : Tai64n) : Tai64n :=
  if 999999999 <=? ts_nanos t then mkTai64n (sat_add 64 (ts_secs t) 1) 0
  else mkTai64n (ts_secs t) (ts_nanos t + 1).

(** The derived lexicographic [Ord]. *)
Definition tai_lt (a b : Tai64n) : Prop :=
  ts_secs a < ts_secs b ∨ (ts_secs a = ts_secs b ∧ ts_nanos a < ts_nanos b).

Definition wf_tai (t : Tai64n) : Prop := u_range 64 (ts_secs t) ∧ u_range 32 (ts_nanos t).

(** ** Published keys *)

(** What the program uses of [base64::engine::general_purpose::STANDARD]. *)
Class Base64 := {
  b64_encode : list Z → string;
  b64_decode : string → option (list Z);
}.

Definition decode_pubkey `{Base64} (b64 : string) : option (list Z) :=
  v ← b64_decode b64; if (length v =? 32)%nat then Some v else None.

(** ** Prologue *)

Definition prologue (network_uuid : string) (initiator responder : Z) : list Z :=
  str_bytes "nqvpn-v1" ++ str_bytes network_uuid ++ to_be 4 initiator ++ to_be 4 responder.

Arguments prologue : simpl never.
Arguments tai_to_bytes : simpl never.
Arguments tai_from_payload : simpl never.

(** ** Noise *)

Inductive SealError : Type :=
| Noise (e : string)
| NoSession (peer : Z)
| ReplayErr (ctr : Z)
| Short
| NotAReply.

#[export] Instance SealError_eq_dec : EqDecision SealError.
Proof. solve_decision. Defined.

Class NoiseLib := {
  HandshakeState : Type;
  TransportState : Type;
  x25519_public : list Z → list Z;
  build_initiator : list Z → list Z → list Z → Result HandshakeState string;
  build_responder : list Z → list Z → Result HandshakeState string;
  hs_write : HandshakeState → list Z → Result (HandshakeState * list Z) string;
  hs_read : HandshakeState → list Z → HandshakeState * Result (list Z) string;
  into_transport_mode : HandshakeState → Result TransportState string;
  hs_remote_static : HandshakeState → option (list Z);
  ts_remote_static : TransportState → option (list Z);
  sending_nonce : TransportState → Z;
  set_receiving_nonce : TransportState → Z → TransportState;
  ts_write : TransportState → list Z → TransportState * Result (list Z) string;
  ts_read : TransportState → list Z → TransportState * Result (list Z) string;
}.

(** Largest transport payload of a Noise message, tag excluded. *)
Definition NOISE_MAX_PAYLOAD : Z := 65519.

(** What the Noise specification promises: the IK pattern completes between two
    parties with one prologue, and not with two; a transport state opens what
    its counterpart sealed, under the nonce it was sealed with, whatever it
    itself has read and written meanwhile. *)
Class NoiseLaws (N : NoiseLib) := {
  can_open : TransportState → TransportState → Prop;
  noise_write_opens t1 t2 p :
    can_open t1 t2 → Z.of_nat (length p) ≤ NOISE_MAX_PAYLOAD → sending_nonce t1 < u64_max →
    ∃ t1' ct, ts_write t1 p = (t1', Ok ct) ∧ sending_nonce t1' = sending_nonce t1 + 1 ∧ can_open t1' t2 ∧
      ∀ t2', can_open t1 t2' → ∃ t2'', ts_read (set_receiving_nonce t2' (sending_nonce t1)) ct = (t2'', Ok p);
  noise_read_keeps t1 t2 n ct : can_open t1 t2 → can_open t1 (ts_read (set_receiving_nonce t2 n) ct).1;
  noise_write_keeps t1 t2 p : can_open t1 t2 → can_open t1 (ts_write t2 p).1;
  noise_ik_completes skA skB pro pl :
    length skA = 32%nat → length skB = 32%nat → (length pl ≤ 12)%nat →
    ∃ hA hA' m1 hB hB1 hB2 m2 tB hA2 tA,
      build_initiator skA (x25519_public skB) pro = Ok hA ∧ hs_write hA pl = Ok (hA', m1) ∧
      build_responder skB pro = Ok hB ∧ hs_read hB m1 = (hB1, Ok pl) ∧ hs_write hB1 [] = Ok (hB2, m2) ∧
      into_transport_mode hB2 = Ok tB ∧ hs_read hA' m2 = (hA2, Ok []) ∧ into_transport_mode hA2 = Ok tA ∧
      ts_remote_static tB = Some (x25519_public skA) ∧ ts_remote_static tA = Some (x25519_public skB) ∧
      can_open tA tB ∧ can_open tB tA ∧ sending_nonce tA = 0 ∧ sending_nonce tB = 0;
  noise_prologue_bound skA pkB pro pl hA hA' m1 skB pro' hB :
    build_initiator skA pkB pro = Ok hA → hs_write hA pl = Ok (hA', m1) →
    build_responder skB pro' = Ok hB → pro' ≠ pro → ∃ h e, hs_read hB m1 = (h, Err e);
}.

(** [get_remote_static]: known to an IK initiator from the start, it never
    changes once known, and survives into transport mode. *)
Class NoiseStatic (N : NoiseLib) : Prop := {
  static_of_initiator sk pk pro h : build_initiator sk pk pro = Ok h → hs_remote_static h = Some pk;
  static_hs_write h p h' m : hs_write h p = Ok (h', m) → hs_remote_static h' = hs_remote_static h;
  static_hs_read h m k : hs_remote_static h = Some k → hs_remote_static (hs_read h m).1 = Some k;
  static_transport h t : into_transport_mode h = Ok t → ts_remote_static t = hs_remote_static h;
  static_nonce t n : ts_remote_static (set_receiving_nonce t n) = ts_remote_static t;
  static_ts_write t p : ts_remote_static (ts_write t p).1 = ts_remote_static t;
  static_ts_read t c : ts_remote_static (ts_read t c).1 = ts_remote_static t;
}.

Section pair_session.
Context `{N : NoiseLib}.

Inductive Stage : Type :=
| SHandshake (hs : HandshakeState)
| STransport (t : TransportState).

Record PairSession := mkPairSession {
  ps_stage : option Stage;
  ps_peer : Z;
  ps_initiator : bool;
  ps_replay : ReplayWindow;
  ps_established_at : Z;
  ps_messages : Z;
}.

Record StaticKeys := mkStaticKeys { sk_private : list Z; sk_public : list Z }.

Definition keys_from_private (private : list Z) : Result StaticKeys SealError :=
  if negb (length private =? 32)%nat then Err (Noise "private key has wrong length")
  else Ok (mkStaticKeys private (x25519_public private)).

(** [map_err(ne)] *)
Definition ne {A} (r : Result A string) : Result A SealError :=
  match r with Ok a => Ok a | Err e => Err (Noise e) end.

Definition set_stage (st : option Stage) (s : PairSession) : PairSession :=
  mkPairSession st (ps_peer s) (ps_initiator s) (ps_replay s) (ps_established_at s) (ps_messages s).

Definition initiate_at (keys : StaticKeys) (peer : Z) (peer_pubkey : list Z) (network_uuid : string)
    (me now : Z) (ts : Tai64n) : Result (PairSession * list Z) SealError :=
  let pro := prologue network_uuid me peer in
  let? hs := ne (build_initiator (sk_private keys) peer_pubkey pro) in
  let? r := ne (hs_write hs (tai_to_bytes ts)) in
  Ok (mkPairSession (Some (SHandshake r.1)) peer true window_default now 0, r.2).

Definition initiate (keys : StaticKeys) (peer : Z) (peer_pubkey : list Z) (network_uuid : string) (me now : Z)
    : Result (PairSession * list Z) SealError :=
  initiate_at keys peer peer_pubkey network_uuid me now (mkTai64n now 0).

Definition respond (keys : StaticKeys) (peer : Z) (network_uuid : string) (me : Z) (first_message : list Z) (now : Z)
    : Result (PairSession * list Z * Tai64n) SealError :=
  let pro := prologue network_uuid peer me in
  let? hs := ne (build_responder (sk_private keys) pro) in
  let '(hs, rd) := hs_read hs first_message in
  let? payload := ne rd in
  let ts := tai_from_payload payload in
  let? r := ne (hs_write hs []) in
  let? transport := ne (into_transport_mode r.1) in
  Ok (mkPairSession (Some (STransport transport)) peer false window_default now 0, r.2, ts).

Definition finish (s : PairSession) (reply : list Z) : PairSession * Result unit SealError :=
  match ps_stage s with
  | Some (SHandshake hs) =>
      match hs_read hs reply with
      | (hs', Err e) => (set_stage (Some (SHandshake hs')) s, Err (Noise e))
      | (hs', Ok _) =>
          match into_transport_mode hs' with
          | Err e => (set_stage None s, Err (Noise e))
          | Ok t => (set_stage (Some (STransport t)) s, Ok tt)
          end
      end
  | _ => (s, Ok tt)
  end.

Definition is_ready (s : PairSession) : bool :=
  match ps_stage s with Some (STransport _) => true | _ => false end.

Definition peer_static (s : PairSession) : option (list Z) :=
  match ps_stage s with
  | Some (STransport t) => ts_remote_static t
  | Some (SHandshake h) => hs_remote_static h
  | None => None
  end.

Definition seal (s : PairSession) (plaintext : list Z) : PairSession * Result (Z * list Z) SealError :=
  match ps_stage s with
  | Some (STransport t) =>
      let ctr := sending_nonce t in
      match ts_write t plaintext with
      | (t', Err e) => (set_stage (Some (STransport t')) s, Err (Noise e))
      | (t', Ok out) =>
          (mkPairSession (Some (STransport t')) (ps_peer s) (ps_initiator s) (ps_replay s)
             (ps_established_at s) (ps_messages s ⊕ 1), Ok (ctr, out))
      end
  | _ => (s, Err (NoSession (ps_peer s)))
  end.

Definition unseal (s : PairSession) (ctr : Z) (ciphertext : list Z) : PairSession * Result (list Z) SealError :=
  match ps_stage s with
  | Some (STransport t) =>
      if negb (check (ps_replay s) ctr) then (s, Err (ReplayErr ctr)) else
      match ts_read (set_receiving_nonce t ctr) ciphertext with
      | (t', Err e) => (set_stage (Some (STransport t')) s, Err (Noise e))
      | (t', Ok out) =>
          (mkPairSession (Some (STransport t')) (ps_peer s) (ps_initiator s) (commit (ps_replay s) ctr)
             (ps_established_at s) (ps_messages s), Ok out)
      end
  | _ => (s, Err (NoSession (ps_peer s)))
  end.

Definition age (s : PairSession) (now : Z) : Z := now ⊖ ps_established_at s.
Definition is_stale_handshake (s : PairSession) (now : Z) : bool :=
  negb (is_ready s) && (HANDSHAKE_TIMEOUT_SECS <=? now ⊖ ps_established_at s).
Definition needs_rekey (s : PairSession) (now : Z) : bool :=
  (REKEY_AFTER_SECS <=? now ⊖ ps_established_at s) || (REKEY_AFTER_MESSAGES <=? ps_messages s).
Definition must_expire (s : PairSession) (now : Z) : bool :=
  (REJECT_AFTER_SECS <=? now ⊖ ps_established_at s) || (REJECT_AFTER_MESSAGES <=? ps_messages s).
End pair_session.

(** ** The authenticated key of a session *)

Section static.
Context `{N : NoiseLib, !NoiseStatic N}.

(** Authenticated under [want], or dead. *)
Definition ok_session (want : option (list Z)) (s : PairSession) : Prop :=
  ps_stage s = None ∨ (is_Some want ∧ peer_static s = want).

Lemma seal_static want s p : ok_session want s → ok_session want (seal s p).1.
Proof.
  unfold ok_session, seal, peer_static. destruct (ps_stage s) as [[h|t]|] eqn:E; cbn; rewrite ?E; try done.
  pose proof (static_ts_write t p) as Hw. destruct (ts_write t p) as [t' [out|err]]; cbn in *; rewrite Hw; naive_solver.
Qed.

Lemma unseal_static want s c ct : ok_session want s → ok_session want (unseal s c ct).1.
Proof.
  unfold ok_session, unseal, peer_static. destruct (ps_stage s) as [[h|t]|] eqn:E; cbn; rewrite ?E; try done.
  destruct (check _ _); cbn; rewrite ?E; [|done]. pose proof (static_ts_read (set_receiving_nonce t c) ct) as Hr.
  rewrite static_nonce in Hr. destruct (ts_read _ _) as [t' [out|err]]; cbn in *; rewrite Hr; naive_solver.
Qed.

Lemma finish_static want s m : ok_session want s → ok_session want (finish s m).1.
Proof.
  unfold ok_session, finish, peer_static. destruct (ps_stage s) as [[h|t]|] eqn:E; cbn; rewrite ?E; try done.
  intros [?|[[k ->] Hk]]; [done|]. pose proof (static_hs_read h m k Hk) as Hr.
  destruct (hs_read h m) as [h' [out|err]]; cbn in *; [|rewrite Hr; eauto].
  destruct (into_transport_mode h') as [t|] eqn:Et; cbn; [|auto]. rewrite (static_transport _ _ Et), Hr. eauto.
Qed.

Lemma initiate_static keys peer pk uuid me now ts s m :
  initiate_at keys peer pk uuid me now ts = Ok (s, m) → ok_session (Some pk) s.
Proof.
  unfold initiate_at. destruct (build_initiator _ _ _) as [h|] eqn:E1; cbn; [|done].
  destruct (hs_write _ _) as [[h' m']|] eqn:E2; cbn; [|done]. intros [= <- _]. right. split; [eauto|]. unfold peer_static. cbn.
  by rewrite (static_hs_write _ _ _ _ E2), (static_of_initiator _ _ _ _ E1).
Qed.

Lemma seal_ready s p : is_ready (seal s p).1 = is_ready s.
Proof. unfold seal, is_ready. destruct (ps_stage s) as [[h|t]|] eqn:E; cbn; rewrite ?E; try done. by destruct (ts_write _ _) as [t' [out|err]]. Qed.

Lemma unseal_ready s c ct : is_ready (unseal s c ct).1 = is_ready s.
Proof.
  unfold unseal, is_ready. destruct (ps_stage s) as [[h|t]|] eqn:E; cbn; rewrite ?E; try done.
  destruct (check _ _); cbn; rewrite ?E; [|done]. by destruct (ts_read _ _) as [t' [out|err]].
Qed.

Lemma finish_ready s m : is_ready s = false → is_ready (finish s m).1 = true → is_ok (finish s m).2 = true.
Proof.
  unfold finish, is_ready. destruct (ps_stage s) as [[h|t]|] eqn:E; rewrite ?E; try done.
  destruct (hs_read h m) as [h' [out|err]]; cbn; [|done]. by destruct (into_transport_mode h').
Qed.

Lemma respond_ready keys peer uuid me m now s r ts : respond keys peer uuid me m now = Ok (s, r, ts) → is_ready s = true.
Proof.
  unfold respond. destruct (build_responder _ _) as [h|]; cbn; [|done]. destruct (hs_read _ _) as [h1 [pl|]]; cbn; [|done].
  destruct (hs_write _ _) as [[h2 m2]|]; cbn; [|done]. destruct (into_transport_mode _) as [t|]; cbn; [|done]. by intros [= <- _ _].
Qed.
End static.

(** ** Timestamps and prologues *)

Lemma tai_payload_roundtrip t : wf_tai t → tai_from_payload (tai_to_bytes t) = t.
Proof.
  intros [Hs Hn]. destruct t as [s n]. unfold tai_from_payload, tai_to_bytes; cbn [ts_secs ts_nanos] in *.
  open_be. cbn. close_be. done.
Qed.

Lemma app_inj_suffix {A} (a b c d : list A) : length b = length d → a ++ b = c ++ d → a = c ∧ b = d.
Proof. intros Hl He. by apply app_inj_2. Qed.

Lemma prologue_inj u i r u' i' r' :
  u_range 32 i → u_range 32 r → u_range 32 i' → u_range 32 r' →
  prologue u i r = prologue u' i' r' → u = u' ∧ i = i' ∧ r = r'.
Proof.
  intros Hi Hr Hi' Hr' He. unfold prologue in He. apply (inj (app _)) in He.
  rewrite !(assoc_L (++)) in He.
  apply app_inj_suffix in He as [He Er]; [|by rewrite !to_be_length].
  apply app_inj_suffix in He as [Eu Ei]; [|by rewrite !to_be_length].
  apply str_bytes_inj in Eu. apply (f_equal from_be) in Er, Ei. rewrite !from_to_be_u32 in Er, Ei by done. done.
Qed.

(** ** Sealed streams *)

Section sealed.
Context `{N : NoiseLib, LW : !NoiseLaws N}.

(** Seal payloads in order: the frames, or the first error. *)
Fixpoint seal_all (s : PairSession) (ps : list (list Z)) : PairSession * list (Result (Z * list Z) SealError) :=
  match ps with
  | [] => (s, [])
  | p :: ps' => let '(s1, r) := seal s p in let '(s2, rs) := seal_all s1 ps' in (s2, r :: rs)
  end.

(** Frames as they arrive, in any order and any number of times. *)
Fixpoint unseal_all (s : PairSession) (fs : list (Z * list Z)) : PairSession * list (Result (list Z) SealError) :=
  match fs with
  | [] => (s, [])
  | f :: fs' => let '(s1, r) := unseal s f.1 f.2 in let '(s2, rs) := unseal_all s1 fs' in (s2, r :: rs)
  end.

Definition transport_of (s : PairSession) (t : TransportState) : Prop := ps_stage s = Some (STransport t).

(** A frame that [t2] opens to [p], however often its state has moved. *)
Definition opens_to (t1 : TransportState) (f : Z * list Z) (p : list Z) : Prop :=
  ∀ t2, can_open t1 t2 → ∃ t2', ts_read (set_receiving_nonce t2 f.1) f.2 = (t2', Ok p).

Lemma seal_step s t t2 p :
  transport_of s t → can_open t t2 → Z.of_nat (length p) ≤ NOISE_MAX_PAYLOAD → sending_nonce t < u64_max →
  ∃ t' ct, (seal s p).2 = Ok (sending_nonce t, ct) ∧ transport_of (seal s p).1 t' ∧
    sending_nonce t' = sending_nonce t + 1 ∧ can_open t' t2 ∧ opens_to t (sending_nonce t, ct) p.
Proof.
  intros Hs Ho Hl Hn. destruct (noise_write_opens t t2 p Ho Hl Hn) as (t' & ct & Hw & Hn' & Ho' & Hrd).
  exists t', ct. unfold seal. rewrite Hs, Hw. cbn. done.
Qed.

Lemma unseal_ok s t1 t f p :
  transport_of s t → can_open t1 t → opens_to t1 f p → check (ps_replay s) f.1 = true →
  ∃ t', (unseal s f.1 f.2).2 = Ok p ∧ transport_of (unseal s f.1 f.2).1 t' ∧ can_open t1 t' ∧
    ps_replay (unseal s f.1 f.2).1 = commit (ps_replay s) f.1.
Proof.
  intros Hs Ho Hop Hc. destruct (Hop t Ho) as [t' Hr]. exists t'. unfold unseal. rewrite Hs, Hc. cbn. rewrite Hr. cbn.
  split; [done|]. split; [done|]. split; [|done]. pose proof (noise_read_keeps t1 t f.1 f.2 Ho) as Hk.
  by rewrite Hr in Hk.
Qed.

(** The verdicts of the abstract window on the counters that arrive. *)
Lemma unseal_all_spec s t1 t hist fs ps :
  transport_of s t → can_open t1 t → window_repr (ps_replay s) hist →
  Forall2 (opens_to t1) fs ps → Forall (λ f, 0 ≤ f.1) fs →
  (unseal_all s fs).2 =
  zip_with (λ (fp : (Z * list Z) * list Z) v, if (v : bool) then Ok fp.2 else Err (ReplayErr fp.1.1)) (zip fs ps) (spec_accept_all hist fs.*1).2.
Proof.
  intros Hs Ho Hw Hf Hpos. revert s t hist Hs Ho Hw. induction Hf as [|f p fs ps Hop Hf IH]; intros s t hist Hs Ho Hw; [done|].
  inv Hpos. cbn. pose proof (check_spec _ _ _ Hw H1) as Hc. destruct (spec_check hist f.1) eqn:Hv.
  - destruct (unseal_ok s t1 t f p Hs Ho Hop Hc) as (t' & Hr & Hs' & Ho' & Hw').
    pose proof (commit_repr _ _ _ Hw H1 Hv) as Hw2. rewrite <- Hw' in Hw2.
    destruct (unseal s f.1 f.2) as [s' r]. cbn in *. specialize (IH H2 s' t' (f.1 :: hist) Hs' Ho' Hw2).
    destruct (unseal_all s' fs), (spec_accept_all _ _). cbn in *. subst. done.
  - unfold unseal. rewrite Hs, Hc. cbn. specialize (IH H2 s t hist Hs Ho Hw).
    destruct (unseal_all s fs), (spec_accept_all _ _). cbn in *. subst. done.
Qed.

Lemma seal_all_spec s t t2 ps :
  transport_of s t → can_open t t2 → Forall (λ p, Z.of_nat (length p) ≤ NOISE_MAX_PAYLOAD) ps →
  sending_nonce t + Z.of_nat (length ps) ≤ u64_max →
  ∃ fs, (seal_all s ps).2 = Ok <$> fs ∧ Forall2 (opens_to t) fs ps ∧
    ∀ i f, fs !! i = Some f → f.1 = sending_nonce t + Z.of_nat i.
Proof.
  intros Hs Ho Hl. revert s t Hs Ho. induction Hl as [|p ps Hp Hl IH]; intros s t Hs Ho Hn.
  { exists []. split; [done|]. split; [constructor|]. done. }
  cbn [length] in Hn. destruct (seal_step s t t2 p Hs Ho Hp ltac:(lia)) as (t' & ct & Hr & Hs' & Hn' & Ho' & Hop).
  destruct (IH (seal s p).1 t' Hs' Ho' ltac:(lia)) as (fs & Hfs & Hops & Hctr).
  exists ((sending_nonce t, ct) :: fs). cbn [seal_all]. destruct (seal s p) as [s1 r] eqn:Hseal. cbn in *. subst r.
  destruct (seal_all s1 ps). cbn in *. subst. split; [done|]. split.
  - constructor; [done|]. eapply Forall2_impl; [exact Hops|]. intros f q Hq t3 H3. apply Hq.
    destruct (noise_write_opens t t3 p H3 Hp ltac:(lia)) as (t1' & ct' & Hw & _ & Ho3 & _).
    unfold seal in Hseal. rewrite Hs, Hw in Hseal. injection Hseal as <- _. unfold transport_of in Hs'. cbn in Hs'. congruence.
  - intros [|i] f Hf; cbn in Hf; simplify_eq; [cbn; lia|]. rewrite (Hctr _ _ Hf). lia.
Qed.

(** C29: a sealed stream is delivered exactly once: the sender's frames carry
    consecutive counters, and whatever order, losses and repetitions a relay
    turns them into, each arrival opens to its own payload if and only if the
    receive window admits its counter, and is refused as a replay otherwise. *)
Theorem sealed_stream_exactly_once sA sB tA tB ps :
  transport_of sA tA → transport_of sB tB → can_open tA tB → ps_replay sB = window_default →
  Forall (λ p, Z.of_nat (length p) ≤ NOISE_MAX_PAYLOAD) ps →
  0 ≤ sending_nonce tA → sending_nonce tA + Z.of_nat (length ps) ≤ u64_max →
  ∃ fs, (seal_all sA ps).2 = Ok <$> fs ∧ length fs = length ps ∧
    ∀ arrivals : list nat, Forall (λ i, (i < length ps)%nat) arrivals →
      (unseal_all sB ((λ i, fs !!! i) <$> arrivals)).2 =
      zip_with (λ i v, if (v : bool) then Ok (ps !!! i) else Err (ReplayErr (sending_nonce tA + Z.of_nat i)))
        arrivals (spec_accept_all [] ((λ i, sending_nonce tA + Z.of_nat i) <$> arrivals)).2.
Proof.
  intros HsA HsB Ho Hw Hl H0 Hn. destruct (seal_all_spec sA tA tB ps HsA Ho Hl Hn) as (fs & Hfs & Hops & Hctr).
  pose proof (Forall2_length _ _ _ Hops) as Hlen. exists fs. split; [done|]. split; [done|]. intros arr Harr.
  assert (∀ i, (i < length ps)%nat → (fs !!! i).1 = sending_nonce tA + Z.of_nat i ∧ opens_to tA (fs !!! i) (ps !!! i)) as Hget.
  { intros i Hi. destruct (lookup_lt_is_Some_2 fs i) as [f Hf]; [by rewrite Hlen|].
    destruct (lookup_lt_is_Some_2 ps i) as [p Hp]; [done|].
    rewrite (list_lookup_total_correct _ _ _ Hf), (list_lookup_total_correct _ _ _ Hp).
    split; [by apply Hctr|]. by apply (Forall2_lookup_lr _ _ _ _ _ _ Hops Hf Hp). }
  rewrite (unseal_all_spec sB tA tB [] _ ((λ i, ps !!! i) <$> arr)); [|done|done| | |].
  - assert (((λ i, fs !!! i) <$> arr).*1 = (λ i, sending_nonce tA + Z.of_nat i) <$> arr) as ->.
    { rewrite <- list_fmap_compose. apply list_fmap_ext. intros j i Hi. cbn. apply Hget.
      eapply (Forall_lookup_1 _ _ _ _ Harr Hi). }
    generalize (spec_accept_all [] ((λ i, sending_nonce tA + Z.of_nat i) <$> arr)).2 as vs.
    induction Harr as [|i arr Hi Harr IH]; intros vs; [done|]. cbn. destruct vs as [|v vs]; [done|]. cbn.
    rewrite IH. f_equal. destruct v; [done|]. do 2 f_equal. exact (proj1 (Hget i Hi)).
  - rewrite Hw. apply window_default_repr.
  - apply Forall2_fmap_2, Forall_Forall2_diag. eapply Forall_impl; [exact Harr|]. intros i Hi. by apply Hget.
  - rewrite Forall_fmap. eapply Forall_impl; [exact Harr|]. intros i Hi.
    destruct (Hget i Hi) as [He _]. unfold compose. lia.
Qed.

(** Two endpoints of one network complete the handshake: the
    responder reads the very timestamp the initiator sent and learns its
    static key, both sides end ready with fresh windows, and each opens what
    the other seals. *)
Theorem handshake_completes kA kB a b uuid nowA nowB ts :
  length (sk_private kA) = 32%nat → length (sk_private kB) = 32%nat →
  sk_public kA = x25519_public (sk_private kA) → sk_public kB = x25519_public (sk_private kB) → wf_tai ts →
  ∃ sA m1 sB m2 sA' tA tB,
    initiate_at kA b (sk_public kB) uuid a nowA ts = Ok (sA, m1) ∧
    respond kB a uuid b m1 nowB = Ok (sB, m2, ts) ∧
    finish sA m2 = (sA', Ok tt) ∧
    is_ready sA' = true ∧ is_ready sB = true ∧
    peer_static sA' = Some (sk_public kB) ∧ peer_static sB = Some (sk_public kA) ∧
    ps_replay sA' = window_default ∧ ps_replay sB = window_default ∧
    transport_of sA' tA ∧ transport_of sB tB ∧ can_open tA tB ∧ can_open tB tA ∧
    sending_nonce tA = 0 ∧ sending_nonce tB = 0.
Proof.
  intros HlA HlB HpA HpB Hts.
  destruct (noise_ik_completes (sk_private kA) (sk_private kB) (prologue uuid a b) (tai_to_bytes ts) HlA HlB)
    as (hA & hA' & m1 & hB & hB1 & hB2 & m2 & tB & hA2 & tA & E1 & E2 & E3 & E4 & E5 & E6 & E7 & E8 & E9 & E10 & E11 & E12 & E13 & E14).
  { unfold tai_to_bytes. rewrite length_app, !to_be_length. lia. }
  eexists _, m1, _, m2, _, tA, tB. unfold initiate_at, respond, finish. rewrite HpB, E1. cbn. rewrite E2. cbn.
  rewrite E3. cbn. rewrite E4. cbn. rewrite E5. cbn. rewrite E6. cbn. rewrite tai_payload_roundtrip by done.
  rewrite HpA. split; [done|]. split; [done|]. cbn. rewrite E7, E8. done.
Qed.

(** A handshake is bound to its network and node pair: a first message
    recorded between one pair in one network is refused by a responder that
    takes it for any other pair or network. *)
Theorem handshake_bound kA pkB a b uuid nowA ts sA m1 kB uuid' peer' me' nowB :
  u_range 32 a → u_range 32 b → u_range 32 peer' → u_range 32 me' →
  initiate_at kA b pkB uuid a nowA ts = Ok (sA, m1) →
  (uuid', peer', me') ≠ (uuid, a, b) →
  ∃ e, respond kB peer' uuid' me' m1 nowB = Err (Noise e).
Proof.
  intros Ha Hb Hp Hm Hi Hne. unfold initiate_at in Hi.
  destruct (build_initiator _ _ _) as [hA|e] eqn:E1; [|done]. cbn in Hi.
  destruct (hs_write _ _) as [[hA' m]|e] eqn:E2; [|done]. cbn in Hi. injection Hi as _ <-.
  unfold respond. destruct (build_responder _ _) as [hB|e] eqn:E3; cbn; [|eauto].
  destruct (noise_prologue_bound _ _ _ _ _ _ _ _ _ _ E1 E2 E3) as (h & e & ->).
  - intros He. apply prologue_inj in He as (? & ? & ?); [|done..]. subst. done.
  - cbn. eauto.
Qed.

(** A frame that does not open moves nothing: whenever [unseal] fails
    the window, the counters and the age of the session are as before and it
    stays as ready as it was, so no injected frame can push the window past a
    genuine one; a refused replay does not even reach the cipher. *)
Theorem unseal_failure_inert s ctr ct :
  match unseal s ctr ct with
  | (s', Err e) => ps_replay s' = ps_replay s ∧ ps_messages s' = ps_messages s ∧
      ps_established_at s' = ps_established_at s ∧ is_ready s' = is_ready s ∧
      (∀ c, e = ReplayErr c → s' = s ∧ c = ctr ∧ check (ps_replay s) ctr = false)
  | (s', Ok _) => check (ps_replay s) ctr = true ∧ ps_replay s' = commit (ps_replay s) ctr
  end.
Proof.
  unfold unseal, is_ready. destruct (ps_stage s) as [[h|t]|] eqn:Hst; cbn; rewrite ?Hst; try done.
  destruct (check (ps_replay s) ctr) eqn:Hc; cbn; rewrite ?Hst.
  - destruct (ts_read _ _) as [t' [out|e]]; cbn; done.
  - repeat split; try done; intros; congruence.
Qed.
End sealed.

(** Rekeying leaves no gap: a session is never past its hard limit
    without having been past the soft one, in time and in messages; the soft
    deadline of either side leaves more than a handshake timeout before the
    hard one; and timestamps taken with [succ] are strictly later. *)
Theorem rekey_before_expiry `{N : NoiseLib} (s : PairSession) now t :
  (must_expire s now = true → needs_rekey s now = true) ∧
  (age s now < REKEY_AFTER_SECS + RESPONDER_REKEY_DELAY_SECS + HANDSHAKE_TIMEOUT_SECS →
   ps_messages s < REJECT_AFTER_MESSAGES → must_expire s now = false) ∧
  (wf_tai t → ts_secs t < u64_max → tai_lt t (tai_succ t)).
Proof.
  unfold must_expire, needs_rekey, age, tai_succ, tai_lt, wf_tai, u_range, REKEY_AFTER_SECS, REJECT_AFTER_SECS,
    REKEY_AFTER_MESSAGES, REJECT_AFTER_MESSAGES, RESPONDER_REKEY_DELAY_SECS, HANDSHAKE_TIMEOUT_SECS, u64_max, sat_add.
  rewrite !orb_true_iff, !Z.leb_le, orb_false_iff, !Z.leb_gt. split; [lia|]. split; [lia|].
  intros _ Ht. case_on; cbn; lia.
Qed.

(** ** A model of the laws, and the properties at concrete sessions *)

Module NoiseExample.
Record HS := mkHS {
  x_init : bool; x_sk : list Z; x_rs : option (list Z); x_pro : list Z; x_sent : bool }.
Record TS := mkTS { x_key : list Z; x_nonce : Z; x_recv : Z; x_remote : option (list Z) }.

Definition pub (sk : list Z) : list Z := (λ b, (b + 1) mod 256) <$> sk.
Definition pack {A} `{Countable A} (a : A) : list Z := [Zpos (encode a)].
Definition unpack {A} `{Countable A} (l : list Z) : option A := match l with [Zpos p] => decode p | _ => None end.

Lemma unpack_pack {A} `{Countable A} (a : A) : unpack (pack a) = Some a.
Proof. cbn. apply decode_encode. Qed.

Arguments pack : simpl never.
Arguments unpack : simpl never.

Definition read (h : HS) (m : list Z) : HS * Result (list Z) string :=
  match unpack (A := list Z * list Z * list Z * list Z) m with
  | Some (from, to, pro, pl) =>
      if bool_decide (to = pub (x_sk h) ∧ pro = x_pro h)
      then (mkHS (x_init h) (x_sk h) (Some (default from (x_rs h))) (x_pro h) (x_sent h), Ok pl)
      else (h, Err "decrypt"%string)
  | None => (h, Err "decode"%string)
  end.

Lemma read_pack h from pro pl :
  pro = x_pro h →
  read h (pack (from, pub (x_sk h), pro, pl)) = (mkHS (x_init h) (x_sk h) (Some (default from (x_rs h))) (x_pro h) (x_sent h), Ok pl).
Proof. intros ->. unfold read. rewrite unpack_pack. by rewrite bool_decide_eq_true_2. Qed.

#[export] Instance noise : NoiseLib := {|
  HandshakeState := HS; TransportState := TS;
  x25519_public := pub;
  build_initiator := λ sk pk pro, Ok (mkHS true sk (Some pk) pro false);
  build_responder := λ sk pro, Ok (mkHS false sk None pro false);
  hs_write := λ h pl, Ok (h, pack (pub (x_sk h), default [] (x_rs h), x_pro h, pl));
  hs_read := read;
  into_transport_mode := λ h, Ok (mkTS (x_pro h) 0 0 (x_rs h));
  hs_remote_static := x_rs;
  ts_remote_static := x_remote;
  sending_nonce := x_nonce;
  set_receiving_nonce := λ t n, mkTS (x_key t) (x_nonce t) n (x_remote t);
  ts_write := λ t p, (mkTS (x_key t) (x_nonce t + 1) (x_recv t) (x_remote t), Ok (pack (x_key t, x_nonce t, p)));
  ts_read := λ t ct,
    match unpack (A := list Z * Z * list Z) ct with
    | Some (k, n, p) => if bool_decide (k = x_key t ∧ n = x_recv t) then (t, Ok p) else (t, Err "decrypt"%string)
    | None => (t, Err "decode"%string)
    end;
|}.

#[export] Instance noise_laws : NoiseLaws noise.
Proof.
  apply (@Build_NoiseLaws noise (λ t1 t2 : TS, x_key t1 = x_key t2)).
  - intros t1 t2 p Ho _ _. eexists _, _. split; [reflexivity|]. split; [done|]. split; [done|].
    intros t2' H2. cbn [ts_read noise]. rewrite unpack_pack. cbn. rewrite bool_decide_eq_true_2 by done. eauto.
  - intros t1 t2 n ct Ho. cbn. destruct (unpack ct) as [[[k m] p]|]; [|done]. by case_bool_decide.
  - by intros t1 t2 p Ho.
  - intros skA skB pro pl _ _ _. eexists _, _, _, _, _, _, _, _, _, _. cbn [build_initiator build_responder hs_write hs_read noise].
    split; [done|]. split; [done|]. split; [done|]. split; [by apply (read_pack (mkHS false skB None pro false))|].
    split; [done|]. split; [done|]. split; [by apply (read_pack (mkHS true skA (Some (pub skB)) pro false))|]. done.
  - intros skA pkB pro pl hA hA' m1 skB pro' hB E1 E2 E3 Hne. cbn in *. simplify_eq. unfold read.
    rewrite unpack_pack. cbn. rewrite bool_decide_eq_false_2 by naive_solver. eauto.
Defined.

#[export] Instance noise_static : NoiseStatic noise.
Proof.
  constructor; cbn; try naive_solver.
  - intros h m k Hk. unfold read. repeat case_match; cbn; by rewrite ?Hk.
  - intros t c. by repeat case_match.
Qed.

Definition kA : StaticKeys := mkStaticKeys (replicate 32 1) (pub (replicate 32 1)).
Definition kB : StaticKeys := mkStaticKeys (replicate 32 7) (pub (replicate 32 7)).
Definition session (init : bool) : PairSession :=
  mkPairSession (Some (STransport (mkTS [3] 0 0 None))) 2 init window_default 0 0.
End NoiseExample.

#[local] Existing Instance NoiseExample.noise.
#[local] Existing Instance NoiseExample.noise_laws.

Lemma sealed_stream_exactly_once_witness :
  ∃ fs, (seal_all (NoiseExample.session true) [[10]; [11]; [12]]).2 = Ok <$> fs ∧
    (unseal_all (NoiseExample.session false) ((λ i, fs !!! i) <$> [2; 0; 2; 1]%nat)).2 =
      [Ok [12]; Ok [10]; Err (ReplayErr 2); Ok [11]].
Proof.
  destruct (sealed_stream_exactly_once (NoiseExample.session true) (NoiseExample.session false)
    (NoiseExample.mkTS [3] 0 0 None) (NoiseExample.mkTS [3] 0 0 None) [[10]; [11]; [12]])
    as (fs & Hfs & _ & Hall); [first [reflexivity|by_decide]..|].
  exists fs. split; [exact Hfs|]. rewrite Hall by by_decide. vm_compute. reflexivity.
Defined.

Lemma handshake_completes_witness :
  ∃ sA m1 sB m2, initiate_at NoiseExample.kA 2 (sk_public NoiseExample.kB) "u" 1 100 (mkTai64n 100 5) = Ok (sA, m1) ∧
    respond NoiseExample.kB 1 "u" 2 m1 101 = Ok (sB, m2, mkTai64n 100 5).
Proof.
  destruct (handshake_completes NoiseExample.kA NoiseExample.kB 1 2 "u" 100 101 (mkTai64n 100 5))
    as (sA & m1 & sB & m2 & sA' & tA & tB & H1 & H2 & _); [reflexivity..|by_decide|].
  exists sA, m1, sB, m2. split; [exact H1|exact H2].
Defined.

Lemma handshake_bound_witness :
  ∃ sA m1 e, initiate_at NoiseExample.kA 2 (sk_public NoiseExample.kB) "u" 1 100 (mkTai64n 100 5) = Ok (sA, m1) ∧
    respond NoiseExample.kB 3 "u" 2 m1 101 = Err (Noise e).
Proof.
  destruct (initiate_at NoiseExample.kA 2 (sk_public NoiseExample.kB) "u" 1 100 (mkTai64n 100 5)) as [[sA m1]|e] eqn:E.
  - destruct (handshake_bound NoiseExample.kA (sk_public NoiseExample.kB) 1 2 "u" 100 (mkTai64n 100 5) sA m1
      NoiseExample.kB "u" 3 2 101) as [e He]; [by_decide..|exact E|by_decide|].
    exists sA, m1, e. split; [reflexivity|exact He].
  - exfalso. vm_compute in E. discriminate.
Defined.
