(* ===== verification/Leases.v ===== *)
(** * Liveness and attachment leases (crates/nqvpn-coord/src/leases.rs)

    What members have told the coordinator, and the attachment table derived
    from it. *)

From S2P Require Import Prelude Ordered Control.

Record Claim := mkClaim { c_session_id : Z; c_seq : Z }.

Record Report := mkReport { r_gen : Z; r_digest : Z; r_at : Z }.

#[export] Instance Claim_eq_dec : EqDecision Claim.
Proof. solve_decision. Defined.

Record Leases := mkLeases {
  le_last_seen : gmap Z Z;
  le_offline_since : gmap Z Z;
  le_online_since : gmap Z Z;
  le_declared : gmap Z (gmap Z Claim);
  le_attached_to : gmap Z Z;
  le_mesh_up : gmap Z (list Z);
  le_reported : gmap Z Report;
  le_next_seq : Z;
}.

Definition leases_default : Leases := mkLeases ∅ ∅ ∅ ∅ ∅ ∅ ∅ 0.

Definition is_online (l : Leases) (node : Z) : bool := bool_decide (is_Some (le_last_seen l !! node)).

Definition seen (l : Leases) (node now : Z) : Leases * bool :=
  let was_online := is_online l node in
  (mkLeases (<[node := now]> (le_last_seen l))
     (if was_online then le_offline_since l else delete node (le_offline_since l))
     (if was_online then le_online_since l else <[node := now]> (le_online_since l))
     (le_declared l) (le_attached_to l) (le_mesh_up l) (le_reported l) (le_next_seq l),
   negb was_online).

(** The loop of [heartbeat] over what a relay declares: the claims kept, the
    next sequence number, and whether anything is new. *)
Definition declare (mine : gmap Z Claim) (is_client : Z → bool) (st : gmap Z Claim * Z * bool) (a : AttachedClient)
    : gmap Z Claim * Z * bool :=
  let '(keep, next_seq, changed) := st in
  if negb (is_client (ac_node_id a)) then st else
  let fresh := (<[ac_node_id a := mkClaim (ac_session_id a) (next_seq ⊕ 1)]> keep, next_seq ⊕ 1, true) in
  match mine !! ac_node_id a with
  | Some c => if c_session_id c =? ac_session_id a then (<[ac_node_id a := c]> keep, next_seq, changed) else fresh
  | None => fresh
  end.

Definition heartbeat_relay (l : Leases) (node : Z) (hb : Heartbeat) (is_client : Z → bool) (max_attached : nat)
    : Leases * bool :=
  let mine := default ∅ (le_declared l !! node) in
  let '(keep, next_seq, changed) :=
    foldl (declare mine is_client) (∅, le_next_seq l, false) (take max_attached (hb_attached hb)) in
  let changed := changed || negb (size keep =? size mine)%nat in
  (mkLeases (le_last_seen l) (le_offline_since l) (le_online_since l) (<[node := keep]> (le_declared l))
     (le_attached_to l) (<[node := hb_mesh_up hb]> (le_mesh_up l)) (le_reported l) next_seq, changed).

Definition heartbeat_client (l : Leases) (node : Z) (hb : Heartbeat) : Leases * bool :=
  let before := le_attached_to l !! node in
  (mkLeases (le_last_seen l) (le_offline_since l) (le_online_since l) (le_declared l)
     (match hb_attached_to hb with Some r => <[node := r]> (le_attached_to l) | None => delete node (le_attached_to l) end)
     (le_mesh_up l) (le_reported l) (le_next_seq l),
   negb (bool_decide (before = hb_attached_to hb))).

Definition note_report (l : Leases) (node : Z) (r : Report) : Leases :=
  mkLeases (le_last_seen l) (le_offline_since l) (le_online_since l) (le_declared l) (le_attached_to l)
    (le_mesh_up l) (<[node := r]> (le_reported l)) (le_next_seq l).

Definition heartbeat (l : Leases) (node : Z) (role : Role) (hb : Heartbeat) (now : Z)
    (is_client : Z → bool) (max_attached : nat) : Leases * bool :=
  let '(l, came_online) := seen l node now in
  let l := note_report l node (mkReport (hb_gen hb) (hb_digest hb) now) in
  let '(l, changed) :=
    match role with
    | Relay => heartbeat_relay l node hb is_client max_attached
    | Client => heartbeat_client l node hb
    end in
  (l, came_online || changed).

Definition offline (l : Leases) (node : Z) : Leases :=
  mkLeases (delete node (le_last_seen l))
    (match le_last_seen l !! node with Some last => <[node := last]> (le_offline_since l) | None => le_offline_since l end)
    (delete node (le_online_since l)) (le_declared l) (delete node (le_attached_to l))
    (delete node (le_mesh_up l)) (le_reported l) (le_next_seq l).

Definition expire (l : Leases) (now window : Z) : Leases * list Z :=
  let gone := (List.filter (λ p, window <? now ⊖ p.2) (bt_iter (le_last_seen l))).*1 in
  (foldl offline l gone, gone).

Definition remove (l : Leases) (node : Z) : Leases :=
  let l := offline l node in
  mkLeases (le_last_seen l) (delete node (le_offline_since l)) (le_online_since l)
    (delete node <$> le_declared l) (le_attached_to l) (le_mesh_up l)
    (delete node (le_reported l)) (le_next_seq l).

Definition remove_relay (l : Leases) (relay : Z) : Leases :=
  remove (mkLeases (le_last_seen l) (le_offline_since l) (le_online_since l) (delete relay (le_declared l))
            (le_attached_to l) (le_mesh_up l) (le_reported l) (le_next_seq l)) relay.

Definition online_since (l : Leases) (node : Z) : option Z := le_online_since l !! node.
Definition last_seen (l : Leases) (node : Z) : option Z := le_last_seen l !! node.
Definition offline_since (l : Leases) (node : Z) : option Z := le_offline_since l !! node.
Definition online_nodes (l : Leases) : list Z := bt_keys (le_last_seen l).

(** Every claim, as (relay, client, claim), relay by relay. *)
Definition all_claims (l : Leases) : list (Z * Z * Claim) :=
  p ← bt_iter (le_declared l); (λ q : Z * Claim, (p.1, q.1, q.2)) <$> bt_iter p.2.

(** One claim folded into the best so far; a client that reports another relay
    takes it out of the running. *)
Definition elsewhere (attached_to : gmap Z Z) (relay client : Z) : bool :=
  match attached_to !! client with Some r => negb (r =? relay) | None => false end.

Definition consider (attached_to : gmap Z Z) (best : gmap Z (Z * Z)) (t : Z * Z * Claim) : gmap Z (Z * Z) :=
  let '(relay, client, c) := t in
  if elsewhere attached_to relay client then best else
  match best !! client with
  | Some (seq, _) => if c_seq c <? seq then best else <[client := (c_seq c, relay)]> best
  | None => <[client := (c_seq c, relay)]> best
  end.

(** [attachments] over the claims in a given order: the maps are hash maps. *)
Definition attachments_over (l : Leases) (order : list (Z * Z * Claim)) : gmap Z Z :=
  snd <$> foldl (consider (le_attached_to l)) ∅ order.

Definition attachments (l : Leases) : gmap Z Z := attachments_over l (all_claims l).

Definition claims (l : Leases) : list (Z * Z * Z * Z) :=
  (λ t : Z * Z * Claim, (t.1.1, t.1.2, c_session_id t.2, c_seq t.2)) <$> all_claims l.

Definition declared_by (l : Leases) (relay : Z) : list Z :=
  match le_declared l !! relay with Some m => bt_keys m | None => [] end.
Definition attached_to (l : Leases) (client : Z) : option Z := le_attached_to l !! client.
Definition mesh_up (l : Leases) (relay : Z) : list Z := default [] (le_mesh_up l !! relay).
Definition report (l : Leases) (node : Z) : option Report := le_reported l !! node.

(** ** The attachment rule *)

Definition claimed (l : Leases) (relay client : Z) (c : Claim) : Prop :=
  ∃ m, le_declared l !! relay = Some m ∧ m !! client = Some c.

(** A claim in the running: the client does not say it is elsewhere. *)
Definition eligible (l : Leases) (relay client : Z) (c : Claim) : Prop :=
  claimed l relay client c ∧ ∀ r, le_attached_to l !! client = Some r → r = relay.

(** The most recent declaration among those in the running. *)
Definition winner (l : Leases) (client relay : Z) : Prop :=
  ∃ c, eligible l relay client c ∧ ∀ r' c', eligible l r' client c' → c_seq c' ≤ c_seq c.

(** Sequence numbers name claims. *)
Definition lease_inv (l : Leases) : Prop :=
  (∀ r c cl, claimed l r c cl → c_seq cl ≤ le_next_seq l) ∧
  (∀ r c cl r' c' cl', claimed l r c cl → claimed l r' c' cl' → c_seq cl = c_seq cl' → r = r' ∧ c = c').

Lemma elem_of_all_claims l r c cl : (r, c, cl) ∈ all_claims l ↔ claimed l r c cl.
Proof.
  unfold all_claims, claimed. rewrite list_elem_of_bind. split.
  - intros ([r' m] & Hin & Hm%elem_of_bt_iter). apply list_elem_of_fmap in Hin as ([c' cl'] & ? & Hin%elem_of_bt_iter).
    simplify_eq/=. eauto.
  - intros (m & Hm & Hc). exists (r, m). rewrite elem_of_bt_iter. split; [|done].
    apply list_elem_of_fmap. exists (c, cl). by rewrite elem_of_bt_iter.
Qed.

(** What [best] holds after a part of the claims has been considered: for each
    client an entry in the running that no other in the running beats, or none
    when none is in the running. *)
Definition best_of (at_ : gmap Z Z) (done : list (Z * Z * Claim)) (best : gmap Z (Z * Z)) : Prop :=
  ∀ c, match best !! c with
       | Some (s, r) => elsewhere at_ r c = false ∧ (∃ cl, (r, c, cl) ∈ done ∧ c_seq cl = s) ∧
           ∀ r' cl', (r', c, cl') ∈ done → elsewhere at_ r' c = false → c_seq cl' ≤ s
       | None => ∀ r cl, (r, c, cl) ∈ done → elsewhere at_ r c = true
       end.

Lemma best_of_keep at_ done best r c cl :
  best_of at_ done best →
  (elsewhere at_ r c = true ∨ ∃ s r0, best !! c = Some (s, r0) ∧ c_seq cl ≤ s) →
  best_of at_ (done ++ [(r, c, cl)]) best.
Proof.
  intros Hb Hk c'. specialize (Hb c'). destruct (best !! c') as [[s0 r0]|] eqn:Hc.
  - destruct Hb as (He & (cl0 & Hd & Hs) & Hm). split; [done|]. split; [exists cl0; split; [|done]; set_solver|].
    intros r' cl' [Hd'|Hd']%elem_of_app Ho; [eauto|]. apply list_elem_of_singleton in Hd'. simplify_eq.
    destruct Hk as [Hk|(s & r1 & Hk & Hle)]; [congruence|]. simplify_eq. done.
  - intros r' cl' [Hd'|Hd']%elem_of_app; [eauto|]. apply list_elem_of_singleton in Hd'. simplify_eq.
    destruct Hk as [Hk|(s & r1 & Hk & _)]; congruence.
Qed.

Lemma best_of_take at_ done best r c cl :
  best_of at_ done best → elsewhere at_ r c = false →
  (∀ s r0, best !! c = Some (s, r0) → s ≤ c_seq cl) →
  best_of at_ (done ++ [(r, c, cl)]) (<[c := (c_seq cl, r)]> best).
Proof.
  intros Hb He Hk c'. specialize (Hb c'). destruct (decide (c' = c)) as [->|Hne].
  - rewrite lookup_insert_eq. split; [done|]. split; [exists cl; set_solver|].
    intros r' cl' [Hd'|Hd']%elem_of_app Ho.
    + destruct (best !! c) as [[s0 r0]|] eqn:Hc.
      * destruct Hb as (_ & _ & Hm). specialize (Hk _ _ eq_refl). specialize (Hm _ _ Hd' Ho). lia.
      * rewrite (Hb _ _ Hd') in Ho. done.
    + apply list_elem_of_singleton in Hd'. by simplify_eq.
  - rewrite lookup_insert_ne by done. destruct (best !! c') as [[s0 r0]|].
    + destruct Hb as (He' & (cl0 & Hd & Hs) & Hm). split; [done|]. split; [exists cl0; set_solver|].
      intros r' cl' [Hd'|Hd']%elem_of_app Ho; [eauto|]. apply list_elem_of_singleton in Hd'. by simplify_eq.
    + intros r' cl' [Hd'|Hd']%elem_of_app; [eauto|]. apply list_elem_of_singleton in Hd'. by simplify_eq.
Qed.

Lemma consider_best at_ done best t : best_of at_ done best → best_of at_ (done ++ [t]) (consider at_ best t).
Proof.
  intros Hb. destruct t as [[r c] cl]. unfold consider. destruct (elsewhere at_ r c) eqn:He.
  { apply best_of_keep; auto. }
  destruct (best !! c) as [[s0 r0]|] eqn:Hc.
  - destruct (Z.ltb_spec (c_seq cl) s0).
    + apply best_of_keep; [done|]. right. exists s0, r0. split; [done|lia].
    + apply best_of_take; [done|done|]. intros s r1 ?. simplify_eq. done.
  - apply best_of_take; [done|done|]. intros s r1 ?. congruence.
Qed.

Lemma consider_all_best at_ order : best_of at_ order (foldl (consider at_) ∅ order).
Proof.
  induction order as [|t order IH] using rev_ind.
  - intros c. cbn [foldl]. rewrite lookup_empty. by intros r cl ?%elem_of_nil.
  - rewrite foldl_snoc. by apply consider_best.
Qed.

Lemma elsewhere_false at_ r c : elsewhere at_ r c = false ↔ ∀ x, at_ !! c = Some x → x = r.
Proof.
  unfold elsewhere. destruct (at_ !! c) as [x|]; [|naive_solver].
  rewrite negb_false_iff, Z.eqb_eq. naive_solver.
Qed.

Lemma eligible_elem l r c cl :
  eligible l r c cl ↔ (r, c, cl) ∈ all_claims l ∧ elsewhere (le_attached_to l) r c = false.
Proof. unfold eligible. by rewrite elem_of_all_claims, elsewhere_false. Qed.

(** In any order, the table holds exactly the winners. *)
Lemma attachments_over_winner l order c r :
  lease_inv l → order ≡ₚ all_claims l → attachments_over l order !! c = Some r ↔ winner l c r.
Proof.
  intros [_ Hu] Hp. unfold attachments_over, winner. rewrite lookup_fmap.
  pose proof (consider_all_best (le_attached_to l) order c) as Hb.
  setoid_rewrite eligible_elem. setoid_rewrite <- Hp. destruct (foldl _ _ _ !! c) as [[s r0]|]; cbn.
  - destruct Hb as (He & (cl & Hd & Hs) & Hm). subst s. split.
    + intros [= ->]. exists cl. split; [done|]. intros r' c' [Hd' He']. by apply (Hm _ _ Hd').
    + intros (cl' & [Hd' He'] & Hmax). f_equal. specialize (Hmax r0 cl (conj Hd He)). specialize (Hm _ _ Hd' He').
      apply (Hu r0 c cl r c cl'); [by rewrite <- elem_of_all_claims, <- Hp..|lia].
  - split; [done|]. intros (cl & [Hd He] & _). rewrite (Hb _ _ Hd) in He. done.
Qed.

(** ** Declaring *)

Definition seqs_unique (m : gmap Z Claim) : Prop :=
  ∀ c c' cl cl', m !! c = Some cl → m !! c' = Some cl' → c_seq cl = c_seq cl' → c = c'.

(** The loop's state against the claims it started from. *)
Definition declare_inv (mine : gmap Z Claim) (next0 : Z) (st : gmap Z Claim * Z * bool) : Prop :=
  let '(keep, next, changed) := st in
  next0 ≤ next ∧ seqs_unique keep ∧
  (∀ c cl, keep !! c = Some cl → (mine !! c = Some cl ∧ c_seq cl ≤ next0) ∨ next0 < c_seq cl ≤ next) ∧
  (changed = false → keep ⊆ mine ∧ next = next0).

Lemma declare_inv_init mine next0 : declare_inv mine next0 (∅, next0, false).
Proof. split; [lia|]. split; [by intros ? ? ? ? ?|]. split; [by intros ? ? ?|]. split; [apply map_empty_subseteq|done]. Qed.

Lemma declare_step mine next0 is_client st a :
  seqs_unique mine → (∀ c cl, mine !! c = Some cl → c_seq cl ≤ next0) → 0 ≤ next0 →
  declare_inv mine next0 st → st.1.2 + 1 < 2 ^ 64 →
  declare_inv mine next0 (declare mine is_client st a) ∧ (declare mine is_client st a).1.2 ≤ st.1.2 + 1.
Proof.
  intros Hu Hle H0 Hi Hn. destruct st as [[keep next] changed]. unfold declare.
  destruct (is_client _); cbn [negb]; [|split; [done|cbn; lia]]. cbn in Hn.
  destruct Hi as (Hn0 & Huk & Hk & Hc). set (id := ac_node_id a).
  assert (declare_inv mine next0 (<[id := mkClaim (ac_session_id a) (next ⊕ 1)]> keep, next ⊕ 1, true)) as Hfresh.
  { rewrite wadd64_small by lia. split; [lia|]. split; [|split; [|done]].
    - intros c c' cl cl'. rewrite !lookup_insert_Some. intros [[<- <-]|[? Hx]] [[<- <-]|[? Hy]] Heq; try done; cbn in Heq.
      + apply Hk in Hy. lia.
      + apply Hk in Hx. lia.
      + eauto.
    - intros c cl. rewrite lookup_insert_Some. intros [[<- <-]|[? Hx]]; [cbn; lia|]. apply Hk in Hx. intuition lia. }
  assert (next ⊕ 1 ≤ next + 1) by (rewrite wadd64_small by lia; lia).
  destruct (mine !! id) as [c|] eqn:Hm; [|done]. destruct (_ =? _); [|done]. split; [|cbn; lia].
  assert (∀ c' cl', keep !! c' = Some cl' → c_seq cl' = c_seq c → c' = id) as Hold.
  { intros c' cl' Hx He. destruct (Hk _ _ Hx) as [[Hx' _]|Hx']; [by eapply Hu|]. pose proof (Hle _ _ Hm). lia. }
  split; [done|]. split; [|split].
  - intros x y cl cl'. rewrite !lookup_insert_Some. intros [[<- <-]|[? Hx]] [[<- <-]|[? Hy]] Heq; try done; [|by eauto..].
    symmetry. eapply Hold; [done|congruence].
  - intros x cl. rewrite lookup_insert_Some. intros [[<- <-]|[? Hx]]; [left; eauto|by apply Hk].
  - intros Hch. destruct (Hc Hch) as [Hs ?]. split; [by apply insert_subseteq_l|done].
Qed.

Lemma declare_all mine next0 is_client l st :
  seqs_unique mine → (∀ c cl, mine !! c = Some cl → c_seq cl ≤ next0) → 0 ≤ next0 →
  declare_inv mine next0 st → st.1.2 + Z.of_nat (length l) < 2 ^ 64 →
  declare_inv mine next0 (foldl (declare mine is_client) st l) ∧
  (foldl (declare mine is_client) st l).1.2 ≤ st.1.2 + Z.of_nat (length l).
Proof.
  intros Hu Hle H0. revert st. induction l as [|a l IH]; intros st Hi Hn; cbn [foldl length] in *; [split; [done|lia]|].
  destruct (declare_step mine next0 is_client st a) as [Hi' Hn']; [done..|lia|].
  destruct (IH _ Hi') as [H1 H2]; [lia|]. split; [done|lia].
Qed.

(** The claims of one relay replaced: the invariant, and what a quiet
    heartbeat means. *)
Lemma heartbeat_relay_inv l node hb is_client k :
  lease_inv l → 0 ≤ le_next_seq l → le_next_seq l + Z.of_nat (length (hb_attached hb)) < 2 ^ 64 →
  let '(l', changed) := heartbeat_relay l node hb is_client k in
  lease_inv l' ∧ 0 ≤ le_next_seq l' ∧
  (changed = false → ∀ r c cl, claimed l' r c cl ↔ claimed l r c cl).
Proof.
  intros [Hb Hu] H0 Hn. unfold heartbeat_relay. set (mine := default ∅ (le_declared l !! node)).
  assert (∀ c cl, mine !! c = Some cl ↔ claimed l node c cl) as Hmine.
  { intros c cl. unfold mine, claimed. destruct (le_declared l !! node) as [m|]; cbn; [naive_solver|].
    rewrite lookup_empty. naive_solver. }
  assert (seqs_unique mine) as Hsu.
  { intros c c' cl cl' H1%Hmine H2%Hmine He. by destruct (Hu _ _ _ _ _ _ H1 H2 He). }
  destruct (declare_all mine (le_next_seq l) is_client (take k (hb_attached hb)) (∅, le_next_seq l, false)) as [Hi Hle]; [done| |done| | |].
  { intros c cl Hc%Hmine. by eapply Hb. }
  { apply declare_inv_init. }
  { cbn. rewrite length_take. lia. }
  destruct (foldl _ _ _) as [[keep next] changed]. cbn in Hle. destruct Hi as (Hn0 & Huk & Hk & Hc).
  assert (∀ r c cl, (∃ m, <[node := keep]> (le_declared l) !! r = Some m ∧ m !! c = Some cl) ↔
            (r = node ∧ keep !! c = Some cl) ∨ (r ≠ node ∧ claimed l r c cl)) as Hcl.
  { intros r c cl. setoid_rewrite lookup_insert_Some. unfold claimed. naive_solver. }
  split; [split|split; [cbn; lia|]].
  - intros r c cl. unfold claimed at 1; cbn. rewrite Hcl. intros [[-> Hx]|[_ Hx]]; [apply Hk in Hx as [[_ ?]|?]; lia|].
    apply Hb in Hx. lia.
  - intros r c cl r' c' cl'. unfold claimed at 1 2; cbn. rewrite !Hcl.
    intros [[-> Hx]|[Hne Hx]] [[-> Hy]|[Hne' Hy]] Heq; [split; [done|by eapply Huk]| | |by eapply Hu].
    + destruct (Hk _ _ Hx) as [[Hx' _]|Hx']; [by apply Hmine in Hx'; eapply Hu|]. apply Hb in Hy. lia.
    + destruct (Hk _ _ Hy) as [[Hy' _]|Hy']; [by apply Hmine in Hy'; eapply Hu|]. apply Hb in Hx. lia.
  - intros [Hch Hsz]%orb_false_iff r c cl. unfold claimed at 1; cbn. rewrite Hcl.
    destruct (Hc Hch) as [Hsub _]. apply negb_false_iff, Nat.eqb_eq in Hsz.
    assert (keep = mine) as -> by (apply map_subseteq_size_eq; [done|lia]).
    rewrite Hmine. destruct (decide (r = node)); naive_solver.
Qed.

(** ** Every operation keeps the invariant *)

Inductive lease_step : Leases → Leases → Prop :=
| ls_seen l node now : lease_step l (seen l node now).1
| ls_heartbeat l node role hb now is_client k :
    le_next_seq l + Z.of_nat (length (hb_attached hb)) < 2 ^ 64 →
    lease_step l (heartbeat l node role hb now is_client k).1
| ls_expire l now window : lease_step l (expire l now window).1
| ls_remove l node : lease_step l (remove l node)
| ls_remove_relay l relay : lease_step l (remove_relay l relay)
| ls_offline l node : lease_step l (offline l node).

Definition lease_ok (l : Leases) : Prop := lease_inv l ∧ 0 ≤ le_next_seq l.

Lemma lease_ok_sub l l' :
  (∀ r c cl, claimed l' r c cl → claimed l r c cl) → le_next_seq l' = le_next_seq l → lease_ok l → lease_ok l'.
Proof.
  intros Hsub Hn [[Hb Hu] H0]. rewrite <- Hn in Hb, H0. split; [split|done]; eauto.
Qed.

Lemma offline_all_declared l ns :
  le_declared (foldl offline l ns) = le_declared l ∧ le_next_seq (foldl offline l ns) = le_next_seq l.
Proof. revert l. induction ns as [|n ns IH]; intros l; [done|]. cbn. by destruct (IH (offline l n)) as [-> ->]. Qed.

Lemma remove_claimed l node r c cl : claimed (remove l node) r c cl ↔ claimed l r c cl ∧ c ≠ node.
Proof.
  unfold claimed, remove; cbn. setoid_rewrite lookup_fmap_Some. split.
  - intros (m & (m0 & <- & Hm) & [Hne Hc]%lookup_delete_Some). eauto.
  - intros [(m & Hm & Hc) Hne]. exists (delete node m). split; [eauto|]. by rewrite lookup_delete_ne.
Qed.

Lemma remove_relay_claimed l relay r c cl :
  claimed (remove_relay l relay) r c cl ↔ claimed l r c cl ∧ c ≠ relay ∧ r ≠ relay.
Proof.
  unfold remove_relay. rewrite remove_claimed. unfold claimed; cbn. setoid_rewrite lookup_delete_Some. naive_solver.
Qed.

Lemma heartbeat_ok l node role hb now is_client k :
  lease_ok l → le_next_seq l + Z.of_nat (length (hb_attached hb)) < 2 ^ 64 →
  let '(l', changed) := heartbeat l node role hb now is_client k in
  lease_ok l' ∧
  (changed = false → (∀ r c cl, claimed l' r c cl ↔ claimed l r c cl) ∧ le_attached_to l' = le_attached_to l ∧
     ∀ n, is_online l' n = is_online l n).
Proof.
  intros [Hi H0] Hn. unfold heartbeat. cbn [seen].
  set (l1 := note_report _ _ _).
  assert (lease_inv l1 ∧ le_next_seq l1 = le_next_seq l ∧ le_attached_to l1 = le_attached_to l) as (Hi1 & En & Ea) by done.
  assert (is_online l node = true → ∀ n, bool_decide (is_Some (<[node := now]> (le_last_seen l) !! n)) = is_online l n) as Hon.
  { intros Hw n. unfold is_online in *. apply bool_decide_ext. rewrite lookup_insert_is_Some'. bool_prop. naive_solver. }
  destruct role.
  - cbn. split; [done|]. intros [Hw Hc]%orb_false_iff. apply negb_false_iff in Hw. bool_prop.
    split; [done|]. split; [|by apply Hon].
    destruct (hb_attached_to hb) as [r|]; [by apply insert_id|by apply delete_id].
  - rewrite <- En in Hn. pose proof (heartbeat_relay_inv l1 node hb is_client k Hi1 ltac:(lia) Hn) as Hr.
    assert (le_attached_to (heartbeat_relay l1 node hb is_client k).1 = le_attached_to l ∧
            le_last_seen (heartbeat_relay l1 node hb is_client k).1 = <[node := now]> (le_last_seen l)) as [E1 E2].
    { unfold heartbeat_relay. destruct (foldl _ _ _) as [[??]?]. done. }
    destruct (heartbeat_relay l1 node hb is_client k) as [l2 ch]. cbn in E1, E2. destruct Hr as (H1 & H2 & H3).
    split; [done|]. intros [Hw Hc]%orb_false_iff. apply negb_false_iff in Hw.
    split; [by apply H3|]. split; [done|]. intros n. unfold is_online. rewrite E2. by apply Hon.
Qed.

Lemma lease_step_ok l l' : lease_step l l' → lease_ok l → lease_ok l'.
Proof.
  destruct 1; intros Hok.
  - done.
  - pose proof (heartbeat_ok l node role hb now is_client k Hok H) as Hh.
    destruct (heartbeat _ _ _ _ _ _ _). cbn. by destruct Hh.
  - eapply lease_ok_sub; [| |exact Hok]; cbn; [unfold claimed; cbn|]; by rewrite ?(proj1 (offline_all_declared _ _)), ?(proj2 (offline_all_declared _ _)).
  - eapply lease_ok_sub; [| |exact Hok]; [|done]. intros r c cl Hc. by apply remove_claimed in Hc as [? _].
  - eapply lease_ok_sub; [| |exact Hok]; [|done]. intros r c cl Hc. by apply remove_relay_claimed in Hc as [? _].
  - done.
Qed.

Lemma lease_reach_ok l : rtc lease_step leases_default l → lease_ok l.
Proof.
  apply (rtc_inv_preserved lease_step lease_ok); [apply lease_step_ok|]. split; [|cbn; lia].
  split; [intros r c cl (m & Hm & _); done|intros r c cl r' c' cl' (m & Hm & _); done].
Qed.

Lemma attachments_winner l c r : lease_ok l → attachments l !! c = Some r ↔ winner l c r.
Proof. intros [Hi _]. by apply attachments_over_winner. Qed.

Lemma attachments_ext l l' :
  lease_ok l → lease_ok l' → (∀ r c cl, claimed l' r c cl ↔ claimed l r c cl) → le_attached_to l' = le_attached_to l →
  attachments l' = attachments l.
Proof.
  intros H1 H2 Hc Ha. apply map_eq. intros c. apply option_eq. intros r. rewrite !attachments_winner by done.
  unfold winner, eligible. rewrite Ha. setoid_rewrite Hc. done.
Qed.

(** ** A move *)

(** [c] has a claim newer than all that stood before. *)
Definition fresh_claim (next0 c : Z) (st : gmap Z Claim * Z * bool) : Prop :=
  ∃ cl, st.1.1 !! c = Some cl ∧ next0 < c_seq cl.

Lemma declare_fresh mine next0 is_client c l st :
  seqs_unique mine → (∀ c cl, mine !! c = Some cl → c_seq cl ≤ next0) → 0 ≤ next0 →
  is_client c = true →
  (∀ a cl, a ∈ l → ac_node_id a = c → mine !! c = Some cl → c_session_id cl ≠ ac_session_id a) →
  declare_inv mine next0 st → st.1.2 + Z.of_nat (length l) < 2 ^ 64 →
  (fresh_claim next0 c st ∨ ∃ a, a ∈ l ∧ ac_node_id a = c) →
  fresh_claim next0 c (foldl (declare mine is_client) st l).
Proof.
  intros Hu Hle H0 Hcl. revert st. induction l as [|a l IH]; intros st Hnew Hi Hn Hc.
  { by destruct Hc as [?|(a & ?%elem_of_nil & _)]. }
  cbn [foldl length] in *. destruct (declare_step mine next0 is_client st a) as [Hi' Hn']; [done..|lia|].
  apply IH; [intros ? ? ?; apply Hnew; by right|done|lia|].
  destruct (decide (ac_node_id a = c)) as [Ha|Ha].
  - left. destruct st as [[keep next] ch]. destruct Hi as (Hge & _). cbn in Hn, Hge. unfold declare. rewrite Ha, Hcl. cbn [negb].
    assert (fresh_claim next0 c (<[c := mkClaim (ac_session_id a) (next ⊕ 1)]> keep, next ⊕ 1, true)) as Hf.
    { exists (mkClaim (ac_session_id a) (next ⊕ 1)). cbn. rewrite lookup_insert_eq, wadd64_small by lia. split; [done|cbn; lia]. }
    destruct (mine !! c) as [cl|] eqn:Hm; [|done]. rewrite (proj2 (Z.eqb_neq _ _)); [done|].
    apply (Hnew a cl); [left|done|done].
  - destruct Hc as [(cl & Hk & Hs)|(a' & [->|Hin]%elem_of_cons & Ha')]; [|done|right; eauto].
    left. exists cl. split; [|done]. destruct st as [[keep next] ch]. cbn in Hk. unfold declare.
    destruct (is_client (ac_node_id a)); [|done]. cbn. destruct (mine !! ac_node_id a); [destruct (_ =? _)|]; cbn; by rewrite lookup_insert_ne.
Qed.

(** ** Properties *)

(** The attachment table is the most recent declaration, uniquely: in
    every state reached by heartbeats, expiry and removals, and whatever order
    the hash maps are walked in, a client is attached to a relay exactly when
    that relay's claim is the newest among those the client does not
    contradict. *)
Theorem attachments_exact l order c r :
  rtc lease_step leases_default l → order ≡ₚ all_claims l →
  attachments_over l order !! c = Some r ↔ winner l c r.
Proof. intros [Hi _]%lease_reach_ok Ho. by apply attachments_over_winner. Qed.

(** The heartbeat's "changed" answer is sound: when it says no, the
    attachment table and the set of online members are the ones before, so
    skipping the publication loses nothing. *)
Theorem heartbeat_quiet_sound l node role hb now is_client k :
  rtc lease_step leases_default l → le_next_seq l + Z.of_nat (length (hb_attached hb)) < 2 ^ 64 →
  (heartbeat l node role hb now is_client k).2 = false →
  let l' := (heartbeat l node role hb now is_client k).1 in
  attachments l' = attachments l ∧ ∀ n, is_online l' n = is_online l n.
Proof.
  intros Hok%lease_reach_ok Hn Hq. pose proof (heartbeat_ok l node role hb now is_client k Hok Hn) as Hh.
  destruct (heartbeat _ _ _ _ _ _ _) as [l' ch]. cbn in *. destruct Hh as [Hok' Hf].
  destruct (Hf Hq) as (Hc & Ha & Hon). split; [by apply attachments_ext|done].
Qed.

(** A move takes effect at once: when a relay declares a client under a
    session it had not declared, the client is attached to that relay right
    after the heartbeat, unless the client itself reports another relay. *)
Theorem move_wins l relay hb now is_client k c a :
  rtc lease_step leases_default l → le_next_seq l + Z.of_nat (length (hb_attached hb)) < 2 ^ 64 →
  a ∈ take k (hb_attached hb) → ac_node_id a = c → is_client c = true →
  (∀ a' m cl, a' ∈ take k (hb_attached hb) → ac_node_id a' = c → le_declared l !! relay = Some m → m !! c = Some cl →
     c_session_id cl ≠ ac_session_id a') →
  (∀ r, le_attached_to l !! c = Some r → r = relay) →
  attachments (heartbeat l relay Relay hb now is_client k).1 !! c = Some relay.
Proof.
  intros Hok%lease_reach_ok Hn Ha Hid Hcl Hnew Hat.
  pose proof (heartbeat_ok l relay Relay hb now is_client k Hok Hn) as Hh.
  unfold heartbeat in *. cbn [seen] in *. set (l1 := note_report _ _ _) in *.
  assert (le_next_seq l1 = le_next_seq l ∧ le_declared l1 = le_declared l) as [En Ed] by done.
  destruct Hok as [[Hb Hu] H0]. unfold heartbeat_relay in *. rewrite En, Ed in *.
  set (mine := default ∅ (le_declared l !! relay)) in *.
  assert (∀ c cl, mine !! c = Some cl → ∃ m, le_declared l !! relay = Some m ∧ m !! c = Some cl) as Hmine.
  { intros x cl. unfold mine. destruct (le_declared l !! relay); cbn; [eauto|done]. }
  assert (seqs_unique mine) as Hsu.
  { intros x y cl cl' H1%Hmine H2%Hmine He. by destruct (Hu relay x cl relay y cl' H1 H2 He). }
  assert (∀ x cl, mine !! x = Some cl → c_seq cl ≤ le_next_seq l) as Hle by (intros x cl Hx%Hmine; by eapply (Hb relay)).
  assert (fresh_claim (le_next_seq l) c
    (foldl (declare mine is_client) (∅, le_next_seq l, false) (take k (hb_attached hb)))) as Hf.
  { apply declare_fresh; [done..| | | |right; eauto].
    - intros a' cl Hin Hid' (m & Hm & Hc)%Hmine. eauto.
    - apply declare_inv_init.
    - cbn. rewrite length_take. lia. }
  destruct (foldl _ _ _) as [[keep next] ch]. destruct Hf as (cl & Hk & Hs). cbn in Hk.
  destruct Hh as [Hok' _]. cbn [fst]. apply attachments_winner; [exact Hok'|].
  exists cl. unfold eligible, claimed; cbn. split; [split; [|done]; exists keep; by rewrite lookup_insert_eq|].
  intros r' cl' [(m & Hm & Hc') _]. apply lookup_insert_Some in Hm as [[<- <-]|[Hne Hm]]; [by simplify_eq|].
  assert (c_seq cl' ≤ le_next_seq l) by (apply (Hb r' c); by exists m). lia.
Qed.

Lemma offline_all_seen l ns n :
  le_last_seen (foldl offline l ns) !! n = if decide (n ∈ ns) then None else le_last_seen l !! n.
Proof.
  revert l. induction ns as [|m ns IH]; intros l; [done|]. cbn [foldl]. rewrite IH. cbn.
  destruct (decide (n ∈ ns)).
  - rewrite decide_True by by right. done.
  - destruct (decide (n = m)) as [->|Hne].
    + rewrite decide_True by left. apply lookup_delete_eq.
    + rewrite decide_False by (rewrite elem_of_cons; naive_solver). by rewrite lookup_delete_ne.
Qed.

(** Expiry is exact: the members it reports gone, and then lists offline,
    are those silent for longer than the window; every other member keeps its
    last-seen time, and no relay's declarations are touched. *)
Theorem expire_exact l now window n :
  let '(l', gone) := expire l now window in
  (n ∈ gone ↔ ∃ t, last_seen l n = Some t ∧ window < now ⊖ t) ∧
  last_seen l' n = (if decide (n ∈ gone) then None else last_seen l n) ∧
  le_declared l' = le_declared l.
Proof.
  unfold expire. cbn zeta. set (gone := (List.filter _ _).*1). split; [|split].
  - unfold gone. rewrite list_elem_of_fmap. split.
    + intros ([m t] & -> & Hin). rewrite elem_of_filter_b, elem_of_bt_iter in Hin. destruct Hin as [Hb Hm].
      cbn in *. bool_prop. eauto.
    + intros (t & Ht & Hw). exists (n, t). split; [done|]. rewrite elem_of_filter_b, elem_of_bt_iter.
      split; [by apply Z.ltb_lt|done].
  - apply offline_all_seen.
  - apply offline_all_declared.
Qed.

(** Removal leaves nothing behind: a removed member is not online, is
    attached nowhere, claimed by nobody and has no report; a removed relay also
    holds no client. *)
Theorem remove_complete l x :
  rtc lease_step leases_default l →
  is_online (remove l x) x = false ∧ attachments (remove l x) !! x = None ∧ report (remove l x) x = None ∧
  (∀ c, c ≠ x → ∀ r cl, claimed (remove l x) r c cl ↔ claimed l r c cl) ∧
  is_online (remove_relay l x) x = false ∧ (∀ c, attachments (remove_relay l x) !! c ≠ Some x).
Proof.
  intros Hok%lease_reach_ok.
  assert (lease_ok (remove l x)) as H1 by (eapply lease_step_ok; [apply ls_remove|done]).
  assert (lease_ok (remove_relay l x)) as H2 by (eapply lease_step_ok; [apply ls_remove_relay|done]).
  split; [apply bool_decide_eq_false_2; cbn; rewrite lookup_delete_eq; by intros []|].
  split; [|split; [apply lookup_delete_eq|split; [|split]]].
  - apply eq_None_not_Some. intros [r (cl & [Hc _] & _)%attachments_winner]; [|done]. by apply remove_claimed in Hc as [_ ?].
  - intros c Hne r cl. rewrite remove_claimed. naive_solver.
  - apply bool_decide_eq_false_2. cbn. rewrite lookup_delete_eq. by intros [].
  - intros c (cl & [Hc _] & _)%attachments_winner; [|done]. by apply remove_relay_claimed in Hc as (_ & _ & ?).
Qed.

Module LeaseExample.
Definition declares (cs : list AttachedClient) : Heartbeat := mkHeartbeat 0 0 cs [] None 0 None.
Definition clients (n : Z) : bool := 10 <=? n.
Definition l1 : Leases := (heartbeat leases_default 1 Relay (declares [mkAttachedClient 10 5; mkAttachedClient 2 1]) 100 clients 8).1.
Definition l2 : Leases := (heartbeat l1 2 Relay (declares [mkAttachedClient 10 6]) 100 clients 8).1.

Lemma reach1 : rtc lease_step leases_default l1.
Proof. apply rtc_once. unfold l1. apply ls_heartbeat. by_decide. Qed.
Lemma reach2 : rtc lease_step leases_default l2.
Proof. eapply rtc_r; [apply reach1|]. unfold l2. apply ls_heartbeat. by_decide. Qed.
End LeaseExample.

Lemma attachments_exact_witness : winner LeaseExample.l2 10 2 ∧ claimed LeaseExample.l2 1 10 (mkClaim 5 1).
Proof.
  split.
  - apply (attachments_exact LeaseExample.l2 (reverse (all_claims LeaseExample.l2))).
    + apply LeaseExample.reach2.
    + apply reverse_Permutation.
    + vm_compute. reflexivity.
  - eexists. split; vm_compute; reflexivity.
Defined.

Lemma heartbeat_quiet_sound_witness :
  attachments (heartbeat LeaseExample.l2 2 Relay (LeaseExample.declares [mkAttachedClient 10 6]) 200 LeaseExample.clients 8).1
    = attachments LeaseExample.l2.
Proof.
  apply (heartbeat_quiet_sound LeaseExample.l2 2 Relay (LeaseExample.declares [mkAttachedClient 10 6]) 200 LeaseExample.clients 8).
  - apply LeaseExample.reach2.
  - by_decide.
  - vm_compute. reflexivity.
Defined.

Lemma move_wins_witness :
  attachments LeaseExample.l1 !! 10 = Some 1 ∧
  attachments (heartbeat LeaseExample.l1 2 Relay (LeaseExample.declares [mkAttachedClient 10 6]) 100 LeaseExample.clients 8).1 !! 10 = Some 2.
Proof.
  split; [vm_compute; reflexivity|].
  apply (move_wins LeaseExample.l1 2 (LeaseExample.declares [mkAttachedClient 10 6]) 100 LeaseExample.clients 8 10 (mkAttachedClient 10 6)).
  - apply LeaseExample.reach1.
  - by_decide.
  - left.
  - reflexivity.
  - reflexivity.
  - intros a' m cl _ _ Hm. vm_compute in Hm. discriminate.
  - intros r Hr. vm_compute in Hr. discriminate.
Defined.

Lemma remove_complete_witness : attachments (remove LeaseExample.l2 10) !! 10 = None.
Proof. apply (remove_complete LeaseExample.l2 10). apply LeaseExample.reach2. Defined.
