(* ===== verification/Config.v ===== *)
(** * A network's configuration (crates/nqvpn-coord/src/config.rs)

    The configured members and settings, and the lookups the registry, the
    address plan and the directory make in them. *)

From S2P Require Import Prelude Ordered Ipnet Control.

Record SettingsCfg := mkSettingsCfg {
  sc_credential_ttl_mins : Z;
  sc_heartbeat_secs : Z;
  sc_offline_after : Z;
  sc_hold_down_secs : Z;
  sc_mtu : Z;
  sc_relay_reachability : string;
  sc_transport : string;
  sc_lanes : Z;
  sc_max_session_mbps : Z;
  sc_restart_grace_secs : Z;
  sc_allow_loopback_relays : bool;
}.

Definition settings_default : SettingsCfg := mkSettingsCfg 15 5 3 60 1350 "warn" "stream" 1 0 30 false.

(** A [u16] times a [u32] fits a [u64]. *)
Definition liveness_window_secs (s : SettingsCfg) : Z :=
  Z.max (sc_heartbeat_secs s) 1 * Z.max (sc_offline_after s) 1.

Record MemberCfg := mkMemberCfg {
  mc_secret : option string;
  mc_relay_addr : option string;
  mc_local_cidrs : list IpNet;
  mc_internet_gateway : option bool;
  mc_preferred_ip4 : option Z;
  mc_preferred_ip6 : option Z;
  mc_legacy_pool : option string;
  mc_want_vpn_ip : option bool;
  mc_max_session_mbps : option Z;
  mc_preferred_relay : option string;
}.

Definition member_cfg_default : MemberCfg := mkMemberCfg None None [] None None None None None None None.

Record NetworkConfig := mkNetworkConfig {
  nc_network_id : string;
  nc_cidrs : list IpNet;
  nc_settings : SettingsCfg;
  nc_relays : gmap string MemberCfg;
  nc_clients : gmap string MemberCfg;
}.

(** [ipv4_cidr]: the first IPv4 prefix; [None] where the code would panic. *)
Definition ipv4_cidr (cfg : NetworkConfig) : option IpNet :=
  List.find (λ c, ip_is_ipv4 (net_addr c)) (nc_cidrs cfg).
Definition ipv6_cidr (cfg : NetworkConfig) : option IpNet :=
  List.find (λ c, negb (ip_is_ipv4 (net_addr c))) (nc_cidrs cfg).

Definition member_by_name (cfg : NetworkConfig) (name : string) : option (MemberCfg * Role) :=
  match nc_clients cfg !! name with
  | Some m => Some (m, Client)
  | None => (λ m, (m, Relay)) <$> nc_relays cfg !! name
  end.

Definition cfg_members (cfg : NetworkConfig) : list (string * MemberCfg * Role) :=
  ((λ p : string * MemberCfg, (p.1, p.2, Client)) <$> bt_iter (nc_clients cfg)) ++
  ((λ p : string * MemberCfg, (p.1, p.2, Relay)) <$> bt_iter (nc_relays cfg)).

Definition insert_member (name : string) (role : Role) (m : MemberCfg) (cfg : NetworkConfig) : NetworkConfig :=
  match role with
  | Client => mkNetworkConfig (nc_network_id cfg) (nc_cidrs cfg) (nc_settings cfg) (nc_relays cfg) (<[name := m]> (nc_clients cfg))
  | Relay => mkNetworkConfig (nc_network_id cfg) (nc_cidrs cfg) (nc_settings cfg) (<[name := m]> (nc_relays cfg)) (nc_clients cfg)
  end.

(** [clients.remove(name).is_some() || relays.remove(name).is_some()]: the
    relays are only tried when no client had the name. *)
Definition remove_member (name : string) (cfg : NetworkConfig) : NetworkConfig * bool :=
  match nc_clients cfg !! name with
  | Some _ => (mkNetworkConfig (nc_network_id cfg) (nc_cidrs cfg) (nc_settings cfg) (nc_relays cfg) (delete name (nc_clients cfg)), true)
  | None => (mkNetworkConfig (nc_network_id cfg) (nc_cidrs cfg) (nc_settings cfg) (delete name (nc_relays cfg)) (nc_clients cfg),
             bool_decide (is_Some (nc_relays cfg !! name)))
  end.

Lemma elem_of_cfg_members cfg name m role :
  (name, m, role) ∈ cfg_members cfg ↔
  match role with Client => nc_clients cfg !! name = Some m | Relay => nc_relays cfg !! name = Some m end.
Proof.
  unfold cfg_members. rewrite elem_of_app, !list_elem_of_fmap. split.
  - intros [([n x] & ? & Hin)|([n x] & ? & Hin)]; simplify_eq/=; by apply elem_of_bt_iter.
  - destruct role; [left|right]; exists (name, m); by rewrite elem_of_bt_iter.
Qed.
