(* ===== verification/Registry.v ===== *)
(** * The durable registry (crates/nqvpn-coord/src/registry.rs)

    Member records by node id, the never-reused id counter, and the
    generation mark that outlives a restart. *)

From S2P Require Import Prelude Ordered Ipnet Control.

Record RouteReg := mkRouteReg { rr_cidr : IpNet; rr_first_granted_unix : Z }.

Record MemberRecord := mkMemberRecord {
  mr_node_id : Z;
  mr_name : string;
  mr_role : Role;
  mr_pubkey : option string;
  mr_cert_fp : option string;
  mr_ip4 : option Z;
  mr_ip6 : option Z;
  mr_routes : list RouteReg;
  mr_relay_addr : option string;
  mr_disabled : bool;
  mr_created_unix : Z;
  mr_last_join_unix : option Z;
  mr_last_join_from : option string;
  mr_login_gen : Z;
  mr_replaced_unix : option Z;
  mr_replaced_from : option string;
}.

Record Registry := mkRegistry {
  rg_alloc_cursor : gmap string Z;
  rg_network_uuid : string;
  rg_next_node_id : Z;
  rg_members : gmap Z MemberRecord;
  rg_gen_hwm : Z;
}.

Definition GEN_PERSIST_STEP : Z := 1000.

Definition registry_new (uuid : string) : Registry := mkRegistry ∅ uuid 1 ∅ 0.

(** ** Generations *)

Definition initial_gen (r : Registry) (now_ms : Z) : Z := Z.max now_ms (rg_gen_hwm r ⊕ GEN_PERSIST_STEP).

Definition note_gen (r : Registry) (gen : Z) : Registry * bool :=
  if rg_gen_hwm r <=? gen
  then (mkRegistry (rg_alloc_cursor r) (rg_network_uuid r) (rg_next_node_id r) (rg_members r) (gen ⊕ GEN_PERSIST_STEP), true)
  else (r, false).

(** ** Members *)

Definition by_name (r : Registry) (name : string) : option MemberRecord :=
  List.find (λ m, String.eqb (mr_name m) name) (bt_values (rg_members r)).

Definition id_of (r : Registry) (name : string) : option Z := mr_node_id <$> by_name r name.

Definition record_new (id : Z) (name : string) (role : Role) (now : Z) : MemberRecord :=
  mkMemberRecord id name role None None None None [] None false now None None 0 None None.

Definition set_name_role (name : string) (role : Role) (m : MemberRecord) : MemberRecord :=
  mkMemberRecord (mr_node_id m) name role (mr_pubkey m) (mr_cert_fp m) (mr_ip4 m) (mr_ip6 m) (mr_routes m)
    (mr_relay_addr m) (mr_disabled m) (mr_created_unix m) (mr_last_join_unix m) (mr_last_join_from m)
    (mr_login_gen m) (mr_replaced_unix m) (mr_replaced_from m).

Definition set_members (ms : gmap Z MemberRecord) (r : Registry) : Registry :=
  mkRegistry (rg_alloc_cursor r) (rg_network_uuid r) (rg_next_node_id r) ms (rg_gen_hwm r).

Definition member_mut (r : Registry) (id : Z) (name : string) (role : Role) (now : Z) : Registry * MemberRecord :=
  let rec := set_name_role name role (default (record_new id name role now) (rg_members r !! id)) in
  (mkRegistry (rg_alloc_cursor r) (rg_network_uuid r)
     (Z.max (rg_next_node_id r) (sat_add 32 id 1)) (<[id := rec]> (rg_members r)) (rg_gen_hwm r), rec).

(** [while members.contains_key(&id) { id += 1 }] on [u32]; [fuel] bounds the
    turns, and one more than the members held is enough. *)
Fixpoint next_free (fuel : nat) (members : gmap Z MemberRecord) (id : Z) : Z :=
  match fuel with
  | O => id
  | S n => match members !! id with Some _ => next_free n members ((id + 1) mod 2 ^ 32) | None => id end
  end.

Definition member_by_name_mut (r : Registry) (name : string) (role : Role) (now : Z) : Registry * MemberRecord :=
  let id := match id_of r name with
            | Some id => id
            | None => next_free (S (size (rg_members r))) (rg_members r) (Z.max (rg_next_node_id r) 1)
            end in
  member_mut r id name role now.

(** ** Route registrations *)

(** [sort_by(age.then(id))] *)
Definition by_age (p : Z * Z) : Z * Z := (p.2, p.1).

Definition add_route `{O : IpNetOps} (id : Z) (m : gmap string (IpNet * list (Z * Z))) (r : RouteReg)
    : gmap string (IpNet * list (Z * Z)) :=
  let key := net_to_string (rr_cidr r) in
  let e := default (rr_cidr r, []) (m !! key) in
  <[key := (e.1, e.2 ++ [(id, rr_first_granted_unix r)])]> m.

Definition add_routes `{O : IpNetOps} (m : gmap string (IpNet * list (Z * Z))) (p : Z * MemberRecord)
    : gmap string (IpNet * list (Z * Z)) :=
  if mr_disabled p.2 then m else foldl (add_route p.1) m (mr_routes p.2).

Definition resolve_owners `{O : IpNetOps} (r : Registry) : list (IpNet * list (Z * Z)) :=
  let by_cidr := foldl add_routes ∅ (bt_iter (rg_members r)) in
  sort_by_key (λ p, net_to_string p.1)
    ((λ p : IpNet * list (Z * Z), (p.1, sort_by_key by_age p.2)) <$> bt_values by_cidr).

Definition assigned4 (r : Registry) : list Z := omap mr_ip4 (bt_values (rg_members r)).
Definition assigned6 (r : Registry) : list Z := omap mr_ip6 (bt_values (rg_members r)).

Arguments member_by_name_mut : simpl never.
Arguments note_gen : simpl never.

(** ** Free ids *)

Lemma next_free_spec fuel members id :
  (∃ k, (k < fuel)%nat ∧ members !! ((id + Z.of_nat k) mod 2 ^ 32) = None) → u_range 32 id →
  members !! next_free fuel members id = None ∧ u_range 32 (next_free fuel members id).
Proof.
  revert id. induction fuel as [|fuel IH]; intros id (k & Hk & Hm) Hr; [lia|]. cbn.
  destruct (members !! id) as [x|] eqn:Hid; [|done]. apply IH; [|apply Z.mod_pos_bound; lia].
  destruct k as [|k].
  - rewrite Z.add_0_r, Z.mod_small in Hm by done. congruence.
  - exists k. split; [lia|]. rewrite Zplus_mod_idemp_l. rewrite <- Hm. f_equal. f_equal. lia.
Qed.

(** Some id of [size + 1] consecutive ones is free. *)
Lemma free_among members id :
  Z.of_nat (size members) < 2 ^ 32 →
  ∃ k, (k < S (size (members : gmap Z MemberRecord)))%nat ∧ members !! ((id + Z.of_nat k) mod 2 ^ 32) = None.
Proof.
  intros Hs. set (f := λ k : nat, (id + Z.of_nat k) mod 2 ^ 32).
  destruct (decide (Forall (λ k, members !! f k ≠ None) (seq 0 (S (size members))))) as [Hall|Hn].
  - exfalso. assert (NoDup (f <$> seq 0 (S (size members)))) as Hnd.
    { apply NoDup_fmap_2_strong; [|apply NoDup_seq]. intros x y Hx%elem_of_seq Hy%elem_of_seq Hf. unfold f in Hf.
      pose proof (Z.div_mod (id + Z.of_nat x) (2 ^ 32)). pose proof (Z.div_mod (id + Z.of_nat y) (2 ^ 32)). lia. }
    assert (list_to_set (f <$> seq 0 (S (size members))) ⊆ dom members) as Hsub.
    { intros x Hx%elem_of_list_to_set. apply list_elem_of_fmap in Hx as (k & -> & Hk).
      rewrite Forall_forall in Hall. apply elem_of_dom, not_eq_None_Some. exact (Hall k Hk). }
    apply subseteq_size in Hsub. rewrite size_list_to_set, length_fmap, length_seq, size_dom in Hsub by done. lia.
  - apply not_Forall_Exists in Hn; [|apply _]. apply Exists_exists in Hn as (k & Hk%elem_of_seq & Hm).
    exists k. split; [lia|]. destruct (members !! f k) eqn:E; [|exact E]. exfalso. apply Hm. cbn. by rewrite E.
Qed.

(** The loop of [member_by_name_mut] ends on a free id within its fuel. *)
Lemma next_free_found members id :
  Z.of_nat (size (members : gmap Z MemberRecord)) < 2 ^ 32 → u_range 32 id →
  members !! next_free (S (size members)) members id = None ∧ u_range 32 (next_free (S (size members)) members id).
Proof. intros. apply next_free_spec; [by apply free_among|done]. Qed.

(** ** Records by name *)

(** Ids are keys, names are unique, and no id reaches the counter. *)
Definition registry_inv (r : Registry) : Prop :=
  (∀ id m, rg_members r !! id = Some m → mr_node_id m = id ∧ 0 ≤ id < rg_next_node_id r) ∧
  (∀ i j m m', rg_members r !! i = Some m → rg_members r !! j = Some m' → mr_name m = mr_name m' → i = j) ∧
  1 ≤ rg_next_node_id r.

Lemma by_name_some r name m : by_name r name = Some m → mr_name m = name ∧ ∃ id, rg_members r !! id = Some m.
Proof.
  intros [Hin Heq]%List.find_some. apply String.eqb_eq in Heq. split; [done|].
  apply list_elem_of_In, elem_of_bt_values in Hin. done.
Qed.

Lemma by_name_none r name : by_name r name = None → ∀ id m, rg_members r !! id = Some m → mr_name m ≠ name.
Proof.
  intros Hn id m Hm Hname. pose proof (List.find_none _ _ Hn m) as Hf. cbn in Hf.
  rewrite Hname, String.eqb_refl in Hf. discriminate Hf. apply list_elem_of_In, elem_of_bt_values. eauto.
Qed.

Lemma by_name_unique r name id m :
  registry_inv r → rg_members r !! id = Some m → mr_name m = name → by_name r name = Some m.
Proof.
  intros (Hk & Hu & _) Hm Hname. destruct (by_name r name) as [m'|] eqn:Hb.
  - apply by_name_some in Hb as (Hn' & id' & Hm'). assert (id' = id) as -> by (eapply Hu; [done..|congruence]). congruence.
  - by destruct (by_name_none _ _ Hb _ _ Hm).
Qed.

Lemma set_name_role_id name role m : mr_node_id (set_name_role name role m) = mr_node_id m.
Proof. done. Qed.

(** Deleting a record, as the admin operations do. *)
Definition delete_member (id : Z) (r : Registry) : Registry := set_members (delete id (rg_members r)) r.

(** The id a join by this name works on. *)
Definition join_id (r : Registry) (name : string) : Z :=
  match id_of r name with
  | Some id => id
  | None => next_free (S (size (rg_members r))) (rg_members r) (Z.max (rg_next_node_id r) 1)
  end.

Lemma fresh_id r : registry_inv r → rg_members r !! rg_next_node_id r = None.
Proof. intros (Hk & _ & _). destruct (rg_members r !! rg_next_node_id r) eqn:E; [|done]. apply Hk in E. lia. Qed.

Lemma join_id_new r name : registry_inv r → id_of r name = None → join_id r name = rg_next_node_id r.
Proof.
  intros Hi Hn. unfold join_id. rewrite Hn. pose proof Hi as (_ & _ & Hpos). rewrite Z.max_l by lia. cbn.
  by rewrite fresh_id.
Qed.

Lemma member_by_name_inv r name role now :
  registry_inv r → rg_next_node_id r < u32_max →
  let '(r', m) := member_by_name_mut r name role now in
  registry_inv r' ∧ rg_members r' !! join_id r name = Some m ∧ mr_node_id m = join_id r name ∧ mr_name m = name ∧
  join_id r name < rg_next_node_id r' ∧ rg_next_node_id r ≤ rg_next_node_id r' ∧
  (∀ id, id ≠ join_id r name → rg_members r' !! id = rg_members r !! id) ∧
  dom (rg_members r') = {[join_id r name]} ∪ dom (rg_members r).
Proof.
  intros Hi Hlt. unfold member_by_name_mut. fold (join_id r name). set (id := join_id r name).
  pose proof Hi as (Hk & Hu & Hpos).
  assert (0 ≤ id ∧ id ≤ rg_next_node_id r ∧ mr_node_id (default (record_new id name role now) (rg_members r !! id)) = id ∧
          ∀ j m, rg_members r !! j = Some m → mr_name m = name → j = id) as (H0 & Hle & Hmid & Hnm).
  { destruct (id_of r name) as [x|] eqn:Hx.
    - assert (id = x) as -> by (unfold id, join_id; by rewrite Hx).
      unfold id_of in Hx. destruct (by_name r name) as [m|] eqn:Hb; [|done]. cbn in Hx. injection Hx as <-.
      apply by_name_some in Hb as (Hn & i & Hm). destruct (Hk _ _ Hm) as [-> ?]. rewrite Hm. cbn.
      split; [lia|]. split; [lia|]. split; [by apply Hk in Hm as [? _]|]. intros j m' Hj Hn'. eapply Hu; [done..|congruence].
    - assert (id = rg_next_node_id r) as -> by by apply join_id_new. rewrite fresh_id by done. cbn.
      split; [lia|]. split; [lia|]. split; [done|]. intros j m Hj Hn. exfalso.
      unfold id_of in Hx. destruct (by_name r name) eqn:Hb; [done|]. by apply (by_name_none _ _ Hb _ _ Hj). }
  unfold member_mut; cbn. unfold u32_max, sat_add in *. rewrite (Z.min_r _ (id + 1)) by lia.
  split; [split; [|split]|].
  - intros j m. cbn. rewrite lookup_insert_Some. intros [[<- <-]|[? Hm]]; [split; [done|lia]|].
    apply Hk in Hm as [? ?]. split; [done|lia].
  - intros i j m m'. cbn. rewrite !lookup_insert_Some. intros [[<- <-]|[? Hm]] [[<- <-]|[? Hm']] Hn; cbn in Hn; try done.
    + symmetry. eapply Hnm; [exact Hm'|done].
    + eapply Hnm; [exact Hm|done].
    + by eapply Hu.
  - cbn. lia.
  - rewrite lookup_insert_eq. split; [done|]. split; [done|]. split; [done|]. split; [lia|]. split; [lia|].
    split; [intros j Hj; by rewrite lookup_insert_ne|]. by rewrite dom_insert_L.
Qed.

(** ** The registry over time *)

(** Edits of a record keep its identity. *)
Definition keeps_identity (f : MemberRecord → MemberRecord) : Prop :=
  ∀ m, mr_node_id (f m) = mr_node_id m ∧ mr_name (f m) = mr_name m.

(** What the coordinator does to the registry, with the set of all ids ever
    handed out. *)
Inductive reg_step : Registry * gset Z → Registry * gset Z → Prop :=
| rs_join r H name role now :
    rg_next_node_id r < u32_max →
    reg_step (r, H) ((member_by_name_mut r name role now).1, {[join_id r name]} ∪ H)
| rs_edit r H id f : keeps_identity f → reg_step (r, H) (set_members (alter f id (rg_members r)) r, H)
| rs_delete r H id : reg_step (r, H) (delete_member id r, H)
| rs_note_gen r H gen : reg_step (r, H) ((note_gen r gen).1, H).

Definition history_inv (p : Registry * gset Z) : Prop :=
  registry_inv p.1 ∧ dom (rg_members p.1) ⊆ p.2 ∧ ∀ id, id ∈ p.2 → id < rg_next_node_id p.1.

Lemma alter_identity (ms : gmap Z MemberRecord) id f j m :
  keeps_identity f → alter f id ms !! j = Some m → ∃ m0, ms !! j = Some m0 ∧ mr_node_id m = mr_node_id m0 ∧ mr_name m = mr_name m0.
Proof.
  intros Hf Hm. destruct (decide (id = j)) as [->|Hne].
  - rewrite lookup_alter_eq in Hm. apply fmap_Some in Hm as (m0 & Hm0 & ->). exists m0. split; [done|]. apply Hf.
  - rewrite lookup_alter_ne in Hm by done. eauto.
Qed.

Lemma reg_step_inv p q : reg_step p q → history_inv p → history_inv q.
Proof.
  destruct 1 as [r H name role now Hlt|r H id f Hf|r H id|r H gen]; intros (Hi & Hd & Hh); cbn in *.
  - pose proof (member_by_name_inv r name role now Hi Hlt) as Hj.
    destruct (member_by_name_mut r name role now) as [r' m]. destruct Hj as (Hi' & _ & _ & _ & H1 & H2 & _ & Hdom).
    split; [done|]. cbn in *. rewrite Hdom. split; [set_solver|]. intros id [->%elem_of_singleton|Hin]%elem_of_union; [done|].
    apply Hh in Hin. lia.
  - destruct Hi as (Hk & Hu & Hpos). split; [split; [|split; [|done]]|split; [|done]]; cbn.
    + intros j m (m0 & Hm & -> & _)%alter_identity; [|done]. by apply Hk.
    + intros i j m m' Hm Hm' Hn. apply alter_identity in Hm as (m0 & Hm & _ & En), Hm' as (m1 & Hm' & _ & En'); [|done..].
      eapply Hu; [done..|congruence].
    + intros j [m (m0 & Hm & _)%alter_identity]%elem_of_dom; [|done]. apply Hd, elem_of_dom. eauto.
  - destruct Hi as (Hk & Hu & Hpos). split; [split; [|split; [|done]]|split; [|done]]; cbn.
    + intros j m [_ Hm]%lookup_delete_Some. by apply Hk.
    + intros i j m m' [_ Hm]%lookup_delete_Some [_ Hm']%lookup_delete_Some. by apply Hu.
    + rewrite dom_delete_L. set_solver.
  - unfold note_gen. case_on; done.
Qed.

Lemma history_reach uuid p : rtc reg_step (registry_new uuid, ∅) p → history_inv p.
Proof.
  apply (rtc_inv_preserved reg_step history_inv); [apply reg_step_inv|]. split; [|split; [cbn; set_solver|set_solver]].
  split; [by intros ? ? ?|]. split; [by intros ? ? ? ? ?|]. cbn. lia.
Qed.

(** Ids are identities: whatever joins, edits and deletions came before,
    a name without a record gets an id never handed out to anyone, also to no
    deleted member, and a name with a record keeps its id. *)
Theorem node_ids_never_reused uuid r H name role now :
  rtc reg_step (registry_new uuid, ∅) (r, H) → rg_next_node_id r < u32_max →
  let '(r', m) := member_by_name_mut r name role now in
  (id_of r name = None → mr_node_id m ∉ H) ∧
  (∀ id, id_of r name = Some id → mr_node_id m = id) ∧
  id_of r' name = Some (mr_node_id m) ∧
  ∀ id, id ≠ mr_node_id m → rg_members r' !! id = rg_members r !! id.
Proof.
  intros (Hi & Hd & Hh)%history_reach Hlt. cbn in *. pose proof (member_by_name_inv r name role now Hi Hlt) as Hj.
  destruct (member_by_name_mut r name role now) as [r' m].
  destruct Hj as (Hi' & Hm & Hid & Hn & _ & _ & Hother & _). rewrite Hid.
  split; [|split; [|split; [|done]]].
  - intros Hnone. rewrite join_id_new by done. intros Hin%Hh. lia.
  - intros id He. unfold join_id. by rewrite He.
  - unfold id_of. erewrite by_name_unique; [|done|exact Hm|done]. cbn. by rewrite Hid.
Qed.

(** ** Registrations per prefix *)

Section owners.
Context `{O : IpNetOps, !IpNetLaws O}.

(** Every enabled registration, member by member. *)
Definition registrations (r : Registry) : list (Z * RouteReg) :=
  p ← bt_iter (rg_members r); if mr_disabled p.2 then [] else (λ x, (p.1, x)) <$> mr_routes p.2.

Definition same_prefix (k : string) (q : Z * RouteReg) : bool := String.eqb (net_to_string (rr_cidr q.2)) k.

Lemma add_routes_flat ps m :
  foldl add_routes m ps =
  foldl (λ m q, add_route q.1 m q.2) m (p ← ps; if mr_disabled p.2 then [] else (λ x, (p.1, x)) <$> mr_routes p.2).
Proof.
  revert m. induction ps as [|p ps IH]; intros m; [done|]. cbn [foldl]. rewrite IH. cbn. rewrite foldl_app. f_equal.
  unfold add_routes. destruct (mr_disabled p.2); [done|]. generalize (mr_routes p.2) as rs, m as m0.
  induction rs as [|x rs IHr]; intros m0; [done|]. cbn. apply IHr.
Qed.

Lemma add_route_lookup id m x k :
  add_route id m x !! k =
  if String.eqb (net_to_string (rr_cidr x)) k
  then Some ((default (rr_cidr x, []) (m !! k)).1, (default (rr_cidr x, []) (m !! k)).2 ++ [(id, rr_first_granted_unix x)])
  else m !! k.
Proof.
  unfold add_route. destruct (String.eqb_spec (net_to_string (rr_cidr x)) k) as [<-|Hne];
    [by rewrite lookup_insert_eq|by rewrite lookup_insert_ne].
Qed.

Lemma by_cidr_lookup qs k :
  foldl (λ m q, add_route q.1 m q.2) ∅ qs !! k =
  match List.filter (same_prefix k) qs with
  | [] => None
  | q :: qs' => Some (rr_cidr q.2, (λ q, (q.1, rr_first_granted_unix q.2)) <$> q :: qs')
  end.
Proof.
  induction qs as [|q qs IH] using rev_ind; [done|].
  rewrite foldl_snoc, List.filter_app, add_route_lookup, IH. cbn [List.filter]. fold (same_prefix k q).
  destruct (same_prefix k q); [|by rewrite app_nil_r].
  destruct (List.filter _ qs) as [|q0 qs0]; [done|]. cbn. by rewrite fmap_app.
Qed.

Lemma elem_of_registrations r id x :
  (id, x) ∈ registrations r ↔ ∃ m, rg_members r !! id = Some m ∧ mr_disabled m = false ∧ x ∈ mr_routes m.
Proof.
  unfold registrations. rewrite list_elem_of_bind. split.
  - intros ([i m] & Hin & Hm%elem_of_bt_iter). cbn in Hin. destruct (mr_disabled m) eqn:Hd; [by apply elem_of_nil in Hin|].
    apply list_elem_of_fmap in Hin as (x' & ? & Hx). simplify_eq. eauto.
  - intros (m & Hm & Hd & Hx). exists (id, m). rewrite elem_of_bt_iter. cbn. rewrite Hd. split; [|done].
    apply list_elem_of_fmap. eauto.
Qed.

(** The registrants of a prefix, oldest first. *)
Definition registrants (r : Registry) (cidr : IpNet) : list (Z * Z) :=
  sort_by_key by_age ((λ q, (q.1, rr_first_granted_unix q.2)) <$>
    List.filter (same_prefix (net_to_string cidr)) (registrations r)).

Lemma elem_of_registrants r cidr id t :
  (id, t) ∈ registrants r cidr ↔
  ∃ m, rg_members r !! id = Some m ∧ mr_disabled m = false ∧ mkRouteReg cidr t ∈ mr_routes m.
Proof.
  unfold registrants. rewrite elem_of_sort_by_key, list_elem_of_fmap. split.
  - intros ([i x] & ? & Hin). simplify_eq/=. rewrite elem_of_filter_b, elem_of_registrations in Hin.
    destruct Hin as [Hk%String.eqb_eq%net_to_string_inj (m & Hm & Hd & Hx)]. cbn in Hk. exists m. destruct x; cbn in *. by subst.
  - intros (m & Hm & Hd & Hx). exists (id, mkRouteReg cidr t). split; [done|].
    rewrite elem_of_filter_b, elem_of_registrations. split; [apply String.eqb_refl|eauto].
Qed.

(** [resolve_owners] lists every prefix someone registers, once, with its
    registrants oldest first. *)
Lemma elem_of_resolve_owners r cidr regs :
  (cidr, regs) ∈ resolve_owners r ↔ regs = registrants r cidr ∧ regs ≠ [].
Proof.
  unfold resolve_owners. rewrite elem_of_sort_by_key, list_elem_of_fmap, add_routes_flat.
  fold (registrations r). setoid_rewrite elem_of_bt_values. setoid_rewrite by_cidr_lookup. split.
  - intros ([c l] & ? & k & Hk). simplify_eq/=. destruct (List.filter (same_prefix k) (registrations r)) as [|q qs] eqn:Hf; [done|].
    injection Hk as <- <-.
    assert (same_prefix k q = true) as Hq%String.eqb_eq.
    { assert (q ∈ List.filter (same_prefix k) (registrations r)) as Hin by (rewrite Hf; left).
      by apply elem_of_filter_b in Hin as [? _]. }
    unfold registrants. rewrite Hq, Hf. split; [done|].
    intros He. apply (f_equal length) in He. rewrite (Permutation_length (sort_by_key_perm _ _)) in He. done.
  - intros [-> Hne]. unfold registrants in *.
    set (fl := List.filter (same_prefix (net_to_string cidr)) (registrations r)) in *.
    exists (cidr, (λ q, (q.1, rr_first_granted_unix q.2)) <$> fl). split; [done|]. exists (net_to_string cidr). fold fl.
    destruct fl as [|q qs] eqn:Hf; [done|]. do 2 f_equal.
    assert (same_prefix (net_to_string cidr) q = true) as Hq%String.eqb_eq.
    { assert (q ∈ fl) as Hin by (rewrite Hf; left). unfold fl in Hin. by apply elem_of_filter_b in Hin as [? _]. }
    by apply net_to_string_inj.
Qed.
End owners.

Module RegistryExample.
Definition r1 : Registry := (member_by_name_mut (registry_new "u") "a" Client 10).1.
Definition r2 : Registry := delete_member 1 r1.
Lemma reach : rtc reg_step (registry_new "u", ∅) (r2, {[1]} ∪ ∅).
Proof.
  eapply rtc_l; [apply (rs_join _ _ "a" Client 10); by_decide|]. eapply rtc_once. apply (rs_delete _ _ 1).
Qed.
End RegistryExample.

Lemma node_ids_never_reused_witness :
  let '(r', m) := member_by_name_mut RegistryExample.r2 "a" Client 20 in mr_node_id m ∉ ({[1]} ∪ ∅ : gset Z).
Proof.
  apply (node_ids_never_reused "u" RegistryExample.r2 ({[1]} ∪ ∅) "a" Client 20).
  - apply RegistryExample.reach.
  - by_decide.
  - vm_compute. reflexivity.
Defined.
