(* ===== verification/Directory.v ===== *)
(** * The directory (crates/nqvpn-coord/src/directory.rs)

    The derived, generation-numbered view: registry, leases and configuration
    in, a published [Snapshot] and the ring of recent deltas out. *)

From S2P Require Import Prelude Ordered Ipnet Control Config Registry Leases.

Definition RING : nat := 512.
Definition MIN_TUNNEL_MTU : Z := 1280.
Definition TRAFFIC_RETENTION_SECS : Z := 300.
Definition MTU_QUANTUM : Z := 8.

(** crates/nqvpn-coord/src/reach.rs *)
Inductive Reachability : Set := Unknown | Reachable | Unreachable.

Record TrafficSample := mkTrafficSample {
  tsm_at : Z;
  tsm_report : TrafficReport;
  tsm_prev_at : Z;
  tsm_prev : option (gmap Z (Z * Z));
}.

Definition rate (s : TrafficSample) (link : LinkTraffic) (tx : bool) : Z :=
  match tsm_prev s with
  | Some prev =>
      if tsm_prev_at s <? tsm_at s then
        let before := match prev !! lt_peer_id link with Some p => if tx then p.1 else p.2 | None => 0 end in
        let now := if tx then lt_tx_bytes link else lt_rx_bytes link in
        (now ⊖ before) / (tsm_at s - tsm_prev_at s)
      else 0
  | None => 0
  end.

Definition quantize_mtu (reported ceiling : Z) : Z :=
  let v := Z.min reported ceiling in
  let v := if v <? ceiling then v - v mod MTU_QUANTUM else v in
  Z.max v MIN_TUNNEL_MTU.

Record Directory := mkDirectory {
  dir_gen : Z;
  dir_published : Snapshot;
  dir_published_digest : Z;
  dir_ring : list Delta;
  dir_owners : gmap string Z;
  dir_hold_down_secs : Z;
  dir_reachability : gmap Z Reachability;
  dir_reported_mtu : gmap Z Z;
  dir_traffic : gmap Z TrafficSample;
  dir_exit_readiness : gmap Z ExitReadiness;
}.

Definition directory_new (enc : Snapshot → list Z) (initial_gen hold_down_secs : Z) : Directory :=
  let published := with_gen initial_gen snapshot_default in
  mkDirectory initial_gen published (digest enc published) [] ∅ hold_down_secs ∅ ∅ ∅ ∅.

Definition set_owners (owners : gmap string Z) (d : Directory) : Directory :=
  mkDirectory (dir_gen d) (dir_published d) (dir_published_digest d) (dir_ring d) owners (dir_hold_down_secs d)
    (dir_reachability d) (dir_reported_mtu d) (dir_traffic d) (dir_exit_readiness d).

(** ** Owners *)

(** The owner of one prefix, from its live registrants (oldest first) and the
    owner so far. *)
Definition choose_owner (l : Leases) (hold_down now : Z) (current best : option Z) : option Z :=
  match current, best with
  | Some cur, Some best =>
      if cur =? best then Some cur else
      if is_online l cur then
        let since := default 0 (online_since l best) / 1000 in
        if hold_down <=? now ⊖ since then Some best else Some cur
      else Some best
  | _, best => best
  end.

Section directory.
Context `{O : IpNetOps}.

Definition live_of (l : Leases) (regs : list (Z * Z)) : list Z := fst <$> List.filter (λ p, is_online l p.1) regs.

Definition resolve_one (l : Leases) (hold_down now : Z) (owners : gmap string Z)
    (m : gmap string Z) (p : IpNet * list (Z * Z)) : gmap string Z :=
  let key := net_to_string p.1 in
  match choose_owner l hold_down now (owners !! key) (head (live_of l p.2)) with
  | Some o => <[key := o]> m
  | None => m
  end.

Definition dir_resolve_owners (d : Directory) (reg : Registry) (l : Leases) (now : Z) : Directory :=
  set_owners (foldl (resolve_one l (dir_hold_down_secs d) now (dir_owners d)) ∅ (resolve_owners reg)) d.

(** ** The MTU of the network *)

Definition limit_mtu (st : Z * string) (p : Z * Z) : Z * string :=
  if (0 <? p.2) && (p.2 <? st.1) then (p.2, ("#" +:+ pretty p.1)%string) else st.

Definition network_mtu (d : Directory) (ceiling : Z) : NetworkMtu :=
  let '(best, who) := foldl limit_mtu (ceiling, "config"%string) (bt_iter (dir_reported_mtu d)) in
  mkNetworkMtu (Z.max best MIN_TUNNEL_MTU) who.

(** ** The fleet *)

Definition relay_entry (reg : Registry) (name : string) (m : MemberCfg) : option RelayEndpoint :=
  rec ← by_name reg name;
  if mr_disabled rec || negb (bool_decide (mr_role rec = Relay)) then None else
  addr ← (match mr_relay_addr rec, mc_relay_addr m with
          | _, Some c => if String.prefix "auto:" c then mr_relay_addr rec else Some c
          | Some r, None => Some r
          | None, None => None
          end);
  fp ← mr_cert_fp rec;
  Some (mkRelayEndpoint (mr_node_id rec) name addr fp).

Definition relay_endpoints (cfg : NetworkConfig) (reg : Registry) : list RelayEndpoint :=
  sort_by_key re_relay_id (omap (λ p : string * MemberCfg, relay_entry reg p.1 p.2) (bt_iter (nc_relays cfg))).

(** ** The view *)

Definition opt_list {A} (o : option A) : list A := match o with Some a => [a] | None => [] end.

(** The specific prefixes [id] owns, in the order of the owners map. *)
Definition owned_prefixes (owners : gmap string Z) (id : Z) : list IpNet :=
  omap (λ p : string * Z,
    if p.2 =? id then
      net ← net_parse p.1; if negb (net_prefix_len net =? 0) then Some net else None
    else None) (bt_iter owners).

Definition add_default (exit_ready : bool) (prefixes : list IpNet) (r : RouteReg) : list IpNet :=
  if (net_prefix_len (rr_cidr r) =? 0) && exit_ready && negb (bool_decide (rr_cidr r ∈ prefixes))
  then prefixes ++ [rr_cidr r] else prefixes.

Definition member_prefixes (d : Directory) (id : Z) (rec : MemberRecord) : list IpNet :=
  let prefixes := ((λ a, Net4 a 32) <$> opt_list (mr_ip4 rec)) ++ ((λ a, Net6 a 128) <$> opt_list (mr_ip6 rec))
                  ++ owned_prefixes (dir_owners d) id in
  let exit_ready := match dir_exit_readiness d !! id with Some r => exit_ok r | None => false end in
  sort_by_key net_to_string (foldl (add_default exit_ready) prefixes (mr_routes rec)).

Definition member_info (d : Directory) (l : Leases) (p : Z * MemberRecord) : option PeerInfo :=
  let '(id, rec) := p in
  if mr_disabled rec then None else
  Some (mkPeerInfo id (mr_name rec) (mr_role rec) (member_prefixes d id rec)
          (default ""%string (mr_pubkey rec)) (is_online l id) (mr_login_gen rec)).

Definition enabled (reg : Registry) (n : Z) : bool :=
  match rg_members reg !! n with Some m => negb (mr_disabled m) | None => false end.

Definition reserved_of (cfg : NetworkConfig) (reg : Registry) : list IpNet :=
  nc_cidrs cfg ++
  (m ← List.filter (λ m, negb (mr_disabled m)) (bt_values (rg_members reg));
   List.filter (λ c, negb (net_prefix_len c =? 0)) (rr_cidr <$> mr_routes m)).

(** The view of the current facts, at the directory's generation. *)
Definition next_view (d : Directory) (cfg : NetworkConfig) (reg : Registry) (l : Leases) (keys : list KeyInfo) : Snapshot :=
  normalize (mkSnapshot (dir_gen d)
    (omap (member_info d l) (bt_iter (rg_members reg)))
    ((λ p, mkAttachmentEntry p.1 p.2) <$>
       List.filter (λ p : Z * Z, enabled reg p.1 && enabled reg p.2) (bt_iter (attachments l)))
    (relay_endpoints cfg reg)
    (network_mtu d (sc_mtu (nc_settings cfg)))
    keys
    (reserved_of cfg reg)).

Definition push_ring (ring : list Delta) (delta : Delta) : list Delta :=
  let ring := ring ++ [delta] in drop (length ring - RING) ring.

Definition recompute (enc : Snapshot → list Z) (d : Directory) (cfg : NetworkConfig) (reg : Registry) (l : Leases)
    (keys : list KeyInfo) (now now_ms : Z) : Directory * option Delta :=
  let d := dir_resolve_owners d reg l now in
  let next := next_view d cfg reg l keys in
  if decide (next = dir_published d) then (d, None) else
  let next := with_gen (Z.max (dir_gen d ⊕ 1) now_ms) next in
  let delta := diff (dir_published d) next in
  (mkDirectory (s_gen next) next (digest enc next) (push_ring (dir_ring d) delta) (dir_owners d)
     (dir_hold_down_secs d) (dir_reachability d) (dir_reported_mtu d) (dir_traffic d) (dir_exit_readiness d),
   Some delta).

(** ** Catching up *)

Fixpoint skip_to (have_gen : Z) (ring : list Delta) : option (list Delta) :=
  match ring with
  | [] => None
  | d :: ring' => if d_base_gen d =? have_gen then Some ring else skip_to have_gen ring'
  end.

Fixpoint contiguous (expect : Z) (chain : list Delta) : option Z :=
  match chain with
  | [] => Some expect
  | d :: chain' => if negb (d_base_gen d =? expect) then None else contiguous (d_gen d) chain'
  end.

Definition deltas_since (d : Directory) (have_gen : Z) : option (list Delta) :=
  if have_gen =? dir_gen d then Some [] else
  chain ← skip_to have_gen (dir_ring d);
  expect ← contiguous have_gen chain;
  if expect =? dir_gen d then Some chain else None.

(** ** Traffic *)

(** [links.retain]: known peers, each once, at most [max_links]. *)
Fixpoint retain_links (known : Z → bool) (max_links : nat) (seen : gset Z) (links : list LinkTraffic) : list LinkTraffic :=
  match links with
  | [] => []
  | l :: ls =>
      if ((size seen <? max_links)%nat && known (lt_peer_id l)) && negb (bool_decide (lt_peer_id l ∈ seen))
      then l :: retain_links known max_links ({[lt_peer_id l]} ∪ seen) ls
      else retain_links known max_links seen ls
  end.

Definition dir_prune_traffic (d : Directory) (now : Z) : Directory :=
  mkDirectory (dir_gen d) (dir_published d) (dir_published_digest d) (dir_ring d) (dir_owners d) (dir_hold_down_secs d)
    (dir_reachability d) (dir_reported_mtu d)
    (filter (λ p : Z * TrafficSample, now ⊖ tsm_at p.2 ≤ TRAFFIC_RETENTION_SECS) (dir_traffic d)) (dir_exit_readiness d).

Definition record_traffic (d : Directory) (relay : Z) (report : TrafficReport) (now : Z) (known : Z → bool) (max_links : nat)
    : Directory :=
  let report := mkTrafficReport (retain_links known max_links ∅ (tr_links report)) (tr_local_bytes report)
                  (tr_local_pkts report) (tr_terminated_bytes report) (tr_terminated_pkts report) in
  let '(prev, prev_at) :=
    match dir_traffic d !! relay with
    | Some s => (Some (bt_collect ((λ l, (lt_peer_id l, (lt_tx_bytes l, lt_rx_bytes l))) <$> tr_links (tsm_report s))), tsm_at s)
    | None => (None, now)
    end in
  dir_prune_traffic
    (mkDirectory (dir_gen d) (dir_published d) (dir_published_digest d) (dir_ring d) (dir_owners d) (dir_hold_down_secs d)
       (dir_reachability d) (dir_reported_mtu d)
       (<[relay := mkTrafficSample now report prev_at prev]> (dir_traffic d)) (dir_exit_readiness d)) now.
End directory.

(** ** The published snapshots and the ring *)

(** Deltas applied in order, as a member applies what it receives. *)
Fixpoint apply_chain (s : Snapshot) (ds : list Delta) : Snapshot * Result unit GenerationGap :=
  match ds with
  | [] => (s, Ok tt)
  | d :: ds' => match apply s d with (s', Ok _) => apply_chain s' ds' | (s', Err e) => (s', Err e) end
  end.

(** The deltas between consecutive snapshots. *)
Fixpoint pair_diffs (snaps : list Snapshot) : list Delta :=
  match snaps with
  | a :: (b :: _) as rest => diff a b :: pair_diffs rest
  | _ => []
  end.

(** Generations strictly increase. *)
Definition gen_sorted (snaps : list Snapshot) : Prop := StronglySorted (λ a b, s_gen a < s_gen b) snaps.

Lemma pair_diffs_cons2 a b l : pair_diffs (a :: b :: l) = diff a b :: pair_diffs (b :: l).
Proof. done. Qed.

Lemma pair_diffs_snoc l a b : pair_diffs (l ++ [a; b]) = pair_diffs (l ++ [a]) ++ [diff a b].
Proof.
  induction l as [|x l IH]; [done|]. destruct l as [|y l]; [done|].
  cbn [app] in *. rewrite !pair_diffs_cons2. cbn. f_equal. exact IH.
Qed.

Lemma pair_diffs_length l : length (pair_diffs l) = pred (length l).
Proof. induction l as [|a l IH]; [done|]. destruct l; [done|]. rewrite pair_diffs_cons2. cbn [length] in *. by rewrite IH. Qed.

Lemma pair_diffs_drop i l : drop i (pair_diffs l) = pair_diffs (drop i l).
Proof.
  revert l. induction i as [|i IH]; intros l; [done|]. destruct l as [|a [|b l]]; [done|by destruct i|].
  rewrite pair_diffs_cons2. cbn [drop]. apply IH.
Qed.

Lemma last_indep {A} (a : A) l x y : List.last (a :: l) x = List.last (a :: l) y.
Proof. revert a. induction l as [|b l IH]; intros a; [done|]. exact (IH b). Qed.

Lemma chain_applies s l :
  Forall is_normal (s :: l) → gen_sorted (s :: l) → apply_chain s (pair_diffs (s :: l)) = (List.last (s :: l) s, Ok tt).
Proof.
  revert s. induction l as [|b l IH]; intros s Hn Hs; [done|]. rewrite pair_diffs_cons2. cbn [apply_chain].
  inv Hn. inv Hs. pose proof H2 as Hb. inv Hb. rewrite Forall_cons in H4.
  rewrite diff_apply by (try done; by destruct H4). rewrite IH by done. by rewrite (last_indep b l b s).
Qed.

Lemma contiguous_pair_diffs s l : contiguous (s_gen s) (pair_diffs (s :: l)) = Some (s_gen (List.last (s :: l) s)).
Proof.
  revert s. induction l as [|b l IH]; intros s; [done|]. rewrite pair_diffs_cons2. cbn [contiguous].
  change (d_base_gen (diff s b)) with (s_gen s). change (d_gen (diff s b)) with (s_gen b).
  rewrite Z.eqb_refl. cbn [negb]. rewrite IH. by rewrite (last_indep b l b s).
Qed.

(** Looking for a base generation finds the snapshot that has it, if its delta
    is in the list and it is not the last. *)
Lemma skip_to_pair_diffs snaps g :
  gen_sorted snaps →
  match skip_to g (pair_diffs snaps) with
  | Some chain => ∃ i s l, drop i snaps = s :: l ∧ l ≠ [] ∧ s_gen s = g ∧ chain = pair_diffs (s :: l)
  | None => ∀ i s l, drop i snaps = s :: l → s_gen s = g → l = []
  end.
Proof.
  induction snaps as [|a snaps IH]; intros Hs; [by intros [] ? ? ?|]. inv Hs. destruct snaps as [|b snaps].
  { intros [|i] s l Hd; cbn in Hd; [by simplify_eq|]. by destruct i. }
  rewrite pair_diffs_cons2. cbn [skip_to]. change (d_base_gen (diff a b)) with (s_gen a).
  destruct (Z.eqb_spec (s_gen a) g) as [He|Hne].
  - exists 0%nat, a, (b :: snaps). done.
  - specialize (IH H1). destruct (skip_to g (pair_diffs (b :: snaps))) as [chain|].
    + destruct IH as (i & s & l & Hd & ?). exists (S i), s, l. done.
    + intros [|i] s l Hd Hg; cbn [drop] in Hd; [simplify_eq; done|]. by eapply IH.
Qed.

(** The directory against every snapshot it ever published, oldest first. *)
Definition dir_inv (enc : Snapshot → list Z) (d : Directory) (snaps : list Snapshot) : Prop :=
  (∃ before, snaps = before ++ [dir_published d]) ∧
  dir_gen d = s_gen (dir_published d) ∧ dir_published_digest d = digest enc (dir_published d) ∧
  Forall is_normal snaps ∧ gen_sorted snaps ∧
  dir_ring d = drop (length (pair_diffs snaps) - RING) (pair_diffs snaps).

Lemma gen_sorted_snoc l x : gen_sorted l → Forall (λ s, s_gen s < s_gen x) l → gen_sorted (l ++ [x]).
Proof.
  induction 1 as [|y l Hs IH Hy]; intros Hx; cbn; [repeat constructor|]. inv Hx. constructor; [by apply IH|].
  apply Forall_app. split; [done|]. by constructor.
Qed.

Lemma gen_sorted_last l x : gen_sorted (l ++ [x]) → Forall (λ s, s_gen s < s_gen x) l.
Proof.
  induction l as [|y l IH]; cbn; [done|]. intros Hs. inv Hs. constructor; [|by apply IH].
  rewrite Forall_app, Forall_singleton in H2. apply H2.
Qed.

Lemma push_ring_drop l δ : push_ring (drop (length l - RING) l) δ = drop (length (l ++ [δ]) - RING) (l ++ [δ]).
Proof.
  unfold push_ring. rewrite !length_app, length_drop. cbn [length]. generalize RING as k. intros k.
  destruct (decide (length l ≤ k)%nat).
  - replace (length l - k)%nat with 0%nat by lia. cbn [drop]. by rewrite Nat.sub_0_r.
  - replace (length l - (length l - k) + 1 - k)%nat with 1%nat by lia.
    replace (length l + 1 - k)%nat with ((length l - k) + 1)%nat by lia.
    rewrite <- drop_drop. by rewrite (drop_app_le l) by lia.
Qed.

Lemma normal_with_gen g s : is_normal s → is_normal (with_gen g s).
Proof. done. Qed.

Lemma pair_diffs_push before p x : pair_diffs ((before ++ [p]) ++ [x]) = pair_diffs (before ++ [p]) ++ [diff p x].
Proof. rewrite <- (assoc_L (++)). cbn [app]. apply pair_diffs_snoc. Qed.

Section ring.
Context `{O : IpNetOps}.

(** What the coordinator does to a directory between publications. *)
Inductive dir_step (enc : Snapshot → list Z) : Directory * list Snapshot → Directory * list Snapshot → Prop :=
| ds_quiet d snaps cfg reg l keys now now_ms d' :
    recompute enc d cfg reg l keys now now_ms = (d', None) → dir_step enc (d, snaps) (d', snaps)
| ds_publish d snaps cfg reg l keys now now_ms d' δ :
    u_range 64 (dir_gen d + 1) →
    recompute enc d cfg reg l keys now now_ms = (d', Some δ) → dir_step enc (d, snaps) (d', snaps ++ [dir_published d'])
| ds_traffic d snaps relay rep now known k : dir_step enc (d, snaps) (record_traffic d relay rep now known k, snaps)
| ds_prune d snaps now : dir_step enc (d, snaps) (dir_prune_traffic d now, snaps)
| ds_facts d snaps reach mtu exit :
    dir_step enc (d, snaps)
      (mkDirectory (dir_gen d) (dir_published d) (dir_published_digest d) (dir_ring d) (dir_owners d)
         (dir_hold_down_secs d) reach mtu (dir_traffic d) exit, snaps).

Lemma recompute_none enc d cfg reg l keys now now_ms d' :
  recompute enc d cfg reg l keys now now_ms = (d', None) →
  d' = dir_resolve_owners d reg l now ∧ next_view d' cfg reg l keys = dir_published d.
Proof. unfold recompute. case_decide; [|done]. intros [= <-]. done. Qed.

Lemma recompute_some enc d cfg reg l keys now now_ms d' δ :
  recompute enc d cfg reg l keys now now_ms = (d', Some δ) →
  let d1 := dir_resolve_owners d reg l now in
  next_view d1 cfg reg l keys ≠ dir_published d ∧
  dir_published d' = with_gen (Z.max (dir_gen d ⊕ 1) now_ms) (next_view d1 cfg reg l keys) ∧
  dir_gen d' = Z.max (dir_gen d ⊕ 1) now_ms ∧ dir_published_digest d' = digest enc (dir_published d') ∧
  δ = diff (dir_published d) (dir_published d') ∧ dir_ring d' = push_ring (dir_ring d) δ ∧
  dir_owners d' = dir_owners d1.
Proof. unfold recompute. case_decide; [done|]. intros [= <- <-]. done. Qed.

Lemma dir_step_inv enc p q : dir_step enc p q → dir_inv enc p.1 p.2 → dir_inv enc q.1 q.2.
Proof.
  destruct 1 as [d snaps cfg reg l keys now now_ms d' Hr|d snaps cfg reg l keys now now_ms d' δ Hb Hr|d snaps relay rep now known k| |]; cbn.
  - apply recompute_none in Hr as [-> _]. done.
  - apply recompute_some in Hr as (_ & Hp & Hg & Hdg & Hδ & Hring & _).
    intros ((before & ->) & Hgen & _ & Hn & Hs & Hrg).
    assert (s_gen (dir_published d) < s_gen (dir_published d')) as Hlt.
    { rewrite Hp. cbn [with_gen s_gen]. rewrite wadd64_small by done.
      lia. }
    split; [by eexists|]. split; [by rewrite Hp, Hg|]. split; [done|]. split; [|split].
    + apply Forall_app. split; [done|]. constructor; [|constructor]. rewrite Hp. apply normal_with_gen, normalize_normal.
    + apply gen_sorted_snoc; [done|]. apply Forall_app. split; [|by constructor].
      eapply Forall_impl; [by apply gen_sorted_last|]. intros x Hx. cbn in Hx. lia.
    + rewrite Hring, Hrg, Hδ, pair_diffs_push. apply push_ring_drop.
  - unfold record_traffic. by destruct (dir_traffic d !! relay).
  - done.
  - done.
Qed.
End ring.

Lemma gen_sorted_drop i l : gen_sorted l → gen_sorted (drop i l).
Proof. revert l. induction i as [|i IH]; intros l Hs; [done|]. destruct Hs; [constructor|]. by apply IH. Qed.

Lemma gen_sorted_inj l a b : gen_sorted l → a ∈ l → b ∈ l → s_gen a = s_gen b → a = b.
Proof.
  induction 1 as [|x l Hs IH Hx]; [by intros ?%elem_of_nil|]. rewrite Forall_forall in Hx.
  intros [->|Ha]%elem_of_cons [->|Hb]%elem_of_cons Hg; [done| | |by apply IH].
  - apply Hx in Hb. lia.
  - apply Hx in Ha. lia.
Qed.

Lemma suffix_last {A} j (before : list A) p s l x : drop j (before ++ [p]) = s :: l → List.last (s :: l) x = p.
Proof.
  intros Hd. destruct (decide (j ≤ length before)%nat) as [Hj|Hj].
  - rewrite drop_app_le in Hd by done. rewrite <- Hd. apply List.last_last.
  - rewrite drop_ge in Hd by (rewrite length_app; cbn; lia). done.
Qed.

Lemma elem_of_drop_cons {A} j (l : list A) s l' : drop j l = s :: l' → s ∈ l.
Proof. intros Hd. apply (list_elem_of_lookup_2 _ j). rewrite <- (Nat.add_0_r j), <- lookup_drop, Hd. done. Qed.

Section catch_up.
Context `{O : IpNetOps}.

(** Every state of a directory a process reaches, with what it published. *)
Definition dir_reach (enc : Snapshot → list Z) (g0 hold_down : Z) (d : Directory) (snaps : list Snapshot) : Prop :=
  rtc (dir_step enc) (directory_new enc g0 hold_down, [dir_published (directory_new enc g0 hold_down)]) (d, snaps).

Lemma dir_reach_inv enc g0 hd d snaps : dir_reach enc g0 hd d snaps → dir_inv enc d snaps.
Proof.
  intros Hr. apply (rtc_inv_preserved (dir_step enc) (λ p, dir_inv enc p.1 p.2) _ _ (dir_step_inv enc)) in Hr; [done|].
  split; [by exists []|]. split; [done|]. split; [done|]. split; [|split; [|done]].
  - constructor; [|constructor]. repeat split; constructor.
  - repeat constructor.
Qed.

Lemma deltas_since_cases enc d snaps g :
  dir_inv enc d snaps → g ≠ dir_gen d →
  match deltas_since d g with
  | Some chain => ∃ j s l, drop j snaps = s :: l ∧ s_gen s = g ∧ chain = pair_diffs (s :: l)
  | None => ∀ j s l, drop j snaps = s :: l → s_gen s = g → (length snaps - 1 - RING ≤ j)%nat → l = []
  end.
Proof.
  intros ((before & Hb) & Hgen & _ & Hn & Hs & Hrg) Hne. unfold deltas_since.
  rewrite (proj2 (Z.eqb_neq _ _)) by done. rewrite Hrg, pair_diffs_drop, pair_diffs_length.
  set (k := (pred (length snaps) - RING)%nat). pose proof (skip_to_pair_diffs (drop k snaps) g (gen_sorted_drop k _ Hs)) as Hsk.
  destruct (skip_to g (pair_diffs (drop k snaps))) as [chain|]; cbn [mbind option_bind].
  - destruct Hsk as (i & s & l & Hd & _ & Hg & ->). rewrite <- Hg, contiguous_pair_diffs. cbn [mbind option_bind].
    rewrite drop_drop in Hd. rewrite Hb in Hd. rewrite (suffix_last _ _ _ _ _ s Hd), <- Hgen, Z.eqb_refl.
    exists (k + i)%nat, s, l. by rewrite Hb.
  - intros j s l Hd Hg Hj. apply (Hsk (j - k)%nat s l); [|done]. rewrite drop_drop, <- Hd. f_equal. unfold k. lia.
Qed.

(** A member that holds any view the coordinator ever published can
    be caught up exactly: whenever the ring still answers for its generation
    the chain takes its view to the current one, delta by delta without a
    gap, and the ring answers for the current and the 512 views before it. *)
Theorem catch_up_exact enc g0 hd d snaps i s :
  dir_reach enc g0 hd d snaps → snaps !! i = Some s →
  (∀ chain, deltas_since d (s_gen s) = Some chain → apply_chain s chain = (dir_published d, Ok tt)) ∧
  ((length snaps - 1 - RING ≤ i)%nat → is_Some (deltas_since d (s_gen s))).
Proof.
  intros Hinv%dir_reach_inv Hi. pose proof Hinv as ((before & Hb) & Hgen & _ & Hn & Hs & _).
  pose proof (list_elem_of_lookup_2 _ _ _ Hi) as Hin.
  assert (dir_published d ∈ snaps) as Hp by (rewrite Hb; set_solver).
  destruct (decide (s_gen s = dir_gen d)) as [He|Hne].
  { rewrite Hgen in He. apply (gen_sorted_inj snaps) in He; [|done..]. subst s. unfold deltas_since.
    rewrite <- Hgen, Z.eqb_refl. split; [intros chain [= <-]; done|by eexists]. }
  pose proof (deltas_since_cases enc d snaps (s_gen s) Hinv Hne) as Hc.
  destruct (deltas_since d (s_gen s)) as [chain|]; (split; [|try by eexists]).
  - intros ? [= <-]. destruct Hc as (j & s' & l & Hd & Hg & ->).
    assert (s' = s) as ->.
    { apply (gen_sorted_inj snaps); [done| |done|done]. by eapply elem_of_drop_cons. }
    rewrite chain_applies.
    + f_equal. rewrite Hb in Hd. by apply (suffix_last j before).
    + rewrite <- Hd. by apply Forall_drop.
    + rewrite <- Hd. by apply gen_sorted_drop.
  - done.
  - intros Hwin. exfalso. apply Hne.
    specialize (Hc i s (drop (S i) snaps) (drop_S _ _ _ Hi) eq_refl Hwin).
    assert (s = dir_published d) as ->; [|done].
    pose proof (drop_S _ _ _ Hi) as Hd. rewrite Hc, Hb in Hd. by apply (suffix_last _ _ _ _ _ s) in Hd.
Qed.
End catch_up.

(** ** Owners *)

Section ownership.
Context `{O : IpNetOps, !IpNetLaws O}.

Lemma resolve_fold l hd now owners ps k v :
  (∀ p, p ∈ ps → net_to_string p.1 = k → choose_owner l hd now (owners !! k) (head (live_of l p.2)) = v) →
  ∀ m : gmap string Z, (m !! k = v ∨ m !! k = None) →
  let res := foldl (resolve_one l hd now owners) m ps !! k in
  ((∃ p, p ∈ ps ∧ net_to_string p.1 = k) → res = v) ∧ ((∀ p, p ∈ ps → net_to_string p.1 ≠ k) → res = m !! k).
Proof.
  intros Hv m. revert m. induction ps as [|p ps IH]; intros m Hm; cbn zeta.
  { split; [by intros (p & ?%elem_of_nil & _)|done]. }
  cbn [foldl]. set (m' := resolve_one l hd now owners m p).
  assert (∀ q, q ∈ ps → net_to_string q.1 = k → choose_owner l hd now (owners !! k) (head (live_of l q.2)) = v) as Hv'
    by (intros q Hq; apply Hv; by right).
  destruct (decide (net_to_string p.1 = k)) as [Hk|Hk].
  - assert (m' !! k = v) as Hm'.
    { unfold m', resolve_one. rewrite Hk. rewrite (Hv p) by (left || done).
      destruct v; [apply lookup_insert_eq|]. by destruct Hm. }
    destruct (IH Hv' m' (or_introl Hm')) as [IH1 IH2]. split; [|intros Hall; exfalso; apply (Hall p); [left|done]].
    intros _. destruct (decide (Exists (λ q, net_to_string q.1 = k) ps)) as [Hex|Hnex].
    + apply IH1. by apply Exists_exists in Hex.
    + rewrite IH2; [done|]. intros q Hq Hkq. apply Hnex, Exists_exists. eauto.
  - assert (m' !! k = m !! k) as Hm'.
    { unfold m', resolve_one. destruct (choose_owner _ _ _ _ _); [by rewrite lookup_insert_ne|done]. }
    destruct (IH Hv' m' ltac:(by rewrite Hm')) as [IH1 IH2]. split.
    + intros (q & [->|Hq]%elem_of_cons & Hkq); [done|]. apply IH1. eauto.
    + intros Hall. rewrite IH2; [done|]. intros q Hq. apply Hall. by right.
Qed.

(** The live registrants of a prefix, oldest first. *)
Definition live_registrants (reg : Registry) (l : Leases) (cidr : IpNet) : list Z := live_of l (registrants reg cidr).

Lemma owners_lookup d reg l now cidr :
  dir_owners (dir_resolve_owners d reg l now) !! net_to_string cidr =
  if decide (registrants reg cidr = []) then None else
  choose_owner l (dir_hold_down_secs d) now (dir_owners d !! net_to_string cidr) (head (live_registrants reg l cidr)).
Proof.
  cbn. set (k := net_to_string cidr).
  pose proof (resolve_fold l (dir_hold_down_secs d) now (dir_owners d) (resolve_owners reg) k
    (choose_owner l (dir_hold_down_secs d) now (dir_owners d !! k) (head (live_registrants reg l cidr)))) as Hf.
  destruct (Hf) with (m := ∅ : gmap string Z) as [H1 H2].
  - intros [c regs] Hin Hk. apply elem_of_resolve_owners in Hin as [-> _]. cbn in *. by apply net_to_string_inj in Hk as ->.
  - right. apply lookup_empty.
  - case_decide as Hr.
    + rewrite H2; [apply lookup_empty|]. intros [c regs] Hin Hk. apply elem_of_resolve_owners in Hin as [-> Hne].
      cbn in Hk. apply net_to_string_inj in Hk as ->. done.
    + apply H1. exists (cidr, registrants reg cidr). split; [|done]. by apply elem_of_resolve_owners.
Qed.

(** [b] is the oldest registration of [cidr] among the members online. *)
Definition oldest_live (reg : Registry) (l : Leases) (cidr : IpNet) (b : Z) : Prop :=
  ∃ t, (b, t) ∈ registrants reg cidr ∧ is_online l b = true ∧
    ∀ b' t', (b', t') ∈ registrants reg cidr → is_online l b' = true → t < t' ∨ (t = t' ∧ b ≤ b').

Lemma filter_sorted {A} (R : A → A → Prop) (f : A → bool) l : StronglySorted R l → StronglySorted R (List.filter f l).
Proof.
  induction 1 as [|x l Hs IH Hx]; cbn; [constructor|]. destruct (f x); [|done]. constructor; [done|].
  rewrite Forall_forall in *. intros y [_ Hy]%elem_of_filter_b. by apply Hx.
Qed.

Lemma live_head reg l cidr :
  match head (live_registrants reg l cidr) with
  | Some b => oldest_live reg l cidr b
  | None => ∀ b t, (b, t) ∈ registrants reg cidr → is_online l b = false
  end.
Proof.
  unfold live_registrants, live_of.
  assert (StronglySorted (le_key by_age) (List.filter (λ p, is_online l p.1) (registrants reg cidr))) as Hs
    by apply filter_sorted, sort_by_key_sorted.
  assert (∀ p, p ∈ List.filter (λ p, is_online l p.1) (registrants reg cidr) ↔ is_online l p.1 = true ∧ p ∈ registrants reg cidr) as Hin
    by (intros; by rewrite elem_of_filter_b).
  destruct (List.filter _ _) as [|[b t] ps]; cbn.
  - intros b t Hbt. destruct (is_online l b) eqn:Ho; [|done]. exfalso. apply (not_elem_of_nil (b, t)), Hin. done.
  - inv Hs. exists t. destruct (proj1 (Hin (b, t))) as [Ho Hr]; [left|]. split; [done|]. split; [done|].
    intros b' t' Hr' Ho'. assert ((b', t') ∈ (b, t) :: ps) as [?|Hps]%elem_of_cons by by apply Hin.
    + simplify_eq. lia.
    + rewrite Forall_forall in H2. specialize (H2 _ Hps). unfold le_key, by_age in H2. cbn in H2.
      destruct (decide (t = t')) as [->|]; cbn in H2; [|rewrite ?decide_False in H2 by done]; apply Z.leb_le in H2; lia.
Qed.

(** Prefix ownership is age-resolved over the living, with damping:
    without a live registrant a prefix has no owner; if its owner is gone or
    it had none, the oldest live registrant owns it at once; and otherwise
    the owner is the oldest live registrant unless that one came back less
    than the hold-down ago, in which case the online owner stays.  An owner is
    always online. *)
Theorem prefix_owner_rule d reg l now cidr :
  let o := dir_owners (dir_resolve_owners d reg l now) !! net_to_string cidr in
  let before := dir_owners d !! net_to_string cidr in
  ((∀ b t, (b, t) ∈ registrants reg cidr → is_online l b = false) → o = None) ∧
  (∀ b, oldest_live reg l cidr b →
     ((∀ cur, before = Some cur → is_online l cur = false) → o = Some b) ∧
     (o = Some b ∨ ∃ cur, before = Some cur ∧ o = Some cur ∧ is_online l cur = true ∧
        now ⊖ (default 0 (online_since l b) / 1000) < dir_hold_down_secs d)) ∧
  (∀ x, o = Some x → is_online l x = true).
Proof.
  cbn zeta. rewrite owners_lookup. pose proof (live_head reg l cidr) as Hh.
  set (before := dir_owners d !! net_to_string cidr).
  assert (∀ b b', oldest_live reg l cidr b → oldest_live reg l cidr b' → b = b') as Huniq.
  { intros b b' (t & Hr & Ho & Hm) (t' & Hr' & Ho' & Hm'). specialize (Hm _ _ Hr' Ho'). specialize (Hm' _ _ Hr Ho). lia. }
  destruct (head (live_registrants reg l cidr)) as [b0|].
  - pose proof Hh as (t0 & Hr0 & Ho0 & _).
    rewrite decide_False by (intros E; rewrite E in Hr0; by apply elem_of_nil in Hr0).
    split; [intros Hall; rewrite (Hall _ _ Hr0) in Ho0; done|]. unfold choose_owner. split.
    + intros b Hb. apply (Huniq b0) in Hb as <-; [|done]. destruct before as [cur|]; [|naive_solver].
      destruct (Z.eqb_spec cur b0) as [->|Hne]; [naive_solver|]. destruct (is_online l cur) eqn:Hoc; [|naive_solver].
      split; [intros Hoff; rewrite (Hoff cur eq_refl) in Hoc; done|].
      destruct (Z.leb_spec (dir_hold_down_secs d) (now ⊖ (default 0 (online_since l b0) / 1000))); [by left|right].
      exists cur. done.
    + intros x. destruct before as [cur|]; [|intros [= <-]; done].
      destruct (Z.eqb_spec cur b0) as [->|Hne]; [intros [= <-]; done|].
      destruct (is_online l cur) eqn:Hoc; [|intros [= <-]; done]. destruct (_ <=? _); intros [= <-]; done.
  - assert ((if decide (registrants reg cidr = []) then None else choose_owner l (dir_hold_down_secs d) now before None) = None) as ->.
    { case_decide; [done|]. unfold choose_owner. by destruct before. }
    split; [done|]. split; [|done]. intros b (t & Hr & Ho & _). by rewrite (Hh _ _ Hr) in Ho.
Qed.
End ownership.

(** ** Generations across restarts *)

(** A coordinator process over one network: what is on disk, and what is in
    memory while it runs (directory and registry). *)
Record CoordProc := mkCoordProc { cp_disk : Registry; cp_mem : option (Directory * Registry) }.

Section generations.
Context `{O : IpNetOps}.

(** Starting, publishing (the mark saved before the delta leaves), committing
    other registry changes, and crashing at any point; with the generations
    handed out, newest first. *)
Inductive gen_step (enc : Snapshot → list Z) : CoordProc * list Z → CoordProc * list Z → Prop :=
| gs_start r gens now_ms hd :
    rg_gen_hwm r + GEN_PERSIST_STEP < 2 ^ 64 →
    gen_step enc (mkCoordProc r None, gens)
      (mkCoordProc r (Some (directory_new enc (initial_gen r now_ms) hd, r)), gens)
| gs_publish r d reg gens cfg l keys now now_ms d' δ :
    u_range 64 (dir_gen d + 1) → dir_gen d' + GEN_PERSIST_STEP < 2 ^ 64 →
    recompute enc d cfg reg l keys now now_ms = (d', Some δ) →
    gen_step enc (mkCoordProc r (Some (d, reg)), gens)
      (mkCoordProc (if (note_gen reg (dir_gen d')).2 then (note_gen reg (dir_gen d')).1 else r)
         (Some (d', (note_gen reg (dir_gen d')).1)), dir_gen d' :: gens)
| gs_quiet r d reg gens cfg l keys now now_ms d' :
    recompute enc d cfg reg l keys now now_ms = (d', None) →
    gen_step enc (mkCoordProc r (Some (d, reg)), gens) (mkCoordProc r (Some (d', reg)), gens)
| gs_commit r d reg reg' gens :
    rg_gen_hwm reg' = rg_gen_hwm reg →
    gen_step enc (mkCoordProc r (Some (d, reg)), gens) (mkCoordProc reg' (Some (d, reg')), gens)
| gs_crash r m gens : gen_step enc (mkCoordProc r m, gens) (mkCoordProc r None, gens).

Definition gen_inv (p : CoordProc * list Z) : Prop :=
  let '(cp, gens) := p in
  0 ≤ rg_gen_hwm (cp_disk cp) ∧ StronglySorted Z.gt gens ∧ Forall (λ g, g < rg_gen_hwm (cp_disk cp)) gens ∧
  match cp_mem cp with
  | Some (d, reg) => rg_gen_hwm reg = rg_gen_hwm (cp_disk cp) ∧ Forall (λ g, g ≤ dir_gen d) gens
  | None => True
  end.

Lemma note_gen_hwm reg g :
  0 ≤ rg_gen_hwm reg → g + GEN_PERSIST_STEP < 2 ^ 64 →
  g < rg_gen_hwm (note_gen reg g).1 ∧ rg_gen_hwm reg ≤ rg_gen_hwm (note_gen reg g).1 ∧
  ((note_gen reg g).2 = false → (note_gen reg g).1 = reg).
Proof.
  unfold note_gen, GEN_PERSIST_STEP. intros H0 Hg. destruct (Z.leb_spec (rg_gen_hwm reg) g); cbn; [|done].
  rewrite wadd64_small by lia. split; [lia|]. split; [lia|done].
Qed.

Lemma gen_step_inv enc p q : gen_step enc p q → gen_inv p → gen_inv q.
Proof.
  destruct 1 as [r gens now_ms hd Hb|r d reg gens cfg l keys now now_ms d' δ Hu Hb Hr|r d reg gens cfg l keys now now_ms d' Hr|r d reg reg' gens Hh|r m gens];
    cbn; intros (H0 & Hs & Hf & Hm).
  - repeat split; try done. eapply Forall_impl; [exact Hf|]. cbn. unfold initial_gen, GEN_PERSIST_STEP in *. intros g Hg.
    rewrite wadd64_small by lia. lia.
  - destruct Hm as [He Hle]. apply recompute_some in Hr as (_ & _ & Hg & _). rewrite wadd64_small in Hg by done.
    rewrite <- He in H0. destruct (note_gen_hwm reg (dir_gen d') H0 Hb) as (H1 & H2 & H3).
    assert (rg_gen_hwm (note_gen reg (dir_gen d')).1 =
            rg_gen_hwm (if (note_gen reg (dir_gen d')).2 then (note_gen reg (dir_gen d')).1 else r)) as Hdisk.
    { destruct (note_gen reg (dir_gen d')).2; [done|]. by rewrite H3. }
    rewrite <- Hdisk. split; [lia|]. split; [|split; [|split; [done|]]].
    + constructor; [done|]. eapply Forall_impl; [exact Hle|]. cbn. lia.
    + constructor; [done|]. eapply Forall_impl; [exact Hf|]. cbn. rewrite <- He. lia.
    + constructor; [lia|]. eapply Forall_impl; [exact Hle|]. cbn. lia.
  - apply recompute_none in Hr as [-> _]. done.
  - destruct Hm as [He Hle]. rewrite Hh, He. done.
  - done.
Qed.

(** A generation is never handed out twice, across any number of
    restarts and crashes: the generations published, over all lives of the
    coordinator and with clocks that may run backward, are strictly
    increasing. *)
Theorem generations_strictly_increase enc uuid cp gens :
  rtc (gen_step enc) (mkCoordProc (registry_new uuid) None, []) (cp, gens) → StronglySorted Z.gt gens ∧ NoDup gens.
Proof.
  intros Hr. apply (rtc_inv_preserved (gen_step enc) gen_inv) in Hr as (_ & Hs & _).
  - split; [done|]. clear -Hs. induction Hs as [|x l Hs IH Hx]; constructor; [|done].
    rewrite Forall_forall in Hx. intros Hin%Hx. lia.
  - apply gen_step_inv.
  - split; [cbn; lia|]. split; [constructor|]. split; [constructor|done].
Qed.
End generations.

(** ** What is published *)

(** A view lists a member exactly when its record is there and enabled. *)
Lemma next_view_member `{O : IpNetOps} d cfg reg l keys id :
  member (next_view d cfg reg l keys) id = rg_members reg !! id ≫= λ rec, member_info d l (id, rec).
Proof.
  unfold next_view, member. cbn [s_members normalize].
  rewrite binary_search_find by apply keep_last_sorted_sorted. rewrite find_key_keep_last.
  set (ms := omap (member_info d l) (bt_iter (rg_members reg))).
  assert (∀ p, p ∈ ms ↔ ∃ i rec, rg_members reg !! i = Some rec ∧ member_info d l (i, rec) = Some p) as Hms.
  { intros p. unfold ms. rewrite list_elem_of_omap. split.
    - intros ([i r] & Hin%elem_of_bt_iter & ?). eauto.
    - intros (i & r & ? & ?). exists (i, r). by rewrite elem_of_bt_iter. }
  assert (∀ i rec p, member_info d l (i, rec) = Some p → pi_node_id p = i) as Hid.
  { intros i rec p. cbn. destruct (mr_disabled rec); [done|]. by intros [= <-]. }
  destruct (find_key pi_node_id id (reverse ms)) as [p|] eqn:Hf.
  - apply find_key_key in Hf as [Hi Hin]. rewrite elem_of_reverse, Hms in Hin. destruct Hin as (i & rec & Hr & Hp).
    rewrite (Hid _ _ _ Hp) in Hi. subst i. by rewrite Hr.
  - destruct (rg_members reg !! id) as [rec|] eqn:Hr; [|done]. change (Some rec ≫= _) with (member_info d l (id, rec)).
    destruct (member_info d l (id, rec)) as [p|] eqn:Hp; [|done]. exfalso.
    apply (proj1 (find_key_None _ _ _) Hf p); [|by eapply Hid]. rewrite elem_of_reverse, Hms. eauto.
Qed.

Section published.
Context `{O : IpNetOps, !IpNetLaws O}.

Lemma add_defaults_len0 ready routes ps c :
  net_prefix_len c = 0 →
  c ∈ foldl (add_default ready) ps routes ↔ c ∈ ps ∨ (ready = true ∧ c ∈ rr_cidr <$> routes).
Proof.
  intros Hc. revert ps. induction routes as [|x routes IH]; intros ps; cbn [foldl].
  - cbn. rewrite elem_of_nil. naive_solver.
  - rewrite IH. unfold add_default. cbn [fmap list_fmap]. rewrite elem_of_cons.
    destruct ready; cbn [andb]; rewrite ?andb_false_r; [|naive_solver].
    destruct (Z.eqb_spec (net_prefix_len (rr_cidr x)) 0); cbn [andb]; [|naive_solver].
    case_bool_decide; cbn; [naive_solver|]. rewrite elem_of_app, list_elem_of_singleton. naive_solver.
Qed.

(** A default route leads only to working exits: whatever is published,
    a member carries 0.0.0.0/0 or ::/0 exactly when it is registered for it
    and its own last report says that forwarding and masquerading are on;
    and no default is ever in the reserved set. *)
Theorem default_route_iff_ready d cfg reg l keys id rec c :
  rg_members reg !! id = Some rec → mr_disabled rec = false → net_prefix_len c = 0 →
  (∃ m, member (next_view d cfg reg l keys) id = Some m ∧
     (c ∈ pi_prefixes m ↔ c ∈ rr_cidr <$> mr_routes rec ∧ ∃ e, dir_exit_readiness d !! id = Some e ∧ exit_ok e = true)) ∧
  (c ∈ s_reserved_prefixes (next_view d cfg reg l keys) ↔ c ∈ nc_cidrs cfg).
Proof.
  intros Hm Hd Hc. split.
  - set (P := mkPeerInfo id (mr_name rec) (mr_role rec) (member_prefixes d id rec)
              (default ""%string (mr_pubkey rec)) (is_online l id) (mr_login_gen rec)).
    exists P. split.
    + rewrite next_view_member, Hm. cbn. by rewrite Hd.
    + unfold P. cbn [pi_prefixes]. unfold member_prefixes. rewrite elem_of_sort_by_key, add_defaults_len0 by done.
      assert (c ∉ ((λ a, Net4 a 32) <$> opt_list (mr_ip4 rec)) ++ ((λ a, Net6 a 128) <$> opt_list (mr_ip6 rec))
                  ++ owned_prefixes (dir_owners d) id) as Hnot.
      { rewrite !elem_of_app, !list_elem_of_fmap. intros [(a & -> & _)|[(a & -> & _)|Hin]]; [done|done|].
        unfold owned_prefixes in Hin. apply list_elem_of_omap in Hin as ([k o] & _ & Hp). cbn in Hp.
        destruct (o =? id); [|done]. destruct (net_parse k) as [n|]; [|done]. cbn in Hp.
        destruct (Z.eqb_spec (net_prefix_len n) 0); [done|]. by injection Hp as <-. }
      destruct (dir_exit_readiness d !! id) as [e|]; naive_solver.
  - unfold next_view. cbn [s_reserved_prefixes normalize]. rewrite elem_of_normalize_prefixes.
    unfold reserved_of. rewrite elem_of_app, list_elem_of_bind. split; [|by left].
    intros [?|(m & Hin & _)]; [done|]. rewrite elem_of_filter_b in Hin. destruct Hin as [Hn _].
    by rewrite Hc in Hn.
Qed.

(** The network MTU is safe: within the IPv6 minimum and the configured
    ceiling (raised to that minimum), and never above what any member
    reported as usable, unless that is below the minimum. *)
Theorem network_mtu_safe (d : Directory) ceiling :
  let m := nm_mtu (network_mtu d ceiling) in
  MIN_TUNNEL_MTU ≤ m ≤ Z.max ceiling MIN_TUNNEL_MTU ∧
  (∀ node r, dir_reported_mtu d !! node = Some r → 0 < r → m ≤ Z.max r MIN_TUNNEL_MTU) ∧
  (∀ reported, MIN_TUNNEL_MTU ≤ quantize_mtu reported ceiling ≤ Z.max ceiling MIN_TUNNEL_MTU ∧
     (MIN_TUNNEL_MTU ≤ reported → quantize_mtu reported ceiling ≤ reported)).
Proof.
  cbn zeta. unfold network_mtu. set (l := bt_iter (dir_reported_mtu d)).
  assert (∀ ps st, (foldl limit_mtu st ps).1 ≤ st.1 ∧ ∀ p : Z * Z, p ∈ ps → 0 < p.2 → (foldl limit_mtu st ps).1 ≤ p.2) as Hfold.
  { induction ps as [|p ps IH]; intros st; [split; [done|by intros p ?%elem_of_nil]|]. cbn [foldl].
    destruct (IH (limit_mtu st p)) as [H1 H2].
    assert ((limit_mtu st p).1 ≤ st.1 ∧ (0 < p.2 → (limit_mtu st p).1 ≤ p.2)) as [H3 H4].
    { unfold limit_mtu. case_on; cbn; [lia|]. apply andb_false_iff in Heqb as [?|?]; bool_prop; lia. }
    split; [lia|]. intros q [->|Hq]%elem_of_cons Hpos; [specialize (H4 Hpos); lia|by apply H2]. }
  destruct (Hfold l (ceiling, "config"%string)) as [H1 H2]. destruct (foldl _ _ l) as [best who]. cbn in *.
  unfold MIN_TUNNEL_MTU in *. split; [lia|]. split.
  - intros node r Hr Hpos. specialize (H2 (node, r)). cbn in H2. assert (best ≤ r) by (apply H2; [by apply elem_of_bt_iter|done]). lia.
  - intros reported. unfold quantize_mtu, MTU_QUANTUM, MIN_TUNNEL_MTU.
    pose proof (Z.mod_pos_bound (Z.min reported ceiling) 8). case_on; lia.
Qed.
End published.

(** ** A small network *)

Module DirExample.
#[local] Existing Instance ipnet_ref.

Definition enc (s : Snapshot) : list Z := pi_node_id <$> s_members s.
Definition lan : IpNet := Net4 3232235776 24.
Definition dflt : IpNet := Net4 0 0.
Definition relay (id t : Z) (name : string) : MemberRecord :=
  mkMemberRecord id name Relay (Some "PK"%string) (Some "fp"%string) (Some (2 ^ 24 + id)) None
    [mkRouteReg lan t; mkRouteReg dflt t] (Some "h:1"%string) false 0 None None 1 None None.
Definition reg : Registry := mkRegistry ∅ "u" 3 (<[1 := relay 1 5 "a"]> {[2 := relay 2 9 "b"]}) 0.
Definition cfg : NetworkConfig := mkNetworkConfig "net" [Net4 (2 ^ 24) 8] settings_default
  (<["a"%string := member_cfg_default]> {["b"%string := member_cfg_default]}) ∅.
Definition l0 : Leases := (seen leases_default 2 1000).1.
Definition l1 : Leases := (seen l0 1 50000).1.

Definition d0 : Directory := directory_new enc 100 60.
Definition r1 := recompute enc d0 cfg reg l0 [] 10 90.
Definition r2 := recompute enc r1.1 cfg reg l1 [] 55 95.
Definition r3 := recompute enc r2.1 cfg reg l1 [] 200 150.
Definition snaps : list Snapshot := [dir_published d0; dir_published r1.1; dir_published r2.1; dir_published r3.1].

Lemma reach3 d1 d2 d3 x1 x2 x3 :
  recompute enc d0 cfg reg l0 [] 10 90 = (d1, Some x1) →
  recompute enc d1 cfg reg l1 [] 55 95 = (d2, Some x2) →
  recompute enc d2 cfg reg l1 [] 200 150 = (d3, Some x3) →
  u_range 64 (dir_gen d1 + 1) → u_range 64 (dir_gen d2 + 1) →
  dir_reach enc 100 60 d3 [dir_published d0; dir_published d1; dir_published d2; dir_published d3].
Proof.
  intros E1 E2 E3 U1 U2. unfold dir_reach. change [dir_published (directory_new enc 100 60)] with [dir_published d0].
  eapply rtc_l; [eapply ds_publish; [|exact E1]; by_decide|].
  eapply rtc_l; [eapply ds_publish; [|exact E2]; done|].
  eapply rtc_once. exact (ds_publish enc d2 [dir_published d0; dir_published d1; dir_published d2] _ _ _ _ _ _ _ _ U2 E3).
Qed.

Lemma snaps_reached : dir_reach enc 100 60 r3.1 snaps.
Proof.
  apply (reach3 r1.1 r2.1 r3.1 (default (diff snapshot_default snapshot_default) r1.2)
    (default (diff snapshot_default snapshot_default) r2.2) (default (diff snapshot_default snapshot_default) r3.2));
    [vm_compute; reflexivity..|by_decide|by_decide].
Qed.
End DirExample.

Lemma catch_up_exact_witness :
  ∃ chain, deltas_since (DirExample.r3).1 101 = Some chain ∧ length chain = 2%nat ∧
    apply_chain (dir_published (DirExample.r1).1) chain = (dir_published (DirExample.r3).1, Ok tt).
Proof.
  destruct (catch_up_exact DirExample.enc 100 60 (DirExample.r3).1 DirExample.snaps 1 (dir_published (DirExample.r1).1)
    DirExample.snaps_reached eq_refl) as [Hc [chain Hs]].
  - vm_compute. lia.
  - exists chain. assert (s_gen (dir_published (DirExample.r1).1) = 101) as E by (vm_compute; reflexivity).
    rewrite E in *. split; [exact Hs|]. split; [|by apply Hc].
    assert (length <$> deltas_since (DirExample.r3).1 101 = Some 2%nat) as El by (vm_compute; reflexivity).
    rewrite Hs in El. by injection El.
Defined.

Lemma prefix_owner_rule_witness :
  dir_owners (dir_resolve_owners (DirExample.r1).1 DirExample.reg DirExample.l1 55) !! net_to_string DirExample.lan = Some 2 ∧
  is_online DirExample.l1 2 = true.
Proof.
  split; [vm_compute; reflexivity|].
  apply (prefix_owner_rule (DirExample.r1).1 DirExample.reg DirExample.l1 55 DirExample.lan). vm_compute. reflexivity.
Defined.

Module RestartExample.
Import DirExample.
#[local] Existing Instance ipnet_ref.

Definition first_life := recompute enc (directory_new enc (initial_gen (registry_new "u") 5) 60) cfg reg l0 [] 10 90.
Definition disk : Registry := (note_gen reg (dir_gen first_life.1)).1.
Definition second_life := recompute enc (directory_new enc (initial_gen disk 3) 60) cfg disk l0 [] 10 7.

Lemma two_lives d1 x1 d2 x2 :
  recompute enc (directory_new enc (initial_gen (registry_new "u") 5) 60) cfg reg l0 [] 10 90 = (d1, Some x1) →
  (note_gen reg (dir_gen d1)).2 = true →
  recompute enc (directory_new enc (initial_gen (note_gen reg (dir_gen d1)).1 3) 60) cfg (note_gen reg (dir_gen d1)).1 l0 [] 10 7 = (d2, Some x2) →
  (note_gen (note_gen reg (dir_gen d1)).1 (dir_gen d2)).2 = true →
  dir_gen d1 + GEN_PERSIST_STEP < 2 ^ 64 → dir_gen d2 + GEN_PERSIST_STEP < 2 ^ 64 →
  rg_gen_hwm (note_gen reg (dir_gen d1)).1 + GEN_PERSIST_STEP < 2 ^ 64 →
  u_range 64 (initial_gen (note_gen reg (dir_gen d1)).1 3 + 1) →
  ∃ cp, rtc (gen_step enc) (mkCoordProc (registry_new "u") None, []) (cp, [dir_gen d2; dir_gen d1]).
Proof.
  intros E1 N1 E2 N2 B1 B2 B3 B4. eexists.
  eapply rtc_l; [apply (gs_start enc _ _ 5 60); by_decide|].
  eapply rtc_l; [apply (gs_commit enc _ _ _ reg); reflexivity|].
  eapply rtc_l; [eapply gs_publish; [|exact B1|exact E1]; by_decide|]. rewrite N1.
  eapply rtc_l; [apply gs_crash|].
  eapply rtc_l; [apply (gs_start enc _ _ 3 60); exact B3|].
  eapply rtc_l; [eapply gs_publish; [exact B4|exact B2|exact E2]|]. apply rtc_refl.
Qed.
End RestartExample.

Lemma generations_strictly_increase_witness :
  NoDup [dir_gen (RestartExample.second_life).1; dir_gen (RestartExample.first_life).1].
Proof.
  destruct (RestartExample.two_lives (RestartExample.first_life).1 (default (diff snapshot_default snapshot_default) (RestartExample.first_life).2)
    (RestartExample.second_life).1 (default (diff snapshot_default snapshot_default) (RestartExample.second_life).2))
    as [cp Hr]; [vm_compute; reflexivity..|by_decide|by_decide|by_decide|by_decide|].
  apply (generations_strictly_increase DirExample.enc "u" cp _ Hr).
Defined.

Lemma default_route_iff_ready_witness :
  let d := dir_resolve_owners (DirExample.r1).1 DirExample.reg DirExample.l0 20 in
  ∃ m, member (next_view d DirExample.cfg DirExample.reg DirExample.l0 []) 2 = Some m ∧ DirExample.dflt ∉ pi_prefixes m.
Proof.
  cbn zeta. set (d := dir_resolve_owners _ _ _ _).
  destruct (default_route_iff_ready d DirExample.cfg DirExample.reg DirExample.l0 [] 2 (DirExample.relay 2 9 "b") DirExample.dflt)
    as [(m & Hm & Hiff) _]; [reflexivity|reflexivity|reflexivity|].
  exists m. split; [exact Hm|]. intros Hin. apply Hiff in Hin as [_ (e & He & _)].
  assert (dir_exit_readiness d !! 2 = None) as En by (vm_compute; reflexivity). rewrite En in He. discriminate.
Defined.
