(* ===== verification/Ipam.v ===== *)
(** * Address allocation (crates/nqvpn-coord/src/ipam.rs)

    Static reservations, sticky dynamic addresses, the cycling scan and the
    reclaim of long-offline soft reservations. *)

From S2P Require Import Prelude Ordered Ipnet Control Config Registry Leases.

(** The kinds of [ApiError] (crates/nqvpn-coord/src/error.rs). *)
Inductive ApiError : Set :=
| BadCredentials
| ClientDisabled
| PrefixConflict
| AddressInUse
| AddressSpaceExhausted
| BadRequest
| RateLimited
| UnauthorizedAdmin
| RelayUnreachable
| NotFound
| Internal.

#[export] Instance ApiError_eq_dec : EqDecision ApiError.
Proof. solve_decision. Defined.

Record Granted := mkGranted { g_ip4 : option Z; g_ip6 : option Z }.

(** [Iterator::min_by_key]: the first of the smallest. *)
Definition min_by_key {A K} `{OrdKey K} (key : A → K) (l : list A) : option A :=
  foldl (λ best x, match best with
                   | Some b => if kleb (key b) (key x) then Some b else Some x
                   | None => Some x
                   end) None l.

(** ** The scan *)

(** The loop of [scan_from_cursor]: [left] turns remain, [step] is the turn. *)
Fixpoint scan_loop (left : nat) (n start step : Z) (at_ : Z → Z) (taken : gset Z) : option (Z * Z) :=
  match left with
  | O => None
  | S left' =>
      let idx := (start + step) mod n in
      let cand := at_ idx in
      if negb (bool_decide (cand ∈ taken)) then Some (cand, (idx + 1) mod n)
      else scan_loop left' n start (step + 1) at_ taken
  end.

Definition scan_from_cursor (n : Z) (at_ : Z → Z) (taken : gset Z) (cursor : Z) : option (Z * Z) :=
  if n =? 0 then None else scan_loop (Z.to_nat n) n (cursor mod n) 0 at_ taken.

Definition V6_SCAN_CAP : Z := 100000.

Definition set_ip4 (ip : option Z) (login_gen : Z) (m : MemberRecord) : MemberRecord :=
  mkMemberRecord (mr_node_id m) (mr_name m) (mr_role m) (mr_pubkey m) (mr_cert_fp m) ip (mr_ip6 m) (mr_routes m)
    (mr_relay_addr m) (mr_disabled m) (mr_created_unix m) (mr_last_join_unix m) (mr_last_join_from m)
    login_gen (mr_replaced_unix m) (mr_replaced_from m).

Definition set_ip6 (ip : option Z) (login_gen : Z) (m : MemberRecord) : MemberRecord :=
  mkMemberRecord (mr_node_id m) (mr_name m) (mr_role m) (mr_pubkey m) (mr_cert_fp m) (mr_ip4 m) ip (mr_routes m)
    (mr_relay_addr m) (mr_disabled m) (mr_created_unix m) (mr_last_join_unix m) (mr_last_join_from m)
    login_gen (mr_replaced_unix m) (mr_replaced_from m).

Definition set_cursor (family : string) (next : Z) (r : Registry) : Registry :=
  mkRegistry (<[family := next]> (rg_alloc_cursor r)) (rg_network_uuid r) (rg_next_node_id r) (rg_members r) (rg_gen_hwm r).

Section ipam.
Context `{O : IpNetOps}.

Definition usable (ip : IpAddr) : bool :=
  negb (ip_is_loopback ip || ip_is_unspecified ip || ip_is_multicast ip || ip_is_broadcast ip).

Definition dynamic_address_allowed (cfg : NetworkConfig) (ip : IpAddr) : bool :=
  existsb (λ c, net_contains c ip) (nc_cidrs cfg).

Definition check_in_network (cfg : NetworkConfig) (ip : IpAddr) : Result unit ApiError :=
  if negb (usable ip) then Err BadRequest else
  if negb (existsb (λ c, net_contains c ip) (nc_cidrs cfg)) then Err BadRequest else Ok tt.

(** [v4_hosts]: how many hosts, and the first. *)
Definition v4_hosts (net : IpNet) : Z * Z :=
  let first := ip_bits (net_network net) in
  let last := ip_bits (net_broadcast net) in
  if 31 <=? net_prefix_len net then (last - first + 1, first) else ((last - first) ⊖ 1, first + 1).

(** Members whose soft reservation may be taken, with their address. *)
Definition reclaim_candidate (cfg : NetworkConfig) (l : Leases) (attached : gmap Z Z) (now : Z) (member : string)
    (p : Z * MemberRecord) : bool :=
  let '(id, rec) := p in
  negb (String.eqb (mr_name rec) member) && bool_decide (mr_role rec = Client) && negb (is_online l id) &&
  negb (bool_decide (is_Some (attached !! id))) && bool_decide (is_Some (member_by_name cfg (mr_name rec))) &&
  (bool_decide (is_Some (offline_since l id)) ||
   (sat_add 64 (default (mr_created_unix rec) (mr_last_join_unix rec)) (liveness_window_secs (nc_settings cfg)) <=? now)).

(** How long ago, as an ordering key. *)
Definition gone_since (l : Leases) (t : Z * MemberRecord * Z) : Z * Z :=
  let '(id, rec, _) := t in
  (match offline_since l id with
   | Some s => s
   | None => sat_mul 64 (default (mr_created_unix rec) (mr_last_join_unix rec)) 1000
   end, id).

Definition reclaimable (cfg : NetworkConfig) (reg : Registry) (leases : option Leases) (now : Z) (member : string)
    (hard : gset Z) (address : MemberRecord → option Z) (eligible : Z → bool) : option (Z * Z) :=
  l ← leases;
  let attached := attachments l in
  let holders := omap (λ p : Z * MemberRecord, (λ ip, (p.1, p.2, ip)) <$> address p.2)
                   (List.filter (reclaim_candidate cfg l attached now member) (bt_iter (rg_members reg))) in
  (λ t : Z * MemberRecord * Z, (t.1.1, t.2)) <$>
    min_by_key (gone_since l) (List.filter (λ t, negb (bool_decide (t.2 ∈ hard)) && eligible t.2) holders).

Definition cursor_of (family : string) (reg : Registry) : Z := default 0 (rg_alloc_cursor reg !! family).

Definition alloc_v4 (cfg : NetworkConfig) (reg : Registry) (taken hard : gset Z) (reclaim : option Leases) (now : Z)
    (member : string) : Registry * Result (option Z) ApiError :=
  match ipv4_cidr cfg with
  | None => (reg, Err AddressSpaceExhausted)
  | Some v4net =>
      let '(n, first) := v4_hosts v4net in
      match scan_from_cursor n (λ i, first + i) taken (cursor_of "ipv4" reg) with
      | Some (ip, next) => (set_cursor "ipv4" next reg, Ok (Some ip))
      | None =>
          match reclaimable cfg reg reclaim now member hard mr_ip4 (λ ip, net_contains v4net (V4 ip)) with
          | Some (victim, ip) =>
              (set_members (alter (λ r, set_ip4 None (sat_add 64 (mr_login_gen r) 1) r) victim (rg_members reg)) reg, Ok (Some ip))
          | None => (reg, Err AddressSpaceExhausted)
          end
      end
  end.

Definition alloc_v6 (cfg : NetworkConfig) (reg : Registry) (taken hard : gset Z) (reclaim : option Leases) (now : Z)
    (member : string) : Registry * Result (option Z) ApiError :=
  match ipv6_cidr cfg with
  | None => (reg, Ok None)
  | Some v6net =>
      let first := (ip_bits (net_network v6net) + 1) mod 2 ^ 128 in
      let last := ip_bits (net_broadcast v6net) in
      let found := if first <=? last
                   then scan_from_cursor (Z.min (last - first + 1) V6_SCAN_CAP) (λ i, first + i) taken (cursor_of "ipv6" reg)
                   else None in
      match found with
      | Some (ip, next) => (set_cursor "ipv6" next reg, Ok (Some ip))
      | None =>
          match reclaimable cfg reg reclaim now member hard mr_ip6 (λ ip, net_contains v6net (V6 ip)) with
          | Some (victim, ip) =>
              (set_members (alter (λ r, set_ip6 None (sat_add 64 (mr_login_gen r) 1) r) victim (rg_members reg)) reg, Ok (Some ip))
          | None => (reg, Ok None)
          end
      end
  end.

(** Static addresses of all members, of all but one, and the addresses
    recorded for all but one. *)
Definition hard_of (pref : MemberCfg → option Z) (cfg : NetworkConfig) : gset Z :=
  list_to_set (omap (λ t : string * MemberCfg * Role, pref t.1.2) (cfg_members cfg)).
Definition taken_of (addr : MemberRecord → option Z) (pref : MemberCfg → option Z) (cfg : NetworkConfig) (reg : Registry)
    (member : string) : gset Z :=
  list_to_set (omap addr (List.filter (λ r, negb (String.eqb (mr_name r) member)) (bt_values (rg_members reg)))) ∪
  list_to_set (omap (λ t : string * MemberCfg * Role, pref t.1.2)
                 (List.filter (λ t : string * MemberCfg * Role, negb (String.eqb t.1.1 member)) (cfg_members cfg))).

Definition check_want (cfg : NetworkConfig) (want : option IpAddr) (taken : gset Z) : Result unit ApiError :=
  match want with
  | Some ip => let? _ := check_in_network cfg ip in
               if bool_decide (ip_bits ip ∈ taken) then Err AddressInUse else Ok tt
  | None => Ok tt
  end.

Definition keep_current (cfg : NetworkConfig) (cur : option Z) (fam : Z → IpAddr) : bool :=
  match cur with Some ip => dynamic_address_allowed cfg (fam ip) | None => false end.

Definition has_v6 (cfg : NetworkConfig) : bool := existsb (λ c, negb (ip_is_ipv4 (net_addr c))) (nc_cidrs cfg).

(** The two three-way matches of [allocate_inner]: the wanted address, the
    one already held, or a new one. *)
Definition choose4 (cfg : NetworkConfig) (reg : Registry) (taken4 hard4 : gset Z) (reclaim : option Leases) (now : Z)
    (member : string) (want4 current4 : option Z) : Registry * Result (option Z) ApiError :=
  match want4 with
  | Some ip => (reg, Ok (Some ip))
  | None => if keep_current cfg current4 V4 then (reg, Ok current4)
            else alloc_v4 cfg reg taken4 hard4 reclaim now member
  end.

Definition choose6 (cfg : NetworkConfig) (reg : Registry) (taken6 hard6 : gset Z) (reclaim : option Leases) (now : Z)
    (member : string) (want6 current6 : option Z) : Registry * option Z :=
  match want6 with
  | Some ip => (reg, Some ip)
  | None =>
      if keep_current cfg current6 V6 then (reg, current6) else
      if has_v6 cfg then
        let '(reg, r) := alloc_v6 cfg reg taken6 hard6 reclaim now member in
        (reg, match r with Ok x => x | Err _ => None end)
      else (reg, None)
  end.

Definition allocate_inner (cfg : NetworkConfig) (reg : Registry) (reclaim : option Leases) (now : Z) (member : string)
    (preferred4 preferred6 : option Z) : Registry * Result Granted ApiError :=
  match member_by_name cfg member with
  | None => (reg, Err NotFound)
  | Some (member_cfg, _) =>
      let hard4 := hard_of mc_preferred_ip4 cfg in
      let hard6 := hard_of mc_preferred_ip6 cfg in
      let taken4 := taken_of mr_ip4 mc_preferred_ip4 cfg reg member in
      let taken6 := taken_of mr_ip6 mc_preferred_ip6 cfg reg member in
      let want4 := or_else preferred4 (mc_preferred_ip4 member_cfg) in
      let want6 := or_else preferred6 (mc_preferred_ip6 member_cfg) in
      match check_want cfg (V4 <$> want4) taken4, check_want cfg (V6 <$> want6) taken6 with
      | Err e, _ => (reg, Err e)
      | _, Err e => (reg, Err e)
      | Ok _, Ok _ =>
          let current4 := by_name reg member ≫= mr_ip4 in
          let current6 := by_name reg member ≫= mr_ip6 in
          let '(reg, ip4) := choose4 cfg reg taken4 hard4 reclaim now member want4 current4 in
          match ip4 with
          | Err e => (reg, Err e)
          | Ok ip4 =>
              let '(reg, ip6) := choose6 cfg reg taken6 hard6 reclaim now member want6 current6 in
              (reg, Ok (mkGranted ip4 ip6))
          end
      end
  end.

Definition allocate (cfg : NetworkConfig) (reg : Registry) (now : Z) (member : string) (preferred4 preferred6 : option Z) :=
  allocate_inner cfg reg None now member preferred4 preferred6.

Definition allocate_for_join (cfg : NetworkConfig) (reg : Registry) (leases : Leases) (allow_reclaim : bool) (now : Z)
    (member : string) (preferred4 preferred6 : option Z) :=
  allocate_inner cfg reg (if allow_reclaim then Some leases else None) now member preferred4 preferred6.
End ipam.


(** ** The scan is exact *)

Lemma scan_loop_some left n start step at_ taken ip next :
  0 < n → scan_loop left n start step at_ taken = Some (ip, next) →
  ∃ idx, 0 ≤ idx < n ∧ ip = at_ idx ∧ (ip ∉ taken) ∧ next = ((idx + 1) mod n).
Proof.
  intros Hn. revert step. induction left as [|left IH]; intros step; cbn [scan_loop]; [done|].
  case_bool_decide as Ht; cbn [negb]; [apply IH|]. intros [= <- <-].
  exists ((start + step) mod n). split; [by apply Z.mod_pos_bound|]. done.
Qed.

Lemma scan_loop_none left n start step at_ taken :
  scan_loop left n start step at_ taken = None →
  ∀ k, 0 ≤ k < Z.of_nat left → at_ ((start + step + k) mod n) ∈ taken.
Proof.
  revert step. induction left as [|left IH]; intros step; cbn [scan_loop]; [lia|].
  case_bool_decide as Ht; cbn [negb]; [|done]. intros Hs k Hk. destruct (decide (k = 0)) as [->|].
  - by rewrite Z.add_0_r.
  - replace (start + step + k) with (start + (step + 1) + (k - 1)) by lia. apply IH; [done|lia].
Qed.

Lemma scan_some n at_ taken cursor ip next :
  0 ≤ n → scan_from_cursor n at_ taken cursor = Some (ip, next) →
  ∃ idx, 0 ≤ idx < n ∧ ip = at_ idx ∧ (ip ∉ taken) ∧ next = ((idx + 1) mod n).
Proof.
  unfold scan_from_cursor. intros Hn. destruct (Z.eqb_spec n 0); [done|]. apply scan_loop_some. lia.
Qed.

Lemma scan_none n at_ taken cursor :
  scan_from_cursor n at_ taken cursor = None → ∀ i, 0 ≤ i < n → at_ i ∈ taken.
Proof.
  unfold scan_from_cursor. destruct (Z.eqb_spec n 0); [lia|]. intros Hs i Hi.
  pose proof (scan_loop_none _ _ _ _ _ _ Hs ((i - cursor mod n) mod n)) as H.
  pose proof (Z.mod_pos_bound (i - cursor mod n) n).
  rewrite Z.add_0_r, Zplus_mod_idemp_r in H. replace (cursor mod n + (i - cursor mod n)) with i in H by lia.
  rewrite (Z.mod_small i) in H by lia. apply H. lia.
Qed.

Lemma min_by_key_elem {A K} `{OrdKey K} (key : A → K) l x :
  min_by_key key l = Some x → x ∈ l ∧ ∀ y, y ∈ l → kleb (key x) (key y) = true.
Proof.
  unfold min_by_key. revert x. induction l as [|y l IH] using rev_ind; intros x; [done|].
  rewrite foldl_snoc. destruct (foldl _ None l) as [b|] eqn:Hb.
  - destruct (IH b eq_refl) as [Hin Hmin]. destruct (kleb (key b) (key y)) eqn:Hk; intros [= <-].
    + split; [set_solver|]. intros z [Hz| ->%list_elem_of_singleton]%elem_of_app; auto.
    + split; [set_solver|]. intros z [Hz| ->%list_elem_of_singleton]%elem_of_app; [|apply kleb_refl].
      destruct (kleb_total (key b) (key y)) as [?|Hyb]; [congruence|]. eapply kleb_trans; [exact Hyb|auto].
  - intros [= <-]. split; [set_solver|]. assert (l = []) as ->; [|intros z ->%list_elem_of_singleton; apply kleb_refl].
    destruct l as [|a l _] using rev_ind; [done|]. rewrite foldl_snoc in Hb. by destruct (foldl _ None l); [destruct (kleb _ _)|].
Qed.

(** ** Which addresses are free for a member *)

Section free.
Context `{O : IpNetOps, !IpNetLaws O}.
Context (addr : MemberRecord → option Z) (pref : MemberCfg → option Z).

(** No other member is recorded with, or configured for, address [a]. *)
Definition free_for (cfg : NetworkConfig) (reg : Registry) (member : string) (a : Z) : Prop :=
  (∀ id rec, rg_members reg !! id = Some rec → mr_name rec ≠ member → addr rec ≠ Some a) ∧
  (∀ name m role, (name, m, role) ∈ cfg_members cfg → name ≠ member → pref m ≠ Some a).

(** The plan the configuration checks uphold: an address is recorded once,
    and a static one only for the member it is configured for. *)
Definition plan_ok (cfg : NetworkConfig) (reg : Registry) : Prop :=
  (∀ i j ri rj a, rg_members reg !! i = Some ri → rg_members reg !! j = Some rj →
     addr ri = Some a → addr rj = Some a → i = j) ∧
  (∀ name m role id rec a, (name, m, role) ∈ cfg_members cfg → pref m = Some a →
     rg_members reg !! id = Some rec → addr rec = Some a → mr_name rec = name).

(** Records may lose their address, and nothing else of the plan changes. *)
Definition shrinks (reg reg' : Registry) : Prop :=
  ∀ id rec', rg_members reg' !! id = Some rec' →
    ∃ rec, rg_members reg !! id = Some rec ∧ mr_name rec' = mr_name rec ∧ (addr rec' = addr rec ∨ addr rec' = None).

Lemma shrinks_refl reg : shrinks reg reg.
Proof. intros id rec Hr. eauto. Qed.

Lemma shrinks_free cfg reg reg' member a : shrinks reg reg' → free_for cfg reg member a → free_for cfg reg' member a.
Proof.
  intros Hs [H1 H2]. split; [|done]. intros id rec' Hr Hn. destruct (Hs _ _ Hr) as (rec & Hr0 & En & [Ea|Ea]); rewrite Ea; [|done].
  rewrite En in Hn. eauto.
Qed.

Lemma taken_free cfg reg member a : a ∉ taken_of addr pref cfg reg member ↔ free_for cfg reg member a.
Proof.
  unfold taken_of, free_for. rewrite not_elem_of_union, !elem_of_list_to_set, !list_elem_of_omap. split.
  - intros [H1 H2]. split.
    + intros id rec Hr Hn Ha. apply H1. exists rec. split; [|done]. rewrite elem_of_filter_b.
      split; [by apply negb_true_iff, String.eqb_neq|]. apply elem_of_bt_values. eauto.
    + intros name m role Hin Hn Hp. apply H2. exists (name, m, role). split; [|done]. rewrite elem_of_filter_b.
      split; [by apply negb_true_iff, String.eqb_neq|done].
  - intros [H1 H2]. split.
    + intros (rec & Hin & Ha). rewrite elem_of_filter_b in Hin. destruct Hin as [Hn [id Hr]%elem_of_bt_values].
      apply negb_true_iff, String.eqb_neq in Hn. by eapply H1.
    + intros ([[name m] role] & Hin & Hp). rewrite elem_of_filter_b in Hin. destruct Hin as [Hn Hin].
      apply negb_true_iff, String.eqb_neq in Hn. by eapply H2.
Qed.

(** The address a member already has is free for it. *)
Lemma current_free cfg reg member a :
  plan_ok cfg reg → (by_name reg member ≫= addr) = Some a → free_for cfg reg member a.
Proof.
  intros [Hu Hst] Hc. destruct (by_name reg member) as [r|] eqn:Hb; [|done]. cbn in Hc.
  apply by_name_some in Hb as (Hn & i & Hr). split.
  - intros id rec Hrec Hne Ha. assert (id = i) as -> by by eapply Hu. congruence.
  - intros name m role Hin Hne Hp. apply Hne. rewrite <- Hn. symmetry. by eapply Hst.
Qed.

Lemma reclaimable_some cfg reg leases now member hard eligible victim ip :
  reclaimable cfg reg leases now member hard addr eligible = Some (victim, ip) →
  ∃ l rec, leases = Some l ∧ rg_members reg !! victim = Some rec ∧ addr rec = Some ip ∧
    reclaim_candidate cfg l (attachments l) now member (victim, rec) = true ∧ (ip ∉ hard) ∧ eligible ip = true ∧
    ∀ id' rec' ip', rg_members reg !! id' = Some rec' → addr rec' = Some ip' →
      reclaim_candidate cfg l (attachments l) now member (id', rec') = true → ip' ∉ hard → eligible ip' = true →
      kleb (gone_since l (victim, rec, ip)) (gone_since l (id', rec', ip')) = true.
Proof.
  unfold reclaimable. destruct leases as [l|]; [|done]. cbn [mbind option_bind]. intros Hm.
  apply fmap_Some in Hm as ([[v rec] ip0] & Hm & ?). simplify_eq/=. apply min_by_key_elem in Hm as [Hin Hmin].
  rewrite elem_of_filter_b, list_elem_of_omap in Hin. destruct Hin as [Hok ([i r] & Hin & Hp)].
  rewrite elem_of_filter_b, elem_of_bt_iter in Hin. destruct Hin as [Hc Hr].
  apply fmap_Some in Hp as (a & Ha & [= -> -> ->]). apply andb_true_iff in Hok as [Hh He].
  apply negb_true_iff, bool_decide_eq_false in Hh. exists l, r. do 6 (split; [done|]). intros id' rec' ip' Hr' Ha' Hc' Hh' He'. apply (Hmin (id', rec', ip')).
  rewrite elem_of_filter_b, list_elem_of_omap. cbn. rewrite He', bool_decide_eq_false_2 by done. split; [done|].
  exists (id', rec'). rewrite elem_of_filter_b, elem_of_bt_iter. cbn. by rewrite Ha'.
Qed.

(** A reclaimed address is free once its holder lost it. *)
Lemma reclaim_free cfg reg leases now member eligible victim ip (f : MemberRecord → MemberRecord) :
  plan_ok cfg reg → (∀ r, mr_name (f r) = mr_name r ∧ addr (f r) = None) →
  reclaimable cfg reg leases now member (hard_of pref cfg) addr eligible = Some (victim, ip) →
  let reg' := set_members (alter f victim (rg_members reg)) reg in
  free_for cfg reg' member ip ∧ shrinks reg reg' ∧ eligible ip = true.
Proof.
  intros [Hu Hst] Hf Hr. apply reclaimable_some in Hr as (l & rec & _ & Hv & Ha & Hc & Hh & He & _). cbn zeta.
  assert (shrinks reg (set_members (alter f victim (rg_members reg)) reg)) as Hsh.
  { intros id rec' Hm. cbn in Hm. destruct (decide (victim = id)) as [->|Hne].
    - rewrite lookup_alter_eq, Hv in Hm. injection Hm as <-. exists rec. destruct (Hf rec) as [E1 E2]. rewrite E1, E2. auto.
    - rewrite lookup_alter_ne in Hm by done. eauto. }
  split; [split|done].
  - intros id rec' Hm Hn Ha'. cbn in Hm. destruct (decide (victim = id)) as [->|Hne].
    + rewrite lookup_alter_eq, Hv in Hm. injection Hm as <-. destruct (Hf rec) as [_ E2]. congruence.
    + rewrite lookup_alter_ne in Hm by done. apply Hne. by eapply Hu.
  - intros name m role Hin Hn Hp. apply Hh. unfold hard_of. rewrite elem_of_list_to_set, list_elem_of_omap.
    exists (name, m, role). done.
Qed.
End free.

(** ** The steps of an allocation *)

Section steps.
Context `{O : IpNetOps, !IpNetLaws O}.

Lemma mask_low_span w len a x :
  0 ≤ len ≤ w → mask_low w len a ≤ x ≤ mask_low w len a + 2 ^ (w - len) - 1 → block w len a = block w len x.
Proof.
  unfold mask_low, block. intros Hl Hx. assert (0 < 2 ^ (w - len)) by (apply Z.pow_pos_nonneg; lia).
  generalize dependent (2 ^ (w - len)). intros P Hx HP. generalize dependent (a / P). intros q Hx.
  apply Z.div_unique with (x - q * P); lia.
Qed.

Lemma mask_low_top w len a :
  0 ≤ len ≤ w → u_range w a → mask_low w len a + 2 ^ (w - len) - 1 < 2 ^ w.
Proof.
  unfold u_range, mask_low, block. intros Hl Ha. assert (0 < 2 ^ (w - len)) by (apply Z.pow_pos_nonneg; lia).
  assert (2 ^ w = 2 ^ len * 2 ^ (w - len)) as E by (rewrite <- Z.pow_add_r; [f_equal|..]; lia).
  assert (a / 2 ^ (w - len) < 2 ^ len) by (apply Z.div_lt_upper_bound; lia). nia.
Qed.

(** Every address from the network to the broadcast address is contained. *)
Lemma span_contains n x :
  wf_net n → ip_bits (net_network n) ≤ x ≤ ip_bits (net_broadcast n) →
  net_contains n (match n with Net4 _ _ => V4 x | Net6 _ _ => V6 x end) = true.
Proof.
  intros Hw. rewrite net_network_spec, net_broadcast_spec, net_trunc_spec by done. intros Hx.
  pose proof Hw as [Ha Hl]. destruct n as [a l|a l]; unfold net_width in *; cbn in *;
    (assert (u_range _ (mask_low _ l a)) as Hr by by apply mask_low_range);
    pose proof (mask_low_top _ _ _ Hl Ha); unfold u_range in Hr;
    (apply net_contains_spec; [done|unfold wf_addr, u_range; lia|]); cbn;
    (split; [done|by apply mask_low_span]).
Qed.

Lemma ipv4_cidr_some cfg n : ipv4_cidr cfg = Some n → n ∈ nc_cidrs cfg ∧ ∃ a l, n = Net4 a l.
Proof.
  unfold ipv4_cidr. intros [Hin Hf]%List.find_some. apply list_elem_of_In in Hin. destruct n; naive_solver.
Qed.

Lemma ipv6_cidr_some cfg n : ipv6_cidr cfg = Some n → n ∈ nc_cidrs cfg ∧ ∃ a l, n = Net6 a l.
Proof.
  unfold ipv6_cidr. intros [Hin Hf]%List.find_some. apply list_elem_of_In in Hin. destruct n; naive_solver.
Qed.

Lemma in_cidrs_allowed cfg n ip : n ∈ nc_cidrs cfg → net_contains n ip = true → dynamic_address_allowed cfg ip = true.
Proof. intros Hin Hc. apply existsb_exists. exists n. by rewrite <- list_elem_of_In. Qed.

Lemma v4_hosts_span n cnt first i :
  v4_hosts n = (cnt, first) → 0 ≤ i < cnt → ip_bits (net_network n) ≤ first + i ≤ ip_bits (net_broadcast n).
Proof. unfold v4_hosts, sat_sub. case_match; intros [= <- <-]; lia. Qed.

Lemma v4_hosts_count n cnt first : wf_net n → v4_hosts n = (cnt, first) → 0 ≤ cnt.
Proof.
  intros Hw. unfold v4_hosts, sat_sub. rewrite net_network_spec, net_broadcast_spec, net_trunc_spec by done.
  pose proof Hw as [_ Hl]. assert (0 < 2 ^ (net_width n - net_prefix_len n)) by (apply Z.pow_pos_nonneg; lia).
  destruct n; cbn in *; case_match; intros [= <- <-]; lia.
Qed.


(** Every host of the range is taken. *)
Definition v4_exhausted (v4net : IpNet) (taken : gset Z) : Prop :=
  ∀ i, 0 ≤ i < (v4_hosts v4net).1 → (v4_hosts v4net).2 + i ∈ taken.

(** Every address the capped scan of the range looks at is taken. *)
Definition v6_exhausted (v6net : IpNet) (taken : gset Z) : Prop :=
  let first := ip_bits (net_network v6net) + 1 in
  ∀ x, first ≤ x ≤ ip_bits (net_broadcast v6net) → x < first + V6_SCAN_CAP → x ∈ taken.

(** How an address of a range was found: the scan moved the cursor to it, or
    the range is exhausted and an abandoned soft reservation was given up. *)
Definition alloc_post (addr : MemberRecord → option Z) (upd : Z → MemberRecord → MemberRecord) (fam : string)
    (eligible : Z → bool) (exhausted : Prop) (cfg : NetworkConfig) (reg : Registry) (taken hard : gset Z)
    (reclaim : option Leases) (now : Z) (member : string) (reg' : Registry) (ip : Z) : Prop :=
  eligible ip = true ∧
  (((ip ∉ taken) ∧ ∃ next, reg' = set_cursor fam next reg) ∨
   (exhausted ∧ ∃ victim, reclaimable cfg reg reclaim now member hard addr eligible = Some (victim, ip) ∧
      reg' = set_members (alter (λ r, upd (sat_add 64 (mr_login_gen r) 1) r) victim (rg_members reg)) reg)).

Lemma alloc_v4_cases cfg reg taken hard reclaim now member v4net :
  Forall wf_net (nc_cidrs cfg) → ipv4_cidr cfg = Some v4net →
  let eligible := λ ip, net_contains v4net (V4 ip) in
  match alloc_v4 cfg reg taken hard reclaim now member with
  | (reg', Err e) => reg' = reg ∧ e = AddressSpaceExhausted ∧ v4_exhausted v4net taken ∧
                     reclaimable cfg reg reclaim now member hard mr_ip4 eligible = None
  | (reg', Ok None) => False
  | (reg', Ok (Some ip)) => alloc_post mr_ip4 (set_ip4 None) "ipv4" eligible (v4_exhausted v4net taken)
                              cfg reg taken hard reclaim now member reg' ip
  end.
Proof.
  intros Hw Hc. unfold alloc_v4. rewrite Hc. destruct (v4_hosts v4net) as [n first] eqn:Hv.
  apply ipv4_cidr_some in Hc as [Hin (a & l & En)]. assert (wf_net v4net) as Hwn by by eapply Forall_forall.
  assert (0 ≤ n) as Hn by by eapply v4_hosts_count.
  destruct (scan_from_cursor _ _ _ _) as [[ip next]|] eqn:Hs.
  - apply scan_some in Hs as (idx & Hi & -> & Ht & _); [|done]. split; [|eauto]. subst v4net.
    apply (span_contains (Net4 a l)); [done|]. by eapply v4_hosts_span.
  - assert (v4_exhausted v4net taken) as Hex by (unfold v4_exhausted; rewrite Hv; exact (scan_none _ _ _ _ Hs)).
    destruct (reclaimable _ _ _ _ _ _ _ _) as [[victim ip]|] eqn:Hr; [|done].
    pose proof (reclaimable_some _ _ _ _ _ _ _ _ _ _ Hr) as (? & ? & _ & _ & _ & _ & _ & He & _).
    split; [done|]. right. eauto.
Qed.

Lemma net6_span n : wf_net n → 0 ≤ ip_bits (net_network n) ≤ ip_bits (net_broadcast n).
Proof.
  intros Hw. rewrite net_network_spec, net_broadcast_spec, net_trunc_spec by done. pose proof Hw as [Ha Hl].
  assert (0 < 2 ^ (net_width n - net_prefix_len n)) by (apply Z.pow_pos_nonneg; lia).
  destruct n as [a l|a l]; unfold net_width in *; cbn in *;
    pose proof (mask_low_range _ _ _ Hl Ha) as Hr; unfold u_range in Hr; lia.
Qed.

Lemma alloc_v6_cases cfg reg taken hard reclaim now member v6net :
  Forall wf_net (nc_cidrs cfg) → ipv6_cidr cfg = Some v6net → ip_bits (net_network v6net) + 1 < 2 ^ 128 →
  let eligible := λ ip, net_contains v6net (V6 ip) in
  match alloc_v6 cfg reg taken hard reclaim now member with
  | (_, Err _) => False
  | (reg', Ok None) => reg' = reg ∧ v6_exhausted v6net taken ∧
                       reclaimable cfg reg reclaim now member hard mr_ip6 eligible = None
  | (reg', Ok (Some ip)) => alloc_post mr_ip6 (set_ip6 None) "ipv6" eligible (v6_exhausted v6net taken)
                              cfg reg taken hard reclaim now member reg' ip
  end.
Proof.
  intros Hw Hc Hmax. unfold alloc_v6. rewrite Hc.
  apply ipv6_cidr_some in Hc as [Hin (a & l & En)]. assert (wf_net v6net) as Hwn by by eapply Forall_forall.
  pose proof (net6_span _ Hwn) as Hsp. rewrite Z.mod_small by lia.
  set (first := ip_bits (net_network v6net) + 1) in *. set (last := ip_bits (net_broadcast v6net)) in *.
  match goal with |- context [match ?x with Some _ => _ | None => _ end] => destruct x as [[ip next]|] eqn:Hs end.
  - destruct (Z.leb_spec first last); [|done]. apply scan_some in Hs as (idx & Hi & -> & Ht & _); [|unfold V6_SCAN_CAP; lia].
    split; [|eauto]. subst v6net. apply (span_contains (Net6 a l)); [done|]. lia.
  - assert (v6_exhausted v6net taken) as Hex.
    { unfold v6_exhausted. cbn zeta. fold first last. intros x Hx Hcap. destruct (Z.leb_spec first last); [|lia].
      replace x with (first + (x - first)) by lia. apply (scan_none _ _ _ _ Hs). lia. }
    destruct (reclaimable _ _ _ _ _ _ _ _) as [[victim ip]|] eqn:Hr; [|done].
    pose proof (reclaimable_some _ _ _ _ _ _ _ _ _ _ Hr) as (? & ? & _ & _ & _ & _ & _ & He & _).
    split; [done|]. right. eauto.
Qed.
End steps.

(** ** What an allocation promises *)

Section promises.
Context `{O : IpNetOps, !IpNetLaws O}.

Lemma shrinks_plan addr pref cfg reg reg' : shrinks addr reg reg' → plan_ok addr pref cfg reg → plan_ok addr pref cfg reg'.
Proof.
  intros Hs [Hu Hst]. split.
  - intros i j ri rj a Hi Hj Hai Haj. destruct (Hs _ _ Hi) as (ri0 & Hi0 & _ & Ei), (Hs _ _ Hj) as (rj0 & Hj0 & _ & Ej).
    apply (Hu i j ri0 rj0 a); [done|done|destruct Ei; congruence|destruct Ej; congruence].
  - intros name m role id rec a Hin Hp Hr Ha. destruct (Hs _ _ Hr) as (r0 & Hr0 & -> & E). eapply Hst; [done|done|done|destruct E; congruence].
Qed.

Lemma alloc_post_free addr pref upd fam eligible ex cfg reg0 reg reclaim now member reg' ip :
  plan_ok addr pref cfg reg0 → shrinks addr reg0 reg → (∀ g r, mr_name (upd g r) = mr_name r ∧ addr (upd g r) = None) →
  alloc_post addr upd fam eligible ex cfg reg (taken_of addr pref cfg reg0 member) (hard_of pref cfg) reclaim now member reg' ip →
  free_for addr pref cfg reg' member ip ∧ eligible ip = true.
Proof.
  intros Hp Hs Hu [He [[Ht [next ->]]|(_ & victim & Hr & ->)]]; (split; [|done]).
  - apply taken_free in Ht. by apply (shrinks_free _ _ _ _ _ _ _ Hs) in Ht.
  - eapply (reclaim_free addr pref) in Hr as (? & _); [done|by eapply shrinks_plan|intros r; apply Hu].
Qed.

(** A step leaves alone what its update leaves alone. *)
Lemma alloc_post_keeps addr addr' upd fam eligible ex cfg reg taken hard reclaim now member reg' ip :
  (∀ g r, mr_name (upd g r) = mr_name r ∧ (addr' (upd g r) = addr' r ∨ addr' (upd g r) = None)) →
  alloc_post addr upd fam eligible ex cfg reg taken hard reclaim now member reg' ip → shrinks addr' reg reg'.
Proof.
  intros Hu [_ [[_ [next ->]]|(_ & victim & _ & ->)]]; [intros id rec Hm; eauto|].
  intros id rec' Hm. cbn in Hm. destruct (decide (victim = id)) as [->|].
  - rewrite lookup_alter_eq in Hm. apply fmap_Some in Hm as (rec & Hr & ->). exists rec.
    destruct (Hu (sat_add 64 (mr_login_gen rec) 1) rec) as [-> ?]. auto.
  - rewrite lookup_alter_ne in Hm by done. eauto.
Qed.

Lemma check_want_ok cfg want taken u :
  check_want cfg want taken = Ok u →
  match want with
  | Some ip => dynamic_address_allowed cfg ip = true ∧ usable ip = true ∧ (ip_bits ip ∉ taken)
  | None => True
  end.
Proof.
  unfold check_want, check_in_network, dynamic_address_allowed. destruct want as [ip|]; [|done].
  destruct (usable ip); [|done]. destruct (existsb _ _) eqn:E; [|done]. cbn. by case_bool_decide.
Qed.

Definition fresh4 (cfg : NetworkConfig) (reg : Registry) (member : string) (ip : Z) : Prop :=
  dynamic_address_allowed cfg (V4 ip) = true ∧ free_for mr_ip4 mc_preferred_ip4 cfg reg member ip.
Definition fresh6 (cfg : NetworkConfig) (reg : Registry) (member : string) (ip : Z) : Prop :=
  dynamic_address_allowed cfg (V6 ip) = true ∧ free_for mr_ip6 mc_preferred_ip6 cfg reg member ip.

Lemma keep_current_fresh addr pref cfg reg member fam ip :
  plan_ok addr pref cfg reg → keep_current cfg (by_name reg member ≫= addr) fam = true →
  (by_name reg member ≫= addr) = Some ip → dynamic_address_allowed cfg (fam ip) = true ∧ free_for addr pref cfg reg member ip.
Proof. intros Hp Hk E. rewrite E in Hk. split; [done|by eapply current_free]. Qed.

Lemma choose4_sound cfg reg reclaim now member want4 v4net reg' ip4 u :
  let taken4 := taken_of mr_ip4 mc_preferred_ip4 cfg reg member in
  Forall wf_net (nc_cidrs cfg) → ipv4_cidr cfg = Some v4net → plan_ok mr_ip4 mc_preferred_ip4 cfg reg →
  check_want cfg (V4 <$> want4) taken4 = Ok u →
  choose4 cfg reg taken4 (hard_of mc_preferred_ip4 cfg) reclaim now member want4 (by_name reg member ≫= mr_ip4) = (reg', Ok ip4) →
  (∃ ip, ip4 = Some ip ∧ fresh4 cfg reg' member ip) ∧ shrinks mr_ip6 reg reg'.
Proof.
  intros taken4 Hw Hc Hp Hck. unfold choose4. destruct want4 as [ip|].
  { intros [= <- <-]. apply check_want_ok in Hck as (? & _ & ?%taken_free). split; [|apply shrinks_refl]. by exists ip. }
  destruct (keep_current _ _ _) eqn:Hk.
  { intros [= <- <-]. split; [|apply shrinks_refl]. destruct (by_name reg member ≫= mr_ip4) as [ip|] eqn:E; [|done].
    exists ip. split; [done|]. apply keep_current_fresh; [done|by rewrite E|done]. }
  intros Ha. pose proof (alloc_v4_cases cfg reg taken4 (hard_of mc_preferred_ip4 cfg) reclaim now member v4net Hw Hc) as Hcs.
  rewrite Ha in Hcs. cbn zeta in Hcs. destruct ip4 as [ip|]; [|done]. split.
  - exists ip. split; [done|]. apply (alloc_post_free _ mc_preferred_ip4 _ _ _ _ _ reg) in Hcs as [? He]; [|done|apply shrinks_refl|done].
    split; [|done]. apply ipv4_cidr_some in Hc as [Hin _]. by eapply in_cidrs_allowed.
  - eapply alloc_post_keeps; [|exact Hcs]. auto.
Qed.

Lemma choose6_sound cfg reg0 reg reclaim now member want6 reg' ip6 u :
  let taken6 := taken_of mr_ip6 mc_preferred_ip6 cfg reg0 member in
  Forall wf_net (nc_cidrs cfg) → (∀ n, ipv6_cidr cfg = Some n → ip_bits (net_network n) + 1 < 2 ^ 128) →
  plan_ok mr_ip6 mc_preferred_ip6 cfg reg0 → shrinks mr_ip6 reg0 reg →
  check_want cfg (V6 <$> want6) taken6 = Ok u →
  choose6 cfg reg taken6 (hard_of mc_preferred_ip6 cfg) reclaim now member want6 (by_name reg0 member ≫= mr_ip6) = (reg', ip6) →
  (∀ ip, ip6 = Some ip → fresh6 cfg reg' member ip) ∧ shrinks mr_ip4 reg reg'.
Proof.
  intros taken6 Hw Hmax Hp Hs Hck. unfold choose6. destruct want6 as [ip0|].
  { intros [= <- <-]. apply check_want_ok in Hck as (? & _ & ?%taken_free). split; [|apply shrinks_refl].
    intros ip [= <-]. split; [done|by eapply shrinks_free]. }
  destruct (keep_current _ _ _) eqn:Hk.
  { intros [= <- <-]. split; [|apply shrinks_refl]. intros ip E.
    destruct (keep_current_fresh _ _ _ _ _ _ _ Hp Hk E) as [? ?]. split; [done|by eapply shrinks_free]. }
  destruct (has_v6 cfg); [|intros [= <- <-]; split; [done|apply shrinks_refl]].
  destruct (alloc_v6 _ _ _ _ _ _ _) as [reg1 r] eqn:Ha. intros [= <- <-].
  destruct (ipv6_cidr cfg) as [v6net|] eqn:Hc.
  2:{ unfold alloc_v6 in Ha. rewrite Hc in Ha. simplify_eq/=. split; [done|apply shrinks_refl]. }
  pose proof (alloc_v6_cases cfg reg taken6 (hard_of mc_preferred_ip6 cfg) reclaim now member v6net Hw Hc (Hmax _ eq_refl)) as Hcs.
  rewrite Ha in Hcs. cbn zeta in Hcs. destruct r as [[ip|]|]; [|destruct Hcs as [-> _]; split; [done|apply shrinks_refl]|done]. split.
  - intros ip' [= <-]. apply (alloc_post_free _ mc_preferred_ip6 _ _ _ _ _ reg0) in Hcs as [? He]; [|done..].
    split; [|done]. apply ipv6_cidr_some in Hc as [Hin _]. by eapply in_cidrs_allowed.
  - eapply alloc_post_keeps; [|exact Hcs]. auto.
Qed.
End promises.

(** A successful allocation (with or without reclaim) always grants an IPv4
    address, and every address it grants lies in the network's ranges and is,
    in the registry it leaves behind, neither recorded for another member nor
    statically configured for one. *)
Theorem allocation_sound `{O : IpNetOps, !IpNetLaws O} cfg reg reclaim now member p4 p6 reg' g v4net
    (Hwf : Forall wf_net (nc_cidrs cfg)) (Hv4 : ipv4_cidr cfg = Some v4net)
    (Hmax : ∀ n, ipv6_cidr cfg = Some n → ip_bits (net_network n) + 1 < 2 ^ 128)
    (Hp4 : plan_ok mr_ip4 mc_preferred_ip4 cfg reg) (Hp6 : plan_ok mr_ip6 mc_preferred_ip6 cfg reg)
    (Hok : allocate_inner cfg reg reclaim now member p4 p6 = (reg', Ok g)) :
  (∃ ip, g_ip4 g = Some ip ∧ fresh4 cfg reg' member ip) ∧ (∀ ip, g_ip6 g = Some ip → fresh6 cfg reg' member ip).
Proof.
  unfold allocate_inner in Hok. destruct (member_by_name cfg member) as [[mcfg role]|]; [|done]. cbn zeta in Hok.
  destruct (check_want cfg (V4 <$> _) _) as [u|] eqn:H4; [|done].
  destruct (check_want cfg (V6 <$> _) _) as [u'|] eqn:H6; [|done].
  destruct (choose4 _ _ _ _ _ _ _ _ _) as [reg1 [ip4|]] eqn:E4; [|done].
  destruct (choose6 _ _ _ _ _ _ _ _ _) as [reg2 ip6] eqn:E6. injection Hok as <- <-.
  eapply choose4_sound in E4 as [(ip & -> & Ha & Hf) Hs6]; [|done..].
  eapply choose6_sound in E6 as [Hip6 Hs4]; [|done..].
  split; [|done]. exists ip. split; [done|]. split; [done|by eapply shrinks_free].
Qed.

(** ** Who may lose a reservation *)

(** [rec] was a client that is neither online nor attached anywhere, and its
    next login generation outdates every credential it may still hold. *)
Definition gave_up (l : Leases) (member : string) (id : Z) (rec rec' : MemberRecord) : Prop :=
  mr_role rec = Client ∧ mr_name rec ≠ member ∧ is_online l id = false ∧ attachments l !! id = None ∧
  mr_name rec' = mr_name rec ∧ mr_role rec' = Client ∧ sat_add 64 (mr_login_gen rec) 1 ≤ mr_login_gen rec'.

Section reclaiming.
Context `{O : IpNetOps, !IpNetLaws O}.

Lemma candidate_offline cfg l now member id rec :
  reclaim_candidate cfg l (attachments l) now member (id, rec) = true →
  mr_role rec = Client ∧ mr_name rec ≠ member ∧ is_online l id = false ∧ attachments l !! id = None.
Proof.
  unfold reclaim_candidate. intros H. repeat (apply andb_true_iff in H as [H ?]). bool_prop.
  repeat match goal with E : bool_decide _ = true |- _ => apply bool_decide_eq_true in E
                       | E : bool_decide _ = false |- _ => apply bool_decide_eq_false in E end.
  split_and!; [done|by apply String.eqb_neq|done|by apply eq_None_not_Some].
Qed.

(** A record either survives a step as it is, or was given up in it. *)
Definition survives (reclaim : option Leases) (ex : Prop) (member : string) (reg reg' : Registry) : Prop :=
  ∀ id rec, rg_members reg !! id = Some rec → ∃ rec', rg_members reg' !! id = Some rec' ∧
    (rec' = rec ∨ ∃ l, reclaim = Some l ∧ ex ∧ gave_up l member id rec rec').

Lemma survives_same reclaim ex member reg : survives reclaim ex member reg reg.
Proof. intros id rec Hr. eauto. Qed.

Lemma survives_trans reclaim ex1 ex2 member reg1 reg2 reg3 :
  survives reclaim ex1 member reg1 reg2 → survives reclaim ex2 member reg2 reg3 →
  survives reclaim (ex1 ∨ ex2) member reg1 reg3.
Proof.
  intros H1 H2 id rec Hr. destruct (H1 _ _ Hr) as (rec1 & Hr1 & C1). destruct (H2 _ _ Hr1) as (rec2 & Hr2 & C2).
  exists rec2. split; [done|]. destruct C1 as [->|(l & -> & E1 & G1)], C2 as [->|(l' & El & E2 & G2)]; [auto|eauto 6..|].
  injection El as <-. right. exists l. split; [done|]. split; [auto|]. unfold gave_up, sat_add in *. intuition (congruence || lia).
Qed.

Lemma alloc_post_survives addr upd fam eligible ex cfg reg taken hard reclaim now member reg' ip :
  (∀ g r, mr_name (upd g r) = mr_name r ∧ mr_role (upd g r) = mr_role r ∧ mr_login_gen (upd g r) = g) →
  alloc_post addr upd fam eligible ex cfg reg taken hard reclaim now member reg' ip → survives reclaim ex member reg reg'.
Proof.
  intros Hu [_ [[_ [next ->]]|(Hex & victim & Hr & ->)]]; [intros id rec Hm; eauto|].
  apply reclaimable_some in Hr as (l & vr & -> & Hv & _ & Hc & _). intros id rec Hm. cbn.
  destruct (decide (victim = id)) as [->|].
  - rewrite lookup_alter_eq, Hm. eexists. split; [done|]. right. exists l. split; [done|]. split; [done|].
    assert (rec = vr) as -> by congruence. apply candidate_offline in Hc as (? & ? & ? & ?). unfold gave_up.
    destruct (Hu (sat_add 64 (mr_login_gen vr) 1) vr) as (-> & -> & ->). split_and!; done || lia.
  - rewrite lookup_alter_ne by done. eauto.
Qed.

Lemma choose4_survives cfg reg taken hard reclaim now member want cur v4net :
  Forall wf_net (nc_cidrs cfg) → ipv4_cidr cfg = Some v4net →
  survives reclaim (v4_exhausted v4net taken) member reg (choose4 cfg reg taken hard reclaim now member want cur).1.
Proof.
  intros Hw Hc. unfold choose4. destruct want; [apply survives_same|]. destruct (keep_current _ _ _); [apply survives_same|].
  pose proof (alloc_v4_cases cfg reg taken hard reclaim now member v4net Hw Hc) as Hcs. cbn zeta in Hcs.
  destruct (alloc_v4 _ _ _ _ _ _ _) as [reg' [[ip|]|]]; cbn; [|done|destruct Hcs as [-> _]; apply survives_same].
  eapply alloc_post_survives; [|exact Hcs]. done.
Qed.

Lemma choose6_survives cfg reg taken hard reclaim now member want cur :
  Forall wf_net (nc_cidrs cfg) → (∀ n, ipv6_cidr cfg = Some n → ip_bits (net_network n) + 1 < 2 ^ 128) →
  survives reclaim (∃ v6net, ipv6_cidr cfg = Some v6net ∧ v6_exhausted v6net taken) member reg
    (choose6 cfg reg taken hard reclaim now member want cur).1.
Proof.
  intros Hw Hmax. unfold choose6. destruct want; [apply survives_same|]. destruct (keep_current _ _ _); [apply survives_same|].
  destruct (has_v6 cfg); [|apply survives_same]. destruct (ipv6_cidr cfg) as [v6net|] eqn:Hc.
  2:{ unfold alloc_v6. rewrite Hc. apply survives_same. }
  pose proof (alloc_v6_cases cfg reg taken hard reclaim now member v6net Hw Hc (Hmax _ eq_refl)) as Hcs. cbn zeta in Hcs.
  destruct (alloc_v6 _ _ _ _ _ _ _) as [reg' [[ip|]|]]; cbn; [|destruct Hcs as [-> _]; apply survives_same|done].
  apply alloc_post_survives in Hcs; [|done].
  intros id rec Hr. destruct (Hcs _ _ Hr) as (rec' & ? & [->|(l & -> & ? & ?)]); eauto 10.
Qed.
End reclaiming.

(** A join touches the record of another member only by reclaiming its
    soft reservation, and then reclaim is allowed (the restart grace is over),
    an address range is exhausted, and the victim is a client that is neither
    online nor attached to any relay; its login generation moves on, so its
    old credential no longer verifies. This holds on every outcome of the
    allocation, failures included. *)
Theorem reclaim_only_abandoned `{O : IpNetOps, !IpNetLaws O} cfg reg leases allow_reclaim now member p4 p6 v4net
    (Hwf : Forall wf_net (nc_cidrs cfg)) (Hv4 : ipv4_cidr cfg = Some v4net)
    (Hmax : ∀ n, ipv6_cidr cfg = Some n → ip_bits (net_network n) + 1 < 2 ^ 128) :
  ∀ id rec, rg_members reg !! id = Some rec →
  ∃ rec', rg_members (allocate_for_join cfg reg leases allow_reclaim now member p4 p6).1 !! id = Some rec' ∧
    (rec' = rec ∨
     allow_reclaim = true ∧ gave_up leases member id rec rec' ∧
     (v4_exhausted v4net (taken_of mr_ip4 mc_preferred_ip4 cfg reg member) ∨
      ∃ v6net, ipv6_cidr cfg = Some v6net ∧ v6_exhausted v6net (taken_of mr_ip6 mc_preferred_ip6 cfg reg member))).
Proof.
  intros id rec Hr. unfold allocate_for_join, allocate_inner.
  destruct (member_by_name cfg member) as [[mcfg role]|]; [|cbn; eauto]. cbn zeta.
  set (t4 := taken_of mr_ip4 _ _ _ _). set (t6 := taken_of mr_ip6 _ _ _ _). set (rc := if allow_reclaim then _ else _).
  destruct (check_want cfg (V4 <$> _) _); [|cbn; eauto]. destruct (check_want cfg (V6 <$> _) _); [|cbn; eauto].
  pose proof (choose4_survives cfg reg t4 (hard_of mc_preferred_ip4 cfg) rc now member
    (or_else p4 (mc_preferred_ip4 mcfg)) (by_name reg member ≫= mr_ip4) v4net Hwf Hv4) as H4.
  destruct (choose4 _ _ _ _ _ _ _ _ _) as [reg1 r4]. cbn in H4.
  pose proof (choose6_survives cfg reg1 t6 (hard_of mc_preferred_ip6 cfg) rc now member
    (or_else p6 (mc_preferred_ip6 mcfg)) (by_name reg member ≫= mr_ip6) Hwf Hmax) as H6.
  assert (∀ reg', survives rc (v4_exhausted v4net t4 ∨ ∃ n, ipv6_cidr cfg = Some n ∧ v6_exhausted n t6) member reg reg' →
    ∃ rec', rg_members reg' !! id = Some rec' ∧ (rec' = rec ∨ allow_reclaim = true ∧ gave_up leases member id rec rec' ∧
      (v4_exhausted v4net t4 ∨ ∃ n, ipv6_cidr cfg = Some n ∧ v6_exhausted n t6))) as Hfin.
  { intros reg' Hs. destruct (Hs _ _ Hr) as (rec' & ? & [->|(l & Hl & ? & ?)]); [eauto|].
    exists rec'. split; [done|]. right. subst rc. destruct allow_reclaim; [|done]. by simplify_eq. }
  destruct r4 as [ip4|e]; [destruct (choose6 _ _ _ _ _ _ _ _ _) as [reg2 ip6]|]; cbn in H6 |- *; apply Hfin.
  - by eapply survives_trans.
  - eapply survives_trans; [exact H4|apply survives_same].
Qed.

(** ** A full /30 *)

Module IpamExample.
#[local] Existing Instance ipnet_ref.

Definition net30 : IpNet := Net4 (10 * 2 ^ 24) 30.
Definition static (ip : Z) : MemberCfg := mkMemberCfg None None [] None (Some ip) None None None None None.
Definition cfg : NetworkConfig :=
  mkNetworkConfig "n" [net30] settings_default ∅
    (<["a" := static (10 * 2 ^ 24 + 1)]> (<["b" := member_cfg_default]> (<["c" := member_cfg_default]> ∅))).
Definition ra : MemberRecord := set_ip4 (Some (10 * 2 ^ 24 + 1)) 0 (record_new 1 "a" Client 0).
Definition rb : MemberRecord := set_ip4 (Some (10 * 2 ^ 24 + 2)) 0 (record_new 2 "b" Client 0).
Definition reg : Registry := mkRegistry ∅ "u" 3 (<[1 := ra]> (<[2 := rb]> ∅)) 0.
Definition result := allocate_for_join cfg reg leases_default true 1000 "c" None None.

Lemma members_cases id rec : rg_members reg !! id = Some rec → id = 1 ∧ rec = ra ∨ id = 2 ∧ rec = rb.
Proof.
  cbn. rewrite lookup_insert_Some. intros [[-> ->]|[_ H]]; [auto|].
  rewrite lookup_insert_Some in H. destruct H as [[-> ->]|[_ H]]; [auto|]. by rewrite lookup_empty in H.
Qed.

Lemma static_cases name m role a :
  (name, m, role) ∈ cfg_members cfg → mc_preferred_ip4 m = Some a → name = "a" ∧ a = 10 * 2 ^ 24 + 1.
Proof.
  rewrite elem_of_cfg_members. destruct role; cbn; [|by rewrite lookup_empty].
  rewrite !lookup_insert_Some, lookup_empty. intros [[<- <-]|[_ [[_ <-]|[_ [[_ <-]|[_ ?]]]]]]; cbn; intros ?; by simplify_eq.
Qed.

Lemma plan4 : plan_ok mr_ip4 mc_preferred_ip4 cfg reg.
Proof.
  split.
  - intros i j ri rj x Hi Hj Ei Ej.
    apply members_cases in Hi as [[-> ->]|[-> ->]], Hj as [[-> ->]|[-> ->]]; [done| | |done];
      cbn in Ei, Ej; simplify_eq.
  - intros name m role id rec x Hin Hp Hr Ha. destruct (static_cases _ _ _ _ Hin Hp) as [-> ->].
    apply members_cases in Hr as [[-> ->]|[-> ->]]; [done|]. cbn in Ha. simplify_eq.
Qed.

Lemma plan6 : plan_ok mr_ip6 mc_preferred_ip6 cfg reg.
Proof.
  split.
  - intros i j ri rj x Hi Hj Ei. apply members_cases in Hi as [[-> ->]|[-> ->]]; done.
  - intros name m role id rec x _ _ Hr Ha. by apply members_cases in Hr as [[-> ->]|[-> ->]].
Qed.

Lemma wf : Forall wf_net (nc_cidrs cfg).
Proof. repeat constructor; cbn; lia. Qed.
End IpamExample.

(** [c] joins a network whose two hosts are taken: [b], long gone, gives up
    its address; [a], whose address is static, does not. *)
Lemma allocation_sound_witness :
  (IpamExample.result).2 = Ok (mkGranted (Some (10 * 2 ^ 24 + 2)) None) ∧
  free_for mr_ip4 mc_preferred_ip4 IpamExample.cfg (IpamExample.result).1 "c" (10 * 2 ^ 24 + 2).
Proof.
  assert ((IpamExample.result).2 = Ok (mkGranted (Some (10 * 2 ^ 24 + 2)) None)) as E by (vm_compute; reflexivity).
  split; [exact E|].
  destruct (allocation_sound IpamExample.cfg IpamExample.reg (Some leases_default) 1000 "c" None None
    (IpamExample.result).1 (mkGranted (Some (10 * 2 ^ 24 + 2)) None) IpamExample.net30) as [(ip & Hip & Hf) _];
    [exact IpamExample.wf|reflexivity|discriminate|exact IpamExample.plan4|exact IpamExample.plan6| |].
  - rewrite <- E. unfold IpamExample.result, allocate_for_join. by rewrite <- surjective_pairing.
  - injection Hip as <-. exact (proj2 Hf).
Defined.

Lemma reclaim_only_abandoned_witness :
  ∃ rec', rg_members (IpamExample.result).1 !! 2 = Some rec' ∧ mr_ip4 rec' = None ∧
    gave_up leases_default "c" 2 IpamExample.rb rec'.
Proof.
  destruct (reclaim_only_abandoned IpamExample.cfg IpamExample.reg leases_default true 1000 "c" None None
    IpamExample.net30 IpamExample.wf eq_refl ltac:(discriminate) 2 IpamExample.rb eq_refl) as (rec' & Hr & Hcs).
  assert ((rg_members (IpamExample.result).1 !! 2) ≫= mr_ip4 = None) as E by (vm_compute; reflexivity).
  fold IpamExample.result in Hr. rewrite Hr in E. exists rec'. split; [exact Hr|]. split; [exact E|].
  destruct Hcs as [->|(_ & Hg & _)]; [discriminate|exact Hg].
Defined.
