(* ===== verification/NetState.v ===== *)
(** * A network's state at the coordinator (crates/nqvpn-coord/src/state.rs)

    [NetState] with publication and the debounce, and the control sessions of
    crates/nqvpn-coord/src/control.rs: their bounded push queues, catching a
    member up, and the handlers of the session loop and of the liveness sweep.
    Everything here runs under the network's lock, so each handler is one
    atomic step. *)

From S2P Require Import Prelude Ordered Ipnet Control Credential Config Registry Leases Directory.

Definition ISS : string := "nqvpn-coord".
Definition PUBLISH_DEBOUNCE_MS : Z := 150.
Definition PUSH_QUEUE : nat := 256.

(** Application close codes of the control plane. *)
Definition CLOSE_TIMEOUT : Z := 1.
Definition CLOSE_SUPERSEDED : Z := 2.
Definition CTL_CLOSE_EVICTED : Z := 4.
Definition CLOSE_OVERFLOW : Z := 5.
Definition CTL_CLOSE_EXPIRED : Z := 6.

(** What a session's writer task can be asked to send. *)
Inductive Push : Type :=
| PushDelta (d : Delta)
| PushSnapshot (s : Snapshot)
| PushRaw (bytes : list Z)
| PushClose (reason : string).

(** [tokio::sync::mpsc]: a bounded channel seen through the messages not yet
    received. [mpsc_try_send capacity open queue m] is [Sender::try_send], [open]
    saying whether the receiver still exists; it is refused when the channel is
    full or closed, and otherwise the message is the last in line. *)
Class MpscOps := { mpsc_try_send : nat → bool → list Push → Push → option (list Push) }.

Class MpscLaws (Q : MpscOps) : Prop := {
  mpsc_try_send_room cap q m : (length q < cap)%nat → mpsc_try_send cap true q m = Some (q ++ [m]);
  mpsc_try_send_full cap open q m : (cap ≤ length q)%nat → mpsc_try_send cap open q m = None;
  mpsc_try_send_closed cap q m : mpsc_try_send cap false q m = None;
}.

#[export] Instance mpsc_ref : MpscOps := {|
  mpsc_try_send cap open q m := if open && (length q <? cap)%nat then Some (q ++ [m]) else None;
|}.

#[export] Instance mpsc_ref_laws : MpscLaws mpsc_ref.
Proof.
  constructor; intros; cbn [mpsc_try_send mpsc_ref]; [| |done];
    destruct (Nat.ltb_spec (length q) cap); (done || lia || by destruct open).
Qed.

(** A control session: the channel to its writer task is the messages the
    writer has not taken and whether the writer still reads; the connection is
    the code it was closed with, once it was. *)
Record CtlSession := mkCtlSession {
  cs_id : Z;
  cs_node_id : Z;
  cs_role : Role;
  cs_exp : Z;
  cs_login_gen : Z;
  cs_synced : bool;
  cs_queue : list Push;
  cs_writer : bool;
  cs_closed : option Z;
  cs_remote : string;
}.

Record NetState := mkNetState {
  ns_cfg : NetworkConfig;
  ns_registry : Registry;
  ns_directory : Directory;
  ns_leases : Leases;
  ns_sessions : gmap Z CtlSession;
  ns_started_at : Z;
  ns_deleted : bool;
  ns_last_publish_ms : Z;
  ns_flush_scheduled : bool;
  (* the registry last saved by [Db::save_registry] *)
  ns_disk : Registry;
  (* messages sent on the [events] channel *)
  ns_events : Z;
  (* sessions taken out of the map, their connections closed *)
  ns_gone : list CtlSession;
}.

(** ** Setters *)

Definition set_synced (b : bool) (s : CtlSession) : CtlSession :=
  mkCtlSession (cs_id s) (cs_node_id s) (cs_role s) (cs_exp s) (cs_login_gen s) b (cs_queue s) (cs_writer s) (cs_closed s) (cs_remote s).
Definition set_queue (q : list Push) (s : CtlSession) : CtlSession :=
  mkCtlSession (cs_id s) (cs_node_id s) (cs_role s) (cs_exp s) (cs_login_gen s) (cs_synced s) q (cs_writer s) (cs_closed s) (cs_remote s).
(** [Connection::close]: the first close decides. *)
Definition close_conn (code : Z) (s : CtlSession) : CtlSession :=
  mkCtlSession (cs_id s) (cs_node_id s) (cs_role s) (cs_exp s) (cs_login_gen s) (cs_synced s) (cs_queue s) (cs_writer s)
    (match cs_closed s with Some c => Some c | None => Some code end) (cs_remote s).
Definition renew_session (exp login_gen : Z) (s : CtlSession) : CtlSession :=
  mkCtlSession (cs_id s) (cs_node_id s) (cs_role s) exp login_gen (cs_synced s) (cs_queue s) (cs_writer s) (cs_closed s) (cs_remote s).

Definition ns_set_sessions (ss : gmap Z CtlSession) (n : NetState) : NetState :=
  mkNetState (ns_cfg n) (ns_registry n) (ns_directory n) (ns_leases n) ss (ns_started_at n) (ns_deleted n)
    (ns_last_publish_ms n) (ns_flush_scheduled n) (ns_disk n) (ns_events n) (ns_gone n).
Definition ns_set_leases (l : Leases) (n : NetState) : NetState :=
  mkNetState (ns_cfg n) (ns_registry n) (ns_directory n) l (ns_sessions n) (ns_started_at n) (ns_deleted n)
    (ns_last_publish_ms n) (ns_flush_scheduled n) (ns_disk n) (ns_events n) (ns_gone n).
Definition ns_set_directory (d : Directory) (n : NetState) : NetState :=
  mkNetState (ns_cfg n) (ns_registry n) d (ns_leases n) (ns_sessions n) (ns_started_at n) (ns_deleted n)
    (ns_last_publish_ms n) (ns_flush_scheduled n) (ns_disk n) (ns_events n) (ns_gone n).
Definition ns_set_registry (r disk : Registry) (n : NetState) : NetState :=
  mkNetState (ns_cfg n) r (ns_directory n) (ns_leases n) (ns_sessions n) (ns_started_at n) (ns_deleted n)
    (ns_last_publish_ms n) (ns_flush_scheduled n) disk (ns_events n) (ns_gone n).
Definition ns_set_publish (last : Z) (flush : bool) (n : NetState) : NetState :=
  mkNetState (ns_cfg n) (ns_registry n) (ns_directory n) (ns_leases n) (ns_sessions n) (ns_started_at n) (ns_deleted n)
    last flush (ns_disk n) (ns_events n) (ns_gone n).
Definition ns_announce (n : NetState) : NetState :=
  mkNetState (ns_cfg n) (ns_registry n) (ns_directory n) (ns_leases n) (ns_sessions n) (ns_started_at n) (ns_deleted n)
    (ns_last_publish_ms n) (ns_flush_scheduled n) (ns_disk n) (ns_events n + 1) (ns_gone n).
(** A session leaves the map. *)
Definition ns_take_out (node : Z) (s : CtlSession) (n : NetState) : NetState :=
  mkNetState (ns_cfg n) (ns_registry n) (ns_directory n) (ns_leases n) (delete node (ns_sessions n)) (ns_started_at n) (ns_deleted n)
    (ns_last_publish_ms n) (ns_flush_scheduled n) (ns_disk n) (ns_events n) (s :: ns_gone n).

Definition dir_set_mtu (mtu : gmap Z Z) (d : Directory) : Directory :=
  mkDirectory (dir_gen d) (dir_published d) (dir_published_digest d) (dir_ring d) (dir_owners d) (dir_hold_down_secs d)
    (dir_reachability d) mtu (dir_traffic d) (dir_exit_readiness d).
Definition dir_set_exit (exit : gmap Z ExitReadiness) (d : Directory) : Directory :=
  mkDirectory (dir_gen d) (dir_published d) (dir_published_digest d) (dir_ring d) (dir_owners d) (dir_hold_down_secs d)
    (dir_reachability d) (dir_reported_mtu d) (dir_traffic d) exit.

(** ** Push queues *)

Section queues.
Context `{Q : MpscOps}.

(** [s.tx.try_send(p)]. *)
Definition try_send (p : Push) (s : CtlSession) : option CtlSession :=
  (λ q, set_queue q s) <$> mpsc_try_send PUSH_QUEUE (cs_writer s) (cs_queue s) p.

Definition overflow (s : CtlSession) : CtlSession := close_conn CLOSE_OVERFLOW (set_synced false s).

(** The loop over a chain of deltas: the session, and whether all were queued. *)
Fixpoint send_chain (chain : list Delta) (s : CtlSession) : CtlSession * bool :=
  match chain with
  | [] => (s, true)
  | d :: chain' =>
      match try_send (PushDelta d) s with
      | Some s' => send_chain chain' s'
      | None => (overflow s, false)
      end
  end.

Definition catch_up_session (d : Directory) (have_gen : Z) (s : CtlSession) : CtlSession :=
  match deltas_since d have_gen with
  | Some chain => match send_chain chain s with (s', true) => set_synced true s' | (s', false) => s' end
  | None =>
      match try_send (PushSnapshot (dir_published d)) s with
      | Some s' => set_synced true s'
      | None => overflow s
      end
  end.

Definition catch_up (n : NetState) (node have_gen : Z) : NetState :=
  ns_set_sessions (alter (catch_up_session (ns_directory n) have_gen) node (ns_sessions n)) n.

Definition push_delta (d : Delta) (s : CtlSession) : CtlSession :=
  if negb (cs_synced s) then s else
  match try_send (PushDelta d) s with Some s' => s' | None => overflow s end.

Definition broadcast_delta (n : NetState) (d : Delta) : NetState :=
  ns_set_sessions (push_delta d <$> ns_sessions n) n.

(** The last words to a session that leaves the map: [Push::Close] if there is
    room, and the connection closed. *)
Definition dismiss (code : Z) (reason : string) (s : CtlSession) : CtlSession :=
  close_conn code (match try_send (PushClose reason) s with Some s' => s' | None => s end).

Definition close_session_with (n : NetState) (node code : Z) (reason : string) : NetState :=
  match ns_sessions n !! node with
  | Some s => ns_take_out node (dismiss code reason s) n
  | None => n
  end.

Definition close_session (n : NetState) (node : Z) (reason : string) : NetState :=
  close_session_with n node CTL_CLOSE_EVICTED reason.

Definition reconfigure (n : NetState) (node : Z) (why : string) : NetState :=
  close_session_with n node CLOSE_RECONFIGURED why.

Definition reconfigure_all (n : NetState) (why : string) : NetState * nat :=
  let nodes := (map_to_list (ns_sessions n)).*1 in
  (foldl (λ n node, reconfigure n node why) n nodes, length nodes).
End queues.

Section net_state.
Context `{O : IpNetOps, Q : MpscOps}.
Context (enc : Snapshot → list Z).

Definition ns_new (cfg : NetworkConfig) (registry : Registry) (now now_ms : Z) : NetState :=
  mkNetState cfg registry (directory_new enc (initial_gen registry now_ms) (sc_hold_down_secs (nc_settings cfg)))
    leases_default ∅ now false 0 false registry 0 [].

Definition in_grace (n : NetState) (now : Z) : bool :=
  now <? sat_add 64 (ns_started_at n) (sc_restart_grace_secs (nc_settings (ns_cfg n))).

(** [save_ok] says whether [Db::save_registry] succeeds, should it be asked.
    A failure is logged and the delta is broadcast all the same. *)
Definition publish (n : NetState) (keys : list KeyInfo) (now now_ms : Z) (save_ok : bool) : NetState :=
  let n := ns_set_publish now_ms (ns_flush_scheduled n) n in
  match recompute enc (ns_directory n) (ns_cfg n) (ns_registry n) (ns_leases n) keys now now_ms with
  | (d, None) => ns_set_directory d n
  | (d, Some delta) =>
      let n := ns_set_directory d n in
      let '(reg, save) := note_gen (ns_registry n) (dir_gen d) in
      let n := ns_set_registry reg (if save && save_ok then reg else ns_disk n) n in
      ns_announce (broadcast_delta n delta)
  end.

(** The delay after which the caller must [flush], if it must. *)
Definition publish_soon (n : NetState) (keys : list KeyInfo) (now now_ms now_ms' : Z) (save_ok : bool)
    : NetState * option Z :=
  let since := now_ms ⊖ ns_last_publish_ms n in
  if PUBLISH_DEBOUNCE_MS <=? since then (publish n keys now now_ms' save_ok, None) else
  if ns_flush_scheduled n then (n, None) else
  (ns_set_publish (ns_last_publish_ms n) true n, Some (PUBLISH_DEBOUNCE_MS - since)).

(** The timer task of [AppState::publish_soon]. *)
Definition flush (n : NetState) (keys : list KeyInfo) (now now_ms : Z) (save_ok : bool) : NetState :=
  publish (ns_set_publish (ns_last_publish_ms n) false n) keys now now_ms save_ok.

(** [NetState::commit]: a failed save drops the change for the registry on disk;
    [load_ok] says whether that can be read back. *)
Definition commit_registry (n : NetState) (save_ok load_ok : bool) : NetState * bool :=
  if save_ok then (ns_set_registry (ns_registry n) (ns_registry n) n, true) else
  (ns_set_registry (if load_ok then ns_disk n else ns_registry n) (ns_disk n) n, false).

(** ** Sessions *)

Definition session_new (id : Z) (c : Claims) (remote : string) : CtlSession :=
  mkCtlSession id (cl_node_id c) (cl_role c) (cl_exp c) (cl_login_gen c) false [] true None remote.

(** The registration block of [handle_conn], for verified claims. The old
    session is told and closed after the lock is released. *)
Definition register_session (n : NetState) (id : Z) (c : Claims) (remote : string) (have_gen : Z)
    (keys : list KeyInfo) (now now_ms now_ms' : Z) (save_ok : bool) : NetState * Z :=
  let node := cl_node_id c in
  let superseded := ns_sessions n !! node in
  let n := match superseded with
           | Some old => ns_take_out node (dismiss CLOSE_SUPERSEDED "superseded" old) n
           | None => n
           end in
  let n := ns_set_sessions (<[node := session_new id c remote]> (ns_sessions n)) n in
  let n := ns_set_leases (seen (ns_leases n) node now_ms).1 n in
  let n := publish n keys now now_ms' save_ok in
  let gen := dir_gen (ns_directory n) in
  ((if negb (in_grace n now) then catch_up n node have_gen else n), gen).

(** The teardown block of [handle_conn]. *)
Definition teardown (n : NetState) (node session_id : Z) (keys : list KeyInfo) (now now_ms : Z) (save_ok : bool) : NetState :=
  match ns_sessions n !! node with
  | Some s =>
      if cs_id s =? session_id then
        let n := ns_take_out node s n in
        let n := ns_set_leases (offline (ns_leases n) node) n in
        let d := ns_directory n in
        let n := ns_set_directory (dir_set_exit (delete node (dir_exit_readiness d))
                                     (dir_set_mtu (delete node (dir_reported_mtu d)) d)) n in
        publish n keys now now_ms save_ok
      else n
  | None => n
  end.

(** ** The session loop's handlers *)

Definition on_heartbeat (n : NetState) (node : Z) (role : Role) (hb : Heartbeat) (keys : list KeyInfo)
    (now now_ms now_ms' now_ms'' : Z) (save_ok : bool) : NetState * option Z :=
  let members := rg_members (ns_registry n) in
  let is_client := λ k, match members !! k with Some r => bool_decide (mr_role r = Client) | None => false end in
  let '(l, changed) := heartbeat (ns_leases n) node role hb now_ms is_client (size members) in
  let n := ns_set_leases l n in
  let '(n, mtu_changed) :=
    if 0 <? hb_usable_mtu hb then
      let q := quantize_mtu (hb_usable_mtu hb) (sc_mtu (nc_settings (ns_cfg n))) in
      let d := ns_directory n in
      (ns_set_directory (dir_set_mtu (<[node := q]> (dir_reported_mtu d)) d) n,
       negb (bool_decide (dir_reported_mtu d !! node = Some q)))
    else (n, false) in
  let n :=
    match hb_traffic hb, role with
    | Some t, Relay =>
        ns_set_directory (record_traffic (ns_directory n) node t now (λ k, bool_decide (is_Some (members !! k))) (size members)) n
    | _, _ => n
    end in
  let '(n, timer) := if changed || mtu_changed then publish_soon n keys now now_ms' now_ms'' save_ok else (n, None) in
  if in_grace n now then (n, timer) else
  let d := ns_directory n in
  if negb (hb_gen hb =? dir_gen d) then (catch_up n node (hb_gen hb), timer) else
  if negb (hb_digest hb =? dir_published_digest d) then (catch_up n node 0, timer) else
  (n, timer).

(** [None]: the session ends with an error. *)
Definition on_exit_readiness (n : NetState) (node : Z) (role : Role) (er : ExitReadiness) (keys : list KeyInfo)
    (now now_ms now_ms' : Z) (save_ok : bool) : option (NetState * option Z) :=
  if negb (bool_decide (role = Relay)) then None else
  let d := ns_directory n in
  let n := ns_set_directory (dir_set_exit (<[node := er]> (dir_exit_readiness d)) d) n in
  if negb (bool_decide (dir_exit_readiness d !! node = Some er))
  then Some (publish_soon n keys now now_ms now_ms' save_ok) else Some (n, None).

Definition on_resync (n : NetState) (node have_gen now : Z) : NetState :=
  if negb (in_grace n now) then catch_up n node have_gen else n.

(** [on_refresh] takes the outcome of [verify_credential]. *)
Definition on_refresh (n : NetState) (node : Z) (role : Role) (fp network_id : string) (claims : Claims) (net_id : string)
    (now_ms : Z) : option NetState :=
  if negb (String.eqb net_id network_id) || negb (cl_node_id claims =? node) ||
     negb (bool_decide (cl_role claims = role)) || negb (String.eqb (cl_cert_fp claims) fp) then None else
  let n := ns_set_sessions (alter (renew_session (cl_exp claims) (cl_login_gen claims)) node (ns_sessions n)) n in
  Some (ns_set_leases (seen (ns_leases n) node now_ms).1 n).

(** ** The liveness sweep, for one network *)

Definition sweep_gone (n : NetState) (node : Z) : NetState :=
  let d := ns_directory n in
  let n := ns_set_directory (dir_set_mtu (delete node (dir_reported_mtu d)) d) n in
  close_session_with n node CLOSE_TIMEOUT "keepalive timeout".

Definition sweep (n : NetState) (keys : list KeyInfo) (now now_ms now_ms' : Z) (save_ok : bool) : NetState :=
  let n := ns_set_directory (dir_prune_traffic (ns_directory n) now) n in
  let window := liveness_window_secs (nc_settings (ns_cfg n)) in
  let '(l, gone) := expire (ns_leases n) now_ms (window * 1000) in
  let n := foldl sweep_gone (ns_set_leases l n) gone in
  let expired := cs_node_id <$> List.filter (λ s, cs_exp s <=? now) (map_to_list (ns_sessions n)).*2 in
  let n := foldl (λ n node, close_session_with n node CTL_CLOSE_EXPIRED "credential expired") n expired in
  publish n keys now now_ms' save_ok.
End net_state.

(** ** Admission to the control plane *)

Section verify_credential.
Context `{L : CredLib}.

Inductive AdmitError : Type :=
| UnknownNetwork
| NetworkDeleted
| Rejected (e : CredError)
| MalformedCredential
| UnknownNode
| NodeMismatch
| NodeDisabled
| ReplacedBy (login_gen current : Z)
| FpMismatch.

Definition verify_credential (nets : string → option NetState) (keys : list (string * VerifyingKey))
    (token presented_fp : string) (now : Z) : Result (Claims * string) AdmitError :=
  match peek_network token with
  | None => Err MalformedCredential
  | Some unverified_net =>
      match nets unverified_net with
      | None => Err UnknownNetwork
      | Some n =>
          if ns_deleted n then Err NetworkDeleted else
          let id := default 0 (peek_node_id token) in
          let rec := rg_members (ns_registry n) !! id in
          match verify token keys (mkExpected ISS unverified_net (rg_network_uuid (ns_registry n))) now with
          | Err e => Err (Rejected e)
          | Ok claims =>
              match rec with
              | None => Err UnknownNode
              | Some rec =>
                  if negb (mr_node_id rec =? cl_node_id claims) then Err NodeMismatch else
                  if mr_disabled rec then Err NodeDisabled else
                  if cl_login_gen claims <? mr_login_gen rec then Err (ReplacedBy (cl_login_gen claims) (mr_login_gen rec)) else
                  if negb (String.eqb (cl_cert_fp claims) presented_fp) then Err FpMismatch else
                  Ok (claims, unverified_net)
              end
          end
      end
  end.
End verify_credential.
