(* ===== verification/Sync.v ===== *)
(** * The member's view and the control protocol (crates/nqvpn-sync/src/link.rs)

    [View] and the read loop of [run_session], and, with the coordinator's side
    of [NetState], the whole protocol between the coordinator of a network and
    one of its members: pushes, catch-up, heartbeats, resync, reconnects. *)

From S2P Require Import Prelude Ordered Ipnet Control Credential Config Registry Leases Directory NetState.

(** ** [View] *)

Record View := mkView { vw_snap : Snapshot; vw_changed : Z }.

Definition view_new : View := mkView snapshot_default 0.
Definition view_gen (v : View) : Z := s_gen (vw_snap v).
Definition view_digest (enc : Snapshot → list Z) (v : View) : Z := digest enc (vw_snap v).
Definition replace (v : View) (s : Snapshot) : View := mkView s (vw_changed v ⊕ 1).
Definition poke (v : View) : View := mkView (vw_snap v) (vw_changed v ⊕ 1).

Definition install (v : View) (s : Snapshot) : View * Result unit Z :=
  let s := normalize s in
  if s_gen s <? view_gen v then (v, Err (view_gen v)) else (mkView s (vw_changed v ⊕ 1), Ok tt).

Definition view_apply (v : View) (d : Delta) : View * Result unit GenerationGap :=
  match apply (vw_snap v) d with
  | (s, Err gap) => (mkView s (vw_changed v), Err gap)
  | (s, Ok _) =>
      if negb (s_gen s =? view_gen v) then (mkView s (vw_changed v ⊕ 1), Ok tt) else (mkView s (vw_changed v), Ok tt)
  end.

(** ** The read loop of [run_session] *)

(** Capacity of the channel that carries resync requests to the writer. *)
Definition RESYNC_QUEUE : nat := 4.

(** One message of the control stream: the view, and the resync it asks for. *)
Definition on_push (v : View) (m : Push) : View * option Z :=
  match m with
  | PushSnapshot s => ((install v s).1, None)
  | PushDelta d =>
      match view_apply v d with
      | (v, Err gap) => (v, Some (gg_have gap))
      | (v, Ok _) => (v, None)
      end
  | PushRaw _ | PushClose _ => (v, None)
  end.

Definition ask_resync (q : list Z) (r : option Z) : list Z :=
  match r with
  | Some have => if (length q <? RESYNC_QUEUE)%nat then q ++ [have] else q
  | None => q
  end.

(** ** The protocol between the coordinator and one member *)

Inductive UpMsg : Type :=
| UpResync (have_gen : Z)
| UpBeat (hb : Heartbeat).

Definition up_gen (u : UpMsg) : Z := match u with UpResync g => g | UpBeat hb => hb_gen hb end.

(** The coordinator's network; the member's view; and of the member's present
    connection its session id, the messages on the wire in both directions and
    the resync requests not yet written. *)
Record Sys := mkSys {
  sy_net : NetState;
  sy_view : View;
  sy_conn : option Z;
  sy_wire : list Push;
  sy_resync : list Z;
  sy_up : list UpMsg;
}.

(** What the protocol depends on in a directory. *)
Definition dir_core (d : Directory) : Z * Snapshot * Z * list Delta :=
  (dir_gen d, dir_published d, dir_published_digest d, dir_ring d).

Definition set_hb_view (gen dg : Z) (hb : Heartbeat) : Heartbeat :=
  mkHeartbeat gen dg (hb_attached hb) (hb_mesh_up hb) (hb_attached_to hb) (hb_usable_mtu hb) (hb_traffic hb).

(** The history after a handler: longer by the view it published, if it did. *)
Definition grown (n n' : NetState) (snaps : list Snapshot) : list Snapshot :=
  if decide (dir_published (ns_directory n') = dir_published (ns_directory n)) then snaps
  else snaps ++ [dir_published (ns_directory n')].

Section protocol.
Context `{O : IpNetOps, Q : MpscOps}.
Context (enc : Snapshot → list Z) (node : Z) (role : Role).

(** The steps, with every snapshot the coordinator published, oldest first.
    [st_facts] stands for all the coordinator does that neither publishes nor
    touches this member's session: other members' sessions and heartbeats,
    registry and configuration changes, saves. *)
Inductive sys_step : Sys * list Snapshot → Sys * list Snapshot → Prop :=
| st_facts n n' v c w r u snaps :
    dir_core (ns_directory n') = dir_core (ns_directory n) → ns_sessions n' !! node = ns_sessions n !! node →
    sys_step (mkSys n v c w r u, snaps) (mkSys n' v c w r u, snaps)
| st_publish n v c w r u snaps keys now now_ms save_ok n' :
    u_range 64 (dir_gen (ns_directory n) + 1) → n' = publish enc n keys now now_ms save_ok →
    sys_step (mkSys n v c w r u, snaps)
      (mkSys n' v c w r u, grown n n' snaps)
| st_raw n v c w r u snaps s bytes s' :
    ns_sessions n !! node = Some s → try_send (PushRaw bytes) s = Some s' →
    sys_step (mkSys n v c w r u, snaps) (mkSys (ns_set_sessions (<[node := s']> (ns_sessions n)) n) v c w r u, snaps)
| st_write n v c w r u snaps s m q :
    ns_sessions n !! node = Some s → c = Some (cs_id s) → cs_queue s = m :: q → (∀ reason, m ≠ PushClose reason) →
    sys_step (mkSys n v c w r u, snaps)
      (mkSys (ns_set_sessions (<[node := set_queue q s]> (ns_sessions n)) n) v c (w ++ [m]) r u, snaps)
| st_recv n v c w r u snaps m :
    sys_step (mkSys n v c (m :: w) r u, snaps)
      (mkSys n (on_push v m).1 c w (ask_resync r (on_push v m).2) u, snaps)
| st_ask n v c w g r u snaps :
    sys_step (mkSys n v c w (g :: r) u, snaps) (mkSys n v c w r (u ++ [UpResync g]), snaps)
| st_beat n v c w r u snaps hb :
    sys_step (mkSys n v c w r u, snaps)
      (mkSys n v c w r (u ++ [UpBeat (set_hb_view (view_gen v) (view_digest enc v) hb)]), snaps)
| st_resync n v c w r u snaps g now :
    sys_step (mkSys n v c w r (UpResync g :: u), snaps) (mkSys (on_resync n node g now) v c w r u, snaps)
| st_heartbeat n v c w r u snaps hb keys now t1 t2 t3 save_ok n' timer :
    u_range 64 (dir_gen (ns_directory n) + 1) →
    on_heartbeat enc n node role hb keys now t1 t2 t3 save_ok = (n', timer) →
    sys_step (mkSys n v c w r (UpBeat hb :: u), snaps)
      (mkSys n' v c w r u, grown n n' snaps)
| st_hello n v c w r u snaps id cl remote keys now t1 t2 save_ok n' :
    u_range 64 (dir_gen (ns_directory n) + 1) → cl_node_id cl = node →
    n' = (register_session enc n id cl remote (view_gen v) keys now t1 t2 save_ok).1 →
    sys_step (mkSys n v c w r u, snaps)
      (mkSys n' v (Some id) [] [] [], grown n n' snaps)
| st_closed n n' v c w r u snaps :
    dir_core (ns_directory n') = dir_core (ns_directory n) → ns_sessions n' !! node = None →
    sys_step (mkSys n v c w r u, snaps) (mkSys n' v c w r u, snaps)
| st_lost n v c w r u snaps : sys_step (mkSys n v c w r u, snaps) (mkSys n v None [] [] [], snaps)
| st_restart n v c w r u snaps : sys_step (mkSys n v c w r u, snaps) (mkSys n view_new None [] [] [], snaps).

(** What the member's view becomes when the messages in flight arrive. *)
Definition arrive (s : Snapshot) (m : Push) : Snapshot := vw_snap (on_push (mkView s 0) m).1.
Definition in_flight (sy : Sys) : list Push :=
  sy_wire sy ++ match ns_sessions (sy_net sy) !! node with Some s => cs_queue s | None => [] end.
Definition view_ahead (sy : Sys) : Snapshot := foldl arrive (vw_snap (sy_view sy)) (in_flight sy).

(** The member's connection is the session the coordinator holds for it, and
    the coordinator has not closed it. *)
Definition live (sy : Sys) (s : CtlSession) : Prop :=
  ns_sessions (sy_net sy) !! node = Some s ∧ sy_conn sy = Some (cs_id s) ∧ cs_closed s = None.

Definition sys_start (cfg : NetworkConfig) (reg : Registry) (now now_ms : Z) (v : View) : Sys * list Snapshot :=
  let n := ns_new enc cfg reg now now_ms in
  (mkSys n v None [] [] [], [dir_published (ns_directory n)]).

Definition sys_reach (cfg : NetworkConfig) (reg : Registry) (now now_ms : Z) (v : View) (sy : Sys) (snaps : list Snapshot) : Prop :=
  rtc sys_step (sys_start cfg reg now now_ms v) (sy, snaps).
End protocol.

(** ** Messages against the published history *)

Definition msg_ok (snaps : list Snapshot) (m : Push) : Prop :=
  match m with
  | PushDelta d => d ∈ pair_diffs snaps
  | PushSnapshot s => s ∈ snaps
  | PushRaw _ | PushClose _ => True
  end.

Definition is_raw (m : Push) : Prop := match m with PushDelta _ | PushSnapshot _ => False | _ => True end.

(** A view is one the coordinator published, or older than all of them. *)
Definition view_ok (g0 : Z) (snaps : list Snapshot) (v : Snapshot) : Prop := v ∈ snaps ∨ s_gen v < g0.

Definition hist_ok (g0 : Z) (snaps : list Snapshot) : Prop :=
  Forall is_normal snaps ∧ gen_sorted snaps ∧ Forall (λ s, g0 ≤ s_gen s) snaps.

Lemma arrive_unfold s m :
  arrive s m = match m with
               | PushDelta d => (apply s d).1
               | PushSnapshot s' => if s_gen s' <? s_gen s then s else normalize s'
               | _ => s
               end.
Proof.
  unfold arrive, on_push, install, view_apply, view_gen. destruct m as [d|s'| |]; cbn [vw_snap]; try done.
  - destruct (apply s d) as [s1 [|]]; cbn; [|done]. by destruct (negb _).
  - change (s_gen (normalize s')) with (s_gen s'). by destruct (_ <? _).
Qed.

Lemma on_push_arrive v m : vw_snap (on_push v m).1 = arrive (vw_snap v) m.
Proof.
  rewrite arrive_unfold. unfold on_push, install, view_apply, view_gen. destruct m as [d|s'| |]; cbn [vw_snap]; try done.
  - destruct (apply _ d) as [s1 [|]]; cbn; [|done]. by destruct (negb _).
  - change (s_gen (normalize s')) with (s_gen s'). by destruct (_ <? _).
Qed.

Lemma on_push_raw v m : is_raw m → on_push v m = (v, None).
Proof. by destruct m. Qed.

Lemma arrive_raws s ms : Forall is_raw ms → foldl arrive s ms = s.
Proof. induction 1 as [|m ms Hm _ IH]; [done|]. cbn. destruct m; done. Qed.

Lemma pair_diffs_elem snaps d : d ∈ pair_diffs snaps → ∃ i a b, snaps !! i = Some a ∧ snaps !! S i = Some b ∧ d = diff a b.
Proof.
  induction snaps as [|a snaps IH]; cbn; [by intros ?%elem_of_nil|]. destruct snaps as [|b snaps]; [by intros ?%elem_of_nil|].
  intros [->|Hd]%elem_of_cons; [by exists 0%nat, a, b|]. destruct (IH Hd) as (i & x & y & ? & ? & ?). by exists (S i), x, y.
Qed.

Lemma gen_sorted_lookup l i a b : gen_sorted l → l !! i = Some a → l !! S i = Some b → s_gen a < s_gen b.
Proof.
  intros Hs. revert i. induction Hs as [|x l Hs IH Hx]; intros i; [done|]. destruct i as [|i]; cbn; [|apply IH].
  intros [= <-] Hb. rewrite Forall_forall in Hx. by apply Hx, (list_elem_of_lookup_2 _ 0%nat).
Qed.

(** A delta of the history: between two published snapshots. *)
Lemma delta_ok g0 snaps d :
  hist_ok g0 snaps → d ∈ pair_diffs snaps →
  ∃ a b, a ∈ snaps ∧ b ∈ snaps ∧ d = diff a b ∧ s_gen a < s_gen b ∧ apply a d = (b, Ok tt).
Proof.
  intros (Hn & Hs & _) (i & a & b & Ha & Hb & ->)%pair_diffs_elem. rewrite Forall_forall in Hn.
  assert (s_gen a < s_gen b) by by eapply gen_sorted_lookup. exists a, b.
  pose proof (list_elem_of_lookup_2 _ _ _ Ha). pose proof (list_elem_of_lookup_2 _ _ _ Hb).
  split_and!; try done. apply diff_apply; auto.
Qed.

(** A message keeps the view one of the published ones, and never takes it back. *)
Lemma arrive_ok g0 snaps v m :
  hist_ok g0 snaps → msg_ok snaps m → view_ok g0 snaps v → view_ok g0 snaps (arrive v m) ∧ s_gen v ≤ s_gen (arrive v m).
Proof.
  intros Hh Hm Hv. rewrite arrive_unfold. destruct m as [d|s| |]; cbn in Hm; try (split; [done|lia]).
  - destruct (delta_ok _ _ _ Hh Hm) as (a & b & Ha & Hb & -> & Hlt & Happ).
    destruct (Z.leb_spec (s_gen b) (s_gen v)).
    { rewrite apply_duplicate by done. split; [done|]. cbn. lia. }
    destruct (decide (s_gen a = s_gen v)) as [He|Hne].
    + destruct Hv as [Hv|Hv].
      * destruct Hh as (_ & Hs & _). rewrite (gen_sorted_inj _ v a Hs Hv Ha) by done. rewrite Happ. split; [by left|cbn; lia].
      * destruct Hh as (_ & _ & Hg). rewrite Forall_forall in Hg. specialize (Hg _ Ha). cbn in Hg. lia.
    + unfold apply. cbn [diff d_gen d_base_gen]. rewrite (proj2 (Z.leb_gt _ _)) by done.
      rewrite (proj2 (Z.eqb_neq _ _)) by done. cbn. split; [done|lia].
  - destruct (Z.ltb_spec (s_gen s) (s_gen v)); [split; [done|lia]|]. destruct Hh as (Hn & _). rewrite Forall_forall in Hn.
    rewrite normalize_id by auto. split; [by left|lia].
Qed.

(** The newest view is a fixed point of everything in the history. *)
Lemma arrive_newest g0 snaps p ms :
  hist_ok g0 snaps → p ∈ snaps → Forall (λ s, s_gen s ≤ s_gen p) snaps → Forall (msg_ok snaps) ms → foldl arrive p ms = p.
Proof.
  intros Hh Hp Hmax. induction 1 as [|m ms Hm _ IH]; [done|]. cbn [foldl].
  assert (arrive p m = p) as ->; [|done]. rewrite Forall_forall in Hmax. rewrite arrive_unfold.
  destruct m as [d|s| |]; cbn in Hm; try done.
  - destruct (delta_ok _ _ _ Hh Hm) as (a & b & _ & Hb & -> & _ & _). rewrite apply_duplicate; [done|]. by apply Hmax.
  - destruct (Z.ltb_spec (s_gen s) (s_gen p)); [done|]. destruct Hh as (Hn & Hs & _). rewrite Forall_forall in Hn.
    rewrite normalize_id by auto. apply (gen_sorted_inj snaps); [done..|]. specialize (Hmax _ Hm). cbn in Hmax. lia.
Qed.

Lemma arrive_chain s chain s' :
  apply_chain s chain = (s', Ok tt) → foldl arrive s (PushDelta <$> chain) = s'.
Proof.
  revert s. induction chain as [|d chain IH]; intros s; cbn; [by intros [= <-]|].
  rewrite arrive_unfold. destruct (apply s d) as [s1 [u|e]]; cbn; [|done]. apply IH.
Qed.

Lemma pair_diffs_mono snaps x d : d ∈ pair_diffs snaps → d ∈ pair_diffs (snaps ++ [x]).
Proof.
  destruct snaps as [|a l _] using rev_ind; [by intros ?%elem_of_nil|]. intros Hd. rewrite pair_diffs_push. set_solver.
Qed.

Lemma msg_ok_mono snaps x m : msg_ok snaps m → msg_ok (snaps ++ [x]) m.
Proof. destruct m; cbn; [apply pair_diffs_mono|set_solver|done..]. Qed.

(** ** The session's side *)

(** What [catch_up] queues. *)
Definition catch_up_msgs (d : Directory) (have_gen : Z) : list Push :=
  match deltas_since d have_gen with
  | Some chain => PushDelta <$> chain
  | None => [PushSnapshot (dir_published d)]
  end.

Section queue.
Context `{Q : MpscOps, !MpscLaws Q}.

Lemma try_send_some p s s' :
  try_send p s = Some s' → s' = set_queue (cs_queue s ++ [p]) s ∧ (length (cs_queue s) < PUSH_QUEUE)%nat.
Proof.
  unfold try_send. intros (q & Hq & ->)%fmap_Some. destruct (cs_writer s); [|by rewrite mpsc_try_send_closed in Hq].
  destruct (decide (length (cs_queue s) < PUSH_QUEUE)%nat); [|by rewrite mpsc_try_send_full in Hq by lia].
  rewrite mpsc_try_send_room in Hq by done. by injection Hq as <-.
Qed.

Lemma close_conn_closed code s : cs_closed (close_conn code s) ≠ None.
Proof. cbn. by destruct (cs_closed s). Qed.

Lemma send_chain_spec chain s :
  match send_chain chain s with
  | (s', true) => s' = set_queue (cs_queue s ++ (PushDelta <$> chain)) s
  | (s', false) => cs_closed s' ≠ None ∧ cs_id s' = cs_id s ∧ ∃ k, cs_queue s' = cs_queue s ++ (PushDelta <$> take k chain)
  end.
Proof.
  revert s. induction chain as [|d chain IH]; intros s; cbn [send_chain].
  - cbn. rewrite app_nil_r. by destruct s.
  - destruct (try_send (PushDelta d) s) as [s1|] eqn:E.
    + apply try_send_some in E as [-> _]. specialize (IH (set_queue (cs_queue s ++ [PushDelta d]) s)).
      destruct (send_chain chain _) as [s2 []].
      * rewrite IH. cbn. by rewrite <- (assoc_L (++)).
      * destruct IH as (? & ? & k & Hk). split; [done|]. split; [done|]. exists (S k). rewrite Hk. cbn. by rewrite <- (assoc_L (++)).
    + split; [apply close_conn_closed|]. split; [done|]. exists 0%nat. cbn. by rewrite app_nil_r.
Qed.

Lemma catch_up_session_cases d g s :
  let s' := catch_up_session d g s in
  s' = set_synced true (set_queue (cs_queue s ++ catch_up_msgs d g) s) ∨
  cs_closed s' ≠ None ∧ ∃ k, cs_queue s' = cs_queue s ++ take k (catch_up_msgs d g).
Proof.
  cbn zeta. unfold catch_up_session, catch_up_msgs. destruct (deltas_since d g) as [chain|].
  - pose proof (send_chain_spec chain s) as Hs. destruct (send_chain chain s) as [s' []]; [left; by rewrite Hs|].
    right. destruct Hs as (? & _ & k & ->). split; [done|]. exists k. by rewrite fmap_take.
  - destruct (try_send _ s) as [s'|] eqn:E; [left; by apply try_send_some in E as [-> _]|].
    right. split; [apply close_conn_closed|]. exists 0%nat. cbn. by rewrite app_nil_r.
Qed.
End queue.

(** ** The invariant *)

Section inv.
Context `{O : IpNetOps, Q : MpscOps, !MpscLaws Q}.
Context (enc : Snapshot → list Z) (node : Z) (role : Role) (g0 : Z).

(** The generations the member's requests on this connection name. *)
Definition requests (sy : Sys) : list Z := sy_resync sy ++ (up_gen <$> sy_up sy).

(** A live session, synced: what is in flight leads to the published view.
    Not synced: nothing is in flight that would move the member's view. *)
Definition session_inv (sy : Sys) (s : CtlSession) : Prop :=
  if cs_synced s then view_ahead node sy = dir_published (ns_directory (sy_net sy))
  else Forall is_raw (in_flight node sy) ∧ Forall (λ g, g = view_gen (sy_view sy)) (requests sy).

Definition sys_inv (p : Sys * list Snapshot) : Prop :=
  let '(sy, snaps) := p in
  dir_inv enc (ns_directory (sy_net sy)) snaps ∧ Forall (λ s, g0 ≤ s_gen s) snaps ∧
  view_ok g0 snaps (vw_snap (sy_view sy)) ∧ Forall (msg_ok snaps) (in_flight node sy) ∧
  ∀ s, live node sy s → session_inv sy s.

Lemma dir_inv_hist d snaps : dir_inv enc d snaps → Forall (λ s, g0 ≤ s_gen s) snaps → hist_ok g0 snaps.
Proof. by intros (_ & _ & _ & ? & ? & _) ?. Qed.

Lemma dir_inv_core d d' snaps : dir_core d' = dir_core d → dir_inv enc d snaps → dir_inv enc d' snaps.
Proof. unfold dir_core, dir_inv. intros [= -> -> -> ->]. done. Qed.

Lemma published_newest d snaps :
  dir_inv enc d snaps → dir_published d ∈ snaps ∧ Forall (λ s, s_gen s ≤ s_gen (dir_published d)) snaps.
Proof.
  intros ((before & ->) & _ & _ & _ & Hs & _). split; [set_solver|]. apply Forall_app. split; [|by constructor].
  eapply Forall_impl; [by apply gen_sorted_last|]. cbn. lia.
Qed.

(** The messages of a catch-up belong to the history ... *)
Lemma catch_up_msgs_ok d snaps g : dir_inv enc d snaps → Forall (msg_ok snaps) (catch_up_msgs d g).
Proof.
  intros Hi. pose proof (published_newest _ _ Hi) as [Hp _]. unfold catch_up_msgs.
  destruct (decide (g = dir_gen d)) as [->|Hne].
  { unfold deltas_since. rewrite Z.eqb_refl. constructor. }
  pose proof (deltas_since_cases enc d snaps g Hi Hne) as Hc.
  destruct (deltas_since d g) as [chain|]; [|by repeat constructor].
  destruct Hc as (j & s & l & Hd & _ & ->). apply Forall_fmap, Forall_forall. intros x Hx. cbn.
  rewrite <- Hd, <- pair_diffs_drop in Hx. apply list_elem_of_lookup in Hx as [i Hx]. rewrite lookup_drop in Hx.
  by eapply list_elem_of_lookup_2.
Qed.

(** ... and take the view they are for to the published one. *)
Lemma catch_up_msgs_lead d snaps v :
  dir_inv enc d snaps → Forall (λ s, g0 ≤ s_gen s) snaps → view_ok g0 snaps v →
  foldl arrive v (catch_up_msgs d (s_gen v)) = dir_published d.
Proof.
  intros Hi Hg Hv. pose proof (published_newest _ _ Hi) as [Hp Hmax]. pose proof Hi as ((before & Hb) & Hgen & _ & Hn & Hs & _).
  rewrite Forall_forall in Hg. rewrite Forall_forall in Hmax. unfold catch_up_msgs.
  destruct (decide (s_gen v = dir_gen d)) as [He|Hne].
  { unfold deltas_since. rewrite He, Z.eqb_refl. cbn. destruct Hv as [Hv|Hv].
    - apply (gen_sorted_inj snaps); [done..|]. by rewrite He.
    - specialize (Hg _ Hp). cbn in Hg. lia. }
  pose proof (deltas_since_cases enc d snaps (s_gen v) Hi Hne) as Hc. destruct (deltas_since d (s_gen v)) as [chain|].
  - destruct Hc as (j & s & l & Hd & Hgs & ->). assert (s ∈ snaps) as Hin by by eapply elem_of_drop_cons.
    assert (v = s) as ->.
    { destruct Hv as [Hv|Hv]; [by apply (gen_sorted_inj snaps)|]. specialize (Hg _ Hin). cbn in Hg. lia. }
    apply arrive_chain. rewrite chain_applies.
    + f_equal. rewrite Hb in Hd. by eapply suffix_last.
    + rewrite <- Hd. by apply Forall_drop.
    + rewrite <- Hd. by apply gen_sorted_drop.
  - cbn. rewrite arrive_unfold. rewrite normalize_id by (rewrite Forall_forall in Hn; auto).
    destruct (Z.ltb_spec (s_gen (dir_published d)) (s_gen v)); [|done]. exfalso. destruct Hv as [Hv|Hv].
    + specialize (Hmax _ Hv). cbn in Hmax. lia.
    + specialize (Hg _ Hp). cbn in Hg. lia.
Qed.

Definition set_net (n : NetState) (sy : Sys) : Sys :=
  mkSys n (sy_view sy) (sy_conn sy) (sy_wire sy) (sy_resync sy) (sy_up sy).

(** A coordinator action that keeps the published core and the session. *)
Lemma inv_frame sy snaps n' :
  dir_core (ns_directory n') = dir_core (ns_directory (sy_net sy)) →
  ns_sessions n' !! node = ns_sessions (sy_net sy) !! node →
  sys_inv (sy, snaps) → sys_inv (set_net n' sy, snaps).
Proof.
  intros Hd Hs (H1 & H2 & H3 & H4 & H5). split; [by eapply dir_inv_core|]. split; [done|]. split; [done|].
  unfold in_flight in *. cbn. rewrite Hs. split; [done|]. intros s [Hl Hc]. cbn in Hl, Hc. rewrite Hs in Hl.
  specialize (H5 s (conj Hl Hc)). unfold session_inv, view_ahead, in_flight in *. cbn. rewrite Hs.
  injection Hd as ? -> ? ?. done.
Qed.

(** Catching the session up is fine for a synced session, for a member that
    holds the generation named, and for one that holds the newest view. *)
Lemma inv_catch_up sy snaps g :
  sys_inv (sy, snaps) →
  (∀ s, live node sy s → cs_synced s = false →
     g = view_gen (sy_view sy) ∨ vw_snap (sy_view sy) = dir_published (ns_directory (sy_net sy))) →
  sys_inv (set_net (catch_up (sy_net sy) node g) sy, snaps).
Proof.
  intros (H1 & H2 & H3 & H4 & H5) Hg. split; [done|]. split; [done|]. split; [done|].
  pose proof (catch_up_msgs_ok _ _ g H1) as Hm. pose proof (published_newest _ _ H1) as [Hp Hmax].
  pose proof (dir_inv_hist _ _ H1 H2) as Hh.
  unfold session_inv, view_ahead, in_flight, live in *. cbn. rewrite lookup_alter_eq.
  destruct (ns_sessions (sy_net sy) !! node) as [s|] eqn:Es; cbn; [|split; [done|by intros ? [? _]]].
  apply Forall_app in H4 as [Hw Hq].
  destruct (catch_up_session_cases (ns_directory (sy_net sy)) g s) as [->|(Hcl & k & Hk)].
  - split; [cbn; by rewrite !Forall_app|]. intros ? ([= <-] & Hc & Hcl). cbn in Hc, Hcl. cbn [set_synced set_queue cs_synced cs_queue].
    rewrite (assoc_L (++)), foldl_app. specialize (H5 s (conj eq_refl (conj Hc Hcl))).
    destruct (cs_synced s) eqn:Esy.
    + rewrite H5. by eapply arrive_newest.
    + destruct H5 as [Hraw Hrq]. rewrite (arrive_raws _ (sy_wire sy ++ cs_queue s)) by done. destruct (Hg s (conj eq_refl (conj Hc Hcl)) Esy) as [->| ->].
      * by eapply catch_up_msgs_lead.
      * by eapply arrive_newest.
  - split; [rewrite Hk, !Forall_app; auto using Forall_take|].
    intros ? ([= <-] & _ & Hn). done.
Qed.
End inv.

Section inv_handlers.
Context `{O : IpNetOps, Q : MpscOps, !MpscLaws Q}.
Context (enc : Snapshot → list Z) (node : Z) (role : Role) (g0 : Z).

Lemma grown_same n n' snaps : dir_core (ns_directory n') = dir_core (ns_directory n) → grown n n' snaps = snaps.
Proof. unfold grown. intros [= _ -> _ _]. by rewrite decide_True. Qed.

(** The two outcomes of [publish]. *)
Lemma publish_cases n keys now now_ms save_ok snaps :
  let n' := publish enc n keys now now_ms save_ok in
  dir_inv enc (ns_directory n) snaps → u_range 64 (dir_gen (ns_directory n) + 1) →
  (dir_core (ns_directory n') = dir_core (ns_directory n) ∧ ns_sessions n' = ns_sessions n) ∨
  (∃ δ, δ = diff (dir_published (ns_directory n)) (dir_published (ns_directory n')) ∧
     s_gen (dir_published (ns_directory n)) < s_gen (dir_published (ns_directory n')) ∧
     ns_sessions n' = push_delta δ <$> ns_sessions n ∧
     dir_inv enc (ns_directory n') (snaps ++ [dir_published (ns_directory n')])).
Proof.
  intros n' Hi Hu. subst n'. unfold publish. cbn [ns_set_publish ns_directory ns_cfg ns_registry ns_leases].
  destruct (recompute _ _ _ _ _ _ _ _) as [d [δ|]] eqn:Hr.
  - right. destruct (note_gen _ _) as [reg save] eqn:Hn. exists δ.
    pose proof (dir_step_inv enc _ _ (ds_publish enc _ snaps _ _ _ _ _ _ _ _ Hu Hr) Hi) as Hi'. cbn in Hi'.
    apply recompute_some in Hr as (_ & Hp & Hg & _ & Hδ & _ & _). cbn [ns_announce broadcast_delta ns_set_sessions ns_set_registry ns_set_directory ns_directory ns_sessions].
    split_and!; [done| |done|done]. rewrite Hp. cbn [with_gen s_gen]. rewrite wadd64_small by done.
    destruct Hi as (_ & Hgen & _). lia.
  - left. apply recompute_none in Hr as [-> _]. done.
Qed.

Lemma inv_publish sy snaps keys now now_ms save_ok :
  sys_inv enc node g0 (sy, snaps) → u_range 64 (dir_gen (ns_directory (sy_net sy)) + 1) →
  let n' := publish enc (sy_net sy) keys now now_ms save_ok in
  sys_inv enc node g0 (set_net n' sy, grown (sy_net sy) n' snaps).
Proof.
  intros Hinv Hu n'. pose proof Hinv as (H1 & H2 & H3 & H4 & H5).
  destruct (publish_cases (sy_net sy) keys now now_ms save_ok snaps H1 Hu) as [[Hc Hs]|(δ & Hδ & Hlt & Hs & Hi')]; fold n' in Hc, Hs || fold n' in Hδ, Hlt, Hs, Hi'.
  { rewrite grown_same by done. apply inv_frame; [done|by rewrite Hs|done]. }
  unfold grown. rewrite decide_False by (intros E; rewrite E in Hlt; lia).
  set (p := dir_published (ns_directory (sy_net sy))) in *. set (p' := dir_published (ns_directory n')) in *.
  pose proof (published_newest _ _ _ H1) as [Hp Hmax]. fold p in Hp.
  assert (Forall (λ s, g0 ≤ s_gen s) (snaps ++ [p'])) as H2'.
  { apply Forall_app. split; [done|]. constructor; [|done]. rewrite Forall_forall in H2. specialize (H2 _ Hp). cbn in H2. lia. }
  assert (msg_ok (snaps ++ [p']) (PushDelta δ)) as Hδok.
  { cbn. destruct H1 as ((before & Hb) & _). rewrite Hb, pair_diffs_push, Hδ. fold p. set_solver. }
  assert (apply p δ = (p', Ok tt)) as Happ.
  { destruct Hi' as (_ & _ & _ & Hn & _). rewrite Forall_app, Forall_singleton in Hn. destruct Hn as [Hn Hn'].
    rewrite Forall_forall in Hn. rewrite Hδ. apply diff_apply; auto. }
  split; [done|]. split; [done|].
  split; [destruct H3 as [H3|H3]; [left; cbn; set_solver|by right]|].
  unfold session_inv, view_ahead, in_flight, live, requests in *. cbn [set_net sy_net sy_view sy_wire sy_conn sy_up sy_resync].
  rewrite Hs, lookup_fmap. destruct (ns_sessions (sy_net sy) !! node) as [s|] eqn:Es; cbn [fmap option_fmap option_map].
  2:{ split; [|by intros ? [? _]]. eapply Forall_impl; [exact H4|]. intros m. apply msg_ok_mono. }
  assert (Forall (msg_ok (snaps ++ [p'])) (sy_wire sy ++ cs_queue s)) as H4'.
  { eapply Forall_impl; [exact H4|]. intros m. apply msg_ok_mono. }
  unfold push_delta. destruct (cs_synced s) eqn:Esy; cbn [negb].
  - destruct (try_send _ s) as [s'|] eqn:Et.
    + apply try_send_some in Et as [-> _]. cbn [set_queue cs_queue]. rewrite (assoc_L (++)).
      split; [apply Forall_app; split; [done|by constructor]|]. intros ? ([= <-] & Hc & Hcl). cbn in Hc, Hcl.
      specialize (H5 s (conj eq_refl (conj Hc Hcl))). cbn [set_queue cs_synced]. rewrite Esy in H5 |- *.
      rewrite foldl_app, H5. cbn. rewrite arrive_unfold. fold p. by rewrite Happ.
    + split; [done|]. intros ? ([= <-] & _ & Hcl). by apply close_conn_closed in Hcl.
  - split; [done|]. intros ? ([= <-] & Hc & Hcl). specialize (H5 s (conj eq_refl (conj Hc Hcl))). by rewrite Esy in H5 |- *.
Qed.
End inv_handlers.

Section inv_steps.
Context `{O : IpNetOps, Q : MpscOps, !MpscLaws Q}.
Context (enc : Snapshot → list Z) (node : Z) (role : Role) (g0 : Z).

(** A coordinator action that publishes nothing and leaves the sessions. *)
Definition quiet (n n' : NetState) : Prop :=
  dir_core (ns_directory n') = dir_core (ns_directory n) ∧ ns_sessions n' = ns_sessions n.

Lemma publish_soon_shape n keys now t1 t2 save_ok :
  let n' := (publish_soon enc n keys now t1 t2 save_ok).1 in
  quiet n n' ∨ n' = publish enc n keys now t2 save_ok.
Proof. cbn zeta. unfold publish_soon. repeat case_match; cbn; auto; by left. Qed.

Lemma record_traffic_core d relay rep now known k : dir_core (record_traffic d relay rep now known k) = dir_core d.
Proof. unfold record_traffic. by destruct (dir_traffic d !! relay). Qed.

(** The catch-up at the end of [on_heartbeat]. *)
Definition beat_catch_up (n : NetState) (hb : Heartbeat) (now : Z) : NetState :=
  if in_grace n now then n else
  let d := ns_directory n in
  if negb (hb_gen hb =? dir_gen d) then catch_up n node (hb_gen hb) else
  if negb (hb_digest hb =? dir_published_digest d) then catch_up n node 0 else n.

Lemma on_heartbeat_shape n hb keys now t1 t2 t3 save_ok n' timer :
  on_heartbeat enc n node role hb keys now t1 t2 t3 save_ok = (n', timer) →
  ∃ n1 n2, quiet n n1 ∧ (quiet n1 n2 ∨ n2 = publish enc n1 keys now t3 save_ok) ∧ n' = beat_catch_up n2 hb now.
Proof.
  unfold on_heartbeat. destruct (heartbeat _ _ _ _ _ _ _) as [l changed].
  match goal with |- context [if 0 <? hb_usable_mtu hb then ?a else ?b] => set (p := if 0 <? hb_usable_mtu hb then a else b) end.
  assert (quiet n p.1) as Hq1 by (subst p; by case_match). clearbody p. destruct p as [na mc]. cbn in Hq1.
  match goal with |- context [match hb_traffic hb with Some t => _ | None => _ end] =>
    set (nb := match hb_traffic hb, role with
               | Some t, Relay => ns_set_directory (record_traffic (ns_directory na) node t now
                   (λ k, bool_decide (is_Some (rg_members (ns_registry n) !! k))) (size (rg_members (ns_registry n)))) na
               | _, _ => na end) end.
  assert (quiet n nb) as Hq2.
  { subst nb. destruct Hq1 as [Hq1 Hq1']. destruct (hb_traffic hb), role; (split; [|done]); cbn; rewrite ?record_traffic_core; done. }
  change (match hb_traffic hb with Some t => _ | None => _ end) with nb. clearbody nb.
  pose proof (publish_soon_shape nb keys now t2 t3 save_ok) as Hp. cbn zeta in Hp.
  destruct (publish_soon enc nb keys now t2 t3 save_ok) as [nc tm]. cbn in Hp.
  destruct (changed || mc); intros He.
  - exists nb, nc. split; [done|]. split; [done|]. unfold beat_catch_up. by repeat case_match; simplify_eq.
  - exists nb, nb. split; [done|]. split; [by left|]. unfold beat_catch_up. by repeat case_match; simplify_eq.
Qed.

Lemma inv_quiet sy snaps n' : quiet (sy_net sy) n' → sys_inv enc node g0 (sy, snaps) → sys_inv enc node g0 (set_net n' sy, snaps).
Proof. intros [Hd Hs]. apply inv_frame; [done|]. by rewrite Hs. Qed.

Lemma inv_drop_up n v c w r m u snaps :
  sys_inv enc node g0 (mkSys n v c w r (m :: u), snaps) → sys_inv enc node g0 (mkSys n v c w r u, snaps).
Proof.
  intros (H1 & H2 & H3 & H4 & H5). do 4 (split; [done|]). intros s Hl. specialize (H5 s Hl). unfold session_inv, requests in *.
  destruct (cs_synced s); [done|]. destruct H5 as [Hr Hq]. split; [done|]. cbn in Hq |- *.
  rewrite Forall_app, Forall_cons in Hq. apply Forall_app. tauto.
Qed.

(** A member that holds the published generation holds the published view. *)
Lemma holds_published sy snaps :
  sys_inv enc node g0 (sy, snaps) → view_gen (sy_view sy) = dir_gen (ns_directory (sy_net sy)) →
  vw_snap (sy_view sy) = dir_published (ns_directory (sy_net sy)).
Proof.
  intros (H1 & H2 & H3 & _) Hg. pose proof (published_newest _ _ _ H1) as [Hp _]. pose proof H1 as (_ & Hgen & _ & _ & Hs & _).
  unfold view_gen in Hg. rewrite Hgen in Hg. destruct H3 as [H3|H3]; [by apply (gen_sorted_inj snaps)|].
  rewrite Forall_forall in H2. specialize (H2 _ Hp). cbn in H2. lia.
Qed.

Lemma inv_beat_catch_up sy snaps hb now :
  sys_inv enc node g0 (sy, snaps) → hb_gen hb ∈ requests sy →
  sys_inv enc node g0 (set_net (beat_catch_up (sy_net sy) hb now) sy, snaps).
Proof.
  intros Hi Hin. assert (set_net (sy_net sy) sy = sy) as Hid by by destruct sy.
  unfold beat_catch_up. destruct (in_grace _ _); [by rewrite Hid|].
  assert (∀ s, live node sy s → cs_synced s = false → hb_gen hb = view_gen (sy_view sy)) as Hreq.
  { intros s Hl Hs. destruct Hi as (_ & _ & _ & _ & H5). specialize (H5 s Hl). unfold session_inv in H5. rewrite Hs in H5.
    destruct H5 as [_ Hq]. rewrite Forall_forall in Hq. by apply Hq. }
  destruct (Z.eqb_spec (hb_gen hb) (dir_gen (ns_directory (sy_net sy)))) as [He|Hne]; cbn [negb].
  - destruct (negb _); [|by rewrite Hid]. apply inv_catch_up; [done|]. intros s Hl Hs. right.
    eapply holds_published; [done|]. rewrite <- He. symmetry. by eapply Hreq.
  - apply inv_catch_up; [done|]. intros s Hl Hs. left. by eapply Hreq.
Qed.

Lemma catch_up_dir n k g : ns_directory (catch_up n k g) = ns_directory n.
Proof. done. Qed.

Lemma beat_catch_up_dir n hb now : ns_directory (beat_catch_up n hb now) = ns_directory n.
Proof. unfold beat_catch_up. by repeat case_match. Qed.

Lemma grown_dir n1 n2 n1' n2' snaps :
  dir_published (ns_directory n1) = dir_published (ns_directory n1') →
  dir_published (ns_directory n2) = dir_published (ns_directory n2') → grown n1 n2 snaps = grown n1' n2' snaps.
Proof. unfold grown. by intros -> ->. Qed.

(** With the heartbeat still counted among the member's requests. *)
Lemma inv_heartbeat_kept n v c w r u snaps hb keys now t1 t2 t3 save_ok n' timer :
  sys_inv enc node g0 (mkSys n v c w r (UpBeat hb :: u), snaps) → u_range 64 (dir_gen (ns_directory n) + 1) →
  on_heartbeat enc n node role hb keys now t1 t2 t3 save_ok = (n', timer) →
  sys_inv enc node g0 (mkSys n' v c w r (UpBeat hb :: u), grown n n' snaps).
Proof.
  intros Hi Hu (n1 & n2 & Hq1 & Hn2 & ->)%on_heartbeat_shape.
  set (sy := mkSys n v c w r (UpBeat hb :: u)) in *.
  assert (sys_inv enc node g0 (set_net n2 sy, grown n n2 snaps)) as H2.
  { pose proof (inv_quiet sy snaps n1 Hq1 Hi) as H1. pose proof Hq1 as [Hc1 _]. injection Hc1 as Eg Ep _ _.
    destruct Hn2 as [Hq2| ->].
    - rewrite grown_same by (destruct Hq1, Hq2; congruence).
      exact (inv_quiet (set_net n1 sy) snaps n2 Hq2 H1).
    - rewrite (grown_dir n _ n1 (publish enc n1 keys now t3 save_ok)) by done.
      apply (inv_publish enc node g0 (set_net n1 sy) snaps keys now t3 save_ok H1). cbn. by rewrite Eg. }
  rewrite (grown_dir n _ n n2) by (by rewrite ?beat_catch_up_dir).
  apply (inv_beat_catch_up (set_net n2 sy) (grown n n2 snaps) hb now H2). unfold requests. cbn. set_solver.
Qed.

Lemma inv_heartbeat n v c w r u snaps hb keys now t1 t2 t3 save_ok n' timer :
  sys_inv enc node g0 (mkSys n v c w r (UpBeat hb :: u), snaps) → u_range 64 (dir_gen (ns_directory n) + 1) →
  on_heartbeat enc n node role hb keys now t1 t2 t3 save_ok = (n', timer) →
  sys_inv enc node g0 (mkSys n' v c w r u, grown n n' snaps).
Proof. intros. apply (inv_drop_up _ _ _ _ _ (UpBeat hb)). by eapply inv_heartbeat_kept. Qed.

Lemma inv_hello n v c w r u snaps id cl remote keys now t1 t2 save_ok :
  sys_inv enc node g0 (mkSys n v c w r u, snaps) → u_range 64 (dir_gen (ns_directory n) + 1) → cl_node_id cl = node →
  let n' := (register_session enc n id cl remote (view_gen v) keys now t1 t2 save_ok).1 in
  sys_inv enc node g0 (mkSys n' v (Some id) [] [] [], grown n n' snaps).
Proof.
  intros (H1 & H2 & H3 & _ & _) Hu <- n'. subst n'. unfold register_session.
  set (k := cl_node_id cl) in *. set (na := match ns_sessions n !! k with Some old => _ | None => n end).
  assert (ns_directory na = ns_directory n) as Hna by (subst na; by case_match).
  set (nb := ns_set_leases _ (ns_set_sessions (<[k := session_new id cl remote]> (ns_sessions na)) _)).
  assert (sys_inv enc k g0 (mkSys nb v (Some id) [] [] [], snaps)) as Hb.
  { split; [cbn; by rewrite Hna|]. split; [done|]. split; [done|]. unfold in_flight, live. cbn. rewrite lookup_insert_eq. cbn.
    split; [constructor|]. intros s ([= <-] & _ & _). unfold session_inv, in_flight, requests. cbn.
    rewrite lookup_insert_eq. done. }
  pose proof (inv_publish enc k g0 _ snaps keys now t2 save_ok Hb) as Hp. cbn [sy_net] in Hp.
  set (nc := publish enc nb keys now t2 save_ok) in *.
  assert (sys_inv enc k g0 (mkSys nc v (Some id) [] [] [], grown n nc snaps)) as Hc.
  { rewrite (grown_dir n nc nb nc) by (cbn; by rewrite ?Hna). apply Hp. cbn. by rewrite Hna. }
  cbn [fst]. destruct (in_grace nc now); cbn [negb]; [exact Hc|].
  rewrite (grown_dir n (catch_up nc k (view_gen v)) n nc) by done.
  apply (inv_catch_up enc k g0 (mkSys nc v (Some id) [] [] []) _ (view_gen v) Hc). by left.
Qed.
End inv_steps.

Section reach.
Context `{O : IpNetOps, Q : MpscOps, !MpscLaws Q}.
Context (enc : Snapshot → list Z) (node : Z) (role : Role) (g0 : Z) (Hg0 : 0 < g0).

Lemma inv_recv n v c w r u snaps m :
  sys_inv enc node g0 (mkSys n v c (m :: w) r u, snaps) →
  sys_inv enc node g0 (mkSys n (on_push v m).1 c w (ask_resync r (on_push v m).2) u, snaps).
Proof.
  intros (H1 & H2 & H3 & H4 & H5). unfold in_flight in *. cbn in *. inv H4.
  split; [done|]. split; [done|]. split; [cbn; rewrite on_push_arrive; by apply arrive_ok; [eapply dir_inv_hist|..]|].
  split; [done|]. intros s Hl. specialize (H5 s Hl). unfold session_inv, view_ahead, in_flight, requests in *. cbn in *.
  rewrite on_push_arrive. destruct (cs_synced s); [done|]. destruct H5 as [Hr Hq]. inv Hr.
  rewrite on_push_raw by done. done.
Qed.

Lemma inv_no_session n n' v c w r u snaps :
  dir_core (ns_directory n') = dir_core (ns_directory n) → ns_sessions n' !! node = None →
  sys_inv enc node g0 (mkSys n v c w r u, snaps) → sys_inv enc node g0 (mkSys n' v c w r u, snaps).
Proof.
  intros Hd Hs (H1 & H2 & H3 & H4 & H5). unfold in_flight, live in *. cbn in *. rewrite Hs.
  split; [by eapply dir_inv_core|]. do 2 (split; [done|]). apply Forall_app in H4 as [H4 _]. cbn. rewrite ?Hs, app_nil_r. split; [done|].
  intros s [Hl _]. cbn in Hl. congruence.
Qed.

Lemma inv_no_conn n v v' c w r u snaps :
  view_ok g0 snaps (vw_snap v') →
  sys_inv enc node g0 (mkSys n v c w r u, snaps) → sys_inv enc node g0 (mkSys n v' None [] [] [], snaps).
Proof.
  intros Hv (H1 & H2 & H3 & H4 & H5). unfold in_flight, live in *. cbn in *. apply Forall_app in H4 as [_ H4].
  do 4 (split; [done|]). by intros s (_ & ? & _).
Qed.

Lemma inv_requests n v c w r u r' u' snaps :
  (∀ g, g ∈ r' ++ (up_gen <$> u') → g = view_gen v ∨ g ∈ r ++ (up_gen <$> u)) →
  sys_inv enc node g0 (mkSys n v c w r u, snaps) → sys_inv enc node g0 (mkSys n v c w r' u', snaps).
Proof.
  intros Hsub (H1 & H2 & H3 & H4 & H5). do 4 (split; [done|]). intros s Hl. specialize (H5 s Hl).
  unfold session_inv, view_ahead, in_flight, requests in *. cbn in *. destruct (cs_synced s); [done|].
  destruct H5 as [Hr Hq]. split; [done|]. rewrite Forall_forall in Hq |- *. intros g [->|Hg]%Hsub; auto.
Qed.

(** Another queue for the session, the messages in flight being the same up
    to raw ones. *)
Lemma inv_requeue n v c w w' r u snaps s q :
  ns_sessions n !! node = Some s →
  (∀ P : Push → Prop, (∀ b, P (PushRaw b)) → Forall P (w ++ cs_queue s) → Forall P (w' ++ q)) →
  (∀ x, foldl arrive x (w' ++ q) = foldl arrive x (w ++ cs_queue s)) →
  sys_inv enc node g0 (mkSys n v c w r u, snaps) →
  sys_inv enc node g0 (mkSys (ns_set_sessions (<[node := set_queue q s]> (ns_sessions n)) n) v c w' r u, snaps).
Proof.
  intros Hs Hall Har (H1 & H2 & H3 & H4 & H5). unfold session_inv, view_ahead, in_flight, live, requests in *. cbn in *.
  rewrite lookup_insert_eq. rewrite Hs in H4, H5. cbn. do 3 (split; [done|]). rewrite ?lookup_insert_eq. split; [by apply Hall|].
  intros s' (Hl & Hc & Hcl). cbn in Hl, Hc. rewrite lookup_insert_eq in Hl. injection Hl as <-. cbn in Hc, Hcl. unfold session_inv, view_ahead, in_flight, requests. cbn. rewrite lookup_insert_eq. cbn. specialize (H5 s (conj eq_refl (conj Hc Hcl))).
  destruct (cs_synced s); [by rewrite Har|]. destruct H5 as [Hr Hq]. split; [by apply Hall|done].
Qed.

Lemma inv_resync n v c w r u snaps g now :
  sys_inv enc node g0 (mkSys n v c w r (UpResync g :: u), snaps) →
  sys_inv enc node g0 (mkSys (on_resync n node g now) v c w r u, snaps).
Proof.
  intros Hi. apply (inv_drop_up _ _ _ _ _ _ _ _ (UpResync g)). unfold on_resync. destruct (in_grace _ _); [done|].
  apply (inv_catch_up enc node g0 (mkSys n v c w r (UpResync g :: u))); [done|]. intros s Hl Hs. left.
  destruct Hi as (_ & _ & _ & _ & H5). specialize (H5 s Hl). unfold session_inv in H5. rewrite Hs in H5.
  destruct H5 as [_ Hq]. rewrite Forall_forall in Hq. apply Hq. unfold requests. cbn. set_solver.
Qed.

Lemma sys_step_inv p q : sys_step enc node role p q → sys_inv enc node g0 p → sys_inv enc node g0 q.
Proof.
  destruct 1 as [n n' v c w r u snaps Hd Hs|n v c w r u snaps keys now now_ms save_ok n' Hu ->|n v c w r u snaps s b s' Hs Ht
    |n v c w r u snaps s m q Hs Hc Hq _|n v c w r u snaps m|n v c w g r u snaps|n v c w r u snaps hb|n v c w r u snaps g now
    |n v c w r u snaps hb keys now t1 t2 t3 save_ok n' timer Hu Hh|n v c w r u snaps id cl remote keys now t1 t2 save_ok n' Hu Hcl ->
    |n n' v c w r u snaps Hd Hs|n v c w r u snaps|n v c w r u snaps]; intros Hi.
  - exact (inv_frame enc node g0 (mkSys n v c w r u) snaps n' Hd Hs Hi).
  - exact (inv_publish enc node g0 (mkSys n v c w r u) snaps keys now now_ms save_ok Hi Hu).
  - apply try_send_some in Ht as [-> _]. apply (inv_requeue _ _ _ w _ _ _ _ s); [done| | |done].
    + intros P HP Ha. rewrite (assoc_L (++)), Forall_app. split; [done|]. by constructor.
    + intros x. by rewrite (assoc_L (++)), foldl_app.
  - apply (inv_requeue _ _ _ w _ _ _ _ s); [done| | |done]; rewrite Hq, <- (assoc_L (++)); done.
  - by apply inv_recv.
  - eapply inv_requests; [|exact Hi]. intros x. rewrite fmap_app. cbn. set_solver.
  - eapply inv_requests; [|exact Hi]. intros x. rewrite fmap_app. cbn. set_solver.
  - by apply inv_resync.
  - by eapply inv_heartbeat.
  - by eapply inv_hello.
  - by eapply inv_no_session.
  - eapply inv_no_conn; [|exact Hi]. by destruct Hi as (_ & _ & ? & _).
  - eapply inv_no_conn; [|exact Hi]. by right.
Qed.
End reach.

Section sync.
Context `{O : IpNetOps, Q : MpscOps, !MpscLaws Q}.
Context (enc : Snapshot → list Z) (node : Z) (role : Role).

Lemma initial_gen_pos reg now_ms : 0 ≤ rg_gen_hwm reg → rg_gen_hwm reg + GEN_PERSIST_STEP < 2 ^ 64 → 0 < initial_gen reg now_ms.
Proof. unfold initial_gen, GEN_PERSIST_STEP. intros. rewrite wadd64_small by lia. lia. Qed.

Lemma sys_reach_inv cfg reg now now_ms v sy snaps :
  0 ≤ rg_gen_hwm reg → rg_gen_hwm reg + GEN_PERSIST_STEP < 2 ^ 64 → view_gen v < initial_gen reg now_ms →
  sys_reach enc node role cfg reg now now_ms v sy snaps → sys_inv enc node (initial_gen reg now_ms) (sy, snaps).
Proof.
  intros H0 Hm Hv Hr. pose proof (initial_gen_pos reg now_ms H0 Hm) as Hpos.
  apply (rtc_inv_preserved _ (sys_inv enc node (initial_gen reg now_ms)) _ _ (sys_step_inv enc node role _ Hpos)) in Hr; [done|].
  split; [by eapply dir_reach_inv, rtc_refl|]. split; [by repeat constructor|]. split; [by right|]. split; [constructor|].
  by intros s [? _].
Qed.
End sync.

Section sync_theorems.
Context `{O : IpNetOps, Q : MpscOps, !MpscLaws Q}.
Context (enc : Snapshot → list Z) (node : Z) (role : Role).

Lemma arrive_moves g0 snaps v m :
  hist_ok g0 snaps → msg_ok snaps m → view_ok g0 snaps v → arrive v m = v ∨ arrive v m ∈ snaps.
Proof.
  intros Hh Hm Hv. pose proof (arrive_ok g0 snaps v m Hh Hm Hv) as [[Ha|Ha] _]; [by right|]. left.
  rewrite arrive_unfold in *. destruct m as [d|s| |]; cbn in Hm; try done.
  - destruct (delta_ok _ _ _ Hh Hm) as (a & b & Ia & Ib & -> & Hlt & Happ). unfold apply in *. cbn [diff d_gen d_base_gen] in *.
    destruct (s_gen b <=? s_gen v); [done|]. destruct (Z.eqb_spec (s_gen a) (s_gen v)) as [E|]; cbn [negb] in *; [|done].
    destruct Hh as (_ & Hs & Hg). rewrite Forall_forall in Hg. specialize (Hg _ Ib). cbn in *. lia.
  - destruct (_ <? _); [done|]. destruct Hh as (_ & _ & Hg). rewrite Forall_forall in Hg. specialize (Hg _ Hm). cbn in *. lia.
Qed.

(** Where a member's view comes from. *)
Definition view_origin (v0 : View) (p : Sys * list Snapshot) : Prop :=
  let '(sy, snaps) := p in
  vw_snap (sy_view sy) ∈ snaps ∨ vw_snap (sy_view sy) = vw_snap v0 ∨ vw_snap (sy_view sy) = snapshot_default.

Lemma grown_elem n n' snaps s : s ∈ snaps → s ∈ grown n n' snaps.
Proof. unfold grown. case_decide; set_solver. Qed.

Lemma view_origin_step g0 v0 p q :
  sys_step enc node role p q → sys_inv enc node g0 p → view_origin v0 p → view_origin v0 q.
Proof.
  intros Hst Hi Ho. destruct Hst; cbn in *; try done; try (destruct Ho; [left; by apply grown_elem|by right]); [|by right; right].
  rewrite on_push_arrive. destruct Hi as (H1 & H2 & H3 & H4 & _). unfold in_flight in H4. cbn in *. inv H4.
  destruct (arrive_moves g0 snaps (vw_snap v) m) as [->|?]; auto. by eapply dir_inv_hist.
Qed.
End sync_theorems.

(** A member never holds a view nobody published: whatever pushes, lost
    connections, resyncs, restarts and catch-ups occur, its view is one of the
    snapshots this coordinator process published, the one it already held when
    the process started, or the empty one it starts with. *)
Theorem member_view_published `{O : IpNetOps, Q : MpscOps, !MpscLaws Q} enc node role cfg reg now now_ms v sy snaps
    (H0 : 0 ≤ rg_gen_hwm reg) (Hm : rg_gen_hwm reg + GEN_PERSIST_STEP < 2 ^ 64) (Hv : view_gen v < initial_gen reg now_ms)
    (Hr : sys_reach enc node role cfg reg now now_ms v sy snaps) :
  vw_snap (sy_view sy) ∈ snaps ∨ vw_snap (sy_view sy) = vw_snap v ∨ vw_snap (sy_view sy) = snapshot_default.
Proof.
  pose proof (initial_gen_pos reg now_ms H0 Hm) as Hpos. set (g0 := initial_gen reg now_ms) in *.
  apply (rtc_inv_preserved (sys_step enc node role) (λ p, sys_inv enc node g0 p ∧ view_origin v p)) in Hr as [_ Ho]; [exact Ho| |].
  - intros p q Hst [Hi Ho]. split; [by eapply sys_step_inv|by eapply view_origin_step].
  - split; [by eapply (sys_reach_inv enc node role), rtc_refl|]. right. by left.
Qed.

(** C4: what a synced session has in flight is exactly what the member needs:
    as long as the coordinator has not closed it, the member's view once the
    queued and travelling messages arrive is the view the coordinator
    publishes now. Duplicate chains, overlapping snapshots and deltas queued
    while others travel all included. *)
Theorem synced_session_delivers `{O : IpNetOps, Q : MpscOps, !MpscLaws Q} enc node role cfg reg now now_ms v sy snaps s
    (H0 : 0 ≤ rg_gen_hwm reg) (Hm : rg_gen_hwm reg + GEN_PERSIST_STEP < 2 ^ 64) (Hv : view_gen v < initial_gen reg now_ms)
    (Hr : sys_reach enc node role cfg reg now now_ms v sy snaps) (Hl : live node sy s) (Hs : cs_synced s = true) :
  view_ahead node sy = dir_published (ns_directory (sy_net sy)).
Proof.
  apply sys_reach_inv in Hr as (_ & _ & _ & _ & H5); [|done..]. specialize (H5 s Hl). unfold session_inv in H5. by rewrite Hs in H5.
Qed.

Section heartbeat.
Context `{O : IpNetOps, Q : MpscOps, !MpscLaws Q}.
Context (enc : Snapshot → list Z) (node : Z).

Lemma catch_up_syncs n g s :
  ns_sessions (catch_up n node g) !! node = Some s → cs_closed s = None → cs_synced s = true.
Proof.
  cbn. rewrite lookup_alter_eq. destruct (ns_sessions n !! node) as [s0|]; [|done]. cbn. intros [= <-] Hc.
  destruct (catch_up_session_cases (ns_directory n) g s0) as [->|[? _]]; done.
Qed.

Lemma beat_in_grace n hb now : in_grace (beat_catch_up node n hb now) now = in_grace n now.
Proof.
  unfold beat_catch_up. destruct (in_grace n now) eqn:E; [done|]. cbn zeta.
  destruct (negb _); [exact E|]. destruct (negb _); exact E.
Qed.

Lemma beat_unsynced n hb now s :
  in_grace n now = false → ns_sessions (beat_catch_up node n hb now) !! node = Some s → cs_closed s = None → cs_synced s = false →
  hb_gen hb = dir_gen (ns_directory n).
Proof.
  unfold beat_catch_up. intros -> Hs Hc Hy.
  destruct (Z.eqb_spec (hb_gen hb) (dir_gen (ns_directory n))); [done|]. cbn [negb] in Hs.
  rewrite (catch_up_syncs _ _ _ Hs Hc) in Hy. done.
Qed.
End heartbeat.

(** C36: one heartbeat repairs: whatever the member missed, once the coordinator
    (past its restart grace) has handled a heartbeat of its session and did not
    close it, the messages in flight bring the member to the published view. *)
Theorem heartbeat_catches_up `{O : IpNetOps, Q : MpscOps, !MpscLaws Q} enc node role cfg reg now0 now_ms v0 n v w r u snaps s hb keys now t1 t2 t3 save_ok n' timer
    (H0 : 0 ≤ rg_gen_hwm reg) (Hm : rg_gen_hwm reg + GEN_PERSIST_STEP < 2 ^ 64) (Hv : view_gen v0 < initial_gen reg now_ms)
    (Hr : sys_reach enc node role cfg reg now0 now_ms v0 (mkSys n v (Some (cs_id s)) w r (UpBeat hb :: u)) snaps)
    (Hu : u_range 64 (dir_gen (ns_directory n) + 1))
    (Hh : on_heartbeat enc n node role hb keys now t1 t2 t3 save_ok = (n', timer))
    (Hgrace : in_grace n' now = false) (Hs : ns_sessions n' !! node = Some s) (Hopen : cs_closed s = None) :
  foldl arrive (vw_snap v) (w ++ cs_queue s) = dir_published (ns_directory n').
Proof.
  apply sys_reach_inv in Hr; [|done..]. pose proof (inv_heartbeat_kept _ _ _ _ _ _ _ _ _ _ _ _ _ _ _ _ _ _ _ _ Hr Hu Hh) as Hi.
  pose proof Hi as (_ & _ & _ & _ & H5). specialize (H5 s (conj Hs (conj eq_refl Hopen))).
  unfold session_inv, view_ahead, in_flight, requests in H5. cbn in H5. rewrite Hs in H5.
  destruct (cs_synced s) eqn:Hy; [done|]. destruct H5 as [Hraw Hreq]. rewrite (arrive_raws _ _ Hraw).
  apply (holds_published _ _ _ _ _ Hi). cbn.
  apply on_heartbeat_shape in Hh as (n1 & n2 & _ & _ & ->). rewrite beat_catch_up_dir.
  assert (in_grace n2 now = false) as Hg2 by by rewrite beat_in_grace in Hgrace.
  rewrite <- (beat_unsynced _ _ _ _ _ Hg2 Hs Hopen Hy). rewrite Forall_app, Forall_cons in Hreq. symmetry. apply Hreq.
Qed.

Section long_chain.
Context `{O : IpNetOps, Q : MpscOps, !MpscLaws Q}.

Lemma send_chain_overflow chain s :
  (length (cs_queue s) ≤ PUSH_QUEUE)%nat → (PUSH_QUEUE < length (cs_queue s) + length chain)%nat → cs_closed s = None →
  ∃ s', send_chain chain s = (s', false) ∧ cs_closed s' = Some CLOSE_OVERFLOW ∧ cs_synced s' = false ∧ cs_id s' = cs_id s.
Proof.
  revert s. induction chain as [|d chain IH]; intros s Hq Hl Hc; cbn [length] in Hl; [lia|].
  cbn [send_chain]. destruct (try_send _ s) as [s1|] eqn:E.
  - apply try_send_some in E as [-> Hlt]. apply (IH (set_queue (cs_queue s ++ [PushDelta d]) s)); cbn [set_queue cs_queue cs_closed]; rewrite ?length_app; cbn [length]; [lia|lia|done].
  - exists (overflow s). cbn. by rewrite Hc.
Qed.

Lemma publish_unsynced enc n keys now now_ms save_ok k s :
  ns_sessions n !! k = Some s → cs_synced s = false → ns_sessions (publish enc n keys now now_ms save_ok) !! k = Some s.
Proof.
  intros Hs Hy. unfold publish. destruct (recompute _ _ _ _ _ _ _ _) as [d [δ|]]; [|done].
  destruct (note_gen _ _). cbn. rewrite lookup_fmap, Hs. cbn. unfold push_delta. by rewrite Hy.
Qed.
End long_chain.

(** A chain of more than [PUSH_QUEUE] deltas can never be queued at once: a
    member that registers while it is that far behind, though still within the
    ring, is always disconnected for overflow, holding what it held before. *)
Theorem long_chain_overflows `{O : IpNetOps, Q : MpscOps, !MpscLaws Q} enc n id cl remote have_gen keys now t1 t2 save_ok n' gen chain
    (Hreg : register_session enc n id cl remote have_gen keys now t1 t2 save_ok = (n', gen))
    (Hgrace : in_grace n' now = false)
    (Hch : deltas_since (ns_directory n') have_gen = Some chain) (Hlong : (PUSH_QUEUE < length chain)%nat) :
  ∃ s, ns_sessions n' !! cl_node_id cl = Some s ∧ cs_id s = id ∧ cs_closed s = Some CLOSE_OVERFLOW ∧ cs_synced s = false.
Proof.
  unfold register_session in Hreg. cbn zeta in Hreg.
  match type of Hreg with context [publish enc ?x keys now t2 save_ok] => set (nb := x) in Hreg end.
  assert (ns_sessions (publish enc nb keys now t2 save_ok) !! cl_node_id cl = Some (session_new id cl remote)) as Hs.
  { apply publish_unsynced; [|done]. subst nb. cbn. apply lookup_insert_eq. }
  set (np := publish enc nb keys now t2 save_ok) in *. injection Hreg as Hn' _.
  assert (in_grace np now = false) as Hg by (subst n'; destruct (in_grace np now) eqn:E; [|done]; cbn [negb] in Hgrace; congruence). rewrite Hg in Hn'. cbn [negb] in Hn'. subst n'.
  cbn [catch_up ns_set_sessions ns_sessions ns_directory] in *. rewrite lookup_alter_eq, Hs. cbn [fmap option_fmap option_map].
  unfold catch_up_session. rewrite Hch.
  destruct (send_chain_overflow chain (session_new id cl remote)) as (s' & -> & Hc & Hy & Hid); [cbn; lia|exact Hlong|done|].
  exists s'. done.
Qed.

(** ** A member joins, receives its snapshot and heartbeats *)

Module SyncExample.
#[local] Existing Instance ipnet_ref.

Definition enc := DirExample.enc.
Definition hello_claims : Claims := mkClaims "nqvpn-coord" AUD "net" "u" 1 "a" Relay "pk" "fp" [] 0 90 5000.
Definition n0 : NetState := ns_new enc DirExample.cfg DirExample.reg 10 10000.
Definition sess (n : NetState) : CtlSession := default (session_new 0 hello_claims "") (ns_sessions n !! 1).

(** The member's first heartbeat, sent before its snapshot arrived. *)
Definition beat (v : View) : Heartbeat := set_hb_view (view_gen v) (view_digest enc v) heartbeat_default.
Definition handled (n : NetState) (hb : Heartbeat) : NetState := (on_heartbeat enc n 1 Relay hb [] 101 101000 101000 101000 true).1.

Section runs.
Context (enc : Snapshot → list Z) (cfg : NetworkConfig) (reg : Registry) (now0 ms0 : Z) (cl : Claims) (id now t1 t2 : Z).
Definition first (v : View) : NetState :=
  (register_session enc (ns_new enc cfg reg now0 ms0) id cl "r" (view_gen v) [] now t1 t2 true).1.
Definition hist (v : View) : list Snapshot :=
  grown (ns_new enc cfg reg now0 ms0) (first v) [dir_published (ns_directory (ns_new enc cfg reg now0 ms0))].

Lemma run2 role v :
  u_range 64 (dir_gen (ns_directory (ns_new enc cfg reg now0 ms0)) + 1) →
  sys_reach enc (cl_node_id cl) role cfg reg now0 ms0 v
    (mkSys (first v) v (Some id) [] [] [UpBeat (set_hb_view (view_gen v) (view_digest enc v) heartbeat_default)]) (hist v).
Proof.
  intros Hu. eapply rtc_l; [|eapply rtc_l; [|apply rtc_refl]].
  - exact (st_hello enc (cl_node_id cl) role _ v None [] [] [] _ id cl "r" [] now t1 t2 true _ Hu eq_refl eq_refl).
  - exact (st_beat enc (cl_node_id cl) role _ v (Some id) [] [] [] _ heartbeat_default).
Qed.

Lemma run3 role v s m q :
  u_range 64 (dir_gen (ns_directory (ns_new enc cfg reg now0 ms0)) + 1) →
  ns_sessions (first v) !! cl_node_id cl = Some s → cs_id s = id → cs_queue s = m :: q → (∀ reason, m ≠ PushClose reason) →
  ∃ n', sys_reach enc (cl_node_id cl) role cfg reg now0 ms0 v
    (mkSys n' (on_push v m).1 (Some id) [] (ask_resync [] (on_push v m).2) []) (hist v).
Proof.
  intros Hu Hs Hid Hq Hm. eexists. eapply rtc_l; [|eapply rtc_l; [|eapply rtc_l; [|apply rtc_refl]]].
  - exact (st_hello enc (cl_node_id cl) role _ v None [] [] [] _ id cl "r" [] now t1 t2 true _ Hu eq_refl eq_refl).
  - exact (st_write enc (cl_node_id cl) role _ v (Some id) [] [] [] _ s m q Hs (f_equal Some (eq_sym Hid)) Hq Hm).
  - exact (st_recv enc (cl_node_id cl) role _ v (Some id) [] [] [] _ m).
Qed.

(** The same state under other names. *)
Lemma run2_named role v n i hb snaps :
  u_range 64 (dir_gen (ns_directory (ns_new enc cfg reg now0 ms0)) + 1) →
  n = first v → i = id → hb = set_hb_view (view_gen v) (view_digest enc v) heartbeat_default → snaps = hist v →
  sys_reach enc (cl_node_id cl) role cfg reg now0 ms0 v (mkSys n v (Some i) [] [] [UpBeat hb]) snaps.
Proof. intros Hu -> -> -> ->. by apply run2. Qed.
End runs.

Definition n1 : NetState := first enc DirExample.cfg DirExample.reg 10 10000 hello_claims 7 100 100000 100000 view_new.

Lemma hwm_pos : 0 ≤ rg_gen_hwm DirExample.reg.
Proof. by_decide. Qed.
Lemma hwm_room : rg_gen_hwm DirExample.reg + GEN_PERSIST_STEP < 2 ^ 64.
Proof. by_decide. Qed.
Lemma old_view : view_gen view_new < initial_gen DirExample.reg 10000.
Proof. by_decide. Qed.
Lemma gen_room : u_range 64 (dir_gen (ns_directory (ns_new enc DirExample.cfg DirExample.reg 10 10000)) + 1).
Proof. by_decide. Qed.

(** 300 publications, and a member that holds the first of them. *)
Definition many : NetState :=
  foldl (λ n i, publish enc n (if Nat.even i then [] else [mkKeyInfo "k" "p" "active"]) 100 0 true) n0 (seq 1 300).
Definition late := register_session enc many 9 hello_claims "r" (dir_gen (ns_directory n0) + 1) [] 100 0 0 true.
End SyncExample.

Lemma member_view_published_witness :
  ∃ sy (snaps : list Snapshot), length (s_members (vw_snap (sy_view sy))) = 2%nat ∧
    (vw_snap (sy_view sy) ∈ snaps ∨ vw_snap (sy_view sy) = vw_snap view_new ∨ vw_snap (sy_view sy) = snapshot_default).
Proof.
  destruct (SyncExample.run3 SyncExample.enc DirExample.cfg DirExample.reg 10 10000 SyncExample.hello_claims 7 100 100000 100000 Relay view_new
    (SyncExample.sess SyncExample.n1) (PushSnapshot (dir_published (ns_directory SyncExample.n1))) []) as [n' Hr];
    [exact SyncExample.gen_room|vm_compute; reflexivity|vm_compute; reflexivity|vm_compute; reflexivity|discriminate|].
  pose proof (member_view_published _ _ _ _ _ _ _ _ _ _ SyncExample.hwm_pos SyncExample.hwm_room SyncExample.old_view Hr) as Hf.
  eexists _, _. split; [|exact Hf]. vm_compute. reflexivity.
Defined.

Lemma synced_session_delivers_witness :
  ∃ sy, length (in_flight 1 sy) = 1%nat ∧ view_ahead (cl_node_id SyncExample.hello_claims) sy = dir_published (ns_directory (sy_net sy)).
Proof.
  pose proof (SyncExample.run2 SyncExample.enc DirExample.cfg DirExample.reg 10 10000 SyncExample.hello_claims 7 100 100000 100000 Relay view_new
    SyncExample.gen_room) as Hr.
  pose proof (λ Hl Hs, synced_session_delivers _ _ _ _ _ _ _ _ _ _ (SyncExample.sess SyncExample.n1)
    SyncExample.hwm_pos SyncExample.hwm_room SyncExample.old_view Hr Hl Hs) as Hf.
  eexists. split; [|apply Hf; [|vm_compute; reflexivity]].
  - vm_compute. reflexivity.
  - split; [vm_compute; reflexivity|]. split; vm_compute; reflexivity.
Defined.

Lemma heartbeat_catches_up_witness :
  let n2 := SyncExample.handled SyncExample.n1 (SyncExample.beat view_new) in
  length (cs_queue (SyncExample.sess n2)) = 2%nat ∧
  foldl arrive (vw_snap view_new) ([] ++ cs_queue (SyncExample.sess n2)) = dir_published (ns_directory n2).
Proof.
  set (n2 := SyncExample.handled SyncExample.n1 (SyncExample.beat view_new)). cbv zeta. split; [vm_compute; reflexivity|].
  assert (cs_id (SyncExample.sess n2) = 7) as Hid by (vm_compute; reflexivity).
  assert (SyncExample.n1 = SyncExample.first SyncExample.enc DirExample.cfg DirExample.reg 10 10000 SyncExample.hello_claims
    7 100 100000 100000 view_new) as E1 by reflexivity.
  assert (SyncExample.beat view_new = set_hb_view (view_gen view_new) (view_digest SyncExample.enc view_new) heartbeat_default)
    as E2 by reflexivity.
  pose proof (SyncExample.run2_named SyncExample.enc DirExample.cfg DirExample.reg 10 10000 SyncExample.hello_claims 7 100 100000 100000 Relay view_new
    SyncExample.n1 (cs_id (SyncExample.sess n2)) (SyncExample.beat view_new) _ SyncExample.gen_room E1 Hid E2 eq_refl) as Hr.
  assert (on_heartbeat SyncExample.enc SyncExample.n1 (cl_node_id SyncExample.hello_claims) Relay (SyncExample.beat view_new) []
    101 101000 101000 101000 true = (n2, None)) as Hh by (vm_compute; reflexivity).
  assert (u_range 64 (dir_gen (ns_directory SyncExample.n1) + 1)) as Hu by by_decide.
  assert (in_grace n2 101 = false) as Hg by (vm_compute; reflexivity).
  assert (ns_sessions n2 !! cl_node_id SyncExample.hello_claims = Some (SyncExample.sess n2)) as Hs by (vm_compute; reflexivity).
  assert (cs_closed (SyncExample.sess n2) = None) as Hc by (vm_compute; reflexivity).
  exact (heartbeat_catches_up _ _ _ _ _ _ _ _ _ _ _ _ _ _ _ _ _ _ _ _ _ _ _ _
    SyncExample.hwm_pos SyncExample.hwm_room SyncExample.old_view Hr Hu Hh Hg Hs Hc).
Defined.

Lemma long_chain_overflows_witness :
  ∃ s, ns_sessions (SyncExample.late).1 !! 1 = Some s ∧ cs_closed s = Some CLOSE_OVERFLOW ∧ cs_synced s = false.
Proof.
  assert (length <$> deltas_since (ns_directory (SyncExample.late).1) (dir_gen (ns_directory SyncExample.n0) + 1) = Some 300%nat) as El
    by (vm_compute; reflexivity).
  destruct (deltas_since (ns_directory (SyncExample.late).1) (dir_gen (ns_directory SyncExample.n0) + 1)) as [chain|] eqn:Ec; [|done].
  destruct (long_chain_overflows SyncExample.enc SyncExample.many 9 SyncExample.hello_claims "r" (dir_gen (ns_directory SyncExample.n0) + 1)
    [] 100 0 0 true (SyncExample.late).1 (SyncExample.late).2 chain) as (s & Hs & _ & Hc & Hy);
    [apply surjective_pairing|vm_compute; reflexivity|exact Ec| |exists s; split; [exact Hs|split; [exact Hc|exact Hy]]].
  cbn in El. injection El as ->. by_decide.
Defined.
