(* ===== verification/RateLimit.v ===== *)
(** * The per-source rate limiter (crates/nqvpn-coord/src/state.rs, [RateLimiter])

    A fixed one-minute window per source, in a table of bounded size. *)

From S2P Require Import Prelude Ordered.

Definition RATE_LIMIT_MAX_KEYS : nat := 2 ^ 16.

(** [map]: key to (window, count, insertion order); [order]: insertion order
    to key. *)
Record RateLimiter := mkRateLimiter {
  rl_map : gmap string (Z * Z * Z);
  rl_order : gmap Z string;
  rl_seq : Z;
  rl_evictions : nat;
  rl_evict_window : Z;
}.

Definition rate_limiter_default : RateLimiter := mkRateLimiter ∅ ∅ 0 0 0.

(** [order.pop_first()]. *)
Definition pop_first (order : gmap Z string) : option (Z * string) := head (bt_iter order).

Section rate.
(* [RATE_LIMIT_MAX_KEYS], kept as an argument so that small tables evaluate. *)
Context (max_keys : nat).

(** [if self.evict_window != window { .. }] *)
Definition roll (window : Z) (r : RateLimiter) : RateLimiter :=
  if rl_evict_window r =? window then r else mkRateLimiter (rl_map r) (rl_order r) (rl_seq r) 0 window.

(** Entries of other windows go, and their places in the order. *)
Definition drop_stale (window : Z) (r : RateLimiter) : RateLimiter :=
  let stale := filter (λ p : string * (Z * Z * Z), p.2.1.1 ≠ window) (rl_map r) in
  mkRateLimiter (rl_map r ∖ stale)
    (foldl (λ o p, delete p.2.2 o) (rl_order r) (map_to_list stale))
    (rl_seq r) (rl_evictions r) (rl_evict_window r).

(** Room for a new key; [None] when the table was churned through once. *)
Definition make_room (window : Z) (key : string) (r : RateLimiter) : option RateLimiter :=
  if bool_decide (is_Some (rl_map r !! key)) || (size (rl_map r) <? max_keys)%nat then Some r else
  let r := drop_stale window r in
  if (size (rl_map r) <? max_keys)%nat then Some r else
  if (max_keys <=? rl_evictions r)%nat then None else
  match pop_first (rl_order r) with
  | Some (seq, oldest) =>
      Some (mkRateLimiter (delete oldest (rl_map r)) (delete seq (rl_order r)) (rl_seq r) (S (rl_evictions r)) (rl_evict_window r))
  | None => Some r
  end.

Definition enter (window : Z) (key : string) (r : RateLimiter) : RateLimiter :=
  if bool_decide (is_Some (rl_map r !! key)) then r else
  let seq := rl_seq r ⊕ 1 in
  mkRateLimiter (<[key := (window, 0, seq)]> (rl_map r)) (<[seq := key]> (rl_order r)) seq (rl_evictions r) (rl_evict_window r).

Definition count_one (window limit : Z) (key : string) (r : RateLimiter) : RateLimiter * bool :=
  match rl_map r !! key with
  | None => (r, false)
  | Some (w, c, s) =>
      let c := if w =? window then c else 0 in
      let c := sat_add 32 c 1 in
      (mkRateLimiter (<[key := (window, c, s)]> (rl_map r)) (rl_order r) (rl_seq r) (rl_evictions r) (rl_evict_window r),
       c <=? limit)
  end.

Definition rate_check (r : RateLimiter) (key : string) (limit now : Z) : RateLimiter * bool :=
  let window := now / 60 in
  let r := roll window r in
  match make_room window key r with
  | None => (drop_stale window r, false)
  | Some r => count_one window limit key (enter window key r)
  end.

Definition refund (r : RateLimiter) (key : string) : RateLimiter :=
  mkRateLimiter (alter (λ e, (e.1.1, e.1.2 ⊖ 1, e.2)) key (rl_map r)) (rl_order r) (rl_seq r) (rl_evictions r) (rl_evict_window r).
End rate.

(** ** The table and its order *)

(** Every entry has its place in the order and every place its entry. *)
Definition order_ok (m : gmap string (Z * Z * Z)) (o : gmap Z string) : Prop :=
  ∀ s k, o !! s = Some k ↔ ∃ w c, m !! k = Some (w, c, s).

Definition rl_inv (max_keys : nat) (r : RateLimiter) : Prop :=
  order_ok (rl_map r) (rl_order r) ∧ (∀ k w c s, rl_map r !! k = Some (w, c, s) → s ≤ rl_seq r ∧ u_range 32 c) ∧
  (size (rl_map r) ≤ max_keys)%nat ∧ 0 ≤ rl_seq r.

Lemma order_lookup m o s k : order_ok m o → o !! s = Some k ↔ ∃ w c, m !! k = Some (w, c, s).
Proof. intros Ho. apply Ho. Qed.

Lemma order_inj m o k1 k2 w1 c1 w2 c2 s :
  order_ok m o → m !! k1 = Some (w1, c1, s) → m !! k2 = Some (w2, c2, s) → k1 = k2.
Proof.
  intros Ho H1 H2. assert (o !! s = Some k1) by (apply Ho; eauto). assert (o !! s = Some k2) by (apply Ho; eauto). congruence.
Qed.

Lemma foldl_delete_lookup (l : list (string * (Z * Z * Z))) (o : gmap Z string) s :
  foldl (λ o p, delete p.2.2 o) o l !! s = if decide (s ∈ (λ p, p.2.2) <$> l) then None else o !! s.
Proof.
  revert o. induction l as [|p l IH]; intros o; cbn [foldl]; [done|]. rewrite IH. cbn [fmap list_fmap].
  destruct (decide (s ∈ _ <$> l)) as [Hin|Hni].
  - by rewrite decide_True by set_solver.
  - destruct (decide (s = p.2.2)) as [->|Hne].
    + rewrite decide_True by set_solver. apply lookup_delete_eq.
    + rewrite decide_False by set_solver. by apply lookup_delete_ne.
Qed.

Section rate_inv.
Context (max_keys : nat).

Lemma stale_lookup window r k :
  rl_map (drop_stale window r) !! k =
  match rl_map r !! k with Some e => if decide (e.1.1 = window) then Some e else None | None => None end.
Proof.
  cbn. rewrite lookup_difference. destruct (rl_map r !! k) as [e|] eqn:E.
  - case_decide as Hw.
    + rewrite (proj2 (map_lookup_filter_None _ _ _)); [done|]. right. intros x Hx Hn. cbn in Hn. congruence.
    + rewrite (proj2 (map_lookup_filter_Some _ _ _ e)); [done|]. done.
  - by case_match.
Qed.

Lemma drop_stale_inv window r : rl_inv max_keys r → rl_inv max_keys (drop_stale window r).
Proof.
  intros (Ho & Hs & Hz & H0). split; [|split; [|split; [|done]]].
  - intros s k. rewrite stale_lookup. cbn [drop_stale rl_order]. rewrite foldl_delete_lookup.
    assert (s ∈ (λ p : string * (Z * Z * Z), p.2.2) <$> map_to_list (filter (λ p : string * (Z * Z * Z), p.2.1.1 ≠ window) (rl_map r))
            ↔ ∃ k w c, rl_map r !! k = Some (w, c, s) ∧ w ≠ window) as Hin.
    { rewrite list_elem_of_fmap. split.
      - intros ([k' [[w c] s']] & -> & Hp%elem_of_map_to_list). apply map_lookup_filter_Some in Hp as [? ?]. eauto.
      - intros (k' & w & c & Hk & Hw). exists (k', (w, c, s)). split; [done|]. apply elem_of_map_to_list, map_lookup_filter_Some. done. }
    case_decide as Hd.
    + apply Hin in Hd as (k' & w & c & Hk & Hw). split; [done|]. intros (w' & c' & Hm).
      destruct (rl_map r !! k) as [e|] eqn:Ek; [|done]. case_decide as Hwin; [|done]. injection Hm as ->.
      assert (k = k') as -> by by eapply order_inj. cbn in Hwin. congruence.
    + rewrite (order_lookup _ _ _ _ Ho). split.
      * intros (w & c & Hk). rewrite Hk. destruct (decide ((w, c, s).1.1 = window)); [eauto|]. exfalso. apply Hd, Hin. eauto.
      * intros (w & c & Hm). destruct (rl_map r !! k) as [e|]; [|done]. case_decide; [|done]. naive_solver.
  - intros k w c s. rewrite stale_lookup. destruct (rl_map r !! k) as [e|] eqn:Ek; [|done]. case_decide; [|done]. intros [= ->]. by eapply Hs.
  - cbn. etrans; [|exact Hz]. by apply map_subseteq_size, map_subseteq_difference_l.
Qed.

Lemma make_room_inv window key r r' :
  (0 < max_keys)%nat → rl_inv max_keys r → make_room max_keys window key r = Some r' →
  rl_inv max_keys r' ∧ (rl_map r' !! key = None → (size (rl_map r') < max_keys)%nat) ∧
  rl_map r' !! key = rl_map r !! key ∧ rl_seq r' = rl_seq r ∧
  (∀ k c s, rl_map r !! k = Some (window, c, s) → rl_map r' !! k = Some (window, c, s) ∨ rl_map r' !! k = None).
Proof.
  intros Hpos Hi. unfold make_room. destruct (bool_decide _ || _) eqn:E1.
  { intros [= <-]. split; [done|]. split; [|auto]. intros Hn. apply orb_true_iff in E1 as [E1|E1]; [|by apply Nat.ltb_lt].
    apply bool_decide_eq_true in E1 as [? ?]. congruence. }
  apply orb_false_iff in E1 as [E1 _]. apply bool_decide_eq_false in E1. apply eq_None_not_Some in E1.
  pose proof (drop_stale_inv window r Hi) as Hd. set (d := drop_stale window r) in *.
  assert (∀ k c s, rl_map r !! k = Some (window, c, s) → rl_map d !! k = Some (window, c, s)) as Hkeep.
  { intros k c s Hk. subst d. rewrite stale_lookup, Hk. by rewrite decide_True. }
  assert (rl_map d !! key = None) as Hkn by (subst d; by rewrite stale_lookup, E1).
  assert (rl_seq d = rl_seq r) as Hsq by done. clearbody d.
  destruct (Nat.ltb_spec (size (rl_map d)) max_keys) as [Hlt|Hge].
  { intros [= <-]. split; [done|]. split; [done|]. split; [congruence|]. split; [done|]. eauto. }
  destruct (_ <=? _)%nat; [done|]. destruct Hd as (Ho & Hs & Hz & H0).
  destruct (pop_first (rl_order d)) as [[seq oldest]|] eqn:Hp; intros [= <-].
  - assert (rl_order d !! seq = Some oldest) as Hso.
    { apply elem_of_bt_iter. unfold pop_first in Hp. destruct (bt_iter (rl_order d)); [done|]. injection Hp as ->. set_solver. }
    pose proof (proj1 (Ho _ _) Hso) as (w & c & Hm). cbn [rl_map rl_order rl_seq].
    assert (size (delete oldest (rl_map d)) = pred (size (rl_map d))) as Hsz by (apply map_size_delete_Some; eauto).
    split; [|split; [intros _; rewrite Hsz; lia|split; [|split; [done|]]]].
    + split; [|split; [|split; [cbn; rewrite Hsz; lia|done]]].
      * intros s k. cbn. destruct (decide (s = seq)) as [->|Hne].
        -- rewrite lookup_delete_eq. split; [done|]. intros (w' & c' & Hk). destruct (decide (k = oldest)) as [->|Hko].
           ++ by rewrite lookup_delete_eq in Hk.
           ++ rewrite lookup_delete_ne in Hk by done. exfalso. apply Hko. by eapply order_inj.
        -- rewrite lookup_delete_ne by done. rewrite (order_lookup _ _ _ _ Ho). split; intros (w' & c' & Hk); exists w', c'.
           ++ rewrite lookup_delete_ne; [done|]. intros ->. congruence.
           ++ destruct (decide (k = oldest)) as [->|]; [by rewrite lookup_delete_eq in Hk|]. by rewrite lookup_delete_ne in Hk.
      * intros k w' c' s' Hk. cbn in Hk. apply lookup_delete_Some in Hk as [_ Hk]. by eapply Hs.
    + rewrite E1. apply lookup_delete_None. by right.
    + intros k c' s' Hk. destruct (decide (oldest = k)) as [->|]; [right; apply lookup_delete_eq|left].
      rewrite lookup_delete_ne by done. auto.
  - exfalso. unfold pop_first in Hp. destruct (bt_iter (rl_order d)) eqn:Hbt; [clear Hp; rename Hbt into Hp|done].
    assert (rl_map d = ∅) as He.
    { apply map_empty. intros k. destruct (rl_map d !! k) as [[[w c] s]|] eqn:Ek; [|done].
      assert (rl_order d !! s = Some k) as Hs1 by (apply Ho; eauto). apply elem_of_bt_iter in Hs1. rewrite Hp in Hs1. by apply elem_of_nil in Hs1. }
    rewrite He, map_size_empty in Hge. lia.
Qed.

Lemma enter_inv window key r :
  rl_inv max_keys r → rl_seq r + 1 < 2 ^ 64 → (rl_map r !! key = None → (size (rl_map r) < max_keys)%nat) →
  rl_inv max_keys (enter window key r) ∧ is_Some (rl_map (enter window key r) !! key) ∧
  (∀ k, k ≠ key → rl_map (enter window key r) !! k = rl_map r !! k) ∧
  (∀ e, rl_map r !! key = Some e → rl_map (enter window key r) !! key = Some e) ∧
  (rl_map r !! key = None → ∃ s, rl_map (enter window key r) !! key = Some (window, 0, s)).
Proof.
  intros (Ho & Hs & Hz & H0) Hseq Hroom. unfold enter. case_bool_decide as Hk.
  { split; [done|]. split; [done|]. split; [done|]. split; [done|]. intros Hn. rewrite Hn in Hk. by destruct Hk. }
  apply eq_None_not_Some in Hk. rewrite wadd64_small by (unfold u_range; lia). cbn [rl_map].
  split; [split; [|split; [|split]]|].
  - intros s k. cbn. destruct (decide (rl_seq r + 1 = s)) as [<-|Hne].
    + rewrite lookup_insert_eq. split.
      * intros [= <-]. rewrite lookup_insert_eq. eauto.
      * intros (w & c & Hm). apply lookup_insert_Some in Hm as [[-> _]|[_ Hm]]; [done|]. apply Hs in Hm. lia.
    + rewrite lookup_insert_ne by done. rewrite (order_lookup _ _ _ _ Ho). split; intros (w & c & Hm); exists w, c.
      * rewrite lookup_insert_ne; [done|]. intros ->. congruence.
      * apply lookup_insert_Some in Hm as [[_ ?]|[_ Hm]]; [congruence|done].
  - intros k w c s Hm. cbn in *. apply lookup_insert_Some in Hm as [[_ [= <- <- <-]]|[_ Hm]]; [split; [lia|done]|].
    apply Hs in Hm. split; [lia|apply Hm].
  - cbn. rewrite map_size_insert_None by done. specialize (Hroom Hk). lia.
  - cbn. lia.
  - rewrite lookup_insert_eq. split; [by eexists|]. split; [intros; by apply lookup_insert_ne|]. split; [congruence|eauto].
Qed.

Lemma count_inv window limit key r w c s :
  rl_inv max_keys r → rl_map r !! key = Some (w, c, s) → rl_inv max_keys (count_one window limit key r).1.
Proof.
  intros (Ho & Hs & Hz & H0) Hk. unfold count_one. rewrite Hk. cbn [fst]. split; [|split; [|split; [|done]]].
  - intros s' k. cbn. rewrite (order_lookup _ _ _ _ Ho). destruct (decide (key = k)) as [<-|Hne].
    + rewrite lookup_insert_eq, Hk. split; intros (w' & c' & [= <- <- <-]); eauto.
    + by rewrite lookup_insert_ne.
  - intros k w' c' s' Hm. cbn in *. apply lookup_insert_Some in Hm as [[<- [= <- <- <-]]|[_ Hm]]; [|by eapply Hs].
    apply Hs in Hk as [? ?]. split; [done|]. unfold sat_add, u_range in *. case_match; lia.
  - cbn. by rewrite map_size_insert_Some by eauto.
Qed.
End rate_inv.

Inductive rl_step (max_keys : nat) : RateLimiter → RateLimiter → Prop :=
| rs_check r key limit now : rl_seq r + 1 < 2 ^ 64 → rl_step max_keys r (rate_check max_keys r key limit now).1
| rs_refund r key : rl_step max_keys r (refund r key).

Section rate_exact.
Context (max_keys : nat) (Hpos : (0 < max_keys)%nat).

Lemma roll_inv window r : rl_inv max_keys r → rl_inv max_keys (roll window r).
Proof. unfold roll. by destruct (_ =? _). Qed.

Lemma roll_map window r : rl_map (roll window r) = rl_map r ∧ rl_seq (roll window r) = rl_seq r.
Proof. unfold roll. by destruct (_ =? _). Qed.

Lemma rate_check_inv r key limit now :
  rl_inv max_keys r → rl_seq r + 1 < 2 ^ 64 → rl_inv max_keys (rate_check max_keys r key limit now).1.
Proof.
  intros Hi%(roll_inv (now / 60)) Hs. unfold rate_check. rewrite <- (proj2 (roll_map (now / 60) r)) in Hs.
  destruct (make_room _ _ _ _) as [r1|] eqn:Hm; [|by apply drop_stale_inv].
  apply make_room_inv in Hm as (Hi1 & Hroom & _ & Hseq & _); [|done..]. rewrite <- Hseq in Hs.
  destruct (enter_inv max_keys (now / 60) key r1 Hi1 Hs Hroom) as (Hi2 & [[[w c] s] Hk] & _). by eapply count_inv.
Qed.

Lemma refund_inv r key : rl_inv max_keys r → rl_inv max_keys (refund r key).
Proof.
  intros (Ho & Hs & Hz & H0). split; [|split; [|split; [|done]]].
  - intros s k. cbn. rewrite (order_lookup _ _ _ _ Ho). destruct (decide (key = k)) as [<-|].
    + rewrite lookup_alter_eq. destruct (rl_map r !! key) as [[[w c] s']|]; cbn; naive_solver.
    + by rewrite lookup_alter_ne.
  - intros k w c s. cbn. destruct (decide (key = k)) as [<-|]; [|rewrite lookup_alter_ne by done; apply Hs].
    rewrite lookup_alter_eq. destruct (rl_map r !! key) as [[[w' c'] s']|] eqn:E; [|done]. cbn. intros [= <- <- <-].
    apply Hs in E as [? ?]. split; [done|]. unfold u_range, sat_sub in *. lia.
  - cbn. by rewrite <- size_dom, dom_alter_L, size_dom.
Qed.

Lemma rl_reach_inv r : rtc (rl_step max_keys) rate_limiter_default r → rl_inv max_keys r.
Proof.
  intros Hr. apply (rtc_inv_preserved _ (rl_inv max_keys)) in Hr; [done| |].
  - intros p q [r0 key limit now Hs|r0 key] Hi; [by apply rate_check_inv|by apply refund_inv].
  - split; [|split; [done|split; [cbn; rewrite map_size_empty; lia|done]]]. intros s k. cbn. rewrite lookup_empty. split; [done|]. by intros (? & ? & ?).
Qed.
End rate_exact.

(** Attempts of [key] already counted in [window]. *)
Definition used (r : RateLimiter) (window : Z) (key : string) : Z :=
  match rl_map r !! key with Some (w, c, _) => if w =? window then c else 0 | None => 0 end.

(** C40: the limiter counts exactly and stays bounded: in every state it can
    reach, an attempt is allowed only if fewer than [limit] were counted for its
    source this minute, and is then counted; it is refused only if the limit is
    reached or the source is new to a table that was churned through once this
    minute; the table never exceeds its bound; and another source's count for
    this minute is left alone or evicted, never changed. *)
Theorem rate_limit_exact max_keys r key limit now
    (Hpos : (0 < max_keys)%nat) (Hr : rtc (rl_step max_keys) rate_limiter_default r)
    (Hseq : rl_seq r + 1 < 2 ^ 64) (Hlim : limit < u32_max) :
  let window := now / 60 in
  let '(r', ok) := rate_check max_keys r key limit now in
  (size (rl_map r') ≤ max_keys)%nat ∧
  (ok = true → used r window key < limit ∧ ∃ s, rl_map r' !! key = Some (window, used r window key + 1, s)) ∧
  (ok = false → limit ≤ used r window key ∨
     (rl_map r !! key = None ∧ (max_keys ≤ rl_evictions (roll window r))%nat)) ∧
  (∀ k c s, k ≠ key → rl_map r !! k = Some (window, c, s) → rl_map r' !! k = Some (window, c, s) ∨ rl_map r' !! k = None).
Proof.
  apply rl_reach_inv in Hr; [|done]. pose proof (rate_check_inv max_keys Hpos r key limit now Hr Hseq) as Hi'.
  cbn zeta. destruct (rate_check max_keys r key limit now) as [r' ok] eqn:Hc. cbn in Hi'. split; [apply Hi'|].
  unfold rate_check in Hc. cbn zeta in Hc. set (window := now / 60) in *. pose proof (roll_inv max_keys window r Hr) as Hroll.
  destruct (roll_map window r) as [Em Es]. rewrite <- Es in Hseq.
  destruct (make_room max_keys window key (roll window r)) as [r1|] eqn:Hm.
  - apply make_room_inv in Hm as (Hi1 & Hroom & Hsame & Hsq & Hoth); [|done..]. rewrite <- Hsq in Hseq. rewrite Em in Hsame, Hoth.
    destruct (enter_inv max_keys window key r1 Hi1 Hseq Hroom) as (Hi2 & _ & Hne & Hold & Hnew).
    assert (∃ w c s, rl_map (enter window key r1) !! key = Some (w, c, s) ∧ (if w =? window then c else 0) = used r window key) as (w & c & s & Hk & Hu).
    { unfold used. rewrite <- Hsame. destruct (rl_map r1 !! key) as [[[w c] s]|] eqn:E; [by eauto 6|].
      destruct (Hnew eq_refl) as [s Hs]. exists window, 0, s. split; [done|]. by rewrite Z.eqb_refl. }
    assert (u_range 32 (used r window key)) as Hrange.
    { rewrite <- Hu. destruct Hi2 as (_ & Hs & _). apply Hs in Hk as [_ ?]. by destruct (w =? window). }
    unfold count_one in Hc. rewrite Hk, Hu in Hc. injection Hc as <- <-. cbn [rl_map].
    unfold sat_add, u32_max, u_range in *. split; [|split].
    + intros Hok%Z.leb_le. split; [lia|]. exists s. rewrite lookup_insert_eq. do 3 f_equal. lia.
    + intros Hok%Z.leb_gt. left. lia.
    + intros k c' s' Hkk Hm'. rewrite lookup_insert_ne by done. rewrite Hne by done. auto.
  - injection Hc as <- <-. split; [done|]. split.
    + intros _. right. unfold make_room in Hm. rewrite Em in Hm. destruct (bool_decide _ || _) eqn:E1; [done|].
      apply orb_false_iff in E1 as [E1 _]. apply bool_decide_eq_false, eq_None_not_Some in E1. split; [done|].
      destruct (_ <? _)%nat; [done|]. cbn [drop_stale rl_evictions] in Hm.
      destruct (Nat.leb_spec max_keys (rl_evictions (roll window r))); [done|]. by destruct (pop_first _) as [[? ?]|].
    + intros k c s _ Hk. left. rewrite stale_lookup, Em, Hk. by rewrite decide_True.
Qed.

Module RateExample.
(** Two sources fill a table of two, and a third arrives. *)
Definition full : RateLimiter := (rate_check 2 (rate_check 2 rate_limiter_default "a" 2 60).1 "b" 2 61).1.

Lemma two_checks max_keys r k1 l1 t1 k2 l2 t2 :
  rl_seq r + 1 < 2 ^ 64 → rl_seq (rate_check max_keys r k1 l1 t1).1 + 1 < 2 ^ 64 →
  rtc (rl_step max_keys) r (rate_check max_keys (rate_check max_keys r k1 l1 t1).1 k2 l2 t2).1.
Proof. intros H1 H2. eapply rtc_l; [by apply rs_check|]. eapply rtc_l; [by apply rs_check|]. apply rtc_refl. Qed.

Lemma full_reached : rtc (rl_step 2) rate_limiter_default full.
Proof. apply two_checks; by_decide. Qed.
End RateExample.

Lemma rate_limit_exact_witness :
  ∃ r', rate_check 2 RateExample.full "c" 2 62 = (r', true) ∧ (size (rl_map r') ≤ 2)%nat ∧ rl_map r' !! "a" = None.
Proof.
  assert ((rate_check 2 RateExample.full "c" 2 62).2 = true ∧ rl_map (rate_check 2 RateExample.full "c" 2 62).1 !! "a" = None) as [E1 E2]
    by (split; vm_compute; reflexivity).
  pose proof (rate_limit_exact 2 RateExample.full "c" 2 62 ltac:(lia) RateExample.full_reached ltac:(by_decide) ltac:(by_decide)) as H.
  cbv zeta in H. destruct (rate_check 2 RateExample.full "c" 2 62) as [r' ok]. cbn in E1, E2. subst ok.
  exists r'. split; [reflexivity|]. split; [apply H|exact E2].
Defined.
