(* ===== verification/Join.v ===== *)
(** * The join transaction (crates/nqvpn-coord/src/state.rs, [AppState::join])

    From a presented secret to a durable record, a published view and a signed
    credential; with the secret comparison (secrets.rs), the keyring (signer.rs)
    and the relay address rules (config.rs). The two phases take different
    locks: [join_admit] resolves the secret, [join_locked] acts on whatever the
    network has become by then. *)

From S2P Require Import Prelude Ordered Ipnet Text Control Replay Seal Credential Config Registry Leases Directory Ipam NetState RateLimit.

(** ** Secrets (crates/nqvpn-coord/src/secrets.rs) *)

Definition MAX_SECRET_LEN : nat := 64.

Definition plausible_secret (s : string) : bool :=
  let bs := str_bytes s in
  negb (length bs =? 0)%nat && (length bs <=? MAX_SECRET_LEN)%nat &&
  forallb (λ c, is_ascii_alpha c || is_ascii_digit c || (c =? 45) || (c =? 95)) bs.

Definition constant_time_eq (a b : string) : bool :=
  let a := str_bytes a in
  let b := str_bytes b in
  let diff := Z.lxor (Z.of_nat (length a)) (Z.of_nat (length b)) in
  let diff := foldl (λ diff i, Z.lor diff (Z.lxor (default 0 (a !! i)) (default 0 (b !! i)))) diff
                (seq 0 (Nat.max (length a) (length b))) in
  diff =? 0.

(** ** Relay addresses (crates/nqvpn-coord/src/config.rs) *)

Definition unroutable (ip : IpAddr) : bool :=
  match ip with
  | V4 a => ip_is_loopback ip || ip_is_unspecified ip || ip_is_multicast ip || (a / 2 ^ 16 =? 169 * 256 + 254)
            || ip_is_broadcast ip || (a / 2 ^ 24 =? 0)
  | V6 a => ip_is_loopback ip || ip_is_unspecified ip || ip_is_multicast ip || (Z.land (segment a 0) 65472 =? 65152)
  end.

Definition check_relay_ip `{O : IpNetOps} (ip : IpAddr) (cfg : NetworkConfig) : bool :=
  let ip := to_canonical ip in
  if sc_allow_loopback_relays (nc_settings cfg) && ip_is_loopback ip then true else
  if unroutable ip then false else
  if existsb (λ c, net_contains c ip) (nc_cidrs cfg) then false else
  negb (existsb (λ c, net_contains c ip)
          ((bt_values (nc_relays cfg) ++ bt_values (nc_clients cfg)) ≫= mc_local_cidrs)).

(** What [ed25519_dalek] provides here. *)
Class JoinLib (L : CredLib) := {
  signing_key_from_bytes : list Z → SigningKey;
  verifying_key_bytes : VerifyingKey → list Z;
}.

(** ** Requests (crates/nqvpn-proto/src/api.rs) *)

Record JoinRequest := mkJoinRequest { jr_secret : string; jr_pubkey : string; jr_cert_fingerprint : string }.

Record RelayEntry := mkRelayEntry { rel_relay_id : Z; rel_name : string; rel_addr : string; rel_cert_fp : string }.

Record JoinResponse := mkJoinResponse {
  jp_credential : string;
  jp_network_id : string;
  jp_role : Role;
  jp_network_uuid : string;
  jp_coordinator_signing_keys : list KeyInfo;
  jp_node_id : Z;
  jp_name : string;
  jp_login_gen : Z;
  jp_ip4 : option Z;
  jp_subnet4 : option IpNet;
  jp_ip6 : option Z;
  jp_subnet6 : option IpNet;
  jp_granted_cidrs : list IpNet;
  jp_relay_addr : option string;
  jp_preferred_relay : option string;
  jp_max_session_mbps : Z;
  jp_relays : list RelayEntry;
  jp_mtu : Z;
  jp_keepalive_secs : Z;
  jp_transport : string;
  jp_lanes : Z;
  jp_control_port : Z;
  jp_heartbeat_secs : Z;
}.

(** ** The keyring (crates/nqvpn-coord/src/signer.rs) *)

Record StoredKey := mkStoredKey { sk_kid : string; sk_secret : string; sk_state : string; sk_created_unix : Z }.

Section join.
Context `{O : IpNetOps, Q : MpscOps, L : CredLib, B : Base64, !JoinLib L}.
Context (enc : Snapshot → list Z).

Record Keyring := mkKeyring { kr_keys : list (StoredKey * SigningKey) }.

(** [load_or_create] on the keys of an existing file. *)
Definition load_key (k : StoredKey) : option (StoredKey * SigningKey) :=
  bytes ← b64_decode (sk_secret k);
  if (length bytes =? 32)%nat then Some (k, signing_key_from_bytes bytes) else None.

Definition is_active (p : StoredKey * SigningKey) : bool := String.eqb (sk_state p.1) "active".

Definition load_keyring (stored : list StoredKey) : option Keyring :=
  keys ← mapM load_key stored;
  if existsb is_active keys then Some (mkKeyring keys) else None.

(** [active]; [None] where [expect] would panic. *)
Definition active (k : Keyring) : option (string * SigningKey) :=
  (λ p : StoredKey * SigningKey, (sk_kid p.1, p.2)) <$> List.find is_active (kr_keys k).
Definition key_infos (k : Keyring) : list KeyInfo :=
  (λ p : StoredKey * SigningKey,
     mkKeyInfo (sk_kid p.1) (b64_encode (verifying_key_bytes (verifying_key p.2))) (sk_state p.1)) <$> kr_keys k.
Definition verifying_keys (k : Keyring) : list (string * VerifyingKey) :=
  (λ p : StoredKey * SigningKey, (sk_kid p.1, verifying_key p.2)) <$> kr_keys k.

(** ** Helpers of state.rs *)

Definition rate_key (ip : string) : string :=
  match to_canonical <$> ip_parse ip with
  | Some (V4 a) => ip_to_string (V4 a)
  | Some (V6 a) => bytes_str (join_with [58] (fmt_hex16 <$> take 4 (segments a)) ++ str_bytes "::/64")
  | None => ip
  end.

(** [decode_pubkey(b64).is_some()] *)
Definition valid_pubkey (b64 : string) : bool := match decode_pubkey b64 with Some _ => true | None => false end.

Definition valid_fingerprint (fp : string) : bool :=
  match strip_prefix "sha256:" fp with
  | Some h => let bs := str_bytes h in (length bs =? 64)%nat && forallb is_ascii_hexdigit bs
  | None => false
  end.

Definition effective_relay_addr (configured peer_ip : string) : string :=
  match strip_prefix "auto:" configured with
  | Some port =>
      match to_canonical <$> ip_parse peer_ip with
      | Some (V6 a) => ("[" +:+ ip_to_string (V6 a) +:+ "]:" +:+ port)%string
      | Some (V4 a) => (ip_to_string (V4 a) +:+ ":" +:+ port)%string
      | None => (peer_ip +:+ ":" +:+ port)%string
      end
  | None => configured
  end.

Definition checked_relay_addr (configured peer_ip : string) (cfg : NetworkConfig) : Result string ApiError :=
  let checked :=
    match strip_prefix "auto:" configured with
    | Some _ => match ip_parse peer_ip with
                | Some ip => check_relay_ip (to_canonical ip) cfg
                | None => false
                end
    | None => true
    end in
  if checked then Ok (effective_relay_addr configured peer_ip) else Err BadRequest.

Definition relay_entries (n : NetState) : list RelayEntry :=
  (λ r, mkRelayEntry (re_relay_id r) (re_name r) (re_addr r) (re_cert_fp r)) <$> relay_endpoints (ns_cfg n) (ns_registry n).

(** ** Application state: what a join reads and writes of it *)

Record AppState := mkAppState {
  as_networks : gmap string NetState;
  as_keyring : Keyring;
  as_join_rate : RateLimiter;
  as_join_rate_per_min : Z;
  as_control_port : Z;
}.

Definition as_set_rate (r : RateLimiter) (a : AppState) : AppState :=
  mkAppState (as_networks a) (as_keyring a) r (as_join_rate_per_min a) (as_control_port a).
Definition as_set_net (id : string) (n : NetState) (a : AppState) : AppState :=
  mkAppState (<[id := n]> (as_networks a)) (as_keyring a) (as_join_rate a) (as_join_rate_per_min a) (as_control_port a).

Definition check_rate (a : AppState) (ip : string) (now : Z) : AppState * bool :=
  let '(r, ok) := rate_check RATE_LIMIT_MAX_KEYS (as_join_rate a) (rate_key ip) (as_join_rate_per_min a) now in
  (as_set_rate r a, ok).

(** The test a member passes when its secret is presented, trimmed. *)
Definition secret_is (presented : string) (m : MemberCfg) : bool :=
  match mc_secret m with Some s => constant_time_eq (trim s) presented | None => false end.

(** The network and name a secret belongs to: the first match, networks in
    the order of their ids and members in the order of [members()]. *)
Definition resolve_secret (a : AppState) (secret : string) : option (string * string) :=
  let secret := trim secret in
  if negb (plausible_secret secret) then None else
  let all := p ← bt_iter (as_networks a); (λ m : string * MemberCfg * Role, (p.1, m.1.1, m.1.2)) <$> cfg_members (ns_cfg p.2) in
  (λ t : string * string * MemberCfg, t.1) <$> List.find (λ t : string * string * MemberCfg, secret_is secret t.2) all.

(** ** Phase 1 *)

Definition join_admit (a : AppState) (req : JoinRequest) (peer_ip : string) (now : Z)
    : AppState * Result (string * string) ApiError :=
  let '(a, ok) := check_rate a peer_ip now in
  if negb ok then (a, Err RateLimited) else
  (a, match resolve_secret a (trim (jr_secret req)) with
      | None => Err BadCredentials
      | Some (network_id, name) =>
          if negb (valid_pubkey (jr_pubkey req)) then Err BadRequest else
          if negb (valid_fingerprint (jr_cert_fingerprint req)) then Err BadRequest else
          Ok (network_id, name)
      end).

(** ** Phase 2: under the network's lock *)

(** The clocks read on the way, and what the database answers: to the commit,
    to the reload after a failed commit, and to the save of a generation mark
    while publishing. *)
Record JoinEnv := mkJoinEnv {
  je_now : Z; je_ipam_now : Z; je_now_ms : Z;
  je_save_ok : bool; je_load_ok : bool; je_mark_ok : bool;
}.

(** The relay address this join publishes. *)
Definition join_relay_addr (cfg : NetworkConfig) (m : MemberCfg) (role : Role) (peer_ip : string) : Result (option string) ApiError :=
  match role with
  | Relay =>
      match mc_relay_addr m with
      | None => Err BadRequest
      | Some configured => let? addr := checked_relay_addr configured peer_ip cfg in Ok (Some addr)
      end
  | Client => Ok None
  end.

Definition default4 : IpNet := Net4 0 0.
Definition default6 : IpNet := Net6 0 0.

(** The prefixes the configuration declares for the member. *)
Definition declared_cidrs (m : MemberCfg) (role : Role) : list IpNet :=
  match role with
  | Relay => (net_trunc <$> mc_local_cidrs m) ++ (if bool_decide (mc_internet_gateway m = Some true) then [default4; default6] else [])
  | Client => []
  end.

Definition has_cidr (c : IpNet) (routes : list RouteReg) : bool := existsb (λ r, bool_decide (rr_cidr r = c)) routes.

Definition declare_route (now : Z) (routes : list RouteReg) (c : IpNet) : list RouteReg :=
  if has_cidr c routes then routes else routes ++ [mkRouteReg c now].

(** [retain], then the push loop. *)
Definition join_routes (existing : list RouteReg) (declared : list IpNet) (now : Z) : list RouteReg :=
  foldl (declare_route now) (List.filter (λ r, bool_decide (rr_cidr r ∈ declared)) existing) declared.

(** A different machine: keys were recorded, and this join presents others. *)
Definition is_replaced (existing : option MemberRecord) (req : JoinRequest) : bool :=
  match existing with
  | Some r => bool_decide (is_Some (mr_pubkey r)) &&
              (negb (bool_decide (mr_pubkey r = Some (jr_pubkey req))) ||
               negb (bool_decide (mr_cert_fp r = Some (jr_cert_fingerprint req))))
  | None => false
  end.

(** The assignments to the member's record. *)
Definition join_record (replaced : bool) (req : JoinRequest) (ip4 ip6 : option Z) (routes : list RouteReg)
    (relay_addr : option string) (now : Z) (peer_ip : string) (m : MemberRecord) : MemberRecord :=
  mkMemberRecord (mr_node_id m) (mr_name m) (mr_role m) (Some (jr_pubkey req)) (Some (jr_cert_fingerprint req)) ip4 ip6 routes
    relay_addr (mr_disabled m) (mr_created_unix m) (Some now) (Some peer_ip)
    (if replaced then mr_login_gen m ⊕ 1 else mr_login_gen m)
    (if replaced then Some now else mr_replaced_unix m)
    (if replaced then mr_last_join_from m else mr_replaced_from m).

Definition join_prefixes (ip4 ip6 : option Z) (routes : list RouteReg) : list string :=
  opt_list ((λ ip, (ip_to_string (V4 ip) +:+ "/32")%string) <$> ip4) ++
  opt_list ((λ ip, (ip_to_string (V6 ip) +:+ "/128")%string) <$> ip6) ++
  ((λ r, net_to_string (rr_cidr r)) <$> routes).

Definition subnet_of (cfg : NetworkConfig) (ip : option IpAddr) : option IpNet :=
  ip ← ip; List.find (λ c, net_contains c ip) (nc_cidrs cfg).

(** How a call ends. *)
Inductive Outcome (T : Type) : Type :=
| Returned (r : Result T ApiError)
| Panicked.
#[global] Arguments Returned {T} _.
#[global] Arguments Panicked {T}.

(** The addresses granted, if the member wants any. *)
Definition join_addresses (n : NetState) (m : MemberCfg) (name : string) (e : JoinEnv) : Registry * Result Granted ApiError :=
  if default true (mc_want_vpn_ip m)
  then allocate_for_join (ns_cfg n) (ns_registry n) (ns_leases n) (negb (in_grace n (je_now e))) (je_ipam_now e) name
         (mc_preferred_ip4 m) (mc_preferred_ip6 m)
  else (ns_registry n, Ok (mkGranted None None)).

Definition replaced_why (name peer_ip : string) : string :=
  ("replaced by a newer join as " +:+ name +:+ " from " +:+ peer_ip)%string.

(** Close the control session of the instance this join replaces. *)
Definition close_replaced (n : NetState) (node login_gen : Z) (why : string) : NetState :=
  match ns_sessions n !! node with
  | Some s => if cs_login_gen s <? login_gen then close_session_with n node CLOSE_REPLACED why else n
  | None => n
  end.

(** Phase 3. *)
Definition join_claims (n : NetState) (req : JoinRequest) (role : Role) (rec : MemberRecord) (now : Z) : Claims :=
  mkClaims ISS AUD (nc_network_id (ns_cfg n)) (rg_network_uuid (ns_registry n)) (mr_node_id rec) (mr_name rec) role
    (jr_pubkey req) (jr_cert_fingerprint req) (join_prefixes (mr_ip4 rec) (mr_ip6 rec) (mr_routes rec)) (mr_login_gen rec)
    now (sat_add 64 now (sat_mul 64 (sc_credential_ttl_mins (nc_settings (ns_cfg n))) 60)).

Definition join_response (n : NetState) (k : Keyring) (control_port : Z) (token : string) (m : MemberCfg) (role : Role)
    (rec : MemberRecord) : JoinResponse :=
  let s := nc_settings (ns_cfg n) in
  mkJoinResponse token (nc_network_id (ns_cfg n)) role (rg_network_uuid (ns_registry n)) (key_infos k) (mr_node_id rec)
    (mr_name rec) (mr_login_gen rec) (mr_ip4 rec) (subnet_of (ns_cfg n) (V4 <$> mr_ip4 rec))
    (mr_ip6 rec) (subnet_of (ns_cfg n) (V6 <$> mr_ip6 rec)) (rr_cidr <$> mr_routes rec) (mr_relay_addr rec)
    (mc_preferred_relay m) (default (sc_max_session_mbps s) (mc_max_session_mbps m)) (relay_entries n) (sc_mtu s)
    (sc_heartbeat_secs s) (sc_transport s) (sc_lanes s) control_port (sc_heartbeat_secs s).

(** The checks of phase 2, up to the first change. *)
Definition join_check (n : NetState) (name : string) (req : JoinRequest) (peer_ip : string)
    : Result (MemberCfg * Role * option string) ApiError :=
  if ns_deleted n then Err BadCredentials else
  match member_by_name (ns_cfg n) name with
  | None => Err BadCredentials
  | Some (m, role) =>
      if negb (secret_is (trim (jr_secret req)) m) then Err BadCredentials else
      let? relay_addr := join_relay_addr (ns_cfg n) m role peer_ip in
      match by_name (ns_registry n) name with
      | Some rec => if mr_disabled rec then Err ClientDisabled else Ok (m, role, relay_addr)
      | None => Ok (m, role, relay_addr)
      end
  end.

(** The registry with the member's record brought up to date. *)
Definition join_update (n : NetState) (reg : Registry) (name : string) (m : MemberCfg) (role : Role) (relay_addr : option string)
    (g : Granted) (req : JoinRequest) (peer_ip : string) (now : Z) : Registry * MemberRecord :=
  let existing := by_name (ns_registry n) name in
  let routes := join_routes (default [] (mr_routes <$> existing)) (declared_cidrs m role) now in
  let '(reg, rec) := member_by_name_mut reg name role now in
  let rec := join_record (is_replaced existing req) req (g_ip4 g) (g_ip6 g) routes relay_addr now peer_ip rec in
  (set_members (<[mr_node_id rec := rec]> (rg_members reg)) reg, rec).

(** From the commit on. *)
Definition join_finish (n : NetState) (k : Keyring) (control_port : Z) (m : MemberCfg) (role : Role) (rec : MemberRecord)
    (replaced : bool) (req : JoinRequest) (peer_ip : string) (e : JoinEnv) : NetState * Outcome JoinResponse :=
  match commit_registry n (je_save_ok e) (je_load_ok e) with
  | (n, false) => (n, Returned (Err Internal))
  | (n, true) =>
      let n := if replaced then close_replaced n (mr_node_id rec) (mr_login_gen rec) (replaced_why (mr_name rec) peer_ip) else n in
      let n := publish enc n (key_infos k) (je_now e) (je_now_ms e) (je_mark_ok e) in
      match active k with
      | None => (n, Panicked)
      | Some (kid, sk) =>
          let token := sign (join_claims n req role rec (je_now e)) kid sk in
          (n, Returned (Ok (join_response n k control_port token m role rec)))
      end
  end.

Definition join_locked (n : NetState) (k : Keyring) (control_port : Z) (name : string) (req : JoinRequest) (peer_ip : string)
    (e : JoinEnv) : NetState * Outcome JoinResponse :=
  match join_check n name req peer_ip with
  | Err err => (n, Returned (Err err))
  | Ok (m, role, relay_addr) =>
      match join_addresses n m name e with
      | (reg, Err err) => (ns_set_registry reg (ns_disk n) n, Returned (Err err))
      | (reg, Ok g) =>
          let replaced := is_replaced (by_name (ns_registry n) name) req in
          let '(reg, rec) := join_update n reg name m role relay_addr g req peer_ip (je_now e) in
          join_finish (ns_set_registry reg (ns_disk n) n) k control_port m role rec replaced req peer_ip e
      end
  end.

(** Both phases, with nothing in between; phase 1 found the network in the map,
    so the last [None] does not arise. *)
Definition join (a : AppState) (req : JoinRequest) (peer_ip : string) (rate_now : Z) (e : JoinEnv) : AppState * Outcome JoinResponse :=
  match join_admit a req peer_ip rate_now with
  | (a, Err err) => (a, Returned (Err err))
  | (a, Ok (network_id, name)) =>
      match as_networks a !! network_id with
      | None => (a, Returned (Err Internal))
      | Some n =>
          let '(n, out) := join_locked n (as_keyring a) (as_control_port a) name req peer_ip e in
          (as_set_net network_id n a, out)
      end
  end.
End join.

(** ** Comparing secrets *)

Lemma foldl_lor_zero (f : nat → Z) l d : foldl (λ d i, Z.lor d (f i)) d l = 0 ↔ d = 0 ∧ ∀ i, i ∈ l → f i = 0.
Proof.
  revert d. induction l as [|i l IH]; intros d; cbn; [split; [intros ->; split; [done|]; by intros i []%not_elem_of_nil|by intros [-> _]]|].
  rewrite IH, Z.lor_eq_0_iff. setoid_rewrite elem_of_cons. naive_solver.
Qed.

Lemma constant_time_eq_spec a b : constant_time_eq a b = true ↔ a = b.
Proof.
  unfold constant_time_eq. rewrite Z.eqb_eq, foldl_lor_zero, Z.lxor_eq_0_iff, Nat2Z.inj_iff. split.
  - intros [Hl Hi]. apply str_bytes_inj. apply list_eq_same_length with (n := length (str_bytes a)); [done..|].
    intros i x y Hlt Hx Hy. specialize (Hi i). rewrite elem_of_seq, Z.lxor_eq_0_iff, Hx, Hy in Hi. apply Hi. lia.
  - intros ->. split; [done|]. intros i _. apply Z.lxor_nilpotent.
Qed.

Lemma secret_is_spec p m : secret_is p m = true ↔ ∃ s, mc_secret m = Some s ∧ trim s = p.
Proof. unfold secret_is. destruct (mc_secret m) as [s|]; [rewrite constant_time_eq_spec|]; naive_solver. Qed.

(** ** Publishing leaves the members alone *)

Lemma publish_frame `{O : IpNetOps, Q : MpscOps} enc n keys now now_ms ok :
  let n' := publish enc n keys now now_ms ok in
  ns_cfg n' = ns_cfg n ∧ ns_deleted n' = ns_deleted n ∧ ns_gone n' = ns_gone n ∧
  rg_members (ns_registry n') = rg_members (ns_registry n) ∧
  rg_network_uuid (ns_registry n') = rg_network_uuid (ns_registry n) ∧
  (rg_members (ns_disk n) = rg_members (ns_registry n) → rg_members (ns_disk n') = rg_members (ns_registry n)) ∧
  dom (ns_sessions n') = dom (ns_sessions n) ∧
  (∀ k s', ns_sessions n' !! k = Some s' → ∃ s, ns_sessions n !! k = Some s ∧ cs_login_gen s' = cs_login_gen s).
Proof.
  cbn zeta. unfold publish. destruct (recompute _ _ _ _ _ _ _ _) as [d [delta|]]; cbn; [|naive_solver].
  unfold note_gen. destruct (_ <=? _); cbn.
  all: split_and!; try done; try (by destruct ok); try (by rewrite dom_fmap_L).
  all: intros k s'; rewrite lookup_fmap; intros (s & Hs & ->)%fmap_Some; exists s; split; [done|].
  all: unfold push_delta; repeat case_match; try done.
  all: match goal with H : try_send _ _ = Some _ |- _ => unfold try_send in H; apply fmap_Some in H as (? & _ & ->) end; done.
Qed.

(** ** What allocation does to the registry *)

(** Identities stay, and the record of [name] stays whole. *)
Definition kept (name : string) (m m' : MemberRecord) : Prop :=
  mr_node_id m' = mr_node_id m ∧ mr_name m' = mr_name m ∧ (mr_name m = name → m' = m).

Definition plan_edit (name : string) (reg reg' : Registry) : Prop :=
  rg_next_node_id reg' = rg_next_node_id reg ∧ rg_network_uuid reg' = rg_network_uuid reg ∧
  ∀ id, option_Forall2 (kept name) (rg_members reg !! id) (rg_members reg' !! id).

Lemma kept_refl name m : kept name m m.
Proof. done. Qed.

Lemma plan_edit_refl name reg : plan_edit name reg reg.
Proof. split; [done|]. split; [done|]. intros id. destruct (_ !! id); constructor. apply kept_refl. Qed.

Lemma plan_edit_cursor name fam next reg : plan_edit name reg (set_cursor fam next reg).
Proof. exact (plan_edit_refl name reg). Qed.

Lemma plan_edit_trans name r1 r2 r3 : plan_edit name r1 r2 → plan_edit name r2 r3 → plan_edit name r1 r3.
Proof.
  intros (Hn & Hu & H) (Hn' & Hu' & H'). split; [congruence|]. split; [congruence|]. intros id. specialize (H id). specialize (H' id).
  destruct H as [m m' (A & B & C)|]; inversion H' as [? m'' (A' & B' & C')|]; subst; constructor.
  split; [congruence|]. split; [congruence|]. intros Hm. rewrite C' by congruence. auto.
Qed.

Lemma plan_edit_reclaim `{O : IpNetOps} cfg reg leases now name hard addr eligible victim ip f :
  keeps_identity f → reclaimable cfg reg leases now name hard addr eligible = Some (victim, ip) →
  plan_edit name reg (set_members (alter f victim (rg_members reg)) reg).
Proof.
  intros Hf (l & rec & _ & Hv & _ & Hc & _)%reclaimable_some. apply candidate_offline in Hc as (_ & Hne & _).
  split; [done|]. split; [done|]. intros id. cbn. destruct (decide (victim = id)) as [->|].
  - rewrite lookup_alter_eq, Hv. constructor. destruct (Hf rec). by split_and!.
  - rewrite lookup_alter_ne by done. destruct (_ !! id); constructor. apply kept_refl.
Qed.

Lemma alloc_v4_edit `{O : IpNetOps} cfg reg taken hard reclaim now name reg' r :
  alloc_v4 cfg reg taken hard reclaim now name = (reg', r) → plan_edit name reg reg' ∧ (is_ok r = false → reg' = reg).
Proof.
  unfold alloc_v4. destruct (ipv4_cidr cfg) as [net|]; [|intros [= <- <-]; split; [apply plan_edit_refl|done]].
  destruct (v4_hosts net) as [cnt first]. destruct (scan_from_cursor _ _ _ _) as [[ip next]|].
  { intros [= <- <-]. split; [apply plan_edit_cursor|done]. }
  destruct (reclaimable _ _ _ _ _ _ _ _) as [[victim ip]|] eqn:Hr; intros [= <- <-]; (split; [|done]);
    [|apply plan_edit_refl]. by eapply plan_edit_reclaim.
Qed.

Lemma alloc_v6_edit `{O : IpNetOps} cfg reg taken hard reclaim now name reg' r :
  alloc_v6 cfg reg taken hard reclaim now name = (reg', r) → plan_edit name reg reg'.
Proof.
  unfold alloc_v6. destruct (ipv6_cidr cfg) as [net|]; [|intros [= <- <-]; apply plan_edit_refl].
  cbn zeta. destruct (if _ <=? _ then _ else _) as [[ip next]|]; [intros [= <- <-]; apply plan_edit_cursor|].
  destruct (reclaimable _ _ _ _ _ _ _ _) as [[victim ip]|] eqn:Hr; intros [= <- <-]; [|apply plan_edit_refl].
  by eapply plan_edit_reclaim.
Qed.

Lemma choose4_edit `{O : IpNetOps} cfg reg taken hard reclaim now name want cur reg' r :
  choose4 cfg reg taken hard reclaim now name want cur = (reg', r) → plan_edit name reg reg' ∧ (is_ok r = false → reg' = reg).
Proof.
  unfold choose4. repeat case_match; try apply alloc_v4_edit; intros [= <- <-]; (split; [apply plan_edit_refl|done]).
Qed.

Lemma choose6_edit `{O : IpNetOps} cfg reg taken hard reclaim now name want cur reg' r :
  choose6 cfg reg taken hard reclaim now name want cur = (reg', r) → plan_edit name reg reg'.
Proof.
  unfold choose6. destruct want; [intros [= <- <-]; apply plan_edit_refl|].
  destruct (keep_current _ _ _); [intros [= <- <-]; apply plan_edit_refl|].
  destruct (has_v6 cfg); [|intros [= <- <-]; apply plan_edit_refl].
  destruct (alloc_v6 _ _ _ _ _ _ _) as [reg3 r6] eqn:H6. apply alloc_v6_edit in H6. by intros [= <- <-].
Qed.

Lemma allocate_edit `{O : IpNetOps} cfg reg reclaim now name p4 p6 reg' r :
  allocate_inner cfg reg reclaim now name p4 p6 = (reg', r) → plan_edit name reg reg' ∧ (is_ok r = false → reg' = reg).
Proof.
  unfold allocate_inner. destruct (member_by_name cfg name) as [[mc role]|]; [|intros [= <- <-]; split; [apply plan_edit_refl|done]].
  cbn zeta. destruct (check_want _ _ _) as [?|?]; [destruct (check_want _ _ _) as [?|?]|];
    try (intros [= <- <-]; split; [apply plan_edit_refl|done]).
  destruct (choose4 _ _ _ _ _ _ _ _ _) as [reg1 r4] eqn:H4. apply choose4_edit in H4 as [E1 E2].
  destruct r4 as [ip4|err]; [|intros [= <- <-]; split; [done|auto]].
  destruct (choose6 _ _ _ _ _ _ _ _ _) as [reg2 ip6] eqn:H6. apply choose6_edit in H6.
  intros [= <- <-]. split; [|done]. by eapply plan_edit_trans.
Qed.

Lemma join_addresses_edit `{O : IpNetOps} n m name e reg r :
  join_addresses n m name e = (reg, r) → plan_edit name (ns_registry n) reg ∧ (is_ok r = false → reg = ns_registry n).
Proof.
  unfold join_addresses, allocate_for_join. case_match; [apply allocate_edit|]. intros [= <- <-]. split; [apply plan_edit_refl|done].
Qed.

Lemma plan_edit_lookup name reg reg' id m' :
  plan_edit name reg reg' → rg_members reg' !! id = Some m' → ∃ m, rg_members reg !! id = Some m ∧ kept name m m'.
Proof. intros (_ & _ & H) Hm. specialize (H id). rewrite Hm in H. inversion H; subst. eauto. Qed.

Lemma plan_edit_inv name reg reg' : plan_edit name reg reg' → registry_inv reg → registry_inv reg'.
Proof.
  intros He (Hk & Hu & Hp). pose proof He as (Hn & _ & _). unfold registry_inv. rewrite Hn. split_and!; [| |done].
  - intros id m' (m & Hm & Hid & _)%(plan_edit_lookup _ _ _ _ _ He). rewrite Hid. by apply Hk.
  - intros i j m m' (a & Ha & _ & Na & _)%(plan_edit_lookup _ _ _ _ _ He) (b & Hb & _ & Nb & _)%(plan_edit_lookup _ _ _ _ _ He) Hnm.
    eapply Hu; [exact Ha|exact Hb|congruence].
Qed.

Lemma plan_edit_by_name name reg reg' : plan_edit name reg reg' → registry_inv reg → by_name reg' name = by_name reg name.
Proof.
  intros He Hi. destruct (by_name reg name) as [m|] eqn:Hb.
  - apply by_name_some in Hb as (Hn & id & Hm). pose proof He as (_ & _ & Hf). specialize (Hf id). rewrite Hm in Hf.
    inversion Hf as [? m' (_ & _ & Hk) E1 E2|]; subst. rewrite (Hk eq_refl) in E2.
    by eapply by_name_unique; [by eapply plan_edit_inv| |].
  - destruct (by_name reg' name) as [m'|] eqn:Hb'; [|done]. apply by_name_some in Hb' as (Hn & id & Hm).
    apply (plan_edit_lookup _ _ _ _ _ He) in Hm as (m & Hm & _ & Nm & _). destruct (by_name_none _ _ Hb _ _ Hm). congruence.
Qed.

Lemma plan_edit_join_id name reg reg' : plan_edit name reg reg' → registry_inv reg → join_id reg' name = join_id reg name.
Proof.
  intros He Hi. pose proof (plan_edit_by_name _ _ _ He Hi) as Hb. pose proof (plan_edit_inv _ _ _ He Hi) as Hi'.
  pose proof He as (Hn & _ & _). destruct (id_of reg name) as [x|] eqn:Hx.
  - unfold join_id. unfold id_of in *. by rewrite Hb, Hx.
  - rewrite !join_id_new; [done|done|done|done|]. unfold id_of in *. by rewrite Hb.
Qed.

(** ** The member's record *)

Lemma join_id_lookup r name : registry_inv r → rg_members r !! join_id r name = by_name r name.
Proof.
  intros Hi. destruct (by_name r name) as [m|] eqn:Hb.
  - pose proof Hb as (Hn & id & Hm)%by_name_some. pose proof Hi as (Hk & _ & _). destruct (Hk _ _ Hm) as [Hid _].
    unfold join_id, id_of. rewrite Hb. cbn. by rewrite Hid.
  - rewrite join_id_new; [by apply fresh_id|done|]. unfold id_of. by rewrite Hb.
Qed.

Lemma join_record_id replaced req ip4 ip6 routes ra now peer m :
  mr_node_id (join_record replaced req ip4 ip6 routes ra now peer m) = mr_node_id m.
Proof. done. Qed.

Section update.
Context `{O : IpNetOps} (n : NetState) (name : string) (req : JoinRequest).
Let reg0 := ns_registry n.
Let old := by_name reg0 name.

Lemma join_update_spec reg m role ra g peer now reg' rec :
  registry_inv reg0 → rg_next_node_id reg0 < u32_max → plan_edit name reg0 reg →
  join_update n reg name m role ra g req peer now = (reg', rec) →
  registry_inv reg' ∧ rg_members reg' !! mr_node_id rec = Some rec ∧ u_range 32 (mr_node_id rec) ∧
  mr_name rec = name ∧ rg_network_uuid reg' = rg_network_uuid reg0 ∧
  rec = join_record (is_replaced old req) req (g_ip4 g) (g_ip6 g)
          (join_routes (default [] (mr_routes <$> old)) (declared_cidrs m role) now) ra now peer
          (set_name_role name role (default (record_new (join_id reg0 name) name role now) old)).
Proof.
  intros Hi Hlt He. pose proof (plan_edit_inv _ _ _ He Hi) as Hi1. pose proof He as (Hnext & Huuid & _).
  pose proof (member_by_name_inv reg name role now Hi1 ltac:(by rewrite Hnext)) as Hm.
  unfold join_update. destruct (member_by_name_mut reg name role now) as [reg1 rec1] eqn:Hmut.
  destruct Hm as (Hi2 & Hl & Hid & Hn & Hlt' & _). intros [= <- <-]. rewrite !join_record_id.
  pose proof Hi2 as (Hk & Hu & Hp). unfold member_by_name_mut, member_mut in Hmut. fold (join_id reg name) in Hmut.
  injection Hmut as Hreg Hrec. rewrite join_id_lookup, (plan_edit_by_name _ _ _ He Hi), (plan_edit_join_id _ _ _ He Hi) in Hrec by done.
  split_and!; [|cbn; by rewrite lookup_insert_eq| |done|by rewrite <- Hreg|by rewrite <- Hrec].
  - unfold registry_inv, set_members. cbn. split_and!; [| |done].
    + intros i r. rewrite lookup_insert_Some. intros [[<- <-]|[_ ?]]; [|by apply Hk]. rewrite Hid. split; [done|]. by apply Hk in Hl as [_ ?].
    + intros i j a b. rewrite !lookup_insert_Some. rewrite Hid.
      intros [[<- <-]|[? Ha]] [[<- <-]|[? Hb]]; cbn; intros Hnm; [done|by eapply Hu..].
  - rewrite Hid. apply Hk in Hl as [_ Hr]. rewrite <- Hreg in Hr. cbn in Hr. unfold u_range, u32_max in *.
    rewrite Hnext in Hr. unfold sat_add in Hr. split; [lia|].
    destruct (Z.max_spec (rg_next_node_id reg0) (Z.min (2 ^ 32 - 1) (join_id reg name + 1))); lia.
Qed.
End update.

(** ** A successful join, taken apart *)

Section locked.
Context `{O : IpNetOps, Q : MpscOps, L : CredLib, B : Base64, !JoinLib L}.
Context (enc : Snapshot → list Z).

(** The network between the commit and the publication. *)
Definition join_committed (n : NetState) (reg : Registry) (rec : MemberRecord) (replaced : bool) (peer_ip : string) : NetState :=
  let n := ns_set_registry reg reg n in
  if replaced then close_replaced n (mr_node_id rec) (mr_login_gen rec) (replaced_why (mr_name rec) peer_ip) else n.

(** How [join_locked] ends: with an error and the state as it was, with the
    error of a failed commit, or past the commit. *)
Lemma join_locked_cases n k port name req peer e n' out :
  join_locked enc n k port name req peer e = (n', out) →
  (∃ err, out = Returned (Err err) ∧ n' = n) ∨
  (∃ reg, out = Returned (Err Internal) ∧ je_save_ok e = false ∧
     n' = ns_set_registry (if je_load_ok e then ns_disk n else reg) (ns_disk n) n) ∨
  (∃ m role ra reg g reg' rec,
     je_save_ok e = true ∧ join_check n name req peer = Ok (m, role, ra) ∧ join_addresses n m name e = (reg, Ok g) ∧
     join_update n reg name m role ra g req peer (je_now e) = (reg', rec) ∧
     n' = publish enc (join_committed n reg' rec (is_replaced (by_name (ns_registry n) name) req) peer)
            (key_infos k) (je_now e) (je_now_ms e) (je_mark_ok e) ∧
     out = match active k with
           | None => Panicked
           | Some (kid, sk) =>
               Returned (Ok (join_response n' k port (sign (join_claims n' req role rec (je_now e)) kid sk) m role rec))
           end).
Proof.
  unfold join_locked. destruct (join_check n name req peer) as [[[m role] ra]|err] eqn:Hc; [|intros [= <- <-]; eauto].
  destruct (join_addresses n m name e) as [reg [g|err]] eqn:Ha.
  2:{ intros [= <- <-]. apply join_addresses_edit in Ha as [_ ->]; [|done]. left. exists err. by destruct n. }
  cbn zeta. destruct (join_update n reg name m role ra g req peer (je_now e)) as [reg' rec] eqn:Hu.
  unfold join_finish, commit_registry. destruct (je_save_ok e) eqn:Hs; [|intros [= <- <-]; right; left; eauto].
  intros H. right. right. exists m, role, ra, reg, g, reg', rec. split_and!; [done..| |].
  all: by destruct (active k) as [[kid sk]|]; injection H as <- <-.
Qed.

Lemma join_committed_frame n reg rec replaced peer :
  let n' := join_committed n reg rec replaced peer in
  ns_cfg n' = ns_cfg n ∧ ns_deleted n' = ns_deleted n ∧ ns_registry n' = reg ∧ ns_disk n' = reg.
Proof.
  cbn zeta. unfold join_committed, close_replaced, close_session_with. destruct replaced; [|done]. cbn.
  destruct (ns_sessions n !! _) as [s|] eqn:Hs; [|done]. destruct (_ <? _); cbn; by rewrite ?Hs.
Qed.
End locked.

Lemma join_update_record `{O : IpNetOps} n reg name m role ra g req peer now reg' rec :
  join_update n reg name m role ra g req peer now = (reg', rec) →
  rg_members reg' !! mr_node_id rec = Some rec ∧ mr_pubkey rec = Some (jr_pubkey req) ∧
  mr_cert_fp rec = Some (jr_cert_fingerprint req) ∧ mr_relay_addr rec = ra ∧ mr_ip4 rec = g_ip4 g ∧ mr_ip6 rec = g_ip6 g ∧
  mr_routes rec = join_routes (default [] (mr_routes <$> by_name (ns_registry n) name)) (declared_cidrs m role) now ∧
  mr_name rec = name.
Proof.
  unfold join_update. destruct (member_by_name_mut reg name role now) as [reg1 rec1] eqn:Hm. intros [= <- <-].
  unfold member_by_name_mut, member_mut in Hm. injection Hm as _ <-. cbn. by rewrite lookup_insert_eq.
Qed.

(** C38: Durability precedes visibility. A join that fails leaves the network's
    sessions, published view, announcements and database exactly as they were;
    in memory nothing changed either, unless the commit itself failed, and then
    the registry in memory is the one on disk (when that can be read back). A
    join that succeeds was saved: the database holds the members the network
    serves, and the record at the node id handed out carries the presented keys
    and every grant of the response. Only a keyring without an active key can
    make it panic. *)
Theorem join_durable `{O : IpNetOps, Q : MpscOps, L : CredLib, B : Base64, !JoinLib L} enc n k port name req peer e n' out :
  join_locked enc n k port name req peer e = (n', out) →
  match out with
  | Returned (Err err) =>
      n' = n ∨ (je_save_ok e = false ∧ err = Internal ∧
                ∃ reg, n' = ns_set_registry reg (ns_disk n) n ∧ (je_load_ok e = true → reg = ns_disk n))
  | Returned (Ok resp) =>
      je_save_ok e = true ∧ rg_members (ns_disk n') = rg_members (ns_registry n') ∧
      ∃ rec, rg_members (ns_disk n') !! jp_node_id resp = Some rec ∧
        mr_pubkey rec = Some (jr_pubkey req) ∧ mr_cert_fp rec = Some (jr_cert_fingerprint req) ∧
        mr_name rec = name ∧ jp_name resp = name ∧ mr_login_gen rec = jp_login_gen resp ∧
        mr_ip4 rec = jp_ip4 resp ∧ mr_ip6 rec = jp_ip6 resp ∧
        rr_cidr <$> mr_routes rec = jp_granted_cidrs resp ∧ mr_relay_addr rec = jp_relay_addr resp
  | Panicked => active k = None
  end.
Proof.
  intros [(err & -> & ->)|[(reg & -> & Hs & ->)|(m & role & ra & reg & g & reg' & rec & Hs & Hc & Ha & Hu & Hn' & ->)]]%join_locked_cases.
  - by left.
  - right. split_and!; [done..|]. eexists. split; [done|]. by intros ->.
  - destruct (active k) as [[kid sk]|]; [|done]. split; [done|].
    pose proof (join_committed_frame n reg' rec (is_replaced (by_name (ns_registry n) name) req) peer) as (Fc & Fd & Fr & Fk).
    pose proof (publish_frame enc (join_committed n reg' rec (is_replaced (by_name (ns_registry n) name) req) peer)
      (key_infos k) (je_now e) (je_now_ms e) (je_mark_ok e)) as (_ & _ & _ & Pm & _ & Pd & _).
    rewrite <- Hn' in Pm, Pd. rewrite Fr, Fk in Pd. rewrite Fr in Pm. specialize (Pd eq_refl). rewrite Pd, Pm. split; [done|].
    exists rec. apply join_update_record in Hu as (Hl & ? & ? & ? & ? & ? & ? & ?). by split_and!.
Qed.

(** ** The credential *)

Section admission.
Context `{L : CredLib, !CredLaws L}.

(** [verify_credential] on a token the coordinator signed, the signature and
    the claims being in order. *)
Lemma verify_credential_signed nets keys c kid sk n rec fp now :
  nets (cl_network_id c) = Some n → ns_deleted n = false →
  find_kid kid keys = Some (verifying_key sk) →
  bound_to c (mkExpected ISS (cl_network_id c) (rg_network_uuid (ns_registry n))) now →
  cl_node_id c < 2 ^ 32 → rg_members (ns_registry n) !! cl_node_id c = Some rec → mr_node_id rec = cl_node_id c →
  verify_credential nets keys (sign c kid sk) fp now =
    if mr_disabled rec then Err NodeDisabled else
    if cl_login_gen c <? mr_login_gen rec then Err (ReplacedBy (cl_login_gen c) (mr_login_gen rec)) else
    if negb (String.eqb (cl_cert_fp c) fp) then Err FpMismatch else Ok (c, cl_network_id c).
Proof.
  intros Hn Hd Hk Hb Hr Hm Hid. unfold verify_credential. destruct (peek_signed c kid sk) as [Hp Hi].
  rewrite Hp, Hn, Hd, (Hi Hr). cbn zeta. rewrite verify_signed by done.
  rewrite (proj2 (check_claims_ok _ _ _ c)) by done. cbn [from_option id]. rewrite Hm, Hid, Z.eqb_refl. done.
Qed.
End admission.

(** Every key id of the ring names one key, as [load_or_create] writes them. *)
Definition kids_unique `{L : CredLib} (k : Keyring) : Prop := NoDup ((λ p : StoredKey * SigningKey, sk_kid p.1) <$> kr_keys k).

Lemma active_verifies `{L : CredLib} k kid sk :
  kids_unique k → active k = Some (kid, sk) → find_kid kid (verifying_keys k) = Some (verifying_key sk).
Proof.
  unfold kids_unique, active, find_kid, verifying_keys. destruct k as [keys]. cbn.
  intros Hnd (p & [Hin _]%List.find_some & [= -> ->])%fmap_Some. apply list_elem_of_In in Hin.
  induction keys as [|q keys IH]; [by apply not_elem_of_nil in Hin|]. cbn in *. apply NoDup_cons in Hnd as [Hq Hnd].
  apply elem_of_cons in Hin as [->|Hin]; [by rewrite String.eqb_refl|].
  destruct (String.eqb_spec (sk_kid q.1) (sk_kid p.1)) as [He|]; [|by apply IH].
  destruct Hq. rewrite He. apply list_elem_of_fmap. eauto.
Qed.

(** A ring that was loaded has an active key, so no join on it panics. *)
Lemma load_keyring_active `{L : CredLib, B : Base64, !JoinLib L} stored k : load_keyring stored = Some k → is_Some (active k).
Proof.
  unfold load_keyring, active. intros (keys & _ & Hk)%bind_Some. destruct (existsb is_active keys) eqn:E; [|done]. injection Hk as <-.
  apply existsb_exists in E as (p & Hin & Hp). destruct (List.find is_active keys) eqn:Hf; cbn; [by rewrite Hf|].
  pose proof (List.find_none _ _ Hf _ Hin). congruence.
Qed.

Lemma join_check_ok `{O : IpNetOps} n name req peer m role ra :
  join_check n name req peer = Ok (m, role, ra) →
  ns_deleted n = false ∧ member_by_name (ns_cfg n) name = Some (m, role) ∧ secret_is (trim (jr_secret req)) m = true ∧
  join_relay_addr (ns_cfg n) m role peer = Ok ra ∧ (∀ old, by_name (ns_registry n) name = Some old → mr_disabled old = false).
Proof.
  unfold join_check. destruct (ns_deleted n); [done|]. destruct (member_by_name _ _) as [[m' role']|]; [|done].
  destruct (secret_is _ m') eqn:Hs; cbn; [|done]. destruct (join_relay_addr _ _ _ _) as [ra'|] eqn:Hr; [|done].
  destruct (by_name _ _) as [old|]; [destruct (mr_disabled old) eqn:Hd; [done|]|];
    intros [= <- <- <-]; split_and!; try done. by intros ? [= <-].
Qed.

Section joined.
Context `{O : IpNetOps, Q : MpscOps, L : CredLib, B : Base64, !JoinLib L}.
Context (enc : Snapshot → list Z) (n : NetState) (k : Keyring) (port : Z) (name : string) (req : JoinRequest) (peer : string)
  (e : JoinEnv) (n' : NetState) (resp : JoinResponse).
Context (Hinv : registry_inv (ns_registry n)) (Hroom : rg_next_node_id (ns_registry n) < u32_max).
Context (Hok : join_locked enc n k port name req peer e = (n', Returned (Ok resp))).

(** The record and the token behind a response. *)
Lemma joined_inv : ∃ m role ra reg g reg' rec kid sk,
  join_check n name req peer = Ok (m, role, ra) ∧ active k = Some (kid, sk) ∧
  join_update n reg name m role ra g req peer (je_now e) = (reg', rec) ∧ plan_edit name (ns_registry n) reg ∧
  n' = publish enc (join_committed n reg' rec (is_replaced (by_name (ns_registry n) name) req) peer)
         (key_infos k) (je_now e) (je_now_ms e) (je_mark_ok e) ∧
  ns_cfg n' = ns_cfg n ∧ ns_deleted n' = false ∧ rg_network_uuid (ns_registry n') = rg_network_uuid (ns_registry n) ∧
  rg_members (ns_registry n') !! mr_node_id rec = Some rec ∧ u_range 32 (mr_node_id rec) ∧ mr_disabled rec = false ∧
  resp = join_response n' k port (sign (join_claims n' req role rec (je_now e)) kid sk) m role rec.
Proof.
  apply join_locked_cases in Hok as [(err & ? & _)|[(reg & ? & _)|(m & role & ra & reg & g & reg' & rec & Hs & Hc & Ha & Hu & Hn' & Hout)]]; [done..|].
  destruct (active k) as [[kid sk]|] eqn:Hact; [|done]. injection Hout as ->.
  apply join_addresses_edit in Ha as [He _]. pose proof Hu as Hu'.
  apply join_update_spec in Hu as (_ & Hl & Hr & _ & Huu & Hrec); [|done..].
  pose proof (join_committed_frame n reg' rec (is_replaced (by_name (ns_registry n) name) req) peer) as (Fc & Fd & Fr & _).
  pose proof (publish_frame enc (join_committed n reg' rec (is_replaced (by_name (ns_registry n) name) req) peer)
    (key_infos k) (je_now e) (je_now_ms e) (je_mark_ok e)) as (Pc & Pd & _ & Pm & Pu & _).
  rewrite <- Hn' in Pc, Pd, Pm, Pu. pose proof Hc as (Hd & _ & _ & _ & Hdis)%join_check_ok.
  exists m, role, ra, reg, g, reg', rec, kid, sk. rewrite Pc, Pd, Pm, Pu, Fc, Fd, Fr. split_and!; try done.
  rewrite Hrec. cbn. destruct (by_name _ _) as [old|] eqn:Hold; [|done]. cbn. by apply Hdis.
Qed.
End joined.

(** The credential a join hands out is good: the control plane, seeing the
    network as the join left it and the coordinator's keys, admits it from the
    holder of the presented certificate for the whole of its lifetime (with the
    clock leeway), as the node, login generation, role, name and key of the
    response; and it admits it from nobody presenting another certificate. *)
Theorem join_credential_admitted `{O : IpNetOps, Q : MpscOps, L : CredLib, !CredLaws L, B : Base64, !JoinLib L}
    enc n k port name req peer e n' resp nets now
    (Hinv : registry_inv (ns_registry n)) (Hroom : rg_next_node_id (ns_registry n) < u32_max) (Hkids : kids_unique k)
    (Hok : join_locked enc n k port name req peer e = (n', Returned (Ok resp)))
    (Hnet : nets (nc_network_id (ns_cfg n)) = Some n')
    (Hfrom : je_now e ≤ sat_add 64 now LEEWAY_SECS)
    (Huntil : now < sat_add 64 (sat_add 64 (je_now e) (sat_mul 64 (sc_credential_ttl_mins (nc_settings (ns_cfg n))) 60)) LEEWAY_SECS) :
  (∃ c, verify_credential nets (verifying_keys k) (jp_credential resp) (jr_cert_fingerprint req) now =
          Ok (c, nc_network_id (ns_cfg n)) ∧
        cl_node_id c = jp_node_id resp ∧ cl_login_gen c = jp_login_gen resp ∧ cl_role c = jp_role resp ∧
        cl_sub c = jp_name resp ∧ cl_pubkey c = jr_pubkey req ∧ cl_iat c = je_now e) ∧
  (∀ fp, fp ≠ jr_cert_fingerprint req →
     verify_credential nets (verifying_keys k) (jp_credential resp) fp now = Err FpMismatch).
Proof.
  destruct (joined_inv enc n k port name req peer e n' resp Hinv Hroom Hok)
    as (m & role & ra & reg & g & reg' & rec & kid & sk & _ & Hact & _ & _ & _ & Hcfg & Hdel & Huu & Hl & Hr & Hdis & ->).
  set (c := join_claims n' req role rec (je_now e)).
  assert (∀ fp, verify_credential nets (verifying_keys k) (sign c kid sk) fp now =
    if negb (String.eqb (cl_cert_fp c) fp) then Err FpMismatch else Ok (c, cl_network_id c)) as Hv.
  { intros fp. rewrite (verify_credential_signed nets (verifying_keys k) c kid sk n' rec fp now); try done.
    - rewrite Hdis. cbn. by rewrite Z.ltb_irrefl.
    - cbn. by rewrite Hcfg.
    - by apply active_verifies.
    - unfold bound_to. cbn. rewrite Hcfg. done.
    - apply Hr. }
  cbn [jp_credential join_response]. split.
  - exists c. rewrite Hv. cbn. rewrite String.eqb_refl, Hcfg. done.
  - intros fp Hfp. rewrite Hv. cbn. destruct (String.eqb_spec (jr_cert_fingerprint req) fp); [by subst|done].
Qed.

(** ** Replacing an instance *)

Lemma close_replaced_spec `{Q : MpscOps} n node g why :
  let n' := close_replaced n node g why in
  (∀ s, ns_sessions n' !! node = Some s → ns_sessions n !! node = Some s ∧ g ≤ cs_login_gen s) ∧
  (∀ s, ns_sessions n !! node = Some s → cs_login_gen s < g →
     ∃ s', s' ∈ ns_gone n' ∧ cs_id s' = cs_id s ∧ cs_closed s' = Some (default CLOSE_REPLACED (cs_closed s))).
Proof.
  cbn zeta. unfold close_replaced. destruct (ns_sessions n !! node) as [s|] eqn:Hs; [|split; intros s ?; congruence].
  destruct (Z.ltb_spec (cs_login_gen s) g).
  - unfold close_session_with. rewrite Hs. cbn. split; [intros s'; by rewrite lookup_delete_eq|]. intros ? [= <-] _.
    eexists. split; [left|]. unfold dismiss, close_conn, try_send. cbn.
    destruct (mpsc_try_send _ _ _ _); cbn; split; try done; by destruct (cs_closed s).
  - rewrite Hs. split; [by intros ? [= <-]|]. intros ? [= <-]. lia.
Qed.

(** The keys on record are not the ones presented. *)
Definition other_machine (old : MemberRecord) (req : JoinRequest) : Prop :=
  is_Some (mr_pubkey old) ∧ (mr_pubkey old ≠ Some (jr_pubkey req) ∨ mr_cert_fp old ≠ Some (jr_cert_fingerprint req)).

Lemma is_replaced_spec old req : is_replaced (Some old) req = true ↔ other_machine old req.
Proof.
  unfold is_replaced, other_machine. rewrite andb_true_iff, orb_true_iff, !negb_true_iff, !bool_decide_eq_false, bool_decide_eq_true. done.
Qed.

(** One machine per member. When a join presents other keys than the
    member's record holds, it takes the same node id at the next login
    generation, and the previous instance is out: no control session of that
    node below the new generation remains (such a session was dismissed and its
    connection closed), and every credential the coordinator signed for the node
    at an older generation is refused as replaced, however long it was still to
    live. A join with the recorded keys keeps the generation. *)
Theorem join_replaces_instance `{O : IpNetOps, Q : MpscOps, L : CredLib, !CredLaws L, B : Base64, !JoinLib L}
    enc n k port name req peer e n' resp old
    (Hinv : registry_inv (ns_registry n)) (Hroom : rg_next_node_id (ns_registry n) < u32_max)
    (Hold : by_name (ns_registry n) name = Some old) (Hgen : 0 ≤ mr_login_gen old < 2 ^ 64 - 1)
    (Hok : join_locked enc n k port name req peer e = (n', Returned (Ok resp))) :
  jp_node_id resp = mr_node_id old ∧
  ((¬ other_machine old req) → jp_login_gen resp = mr_login_gen old) ∧
  (other_machine old req →
     jp_login_gen resp = mr_login_gen old + 1 ∧
     (∀ s, ns_sessions n' !! mr_node_id old = Some s → mr_login_gen old < cs_login_gen s) ∧
     (∀ s, ns_sessions n !! mr_node_id old = Some s → cs_login_gen s ≤ mr_login_gen old →
        ∃ s', s' ∈ ns_gone n' ∧ cs_id s' = cs_id s ∧ cs_closed s' = Some (default CLOSE_REPLACED (cs_closed s))) ∧
     ∀ nets keys c kid sk fp now,
       nets (cl_network_id c) = Some n' → find_kid kid keys = Some (verifying_key sk) →
       bound_to c (mkExpected ISS (cl_network_id c) (rg_network_uuid (ns_registry n'))) now →
       cl_node_id c = mr_node_id old → cl_login_gen c ≤ mr_login_gen old →
       verify_credential nets keys (sign c kid sk) fp now = Err (ReplacedBy (cl_login_gen c) (mr_login_gen old + 1))).
Proof.
  destruct (joined_inv enc n k port name req peer e n' resp Hinv Hroom Hok)
    as (m & role & ra & reg & g & reg' & rec & kid & sk & _ & _ & Hu & He & Hn' & Hcfg & Hdel & Huu & Hl & Hr & Hdis & ->).
  apply join_update_spec in Hu as (_ & _ & _ & Hname & _ & Hrec); [|done..]. rewrite Hold in Hrec, Hn'.
  assert (mr_node_id rec = mr_node_id old) as Hid by by rewrite Hrec.
  assert (mr_login_gen rec = if is_replaced (Some old) req then mr_login_gen old ⊕ 1 else mr_login_gen old) as Hg by by rewrite Hrec.
  rewrite wadd64_small in Hg by lia. cbn [jp_node_id jp_login_gen join_response]. split; [done|].
  rewrite <- is_replaced_spec. destruct (is_replaced (Some old) req); [|by split; [intros _|]].
  split; [by intros []|]. intros _. split; [done|].
  pose proof (publish_frame enc (join_committed n reg' rec true peer) (key_infos k) (je_now e) (je_now_ms e) (je_mark_ok e))
    as (_ & _ & Pg & _ & _ & _ & _ & Ps).
  rewrite <- Hn' in Pg, Ps. unfold join_committed in Pg, Ps.
  pose proof (close_replaced_spec (ns_set_registry reg' reg' n) (mr_node_id rec) (mr_login_gen rec) (replaced_why (mr_name rec) peer)) as [C1 C2].
  rewrite <- Hid. split_and!.
  - intros s (s0 & Hs0 & ->)%Ps. apply C1 in Hs0 as [_ ?]. lia.
  - intros s Hs Hlt. rewrite Pg. apply C2; [done|lia].
  - intros nets keys c kid' sk' fp now Hnet Hk Hb Hc Hlt. rewrite <- Hg.
    rewrite (verify_credential_signed nets keys c kid' sk' n' rec fp now); try done; [|rewrite Hc; apply Hr|by rewrite Hc].
    rewrite Hdis. by rewrite (proj2 (Z.ltb_lt _ _)) by lia.
Qed.

(** ** Whom a secret admits *)

(** Some member of [cfg] holds the secret. *)
Definition holds_secret (cfg : NetworkConfig) (name : string) (secret : string) : Prop :=
  ∃ m role s, (name, m, role) ∈ cfg_members cfg ∧ mc_secret m = Some s ∧ trim s = trim secret.

Lemma holds_secret_trim cfg name secret : holds_secret cfg name (trim secret) ↔ holds_secret cfg name secret.
Proof. unfold holds_secret. by rewrite trim_idempotent. Qed.

Lemma member_by_name_elem cfg name m role : member_by_name cfg name = Some (m, role) → (name, m, role) ∈ cfg_members cfg.
Proof.
  unfold member_by_name. rewrite elem_of_cfg_members. destruct (nc_clients cfg !! name) eqn:E; [by intros [= <- <-]|].
  by intros (x & ? & [= -> ->])%fmap_Some.
Qed.

Section resolving.
Context `{L : CredLib, B : Base64, !JoinLib L}.

(** The secret is resolved exactly when it is plausible and someone holds it,
    and to one who holds it. *)
Lemma resolve_secret_spec a secret :
  match resolve_secret a secret with
  | Some (id, name) => plausible_secret (trim secret) = true ∧ ∃ n, as_networks a !! id = Some n ∧ holds_secret (ns_cfg n) name secret
  | None => plausible_secret (trim secret) = true → ∀ id n name, as_networks a !! id = Some n → ¬ holds_secret (ns_cfg n) name secret
  end.
Proof.
  unfold resolve_secret. destruct (plausible_secret (trim secret)); cbn [negb]; [|done].
  match goal with |- context [List.find ?f ?l] => destruct (List.find f l) as [[[id name] m]|] eqn:Hf end; cbn [fmap option_fmap option_map fst].
  - split; [done|]. apply List.find_some in Hf as [Hin Hs]. apply secret_is_spec in Hs as (s & Hs & Ht). cbn in Hs.
    apply list_elem_of_In, list_elem_of_bind in Hin as ([id' n] & Hin & Hp%elem_of_bt_iter).
    apply list_elem_of_fmap in Hin as ([[name' m'] role] & [= -> -> ->] & Hm). exists n. split; [done|]. by exists m', role, s.
  - intros _ id n name Hn (m & role & s & Hm & Hs & Ht).
    assert (secret_is (trim secret) m = true) as Hsec by (apply secret_is_spec; eauto).
    apply (List.find_none _ _) with (x := (id, name, m)) in Hf; [cbn in Hf; congruence|].
    apply list_elem_of_In, list_elem_of_bind. exists (id, n). split; [|by apply elem_of_bt_iter].
    apply list_elem_of_fmap. by exists (name, m, role).
Qed.
End resolving.

(** C39: Only the current holder of a secret joins. A successful join is by a
    member of a live network whose configured secret is the presented one (both
    trimmed), with well-formed keys, in its configured role and not disabled,
    and touches no other network. If no member holds the secret the answer is
    the credentials error or, before any comparison, the rate limit's, and no
    network changes. And whatever happened to the network after the secret was
    resolved (deletion, rotation, removal of the member), the locked phase
    refuses a join whose secret is no longer the member's, changing nothing. *)
Theorem join_only_secret_holder `{O : IpNetOps, Q : MpscOps, L : CredLib, B : Base64, !JoinLib L} enc a req peer rate_now e a' out
    (Hj : join enc a req peer rate_now e = (a', out)) :
  (∀ resp, out = Returned (Ok resp) →
     valid_pubkey (jr_pubkey req) = true ∧ valid_fingerprint (jr_cert_fingerprint req) = true ∧
     ∃ id n m s, as_networks a !! id = Some n ∧ ns_deleted n = false ∧
       member_by_name (ns_cfg n) (jp_name resp) = Some (m, jp_role resp) ∧ mc_secret m = Some s ∧ trim s = trim (jr_secret req) ∧
       (∀ old, by_name (ns_registry n) (jp_name resp) = Some old → mr_disabled old = false) ∧
       ∀ id', id' ≠ id → as_networks a' !! id' = as_networks a !! id') ∧
  ((∀ id n name, as_networks a !! id = Some n → ¬ holds_secret (ns_cfg n) name (jr_secret req)) →
     (out = Returned (Err BadCredentials) ∨ out = Returned (Err RateLimited)) ∧ as_networks a' = as_networks a) ∧
  (∀ n k port name, ns_deleted n = true ∨ (¬ holds_secret (ns_cfg n) name (jr_secret req)) →
     join_locked enc n k port name req peer e = (n, Returned (Err BadCredentials))).
Proof.
  assert (∀ n k port name, ns_deleted n = true ∨ (¬ holds_secret (ns_cfg n) name (jr_secret req)) →
     join_locked enc n k port name req peer e = (n, Returned (Err BadCredentials))) as Hstale.
  { intros n k port name Hn. unfold join_locked. replace (join_check n name req peer) with (@Err (MemberCfg * Role * option string) _ BadCredentials); [done|].
    unfold join_check. destruct (ns_deleted n); [done|]. destruct (member_by_name _ _) as [[m role]|] eqn:Hm; [|done].
    destruct (secret_is _ m) eqn:Hs; [|done]. destruct Hn as [|[]]; [done|]. apply secret_is_spec in Hs as (s & Hs & Ht).
    apply member_by_name_elem in Hm. by exists m, role, s. }
  unfold join, join_admit, check_rate in Hj. destruct (rate_check _ _ _ _ _) as [rl ok].
  destruct ok; cbn [negb] in Hj; [|injection Hj as <- <-; split; [done|]; split; [auto|done]].
  pose proof (resolve_secret_spec (as_set_rate rl a) (trim (jr_secret req))) as Hr.
  destruct (resolve_secret _ _) as [[id name]|]; [|injection Hj as <- <-; split; [done|]; split; [auto|done]].
  destruct Hr as (_ & n & Hn & Hh). rewrite holds_secret_trim in Hh. cbn [as_networks as_set_rate] in Hn.
  assert (¬ ∀ id n name, as_networks a !! id = Some n → ¬ holds_secret (ns_cfg n) name (jr_secret req)) as Hex by naive_solver.
  destruct (valid_pubkey _); cbn [negb] in Hj; [|injection Hj as <- <-; done].
  destruct (valid_fingerprint _); cbn [negb] in Hj; [|injection Hj as <- <-; done].
  cbn [as_networks as_set_rate as_keyring as_control_port] in Hj. rewrite Hn in Hj.
  destruct (join_locked _ _ _ _ _ _ _) as [n' out'] eqn:Hl. injection Hj as <- <-. split; [|done].
  intros resp ->. split; [done|]. split; [done|].
  apply join_locked_cases in Hl as [(? & ? & _)|[(? & ? & _)|(m & role & ra & reg & g & reg' & rec & _ & Hc & _ & Hu & _ & Hout)]]; [done..|].
  destruct (active _) as [[kid sk]|]; [|done]. injection Hout as ->.
  apply join_update_record in Hu as (_ & _ & _ & _ & _ & _ & _ & Hname). cbn [jp_name jp_role join_response]. rewrite Hname.
  apply join_check_ok in Hc as (Hd & Hm & Hs & _ & Hdis). apply secret_is_spec in Hs as (s & Hs & Ht).
  exists id, n, m, s. split_and!; [done..|]. intros id' Hne. cbn. by rewrite lookup_insert_ne.
Qed.

(** ** Routes *)

Lemma declare_route_spec now routes c r :
  r ∈ declare_route now routes c ↔ r ∈ routes ∨ (r = mkRouteReg c now ∧ c ∉ rr_cidr <$> routes).
Proof.
  unfold declare_route, has_cidr. destruct (existsb _ routes) eqn:E.
  - apply existsb_exists in E as (x & Hx & He%bool_decide_eq_true). apply list_elem_of_In in Hx.
    split; [auto|]. intros [|[_ []]]; [done|]. apply list_elem_of_fmap. eauto.
  - rewrite elem_of_app, list_elem_of_singleton. split; [|naive_solver]. intros [? | ->]; [by left|]. right. split; [done|].
    intros (x & He & Hx)%list_elem_of_fmap. apply not_true_iff_false in E. apply E, existsb_exists.
    exists x. split; [by apply list_elem_of_In|]. by apply bool_decide_eq_true.
Qed.

Lemma declare_route_all now declared routes r :
  r ∈ foldl (declare_route now) routes declared ↔
  r ∈ routes ∨ (rr_first_granted_unix r = now ∧ rr_cidr r ∈ declared ∧ rr_cidr r ∉ rr_cidr <$> routes).
Proof.
  revert routes. induction declared as [|c declared IH]; intros routes; cbn; [setoid_rewrite elem_of_nil; tauto|].
  rewrite IH, declare_route_spec. destruct r as [rc rt]. cbn [rr_cidr rr_first_granted_unix]. rewrite elem_of_cons.
  assert (rc ∉ rr_cidr <$> declare_route now routes c ↔ (rc ∉ rr_cidr <$> routes) ∧ rc ≠ c) as ->; [|destruct (decide (rc = c)); naive_solver].
  rewrite !list_elem_of_fmap. setoid_rewrite declare_route_spec. split.
  - intros H. split; [naive_solver|]. intros ->. apply H.
    destruct (decide (c ∈ rr_cidr <$> routes)) as [(x & ? & ?)%list_elem_of_fmap|Hn]; [by eauto|].
    exists (mkRouteReg c now). auto.
  - naive_solver.
Qed.

Lemma join_routes_spec existing declared now r :
  r ∈ join_routes existing declared now ↔
  rr_cidr r ∈ declared ∧ (r ∈ existing ∨ (rr_first_granted_unix r = now ∧ rr_cidr r ∉ rr_cidr <$> existing)).
Proof.
  unfold join_routes. rewrite declare_route_all, elem_of_filter_b, bool_decide_eq_true. split; [|intros [Hd [?|[Ht Hn]]]; [by left|right]].
  - intros [?|(Ht & Hd & Hn)]; [tauto|]. split; [done|]. right. split; [done|]. intros (x & Hx & Hin)%list_elem_of_fmap. apply Hn.
    apply list_elem_of_fmap. exists x. rewrite elem_of_filter_b, bool_decide_eq_true, <- Hx. done.
  - split_and!; [done..|]. intros (x & Hx & [_ Hin]%elem_of_filter_b)%list_elem_of_fmap. apply Hn, list_elem_of_fmap. eauto.
Qed.

(** A join grants exactly the routes the operator declared for the member
    (none to a client; to a relay its LAN prefixes, truncated, and both default
    routes if it is an internet gateway). A route the member already had keeps
    the age that decides ownership among several declarers, a new one starts at
    the time of the join, and a route no longer declared is gone. *)
Theorem join_routes_declared `{O : IpNetOps, Q : MpscOps, L : CredLib, B : Base64, !JoinLib L} enc n k port name req peer e n' resp
    (Hok : join_locked enc n k port name req peer e = (n', Returned (Ok resp))) :
  let before := default [] (mr_routes <$> by_name (ns_registry n) name) in
  ∃ m role rec, member_by_name (ns_cfg n) name = Some (m, role) ∧
    rg_members (ns_registry n') !! jp_node_id resp = Some rec ∧
    (∀ c, c ∈ jp_granted_cidrs resp ↔ c ∈ declared_cidrs m role) ∧
    ∀ r, r ∈ mr_routes rec ↔
      rr_cidr r ∈ declared_cidrs m role ∧
      (r ∈ before ∨ (rr_first_granted_unix r = je_now e ∧ rr_cidr r ∉ rr_cidr <$> before)).
Proof.
  cbn zeta. apply join_locked_cases in Hok as [(? & ? & _)|[(? & ? & _)|(m & role & ra & reg & g & reg' & rec & _ & Hc & _ & Hu & Hn' & Hout)]]; [done..|].
  destruct (active _) as [[kid sk]|]; [|done]. injection Hout as ->.
  apply join_update_record in Hu as (Hl & _ & _ & _ & _ & _ & Hroutes & _). apply join_check_ok in Hc as (_ & Hm & _).
  exists m, role, rec. cbn [jp_node_id jp_granted_cidrs join_response]. split; [done|]. split.
  { pose proof (publish_frame enc (join_committed n reg' rec (is_replaced (by_name (ns_registry n) name) req) peer)
      (key_infos k) (je_now e) (je_now_ms e) (je_mark_ok e)) as (_ & _ & _ & Pm & _).
    rewrite <- Hn' in Pm. rewrite Pm. by destruct (join_committed_frame n reg' rec (is_replaced (by_name (ns_registry n) name) req) peer) as (_ & _ & -> & _). }
  rewrite Hroutes. split; [|apply join_routes_spec]. intros c. rewrite list_elem_of_fmap. setoid_rewrite join_routes_spec. split.
  - naive_solver.
  - intros Hd. destruct (decide (c ∈ rr_cidr <$> default [] (mr_routes <$> by_name (ns_registry n) name))) as [Hb|Hb].
    + apply list_elem_of_fmap in Hb as (x & -> & ?). eauto.
    + exists (mkRouteReg c (je_now e)). cbn. auto.
Qed.

(** ** A relay moves to a new machine *)

Module JoinExample.
#[local] Existing Instance ipnet_ref.
#[local] Existing Instance CredExample.lib.

(** Base64 as the identity on bytes, keys as their big-endian numbers. *)
#[global] Instance base64 : Base64 := {|
  b64_encode := bytes_str;
  b64_decode s := Some (str_bytes s);
|}.

#[global] Instance join_lib : JoinLib CredExample.lib := {|
  signing_key_from_bytes := from_be;
  verifying_key_bytes k := to_be 32 k;
|}.

Definition enc := DirExample.enc.
Definition stored (kid state : string) : StoredKey := mkStoredKey kid "0123456789abcdef0123456789abcdef" state 5.
Definition keyring : Keyring := default (mkKeyring []) (load_keyring [stored "k1" "retiring"; stored "k2" "active"]).

Definition relay_a : MemberCfg :=
  mkMemberCfg (Some " s-a1 "%string) (Some "auto:443"%string) [Net4 3232235777 24; Net4 (172 * 2 ^ 24) 16] None None None None None None None.
Definition cfg : NetworkConfig :=
  mkNetworkConfig "net" [Net4 (2 ^ 24) 8] settings_default (<["a"%string := relay_a]> {["b"%string := member_cfg_default]}) ∅.
Definition old : MemberRecord := DirExample.relay 1 5 "a".
Definition session : CtlSession := session_new 7 (mkClaims ISS AUD "net" "u" 1 "a" Relay "PK" "fp" [] 1 0 900) "198.51.100.1:5000".
Definition n : NetState := ns_set_sessions {[1 := session]} (ns_new enc cfg DirExample.reg 10 10000).
Definition a : AppState := mkAppState {["net"%string := n]} keyring rate_limiter_default 10 4433.

Definition fp : string := "sha256:00112233445566778899aabbccddeeff00112233445566778899aabbccddeeff".
Definition req : JoinRequest := mkJoinRequest "s-a1" "ABCDEFGHIJKLMNOPQRSTUVWXYZ012345" fp.
Definition peer : string := "::ffff:198.51.100.9".
Definition env : JoinEnv := mkJoinEnv 100 100 100000 true true true.
Definition result := join_locked enc n keyring 4433 "a" req peer env.

Definition joined {T} (o : Outcome T) : bool := match o with Returned (Ok _) => true | _ => false end.

Lemma ok_shape {A T} (r : A * Outcome T) : joined r.2 = true → ∃ resp, r = (r.1, Returned (Ok resp)).
Proof. destruct r as [? [[resp|]|]]; cbn; [eauto|done..]. Qed.

Lemma ok : ∃ resp, result = (result.1, Returned (Ok resp)).
Proof. apply ok_shape. vm_compute. reflexivity. Qed.

Lemma inv : registry_inv (ns_registry n).
Proof.
  assert (∀ id m, rg_members DirExample.reg !! id = Some m → (id = 1 ∧ m = old) ∨ (id = 2 ∧ m = DirExample.relay 2 9 "b")) as H.
  { intros id m. unfold DirExample.reg. cbn [rg_members]. rewrite lookup_insert_Some, lookup_singleton_Some. naive_solver. }
  split_and!; [| |by_decide].
  - intros id m [[-> ->]|[-> ->]]%H; cbn; lia.
  - intros i j m m' [[-> ->]|[-> ->]]%H [[-> ->]|[-> ->]]%H; cbn; done.
Qed.

Lemma kids : kids_unique keyring.
Proof. unfold kids_unique. by_decide. Qed.
End JoinExample.

Lemma join_durable_witness :
  ∃ resp rec, rg_members (ns_disk (JoinExample.result).1) !! jp_node_id resp = Some rec ∧
    mr_pubkey rec = Some (jr_pubkey JoinExample.req) ∧ mr_login_gen rec = jp_login_gen resp.
Proof.
  destruct JoinExample.ok as [resp Hr].
  destruct (join_durable (L := CredExample.lib) _ _ _ _ _ _ _ _ _ _ Hr) as (_ & _ & rec & Hl & Hp & _ & _ & _ & Hg & _).
  exists resp, rec. exact (conj Hl (conj Hp Hg)).
Defined.

Lemma join_credential_admitted_witness :
  let L := CredExample.lib in
  ∃ resp c, JoinExample.result = ((JoinExample.result).1, Returned (Ok resp)) ∧
    verify_credential (λ id, if String.eqb id "net" then Some (JoinExample.result).1 else None) (verifying_keys JoinExample.keyring)
      (jp_credential resp) JoinExample.fp 1000 = Ok (c, "net"%string) ∧ cl_node_id c = jp_node_id resp.
Proof.
  cbn zeta. pose proof CredExample.lib_laws. destruct JoinExample.ok as [resp Hr].
  destruct (join_credential_admitted (L := CredExample.lib) _ _ _ _ _ _ _ _ _ _
    (λ id, if String.eqb id "net" then Some (JoinExample.result).1 else None) 1000 JoinExample.inv ltac:(by_decide) JoinExample.kids Hr
    eq_refl ltac:(by_decide) ltac:(by_decide)) as [(c & Hv & Hn & _) _].
  exists resp, c. split; [exact Hr|]. split; [exact Hv|exact Hn].
Defined.

Lemma join_replaces_instance_witness :
  ∃ resp, JoinExample.result = ((JoinExample.result).1, Returned (Ok resp)) ∧ jp_node_id resp = 1 ∧ jp_login_gen resp = 2 ∧
    ∃ s', s' ∈ ns_gone (JoinExample.result).1 ∧ cs_id s' = 7 ∧ cs_closed s' = Some CLOSE_REPLACED.
Proof.
  pose proof CredExample.lib_laws. destruct JoinExample.ok as [resp Hr].
  assert (by_name (ns_registry JoinExample.n) "a" = Some JoinExample.old) as Hb by (vm_compute; reflexivity).
  assert (other_machine JoinExample.old JoinExample.req) as Ho by (split; [eexists; reflexivity|left; discriminate]).
  destruct (join_replaces_instance (L := CredExample.lib) _ _ _ _ _ _ _ _ _ _ JoinExample.old
    JoinExample.inv ltac:(by_decide) Hb ltac:(by_decide) Hr) as (Hid & _ & Hrep).
  destruct (Hrep Ho) as (Hg & _ & Hs & _). exists resp. split; [exact Hr|]. split; [exact Hid|]. split; [exact Hg|].
  apply (Hs JoinExample.session); [vm_compute; reflexivity|by_decide].
Defined.

Lemma join_only_secret_holder_witness :
  ∃ a' resp, join (L := CredExample.lib) JoinExample.enc JoinExample.a JoinExample.req JoinExample.peer 100 JoinExample.env = (a', Returned (Ok resp)) ∧
    ∃ id n m, as_networks JoinExample.a !! id = Some n ∧ member_by_name (ns_cfg n) (jp_name resp) = Some (m, jp_role resp).
Proof.
  destruct (JoinExample.ok_shape (join (L := CredExample.lib) JoinExample.enc JoinExample.a JoinExample.req JoinExample.peer 100 JoinExample.env))
    as [resp Hr]; [vm_compute; reflexivity|].
  eexists _, resp. split; [exact Hr|].
  destruct (join_only_secret_holder (L := CredExample.lib) _ _ _ _ _ _ _ _ Hr) as (Hf & _).
  destruct (Hf resp eq_refl) as (_ & _ & id & n & m & s & Hn & _ & Hm & _). exists id, n, m. split; [exact Hn|exact Hm].
Defined.

Lemma join_routes_declared_witness :
  ∃ resp m role, JoinExample.result = ((JoinExample.result).1, Returned (Ok resp)) ∧
    member_by_name (ns_cfg JoinExample.n) "a" = Some (m, role) ∧
    ∀ c, c ∈ jp_granted_cidrs resp ↔ c ∈ declared_cidrs m role.
Proof.
  destruct JoinExample.ok as [resp Hr].
  destruct (join_routes_declared (L := CredExample.lib) _ _ _ _ _ _ _ _ _ _ Hr) as (m & role & rec & Hm & _ & Hc & _).
  exists resp, m, role. split; [exact Hr|]. split; [exact Hm|exact Hc].
Defined.
