(* ===== verification/Flow.v ===== *)
(** * Flow identity (crates/nqvpn-proto/src/flow.rs)

    The hash of an inner packet's five-tuple, from which the lane and the trace
    id of a frame are chosen. *)

From S2P Require Import Prelude Frame.

Definition FNV_OFFSET : Z := 0xcbf29ce484222325.
Definition FNV_PRIME : Z := 0x100000001b3.

Definition mix (h : Z) (bytes : list Z) : Z := foldl (λ h b, (Z.lxor h b * FNV_PRIME) mod 2 ^ 64) h bytes.

(** What [flow_hash] reads of a packet: protocol, addresses, and the four bytes
    where ports would be. *)
Definition flow_fields (packet : list Z) : option (Z * list Z * option (list Z)) :=
  match packet with
  | [] => None
  | b0 :: _ =>
      let version := Z.shiftr b0 4 in
      if version =? 4 then
        if (length packet <? 20)%nat then None else
        let ihl := (Z.to_nat (Z.land b0 15) * 4)%nat in
        let frag_offset := from_be [Z.land (packet !!! 6%nat) 31; packet !!! 7%nat] in
        let l4 := if (frag_offset =? 0) && (ihl + 4 <=? length packet)%nat then Some (slice ihl (ihl + 4) packet) else None in
        Some (packet !!! 9%nat, slice 12 20 packet, l4)
      else if version =? 6 then
        if (length packet <? 40)%nat then None else
        let l4 := if (44 <=? length packet)%nat then Some (slice 40 44 packet) else None in
        Some (packet !!! 6%nat, slice 8 40 packet, l4)
      else None
  end.

Definition has_ports (proto : Z) : bool := (proto =? 6) || (proto =? 17) || (proto =? 132) || (proto =? 136).

Definition flow_hash (packet : list Z) : option Z :=
  '(proto, addrs, l4) ← flow_fields packet;
  let h := mix (mix FNV_OFFSET addrs) [proto] in
  Some (match l4 with Some l4 => if has_ports proto then mix h l4 else h | None => h end).

(** The 64-bit hash folded onto its low half. *)
Definition fold_hash (h : Z) : Z := Z.lxor (Z.shiftr h 32) h.

Definition trace_id (packet : list Z) : Z :=
  match flow_hash packet with Some h => fold_hash h mod 2 ^ 32 | None => 0 end.

Definition lane_for (packet : list Z) (lanes : Z) : Z :=
  if lanes <=? 1 then 0 else
  match flow_hash packet with Some h => fold_hash h mod lanes | None => 0 end.

Lemma trace_id_range packet : u_range 32 (trace_id packet).
Proof. unfold trace_id, u_range. case_match; [apply Z.mod_pos_bound|]; lia. Qed.

Lemma lane_for_range packet lanes : 0 ≤ lane_for packet lanes ∧ (1 ≤ lanes → lane_for packet lanes < lanes).
Proof.
  unfold lane_for. destruct (Z.leb_spec lanes 1); [lia|]. case_match; [|lia].
  pose proof (Z.mod_pos_bound (fold_hash z) lanes). lia.
Qed.

(** The identity of a flow: ports count only where the protocol has them. *)
Definition flow_key (packet : list Z) : option (Z * list Z * option (list Z)) :=
  '(proto, addrs, l4) ← flow_fields packet; Some (proto, addrs, if has_ports proto then l4 else None).

(** Lanes are sticky: a lane and a trace id belong to the flow, whatever else
    the packet carries, and lanes stay in range. *)
Theorem lanes_sticky p q lanes :
  flow_key p = flow_key q →
  lane_for p lanes = lane_for q lanes ∧ trace_id p = trace_id q ∧ (1 ≤ lanes → 0 ≤ lane_for p lanes < lanes).
Proof.
  intros Hk. assert (flow_hash p = flow_hash q) as Hh.
  { unfold flow_key, flow_hash in *. destruct (flow_fields p) as [[[pr ad] l4]|], (flow_fields q) as [[[pr' ad'] l4']|]; cbn in *; simplify_eq; [|done].
    destruct (has_ports pr'); [by simplify_eq|]. by destruct l4, l4'. }
  unfold lane_for, trace_id. rewrite Hh. split; [done|]. split; [done|]. pose proof (lane_for_range q lanes). unfold lane_for in *. tauto.
Qed.

Lemma lanes_sticky_witness :
  lane_for ([69; 0; 0; 24; 1; 2; 0; 0; 64; 6; 9; 9; 10; 0; 0; 1; 10; 0; 0; 2] ++ [4; 210; 0; 80]) 8 =
  lane_for ([69; 0; 0; 25; 7; 7; 0; 0; 63; 6; 8; 8; 10; 0; 0; 1; 10; 0; 0; 2] ++ [4; 210; 0; 80; 1]) 8.
Proof. apply lanes_sticky. vm_compute. reflexivity. Defined.
