(* ===== verification/Lpm.v ===== *)
(** * The longest-prefix table (crates/nqvpn-proto/src/lpm.rs)

    [LpmTable] over the [prefix-trie] crate, whose [JointPrefixMap] is a
    parameter: its operations are [TrieOps], its documented behaviour
    [TrieLaws], and [trie_ref] one implementation. *)

From S2P Require Import Prelude Ordered Ipnet.

(** ** [prefix_trie::joint::JointPrefixMap<IpNet, NodeId>] *)

Class TrieOps := {
  Trie : Type;
  trie_empty : Trie;
  trie_insert : Trie → IpNet → Z → Trie;
  trie_remove : Trie → IpNet → Trie;
  trie_get_lpm : Trie → IpNet → option (IpNet * Z);
  trie_iter : Trie → list (IpNet * Z);
}.

(** A trie is a map from prefixes (truncated ones, as the crate masks its keys)
    to values; [get_lpm] finds a longest entry covering the query. *)
Class TrieLaws (O : IpNetOps) (T : TrieOps) := {
  trie_map : Trie → gmap IpNet Z;
  trie_empty_map : trie_map trie_empty = ∅;
  trie_insert_map t p v : wf_net p → net_trunc p = p → trie_map (trie_insert t p v) = <[p := v]> (trie_map t);
  trie_remove_map t p : wf_net p → net_trunc p = p → trie_map (trie_remove t p) = delete p (trie_map t);
  trie_iter_map t : trie_iter t ≡ₚ map_to_list (trie_map t);
  trie_lpm_some t q p v : wf_net q → trie_get_lpm t q = Some (p, v) →
    trie_map t !! p = Some v ∧ net_contains_net p q = true ∧
    ∀ p' v', trie_map t !! p' = Some v' → net_contains_net p' q = true → net_prefix_len p' ≤ net_prefix_len p;
  trie_lpm_none t q : wf_net q → trie_get_lpm t q = None →
    ∀ p v, trie_map t !! p = Some v → net_contains_net p q = false;
}.

(** The longest of the entries that cover the query, by a scan. *)
Definition longer (best : option (IpNet * Z)) (e : IpNet * Z) : option (IpNet * Z) :=
  match best with
  | Some b => if net_prefix_len b.1 <? net_prefix_len e.1 then Some e else Some b
  | None => Some e
  end.

#[export] Instance trie_ref `{O : IpNetOps} : TrieOps := {|
  Trie := gmap IpNet Z;
  trie_empty := ∅;
  trie_insert t p v := <[p := v]> t;
  trie_remove t p := delete p t;
  trie_get_lpm t q := foldl longer None (List.filter (λ e : IpNet * Z, net_contains_net e.1 q) (map_to_list t));
  trie_iter t := map_to_list t;
|}.

Lemma longer_spec l best :
  match foldl longer best l with
  | Some e => (e ∈ l ∨ best = Some e) ∧ (∀ e', e' ∈ l → net_prefix_len e'.1 ≤ net_prefix_len e.1) ∧
              (∀ b, best = Some b → net_prefix_len b.1 ≤ net_prefix_len e.1)
  | None => l = [] ∧ best = None
  end.
Proof.
  revert best. induction l as [|x l IH]; intros best; cbn.
  { destruct best; [|done]. split; [by right|]. split; [by intros e' []%not_elem_of_nil|]. by intros ? [= <-]. }
  specialize (IH (longer best x)). destruct (foldl longer (longer best x) l) as [e|].
  2:{ destruct IH as [_ Hn]. unfold longer in Hn. by repeat case_match. }
  destruct IH as (Hin & Hl & Hb). setoid_rewrite elem_of_cons.
  assert (net_prefix_len x.1 ≤ net_prefix_len e.1 ∧ ∀ b, best = Some b → net_prefix_len b.1 ≤ net_prefix_len e.1) as [Hx Hb'].
  { unfold longer in Hb. destruct best as [b|]; [destruct (Z.ltb_spec (net_prefix_len b.1) (net_prefix_len x.1))|];
      specialize (Hb _ eq_refl); (split; [lia|]); intros ? [= <-]; lia. }
  split; [|split; [intros e' [-> | ?]; [done|by apply Hl]|done]].
  destruct Hin as [?|He]; [by left; right|]. unfold longer in He. repeat case_match; simplify_eq; auto.
Qed.

#[export] Instance trie_ref_laws `{O : IpNetOps} : TrieLaws O trie_ref.
Proof.
  apply (@Build_TrieLaws O trie_ref (λ t, t)); try done; cbn.
  - intros t q p v _ Hg. pose proof (longer_spec (List.filter (λ e : IpNet * Z, net_contains_net e.1 q) (map_to_list t)) None) as H.
    rewrite Hg in H. destruct H as ([[Hc Hin]%elem_of_filter_b|] & Hl & _); [|done]. apply elem_of_map_to_list in Hin.
    split; [done|]. split; [done|]. intros p' v' Hm Hc'. apply (Hl (p', v')). apply elem_of_filter_b. by rewrite elem_of_map_to_list.
  - intros t q _ Hg p v Hm. pose proof (longer_spec (List.filter (λ e : IpNet * Z, net_contains_net e.1 q) (map_to_list t)) None) as H.
    rewrite Hg in H. destruct H as [Hn _]. apply not_true_iff_false. intros Hc.
    assert ((p, v) ∈ List.filter (λ e : IpNet * Z, net_contains_net e.1 q) (map_to_list t)) as Hin
      by (apply elem_of_filter_b; by rewrite elem_of_map_to_list).
    rewrite Hn in Hin. by apply not_elem_of_nil in Hin.
Defined.

(** ** [LpmTable] *)

Section lpm.
Context `{O : IpNetOps, T : TrieOps}.

Definition overlaps (a b : IpNet) : bool := net_contains a (net_network b) || net_contains b (net_network a).

Record LpmTable := mkLpmTable { lpm_map : Trie }.

Definition lpm_new : LpmTable := mkLpmTable trie_empty.
Definition lpm_insert (t : LpmTable) (net : IpNet) (node : Z) : LpmTable := mkLpmTable (trie_insert (lpm_map t) (net_trunc net) node).
Definition lpm_remove (t : LpmTable) (net : IpNet) : LpmTable := mkLpmTable (trie_remove (lpm_map t) (net_trunc net)).
Definition lpm_lookup (t : LpmTable) (ip : IpAddr) : option Z := snd <$> trie_get_lpm (lpm_map t) (host_net ip).
Definition lpm_len (t : LpmTable) : nat := length (trie_iter (lpm_map t)).
Definition lpm_is_empty (t : LpmTable) : bool := match trie_iter (lpm_map t) with [] => true | _ => false end.
Definition lpm_iter (t : LpmTable) : list (IpNet * Z) := trie_iter (lpm_map t).
End lpm.

(** ** What the table answers *)

Section lpm_laws.
Context `{O : IpNetOps, !IpNetLaws O, T : TrieOps, LT : !TrieLaws O T}.

Definition lpm_entries (t : LpmTable) : gmap IpNet Z := trie_map (lpm_map t).

(** Every prefix stored is a truncated one. *)
Definition lpm_wf (t : LpmTable) : Prop := ∀ p v, lpm_entries t !! p = Some v → wf_net p ∧ net_trunc p = p.

Lemma lpm_new_entries : lpm_entries lpm_new = ∅.
Proof. apply trie_empty_map. Qed.

Lemma lpm_insert_entries t net node : wf_net net → lpm_entries (lpm_insert t net node) = <[net_trunc net := node]> (lpm_entries t).
Proof. intros. apply trie_insert_map; [by apply trunc_wf|by apply trunc_idemp]. Qed.

Lemma lpm_remove_entries t net : wf_net net → lpm_entries (lpm_remove t net) = delete (net_trunc net) (lpm_entries t).
Proof. intros. apply trie_remove_map; [by apply trunc_wf|by apply trunc_idemp]. Qed.

Lemma elem_of_lpm_iter t p v : (p, v) ∈ lpm_iter t ↔ lpm_entries t !! p = Some v.
Proof. unfold lpm_iter, lpm_entries. by rewrite trie_iter_map, elem_of_map_to_list. Qed.

Lemma lpm_iter_NoDup t : NoDup (lpm_iter t).*1.
Proof. unfold lpm_iter. rewrite trie_iter_map. apply NoDup_fst_map_to_list. Qed.

(** Two truncated prefixes of one length that cover an address are one. *)
Lemma covering_unique p q ip :
  wf_net p → wf_net q → wf_addr ip → net_trunc p = p → net_trunc q = q →
  net_contains p ip = true → net_contains q ip = true → net_prefix_len p = net_prefix_len q → p = q.
Proof.
  intros Hp Hq Hi Tp Tq Cp Cq Hl. rewrite <- Tp, <- Tq. rewrite !net_trunc_spec by done.
  apply net_contains_spec in Cp as [Fp Bp]; [|done..]. apply net_contains_spec in Cq as [Fq Bq]; [|done..].
  destruct p as [a l|a l], q as [b k|b k], ip as [x|x]; cbn in *; try done; subst k; f_equal;
    unfold mask_low, net_width in *; cbn in *; by rewrite Bp, Bq.
Qed.

(** The answer is the owner of the one longest prefix that covers the address. *)
Lemma lpm_lookup_spec t ip v : lpm_wf t → wf_addr ip →
  lpm_lookup t ip = Some v ↔
  ∃ p, lpm_entries t !! p = Some v ∧ net_contains p ip = true ∧
    ∀ p' v', lpm_entries t !! p' = Some v' → net_contains p' ip = true → net_prefix_len p' ≤ net_prefix_len p.
Proof.
  intros Hw Hi. assert (∀ p x, lpm_entries t !! p = Some x → net_contains_net p (host_net ip) = net_contains p ip) as Hc.
  { intros p x Hp. apply contains_host_net; [|done]. by apply (Hw _ _ Hp). }
  pose proof (wf_host_net ip Hi) as Hq. unfold lpm_lookup. split.
  - intros ([p v'] & Hg & ->)%fmap_Some. destruct (trie_lpm_some _ _ _ _ Hq Hg) as (Hm & Hp & Hl).
    exists p. split; [done|]. rewrite <- (Hc p v') by done. split; [done|]. intros p' x Hp' Hcp. apply (Hl p' x); [done|]. by rewrite (Hc p' x).
  - intros (p & Hm & Hp & Hl). destruct (trie_get_lpm (lpm_map t) (host_net ip)) as [[p' v']|] eqn:Hg; cbn.
    + destruct (trie_lpm_some _ _ _ _ Hq Hg) as (Hm' & Hp' & Hl'). fold (lpm_entries t) in Hm', Hl'. rewrite (Hc p' v') in Hp' by done.
      assert (p' = p) as ->; [|congruence]. destruct (Hw _ _ Hm), (Hw _ _ Hm').
      apply (covering_unique p' p ip); try done. specialize (Hl _ _ Hm' Hp').
      assert (net_prefix_len p ≤ net_prefix_len p') by (apply (Hl' p v); [done|by rewrite (Hc p v)]). lia.
    + pose proof (trie_lpm_none _ _ Hq Hg p v Hm) as Hf. rewrite (Hc p v) in Hf by done. congruence.
Qed.

Lemma lpm_insert_wf t net node : wf_net net → lpm_wf t → lpm_wf (lpm_insert t net node).
Proof.
  intros Hn Hw p v. rewrite lpm_insert_entries by done. rewrite lookup_insert_Some. intros [[<- _]|[_ H]]; [|by eapply Hw].
  split; [by apply trunc_wf|by apply trunc_idemp].
Qed.

Lemma lpm_remove_wf t net : wf_net net → lpm_wf t → lpm_wf (lpm_remove t net).
Proof. intros Hn Hw p v. rewrite lpm_remove_entries by done. rewrite lookup_delete_Some. intros [_ H]. by eapply Hw. Qed.

Lemma lpm_new_wf : lpm_wf lpm_new.
Proof. intros p v. rewrite lpm_new_entries. by rewrite lookup_empty. Qed.
End lpm_laws.
