(* ===== verification/Peers.v ===== *)
(** * The peer table (crates/nqvpn-endpoint/src/peers.rs, [PeerTable])

    What an endpoint knows of the network: whose address is whose, which
    published prefixes it is willing to route, and the filter every decrypted
    packet passes. *)

From S2P Require Import Prelude Ordered Ipnet Text Frame Control Replay Seal Lpm.

(** ** Route policy *)

Definition is_exit_marker (net : IpNet) : bool := net_prefix_len net =? 0.

Record RoutePolicy := mkRoutePolicy { rp_allow : option (list IpNet) }.

Definition MIN_PREFIX_V4 : Z := 8.
Definition MIN_PREFIX_V6 : Z := 16.

Inductive IngressVerdict : Type :=
| Accept
| Drop (why : string).

(** [packet[a..b]] as an address. *)
Definition parse_inner_addrs (packet : list Z) : option (IpAddr * IpAddr) :=
  match packet with
  | [] => None
  | b0 :: _ =>
      let version := Z.shiftr b0 4 in
      if (version =? 4) && (20 <=? length packet)%nat
      then Some (V4 (from_be (slice 12 16 packet)), V4 (from_be (slice 16 20 packet)))
      else if (version =? 6) && (40 <=? length packet)%nat
      then Some (V6 (from_be (slice 8 24 packet)), V6 (from_be (slice 24 40 packet)))
      else None
  end.

Section peers.
Context `{O : IpNetOps, T : TrieOps, B : Base64}.

Definition policy_default : RoutePolicy := mkRoutePolicy None.
Definition allow_list (allow : list IpNet) : RoutePolicy := mkRoutePolicy (Some (net_trunc <$> allow)).

Definition refusal (p : RoutePolicy) (net : IpNet) : option string :=
  if is_exit_marker net then None else
  match rp_allow p with
  | Some allow => if negb (existsb (λ a, net_contains_net a net) allow)
                  then Some "outside the configured [routes] allow list"%string else None
  | None =>
      let min := if ip_is_ipv4 (net_addr net) then MIN_PREFIX_V4 else MIN_PREFIX_V6 in
      if net_prefix_len net <? min
      then Some "wider than /8 (IPv4) or /16 (IPv6); list it in [routes] allow to accept it"%string else None
  end.

Definition permits (p : RoutePolicy) (net : IpNet) : bool := match refusal p net with None => true | Some _ => false end.

(** ** The table *)

Record PeerTable := mkPeerTable {
  pt_peers : gmap Z PeerInfo;
  pt_lpm : LpmTable;
  pt_mine_hosts : list IpNet;
  pt_mine_nets : list IpNet;
  pt_my_node_id : Z;
  pt_policy : RoutePolicy;
}.

Definition peers_new (my_node_id : Z) : PeerTable := mkPeerTable ∅ lpm_new [] [] my_node_id policy_default.

Definition set_peers (ps : gmap Z PeerInfo) (l : LpmTable) (t : PeerTable) : PeerTable :=
  mkPeerTable ps l (pt_mine_hosts t) (pt_mine_nets t) (pt_my_node_id t) (pt_policy t).
Definition set_mine (hosts nets : list IpNet) (t : PeerTable) : PeerTable :=
  mkPeerTable (pt_peers t) (pt_lpm t) hosts nets (pt_my_node_id t) (pt_policy t).
Definition set_policy (p : RoutePolicy) (t : PeerTable) : PeerTable :=
  mkPeerTable (pt_peers t) (pt_lpm t) (pt_mine_hosts t) (pt_mine_nets t) (pt_my_node_id t) p.
Definition mine (t : PeerTable) : list IpNet := pt_mine_hosts t ++ pt_mine_nets t.

(** The prefixes of [p] that go in the table. *)
Definition routable (t : PeerTable) (p : PeerInfo) : list IpNet :=
  List.filter (λ n, negb (is_exit_marker n) && permits (pt_policy t) n) (pi_prefixes p).

(** Entries of [id] that [keep] does not list. *)
Definition stale_entries (l : LpmTable) (id : Z) (keep : IpNet → bool) : list IpNet :=
  (List.filter (λ e : IpNet * Z, (e.2 =? id) && negb (keep e.1)) (lpm_iter l)).*1.

Definition upsert (t : PeerTable) (p : PeerInfo) : PeerTable :=
  let l := if pi_node_id p =? pt_my_node_id t then pt_lpm t
           else foldl (λ l net, lpm_insert l net (pi_node_id p)) (pt_lpm t) (routable t p) in
  let stale := stale_entries l (pi_node_id p) (λ net, bool_decide (net ∈ pi_prefixes p)) in
  set_peers (<[pi_node_id p := p]> (pt_peers t)) (foldl lpm_remove l stale) t.

Definition peers_remove (t : PeerTable) (id : Z) : PeerTable :=
  match pt_peers t !! id with
  | Some _ => set_peers (delete id (pt_peers t)) (foldl lpm_remove (pt_lpm t) (stale_entries (pt_lpm t) id (λ _, false))) t
  | None => t
  end.

(** Without the log of what changed. *)
Definition replace_all (t : PeerTable) (peers : list PeerInfo) : PeerTable := foldl upsert (set_peers ∅ lpm_new t) peers.

Definition owner_of (t : PeerTable) (addr : IpAddr) : option Z := lpm_lookup (pt_lpm t) addr.

Definition set_default_exit (t : PeerTable) (net : IpNet) (node : Z) : PeerTable :=
  if node =? pt_my_node_id t then t else set_peers (pt_peers t) (lpm_insert (pt_lpm t) net node) t.

Definition is_mine_host (t : PeerTable) (addr : IpAddr) : bool := existsb (λ n, net_contains n addr) (pt_mine_hosts t).
Definition owns (t : PeerTable) (addr : IpAddr) : bool :=
  is_mine_host t addr || existsb (λ n, net_contains n addr) (pt_mine_nets t).

Definition pubkey_of (t : PeerTable) (id : Z) : option (list Z) := p ← pt_peers t !! id; decode_pubkey (pi_pubkey p).

Definition all_prefixes (t : PeerTable) : list IpNet := sort_by_key net_to_string (lpm_iter (pt_lpm t)).*1.

Definition check_ingress (t : PeerTable) (src_id : Z) (packet : list Z) : IngressVerdict :=
  match parse_inner_addrs packet with
  | None => Drop "malformed_inner"
  | Some (src, dst) =>
      match owner_of t src with
      | Some owner =>
          if owner =? src_id then (if owns t dst then Accept else Drop "inner_dst_not_mine")
          else Drop "inner_src_not_owned"
      | None => Drop "inner_src_not_owned"
      end
  end.
End peers.

(** ** The table as a map from prefixes to owners *)

Section peers_laws.
Context `{O : IpNetOps, !IpNetLaws O, T : TrieOps, LT : !TrieLaws O T, B : Base64}.

(** As the coordinator publishes prefixes. *)
Definition clean (n : IpNet) : Prop := wf_net n ∧ net_trunc n = n.

Lemma insert_all_entries l id nets net : Forall clean nets →
  lpm_entries (foldl (λ l n, lpm_insert l n id) l nets) !! net = if decide (net ∈ nets) then Some id else lpm_entries l !! net.
Proof.
  revert l. induction nets as [|n nets IH]; intros l Hc; [by rewrite decide_False by apply not_elem_of_nil|].
  inversion Hc as [|? ? [Hw Ht] Hc']; subst. cbn. rewrite IH by done. rewrite lpm_insert_entries, Ht by done.
  destruct (decide (net ∈ nets)); [by rewrite decide_True by by right|]. destruct (decide (n = net)) as [->|].
  - by rewrite lookup_insert_eq, decide_True by left.
  - rewrite lookup_insert_ne by done. rewrite decide_False; [done|]. by intros [->|]%elem_of_cons.
Qed.

Lemma remove_all_entries l nets net : Forall clean nets →
  lpm_entries (foldl lpm_remove l nets) !! net = if decide (net ∈ nets) then None else lpm_entries l !! net.
Proof.
  revert l. induction nets as [|n nets IH]; intros l Hc; [by rewrite decide_False by apply not_elem_of_nil|].
  inversion Hc as [|? ? [Hw Ht] Hc']; subst. cbn. rewrite IH by done. rewrite lpm_remove_entries, Ht by done.
  destruct (decide (net ∈ nets)); [by rewrite decide_True by by right|]. destruct (decide (n = net)) as [->|].
  - by rewrite lookup_delete_eq, decide_True by left.
  - rewrite lookup_delete_ne by done. rewrite decide_False; [done|]. by intros [->|]%elem_of_cons.
Qed.

Lemma elem_of_stale l id keep net :
  net ∈ stale_entries l id keep ↔ lpm_entries l !! net = Some id ∧ keep net = false.
Proof.
  unfold stale_entries. rewrite list_elem_of_fmap. split.
  - intros ([n o] & -> & [Hf Hin]%elem_of_filter_b). apply elem_of_lpm_iter in Hin. cbn in *.
    apply andb_true_iff in Hf as [->%Z.eqb_eq ->%negb_true_iff]. done.
  - intros [He Hk]. exists (net, id). split; [done|]. apply elem_of_filter_b. cbn. rewrite Z.eqb_refl, Hk. by rewrite elem_of_lpm_iter.
Qed.

Lemma stale_clean l id keep : lpm_wf l → Forall clean (stale_entries l id keep).
Proof. intros Hw. apply Forall_forall. intros net [He _]%elem_of_stale. by eapply Hw. Qed.

Lemma entries_wf l : (∀ n v, lpm_entries l !! n = Some v → clean n) → lpm_wf l.
Proof. done. Qed.

Definition routes (t : PeerTable) (p : PeerInfo) (net : IpNet) : Prop :=
  pi_node_id p ≠ pt_my_node_id t ∧ net ∈ routable t p.

#[export] Instance routes_dec t p net : base.Decision (routes t p net).
Proof. unfold routes. apply _. Defined.

Definition clean_peer (p : PeerInfo) : Prop := Forall clean (pi_prefixes p).

Lemma routable_clean t p : clean_peer p → Forall clean (routable t p).
Proof. intros Hc. apply Forall_forall. intros n [_ Hin]%elem_of_filter_b. by eapply Forall_forall in Hc. Qed.

(** One [upsert]: the routes of the peer, and of the others all but what the
    peer held and no longer lists. *)
Lemma upsert_entries t p net : lpm_wf (pt_lpm t) → clean_peer p →
  lpm_entries (pt_lpm (upsert t p)) !! net =
  if decide (routes t p net) then Some (pi_node_id p) else
  match lpm_entries (pt_lpm t) !! net with
  | Some o => if (o =? pi_node_id p) && negb (bool_decide (net ∈ pi_prefixes p)) then None else Some o
  | None => None
  end.
Proof.
  intros Hw Hc. unfold upsert. cbn zeta. cbn [pt_lpm set_peers].
  set (l := if pi_node_id p =? pt_my_node_id t then _ else _).
  assert (∀ n, lpm_entries l !! n = if decide (routes t p n) then Some (pi_node_id p) else lpm_entries (pt_lpm t) !! n) as Hl.
  { intros n. unfold l, routes. destruct (Z.eqb_spec (pi_node_id p) (pt_my_node_id t)).
    - rewrite decide_False by tauto. done.
    - rewrite insert_all_entries by by apply routable_clean. destruct (decide (n ∈ routable t p)); [by rewrite decide_True|by rewrite decide_False by tauto]. }
  assert (lpm_wf l) as Hwl.
  { intros n v. rewrite Hl. destruct (decide (routes t p n)) as [[_ Hr]|]; [|by apply Hw]. intros _.
    by eapply (Forall_forall clean) in Hr; [|by apply routable_clean]. }
  rewrite remove_all_entries by by apply stale_clean. rewrite Hl.
  destruct (decide (routes t p net)) as [Hr|Hr].
  - rewrite decide_False; [done|]. intros [_ Hk]%elem_of_stale. apply bool_decide_eq_false in Hk. apply Hk.
    by destruct Hr as [_ [_ ?]%elem_of_filter_b].
  - destruct (decide (net ∈ stale_entries l _ _)) as [Hs|Hs]; rewrite elem_of_stale, Hl, decide_False in Hs by done.
    + destruct Hs as [-> ->]. by rewrite Z.eqb_refl.
    + destruct (lpm_entries (pt_lpm t) !! net) as [o|]; [|done]. destruct (Z.eqb_spec o (pi_node_id p)) as [->|]; [|done].
      destruct (bool_decide _) eqn:E; [done|]. tauto.
Qed.

Lemma upsert_wf t p : lpm_wf (pt_lpm t) → clean_peer p → lpm_wf (pt_lpm (upsert t p)).
Proof.
  intros Hw Hc. apply entries_wf. intros n v. rewrite upsert_entries by done. destruct (decide (routes t p n)) as [[_ Hr]|].
  - intros _. eapply Forall_forall; [by apply (routable_clean t p)|done].
  - destruct (lpm_entries (pt_lpm t) !! n) as [o|] eqn:E; [|done]. intros _. by eapply Hw.
Qed.

(** Who is the owner of a prefix a view publishes: the last peer other than
    this node that lists it and whose listing the policy permits. *)
Definition published_owner (t : PeerTable) (ms : list PeerInfo) (net : IpNet) : option Z :=
  foldl (λ o p, if decide (routes t p net) then Some (pi_node_id p) else o) None ms.

Lemma published_owner_some t ms net id :
  published_owner t ms net = Some id → ∃ p, p ∈ ms ∧ pi_node_id p = id ∧ routes t p net.
Proof.
  unfold published_owner. induction ms as [|p ms IH] using rev_ind; [done|]. rewrite foldl_snoc.
  destruct (decide (routes t p net)) as [Hr|].
  - intros [= <-]. exists p. split; [|done]. apply elem_of_app. right. by apply list_elem_of_singleton.
  - intros (q & ? & ?)%IH. exists q. rewrite elem_of_app. tauto.
Qed.

Lemma replace_all_frame t ms :
  pt_my_node_id (replace_all t ms) = pt_my_node_id t ∧ pt_policy (replace_all t ms) = pt_policy t ∧
  pt_mine_hosts (replace_all t ms) = pt_mine_hosts t ∧ pt_mine_nets (replace_all t ms) = pt_mine_nets t.
Proof. unfold replace_all. induction ms as [|p ms IH] using rev_ind; [done|]. by rewrite foldl_snoc. Qed.

Lemma replace_all_peers t ms : NoDup (pi_node_id <$> ms) → ∀ p, p ∈ ms → pt_peers (replace_all t ms) !! pi_node_id p = Some p.
Proof.
  unfold replace_all. induction ms as [|q ms IH] using rev_ind; [by intros _ p []%not_elem_of_nil|].
  rewrite fmap_app, NoDup_app. intros (Hn & Hd & _) p. rewrite elem_of_app, list_elem_of_singleton, foldl_snoc. cbn.
  intros [Hp | ->]; [|by rewrite lookup_insert_eq]. rewrite lookup_insert_ne; [by apply IH|].
  intros He. apply (Hd (pi_node_id p)); [apply list_elem_of_fmap; eauto|]. rewrite <- He. by left.
Qed.

Lemma replace_all_entries t ms : NoDup (pi_node_id <$> ms) → Forall clean_peer ms →
  lpm_wf (pt_lpm (replace_all t ms)) ∧ ∀ net, lpm_entries (pt_lpm (replace_all t ms)) !! net = published_owner t ms net.
Proof.
  unfold replace_all, published_owner. induction ms as [|p ms IH] using rev_ind; intros Hn Hc.
  { cbn. split; [apply lpm_new_wf|]. intros net. by rewrite lpm_new_entries, lookup_empty. }
  rewrite fmap_app in Hn. apply NoDup_app in Hn as (Hn & Hd & _). apply Forall_app in Hc as [Hc Hp]. inv Hp.
  destruct (IH Hn Hc) as [Hw He]. clear IH. rewrite foldl_snoc. split; [by apply upsert_wf|]. intros net.
  rewrite foldl_snoc, upsert_entries by done. fold (replace_all t ms).
  assert (routes (replace_all t ms) p net ↔ routes t p net) as Hiff.
  { unfold routes, routable. by destruct (replace_all_frame t ms) as (-> & -> & _). }
  destruct (decide (routes (replace_all t ms) p net)) as [Hr|Hr], (decide (routes t p net)) as [Hr'|Hr']; [done|tauto..|].
  fold (replace_all t ms) in He. rewrite He. destruct (foldl _ None ms) as [o|] eqn:E; [|done].
  destruct (Z.eqb_spec o (pi_node_id p)) as [->|]; [|done]. exfalso.
  apply published_owner_some in E as (q & Hq & Hid & _). apply (Hd (pi_node_id q)); [apply list_elem_of_fmap; eauto|].
  rewrite Hid. by left.
Qed.

(** The owner of an address in a view: of the published prefixes covering it,
    the longest decides. *)
Definition view_owner (t : PeerTable) (ms : list PeerInfo) (ip : IpAddr) (id : Z) : Prop :=
  ∃ net, published_owner t ms net = Some id ∧ net_contains net ip = true ∧
    ∀ net' id', published_owner t ms net' = Some id' → net_contains net' ip = true → net_prefix_len net' ≤ net_prefix_len net.

Lemma owner_of_view t ms ip id : NoDup (pi_node_id <$> ms) → Forall clean_peer ms → wf_addr ip →
  owner_of (replace_all t ms) ip = Some id ↔ view_owner t ms ip id.
Proof.
  intros Hn Hc Hi. destruct (replace_all_entries t ms Hn Hc) as [Hw He]. unfold owner_of, view_owner.
  rewrite lpm_lookup_spec by done. by setoid_rewrite He.
Qed.
End peers_laws.

(** ** Inner addresses *)

Lemma from_be_slice_range (a b : nat) packet : Forall is_byte packet → 0 ≤ from_be (slice a b packet) < 256 ^ Z.of_nat (b - a).
Proof.
  intros Hb. assert (Forall is_byte (slice a b packet)) as Hs by by apply Forall_take, Forall_drop.
  pose proof (from_be_range _ Hs) as [H0 H1]. split; [done|]. eapply Z.lt_le_trans; [done|].
  apply Z.pow_le_mono_r; [lia|]. unfold slice. rewrite length_take. lia.
Qed.

Lemma parse_inner_wf packet src dst : Forall is_byte packet → parse_inner_addrs packet = Some (src, dst) → wf_addr src ∧ wf_addr dst.
Proof.
  intros Hb. unfold parse_inner_addrs. destruct packet as [|b0 rest]; [done|]. set (packet := b0 :: rest) in *.
  pose proof (from_be_slice_range 12 16 packet Hb). pose proof (from_be_slice_range 16 20 packet Hb).
  pose proof (from_be_slice_range 8 24 packet Hb). pose proof (from_be_slice_range 24 40 packet Hb).
  change (256 ^ Z.of_nat (16 - 12)) with (2 ^ 32) in *. change (256 ^ Z.of_nat (20 - 16)) with (2 ^ 32) in *.
  change (256 ^ Z.of_nat (24 - 8)) with (2 ^ 128) in *. change (256 ^ Z.of_nat (40 - 24)) with (2 ^ 128) in *.
  repeat case_match; intros [= <- <-]; done.
Qed.

Section ingress.
Context `{O : IpNetOps, !IpNetLaws O, T : TrieOps, LT : !TrieLaws O T, B : Base64}.

(** The ingress filter is exact. With a table built from a published view,
    a decrypted packet from a peer is accepted if and only if it is an IP packet
    whose source lies in a prefix the peer owns (the longest published one the
    route policy permits that covers it, never the internet-exit marker) and
    whose destination lies in one of this node's own addresses or LANs; so no
    member can speak for another, or use this node as a router. *)
Theorem ingress_exact t ms src_id packet :
  NoDup (pi_node_id <$> ms) → Forall clean_peer ms → Forall is_byte packet →
  check_ingress (replace_all t ms) src_id packet = Accept ↔
  ∃ src dst, parse_inner_addrs packet = Some (src, dst) ∧ view_owner t ms src src_id ∧
    ∃ n, n ∈ mine t ∧ net_contains n dst = true.
Proof.
  intros Hn Hc Hb. unfold check_ingress.
  assert (∀ dst, owns (replace_all t ms) dst = true ↔ ∃ n, n ∈ mine t ∧ net_contains n dst = true) as Hown.
  { intros dst. unfold owns, is_mine_host, mine. destruct (replace_all_frame t ms) as (_ & _ & -> & ->).
    rewrite orb_true_iff, !existsb_exists. setoid_rewrite elem_of_app. setoid_rewrite list_elem_of_In. naive_solver. }
  destruct (parse_inner_addrs packet) as [[src dst]|] eqn:Hp; [|naive_solver].
  destruct (parse_inner_wf _ _ _ Hb Hp) as [Hsrc _]. pose proof (λ id, owner_of_view t ms src id Hn Hc Hsrc) as Ho. split.
  - destruct (owner_of _ src) as [o|] eqn:E; [|done]. destruct (Z.eqb_spec o src_id) as [->|]; [|done].
    destruct (owns _ dst) eqn:Ed; [|done]. intros _. exists src, dst. split; [done|]. split; [by apply Ho|by apply Hown].
  - intros (s & d & [= <- <-] & Hv & Hd). apply Ho in Hv. rewrite Hv, Z.eqb_refl. by apply Hown in Hd as ->.
Qed.

Lemma no_exit_marker t ms net id : published_owner t ms net = Some id → is_exit_marker net = false ∧ permits (pt_policy t) net = true.
Proof.
  intros (p & _ & _ & _ & [Hf _]%elem_of_filter_b)%published_owner_some. by apply andb_true_iff in Hf as [?%negb_true_iff ?].
Qed.

Lemma default_wf v6 : wf_net (if v6 : bool then Net6 0 0 else Net4 0 0).
Proof. destruct v6; by_decide. Qed.

Lemma default_contains v6 ip : wf_addr ip →
  net_contains (if v6 : bool then Net6 0 0 else Net4 0 0) ip = negb (Bool.eqb v6 (ip_is_ipv4 ip)).
Proof.
  intros Hi. apply eq_true_iff_eq. rewrite net_contains_spec by (done || apply default_wf).
  destruct ip as [a|a], v6; unfold net_width, block, same_family; cbn in *; unfold u_range in Hi;
    rewrite ?Z.div_0_l by lia; rewrite ?Z.div_small by lia; naive_solver.
Qed.

Lemma default_clean v6 : clean (if v6 : bool then Net6 0 0 else Net4 0 0).
Proof. split; [apply default_wf|]. rewrite net_trunc_spec by apply default_wf. by destruct v6. Qed.

(** Adding a default route changes only what no entry covers. *)
Lemma lpm_default_lookup l v6 exit ip : lpm_wf l → wf_addr ip → lpm_entries l !! (if v6 : bool then Net6 0 0 else Net4 0 0) = None →
  lpm_lookup (lpm_insert l (if v6 then Net6 0 0 else Net4 0 0) exit) ip =
  match lpm_lookup l ip with
  | Some o => Some o
  | None => if Bool.eqb v6 (ip_is_ipv4 ip) then None else Some exit
  end.
Proof.
  intros Hw Hi Hno. set (d := if v6 then Net6 0 0 else Net4 0 0) in *. destruct (default_clean v6 : clean d) as [Hdw Hdt].
  pose proof (lpm_insert_wf l d exit Hdw Hw) as Hw'. pose proof (lpm_insert_entries l d exit Hdw) as He'. rewrite Hdt in He'.
  assert (net_prefix_len d = 0) as Hd0 by by destruct v6.
  assert (∀ o, lpm_lookup l ip = Some o → lpm_lookup (lpm_insert l d exit) ip = Some o) as Hkeep.
  { intros o. rewrite !lpm_lookup_spec by done. rewrite He'. intros (net & Hnet & Hcov & Hmax). destruct (Hw _ _ Hnet) as [[_ ?] _].
    exists net. rewrite lookup_insert_ne by congruence. split; [done|]. split; [done|].
    intros net' o'. rewrite lookup_insert_Some. intros [[<- _]|[_ ?]] ?; [lia|eauto]. }
  destruct (lpm_lookup l ip) as [o|] eqn:E; [by apply Hkeep|].
  assert (∀ net o, lpm_entries l !! net = Some o → net_contains net ip = false) as Hnone.
  { intros net o Hnet. apply not_true_iff_false. intros Hcov. unfold lpm_lookup in E. apply fmap_None in E.
    pose proof (trie_lpm_none _ _ (wf_host_net ip Hi) E net o Hnet) as Hf. rewrite contains_host_net in Hf; [congruence| |done].
    by apply (Hw _ _ Hnet). }
  destruct (Bool.eqb v6 (ip_is_ipv4 ip)) eqn:Ef.
  - destruct (lpm_lookup (lpm_insert l d exit) ip) as [o|] eqn:E'; [|done]. apply lpm_lookup_spec in E' as (net & Hnet & Hcov & _); [|done..].
    rewrite He', lookup_insert_Some in Hnet. destruct Hnet as [[<- _]|[_ Hnet]].
    + unfold d in Hcov. rewrite default_contains, Ef in Hcov by done. done.
    + rewrite (Hnone _ _ Hnet) in Hcov. done.
  - apply lpm_lookup_spec; [done..|]. exists d. rewrite He', lookup_insert_eq. split; [done|]. unfold d at 1. rewrite default_contains, Ef by done.
    split; [done|]. intros net' o'. rewrite lookup_insert_Some. intros [[<- _]|[_ Hnet]] Hcov; [done|]. by rewrite (Hnone _ _ Hnet) in Hcov.
Qed.

(** A published view leaves no default route in the table. *)
Lemma replace_all_no_default t ms v6 : NoDup (pi_node_id <$> ms) → Forall clean_peer ms →
  lpm_wf (pt_lpm (replace_all t ms)) ∧ lpm_entries (pt_lpm (replace_all t ms)) !! (if v6 : bool then Net6 0 0 else Net4 0 0) = None.
Proof.
  intros Hn Hc. destruct (replace_all_entries t ms Hn Hc) as [Hw He]. split; [done|]. rewrite He. apply eq_None_not_Some. intros [o Ho].
  apply no_exit_marker in Ho as [Hm _]. by destruct v6.
Qed.

(** A chosen exit takes exactly the traffic nobody owns. Pointing a
    family's default route at another node leaves the owner of every address
    some published prefix covers as it was, of either family; an address of
    that family that no prefix covers belongs to the exit, and without a chosen
    exit to nobody, whatever default routes the view publishes. *)
Theorem default_exit_exact t ms v6 exit ip :
  NoDup (pi_node_id <$> ms) → Forall clean_peer ms → wf_addr ip → exit ≠ pt_my_node_id t →
  owner_of (set_default_exit (replace_all t ms) (if v6 : bool then Net6 0 0 else Net4 0 0) exit) ip =
  match owner_of (replace_all t ms) ip with
  | Some o => Some o
  | None => if Bool.eqb v6 (ip_is_ipv4 ip) then None else Some exit
  end.
Proof.
  intros Hn Hc Hi Hex. destruct (replace_all_frame t ms) as (Hme & _), (replace_all_no_default t ms v6 Hn Hc) as [Hw Hno].
  unfold set_default_exit. rewrite Hme. apply Z.eqb_neq in Hex as ->. by apply lpm_default_lookup.
Qed.
End ingress.

(** ** A gateway and two clients *)

Module PeersExample.
#[local] Existing Instance ipnet_ref.
Definition peer (id : Z) (prefixes : list IpNet) : PeerInfo := mkPeerInfo id "n" Client prefixes "" true 0.
Definition a2 : Z := 10 * 2 ^ 24 + 2.
Definition lan : IpNet := Net4 (192 * 2 ^ 24 + 168 * 2 ^ 16) 16.
Definition view : list PeerInfo := [peer 2 [Net4 a2 32]; peer 3 [lan; Net4 0 0]].
Definition table : PeerTable := set_mine [Net4 (10 * 2 ^ 24 + 1) 32] [] (peers_new 1).
Definition packet (src dst : list Z) : list Z := [69; 0; 0; 20; 0; 0; 0; 0; 64; 6; 0; 0] ++ src ++ dst.

Lemma clean_view : Forall clean_peer view.
Proof. repeat constructor; by_decide. Qed.
Lemma ids : NoDup (pi_node_id <$> view).
Proof. by_decide. Qed.

(** A listed prefix that is not truncated is inserted truncated, and taken for
    stale at once because the list holds it untruncated. *)
Lemma untruncated_unrouted :
  owner_of (upsert (peers_new 1) (peer 5 [Net4 (10 * 2 ^ 24 + 5) 24])) (V4 (10 * 2 ^ 24 + 5)) = None.
Proof. vm_compute. reflexivity. Qed.
End PeersExample.

Lemma ingress_exact_witness :
  check_ingress (replace_all PeersExample.table PeersExample.view) 3 (PeersExample.packet [192; 168; 4; 4] [10; 0; 0; 1]) = Accept ∧
  check_ingress (replace_all PeersExample.table PeersExample.view) 3 (PeersExample.packet [10; 0; 0; 2] [10; 0; 0; 1]) ≠ Accept.
Proof.
  pose proof (λ p, ingress_exact PeersExample.table PeersExample.view 3 p PeersExample.ids PeersExample.clean_view) as H.
  split.
  - apply H; [by_decide|]. exists (V4 (192 * 2 ^ 24 + 168 * 2 ^ 16 + 4 * 256 + 4)), (V4 (10 * 2 ^ 24 + 1)). split; [vm_compute; reflexivity|].
    split; [|exists (Net4 (10 * 2 ^ 24 + 1) 32); split; [left|vm_compute; reflexivity]].
    apply (owner_of_view _ _ _ _ PeersExample.ids PeersExample.clean_view); [by_decide|vm_compute; reflexivity].
  - vm_compute. discriminate.
Defined.

Lemma default_exit_exact_witness :
  owner_of (set_default_exit (replace_all PeersExample.table PeersExample.view) (Net4 0 0) 3) (V4 134744072) = Some 3 ∧
  owner_of (replace_all PeersExample.table PeersExample.view) (V4 134744072) = None.
Proof.
  split; [|vm_compute; reflexivity].
  rewrite (default_exit_exact PeersExample.table PeersExample.view false 3 (V4 134744072) PeersExample.ids PeersExample.clean_view);
    [vm_compute; reflexivity|by_decide|by_decide].
Defined.
