(* ===== verification/Sessions.v ===== *)
(** * Sessions of an endpoint (crates/nqvpn-endpoint/src/peers.rs, [SessionTable])

    Per peer: the session it sends on, the one being negotiated or awaiting the
    peer's first frame, and the one just retired; the packets waiting for a
    handshake; and the newest handshake timestamp accepted. *)

From S2P Require Import Prelude Ordered Ipnet Text Frame Control Replay Seal.

Definition PENDING_LIMIT : nat := 64.
Definition KEEPALIVE_SECS : Z := 5.
Definition UNANSWERED_REKEY_SECS : Z := 10.

(** [ts <= last], the derived order. *)
Definition tai_leb (a b : Tai64n) : bool :=
  (ts_secs a <? ts_secs b) || ((ts_secs a =? ts_secs b) && (ts_nanos a <=? ts_nanos b)).

Section sessions.
Context `{N : NoiseLib}.

(** ** One peer *)

Record PeerSessions := mkPeerSessions {
  pss_current : option PairSession;
  pss_next : option PairSession;
  pss_previous : option (PairSession * Z);
  pss_awaiting_since : option Z;
  pss_last_sent : Z;
}.

Definition pss_default : PeerSessions := mkPeerSessions None None None None 0.

Definition set_current (c : option PairSession) (p : PeerSessions) : PeerSessions :=
  mkPeerSessions c (pss_next p) (pss_previous p) (pss_awaiting_since p) (pss_last_sent p).
Definition set_next (n : option PairSession) (p : PeerSessions) : PeerSessions :=
  mkPeerSessions (pss_current p) n (pss_previous p) (pss_awaiting_since p) (pss_last_sent p).
Definition set_previous (v : option (PairSession * Z)) (p : PeerSessions) : PeerSessions :=
  mkPeerSessions (pss_current p) (pss_next p) v (pss_awaiting_since p) (pss_last_sent p).
Definition set_awaiting (a : option Z) (p : PeerSessions) : PeerSessions :=
  mkPeerSessions (pss_current p) (pss_next p) (pss_previous p) a (pss_last_sent p).

Definition pss_is_empty (p : PeerSessions) : bool :=
  is_none (pss_current p) && is_none (pss_next p) && is_none (pss_previous p).

(** [Option::filter(|s| s.is_ready())] *)
Definition ready (o : option PairSession) : option PairSession := s ← o; if is_ready s then Some s else None.
Definition ready_b (o : option PairSession) : bool := match o with Some s => is_ready s | None => false end.

Definition pss_promote (now : Z) (p : PeerSessions) : PeerSessions :=
  match pss_next p with
  | None => p
  | Some new =>
      let previous := match ready (pss_current p) with Some old => Some (old, now) | None => pss_previous p end in
      mkPeerSessions (Some new) None previous None (pss_last_sent p)
  end.

(** ** The table *)

Record SessionTable := mkSessionTable {
  st_sessions : gmap Z PeerSessions;
  st_pending : gmap Z (list (list Z));
  st_last_handshake_ts : gmap (Z * list Z) Tai64n;
}.

Definition sessions_default : SessionTable := mkSessionTable ∅ ∅ ∅.

Definition set_sessions (m : gmap Z PeerSessions) (t : SessionTable) : SessionTable :=
  mkSessionTable m (st_pending t) (st_last_handshake_ts t).
Definition set_pending (m : gmap Z (list (list Z))) (t : SessionTable) : SessionTable :=
  mkSessionTable (st_sessions t) m (st_last_handshake_ts t).
Definition set_watermarks (m : gmap (Z * list Z) Tai64n) (t : SessionTable) : SessionTable :=
  mkSessionTable (st_sessions t) (st_pending t) m.

(** [self.sessions.entry(peer).or_default()] and what is done to it. *)
Definition on_entry (t : SessionTable) (peer : Z) (f : PeerSessions → PeerSessions) : SessionTable :=
  set_sessions (<[peer := f (default pss_default (st_sessions t !! peer))]> (st_sessions t)) t.
(** [if let Some(p) = self.sessions.get_mut(&peer)]. *)
Definition on_peer (t : SessionTable) (peer : Z) (f : PeerSessions → PeerSessions) : SessionTable :=
  set_sessions (alter f peer (st_sessions t)) t.

(** [get_mut(peer)], and a method of the session it gives. *)
Definition current_of (t : SessionTable) (peer : Z) : option PairSession := p ← st_sessions t !! peer; pss_current p.
Definition on_current {A} (t : SessionTable) (peer : Z) (f : PairSession → PairSession * A) : SessionTable * option A :=
  match current_of t peer with
  | Some s => let '(s, a) := f s in (on_peer t peer (set_current (Some s)), Some a)
  | None => (t, None)
  end.

Definition st_insert (t : SessionTable) (peer : Z) (s : PairSession) : SessionTable := on_entry t peer (set_current (Some s)).
Definition st_remove (t : SessionTable) (peer : Z) : SessionTable :=
  mkSessionTable (delete peer (st_sessions t)) (delete peer (st_pending t)) (st_last_handshake_ts t).

Definition st_is_ready (t : SessionTable) (peer : Z) : bool := ready_b (current_of t peer).
Definition st_has (t : SessionTable) (peer : Z) : bool :=
  match st_sessions t !! peer with
  | Some p => negb (is_none (pss_current p)) || negb (is_none (pss_next p))
  | None => false
  end.

(** [next_in_flight]: [n.initiator && !n.is_ready()]. *)
Definition next_in_flight (t : SessionTable) (peer : Z) : option PairSession :=
  p ← st_sessions t !! peer; s ← pss_next p; if ps_initiator s && negb (is_ready s) then Some s else None.

Definition drop_next (t : SessionTable) (peer : Z) : SessionTable := on_peer t peer (set_next None).
Definition st_promote (t : SessionTable) (peer now : Z) : SessionTable := on_peer t peer (pss_promote now).

Definition install_responder (t : SessionTable) (peer : Z) (s : PairSession) : SessionTable * bool :=
  let keeps := ready_b (current_of t peer) in
  (on_entry t peer (λ p, let p := set_awaiting None p in
                         if ready_b (pss_current p) then set_next (Some s) p else set_current (Some s) p), negb keeps).

Definition rekey_due (t : SessionTable) (peer now : Z) : bool :=
  match st_sessions t !! peer with
  | None => false
  | Some p =>
      match ready (pss_current p) with
      | None => false
      | Some c =>
          if negb (is_none (pss_next p)) then false else
          if match pss_awaiting_since p with Some a => UNANSWERED_REKEY_SECS <=? now ⊖ a | None => false end then true else
          needs_rekey c (if ps_initiator c then now else now ⊖ RESPONDER_REKEY_DELAY_SECS)
      end
  end.

Definition note_sent (t : SessionTable) (peer now : Z) : SessionTable :=
  on_peer t peer (λ p, mkPeerSessions (pss_current p) (pss_next p) (pss_previous p)
                         (Some (default now (pss_awaiting_since p))) now).

Definition keepalive_due (t : SessionTable) (peer now : Z) : bool :=
  st_is_ready t peer &&
  match st_sessions t !! peer with Some p => KEEPALIVE_SECS <=? now ⊖ pss_last_sent p | None => false end.

Definition initiate_rekey (t : SessionTable) (keys : StaticKeys) (peer : Z) (peer_pubkey : list Z) (network_uuid : string)
    (me now : Z) (ts : Tai64n) : SessionTable * Result (list Z) SealError :=
  match initiate_at keys peer peer_pubkey network_uuid me now ts with
  | Err e => (t, Err e)
  | Ok (s, msg) => (on_entry t peer (set_next (Some s)), Ok msg)
  end.

Definition st_initiate_at (t : SessionTable) (keys : StaticKeys) (peer : Z) (peer_pubkey : list Z) (network_uuid : string)
    (me now : Z) (ts : Tai64n) : SessionTable * Result (list Z) SealError :=
  match initiate_at keys peer peer_pubkey network_uuid me now ts with
  | Err e => (t, Err e)
  | Ok (s, msg) => (on_entry t peer (λ p, set_awaiting None (set_next None (set_current (Some s) p))), Ok msg)
  end.

(** ** Receiving *)

(** The three attempts of [unseal_any], each on a session and a continuation
    that stores it back. *)
Definition is_replay (e : SealError) : bool := match e with ReplayErr _ => true | _ => false end.

Definition first_error (errs : list SealError) : SealError :=
  match List.find is_replay errs with
  | Some e => e
  | None => match errs with e :: _ => e | [] => NoSession 0 end
  end.

Definition try_previous (p : PeerSessions) (ctr : Z) (ct : list Z) (now : Z) (errs : list SealError)
    : PeerSessions * Result (list Z) SealError :=
  match pss_previous p with
  | Some (s, retired) =>
      if now ⊖ retired <? PREVIOUS_GRACE_SECS then
        match unseal s ctr ct with
        | (s, Ok v) => (set_previous (Some (s, retired)) p, Ok v)
        | (s, Err e) => (set_previous (Some (s, retired)) p, Err (first_error (errs ++ [e])))
        end
      else (p, Err (first_error errs))
  | None => (p, Err (first_error errs))
  end.

Definition try_next (p : PeerSessions) (ctr : Z) (ct : list Z) (now : Z) (errs : list SealError)
    : PeerSessions * Result (list Z) SealError :=
  match ready (pss_next p) with
  | Some s =>
      match unseal s ctr ct with
      | (s, Ok v) => (pss_promote now (set_next (Some s) p), Ok v)
      | (s, Err e) => try_previous (set_next (Some s) p) ctr ct now (errs ++ [e])
      end
  | None => try_previous p ctr ct now errs
  end.

Definition unseal_any (p : PeerSessions) (ctr : Z) (ct : list Z) (now : Z) : PeerSessions * Result (list Z) SealError :=
  match ready (pss_current p) with
  | Some s =>
      match unseal s ctr ct with
      | (s, Ok v) => (set_current (Some s) p, Ok v)
      | (s, Err e) => try_next (set_current (Some s) p) ctr ct now [e]
      end
  | None => try_next p ctr ct now []
  end.

Definition st_unseal (t : SessionTable) (peer ctr : Z) (ct : list Z) (now : Z) : SessionTable * Result (list Z) SealError :=
  match st_sessions t !! peer with
  | None => (t, Err (NoSession peer))
  | Some p =>
      let '(p, r) := unseal_any p ctr ct now in
      let p := if is_ok r then set_awaiting None p else p in
      (set_sessions (<[peer := p]> (st_sessions t)) t,
       match r with Err (NoSession _) => Err (NoSession peer) | r => r end)
  end.

(** ** Waiting packets *)

Definition queue (t : SessionTable) (peer : Z) (packet : list Z) : SessionTable * bool :=
  let q := default [] (st_pending t !! peer) in
  let dropped := (PENDING_LIMIT <=? length q)%nat in
  let q := if dropped then tail q else q in
  (set_pending (<[peer := q ++ [packet]]> (st_pending t)) t, negb dropped).

Definition take_pending (t : SessionTable) (peer : Z) : SessionTable * list (list Z) :=
  (set_pending (delete peer (st_pending t)) t, default [] (st_pending t !! peer)).

Definition pending_len (t : SessionTable) (peer : Z) : nat := length (default [] (st_pending t !! peer)).

(** ** Handshake timestamps *)

Definition accept_handshake_ts (t : SessionTable) (peer : Z) (static_key : list Z) (ts : Tai64n) : SessionTable * bool :=
  match st_last_handshake_ts t !! (peer, static_key) with
  | Some last => if tai_leb ts last then (t, false) else (set_watermarks (<[(peer, static_key) := ts]> (st_last_handshake_ts t)) t, true)
  | None => (set_watermarks (<[(peer, static_key) := ts]> (st_last_handshake_ts t)) t, true)
  end.

Definition forget_handshake_ts (t : SessionTable) (peer : Z) : SessionTable :=
  set_watermarks (filter (λ e : (Z * list Z) * Tai64n, e.1.1 ≠ peer) (st_last_handshake_ts t)) t.

(** ** The sweep *)

(** The sessions of one peer after the sweep, and how often it is pushed on the
    list of handshakes that timed out. *)
Definition expire_peer (now : Z) (p : PeerSessions) : PeerSessions * nat :=
  let '(p, n1) :=
    match pss_current p with
    | Some c => if is_ready c && must_expire c now then (set_current None p, 0%nat)
                else if is_stale_handshake c now then (set_current None p, 1%nat) else (p, 0%nat)
    | None => (p, 0%nat)
    end in
  let '(p, n2) :=
    match pss_next p with
    | Some n => if is_stale_handshake n now then (set_next None p, 1%nat)
                else if is_ready n && must_expire n now then (set_next None p, 0%nat) else (p, 0%nat)
    | None => (p, 0%nat)
    end in
  let p := if is_none (pss_current p) && ready_b (pss_next p) then pss_promote now p else p in
  let p := match pss_previous p with
           | Some (_, at_) => if PREVIOUS_GRACE_SECS <=? now ⊖ at_ then set_previous None p else p
           | None => p
           end in
  (p, (n1 + n2)%nat).

Definition keep_nonempty (m : gmap Z PeerSessions) : gmap Z PeerSessions :=
  filter (λ e : Z * PeerSessions, pss_is_empty e.2 = false) m.

Definition st_expire (t : SessionTable) (now : Z) : SessionTable * list Z :=
  let swept := expire_peer now <$> st_sessions t in
  let timed_out := map_to_list swept ≫= λ e : Z * (PeerSessions * nat), replicate e.2.2 e.1 in
  (set_sessions (keep_nonempty (fst <$> swept)) t, dedup_by Z.eqb (sort_by_key (λ x : Z, x) timed_out)).

(** ** Following the view *)

Definition stale_session (want : option (list Z)) (s : PairSession) : bool :=
  match want, peer_static s with Some w, Some got => negb (bool_decide (w = got)) | _, _ => true end.

Definition keep_if {A} (stale : A → bool) (o : option A) : option A := a ← o; if stale a then None else Some a.

Definition sync_peer (want : option (list Z)) (p : PeerSessions) : PeerSessions :=
  mkPeerSessions (keep_if (stale_session want) (pss_current p)) (keep_if (stale_session want) (pss_next p))
    (keep_if (λ e : PairSession * Z, stale_session want e.1) (pss_previous p)) (pss_awaiting_since p) (pss_last_sent p).

(** [before != after], which sessions are held. *)
Definition held_shape (p : PeerSessions) : bool * bool * bool :=
  (is_none (pss_current p), is_none (pss_next p), is_none (pss_previous p)).

Definition sync_view (t : SessionTable) (published : gmap Z (option (list Z))) : SessionTable * list Z :=
  let want := λ id, k ← published !! id; k in
  let after := map_imap (λ id p, Some (sync_peer (want id) p)) (st_sessions t) in
  let dropped := (map_to_list (map_imap (λ id p, if bool_decide (held_shape p = held_shape (sync_peer (want id) p)) then None else Some tt)
                                 (st_sessions t))).*1 in
  let sessions := keep_nonempty after in
  (mkSessionTable sessions
     (filter (λ e : Z * list (list Z), is_Some (want e.1) ∧ (is_Some (sessions !! e.1) ∨ e.1 ∉ dropped)) (st_pending t))
     (filter (λ e : (Z * list Z) * Tai64n, want e.1.1 = Some e.1.2) (st_last_handshake_ts t)),
   sort_by_key (λ x : Z, x) dropped).

Definition session_count (t : SessionTable) : nat := size (st_sessions t).
End sessions.

(** ** Invariants of every session held *)

Section held.
Context `{N : NoiseLib}.

Definition held (p : PeerSessions) (s : PairSession) : Prop :=
  pss_current p = Some s ∨ pss_next p = Some s ∨ ∃ at_, pss_previous p = Some (s, at_).

Definition all_held (P : PairSession → Prop) (p : PeerSessions) : Prop := ∀ s, held p s → P s.
Definition table_ok (P : Z → PairSession → Prop) (t : SessionTable) : Prop :=
  ∀ id p, st_sessions t !! id = Some p → all_held (P id) p.

(** A property that the operations of a session keep. *)
Record stable (P : PairSession → Prop) : Prop := {
  stable_seal s pl : P s → P (seal s pl).1;
  stable_unseal s c ct : P s → P (unseal s c ct).1;
  stable_finish s m : P s → P (finish s m).1;
}.

Lemma all_held_default P : all_held P pss_default.
Proof. intros s. unfold held. cbn. naive_solver. Qed.

Lemma all_held_current P c p : (∀ s, c = Some s → P s) → all_held P p → all_held P (set_current c p).
Proof. intros Hc Hp s [?|[?|?]]; cbn in *; [auto|apply Hp; unfold held; auto..]. Qed.

Lemma all_held_next P c p : (∀ s, c = Some s → P s) → all_held P p → all_held P (set_next c p).
Proof. intros Hc Hp s [?|[?|?]]; cbn in *; [apply Hp; unfold held; auto|auto|apply Hp; unfold held; auto]. Qed.

Lemma all_held_previous P c p : (∀ s t, c = Some (s, t) → P s) → all_held P p → all_held P (set_previous c p).
Proof. intros Hc Hp s [?|[?|[? ?]]]; cbn in *; [apply Hp; unfold held; auto..|eauto]. Qed.

Lemma all_held_awaiting P a p : all_held P p → all_held P (set_awaiting a p).
Proof. intros Hp s Hs. by apply Hp. Qed.

Lemma ready_some o s : ready o = Some s → o = Some s ∧ is_ready s = true.
Proof. unfold ready. destruct o as [x|]; [|done]. cbn. destruct (is_ready x) eqn:E; [|done]. by intros [= <-]. Qed.

Lemma all_held_promote P now p : all_held P p → all_held P (pss_promote now p).
Proof.
  intros Hp. unfold pss_promote. destruct (pss_next p) as [new|] eqn:En; [|done]. intros s [Hc|[Hn|[at_ Hv]]]; cbn in *.
  - apply Hp. unfold held. simplify_eq. auto.
  - done.
  - destruct (ready (pss_current p)) as [old|] eqn:Er; [|apply Hp; unfold held; eauto].
    apply ready_some in Er as [Er _]. apply Hp. unfold held. simplify_eq. auto.
Qed.

Lemma unseal_any_held P p c ct now : stable P → all_held P p → all_held P (unseal_any p c ct now).1.
Proof.
  intros HP. assert (∀ s, P s → P (unseal s c ct).1) as Hu by (intros; by apply HP).
  assert (∀ p errs, all_held P p → all_held P (try_previous p c ct now errs).1) as H1.
  { intros q errs Hq. unfold try_previous. destruct (pss_previous q) as [[s r]|] eqn:Ev; [|done]. destruct (_ <? _); [|done].
    assert (P (unseal s c ct).1) as Hs by (apply Hu, Hq; unfold held; eauto).
    destruct (unseal s c ct) as [s' [v|err]]; cbn [fst] in *; apply all_held_previous; try done; by intros ? ? [= <- _]. }
  assert (∀ p errs, all_held P p → all_held P (try_next p c ct now errs).1) as H2.
  { intros q errs Hq. unfold try_next. destruct (ready (pss_next q)) as [s|] eqn:En; [|by apply H1].
    apply ready_some in En as [En _]. assert (P (unseal s c ct).1) as Hs by (apply Hu, Hq; unfold held; eauto).
    destruct (unseal s c ct) as [s' [v|err]]; cbn [fst] in *; [apply all_held_promote|apply H1];
      (apply all_held_next; [by intros ? [= <-]|done]). }
  intros Hp. unfold unseal_any. destruct (ready (pss_current p)) as [s|] eqn:Ec; [|by apply H2].
  apply ready_some in Ec as [Ec _]. assert (P (unseal s c ct).1) as Hs by (apply Hu, Hp; unfold held; eauto).
  destruct (unseal s c ct) as [s' [v|err]]; cbn [fst] in *; [|apply H2]; (apply all_held_current; [by intros ? [= <-]|done]).
Qed.

(** ** What a handler may do to the table

    A working session is carried on or gives way to a proven successor,
    watermarks only grow, and a property of the sessions held is kept. *)

Lemma tai_leb_refl a : tai_leb a a = true.
Proof. unfold tai_leb. rewrite orb_true_iff, andb_true_iff, Z.ltb_lt, Z.eqb_eq, Z.leb_le. lia. Qed.

Lemma tai_leb_trans a b c : tai_leb a b = true → tai_leb b c = true → tai_leb a c = true.
Proof. unfold tai_leb. rewrite !orb_true_iff, !andb_true_iff, !Z.ltb_lt, !Z.eqb_eq, !Z.leb_le. lia. Qed.

Lemma tai_leb_total a b : tai_leb a b = false → tai_leb b a = true.
Proof. unfold tai_leb. rewrite orb_false_iff, andb_false_iff, orb_true_iff, andb_true_iff, !Z.ltb_lt, !Z.ltb_ge, !Z.eqb_eq, Z.eqb_neq, !Z.leb_le, Z.leb_gt. lia. Qed.

Definition marks_le (m m' : gmap (Z * list Z) Tai64n) : Prop :=
  ∀ key w, m !! key = Some w → ∃ w', m' !! key = Some w' ∧ tai_leb w w' = true.

#[export] Instance marks_le_preorder : PreOrder marks_le.
Proof.
  split; [intros m key w Hw; eauto using tai_leb_refl|]. intros m1 m2 m3 H1 H2 key w (w2 & H & L1)%H1.
  destruct (H2 _ _ H) as (w3 & ? & ?). eauto using tai_leb_trans.
Qed.

(** One packet through a session, sent or received. *)
Inductive traffic : PairSession → PairSession → Prop :=
| traffic_out s payload : traffic s (seal s payload).1
| traffic_in s ctr ct : traffic s (unseal s ctr ct).1.

(** The same session after any traffic. *)
Definition used : PairSession → PairSession → Prop := rtc traffic.

Lemma used_ready s s' : used s s' → is_ready s' = is_ready s.
Proof. induction 1 as [|? ? ? [] _ IH]; rewrite ?IH; auto using seal_ready, unseal_ready. Qed.

Lemma used_trans s1 s2 s3 : used s1 s2 → used s2 s3 → used s1 s3.
Proof. unfold used. apply transitivity. Qed.

Lemma used_out s payload : used s (seal s payload).1.
Proof. apply rtc_once. constructor. Qed.

Lemma used_in s ctr ct : used s (unseal s ctr ct).1.
Proof. apply rtc_once. constructor. Qed.

(** [n1] is [n] once it is proven: our own initiation on the reply that completed
    it, or a session on the first frame that opened under it. *)
Definition proven (n n1 : PairSession) : Prop :=
  (∃ msg, ps_initiator n = true ∧ is_ready n = false ∧ n1 = (finish n msg).1 ∧ is_ready n1 = true) ∨
  (∃ ctr ct pkt, is_ready n = true ∧ unseal n ctr ct = (n1, Ok pkt)).

Lemma proven_ready n n1 : proven n n1 → is_ready n1 = true.
Proof.
  intros [(msg & _ & _ & _ & ?)|(ctr & ct & pkt & Hr & Hu)]; [done|]. pose proof (unseal_ready n ctr ct) as H. rewrite Hu in H. cbn in H. congruence.
Qed.

(** The session sent on is the same, and so is the retired one. *)
Definition carried (p p' : PeerSessions) : Prop :=
  (∀ c, pss_current p = Some c → ∃ c', pss_current p' = Some c' ∧ used c c') ∧
  (∀ v at_, pss_previous p = Some (v, at_) → ∃ v', pss_previous p' = Some (v', at_) ∧ used v v').

(** The one that waited in [next] is proven and sent on; the one sent on before is retired. *)
Definition switched (p p' : PeerSessions) : Prop :=
  ∃ c n n1 c' v at_, pss_current p = Some c ∧ pss_next p = Some n ∧ proven n n1 ∧ used n1 c' ∧ pss_current p' = Some c' ∧
    pss_previous p' = Some (v, at_) ∧ used c v.

Definition carried_or_switched (p p' : PeerSessions) : Prop := carried p p' ∨ switched p p'.

#[export] Instance carried_preorder : PreOrder carried.
Proof.
  split; [intros p; split; intros; eexists; (split; [eassumption|apply rtc_refl])|].
  intros p1 p2 p3 [C1 V1] [C2 V2]. split.
  - intros c (c2 & H2 & U2)%C1. destruct (C2 _ H2) as (c3 & H3 & U3). exists c3. split; [done|by eapply used_trans].
  - intros v at_ (v2 & H2 & U2)%V1. destruct (V2 _ _ H2) as (v3 & H3 & U3). exists v3. split; [done|by eapply used_trans].
Qed.

Lemma carried_same p p' : pss_current p' = pss_current p → pss_previous p' = pss_previous p → carried p p'.
Proof. intros Hc Hv. split; intros; rewrite ?Hc, ?Hv; eexists; (split; [eassumption|apply rtc_refl]). Qed.

Lemma carried_current p s s' : pss_current p = Some s → used s s' → carried p (set_current (Some s') p).
Proof. intros Hc Hu. split; cbn; [intros c Hc'; simplify_eq; eauto|]. intros v at_ Hv. exists v. split; [done|apply rtc_refl]. Qed.

Lemma switched_carried p1 p2 p3 : carried_or_switched p1 p2 → carried p2 p3 → carried_or_switched p1 p3.
Proof.
  intros [H|(c & n & n1 & c' & v & at_ & H1 & H2 & H3 & H4 & H5 & H6 & H7)] [HC HV]; [left; etransitivity; [exact H|by split]|].
  right. destruct (HC _ H5) as (c3 & ? & ?), (HV _ _ H6) as (v3 & ? & ?). exists c, n, n1, c3, v3, at_.
  split_and!; try done; by eapply used_trans.
Qed.

Lemma carried_ready p p' : carried p p' → ready_b (pss_current p) = true → ready_b (pss_current p') = true.
Proof.
  intros [HC _]. destruct (pss_current p) as [c|]; [|done]. destruct (HC c eq_refl) as (c' & -> & Hu). cbn. by rewrite (used_ready _ _ Hu).
Qed.

Section tkeeps.
Context (P : Z → PairSession → Prop) (HP : ∀ id, stable (P id)).

(** [R] relates what a peer has before and after, where its session works. *)
Record tstep (R : PeerSessions → PeerSessions → Prop) (t t' : SessionTable) : Prop := {
  tk_marks : marks_le (st_last_handshake_ts t) (st_last_handshake_ts t');
  tk_work id p : st_sessions t !! id = Some p → ready_b (pss_current p) = true → ∃ p', st_sessions t' !! id = Some p' ∧ R p p';
  tk_ok : table_ok P t → table_ok P t';
}.

Definition tkeeps : SessionTable → SessionTable → Prop := tstep carried.
Definition tswitches : SessionTable → SessionTable → Prop := tstep carried_or_switched.

#[export] Instance tkeeps_preorder : PreOrder tkeeps.
Proof.
  split; [intros t; split; [done| |done]; intros id p Hp _; by exists p|]. intros t1 t2 t3 [M1 R1 O1] [M2 R2 O2]. split; [by etransitivity| |auto].
  intros id p Hp Hr. destruct (R1 id p Hp Hr) as (p2 & H2 & C2). destruct (R2 id p2 H2) as (p3 & H3 & C3); [by eapply carried_ready|].
  exists p3. split; [done|]. by etransitivity.
Qed.

Lemma tk_switches t t' : tkeeps t t' → tswitches t t'.
Proof. intros [M W O]. split; [done| |done]. intros id p Hp Hr. destruct (W id p Hp Hr) as (p' & ? & ?). exists p'. split; [done|by left]. Qed.

Lemma switches_then t1 t2 t3 : tswitches t1 t2 → tkeeps t2 t3 → tswitches t1 t3.
Proof.
  intros [M1 R1 O1] [M2 R2 O2]. split; [by etransitivity| |auto]. intros id p Hp Hr. destruct (R1 id p Hp Hr) as (p2 & H2 & C2).
  destruct (R2 id p2 H2) as (p3 & H3 & C3); [|exists p3; split; [done|by eapply switched_carried]].
  destruct C2 as [C2|(c & n & n1 & c' & v & at_ & _ & _ & Hn & Hu & -> & _)]; [by eapply carried_ready|]. cbn.
  rewrite (used_ready _ _ Hu). by eapply proven_ready.
Qed.

(** The same sessions. *)
Lemma tk_same t t' : st_sessions t' = st_sessions t → marks_le (st_last_handshake_ts t) (st_last_handshake_ts t') → tkeeps t t'.
Proof.
  intros Hs Hm. split; [done| |].
  - intros id p. rewrite Hs. intros. by exists p.
  - intros Ht id p. rewrite Hs. apply Ht.
Qed.

(** One step of one peer. *)
Definition pkeeps (R : PeerSessions → PeerSessions → Prop) (peer : Z) (p p' : PeerSessions) : Prop :=
  (ready_b (pss_current p) = true → R p p') ∧ (all_held (P peer) p → all_held (P peer) p').

Lemma ts_entry R t peer f : Reflexive R →
  pkeeps R peer (default pss_default (st_sessions t !! peer)) (f (default pss_default (st_sessions t !! peer))) → tstep R t (on_entry t peer f).
Proof.
  intros HR [Hr Hf]. split; [done| |].
  - intros id p Hp Hw. cbn. destruct (decide (peer = id)) as [->|Hne]; [|rewrite lookup_insert_ne by done; eauto].
    rewrite lookup_insert_eq. rewrite Hp in *. eauto.
  - intros Ht id p. cbn. rewrite lookup_insert_Some. intros [[<- <-]|[_ Hp]]; [|by apply Ht].
    apply Hf. destruct (st_sessions t !! peer) as [q|] eqn:E; cbn; [by eapply Ht|apply all_held_default].
Qed.

Lemma ts_peer R t peer f : Reflexive R → (∀ p, st_sessions t !! peer = Some p → pkeeps R peer p (f p)) → tstep R t (on_peer t peer f).
Proof.
  intros HR Hf. split; [done| |].
  - intros id p Hp Hw. cbn. destruct (decide (peer = id)) as [->|Hne]; [|rewrite lookup_alter_ne by done; eauto].
    rewrite lookup_alter_eq, Hp. cbn. eexists. split; [done|]. by apply Hf.
  - intros Ht id p. cbn. destruct (decide (peer = id)) as [->|]; [|rewrite lookup_alter_ne by done; by apply Ht].
    rewrite lookup_alter_eq. intros (q & Hq & ->)%fmap_Some. apply Hf; [done|]. by eapply Ht.
Qed.

Lemma tk_entry t peer f :
  pkeeps carried peer (default pss_default (st_sessions t !! peer)) (f (default pss_default (st_sessions t !! peer))) → tkeeps t (on_entry t peer f).
Proof. apply ts_entry. apply _. Qed.

Lemma tk_peer t peer f : (∀ p, st_sessions t !! peer = Some p → pkeeps carried peer p (f p)) → tkeeps t (on_peer t peer f).
Proof. apply ts_peer. apply _. Qed.

Lemma current_of_held t peer s : current_of t peer = Some s → ∃ p, st_sessions t !! peer = Some p ∧ pss_current p = Some s.
Proof. unfold current_of. destruct (st_sessions t !! peer) as [p|]; [|done]. cbn. eauto. Qed.

Lemma held_current p s : pss_current p = Some s → held p s.
Proof. unfold held. auto. Qed.

Lemma tk_current {A} t peer (f : PairSession → PairSession * A) :
  (∀ s, used s (f s).1 ∧ (P peer s → P peer (f s).1)) → tkeeps t (on_current t peer f).1.
Proof.
  intros Hf. unfold on_current. destruct (current_of t peer) as [s|] eqn:E; [|done].
  destruct (current_of_held _ _ _ E) as (p & Hp & Hc). destruct (Hf s) as [Hr Ho]. destruct (f s) as [s' a]. cbn in *.
  apply tk_peer. intros q Hq. simplify_eq. split; [intros _; by eapply carried_current|].
  intros Ha. apply all_held_current; [|done]. intros ? [= <-]. by apply Ho, Ha, held_current.
Qed.

Lemma tk_note_sent t peer now : tkeeps t (note_sent t peer now).
Proof. apply tk_peer. intros p _. split; [intros _; by apply carried_same|]. intros Hp s Hs. by apply Hp. Qed.

Lemma tk_take_pending t peer : tkeeps t (take_pending t peer).1.
Proof. by apply tk_same. Qed.

Lemma tk_queue t peer pkt : tkeeps t (queue t peer pkt).1.
Proof. by apply tk_same. Qed.

Lemma tk_queue_all t peer pkts : tkeeps t (foldl (λ t p, (queue t peer p).1) t pkts).
Proof. revert t. induction pkts as [|p pkts IH]; intros t; [done|]. cbn. etransitivity; [apply (tk_queue t peer p)|apply IH]. Qed.

Lemma tk_remove t peer : st_is_ready t peer = false → tkeeps t (st_remove t peer).
Proof.
  intros Hn. split; [done| |].
  - intros id p Hp Hr. destruct (decide (peer = id)) as [->|Hne]; [unfold st_is_ready, current_of in Hn; rewrite Hp in Hn; cbn in Hn; congruence|].
    cbn. rewrite lookup_delete_ne by done. by exists p.
  - intros Ht id p. cbn. rewrite lookup_delete_Some. intros [_ ?]. by apply Ht.
Qed.

Lemma tk_drop_next t peer : tkeeps t (drop_next t peer).
Proof. apply tk_peer. intros p _. split; [intros _; by apply carried_same|]. by apply all_held_next. Qed.

(** Promotion of a proven session, of [p] and what has become of its current one. *)
Lemma promote_switched p c c1 n n1 now q : pss_current p = Some c → is_ready c = true → pss_next p = Some n → proven n n1 → used c c1 →
  pss_current q = Some c1 → pss_next q = Some n1 → switched p (pss_promote now q).
Proof.
  intros Hc Hr Hn Hp Hu Hq Hqn. exists c, n, n1, n1, c1, now. unfold pss_promote. rewrite Hqn, Hq. cbn.
  by rewrite (used_ready _ _ Hu), Hr.
Qed.

Lemma tk_install t peer s : is_ready s = true → P peer s → tkeeps t (install_responder t peer s).1.
Proof.
  intros Hr Hs. apply tk_entry. set (p := default _ _). split.
  - cbn. intros ->. by apply carried_same.
  - intros Hp. cbn. destruct (ready_b _); [apply all_held_next|apply all_held_current]; (by intros ? [= <-]) || by apply all_held_awaiting.
Qed.

Lemma tk_accept t peer k ts : tkeeps t (accept_handshake_ts t peer k ts).1.
Proof.
  apply tk_same; unfold accept_handshake_ts; [by repeat case_match|].
  destruct (st_last_handshake_ts t !! (peer, k)) as [last|] eqn:E; [destruct (tai_leb ts last) eqn:El; [done|]|]; cbn; intros key w Hw;
    (destruct (decide (key = (peer, k))) as [->|]; [rewrite lookup_insert_eq|rewrite lookup_insert_ne by done; eauto using tai_leb_refl]).
  - simplify_eq. eauto using tai_leb_total.
  - congruence.
Qed.

Lemma tk_initiate_rekey t keys peer pk uuid me now ts :
  (∀ s m, initiate_at keys peer pk uuid me now ts = Ok (s, m) → P peer s) → tkeeps t (initiate_rekey t keys peer pk uuid me now ts).1.
Proof.
  intros Hs. unfold initiate_rekey. destruct (initiate_at _ _ _ _ _ _ _) as [[s m]|]; [|done]. apply tk_entry. split; [intros _; by apply carried_same|].
  intros Hp. apply all_held_next; [|done]. intros ? [= <-]. by eapply Hs.
Qed.

Lemma tk_initiate t keys peer pk uuid me now ts : st_is_ready t peer = false →
  (∀ s m, initiate_at keys peer pk uuid me now ts = Ok (s, m) → P peer s) → tkeeps t (st_initiate_at t keys peer pk uuid me now ts).1.
Proof.
  intros Hn Hs. unfold st_initiate_at. destruct (initiate_at _ _ _ _ _ _ _) as [[s m]|]; [|done]. apply tk_entry. split.
  - unfold st_is_ready, current_of in Hn. destruct (st_sessions t !! peer); cbn in *; [by rewrite Hn|done].
  - intros Hp. apply all_held_awaiting, all_held_next; [done|]. apply all_held_current; [|done]. intros ? [= <-]. by eapply Hs.
Qed.

Lemma try_previous_carried p c ct now errs : carried p (try_previous p c ct now errs).1.
Proof.
  unfold try_previous. destruct (pss_previous p) as [[s r]|] eqn:Ev; [|done]. destruct (_ <? _); [|done].
  pose proof (used_in s c ct) as Hu. destruct (unseal s c ct) as [s' [v|err]]; cbn [fst] in *; (split; cbn;
    [intros c' Hc; exists c'; split; [done|apply rtc_refl]|intros w at_ Hw; rewrite Ev in Hw; simplify_eq; eauto]).
Qed.

Lemma unseal_any_keeps peer p c ct now : pkeeps carried_or_switched peer p (unseal_any p c ct now).1.
Proof.
  split; [|by apply unseal_any_held]. intros Hr. unfold unseal_any. destruct (pss_current p) as [s|] eqn:Ec; [|done]. cbn in Hr |- *.
  rewrite Hr. pose proof (used_in s c ct) as Hu. destruct (unseal s c ct) as [s' [v|err]]; cbn [fst] in *; [left; by eapply carried_current|].
  unfold try_next. cbn [pss_next set_current]. destruct (ready (pss_next p)) as [n|] eqn:En;
    [|left; etransitivity; [by eapply carried_current|apply try_previous_carried]].
  apply ready_some in En as [En Hn]. destruct (unseal n c ct) as [n' [v|err']] eqn:Eu; cbn [fst].
  - right. eapply (promote_switched p s s' n n'); try done. right. eauto 10.
  - left. etransitivity; [by eapply carried_current|]. etransitivity; [|apply try_previous_carried]. by apply carried_same.
Qed.

Lemma tk_unseal t peer c ct now : tswitches t (st_unseal t peer c ct now).1.
Proof.
  unfold st_unseal. destruct (st_sessions t !! peer) as [p|] eqn:E; [|by apply tk_switches]. destruct (unseal_any_keeps peer p c ct now) as [Hr Hh].
  destruct (unseal_any p c ct now) as [p' r]. cbn [fst] in *. set (p2 := if is_ok r then set_awaiting None p' else p').
  assert (pkeeps carried_or_switched peer p p2) as Hk by (split; unfold p2; destruct (is_ok r); auto using all_held_awaiting).
  change (tswitches t (set_sessions (<[peer := (λ _, p2) (default pss_default (st_sessions t !! peer))]> (st_sessions t)) t)).
  apply (ts_entry carried_or_switched t peer (λ _, p2)); [intros q; by left|]. by rewrite E.
Qed.
End tkeeps.

Lemma expire_peer_held Q now p : all_held Q p → all_held Q (expire_peer now p).1.
Proof.
  intros Hp. unfold expire_peer. destruct (match pss_current p with Some _ => _ | None => _ end) as [p1 n1] eqn:E1.
  assert (all_held Q p1) as H1 by (repeat case_match; simplify_eq; try done; by apply all_held_current).
  destruct (match pss_next p1 with Some _ => _ | None => _ end) as [p2 n2] eqn:E2.
  assert (all_held Q p2) as H2 by (repeat case_match; simplify_eq; try done; by apply all_held_next).
  cbn. set (p3 := if _ && _ then _ else _). assert (all_held Q p3) as H3 by (unfold p3; destruct (_ && _); [by apply all_held_promote|done]).
  clearbody p3. destruct (pss_previous p3) as [[s at_]|] eqn:E3; [|done]. destruct (_ <=? _); [by apply all_held_previous|done].
Qed.

Lemma st_expire_ok P t now : table_ok P t → table_ok P (st_expire t now).1.
Proof.
  intros Ht id p. cbn. unfold keep_nonempty. rewrite map_lookup_filter_Some, !lookup_fmap.
  intros [Hp _]. destruct (st_sessions t !! id) as [q|] eqn:E; cbn in Hp; [|done]. injection Hp as <-. apply expire_peer_held. by apply Ht.
Qed.
End held.

Section sync.
Context `{N : NoiseLib}.

(** Whatever was held, after [sync_view] every session is one of the keys
    published. *)
Lemma sync_view_ok t published :
  table_ok (λ id s, ok_session (k ← published !! id; k) s ∧ is_Some (k ← published !! id; k)) (sync_view t published).1.
Proof.
  intros id p. cbn. unfold keep_nonempty. rewrite map_lookup_filter_Some, map_lookup_imap.
  intros [Hp _]. destruct (st_sessions t !! id) as [q|]; cbn in Hp; [|done]. injection Hp as <-.
  set (want := k ← published !! id; k).
  assert (∀ s, stale_session want s = false → ok_session want s ∧ is_Some want) as Hs.
  { intros s. unfold stale_session, ok_session. destruct want as [w|], (peer_static s) as [g|]; try done.
    intros [= ->%negb_false_iff%bool_decide_eq_true]. eauto. }
  unfold keep_if. intros s [Hc|[Hc|[at_ Hc]]]; cbn in Hc; apply bind_Some in Hc as (x & _ & Hx).
  - destruct (stale_session want x) eqn:E; simplify_eq. auto.
  - destruct (stale_session want x) eqn:E; simplify_eq. auto.
  - destruct (stale_session want x.1) eqn:E; simplify_eq. auto.
Qed.
End sync.

(** ** The queue of waiting packets *)

Section pending.
Context `{N : NoiseLib}.

Definition waiting (t : SessionTable) (peer : Z) : list (list Z) := default [] (st_pending t !! peer).

Definition queue_all (t : SessionTable) (peer : Z) (pkts : list (list Z)) : SessionTable := foldl (λ t p, (queue t peer p).1) t pkts.

Lemma queue_waiting t peer pkt : waiting (queue t peer pkt).1 peer =
  (if (PENDING_LIMIT <=? length (waiting t peer))%nat then tail (waiting t peer) else waiting t peer) ++ [pkt].
Proof. unfold waiting, queue. cbn. by rewrite lookup_insert_eq. Qed.

Lemma queue_other t peer pkt id : id ≠ peer → waiting (queue t peer pkt).1 id = waiting t id.
Proof. intros Hne. unfold waiting, queue. cbn. by rewrite lookup_insert_ne. Qed.

(** The packets waiting for a handshake. Queueing packets for a peer, from a
    queue within its limit, leaves exactly the last 64 of what waited and what
    came, in order; the queue of every other peer is untouched, and nothing of
    the sessions and watermarks changes. *)
Theorem queue_keeps_last t peer pkts :
  (length (waiting t peer) ≤ PENDING_LIMIT)%nat →
  let all := waiting t peer ++ pkts in
  waiting (queue_all t peer pkts) peer = drop (length all - PENDING_LIMIT) all ∧
  (∀ id, id ≠ peer → waiting (queue_all t peer pkts) id = waiting t id) ∧
  st_sessions (queue_all t peer pkts) = st_sessions t ∧ st_last_handshake_ts (queue_all t peer pkts) = st_last_handshake_ts t.
Proof.
  revert t. induction pkts as [|p pkts IH]; intros t Hl; cbn zeta.
  { rewrite app_nil_r. split; [|done]. by rewrite (proj2 (Nat.sub_0_le _ _)). }
  pose proof (queue_waiting t peer p) as Hq. destruct (IH (queue t peer p).1) as (E1 & E2 & E3 & E4).
  { rewrite Hq, length_app. destruct (Nat.leb_spec PENDING_LIMIT (length (waiting t peer))); unfold PENDING_LIMIT in *;
      [destruct (waiting t peer)|]; cbn in *; lia. }
  change (queue_all t peer (p :: pkts)) with (queue_all (queue t peer p).1 peer pkts). rewrite E1, E3, E4, Hq. split; [|split; [|done]].
  - destruct (Nat.leb_spec PENDING_LIMIT (length (waiting t peer))).
    + destruct (waiting t peer) as [|x q]; [cbn in *; unfold PENDING_LIMIT in *; lia|]. cbn [tail]. rewrite <- (assoc_L (++)). cbn [app].
      assert (length (x :: q ++ p :: pkts) - PENDING_LIMIT = S (length (q ++ p :: pkts) - PENDING_LIMIT))%nat as ->; [|done].
      cbn [length]. rewrite !length_app. unfold PENDING_LIMIT in *. cbn [length] in *. lia.
    + by rewrite <- (assoc_L (++)).
  - intros id Hne. rewrite E2 by done. by apply queue_other.
Qed.
End pending.

Lemma queue_keeps_last_witness :
  waiting (queue_all (N := NoiseExample.noise) sessions_default 2 ((λ i, [Z.of_nat i]) <$> seq 0 66)) 2 = (λ i, [Z.of_nat i]) <$> seq 2 64.
Proof.
  destruct (queue_keeps_last (N := NoiseExample.noise) sessions_default 2 ((λ i, [Z.of_nat i]) <$> seq 0 66)) as [-> _];
    [by_decide|vm_compute; reflexivity].
Defined.
