(* ===== verification/Engine.v ===== *)
(** * The endpoint data plane (crates/nqvpn-endpoint/src/engine.rs)

    Packets from the TUN are routed, sealed and sent; frames from the uplink are
    opened, filtered and written to the TUN; handshakes, rekeys and keepalives
    run on the same two paths. What a handler hands to the uplink or the TUN is
    a list of [Out]s. The pieces that run under one lock are definitions of
    their own, so that other threads can be placed between them. *)

From S2P Require Import Prelude Ordered Ipnet Text Frame Control Replay Seal Flow Lpm Peers Sessions.

Inductive CounterName : Set :=
| Ksent | Kreceived | Khandshakes_started | Khandshakes_completed | Khandshakes_yielded
| Kdrop_no_route | Kdrop_no_session | Kdrop_queue_full | Kdrop_seal_failed | Kdrop_replay
| Kdrop_ingress | Kdrop_oversize | Kdrop_key_mismatch | Kdrop_stale_handshake | Kdrop_malformed
| Khandshake_timeouts | Krekeys_completed | Ksessions_dropped_by_view | Klooped_back | Ktrace_notes.

#[export] Instance CounterName_eq_dec : EqDecision CounterName.
Proof. solve_decision. Defined.

Definition TRACE_NOTES_KEPT : nat := 256.
Definition LANE_DEFAULT : Z := 0.

Record Trace := mkTrace { tr_target : option IpAddr; tr_notes : list TraceNote }.

(** What leaves the engine. *)
Inductive Out : Type :=
| OutUp (frame : list Z) (lane : Z)
| OutTun (packet : list Z).

#[export] Instance Out_eq_dec : EqDecision Out.
Proof. solve_decision. Defined.

Section engine.
Context `{O : IpNetOps, T : TrieOps, B : Base64, N : NoiseLib}.

Record Engine := mkEngine {
  en_my_node_id : Z;
  en_network_uuid : string;
  en_keys : StaticKeys;
  en_peers : PeerTable;
  en_sessions : SessionTable;
  en_counters : CounterName → Z;
  en_mtu : Z;
  en_lanes : Z;
  en_trace : Trace;
  en_last_ts : Tai64n;
}.

Definition engine_new (my_node_id : Z) (network_uuid : string) (keys : StaticKeys) (peers : PeerTable) (mtu lanes : Z) : Engine :=
  mkEngine my_node_id network_uuid keys peers sessions_default (λ _, 0) mtu lanes (mkTrace None []) (mkTai64n 0 0).

Definition en_set_peers (p : PeerTable) (e : Engine) : Engine :=
  mkEngine (en_my_node_id e) (en_network_uuid e) (en_keys e) p (en_sessions e) (en_counters e) (en_mtu e) (en_lanes e) (en_trace e) (en_last_ts e).
Definition en_set_sessions (s : SessionTable) (e : Engine) : Engine :=
  mkEngine (en_my_node_id e) (en_network_uuid e) (en_keys e) (en_peers e) s (en_counters e) (en_mtu e) (en_lanes e) (en_trace e) (en_last_ts e).
(** [fetch_add(k)] *)
Definition count_n (c : CounterName) (k : Z) (e : Engine) : Engine :=
  mkEngine (en_my_node_id e) (en_network_uuid e) (en_keys e) (en_peers e) (en_sessions e)
    (λ x, if decide (x = c) then en_counters e x ⊕ k else en_counters e x) (en_mtu e) (en_lanes e) (en_trace e) (en_last_ts e).
Definition count (c : CounterName) (e : Engine) : Engine := count_n c 1 e.
Definition set_mtu (mtu : Z) (e : Engine) : Engine :=
  mkEngine (en_my_node_id e) (en_network_uuid e) (en_keys e) (en_peers e) (en_sessions e) (en_counters e) mtu (en_lanes e) (en_trace e) (en_last_ts e).
Definition en_set_trace (t : Trace) (e : Engine) : Engine :=
  mkEngine (en_my_node_id e) (en_network_uuid e) (en_keys e) (en_peers e) (en_sessions e) (en_counters e) (en_mtu e) (en_lanes e) t (en_last_ts e).
Definition en_set_last_ts (t : Tai64n) (e : Engine) : Engine :=
  mkEngine (en_my_node_id e) (en_network_uuid e) (en_keys e) (en_peers e) (en_sessions e) (en_counters e) (en_mtu e) (en_lanes e) (en_trace e) t.

(** [clock] is what [Tai64n::now] reads. *)
Definition next_ts (e : Engine) (clock : Tai64n) : Engine * Tai64n :=
  let ts := if tai_leb clock (en_last_ts e) then tai_succ (en_last_ts e) else clock in
  (en_set_last_ts ts e, ts).

(** ** The view *)

(** Under the peers' lock: the members whose watermark is to be forgotten, the
    keys published, and the table replaced. *)
Definition sync_peers_view (e : Engine) (members : list PeerInfo) : Engine * list Z * gmap Z (option (list Z)) :=
  let relogged := omap (λ m, old ← pt_peers (en_peers e) !! pi_node_id m;
                             if negb (pi_login_gen old =? pi_login_gen m) || negb (String.eqb (pi_pubkey old) (pi_pubkey m))
                             then Some (pi_node_id m) else None) members in
  let published := foldl (λ acc m, <[pi_node_id m := decode_pubkey (pi_pubkey m)]> acc) ∅
                     (List.filter (λ m, negb (pi_node_id m =? en_my_node_id e)) members) in
  (en_set_peers (replace_all (en_peers e) members) e, relogged, published).

(** Then under the sessions' lock. *)
Definition sync_peers_sessions (e : Engine) (relogged : list Z) (published : gmap Z (option (list Z))) : Engine :=
  let s := foldl forget_handshake_ts (en_sessions e) relogged in
  let '(s, dropped) := sync_view s published in
  count_n Ksessions_dropped_by_view (Z.of_nat (length dropped)) (en_set_sessions s e).

Definition sync_peers (e : Engine) (members : list PeerInfo) : Engine :=
  let '(e, relogged, published) := sync_peers_view e members in sync_peers_sessions e relogged published.

(** ** Tracing and frames *)

Definition set_trace (target : option IpAddr) (e : Engine) : Engine := en_set_trace (mkTrace target []) e.

Definition take_trace_notes (e : Engine) : Engine * list TraceNote :=
  (en_set_trace (mkTrace (tr_target (en_trace e)) []) e, tr_notes (en_trace e)).

Definition build_frame (e : Engine) (kind dst : Z) (body : list Z) (ctr : option Z) (packet : list Z) : list Z :=
  let traced := match tr_target (en_trace e), parse_inner_addrs packet with
                | Some target, Some (_, d) => bool_decide (d = target)
                | _, _ => false
                end in
  let h := mkRoutedHeader kind (en_my_node_id e) dst (if traced then Z.lor 0 FLAG_TRACE else 0) 0 (trace_id packet) in
  header_write h [] ++ match ctr with Some c => to_be 8 c | None => [] end ++ body.

(** ** Outbound *)

(** [up] is the answer of [Uplink::send]. *)
Definition send_counted (up : list Z → Z → bool) (e : Engine) (f : list Z) (lane : Z) : Engine * list Out :=
  ((if up f lane then count Ksent e else e), [OutUp f lane]).

Definition start_rekey (e : Engine) (peer now : Z) (clock : Tai64n) : Engine * option (list Z) :=
  match pubkey_of (en_peers e) peer with
  | None => (e, None)
  | Some pk =>
      let '(e, ts) := next_ts e clock in
      let '(s, r) := initiate_rekey (en_sessions e) (en_keys e) peer pk (en_network_uuid e) (en_my_node_id e) now ts in
      (en_set_sessions s e, match r with Ok msg => Some msg | Err _ => None end)
  end.

(** From the lock of the sessions on, for the owner found. *)
Definition outbound_send (e : Engine) (owner : Z) (packet : list Z) (up : list Z → Z → bool) (now : Z) (clock : Tai64n)
    : Engine * list Out :=
  if st_is_ready (en_sessions e) owner then
    let '(s, sealed) := on_current (en_sessions e) owner (λ s, seal s packet) in
    let e := en_set_sessions (note_sent s owner now) e in
    let '(e, rekey) := if rekey_due (en_sessions e) owner now then start_rekey e owner now clock else (e, None) in
    let '(e, o1) :=
      match sealed with
      | Some (Ok (ctr, ct)) => send_counted up e (build_frame e T_DATA owner ct (Some ctr) packet) (lane_for packet (en_lanes e))
      | _ => (count Kdrop_seal_failed e, [])
      end in
    match rekey with
    | Some msg => (count Khandshakes_started e, o1 ++ [OutUp (build_frame e T_HANDSHAKE owner msg None packet) LANE_DEFAULT])
    | None => (e, o1)
    end
  else
    let starting := negb (st_has (en_sessions e) owner) in
    let pk := if starting then pubkey_of (en_peers e) owner else None in
    if starting && is_none pk then
      (count Kdrop_no_session (en_set_sessions (take_pending (en_sessions e) owner).1 e), [])
    else
      let '(s, kept) := queue (en_sessions e) owner packet in
      let e := en_set_sessions s e in
      let e := if kept then e else count Kdrop_queue_full e in
      match pk with
      | None => (e, [])
      | Some pk =>
          let '(e, ts) := next_ts e clock in
          match st_initiate_at (en_sessions e) (en_keys e) owner pk (en_network_uuid e) (en_my_node_id e) now ts with
          | (s, Ok msg) =>
              let e := count Khandshakes_started (en_set_sessions s e) in
              (e, [OutUp (build_frame e T_HANDSHAKE owner msg None packet) LANE_DEFAULT])
          | (s, Err _) => (count Kdrop_no_session (en_set_sessions (take_pending s owner).1 e), [])
          end
      end.

Definition outbound (e : Engine) (packet : list Z) (up : list Z → Z → bool) (now : Z) (clock : Tai64n) : Engine * list Out :=
  if en_mtu e <? Z.of_nat (length packet) then (count Kdrop_oversize e, []) else
  match parse_inner_addrs packet with
  | None => (count Kdrop_malformed e, [])
  | Some (_, dst) =>
      if is_mine_host (en_peers e) dst then (count Klooped_back e, [OutTun packet]) else
      match owner_of (en_peers e) dst with
      | None => (count Kdrop_no_route e, [])
      | Some owner => outbound_send e owner packet up now clock
      end
  end.

(** ** Waiting packets *)

(** Seal in order; what fails to seal is skipped. *)
Fixpoint seal_queued (e : Engine) (peer : Z) (s : PairSession) (queued : list (list Z)) : PairSession * list (list Z * Z) :=
  match queued with
  | [] => (s, [])
  | pkt :: queued' =>
      let '(s, r) := seal s pkt in
      let '(s, fs) := seal_queued e peer s queued' in
      match r with
      | Ok (ctr, ct) => (s, (build_frame e T_DATA peer ct (Some ctr) pkt, lane_for pkt (en_lanes e)) :: fs)
      | Err _ => (s, fs)
      end
  end.

Fixpoint send_all (up : list Z → Z → bool) (e : Engine) (fs : list (list Z * Z)) : Engine * list Out :=
  match fs with
  | [] => (e, [])
  | f :: fs' => let '(e, o) := send_counted up e f.1 f.2 in let '(e, os) := send_all up e fs' in (e, o ++ os)
  end.

Definition flush_pending (e : Engine) (peer : Z) (up : list Z → Z → bool) (now : Z) : Engine * list Out :=
  if negb (st_is_ready (en_sessions e) peer) then (e, []) else
  let '(s, queued) := take_pending (en_sessions e) peer in
  let '(s, fs) := on_current s peer (λ c, seal_queued e peer c queued) in
  let fs := default [] fs in
  let s := match fs with [] => s | _ => note_sent s peer now end in
  send_all up (en_set_sessions s e) fs.

(** ** Handshakes *)

(** A keepalive: an empty payload under the session we send on. *)
Definition seal_keepalive (e : Engine) (peer : Z) : Engine * option (list Z) :=
  let '(s, r) := on_current (en_sessions e) peer (λ c, seal c []) in
  let e := en_set_sessions s e in
  (e, match r with Some (Ok (ctr, ct)) => Some (build_frame e T_DATA peer ct (Some ctr) []) | _ => None end).

(** Our rekey in flight: [None] when the message must be answered below. *)
Definition handshake_next (e : Engine) (peer : Z) (msg : list Z) (up : list Z → Z → bool) (now now' : Z)
    : Engine * option (list Out) :=
  match next_in_flight (en_sessions e) peer with
  | None => (e, None)
  | Some n =>
      let '(n, r) := finish n msg in
      let s := on_peer (en_sessions e) peer (set_next (Some n)) in
      if is_ok r && is_ready n then
        let e := count Krekeys_completed (count Khandshakes_completed (en_set_sessions (st_promote s peer now) e)) in
        let '(e, keepalive) := seal_keepalive e peer in
        let e := en_set_sessions (note_sent (en_sessions e) peer now) e in
        let '(e, os) := flush_pending e peer up now' in
        (e, Some (os ++ match keepalive with Some f => [OutUp f LANE_DEFAULT] | None => [] end))
      else if en_my_node_id e <? peer
      then (en_set_sessions (drop_next s peer) (count Khandshakes_yielded e), None)
      else (en_set_sessions s e, Some [])
  end.

(** Our first handshake in flight; with the packets a yielding side carries
    over to the answer. *)
Definition handshake_current (e : Engine) (peer : Z) (msg : list Z) (up : list Z → Z → bool) (now' : Z)
    : Engine * (list Out + list (list Z)) :=
  match current_of (en_sessions e) peer with
  | Some c =>
      if negb (is_ready c) && ps_initiator c then
        let '(c, r) := finish c msg in
        let s := on_peer (en_sessions e) peer (set_current (Some c)) in
        if is_ok r && is_ready c then
          let '(e, os) := flush_pending (count Khandshakes_completed (en_set_sessions s e)) peer up now' in (e, inl os)
        else if en_my_node_id e <? peer then
          let '(s, carried) := take_pending s peer in
          (en_set_sessions (st_remove s peer) (count Khandshakes_yielded e), inr carried)
        else (en_set_sessions s e, inl [])
      else (e, inr [])
  | None => (e, inr [])
  end.

(** The answer to a first message, under the lock: the frame to send, if the
    handshake is accepted. *)
Definition handshake_answer (e : Engine) (peer : Z) (msg : list Z) (carried : list (list Z)) (now : Z) : Engine * option (list Z) :=
  match respond (en_keys e) peer (en_network_uuid e) (en_my_node_id e) msg now with
  | Err _ => (count Kdrop_seal_failed e, None)
  | Ok (s, reply, ts) =>
      match peer_static s, pubkey_of (en_peers e) peer with
      | Some got, Some want =>
          if bool_decide (got = want) then
            let '(st, fresh) := accept_handshake_ts (en_sessions e) peer got ts in
            let e := en_set_sessions st e in
            if negb fresh then (count Kdrop_stale_handshake e, None) else
            let st := (install_responder (en_sessions e) peer s).1 in
            let st := foldl (λ t p, (queue t peer p).1) st carried in
            let e := count Khandshakes_completed (en_set_sessions st e) in
            (e, Some (build_frame e T_HANDSHAKE peer reply None []))
          else (count Kdrop_key_mismatch e, None)
      | _, _ => (count Kdrop_key_mismatch e, None)
      end
  end.

(** The first critical section of [on_handshake]: what it sent, and whether an
    answer went out, after which the lock is taken again to flush. *)
Definition handshake_locked (e : Engine) (peer : Z) (msg : list Z) (up : list Z → Z → bool) (now now' : Z)
    : Engine * list Out * bool :=
  match handshake_next e peer msg up now now' with
  | (e, Some os) => (e, os, false)
  | (e, None) =>
      match handshake_current e peer msg up now' with
      | (e, inl os) => (e, os, false)
      | (e, inr carried) =>
          match handshake_answer e peer msg carried now with
          | (e, Some f) => (e, [OutUp f LANE_DEFAULT], true)
          | (e, None) => (e, [], false)
          end
      end
  end.

Definition on_handshake (e : Engine) (peer : Z) (msg : list Z) (up : list Z → Z → bool) (now now' : Z) : Engine * list Out :=
  match handshake_locked e peer msg up now now' with
  | (e, os, true) => let '(e, os') := flush_pending e peer up now' in (e, os ++ os')
  | (e, os, false) => (e, os)
  end.

(** ** Inbound *)

Definition take_note (e : Engine) (datagram : list Z) : Engine :=
  match note_parse datagram with
  | None => e
  | Some n =>
      let t := en_trace e in
      let notes := if (TRACE_NOTES_KEPT <=? length (tr_notes t))%nat then tail (tr_notes t) else tr_notes t in
      en_set_trace (mkTrace (tr_target t) (notes ++ [n])) (count Ktrace_notes e)
  end.

(** A data frame under the sessions' lock: the packet to filter, if it opened
    to one, and the keepalive that answers it. *)
Definition inbound_unseal (e : Engine) (src_id ctr : Z) (ct : list Z) (now : Z) : Engine * option (list Z) * list Out :=
  let '(s, r) := st_unseal (en_sessions e) src_id ctr ct now in
  let e := en_set_sessions s e in
  match r with
  | Ok [] => (e, None, [])
  | Ok inner =>
      let '(e, keepalive) :=
        if keepalive_due (en_sessions e) src_id now
        then seal_keepalive (en_set_sessions (note_sent (en_sessions e) src_id now) e) src_id
        else (e, None) in
      (e, Some inner, match keepalive with Some f => [OutUp f LANE_DEFAULT] | None => [] end)
  | Err (ReplayErr _) => (count Kdrop_replay e, None, [])
  | Err (NoSession _) => (count Kdrop_no_session e, None, [])
  | Err _ => (count Kdrop_seal_failed e, None, [])
  end.

(** Then the filter, under the peers' lock. *)
Definition inbound_deliver (e : Engine) (src_id : Z) (inner : list Z) : Engine * list Out :=
  match check_ingress (en_peers e) src_id inner with
  | Accept => (count Kreceived e, [OutTun inner])
  | Drop _ => (count Kdrop_ingress e, [])
  end.

Definition inbound (e : Engine) (datagram : list Z) (up : list Z → Z → bool) (now now' : Z) : Engine * list Out :=
  if bool_decide (head datagram = Some T_TRACE_NOTE) then (take_note e datagram, []) else
  match header_parse datagram with
  | None => (count Kdrop_malformed e, [])
  | Some h =>
      if negb (rh_dst_id h =? en_my_node_id e) then (count Kdrop_malformed e, []) else
      let body := drop ROUTED_HEADER_LEN datagram in
      if rh_kind h =? T_HANDSHAKE then on_handshake e (rh_src_id h) body up now now' else
      if rh_kind h =? T_DATA then
        if (length body <? 8)%nat then (count Kdrop_malformed e, []) else
        match inbound_unseal e (rh_src_id h) (from_be (take 8 body)) (drop 8 body) now with
        | (e, Some inner, os) => let '(e, os') := inbound_deliver e (rh_src_id h) inner in (e, os ++ os')
        | (e, None, os) => (e, os)
        end
      else (count Kdrop_malformed e, [])
  end.

(** ** The sweep *)

Definition expire_sessions (e : Engine) (now : Z) : Engine :=
  let '(s, timed_out) := st_expire (en_sessions e) now in
  count_n Khandshake_timeouts (Z.of_nat (length timed_out)) (en_set_sessions s e).
End engine.
