(* ===== verification/Endpoint.v ===== *)
(** * What an endpoint guarantees (crates/nqvpn-endpoint/src/engine.rs, peers.rs)

    The critical sections of [Engine] as a step relation, and the theorems about
    an endpoint and about two of them. *)

From S2P Require Import Prelude Ordered Ipnet Text Frame Control Replay Seal Flow Lpm Peers Sessions Engine.

#[local] Arguments send_counted : simpl never.
#[local] Arguments build_frame : simpl never.
#[local] Arguments start_rekey : simpl never.
#[local] Arguments on_current : simpl never.
#[local] Arguments note_sent : simpl never.
#[local] Arguments queue : simpl never.
#[local] Arguments take_pending : simpl never.
#[local] Arguments flush_pending : simpl never.
#[local] Arguments seal_keepalive : simpl never.
#[local] Arguments finish : simpl never.
#[local] Arguments respond : simpl never.

(** ** Only vouched sessions *)

Section vouched.
Context `{O : IpNetOps, T : TrieOps, B : Base64, N : NoiseLib, NS : !NoiseStatic N}.

(** Every session held is one with the key the view publishes for its peer. *)
Definition vouched (e : Engine) : Prop :=
  table_ok (λ id, ok_session (pubkey_of (en_peers e) id)) (en_sessions e).

Definition ident (e : Engine) : Z * string * StaticKeys := (en_my_node_id e, en_network_uuid e, en_keys e).

(** What every handler does to the engine, at most: [R] of the sessions, for every
    property of sessions that those with a key now published have. *)
Definition erel (R : (Z → PairSession → Prop) → SessionTable → SessionTable → Prop) (e e' : Engine) : Prop :=
  en_peers e' = en_peers e ∧ ident e' = ident e ∧
  ∀ P, (∀ id, stable (P id)) → (∀ id s, ok_session (pubkey_of (en_peers e) id) s → P id s) → R P (en_sessions e) (en_sessions e').

(** Most leave the working sessions where they are; two may switch to the next one. *)
Definition keeps : Engine → Engine → Prop := erel tkeeps.
Definition switches : Engine → Engine → Prop := erel tswitches.

#[export] Instance keeps_preorder : PreOrder keeps.
Proof.
  split; [by intros e; split_and!|]. intros e1 e2 e3 (H1 & I1 & K1) (H2 & I2 & K2). split_and!; [congruence..|].
  intros P HP Hin. etransitivity; [by apply K1|]. apply K2; [done|]. by rewrite H1.
Qed.

Lemma keeps_switches e e' : keeps e e' → switches e e'.
Proof. intros (Hp & Hi & K). split_and!; [done..|]. intros P HP Hin. by apply tk_switches, K. Qed.

Lemma esw_then e1 e2 e3 : switches e1 e2 → keeps e2 e3 → switches e1 e3.
Proof.
  intros (H1 & I1 & K1) (H2 & I2 & K2). split_and!; [congruence..|].
  intros P HP Hin. eapply switches_then; [by apply K1|]. apply K2; [done|]. by rewrite H1.
Qed.

Lemma ok_stable want : stable (ok_session want).
Proof. split; intros; [by apply seal_static|by apply unseal_static|by apply finish_static]. Qed.

Lemma erel_sessions R e s : (∀ P, (∀ id, stable (P id)) → R P (en_sessions e) s) → erel R e (en_set_sessions s e).
Proof. intros H. split_and!; [done..|]. intros P HP _. by apply H. Qed.

Lemma keeps_sessions e s : (∀ P, (∀ id, stable (P id)) → tkeeps P (en_sessions e) s) → keeps e (en_set_sessions s e).
Proof. apply erel_sessions. Qed.

Lemma keeps_same e e' : en_peers e' = en_peers e → ident e' = ident e → en_sessions e' = en_sessions e → keeps e e'.
Proof. intros Hp Hi Hs. split_and!; [done..|]. intros P _ _. by rewrite Hs. Qed.

Lemma keeps_count c k e : keeps e (count_n c k e).
Proof. by apply keeps_same. Qed.

Lemma keeps_send up e f lane : keeps e (send_counted up e f lane).1.
Proof. unfold send_counted. destruct (up f lane); [apply keeps_count|done]. Qed.

Lemma keeps_send_all up e fs : keeps e (send_all up e fs).1.
Proof.
  revert e. induction fs as [|f fs IH]; intros e; [done|]. cbn. pose proof (keeps_send up e f.1 f.2) as H1.
  destruct (send_counted up e f.1 f.2) as [e1 o]. specialize (IH e1). destruct (send_all up e1 fs) as [e2 os]. etransitivity; [exact H1|exact IH].
Qed.

Lemma keeps_start_rekey e peer now clock : keeps e (start_rekey e peer now clock).1.
Proof.
  unfold start_rekey. destruct (pubkey_of (en_peers e) peer) as [pk|] eqn:Epk; [|done]. cbn.
  destruct (initiate_rekey _ _ _ _ _ _ _ _) as [s r] eqn:Er. apply (f_equal fst) in Er. cbn in Er. subst s.
  split_and!; [done..|]. intros P HP Hin. cbn. apply tk_initiate_rekey. intros s' m Hi. apply Hin. rewrite Epk. by eapply initiate_static.
Qed.

Lemma seal_keeps P s p : stable P → used s (seal s p).1 ∧ (P s → P (seal s p).1).
Proof. intros HP. split; [apply used_out|apply HP]. Qed.

(** The session we send on exists: seal, and stamp the send. *)
Lemma keeps_outbound_ready e owner packet up now clock :
  st_is_ready (en_sessions e) owner = true → keeps e (outbound_send e owner packet up now clock).1.
Proof.
  intros Hr. unfold outbound_send. rewrite Hr. destruct (on_current _ _ _) as [s sealed] eqn:Es. apply (f_equal fst) in Es. cbn [fst] in Es.
  set (e1 := en_set_sessions (note_sent s owner now) e).
  assert (keeps e e1) as K1.
  { apply keeps_sessions. intros P HP. etransitivity; [|apply tk_note_sent]. subst s. apply tk_current. intros c. by apply seal_keeps. }
  assert (keeps e1 (if rekey_due (en_sessions e1) owner now then start_rekey e1 owner now clock else (e1, None)).1) as K2
    by (destruct (rekey_due _ _ _); [apply keeps_start_rekey|done]).
  destruct (if rekey_due (en_sessions e1) owner now then _ else _) as [e2 rekey]. cbn [fst] in K2.
  etransitivity; [exact K1|]. etransitivity; [exact K2|].
  assert (∀ e3 o, keeps e2 e3 → keeps e2 (match rekey with Some msg => (count Khandshakes_started e3,
    o ++ [OutUp (build_frame e3 T_HANDSHAKE owner msg None packet) LANE_DEFAULT]) | None => (e3, o) end).1) as K3.
  { intros e3 o K. destruct rekey; [|done]. etransitivity; [exact K|apply keeps_count]. }
  destruct sealed as [[[ctr ct]|err]|]; [|apply (K3 _ []), keeps_count..].
  pose proof (keeps_send up e2 (build_frame e2 T_DATA owner ct (Some ctr) packet) (lane_for packet (en_lanes e2))) as K4.
  destruct (send_counted _ _ _ _) as [e3 o]. by apply (K3 e3 o).
Qed.

Lemma keeps_outbound e owner packet up now clock : keeps e (outbound_send e owner packet up now clock).1.
Proof.
  destruct (st_is_ready (en_sessions e) owner) eqn:Hr; [by apply keeps_outbound_ready|]. unfold outbound_send. rewrite Hr.
  destruct (_ && _); [etransitivity; [by apply keeps_sessions; intros P _; apply (tk_take_pending P _ owner)|apply keeps_count]|].
  destruct (queue (en_sessions e) owner packet) as [s kept] eqn:Eq. apply (f_equal fst) in Eq. cbn [fst] in Eq.
  set (e1 := if kept then en_set_sessions s e else _).
  assert (keeps e e1 ∧ st_is_ready (en_sessions e1) owner = false) as [K1 Hr1].
  { assert (keeps e (en_set_sessions s e)) as K by (apply keeps_sessions; intros P _; subst s; apply tk_queue).
    subst s. by destruct kept. }
  destruct (negb _) eqn:Eh; [|exact K1]. destruct (pubkey_of (en_peers e) owner) as [pk|] eqn:Epk; [|exact K1]. cbn.
  etransitivity; [exact K1|]. destruct (st_initiate_at _ _ _ _ _ _ _ _) as [s2 r] eqn:Ei. apply (f_equal fst) in Ei. cbn [fst] in Ei.
  assert (keeps e1 (en_set_sessions s2 (en_set_last_ts (if tai_leb clock (en_last_ts e1) then tai_succ (en_last_ts e1) else clock) e1))) as K2.
  { split_and!; [done..|]. intros P HP Hin. cbn. subst s2. apply tk_initiate; [done|].
    intros s' m Hi. apply Hin. destruct K1 as [-> _]. rewrite Epk. by eapply initiate_static. }
  destruct r as [msg|err]; cbn; [etransitivity; [exact K2|apply keeps_count]|]. etransitivity; [exact K2|].
  etransitivity; [by apply keeps_sessions; intros P _; apply (tk_take_pending P _ owner)|apply keeps_count].
Qed.

Lemma queued_keeps P e peer s q : stable P →
  used s (seal_queued e peer s q).1 ∧ (P s → P (seal_queued e peer s q).1).
Proof.
  intros HP. revert s. induction q as [|pkt q IH]; intros s; [by split; [apply rtc_refl|]|]. cbn [seal_queued].
  destruct (seal_keeps P s pkt HP) as [R1 O1]. destruct (seal s pkt) as [s1 r]. destruct (IH s1) as [R2 O2].
  destruct (seal_queued e peer s1 q) as [s2 fs]. destruct r as [[ctr ct]|]; cbn in *; eauto using used_trans.
Qed.

Lemma keeps_flush e peer up now : keeps e (flush_pending e peer up now).1.
Proof.
  unfold flush_pending. destruct (negb _); [done|]. destruct (take_pending (en_sessions e) peer) as [s q] eqn:Eq.
  apply (f_equal fst) in Eq. cbn [fst] in Eq. destruct (on_current s peer _) as [s2 fs] eqn:Ec. apply (f_equal fst) in Ec. cbn [fst] in Ec.
  etransitivity; [|apply keeps_send_all]. apply keeps_sessions. intros P HP.
  assert (tkeeps P (en_sessions e) s2) as H2.
  { subst s2 s. etransitivity; [apply tk_take_pending|]. apply tk_current. intros c. by apply queued_keeps. }
  destruct (default [] fs); [done|]. etransitivity; [exact H2|apply tk_note_sent].
Qed.

Lemma keeps_keepalive e peer : keeps e (seal_keepalive e peer).1.
Proof.
  unfold seal_keepalive. destruct (on_current _ _ _) as [s r] eqn:Ec. apply (f_equal fst) in Ec. cbn [fst] in Ec.
  apply keeps_sessions. intros P HP. subst s. apply tk_current. intros c. by apply seal_keeps.
Qed.

Lemma next_in_flight_some t peer n : next_in_flight t peer = Some n →
  ∃ p, st_sessions t !! peer = Some p ∧ pss_next p = Some n ∧ ps_initiator n = true ∧ is_ready n = false.
Proof.
  unfold next_in_flight. intros (p & Hp & (s & Hs & Hn)%bind_Some)%bind_Some.
  destruct (ps_initiator s) eqn:Ei, (is_ready s) eqn:Er; cbn in Hn; simplify_eq. eauto.
Qed.

(** The reply read by the rekey in flight, kept or promoted. *)
Lemma next_finished P t peer n msg : (∀ id, stable (P id)) → next_in_flight t peer = Some n →
  tkeeps P t (on_peer t peer (set_next (Some (finish n msg).1))) ∧
  (is_ready (finish n msg).1 = true → ∀ now, tswitches P t (st_promote (on_peer t peer (set_next (Some (finish n msg).1))) peer now)).
Proof.
  intros HP (p & Hp & Hn & Hi & Hnr)%next_in_flight_some.
  assert (tkeeps P t (on_peer t peer (set_next (Some (finish n msg).1)))) as K.
  { apply tk_peer. intros q Hq. simplify_eq. split; [intros _; by apply carried_same|]. intros Hh. apply all_held_next; [|done].
    intros ? [= <-]. apply HP, Hh. unfold held. auto. }
  split; [done|]. intros Hr now. set (q := set_next (Some (finish n msg).1) p).
  assert (st_promote (on_peer t peer (set_next (Some (finish n msg).1))) peer now =
    on_peer t peer (λ p, pss_promote now (set_next (Some (finish n msg).1) p))) as ->.
  { unfold st_promote, on_peer, set_sessions. cbn. by rewrite alter_alter_eq. }
  apply ts_peer; [intros ?; by left|]. intros p' Hp'. simplify_eq. split.
  - intros Hw. destruct (pss_current p) as [c|] eqn:Hc; [|done]. cbn in Hw. right. eapply (promote_switched p c c n (finish n msg).1); try done.
    left. eauto 10.
  - intros Hh. apply all_held_promote, all_held_next; [|done]. intros ? [= <-]. apply HP, Hh. unfold held. auto.
Qed.

Lemma sw_handshake_next e peer msg up now now' : switches e (handshake_next e peer msg up now now').1 ∧
  ((handshake_next e peer msg up now now').2 = None → keeps e (handshake_next e peer msg up now now').1).
Proof.
  unfold handshake_next. destruct (next_in_flight (en_sessions e) peer) as [n|] eqn:En; [|split; [by apply keeps_switches|done]].
  pose proof (λ P HP, next_finished P _ peer n msg HP En) as Hf. destruct (finish n msg) as [n' r]. cbn [fst] in Hf.
  set (s := on_peer (en_sessions e) peer (set_next (Some n'))) in *.
  destruct (is_ok r && is_ready n') eqn:Er.
  - apply andb_true_iff in Er as [_ Er]. set (e1 := count Krekeys_completed _). assert (switches e e1) as K1.
    { apply (erel_sessions _ e (st_promote s peer now)). intros P HP. by apply Hf. }
    pose proof (keeps_keepalive e1 peer) as K2. destruct (seal_keepalive e1 peer) as [e2 ka]. cbn [fst] in K2.
    set (e3 := en_set_sessions _ e2). assert (keeps e2 e3) as K3 by (apply keeps_sessions; intros; by apply tk_note_sent).
    pose proof (keeps_flush e3 peer up now') as K4. destruct (flush_pending e3 peer up now') as [e4 os]. cbn in *. split; [|done].
    eapply esw_then; [exact K1|]. by do 2 (etransitivity; [eassumption|]).
  - assert (∀ e', keeps e e' → switches e e' ∧ (∀ o : option (list Out), o = None → keeps e e')) as Hd by (split; [by apply keeps_switches|done]).
    destruct (en_my_node_id e <? peer); cbn [fst snd].
    + destruct (Hd (en_set_sessions (drop_next s peer) (count Khandshakes_yielded e))) as [H1 H2]; [|split; [exact H1|apply H2]].
      apply (keeps_sessions (count Khandshakes_yielded e) (drop_next s peer)). intros P HP.
      etransitivity; [exact (proj1 (Hf P HP))|apply tk_drop_next].
    + destruct (Hd (en_set_sessions s e)) as [H1 H2]; [|split; [exact H1|apply H2]]. apply keeps_sessions. intros P HP. exact (proj1 (Hf P HP)).
Qed.

Lemma keeps_handshake_current e peer msg up now' : keeps e (handshake_current e peer msg up now').1.
Proof.
  unfold handshake_current. destruct (current_of (en_sessions e) peer) as [c|] eqn:Ec; [|done].
  destruct (negb (is_ready c) && ps_initiator c) eqn:Ei; [|done]. apply andb_true_iff in Ei as [Hnr%negb_true_iff _].
  apply current_of_held in Ec as (p & Hp & Hc). destruct (finish c msg) as [c' r] eqn:Ef.
  assert (c' = (finish c msg).1) as Ef' by by rewrite Ef.
  set (s := on_peer (en_sessions e) peer (set_current (Some c'))).
  assert (∀ P, (∀ id, stable (P id)) → tkeeps P (en_sessions e) s) as Hs.
  { intros P HP. apply tk_peer. intros q Hq. rewrite Hp in Hq. injection Hq as <-. split; [rewrite Hc; cbn; by rewrite Hnr|].
    intros Hh. apply all_held_current; [|done]. intros ? [= <-]. rewrite Ef'. apply HP, Hh. by apply held_current. }
  destruct (is_ok r && is_ready c') eqn:Er.
  - pose proof (keeps_flush (count Khandshakes_completed (en_set_sessions s e)) peer up now') as K.
    destruct (flush_pending _ _ _ _) as [e1 os]. cbn in *. etransitivity; [|exact K]. by apply (keeps_sessions e s).
  - destruct (en_my_node_id e <? peer); [|by apply keeps_sessions].
    apply (keeps_sessions (count Khandshakes_yielded e) (st_remove (take_pending s peer).1 peer)).
    intros P HP. etransitivity; [by apply Hs|]. etransitivity; [apply (tk_take_pending P s peer)|]. apply tk_remove.
    unfold st_is_ready, current_of, take_pending, s. cbn. rewrite lookup_alter_eq, Hp. cbn. destruct (is_ready c') eqn:Ec'; [|done].
    pose proof (finish_ready c msg Hnr) as Hf. rewrite Ef in Hf. cbn in Hf. by rewrite Hf in Er.
Qed.
Lemma keeps_answer e peer msg carried now : keeps e (handshake_answer e peer msg carried now).1.
Proof.
  unfold handshake_answer. destruct (respond _ _ _ _ _ _) as [[[s reply] ts]|] eqn:Er; [|apply keeps_count].
  apply respond_ready in Er. destruct (peer_static s) as [got|] eqn:Eg; [|apply keeps_count].
  destruct (pubkey_of (en_peers e) peer) as [want|] eqn:Ew; [|apply keeps_count].
  case_bool_decide as Heq; [|apply keeps_count]. subst got. destruct (accept_handshake_ts _ _ _ _) as [st fresh] eqn:Ea.
  apply (f_equal fst) in Ea. cbn [fst] in Ea.
  assert (keeps e (en_set_sessions st e)) as K1 by (apply keeps_sessions; intros; subst st; by apply tk_accept).
  destruct fresh; cbn; [|by etransitivity; [exact K1|apply keeps_count]]. etransitivity; [exact K1|].
  split_and!; [done..|]. intros P HP Hin. cbn. etransitivity; [apply (tk_install _ _ peer s); [done|]|apply tk_queue_all].
  apply Hin. right. cbn. rewrite Ew. eauto.
Qed.

Lemma sw_handshake e peer msg up now now' : switches e (handshake_locked e peer msg up now now').1.1.
Proof.
  unfold handshake_locked. destruct (sw_handshake_next e peer msg up now now') as [K0 K1].
  destruct (handshake_next _ _ _ _ _ _) as [e1 [os|]]; [exact K0|]. specialize (K1 eq_refl). cbn in K1. clear K0.
  pose proof (keeps_handshake_current e1 peer msg up now') as K2. apply keeps_switches.
  destruct (handshake_current _ _ _ _ _) as [e2 [os|carried]]; cbn in K2 |- *; [by etransitivity|].
  pose proof (keeps_answer e2 peer msg carried now) as K3. destruct (handshake_answer _ _ _ _ _) as [e3 [f|]]; cbn in K3 |- *;
    by do 2 (etransitivity; [eassumption|]).
Qed.

Lemma sw_unseal e src ctr ct now : switches e (inbound_unseal e src ctr ct now).1.1.
Proof.
  unfold inbound_unseal. destruct (st_unseal _ _ _ _ _) as [s r] eqn:Eu. apply (f_equal fst) in Eu. cbn [fst] in Eu.
  assert (switches e (en_set_sessions s e)) as K1 by (apply erel_sessions; intros; subst s; by apply tk_unseal).
  destruct r as [[|b inner]|err]; [exact K1| |by destruct err; (eapply esw_then; [exact K1|apply keeps_count])].
  eapply esw_then; [exact K1|]. set (e1 := en_set_sessions s e). destruct (keepalive_due _ _ _); [|done].
  set (e2 := en_set_sessions _ e1). pose proof (keeps_keepalive e2 src) as K2. destruct (seal_keepalive e2 src) as [e3 ka].
  cbn in *. etransitivity; [|exact K2]. apply keeps_sessions. intros. by apply tk_note_sent.
Qed.

Lemma keeps_deliver e src inner : keeps e (inbound_deliver e src inner).1.
Proof. unfold inbound_deliver. destruct (check_ingress _ _ _); apply keeps_count. Qed.

Lemma keeps_note e d : keeps e (take_note e d).
Proof. unfold take_note. destruct (note_parse d); by apply keeps_same. Qed.

(** The keys a view publishes are those of the table it replaces. *)
Lemma published_keys e members id : id ≠ en_my_node_id e →
  let '(e', _, published) := sync_peers_view e members in (k ← published !! id; k) = pubkey_of (en_peers e') id.
Proof.
  intros Hid. unfold sync_peers_view, pubkey_of, replace_all. cbn.
  induction members as [|m members IH] using rev_ind; [done|].
  rewrite List.filter_app, foldl_app, foldl_snoc. cbn. destruct (Z.eqb_spec (pi_node_id m) (en_my_node_id e)) as [Hm|Hm]; cbn.
  - rewrite lookup_insert_ne by congruence. exact IH.
  - destruct (decide (pi_node_id m = id)) as [->|Hne]; [by rewrite !lookup_insert_eq|]. rewrite !lookup_insert_ne by done. exact IH.
Qed.

(** ** The endpoint as a transition system *)

(** The two callers of the engine: a client applies a view with [sync_peers]
    (crates/nqvpn-client/src/client.rs), a relay's own endpoint only replaces the
    peer table ([LocalEndpoint::sync], crates/nqvpn-relay/src/endpoint.rs). *)
Inductive EpKind := ClientEnd | RelayEnd.

(** The engine and, between the two critical sections of [sync_peers], what
    the first one computed. Any number of handlers run concurrently: each
    critical section of each of them is a step. The control task, the only
    one to apply views, does not start a second one meanwhile. *)
Definition EpState : Type := Engine * option (list Z * gmap Z (option (list Z))).

Inductive ep_step (kind : EpKind) : EpState → EpState → Prop :=
| ep_outbound e w owner packet up now clock : ep_step kind (e, w) ((outbound_send e owner packet up now clock).1, w)
| ep_handshake e w peer msg up now now' : ep_step kind (e, w) ((handshake_locked e peer msg up now now').1.1, w)
| ep_flush e w peer up now : ep_step kind (e, w) ((flush_pending e peer up now).1, w)
| ep_unseal e w src ctr ct now : ep_step kind (e, w) ((inbound_unseal e src ctr ct now).1.1, w)
| ep_deliver e w src inner : ep_step kind (e, w) ((inbound_deliver e src inner).1, w)
| ep_note e w datagram : ep_step kind (e, w) (take_note e datagram, w)
| ep_expire e w now : ep_step kind (e, w) (expire_sessions e now, w)
| ep_count e w c : ep_step kind (e, w) (count c e, w)
| ep_mtu e w mtu : ep_step kind (e, w) (set_mtu mtu e, w)
| ep_trace e w target : ep_step kind (e, w) (set_trace target e, w)
| ep_notes e w : ep_step kind (e, w) ((take_trace_notes e).1, w)
| ep_mine e w hosts nets : ep_step kind (e, w) (en_set_peers (set_mine hosts nets (en_peers e)) e, w)
| ep_policy e w policy : ep_step kind (e, w) (en_set_peers (set_policy policy (en_peers e)) e, w)
| ep_exit e w net node : ep_step kind (e, w) (en_set_peers (set_default_exit (en_peers e) net node) e, w)
| ep_view e members : kind = ClientEnd →
    let '(e', relogged, published) := sync_peers_view e members in ep_step kind (e, None) (e', Some (relogged, published))
| ep_sync e relogged published : ep_step kind (e, Some (relogged, published)) (sync_peers_sessions e relogged published, None)
| ep_replace e members : kind = RelayEnd → ep_step kind (e, None) (en_set_peers (replace_all (en_peers e) members) e, None).

(** A run from a fresh engine, with every peer table it has had, oldest first. *)
Inductive ep_ran (kind : EpKind) : EpState → list PeerTable → Prop :=
| ran_start id uuid keys peers mtu lanes : ep_ran kind (engine_new id uuid keys peers mtu lanes, None) [peers]
| ran_step s s' hist : ep_ran kind s hist → ep_step kind s s' → ep_ran kind s' (hist ++ [en_peers s'.1]).

Definition ep_reach (kind : EpKind) (s : EpState) : Prop := ∃ hist, ep_ran kind s hist.

(** A session with a key that one of the tables publishes for the peer. *)
Definition vouched_in (hist : list PeerTable) (id : Z) (s : PairSession) : Prop :=
  ∃ t, t ∈ hist ∧ ok_session (pubkey_of t id) s.

Definition ep_inv (kind : EpKind) (s : EpState) (hist : list PeerTable) : Prop :=
  en_peers s.1 ∈ hist ∧ table_ok (vouched_in hist) (en_sessions s.1) ∧
  match s.2 with
  | None => kind = ClientEnd → vouched s.1
  | Some (_, published) => published !! en_my_node_id s.1 = None ∧
      ∀ id, id ≠ en_my_node_id s.1 → (k ← published !! id; k) = pubkey_of (en_peers s.1) id
  end.

Lemma vouched_in_stable hist id : stable (vouched_in hist id).
Proof. split; intros s *; intros (t & Ht & Hs); exists t; (split; [done|]); by apply ok_stable. Qed.

Lemma vouched_in_more hist t tbl : table_ok (vouched_in hist) tbl → table_ok (vouched_in (hist ++ [t])) tbl.
Proof. intros H id p Hp s Hs. destruct (H id p Hp s Hs) as (t' & Ht' & Ho). exists t'. split; [apply elem_of_app; by left|done]. Qed.

Lemma last_here {A} (l : list A) x : x ∈ l ++ [x].
Proof. apply elem_of_app. right. by apply list_elem_of_singleton. Qed.

Lemma frame_inv kind e e' w hist : en_peers e' = en_peers e → ident e' = ident e →
  (∀ P, (∀ id, stable (P id)) → (∀ id s, ok_session (pubkey_of (en_peers e) id) s → P id s) → table_ok P (en_sessions e) → table_ok P (en_sessions e')) →
  ep_inv kind (e, w) hist → ep_inv kind (e', w) (hist ++ [en_peers e']).
Proof.
  intros Hp Hi HP (Hin & Ht & Hw). split_and!; [apply last_here| |].
  - apply vouched_in_more, HP; [apply vouched_in_stable| |exact Ht]. intros id s Hs. by exists (en_peers e).
  - cbn in *. rewrite Hp. unfold ident in Hi. injection Hi as -> _ _. destruct w as [[r p]|]; [done|]. intros Hk. unfold vouched. rewrite Hp.
    apply HP; [intros id; apply ok_stable|done|by apply Hw].
Qed.

Lemma erel_inv {R} kind e e' w hist : (∀ P t t', R P t t' → table_ok P t → table_ok P t') →
  erel R e e' → ep_inv kind (e, w) hist → ep_inv kind (e', w) (hist ++ [en_peers e']).
Proof. intros HR (Hp & Hi & HK). apply frame_inv; [done..|]. intros P HP Hin. by apply HR, HK. Qed.

Lemma keeps_inv kind e e' w hist : keeps e e' → ep_inv kind (e, w) hist → ep_inv kind (e', w) (hist ++ [en_peers e']).
Proof. apply erel_inv. intros P t t' K. exact (tk_ok _ _ _ _ K). Qed.

Lemma switches_inv kind e e' w hist : switches e e' → ep_inv kind (e, w) hist → ep_inv kind (e', w) (hist ++ [en_peers e']).
Proof. apply erel_inv. intros P t t' K. exact (tk_ok _ _ _ _ K). Qed.

Lemma pubkeys_inv kind e p w hist : (∀ id, pubkey_of p id = pubkey_of (en_peers e) id) →
  ep_inv kind (e, w) hist → ep_inv kind (en_set_peers p e, w) (hist ++ [p]).
Proof.
  intros Hp (_ & Ht & Hw). split_and!; [apply last_here|by apply vouched_in_more|]. cbn in *. destruct w as [[r q]|]; [by setoid_rewrite Hp|].
  intros Hk id ps Hps s Hs. cbn. rewrite Hp. by eapply Hw.
Qed.

Lemma exit_pubkey t net node id : pubkey_of (set_default_exit t net node) id = pubkey_of t id.
Proof. unfold set_default_exit. by destruct (_ =? _). Qed.

Lemma published_not_me e members :
  let '(_, _, published) := sync_peers_view e members in published !! en_my_node_id e = None.
Proof.
  unfold sync_peers_view. cbn. induction members as [|m members IH] using rev_ind; [done|].
  rewrite List.filter_app, foldl_app. cbn. destruct (Z.eqb_spec (pi_node_id m) (en_my_node_id e)) as [Hm|Hm]; cbn; [exact IH|].
  by rewrite lookup_insert_ne.
Qed.

Lemma synced e relogged published :
  (∀ id, id ≠ en_my_node_id e → (k ← published !! id; k) = pubkey_of (en_peers e) id) → published !! en_my_node_id e = None →
  vouched (sync_peers_sessions e relogged published).
Proof.
  intros Hk Hm. unfold sync_peers_sessions. destruct (sync_view _ _) as [s dropped] eqn:Es. apply (f_equal fst) in Es. cbn [fst] in Es. subst s.
  intros id p Hp s Hs. cbn in *. destruct (sync_view_ok _ _ _ _ Hp s Hs) as [Hok Hsome].
  destruct (decide (id = en_my_node_id e)) as [->|Hne]; [|by rewrite <- Hk].
  rewrite Hm in Hsome. by destruct Hsome.
Qed.

Lemma ep_step_inv kind s s' hist : ep_step kind s s' → ep_inv kind s hist → ep_inv kind s' (hist ++ [en_peers s'.1]).
Proof.
  destruct 1 as [e w owner pkt up now clock|e w peer msg up now now'|e w peer up now|e w src ctr ct now|e w src inner
                |e w d|e w now|e w c|e w mtu|e w tg|e w|e w hosts nets|e w pol|e w net node|e members Hkind|e relogged published|e members Hkind].
  - apply keeps_inv, keeps_outbound.
  - apply switches_inv, sw_handshake.
  - apply keeps_inv, keeps_flush.
  - apply switches_inv, sw_unseal.
  - apply keeps_inv, keeps_deliver.
  - apply keeps_inv, keeps_note.
  - apply frame_inv; [done..|]. intros P _ _ Ht. exact (st_expire_ok _ _ now Ht).
  - apply keeps_inv, keeps_count.
  - by apply keeps_inv, keeps_same.
  - by apply keeps_inv, keeps_same.
  - by apply keeps_inv, keeps_same.
  - by apply pubkeys_inv.
  - by apply pubkeys_inv.
  - apply pubkeys_inv. intros id. apply exit_pubkey.
  - intros (_ & Ht & _). split_and!; [apply last_here|by apply vouched_in_more|]. split; [exact (published_not_me e members)|]. exact (published_keys e members).
  - intros (_ & _ & Hm & Hk). pose proof (synced e relogged published Hk Hm) as Hv. split_and!; [apply last_here| |by intros _].
    intros id p Hp ss Hs. exists (en_peers e). split; [apply last_here|]. exact (Hv id p Hp ss Hs).
  - subst kind. intros (_ & Ht & _). split_and!; [apply last_here|by apply vouched_in_more|done].
Qed.

Lemma ep_ran_inv kind s hist : ep_ran kind s hist → ep_inv kind s hist.
Proof.
  induction 1 as [id uuid keys peers mtu lanes|s s' hist _ IH Hs]; [|by eapply ep_step_inv].
  split_and!; [by apply list_elem_of_singleton| |]; [|intros _]; intros i p Hp; cbn in Hp; by rewrite lookup_empty in Hp.
Qed.

(** The handlers are sequences of steps. *)
Lemma ep_reach_step kind s s' : ep_reach kind s → ep_step kind s s' → ep_reach kind s'.
Proof. intros [hist Hr] Hs. eexists. by eapply ran_step. Qed.

Lemma sync_reach e members : ep_reach ClientEnd (e, None) → ep_reach ClientEnd (sync_peers e members, None).
Proof.
  intros Hr. unfold sync_peers. pose proof (ep_view ClientEnd e members eq_refl) as Hv. destruct (sync_peers_view e members) as [[e1 relogged] published].
  eapply ep_reach_step; [|constructor]. by eapply ep_reach_step.
Qed.

Lemma outbound_reach kind e w packet up now clock : ep_reach kind (e, w) → ep_reach kind ((outbound e packet up now clock).1, w).
Proof.
  intros Hr. assert (∀ c, ep_reach kind (count c e, w)) as Hc by (intros c; exact (ep_reach_step _ _ _ Hr (ep_count kind e w c))).
  unfold outbound. destruct (_ <? _); [apply Hc|]. destruct (parse_inner_addrs packet) as [[src dst]|]; [|apply Hc].
  destruct (is_mine_host _ _); [apply Hc|]. destruct (owner_of _ _) as [owner|]; [|apply Hc].
  exact (ep_reach_step _ _ _ Hr (ep_outbound kind e w owner packet up now clock)).
Qed.

Lemma inbound_reach kind e w d up now now' : ep_reach kind (e, w) → ep_reach kind ((inbound e d up now now').1, w).
Proof.
  intros Hr. assert (∀ c, ep_reach kind (count c e, w)) as Hc by (intros c; exact (ep_reach_step _ _ _ Hr (ep_count kind e w c))).
  unfold inbound. case_bool_decide; [exact (ep_reach_step _ _ _ Hr (ep_note kind e w d))|]. destruct (header_parse d) as [h|]; [|apply Hc].
  destruct (negb _); [apply Hc|]. destruct (_ =? _).
  - unfold on_handshake. pose proof (ep_handshake kind e w (rh_src_id h) (drop ROUTED_HEADER_LEN d) up now now') as Hs.
    destruct (handshake_locked _ _ _ _ _ _) as [[e1 os] []]; [|by eapply ep_reach_step].
    pose proof (ep_flush kind e1 w (rh_src_id h) up now') as Hf. destruct (flush_pending _ _ _ _) as [e2 os2].
    by do 2 (eapply ep_reach_step; [|eassumption]).
  - destruct (_ =? _); [|apply Hc]. destruct (_ <? _)%nat; [apply Hc|].
    pose proof (ep_unseal kind e w (rh_src_id h) (from_be (take 8 (drop ROUTED_HEADER_LEN d))) (drop 8 (drop ROUTED_HEADER_LEN d)) now) as Hu.
    destruct (inbound_unseal _ _ _ _ _) as [[e1 [inner|]] os]; [|by eapply ep_reach_step].
    pose proof (ep_deliver kind e1 w (rh_src_id h) inner) as Hd. destruct (inbound_deliver _ _ _) as [e2 os2].
    by do 2 (eapply ep_reach_step; [|eassumption]).
Qed.

(** The key [k] vouches for a session of peer [id]: some view the endpoint has
    applied published it for that peer; at a client with no view half applied,
    the view it has now publishes it. *)
Definition vouches (kind : EpKind) (s : EpState) (hist : list PeerTable) (id : Z) (k : list Z) : Prop :=
  (∃ t, t ∈ hist ∧ pubkey_of t id = Some k) ∧ (kind = ClientEnd → s.2 = None → pubkey_of (en_peers s.1) id = Some k).

Lemma held_vouched kind s hist id p ss : ep_ran kind s hist → st_sessions (en_sessions s.1) !! id = Some p → held p ss →
  ps_stage ss = None ∨ ∃ k, peer_static ss = Some k ∧ vouches kind s hist id k.
Proof.
  intros Hr%ep_ran_inv Hp Hs. destruct Hr as (_ & Ht & Hw). destruct (Ht id p Hp ss Hs) as (t & Hin & [?|[[k Hk] He]]); [by left|].
  destruct (ps_stage ss) eqn:Est; [|by left]. right. exists k. split; [congruence|]. split; [eauto|]. intros -> Hn.
  rewrite Hn in Hw. destruct (Hw eq_refl id p Hp ss Hs) as [?|[_ ?]]; [|]; congruence.
Qed.


(** ** Working sessions are not taken away *)

Lemma expire_peer_kept now p c : pss_current p = Some c → is_ready c = true → must_expire c now = false →
  pss_current (expire_peer now p).1 = Some c.
Proof.
  intros Hc Hr He. unfold expire_peer. rewrite Hc, Hr, He. cbn [andb]. unfold is_stale_handshake. rewrite Hr. cbn [negb andb].
  destruct (match pss_next p with Some _ => _ | None => _ end) as [p2 n2] eqn:E2.
  assert (pss_current p2 = Some c) as H2 by (repeat case_match; simplify_eq; done). rewrite H2. cbn [is_none andb].
  destruct (pss_previous p2) as [[s at_]|]; [|done]. by destruct (_ <=? _).
Qed.

Lemma kept_ready m id p c : m !! id = Some p → pss_current p = Some c → keep_nonempty m !! id = Some p.
Proof. intros Hm Hc. unfold keep_nonempty. rewrite map_lookup_filter_Some. split; [done|]. cbn. unfold pss_is_empty. by rewrite Hc. Qed.

Lemma forget_sessions relogged t : st_sessions (foldl forget_handshake_ts t relogged) = st_sessions t.
Proof. revert t. induction relogged as [|r rs IH]; intros t; [done|]. cbn. by rewrite IH. Qed.

(** The sweep before the hard limit leaves the session it was. *)
Lemma expire_work e now peer p c : st_sessions (en_sessions e) !! peer = Some p → pss_current p = Some c → is_ready c = true →
  must_expire c now = false → ∃ p', st_sessions (en_sessions (expire_sessions e now)) !! peer = Some p' ∧ pss_current p' = Some c.
Proof.
  intros Hp Hc Hr Em. pose proof (expire_peer_kept now p c Hc Hr Em) as Hx. exists (expire_peer now p).1. split; [|done]. cbn.
  eapply kept_ready; [|exact Hx]. by rewrite !lookup_fmap, Hp.
Qed.

(** A view that still publishes its key, too. *)
Lemma sync_work e relogged published peer p c : st_sessions (en_sessions e) !! peer = Some p → pss_current p = Some c →
  stale_session (k ← published !! peer; k) c = false →
  ∃ p', st_sessions (en_sessions (sync_peers_sessions e relogged published)) !! peer = Some p' ∧ pss_current p' = Some c.
Proof.
  intros Hp Hc Es. assert (pss_current (sync_peer (k ← published !! peer; k) p) = Some c) as Hx.
  { cbn. unfold keep_if. rewrite Hc. cbn. by rewrite Es. }
  exists (sync_peer (k ← published !! peer; k) p). split; [|done]. cbn.
  eapply kept_ready; [|exact Hx]. by rewrite map_lookup_imap, forget_sessions, Hp.
Qed.

(** C37: Working sessions are not taken away. In any step an endpoint takes, a
    client's or a relay's, on whatever frames a relay hands it (forged, replayed,
    reordered), a peer whose session to send on is ready still has a ready one:
    the very same, but for packets sealed and opened under it; or the one that
    waited beside it, and then only once that one is proven (our own initiation
    completed by the reply, or a frame that opened under it), with the old one
    retired and still there to open late frames. Two exceptions: the sweep once
    the session is past its hard limit, and a view that no longer publishes the
    key it was made with. *)
Theorem working_session_kept kind s s' peer p c :
  ep_step kind s s' → st_sessions (en_sessions s.1) !! peer = Some p → pss_current p = Some c → is_ready c = true →
  (∃ p' c', st_sessions (en_sessions s'.1) !! peer = Some p' ∧ pss_current p' = Some c' ∧ is_ready c' = true ∧
     (used c c' ∨
      ∃ n n1 v at_, pss_next p = Some n ∧ proven n n1 ∧ used n1 c' ∧ pss_previous p' = Some (v, at_) ∧ used c v)) ∨
  (∃ now, s'.1 = expire_sessions s.1 now ∧ must_expire c now = true) ∨
  (∃ relogged published, s.2 = Some (relogged, published) ∧ stale_session (k ← published !! peer; k) c = true).
Proof.
  intros Hstep Hp Hc Hr. assert (ready_b (pss_current p) = true) as Hrdy by by rewrite Hc.
  assert (∀ e' p', st_sessions (en_sessions e') !! peer = Some p' → carried_or_switched p p' → ∃ p' c',
    st_sessions (en_sessions e') !! peer = Some p' ∧ pss_current p' = Some c' ∧ is_ready c' = true ∧ (used c c' ∨
      ∃ n n1 v at_, pss_next p = Some n ∧ proven n n1 ∧ used n1 c' ∧ pss_previous p' = Some (v, at_) ∧ used c v)) as Hcs.
  { intros e' p' Hp' [[HC _]|(c0 & n & n1 & c' & v & at_ & H1 & H2 & H3 & H4 & H5 & H6 & H7)].
    - destruct (HC _ Hc) as (c' & Hc' & Hu). exists p', c'. split_and!; [done..|by rewrite (used_ready _ _ Hu)|by left].
    - simplify_eq. exists p', c'. split_and!; [done..|rewrite (used_ready _ _ H4); by eapply proven_ready|]. right. by exists n, n1, v, at_. }
  assert (∀ e w e', s = (e, w) → switches e e' → ∃ p' c',
    st_sessions (en_sessions e') !! peer = Some p' ∧ pss_current p' = Some c' ∧ is_ready c' = true ∧ (used c c' ∨
      ∃ n n1 v at_, pss_next p = Some n ∧ proven n n1 ∧ used n1 c' ∧ pss_previous p' = Some (v, at_) ∧ used c v)) as Hsw.
  { intros e w e' -> (_ & _ & K). destruct (tk_work _ _ _ _ (K (λ _ _, True) (λ _, Build_stable _ (λ _ _ _, I) (λ _ _ _ _, I) (λ _ _ _, I))
      (λ _ _ _, I)) peer p Hp Hrdy) as (p' & Hp' & HR). by eapply Hcs. }
  assert (∀ e w e', s = (e, w) → keeps e e' → _) as Hk by (intros e w e' He K; eapply (Hsw e w e' He); by apply keeps_switches).
  destruct Hstep as [e w owner pkt up now clock|e w pr msg up now now'|e w pr up now|e w src ctr ct now|e w src inner
    |e w d|e w now|e w cn|e w mtu|e w tg|e w|e w hosts nets|e w pol|e w net node|e members _|e relogged published|e members _]; cbn [fst snd] in *;
    try (left; eapply Hcs; [exact Hp|by left]).
  - left. eapply Hk; [done|apply keeps_outbound].
  - left. eapply Hsw; [done|apply sw_handshake].
  - left. eapply Hk; [done|apply keeps_flush].
  - left. eapply Hsw; [done|apply sw_unseal].
  - left. eapply Hk; [done|apply keeps_deliver].
  - left. eapply Hk; [done|apply keeps_note].
  - destruct (must_expire c now) eqn:Em; [eauto|]. left. destruct (expire_work e now peer p c Hp Hc Hr Em) as (p' & Hp' & Hc').
    exists p', c. split_and!; [done..|left; apply rtc_refl].
  - destruct (stale_session (k ← published !! peer; k) c) eqn:Es; [eauto 10|]. left.
    destruct (sync_work e relogged published peer p c Hp Hc Es) as (p' & Hp' & Hc'). exists p', c. split_and!; [done..|left; apply rtc_refl].
Qed.

(** ** Replayed handshakes *)

(** Steps during which [peer] neither logs in again nor changes its key. *)
Definition quiet (kind : EpKind) (peer : Z) (k : list Z) (s s' : EpState) : Prop :=
  ep_step kind s s' ∧ ∀ relogged published, s.2 = Some (relogged, published) → (peer ∉ relogged) ∧ published !! peer = Some (Some k).

Definition mark_of (peer : Z) (k : list Z) (e : Engine) : option Tai64n := st_last_handshake_ts (en_sessions e) !! (peer, k).

Lemma forget_others relogged peer k t : peer ∉ relogged →
  st_last_handshake_ts (foldl forget_handshake_ts t relogged) !! (peer, k) = st_last_handshake_ts t !! (peer, k).
Proof.
  revert t. induction relogged as [|r rs IH]; intros t Hn; [done|]. apply not_elem_of_cons in Hn as [Hr Hn]. cbn. rewrite IH by done. cbn.
  rewrite map_lookup_filter. destruct (st_last_handshake_ts t !! (peer, k)); [|done]. cbn. by rewrite option_guard_True.
Qed.

Lemma quiet_marks kind peer k s s' w : quiet kind peer k s s' → mark_of peer k s.1 = Some w →
  ident s'.1 = ident s.1 ∧ ∃ w', mark_of peer k s'.1 = Some w' ∧ tai_leb w w' = true.
Proof.
  intros [Hstep Hq] Hw. unfold mark_of in *.
  assert (∀ e w2 e', s = (e, w2) → switches e e' →
    ident e' = ident s.1 ∧ ∃ w', st_last_handshake_ts (en_sessions e') !! (peer, k) = Some w' ∧ tai_leb w w' = true) as Hsw.
  { intros e w2 e' -> (_ & Hi & K). split; [done|]. by apply (tk_marks _ _ _ _ (K (λ _ _, True) (λ _, Build_stable _ (λ _ _ _, I) (λ _ _ _ _, I) (λ _ _ _, I)) (λ _ _ _, I))). }
  assert (∀ e w2 e', s = (e, w2) → keeps e e' → _) as Hk by (intros e w2 e' He K; eapply (Hsw e w2 e' He); by apply keeps_switches).
  destruct Hstep as [e w2 owner pkt up now clock|e w2 pr msg up now now'|e w2 pr up now|e w2 src ctr ct now|e w2 src inner
    |e w2 d|e w2 now|e w2 cn|e w2 mtu|e w2 tg|e w2|e w2 hosts nets|e w2 pol|e w2 net node|e members _|e relogged published|e members _]; cbn [fst snd] in *;
    try (split; [done|]; exists w; split; [exact Hw|apply tai_leb_refl]).
  - eapply Hk; [done|apply keeps_outbound].
  - eapply Hsw; [done|apply sw_handshake].
  - eapply Hk; [done|apply keeps_flush].
  - eapply Hsw; [done|apply sw_unseal].
  - eapply Hk; [done|apply keeps_deliver].
  - eapply Hk; [done|apply keeps_note].
  - destruct (Hq _ _ eq_refl) as [Hn Hpub]. split; [done|]. exists w. split; [|apply tai_leb_refl]. cbn.
    apply map_lookup_filter_Some_2; [by rewrite forget_others|]. cbn. by rewrite Hpub.
Qed.

Lemma quiet_path kind peer k s s' w : rtc (quiet kind peer k) s s' → mark_of peer k s.1 = Some w →
  ident s'.1 = ident s.1 ∧ ∃ w', mark_of peer k s'.1 = Some w' ∧ tai_leb w w' = true.
Proof.
  intros Hr. revert w. induction Hr as [s|s1 s2 s3 H12 _ IH]; intros w Hw; [split; [done|]; eauto using tai_leb_refl|].
  destruct (quiet_marks _ _ _ _ _ _ H12 Hw) as (I1 & w2 & Hw2 & L1). destruct (IH _ Hw2) as (I2 & w3 & Hw3 & L2).
  split; [congruence|]. eauto using tai_leb_trans.
Qed.

(** The answer to a message depends on the time only in the age of the session. *)
Lemma respond_later keys peer uuid me msg now now' s reply ts : respond keys peer uuid me msg now = Ok (s, reply, ts) →
  ∃ s', respond keys peer uuid me msg now' = Ok (s', reply, ts) ∧ peer_static s' = peer_static s.
Proof.
  unfold respond. destruct (build_responder _ _) as [h|]; cbn; [|done]. destruct (hs_read _ _) as [h1 [pl|]]; cbn; [|done].
  destruct (hs_write _ _) as [[h2 m2]|]; cbn; [|done]. destruct (into_transport_mode _) as [t|]; cbn; [|done].
  intros [= <- <- <-]. eexists. split; [done|]. done.
Qed.

(** An accepted message leaves its timestamp behind. *)
Lemma answer_marks e peer msg carried now e1 f : handshake_answer e peer msg carried now = (e1, Some f) →
  ∃ s reply ts k, respond (en_keys e) peer (en_network_uuid e) (en_my_node_id e) msg now = Ok (s, reply, ts) ∧
    peer_static s = Some k ∧ pubkey_of (en_peers e) peer = Some k ∧ mark_of peer k e1 = Some ts ∧ ident e1 = ident e.
Proof.
  unfold handshake_answer. destruct (respond _ _ _ _ _ _) as [[[s reply] ts]|]; [|done]. destruct (peer_static s) as [got|] eqn:Eg; [|done].
  destruct (pubkey_of (en_peers e) peer) as [want|] eqn:Ew; [|done]. case_bool_decide as Heq; [|done]. subst got.
  destruct (accept_handshake_ts _ _ _ _) as [st fresh] eqn:Ea. destruct fresh; cbn; [|done]. intros [= <- _].
  exists s, reply, ts, want. split_and!; try done. unfold mark_of. cbn.
  assert (∀ t q, st_last_handshake_ts (foldl (λ t p, (queue t peer p).1) t q) = st_last_handshake_ts t) as ->.
  { intros t q. revert t. induction q as [|p q IH]; intros t; [done|]. cbn. by rewrite IH. }
  cbn. unfold accept_handshake_ts in Ea. by repeat case_match; simplify_eq; cbn; rewrite lookup_insert_eq.
Qed.

(** A replayed handshake is refused. Once an endpoint has answered a first
    message, that message is refused ever after: through any sequence of steps
    in which the peer neither logs in again nor changes its key, delivering it
    again sends nothing and changes nothing but a drop counter (the endpoint
    having no handshake of its own in flight with that peer). *)
Theorem replayed_handshake_refused kind e peer msg carried now e1 f k w e2 w2 up now2 now2' :
  handshake_answer e peer msg carried now = (e1, Some f) → pubkey_of (en_peers e) peer = Some k →
  rtc (quiet kind peer k) (e1, w) (e2, w2) →
  next_in_flight (en_sessions e2) peer = None →
  (∀ c, current_of (en_sessions e2) peer = Some c → is_ready c || negb (ps_initiator c) = true) →
  ∃ c, c ∈ [Kdrop_stale_handshake; Kdrop_key_mismatch] ∧ handshake_locked e2 peer msg up now2 now2' = (count c e2, [], false).
Proof.
  intros Ha Hk Hpath Hn Hc. apply answer_marks in Ha as (s & reply & ts & k' & Hr & Hst & Hk' & Hm & Hi).
  rewrite Hk in Hk'. injection Hk' as <-.
  destruct (quiet_path _ _ _ _ _ _ Hpath Hm) as (Hi2 & ts' & Hm2 & Hle). cbn in Hi2, Hm2. unfold ident in *. rewrite Hi in Hi2. injection Hi2 as Eid Eu Ek.
  destruct (respond_later _ _ _ _ _ _ now2 _ _ _ Hr) as (s2 & Hr2 & Hst2).
  unfold handshake_locked, handshake_next. rewrite Hn. unfold handshake_current.
  assert ((match current_of (en_sessions e2) peer with Some c => negb (is_ready c) && ps_initiator c | None => false end) = false) as Hcur.
  { destruct (current_of _ _) as [c|]; [|done]. specialize (Hc c eq_refl). by destruct (is_ready c), (ps_initiator c). }
  assert (handshake_answer e2 peer msg [] now2 = (count (if bool_decide (pubkey_of (en_peers e2) peer = Some k) then Kdrop_stale_handshake
    else Kdrop_key_mismatch) e2, None)) as Hans.
  { unfold handshake_answer. rewrite Ek, Eu, Eid, Hr2, Hst2, Hst. case_bool_decide as Hb.
    - rewrite Hb. rewrite bool_decide_eq_true_2 by done. unfold accept_handshake_ts. fold (mark_of peer k e2). rewrite Hm2, Hle. by destruct e2.
    - destruct (pubkey_of (en_peers e2) peer) as [want|]; [|done]. rewrite bool_decide_eq_false_2; [done|]. congruence. }
  eexists. split; [|destruct (current_of (en_sessions e2) peer) as [c|]; [rewrite Hcur|]; rewrite Hans; reflexivity].
  case_bool_decide; [left|right; left].
Qed.

(** ** What reaches the TUN *)

Definition is_up (o : Out) : Prop := match o with OutUp _ _ => True | OutTun _ => False end.

Lemma send_all_ups up e fs : Forall is_up (send_all up e fs).2.
Proof.
  revert e. induction fs as [|f fs IH]; intros e; [by constructor|]. cbn [send_all]. unfold send_counted. set (e1 := if up _ _ then _ else _).
  specialize (IH e1). destruct (send_all up e1 fs). by constructor.
Qed.

Lemma flush_ups e peer up now : Forall is_up (flush_pending e peer up now).2.
Proof.
  unfold flush_pending. destruct (negb _); [by constructor|]. destruct (take_pending _ _), (on_current _ _ _). apply send_all_ups.
Qed.

Lemma handshake_locked_ups e peer msg up now now' : Forall is_up (handshake_locked e peer msg up now now').1.2.
Proof.
  assert (∀ os, (handshake_next e peer msg up now now').2 = Some os → Forall is_up os) as H1.
  { unfold handshake_next. intros os. destruct (next_in_flight _ _); [|done]. destruct (finish _ _) as [n r].
    destruct (_ && _); [|by destruct (_ <? _); [|intros [= <-]]]. destruct (seal_keepalive _ _) as [e1 ka].
    set (e2 := en_set_sessions _ e1). pose proof (flush_ups e2 peer up now') as Hf. destruct (flush_pending _ _ _ _) as [e3 os3]. cbn in *.
    intros [= <-]. apply Forall_app. split; [done|]. destruct ka; by repeat constructor. }
  unfold handshake_locked. destruct (handshake_next _ _ _ _ _ _) as [e1 [os|]]; [by apply H1|].
  assert (∀ os, (handshake_current e1 peer msg up now').2 = inl os → Forall is_up os) as H2.
  { unfold handshake_current. intros os. destruct (current_of _ _); [|done]. destruct (_ && _); [|done]. destruct (finish _ _) as [c r].
    destruct (_ && _); [|by destruct (_ <? _); [|intros [= <-]]].
    set (e2 := count _ _). pose proof (flush_ups e2 peer up now') as Hf. destruct (flush_pending _ _ _ _) as [e3 os3]. cbn in *.
    by intros [= <-]. }
  destruct (handshake_current _ _ _ _ _) as [e2 [os|carried]]; [by apply H2|].
  destruct (handshake_answer _ _ _ _ _) as [e3 [f|]]; by repeat constructor.
Qed.

Lemma on_handshake_ups e peer msg up now now' : Forall is_up (on_handshake e peer msg up now now').2.
Proof.
  unfold on_handshake. pose proof (handshake_locked_ups e peer msg up now now') as H1.
  destruct (handshake_locked _ _ _ _ _ _) as [[e1 os] []]; [|done]. pose proof (flush_ups e1 peer up now') as H2.
  destruct (flush_pending _ _ _ _) as [e2 os2]. by apply Forall_app.
Qed.

Lemma unseal_any_from p c ct now v : (unseal_any p c ct now).2 = Ok v → ∃ s, held p s ∧ (unseal s c ct).2 = Ok v.
Proof.
  assert (∀ q errs, (try_previous q c ct now errs).2 = Ok v → ∃ s at_, pss_previous q = Some (s, at_) ∧ (unseal s c ct).2 = Ok v) as H1.
  { intros q errs. unfold try_previous. destruct (pss_previous q) as [[s r]|]; [|done]. destruct (_ <? _); [|done].
    destruct (unseal s c ct) as [s' [x|err]] eqn:Eu; cbn; [|done]. intros [= ->]. exists s, r. by rewrite Eu. }
  assert (∀ q errs, (try_next q c ct now errs).2 = Ok v →
    ∃ s, (pss_next q = Some s ∨ ∃ at_, pss_previous q = Some (s, at_)) ∧ (unseal s c ct).2 = Ok v) as H2.
  { intros q errs. unfold try_next. destruct (ready (pss_next q)) as [s|] eqn:En.
    - apply ready_some in En as [En _]. destruct (unseal s c ct) as [s' [x|err]] eqn:Eu; cbn [snd].
      + intros [= ->]. exists s. rewrite Eu. auto.
      + intros (s0 & at_ & Hp & Hu)%H1. cbn in Hp. eauto.
    - intros (s0 & at_ & Hp & Hu)%H1. eauto. }
  unfold unseal_any, held. destruct (ready (pss_current p)) as [s|] eqn:Ec.
  - apply ready_some in Ec as [Ec _]. destruct (unseal s c ct) as [s' [x|err]] eqn:Eu; cbn [snd].
    + intros [= ->]. exists s. rewrite Eu. auto.
    + intros (s0 & Hp & Hu)%H2. exists s0. cbn in Hp. tauto.
  - intros (s0 & Hp & Hu)%H2. exists s0. tauto.
Qed.

Lemma st_unseal_from t peer c ct now v : (st_unseal t peer c ct now).2 = Ok v →
  ∃ p s, st_sessions t !! peer = Some p ∧ held p s ∧ (unseal s c ct).2 = Ok v.
Proof.
  unfold st_unseal. destruct (st_sessions t !! peer) as [p|]; [|done]. destruct (unseal_any p c ct now) as [p' r] eqn:Eu. cbn.
  intros Hr. destruct (unseal_any_from p c ct now v) as (s & Hs & Hv); [|eauto]. rewrite Eu. cbn. destruct r as [x|[]]; done.
Qed.

Lemma inbound_unseal_from e src ctr ct now : Forall is_up (inbound_unseal e src ctr ct now).2 ∧
  ∀ pkt, (inbound_unseal e src ctr ct now).1.2 = Some pkt → (st_unseal (en_sessions e) src ctr ct now).2 = Ok pkt.
Proof.
  unfold inbound_unseal. destruct (st_unseal _ _ _ _ _) as [s [[|b inner]|err]]; [by split; [constructor|]| |by destruct err; split; [constructor|..]].
  destruct (if keepalive_due _ _ _ then _ else _) as [e1 ka]. cbn. split; [by destruct ka; repeat constructor|]. by intros pkt [= <-].
Qed.

Lemma unseal_transport s c ct v : (unseal s c ct).2 = Ok v → ps_stage s ≠ None ∧ check (ps_replay s) c = true.
Proof.
  unfold unseal. destruct (ps_stage s) as [[h|t]|]; [done| |done]. destruct (check _ _); cbn; [done|]. done.
Qed.

End vouched.

(** ** Two members *)

Module EndpointExample.
#[export] Existing Instance ipnet_ref.
#[export] Existing Instance NoiseExample.noise.
#[export] Existing Instance NoiseExample.noise_laws.
#[export] Existing Instance NoiseExample.noise_static.
#[export] Instance base64 : Base64 := {| b64_encode := bytes_str; b64_decode s := Some (str_bytes s) |}.

Definition addr (n : Z) : Z := 10 * 2 ^ 24 + n.
Definition info (id : Z) (k : StaticKeys) : PeerInfo := mkPeerInfo id "n" Client [Net4 (addr id) 32] (b64_encode (sk_public k)) true 0.
Definition view : list PeerInfo := [info 1 NoiseExample.kA; info 2 NoiseExample.kB].
Definition fresh (id : Z) (k : StaticKeys) : Engine := engine_new id "u" k (set_mine [Net4 (addr id) 32] [] (peers_new id)) 1350 1.
Definition a : Engine := sync_peers (fresh 1 NoiseExample.kA) view.
Definition b : Engine := sync_peers (fresh 2 NoiseExample.kB) view.
Definition packet : list Z := PeersExample.packet [10; 0; 0; 1] [10; 0; 0; 2].
Definition up (f : list Z) (lane : Z) : bool := true.
Definition clock : Tai64n := mkTai64n 1000 5.

(** The frames of the first packet, one by one. *)
Definition frame_of (r : Engine * list Out) : list Z := match r.2 with OutUp f _ :: _ => f | _ => [] end.
Definition a1 := outbound a packet up 1000 clock.
Definition b1 := inbound b (frame_of a1) up 1001 1001.
Definition a2 := inbound a1.1 (frame_of b1) up 1002 1002.
Definition b2 := inbound b1.1 (frame_of a2) up 1003 1003.

Definition b1_peer : PeerSessions := default pss_default (st_sessions (en_sessions b1.1) !! 1).
Definition b1_session : PairSession := default (NoiseExample.session true) (pss_current b1_peer).

Definition msg1 : list Z := drop 15 (frame_of a1).
Definition answered := handshake_answer b 1 msg1 [] 1001.
Definition flushed : Engine := (flush_pending answered.1 1 up 1001).1.

Lemma answered_some : handshake_answer b 1 msg1 [] 1001 = (answered.1, Some (default [] answered.2)).
Proof.
  fold answered. assert (is_none answered.2 = false) as H by (vm_compute; reflexivity). by destruct answered as [e [f|]].
Qed.

(** A frame that is no handshake message, to the node with the lower id while
    its own first handshake is in flight: it yields, has nothing to answer, and
    the packets it had queued are gone. *)
Lemma yielding_loses_queue :
  let e := (inbound a1.1 (build_frame b T_HANDSHAKE 1 [7; 7] None []) up 1001 1001).1 in
  pending_len (en_sessions a1.1) 2 = 1%nat ∧ pending_len (en_sessions e) 2 = 0%nat ∧ st_has (en_sessions e) 2 = false.
Proof. vm_compute. done. Qed.

Lemma b1_reach : ep_reach ClientEnd (b1.1, None).
Proof. apply inbound_reach, sync_reach. eexists. apply ran_start. Qed.

Lemma b1_lookup : st_sessions (en_sessions b1.1) !! 1 = Some b1_peer.
Proof.
  assert (is_none (st_sessions (en_sessions b1.1) !! 1) = false) as H by (vm_compute; reflexivity). unfold b1_peer.
  by destruct (st_sessions (en_sessions b1.1) !! 1).
Qed.

Lemma b1_current : pss_current b1_peer = Some b1_session.
Proof.
  assert (is_none (pss_current b1_peer) = false) as H by (vm_compute; reflexivity). unfold b1_session. by destruct (pss_current b1_peer).
Qed.

(** The same at a relay: the view replaces the peer table, and no more. *)
Definition relay_b : Engine := let e := fresh 2 NoiseExample.kB in en_set_peers (replace_all (en_peers e) view) e.
Lemma relay_b1_reach : ep_reach RelayEnd ((inbound relay_b (frame_of a1) up 1001 1001).1, None).
Proof. apply inbound_reach. eapply ep_reach_step; [eexists; apply ran_start|]. by apply ep_replace. Qed.
End EndpointExample.

#[local] Existing Instance ipnet_ref.
#[local] Existing Instance NoiseExample.noise.
#[local] Existing Instance NoiseExample.noise_static.
#[local] Existing Instance EndpointExample.base64.



Lemma working_session_kept_witness :
  ∃ p' c', st_sessions (en_sessions (handshake_locked EndpointExample.b1.1 1 [7; 7] EndpointExample.up 1004 1004).1.1) !! 1 = Some p' ∧
    pss_current p' = Some c' ∧ is_ready c' = true ∧ used EndpointExample.b1_session c'.
Proof.
  destruct (working_session_kept ClientEnd (EndpointExample.b1.1, None) _ 1 EndpointExample.b1_peer EndpointExample.b1_session
    (ep_handshake ClientEnd EndpointExample.b1.1 None 1 [7; 7] EndpointExample.up 1004 1004))
    as [(p' & c' & Hp & Hc & Hr & [Hu|(n & n1 & v & at_ & Hn & _)])|[[now [_ H]]|(r & p & H & _)]];
    [exact EndpointExample.b1_lookup|exact EndpointExample.b1_current|vm_compute; reflexivity| | | |discriminate H].
  - exists p', c'. split; [exact Hp|]. split; [exact Hc|]. split; [exact Hr|exact Hu].
  - exfalso. assert (is_none (pss_next EndpointExample.b1_peer) = true) as Hnone by (vm_compute; reflexivity). rewrite Hn in Hnone. discriminate Hnone.
  - exists EndpointExample.b1_peer, EndpointExample.b1_session. split; [vm_cast_no_check (eq_refl (Some EndpointExample.b1_peer))|].
    split; [exact EndpointExample.b1_current|]. split; [vm_compute; reflexivity|apply rtc_refl].
Defined.

Lemma replayed_handshake_refused_witness :
  ∃ c, c ∈ [Kdrop_stale_handshake; Kdrop_key_mismatch] ∧
    handshake_locked EndpointExample.flushed 1 EndpointExample.msg1 EndpointExample.up 1010 1010 = (count c EndpointExample.flushed, [], false).
Proof.
  apply (replayed_handshake_refused ClientEnd EndpointExample.b 1 EndpointExample.msg1 [] 1001
    EndpointExample.answered.1 (default [] EndpointExample.answered.2) (sk_public NoiseExample.kA) None EndpointExample.flushed None).
  - exact EndpointExample.answered_some.
  - vm_compute. reflexivity.
  - apply rtc_once. split; [constructor|discriminate].
  - vm_compute. reflexivity.
  - intros c. assert (current_of (en_sessions EndpointExample.flushed) 1 = Some EndpointExample.b1_session) as Hc
      by (vm_cast_no_check (eq_refl (Some EndpointExample.b1_session))).
    rewrite Hc. intros Hs. assert (c = EndpointExample.b1_session) as -> by congruence. vm_compute. reflexivity.
Defined.
