(* ===== verification/EndToEnd.v ===== *)
(** * Two endpoints (crates/nqvpn-endpoint/src/engine.rs)

    The data planes of two members composed: a packet that finds no session
    starts a handshake, waits for it, and comes out at the other end. *)

From S2P Require Import Prelude Ordered Ipnet Text Frame Control Replay Seal Flow Lpm Peers Sessions Engine Endpoint.

#[local] Arguments send_counted : simpl never.
#[local] Arguments build_frame : simpl never.
#[local] Arguments st_initiate_at : simpl never.
#[local] Arguments on_current : simpl never.
#[local] Arguments note_sent : simpl never.
#[local] Arguments flush_pending : simpl never.
#[local] Arguments finish : simpl never.
#[local] Arguments respond : simpl never.
#[local] Arguments queue : simpl never.
#[local] Arguments seal : simpl never.
#[local] Arguments unseal : simpl never.
#[local] Arguments header_write : simpl never.

(** A frame as it arrives behind any number of relays. *)
Definition carried (f f' : list Z) : Prop := ∃ n, relays_bump n f = Some f'.

Lemma carried_shape f f' : carried f f' → f' = f ∨ ∃ x, f' = <[OFF_HOP := x]> f.
Proof.
  intros [n Hn]. revert f Hn. induction n as [|n IH]; intros f Hn; cbn in Hn; [left; congruence|].
  unfold bump_hop in Hn. destruct (_ <? _)%nat; [done|]. destruct (_ <? _); [done|].
  right. destruct (IH _ Hn) as [->|[x ->]]; [eauto|]. exists x. by rewrite list_insert_insert_eq.
Qed.

Section two.
Context `{O : IpNetOps, T : TrieOps, B : Base64, N : NoiseLib, LW : !NoiseLaws N}.

Definition frame_body (ctr : option Z) (body : list Z) : list Z := match ctr with Some c => to_be 8 c | None => [] end ++ body.

Definition carried_to (e : Engine) (src kind : Z) (body f : list Z) : Prop :=
  head f = Some kind ∧ drop ROUTED_HEADER_LEN f = body ∧
  ∃ h, header_parse f = Some h ∧ rh_kind h = kind ∧ rh_src_id h = src ∧ rh_dst_id h = en_my_node_id e.

(** What the receiver reads of a frame that [build_frame] built. *)
Lemma frame_arrives e e' kind body ctr packet f' :
  kind = T_DATA ∨ kind = T_HANDSHAKE → u_range 32 (en_my_node_id e) → u_range 32 (en_my_node_id e') →
  carried (build_frame e kind (en_my_node_id e') body ctr packet) f' →
  carried_to e' (en_my_node_id e) kind (frame_body ctr body) f'.
Proof.
  intros Hk Hs Hd Hc. unfold carried_to, build_frame in *. set (dst := en_my_node_id e') in *.
  set (h := mkRoutedHeader kind (en_my_node_id e) dst _ 0 (trace_id packet)) in Hc. fold (frame_body ctr body) in Hc.
  assert (wf_header h) as Hw.
  { assert (∀ b : bool, u_range 8 (if b then Z.lor 0 FLAG_TRACE else 0)) as Hf by by intros [].
    split_and!; try done; [apply Hf|by apply trace_id_range]. }
  pose proof (header_parse_write h (frame_body ctr body) Hw) as Hp.
  assert (length (header_write h []) = ROUTED_HEADER_LEN) as Hlen by (unfold header_write; rewrite !length_app, !to_be_length; done).
  assert (head (header_write h [] ++ frame_body ctr body) = Some kind) as Hh by done.
  assert (drop ROUTED_HEADER_LEN (header_write h [] ++ frame_body ctr body) = frame_body ctr body) as Hb by (rewrite <- Hlen; apply drop_app_length).
  destruct (carried_shape _ _ Hc) as [->|[x ->]]; [split_and!; eauto 10|].
  split; [|split].
  - rewrite <- Hh. destruct (header_write h [] ++ frame_body ctr body); [done|]. done.
  - rewrite drop_insert_lt by (unfold ROUTED_HEADER_LEN, OFF_HOP; lia). done.
  - exists (with_hop h x). split; [by apply header_parse_set_hop|]. done.
Qed.

(** ** The sender starts a handshake *)

Definition fresh_sessions (s : PairSession) : PeerSessions := mkPeerSessions (Some s) None None None 0.

Lemma outbound_first a idB pkt src dst q up now clock pk sA m1 :
  Z.of_nat (length pkt) ≤ en_mtu a → parse_inner_addrs pkt = Some (src, dst) →
  is_mine_host (en_peers a) dst = false → owner_of (en_peers a) dst = Some idB →
  st_sessions (en_sessions a) !! idB = None → default [] (st_pending (en_sessions a) !! idB) = q → (length q < PENDING_LIMIT)%nat →
  pubkey_of (en_peers a) idB = Some pk →
  initiate_at (en_keys a) idB pk (en_network_uuid a) (en_my_node_id a) now (next_ts a clock).2 = Ok (sA, m1) →
  ∃ a1 a', outbound a pkt up now clock = (a1, [OutUp (build_frame a' T_HANDSHAKE idB m1 None pkt) LANE_DEFAULT]) ∧
    en_my_node_id a' = en_my_node_id a ∧ en_my_node_id a1 = en_my_node_id a ∧
    st_sessions (en_sessions a1) !! idB = Some (fresh_sessions sA) ∧ st_pending (en_sessions a1) !! idB = Some (q ++ [pkt]).
Proof.
  intros Hm Hp Hh Ho Hs Hq Hl Hpk Hi. unfold outbound. rewrite (proj2 (Z.ltb_ge _ _)), Hp, Hh, Ho by lia.
  unfold outbound_send, st_is_ready, current_of, st_has. rewrite Hs. cbn. rewrite Hpk. cbn.
  unfold queue. rewrite Hq. rewrite (proj2 (Nat.leb_gt _ _)) by done. cbn. unfold st_initiate_at. cbn.
  unfold next_ts in Hi. cbn in Hi. rewrite Hi. cbn. eexists _, _. split; [done|]. cbn. rewrite !lookup_insert_eq, Hs. done.
Qed.

(** ** The receiver answers *)

Lemma on_current_some {A} t peer p s (f : PairSession → PairSession * A) :
  st_sessions t !! peer = Some p → pss_current p = Some s →
  on_current t peer f = (on_peer t peer (set_current (Some (f s).1)), Some (f s).2).
Proof. intros Hp Hs. unfold on_current, current_of. rewrite Hp. cbn. rewrite Hs. by destruct (f s). Qed.

Lemma flush_empty e peer p s up now :
  st_sessions (en_sessions e) !! peer = Some p → pss_current p = Some s → is_ready s = true → st_pending (en_sessions e) !! peer = None →
  (flush_pending e peer up now).2 = [] ∧ st_sessions (en_sessions (flush_pending e peer up now).1) !! peer = Some p ∧
  en_my_node_id (flush_pending e peer up now).1 = en_my_node_id e ∧ en_peers (flush_pending e peer up now).1 = en_peers e.
Proof.
  intros Hp Hs Hr Hq. unfold flush_pending, st_is_ready, current_of. rewrite Hp. cbn. rewrite Hs. cbn. rewrite Hr. cbn.
  rewrite (on_current_some _ _ p s) by done. rewrite Hq. cbn. rewrite lookup_alter_eq, Hp. cbn. by destruct p; cbn in *; subst.
Qed.

Lemma inbound_answer b idA f1 m1 up now now' sB m2 ts :
  carried_to b idA T_HANDSHAKE m1 f1 → st_sessions (en_sessions b) !! idA = None → st_pending (en_sessions b) !! idA = None →
  respond (en_keys b) idA (en_network_uuid b) (en_my_node_id b) m1 now = Ok (sB, m2, ts) → is_ready sB = true →
  is_Some (peer_static sB) → peer_static sB = pubkey_of (en_peers b) idA →
  (∀ k last, peer_static sB = Some k → st_last_handshake_ts (en_sessions b) !! (idA, k) = Some last → tai_leb ts last = false) →
  ∃ b1 b', inbound b f1 up now now' = (b1, [OutUp (build_frame b' T_HANDSHAKE idA m2 None []) LANE_DEFAULT]) ∧
    en_my_node_id b' = en_my_node_id b ∧ en_my_node_id b1 = en_my_node_id b ∧ en_peers b1 = en_peers b ∧
    st_sessions (en_sessions b1) !! idA = Some (fresh_sessions sB).
Proof.
  intros (Hh & Hb & h & Hp & Hk & Hsrc & Hdst) Hs Hq Hr Hrdy [k Hst] Hpk Hw. unfold inbound. rewrite Hh, Hp, Hdst, Hk, Hb, Hsrc.
  rewrite bool_decide_eq_false_2 by done. rewrite Z.eqb_refl. cbn [negb]. rewrite Z.eqb_refl.
  unfold on_handshake, handshake_locked, handshake_next, handshake_current, next_in_flight, current_of. rewrite Hs. cbn. rewrite Hs. cbn.
  unfold handshake_answer. rewrite Hr, <- Hpk, Hst. rewrite bool_decide_eq_true_2 by done.
  assert (∃ st, accept_handshake_ts (en_sessions b) idA k ts = (st, true) ∧ st_sessions st = st_sessions (en_sessions b) ∧
    st_pending st = st_pending (en_sessions b)) as (st & -> & Es & Ep).
  { unfold accept_handshake_ts. destruct (st_last_handshake_ts (en_sessions b) !! (idA, k)) as [last|] eqn:El; [|by eexists].
    rewrite (Hw _ _ Hst El). by eexists. }
  cbn. set (e1 := count _ _).
  assert (st_sessions (en_sessions e1) !! idA = Some (fresh_sessions sB)) as H1.
  { subst e1. cbn. rewrite lookup_insert_eq, Es, Hs. done. }
  destruct (flush_empty e1 idA (fresh_sessions sB) sB up now') as (F1 & F2 & F3 & F4); [done..| |].
  { subst e1. cbn. by rewrite Ep. }
  destruct (flush_pending e1 idA up now') as [e2 os]. cbn in *. subst os. eexists _, e1. split; [done|]. rewrite F2, F3, F4. done.
Qed.

Lemma initiate_shape keys peer pk uuid me now ts s m :
  initiate_at keys peer pk uuid me now ts = Ok (s, m) → is_ready s = false ∧ ps_initiator s = true.
Proof.
  unfold initiate_at. destruct (build_initiator _ _ _); cbn; [|done]. destruct (hs_write _ _) as [[]|]; cbn; [|done]. by intros [= <- _].
Qed.

(** ** The sender finishes and sends what waited *)

Definition data_frame (e : Engine) (peer : Z) (c : Z * list Z) (pkt : list Z) : list Z * Z :=
  (build_frame e T_DATA peer c.2 (Some c.1) pkt, lane_for pkt (en_lanes e)).
Definition up_out (f : list Z * Z) : Out := OutUp f.1 f.2.

Lemma seal_queued_all e peer s q cs :
  (seal_all s q).2 = Ok <$> cs → (seal_queued e peer s q).2 = zip_with (data_frame e peer) cs q.
Proof.
  revert s cs. induction q as [|pkt q IH]; intros s cs Hc; cbn in *; [by destruct cs|].
  destruct (seal s pkt) as [s1 r]. specialize (IH s1). destruct (seal_all s1 q) as [s2 rs]. cbn in Hc.
  destruct cs as [|c cs]; [done|]. injection Hc as -> Hc. specialize (IH cs Hc). destruct (seal_queued e peer s1 q) as [s3 fs]. cbn in *.
  destruct c as [ctr ct]. cbn. by rewrite IH.
Qed.

Lemma send_all_outs up e fs : (send_all up e fs).2 = up_out <$> fs.
Proof.
  revert e. induction fs as [|f fs IH]; intros e; [done|]. cbn [send_all]. unfold send_counted. set (e1 := if up _ _ then _ else _).
  specialize (IH e1). destruct (send_all up e1 fs). cbn in *. by rewrite IH.
Qed.

Lemma inbound_finish a idB f2 m2 up now now' sA sA' q cs :
  carried_to a idB T_HANDSHAKE m2 f2 → st_sessions (en_sessions a) !! idB = Some (fresh_sessions sA) →
  st_pending (en_sessions a) !! idB = Some q → is_ready sA = false → ps_initiator sA = true →
  finish sA m2 = (sA', Ok tt) → is_ready sA' = true → (seal_all sA' q).2 = Ok <$> cs →
  ∃ a', (inbound a f2 up now now').2 = up_out <$> zip_with (data_frame a' idB) cs q ∧ en_my_node_id a' = en_my_node_id a.
Proof.
  intros (Hh & Hb & h & Hp & Hk & Hsrc & Hdst) Hs Hq Hr Hi Hf Hr' Hcs. unfold inbound. rewrite Hh, Hp, Hdst, Hk, Hb, Hsrc.
  rewrite bool_decide_eq_false_2 by done. rewrite Z.eqb_refl. cbn [negb]. rewrite Z.eqb_refl.
  unfold on_handshake, handshake_locked, handshake_next, handshake_current, next_in_flight, current_of. rewrite Hs. cbn. rewrite Hs. cbn.
  rewrite Hr, Hi. cbn. rewrite Hf. cbn. rewrite Hr'. cbn.
  set (e1 := count _ _).
  assert (st_sessions (en_sessions e1) !! idB = Some (fresh_sessions sA')) as H1 by (subst e1; cbn; by rewrite lookup_alter_eq, Hs).
  assert (st_pending (en_sessions e1) !! idB = Some q) as H2 by done.
  exists e1. split; [|done]. clearbody e1. unfold flush_pending, st_is_ready, current_of. rewrite H1. cbn. rewrite Hr'. cbn.
  rewrite (on_current_some _ _ (fresh_sessions sA') sA') by done. rewrite H2. cbn.
  rewrite (seal_queued_all e1 idB sA' q cs Hcs). set (e2 := en_set_sessions _ e1).
  pose proof (send_all_outs up e2 (zip_with (data_frame e1 idB) cs q)) as Ho. by destruct (send_all _ _ _).
Qed.

(** ** The receiver opens them *)

Definition tun_of (os : list Out) : list (list Z) := omap (λ o, match o with OutTun p => Some p | OutUp _ _ => None end) os.

Fixpoint inbound_all (e : Engine) (fs : list (list Z)) (up : list Z → Z → bool) (now : nat → Z) : Engine * list Out :=
  match fs with
  | [] => (e, [])
  | f :: fs' =>
      let '(e, os) := inbound e f up (now 0%nat) (now 0%nat) in
      let '(e, os') := inbound_all e fs' up (λ i, now (S i)) in (e, os ++ os')
  end.

(** [e] holds for [src] a working session that opens what [t1] seals, its
    window having seen [hist]. *)
Definition receives (e : Engine) (src : Z) (t1 : TransportState) (hist : list Z) : Prop :=
  ∃ p s t, st_sessions (en_sessions e) !! src = Some p ∧ pss_current p = Some s ∧ transport_of s t ∧ can_open t1 t ∧
    window_repr (ps_replay s) hist.

Lemma keepalive_receives e src t1 hist : receives e src t1 hist → receives (seal_keepalive e src).1 src t1 hist.
Proof.
  intros (p & s & t & Hp & Hs & Ht & Ho & Hw). unfold seal_keepalive. rewrite (on_current_some _ _ p s) by done. cbn.
  unfold receives. cbn. rewrite lookup_alter_eq, Hp. cbn. exists (set_current (Some (seal s []).1) p), (seal s []).1, (ts_write t []).1.
  split; [done|]. split; [done|]. unfold seal, transport_of in *. rewrite Ht. pose proof (noise_write_keeps t1 t [] Ho) as Hk.
  by destruct (ts_write t []) as [t' [out|err]].
Qed.

Lemma note_sent_receives e src peer now t1 hist :
  receives e src t1 hist → receives (en_set_sessions (note_sent (en_sessions e) peer now) e) src t1 hist.
Proof.
  intros (p & s & t & Hp & Hs & Ht & Ho & Hw). unfold receives, note_sent. cbn. destruct (decide (peer = src)) as [->|Hne].
  - rewrite lookup_alter_eq, Hp. cbn. eexists _, s, t. done.
  - rewrite lookup_alter_ne by done. exists p, s, t. done.
Qed.

(** A packet opened, and perhaps answered with a keepalive. *)
Lemma unseal_receives e src t1 hist c ct pkt now :
  receives e src t1 hist → u_range 64 c → opens_to t1 (c, ct) pkt → spec_check hist c = true → pkt ≠ [] →
  ∃ e1 os, inbound_unseal e src c ct now = (e1, Some pkt, os) ∧ tun_of os = [] ∧ receives e1 src t1 (c :: hist) ∧
    en_peers e1 = en_peers e ∧ en_my_node_id e1 = en_my_node_id e.
Proof.
  intros (p & s & t & Hp & Hs & Ht & Ho & Hw) Hc Hop Hsc Hne.
  assert (check (ps_replay s) c = true) as Hchk by (rewrite (check_spec _ hist) by (done || apply Hc); done).
  destruct (unseal_ok s t1 t (c, ct) pkt Ht Ho Hop Hchk) as (t' & Hu & Ht' & Ho' & Hw'). cbn in Hu, Ht', Hw'.
  assert (unseal_any p c ct now = (set_current (Some (unseal s c ct).1) p, Ok pkt)) as Hany.
  { unfold unseal_any, ready. rewrite Hs. cbn. assert (is_ready s = true) as -> by (unfold is_ready; by rewrite Ht).
    destruct (unseal s c ct) as [s' r]. cbn in Hu. by subst r. }
  unfold inbound_unseal, st_unseal. rewrite Hp, Hany. cbn [is_ok]. set (e1 := en_set_sessions _ e).
  assert (receives e1 src t1 (c :: hist)) as R1.
  { unfold receives, e1. cbn. rewrite lookup_insert_eq. eexists _, _, t'. split; [done|]. split; [done|]. split; [done|]. split; [done|].
    rewrite Hw'. apply commit_repr; [done|apply Hc|done]. }
  assert (en_peers e1 = en_peers e ∧ en_my_node_id e1 = en_my_node_id e) as [P1 I1] by done. clearbody e1.
  destruct pkt as [|b0 pkt]; [done|]. destruct (keepalive_due _ _ _); [|by eexists _, _].
  pose proof (keepalive_receives _ src t1 _ (note_sent_receives e1 src src now t1 _ R1)) as R2.
  unfold seal_keepalive in *. destruct (on_current _ _ _) as [st r]. eexists _, _. split; [done|]. split_and!; [|exact R2|exact P1|exact I1].
  by destruct r as [[[]|]|].
Qed.

Lemma inbound_receive e src t1 hist f c ct pkt up now :
  receives e src t1 hist → carried_to e src T_DATA (frame_body (Some c) ct) f → u_range 64 c →
  opens_to t1 (c, ct) pkt → spec_check hist c = true → check_ingress (en_peers e) src pkt = Accept →
  ∃ e' os, inbound e f up now now = (e', os) ∧ tun_of os = [pkt] ∧ receives e' src t1 (c :: hist) ∧
    en_peers e' = en_peers e ∧ en_my_node_id e' = en_my_node_id e.
Proof.
  intros R (Hh & Hb & h & Hph & Hk & Hsrc & Hdst) Hc Hop Hsc Hin.
  destruct (unseal_receives e src t1 hist c ct pkt now R Hc Hop Hsc ltac:(by intros ->)) as (e1 & os & Hu & Ht & R1 & P1 & I1).
  unfold inbound. rewrite Hh, Hph, Hdst, Hk, Hb, Hsrc. rewrite bool_decide_eq_false_2 by done. rewrite Z.eqb_refl.
  cbn [negb]. rewrite (proj2 (Z.eqb_neq _ _)) by done. rewrite Z.eqb_refl. unfold frame_body.
  rewrite length_app, to_be_length. cbn [Nat.add Nat.ltb Nat.leb].
  rewrite take_app_length' by by rewrite to_be_length. rewrite drop_app_length' by by rewrite to_be_length. rewrite from_to_be_u64 by done.
  rewrite Hu. unfold inbound_deliver. rewrite P1, Hin. eexists _, _. split; [done|]. unfold tun_of in *. rewrite omap_app, Ht. done.
Qed.

(** Counters in order: none refused. *)
Lemma inbound_stream e src t1 hist fs cs pkts up now n :
  receives e src t1 hist → 0 ≤ n → hist = [] ∨ top hist < n →
  Forall2 (λ f c, carried_to e src T_DATA (frame_body (Some c.1) c.2) f) fs cs → Forall2 (opens_to t1) cs pkts →
  (∀ i c, cs !! i = Some c → c.1 = n + Z.of_nat i) → n + Z.of_nat (length pkts) ≤ u64_max →
  Forall (λ pkt, check_ingress (en_peers e) src pkt = Accept) pkts →
  tun_of (inbound_all e fs up now).2 = pkts.
Proof.
  intros R Hn Hh Hf Ho. revert e fs hist now n R Hn Hh Hf. induction Ho as [|c pkt cs pkts Hop Ho IH]; intros e fs hist now n R Hn Hh Hf Hord Hm Hin.
  { by inv Hf. }
  apply Forall2_cons_inv_r in Hf as (f & fs' & Hcar & Hf & ->). inv Hin. pose proof (Hord 0%nat c eq_refl) as Hc.
  destruct c as [c ct]. cbn in Hc. rewrite Z.add_0_r in Hc. subst c. cbn [length] in Hm.
  destruct (inbound_receive e src t1 hist f n ct pkt up (now 0%nat)) as (e1 & os & He & Ht & R1 & P1 & I1); try done.
  { unfold u_range, u64_max in *. lia. }
  { unfold spec_check. destruct Hh as [->|Hh]; [done|]. rewrite (proj2 (Z.ltb_lt _ _)) by done. by rewrite orb_true_r. }
  cbn [inbound_all]. rewrite He. specialize (IH e1 fs' (n :: hist) (λ i, now (S i)) (n + 1) R1).
  destruct (inbound_all e1 fs' up _) as [e2 os'] eqn:Ea. cbn. unfold tun_of in *. rewrite omap_app, Ht. cbn in *. rewrite IH; [done|lia|..].
  - right. destruct Hh as [->|Hh]; unfold top in *; cbn; lia.
  - eapply Forall2_impl; [exact Hf|]. intros g d. unfold carried_to. by rewrite I1.
  - intros i d Hd. rewrite (Hord (S i) d Hd). lia.
  - lia.
  - by rewrite P1.
Qed.

(** ** The two of them *)

Lemma next_ts_wf a clock : wf_tai clock → wf_tai (en_last_ts a) → wf_tai (next_ts a clock).2.
Proof.
  unfold next_ts, tai_succ, wf_tai, u_range, sat_add. cbn. intros [? ?] [? ?]. destruct (tai_leb _ _); [|done].
  destruct (Z.leb_spec 999999999 (ts_nanos (en_last_ts a))); cbn; lia.
Qed.

(** A member's keys, and what its peer publishes for it. *)
Definition wf_keys (k : StaticKeys) : Prop := length (sk_private k) = 32%nat ∧ sk_public k = x25519_public (sk_private k).

(** The two know each other and hold no session: what a first packet finds. *)
Record strangers (a b : Engine) (q : list (list Z)) (pkt : list Z) (clock : Tai64n) : Prop := {
  str_id_a : u_range 32 (en_my_node_id a);
  str_id_b : u_range 32 (en_my_node_id b);
  str_net : en_network_uuid b = en_network_uuid a;
  str_keys_a : wf_keys (en_keys a);
  str_keys_b : wf_keys (en_keys b);
  str_pub_b : pubkey_of (en_peers a) (en_my_node_id b) = Some (sk_public (en_keys b));
  str_pub_a : pubkey_of (en_peers b) (en_my_node_id a) = Some (sk_public (en_keys a));
  str_none_a : st_sessions (en_sessions a) !! en_my_node_id b = None;
  str_none_b : st_sessions (en_sessions b) !! en_my_node_id a = None;
  str_wait_a : default [] (st_pending (en_sessions a) !! en_my_node_id b) = q;
  str_room : (length q < PENDING_LIMIT)%nat;
  str_wait_b : st_pending (en_sessions b) !! en_my_node_id a = None;
  str_clock : wf_tai clock;
  str_last : wf_tai (en_last_ts a);
  str_mark last : st_last_handshake_ts (en_sessions b) !! (en_my_node_id a, sk_public (en_keys a)) = Some last →
    tai_leb (next_ts a clock).2 last = false;
  str_mtu : Z.of_nat (length pkt) ≤ en_mtu a;
  str_sizes : Forall (λ p, Z.of_nat (length p) ≤ NOISE_MAX_PAYLOAD) (q ++ [pkt]);
  str_route : ∃ src dst, parse_inner_addrs pkt = Some (src, dst) ∧ is_mine_host (en_peers a) dst = false ∧
    owner_of (en_peers a) dst = Some (en_my_node_id b);
  str_accept : Forall (λ p, check_ingress (en_peers b) (en_my_node_id a) p = Accept) (q ++ [pkt]);
}.

(** C2: The first packet gets through. Let two members of one network publish
    their keys to each other and hold no session. A packet routed to the other
    makes the sender emit exactly one frame, a handshake; delivered behind any
    number of relays it makes the receiver emit exactly one frame, the answer;
    delivered in turn it makes the sender emit one data frame for each packet
    that waited; and when these arrive in order the receiver writes to its TUN
    exactly those packets in the order they were queued, the one sent last at the
    end.
    Nothing is lost, repeated or altered, at whatever times each step runs and
    whatever the uplinks report. *)
Theorem first_packet_delivered a b q pkt clock upA upB now1 now2 now2' now3 now3' now4 :
  strangers a b q pkt clock →
  ∃ a1 f1, outbound a pkt upA now1 clock = (a1, [OutUp f1 LANE_DEFAULT]) ∧ ∀ f1', carried f1 f1' →
  ∃ b1 f2, inbound b f1' upB now2 now2' = (b1, [OutUp f2 LANE_DEFAULT]) ∧ ∀ f2', carried f2 f2' →
  ∃ fs, (inbound a1 f2' upA now3 now3').2 = up_out <$> fs ∧ ∀ fs', Forall2 carried fs.*1 fs' →
  tun_of (inbound_all b1 fs' upB now4).2 = q ++ [pkt].
Proof.
  intros S. destruct (str_route _ _ _ _ _ S) as (src & dst & Hp & Hm & Ho).
  destruct (str_keys_a _ _ _ _ _ S) as [La Pa], (str_keys_b _ _ _ _ _ S) as [Lb Pb].
  destruct (handshake_completes (en_keys a) (en_keys b) (en_my_node_id a) (en_my_node_id b) (en_network_uuid a) now1 now2 (next_ts a clock).2 La Lb Pa Pb)
    as (sA & m1 & sB & m2 & sA' & tA & tB & H1 & H2 & H3 & H4 & H5 & H6 & H7 & H8 & H9 & H10 & H11 & H12 & H13 & H14 & H15).
  { apply next_ts_wf; apply S. }
  destruct (outbound_first a _ pkt src dst q upA now1 clock _ sA m1 (str_mtu _ _ _ _ _ S) Hp Hm Ho
    (str_none_a _ _ _ _ _ S) (str_wait_a _ _ _ _ _ S) (str_room _ _ _ _ _ S) (str_pub_b _ _ _ _ _ S) H1)
    as (a1 & a' & Ea & Ia' & Ia1 & Sa & Qa).
  eexists a1, _. split; [exact Ea|]. intros f1' C1.
  apply frame_arrives in C1; [|by right|rewrite Ia'; apply S|apply S]. rewrite Ia' in C1.
  destruct (inbound_answer b (en_my_node_id a) f1' m1 upB now2 now2' sB m2 (next_ts a clock).2) as (b1 & b' & Eb & Ib' & Ib1 & Pb1 & Sb);
    [done|apply S|apply S|by rewrite (str_net _ _ _ _ _ S)|done|by rewrite H7|by rewrite H7, (str_pub_a _ _ _ _ _ S)| |].
  { intros k last. rewrite H7. intros [= <-]. apply S. }
  eexists b1, _. split; [exact Eb|]. intros f2' C2. rewrite <- Ia1 in C2.
  apply frame_arrives in C2; [|by right|rewrite Ib'; apply S|rewrite Ia1; apply S]. rewrite Ib' in C2.
  assert (u64_max = 2 ^ 64 - 1) as Hmax by done.
  assert (Z.of_nat (length (q ++ [pkt])) ≤ 64) as Hlen.
  { rewrite length_app. cbn. pose proof (str_room _ _ _ _ _ S) as Hr. unfold PENDING_LIMIT in Hr. lia. }
  destruct (seal_all_spec sA' tA tB (q ++ [pkt]) H10 H12 (str_sizes _ _ _ _ _ S)) as (cs & Hcs & Hops & Hctr); [rewrite H14; lia|].
  destruct (inbound_finish a1 (en_my_node_id b) f2' m2 upA now3 now3' sA sA' (q ++ [pkt]) cs) as (a2 & Eo & Ia2); try done.
  { by apply initiate_shape in H1 as [? _]. }
  { by apply initiate_shape in H1 as [_ ?]. }
  exists (zip_with (data_frame a2 (en_my_node_id b)) cs (q ++ [pkt])). split; [exact Eo|]. intros fs' Hfs.
  apply (inbound_stream b1 (en_my_node_id a) tA [] fs' cs (q ++ [pkt]) upB now4 0).
  - exists (fresh_sessions sB), sB, tB. rewrite H9. split_and!; try done. apply window_default_repr.
  - done.
  - by left.
  - rewrite <- Ib1 in Hfs. apply Forall2_flip. rewrite Ia1 in Ia2. clear -Hfs Hops S Ia2 Ib1.
    remember (q ++ [pkt]) as pk. clear Heqpk. revert fs' Hfs. induction Hops as [|c p cs ps Hop Hops IH]; intros fs' Hfs; cbn in Hfs; [by inv Hfs|].
    apply Forall2_cons_inv_l in Hfs as (f & fs2 & Hc & Hfs & ->). constructor; [|by apply IH]. cbn.
    rewrite <- Ia2. apply (frame_arrives a2 b1 T_DATA c.2 (Some c.1) p); [by left| | |done]; rewrite ?Ia2, ?Ib1; apply S.
  - done.
  - intros i c Hi. rewrite (Hctr _ _ Hi), H14. done.
  - lia.
  - rewrite Pb1. apply S.
Qed.
End two.

(** ** A first packet *)

#[local] Existing Instance ipnet_ref.
#[local] Existing Instance NoiseExample.noise.
#[local] Existing Instance NoiseExample.noise_laws.
#[local] Existing Instance EndpointExample.base64.

Lemma example_strangers : strangers EndpointExample.a EndpointExample.b [] EndpointExample.packet EndpointExample.clock.
Proof.
  split; try by_decide; try (vm_compute; reflexivity); try by vm_compute.
  - eexists _, _. split_and!; vm_compute; reflexivity.
  - constructor; [vm_compute; reflexivity|constructor].
Qed.

Lemma first_packet_delivered_witness :
  ∃ a1 f1, outbound EndpointExample.a EndpointExample.packet EndpointExample.up 1000 EndpointExample.clock = (a1, [OutUp f1 LANE_DEFAULT]) ∧
    ∃ b1 f2, inbound EndpointExample.b f1 EndpointExample.up 1001 1001 = (b1, [OutUp f2 LANE_DEFAULT]) ∧
    ∃ fs, (inbound a1 f2 EndpointExample.up 1002 1002).2 = up_out <$> fs ∧
      tun_of (inbound_all b1 fs.*1 EndpointExample.up (λ _, 1003)).2 = [EndpointExample.packet].
Proof.
  destruct (first_packet_delivered EndpointExample.a EndpointExample.b [] EndpointExample.packet EndpointExample.clock
    EndpointExample.up EndpointExample.up 1000 1001 1001 1002 1002 (λ _, 1003) example_strangers) as (a1 & f1 & E1 & H1).
  exists a1, f1. split; [exact E1|]. destruct (H1 f1) as (b1 & f2 & E2 & H2); [by exists 0%nat|].
  exists b1, f2. split; [exact E2|]. destruct (H2 f2) as (fs & E3 & H3); [by exists 0%nat|].
  exists fs. split; [exact E3|]. apply H3. clear. induction fs.*1; constructor; [by exists 0%nat|done].
Defined.
