(* ===== verification/Pins.v ===== *)
(** * Underlay pins (crates/nqvpn-endpoint/src/routes.rs, [PinJournal], [reconcile_pins])

    Under route-all the hosts the tunnel itself needs are pinned to the real
    default gateway with host routes. They are the only routes that outlive the
    process, so each is journaled to a file. The routing table is a parameter
    ([HostRouteTable]) with laws ([HostLaws]); every change to it or to the file
    is a point at which the process may die. *)

From S2P Require Import Prelude Ordered Ipnet Crash.

(** ** Gateways and the routing table *)

Record Gateway := mkGateway { gw_addr : IpAddr; gw_ifindex : option Z }.

#[export] Instance Gateway_eq_dec : EqDecision Gateway.
Proof. solve_decision. Defined.
#[export] Instance Gateway_countable : Countable Gateway.
Proof.
  refine (inj_countable' (λ g, (gw_addr g, gw_ifindex g)) (λ p, mkGateway p.1 p.2) _). by intros [].
Defined.

Class HostRouteTable (H : Type) := {
  default_gateway : H → bool → option Gateway;
  add_host_route : H → IpAddr → Gateway → H * Result bool string;
  del_host_route : H → IpAddr → Gateway → H;
}.

(** The routes a table holds, and what its operations do to them. *)
Class HostLaws (H : Type) `{HostRouteTable H} := {
  host_routes : H → gset (IpAddr * Gateway);
  host_add h ip gw : host_routes (add_host_route h ip gw).1 =
    match (add_host_route h ip gw).2 with Ok true => {[(ip, gw)]} ∪ host_routes h | _ => host_routes h end;
  host_created h ip gw : (add_host_route h ip gw).2 = Ok true → (ip, gw) ∉ host_routes h;
  host_present h ip gw : (add_host_route h ip gw).2 = Ok false → (ip, gw) ∈ host_routes h;
  host_del h ip gw : host_routes (del_host_route h ip gw) = host_routes h ∖ {[(ip, gw)]};
  host_add_default h ip gw v6 : default_gateway (add_host_route h ip gw).1 v6 = default_gateway h v6;
  host_del_default h ip gw v6 : default_gateway (del_host_route h ip gw) v6 = default_gateway h v6;
}.

Section pins.
Context {H : Type} `{HT : HostRouteTable H}.

(** ** The journal *)

Record PinJournal := mkPinJournal { pj_path : option string; pj_map : gmap IpAddr Gateway }.

(** The routing table, the journal in memory, and the file. *)
Record PinWorld := mkPinWorld { pw_host : H; pw_pins : PinJournal; pw_file : option (gmap IpAddr Gateway) }.

Definition in_memory : PinJournal := mkPinJournal None ∅.
(** An absent file is an empty journal. *)
Definition pj_load (path : string) (file : option (gmap IpAddr Gateway)) : PinJournal := mkPinJournal (Some path) (default ∅ file).

(** Does removing the file, or replacing it with these entries, succeed? *)
Context (disk_ok : gmap IpAddr Gateway → bool).

Definition persist (w : PinWorld) : PinWorld :=
  match pj_path (pw_pins w) with
  | None => w
  | Some _ =>
      let m := pj_map (pw_pins w) in
      if disk_ok m then mkPinWorld (pw_host w) (pw_pins w) (if decide (m = ∅) then None else Some m) else w
  end.

Definition set_pins (m : gmap IpAddr Gateway) (w : PinWorld) : PinWorld :=
  mkPinWorld (pw_host w) (mkPinJournal (pj_path (pw_pins w)) m) (pw_file w).
Definition set_host (h : H) (w : PinWorld) : PinWorld := mkPinWorld h (pw_pins w) (pw_file w).

Definition pin_map (w : PinWorld) : gmap IpAddr Gateway := pj_map (pw_pins w).

(** ** Steps, each a point at which the process may die *)

Definition pin_record (ip : IpAddr) (gw : Gateway) : Run PinWorld unit :=
  run_act (λ w, (tt, persist (set_pins (<[ip := gw]> (pin_map w)) w))).
Definition pin_forget (ip : IpAddr) : Run PinWorld unit :=
  run_act (λ w, (tt, persist (set_pins (delete ip (pin_map w)) w))).
Definition del_route (ip : IpAddr) (gw : Gateway) : Run PinWorld unit :=
  run_act (λ w, (tt, set_host (del_host_route (pw_host w) ip gw) w)).
Definition add_route_to (ip : IpAddr) (gw : Gateway) : Run PinWorld (Result bool string) :=
  run_act (λ w, let '(h, r) := add_host_route (pw_host w) ip gw in (r, set_host h w)).

(** ** [reconcile_pins] *)

Definition unpin (ip : IpAddr) : Run PinWorld unit :=
  had <-- run_read (λ w, pin_map w !! ip);
  match had with
  | Some gw => del_route ip gw;; pin_forget ip
  | None => run_ret tt
  end.

Definition pin_new (ip : IpAddr) (gw : Gateway) : Run PinWorld (option IpAddr) :=
  pin_record ip gw;;
  r <-- add_route_to ip gw;
  match r with
  | Ok true => run_ret (Some ip)
  | Ok false => pin_forget ip;; run_ret (Some ip)
  | Err _ => pin_forget ip;; run_ret None
  end.

Definition pin_host (ip : IpAddr) : Run PinWorld (option IpAddr) :=
  g <-- run_read (λ w, default_gateway (pw_host w) (negb (ip_is_ipv4 ip)));
  match g with
  | None => run_ret None
  | Some gw =>
      had <-- run_read (λ w, pin_map w !! ip);
      match had with
      | Some had => if decide (had = gw) then run_ret (Some ip) else (del_route ip had;; pin_forget ip;; pin_new ip gw)
      | None => pin_new ip gw
      end
  end.

Definition reconcile_pins (want : list IpAddr) : Run PinWorld (list IpAddr) :=
  let want : gset IpAddr := list_to_set want in
  stale <-- run_read (λ w, List.filter (λ ip, negb (bool_decide (ip ∈ want))) (bt_keys (pin_map w)));
  run_each unpin stale;;
  oks <-- run_each pin_host (bs_iter want);
  run_ret (omap (λ x : option IpAddr, x) oks).
End pins.

(** ** The invariant of the pins *)

Section pins_laws.
Context {H : Type} `{HT : HostRouteTable H, HL : !HostLaws H}.
Context (disk_ok : gmap IpAddr Gateway → bool).
(** The routes that are not ours, the gateways, the routes that may be asked for,
    and whether the journal is a file on a disk that works. *)
Context (F : gset (IpAddr * Gateway)) (g : bool → option Gateway) (asked : IpAddr * Gateway → Prop) (journaled : Prop).
Context (Hdisk : journaled → ∀ m, disk_ok m = true).

Definition listed (w : PinWorld (H := H)) (r : IpAddr * Gateway) : Prop := default ∅ (pw_file w) !! r.1 = Some r.2.

(** The file names at most one foreign route, one that is being asked for. *)
Definition one_foreign (w : PinWorld (H := H)) : Prop :=
  (∀ r, listed w r → r ∈ F → asked r) ∧ (∀ r r', listed w r → r ∈ F → listed w r' → r' ∈ F → r = r').

(** What a crash finds: no foreign route is missing, each route that is not
    foreign is in the file, and hardly any other. *)
Definition crash_ok (w : PinWorld (H := H)) : Prop :=
  F ⊆ host_routes (pw_host w) ∧ (journaled → (∀ r, r ∈ host_routes (pw_host w) → r ∈ F ∨ listed w r) ∧ one_foreign w).

Record routed (m : gmap IpAddr Gateway) (w : PinWorld (H := H)) : Prop := {
  rt_routes r : r ∈ host_routes (pw_host w) ↔ r ∈ F ∨ m !! r.1 = Some r.2;
  rt_ours r : m !! r.1 = Some r.2 → r ∉ F;
  rt_gateway v6 : default_gateway (pw_host w) v6 = g v6;
}.

Definition journal_synced (w : PinWorld (H := H)) : Prop :=
  journaled → is_Some (pj_path (pw_pins w)) ∧ default ∅ (pw_file w) = pin_map w.

(** The table holds the foreign routes and the pins [m]. *)
Definition pins_inv (m : gmap IpAddr Gateway) (w : PinWorld (H := H)) : Prop := routed m w ∧ pin_map w = m ∧ journal_synced w.

(** The same, with an entry for [ip] in the journal and no route for it. *)
Definition pins_mid (ip : IpAddr) (gw : Gateway) (m : gmap IpAddr Gateway) (w : PinWorld (H := H)) : Prop :=
  routed m w ∧ m !! ip = None ∧ pin_map w = <[ip := gw]> m ∧ journal_synced w ∧ ((ip, gw) ∈ F → asked (ip, gw)).

Lemma persist_synced m w : journal_synced w → journal_synced (persist disk_ok (set_pins m w)).
Proof.
  intros Hs Hj. destruct (Hs Hj) as [[p Hp] _]. unfold persist. cbn. rewrite Hp, (Hdisk Hj). cbn. split; [by eexists|].
  unfold pin_map. cbn. by case_decide; subst.
Qed.

Lemma persist_frame m (w : PinWorld (H := H)) : pw_host (persist disk_ok (set_pins m w)) = pw_host w ∧ pin_map (persist disk_ok (set_pins m w)) = m.
Proof. unfold persist. cbn. destruct (pj_path _); [|done]. by destruct (disk_ok m). Qed.

Lemma inv_crash m w : pins_inv m w → crash_ok w.
Proof.
  intros ([Hr Ho _] & Hm & Hs). split; [intros r Hf; apply Hr; by left|]. intros Hj. unfold listed, one_foreign, listed. destruct (Hs Hj) as [_ ->].
  rewrite Hm. split; [|split].
  - by intros r [?|?]%Hr; [left|right].
  - by intros r ?%Ho.
  - by intros r r' ?%Ho.
Qed.

Lemma mid_crash ip gw m w : pins_mid ip gw m w → crash_ok w.
Proof.
  intros ([Hr Ho _] & Hn & Hm & Hs & Ha). split; [intros r Hf; apply Hr; by left|]. intros Hj. unfold listed, one_foreign, listed. destruct (Hs Hj) as [_ ->].
  rewrite Hm. assert (∀ r, <[ip := gw]> m !! r.1 = Some r.2 → r ∈ F → r = (ip, gw)) as H1.
  { intros [i x]. cbn. rewrite lookup_insert_Some. intros [[-> ->]|[_ Hi]]; [done|]. intros Hf. by destruct (Ho (i, x)). }
  split; [|split].
  - intros r [?|Hi]%Hr; [by left|]. right. rewrite lookup_insert_ne; [done|]. intros ->. congruence.
  - intros r Hl Hf. pose proof (H1 r Hl Hf) as ->. by apply Ha.
  - intros r r' Hl Hf Hl' Hf'. by rewrite (H1 r Hl Hf), (H1 r' Hl' Hf').
Qed.

Lemma routed_host m w w' : pw_host w' = pw_host w → routed m w → routed m w'.
Proof. intros Hh [H1 H2 H3]. split; [by rewrite Hh|done|by rewrite Hh]. Qed.

Lemma t_record ip gw m : m !! ip = None → asked (ip, gw) → triple crash_ok (pins_inv m) (pin_record disk_ok ip gw) (λ _, pins_mid ip gw m).
Proof.
  intros Hn Ha. apply t_act. intros w (Hr & Hm & Hs). cbn. destruct (persist_frame (<[ip := gw]> (pin_map w)) w) as [E1 E2].
  pose proof (persist_synced (<[ip := gw]> (pin_map w)) w Hs) as S1. rewrite Hm in *.
  assert (pins_mid ip gw m (persist disk_ok (set_pins (<[ip:=gw]> m) w))) as R by (split_and!; [by eapply routed_host|done..]).
  split; [by eapply mid_crash|done].
Qed.

Lemma t_forget ip gw m : triple crash_ok (pins_mid ip gw m) (pin_forget disk_ok ip) (λ _, pins_inv m).
Proof.
  apply t_act. intros w (Hr & Hn & Hm & Hs & _). cbn. destruct (persist_frame (delete ip (pin_map w)) w) as [E1 E2].
  pose proof (persist_synced (delete ip (pin_map w)) w Hs) as S1. rewrite Hm, delete_insert_id in * by done.
  assert (pins_inv m (persist disk_ok (set_pins m w))) as R by (split_and!; [by eapply routed_host|done..]).
  split; [by eapply inv_crash|done].
Qed.

Lemma t_del ip gw m : m !! ip = Some gw → triple crash_ok (pins_inv m) (del_route ip gw) (λ _, pins_mid ip gw (delete ip m)).
Proof.
  intros Hg. apply t_act. intros w ([Hr Ho Hd] & Hm & Hs). cbn.
  assert (routed (delete ip m) (set_host (del_host_route (pw_host w) ip gw) w)) as R.
  { split; cbn.
    - intros [i gg]. rewrite host_del, elem_of_difference, elem_of_singleton, Hr. cbn. rewrite lookup_delete_Some.
      specialize (Ho (i, gg)). cbn in Ho. specialize (Hr (ip, gw)). split; [|naive_solver].
      intros [[?|Hi] Hne]; [by left|]. right. split; [|done]. intros ->. congruence.
    - intros r. rewrite lookup_delete_Some. intros [_ ?]. by apply Ho.
    - intros v6. by rewrite host_del_default. }
  assert (pin_map (set_host (del_host_route (pw_host w) ip gw) w) = <[ip := gw]> (delete ip m)) as Hp.
  { rewrite insert_delete_id by done. exact Hm. }
  assert (pins_mid ip gw (delete ip m) (set_host (del_host_route (pw_host w) ip gw) w)) as Hmid.
  { split_and!; [done|apply lookup_delete_eq|done|done|]. intros Hf. by destruct (Ho (ip, gw)). }
  split; [by eapply mid_crash|done].
Qed.

Definition added (ip : IpAddr) (gw : Gateway) (m : gmap IpAddr Gateway) (r : Result bool string) : PinWorld → Prop :=
  match r with
  | Ok true => pins_inv (<[ip := gw]> m)
  | Ok false => λ w, pins_mid ip gw m w ∧ (ip, gw) ∈ F
  | Err _ => pins_mid ip gw m
  end.

Lemma t_add ip gw m : triple crash_ok (pins_mid ip gw m) (add_route_to ip gw) (added ip gw m).
Proof.
  apply t_act. intros w ([Hr Ho Hd] & Hn & Hm & Hs & Hask). pose proof (host_add (pw_host w) ip gw) as Ha.
  pose proof (host_created (pw_host w) ip gw) as Hc. pose proof (host_present (pw_host w) ip gw) as Hp.
  pose proof (host_add_default (pw_host w) ip gw) as Hdf. destruct (add_host_route (pw_host w) ip gw) as [h r]. cbn in *.
  assert (pin_map (set_host h w) = <[ip := gw]> m ∧ journal_synced (set_host h w)) as [Hm' Hs'] by done.
  destruct r as [[|]|e]; cbn.
  - specialize (Hc eq_refl). assert (routed (<[ip := gw]> m) (set_host h w)) as R.
    { split; cbn.
      - intros [i gg]. rewrite Ha, elem_of_union, elem_of_singleton, Hr. cbn. rewrite lookup_insert_Some. naive_solver.
      - intros [i gg]. cbn. rewrite lookup_insert_Some. intros [[<- <-]|[_ Hi]]; [|by apply (Ho (i, gg))].
        intros Hf. apply Hc, Hr. by left.
      - intros v6. by rewrite Hdf. }
    assert (pins_inv (<[ip := gw]> m) (set_host h w)) as Hi by done. split; [by eapply inv_crash|done].
  - assert (routed m (set_host h w)) as R by (split; cbn; [by rewrite Ha|done|intros; by rewrite Hdf]).
    assert (pins_mid ip gw m (set_host h w)) as Hi by done. split; [by eapply mid_crash|]. split; [done|].
    specialize (Hp eq_refl). apply Hr in Hp as [?|Hp]; [done|]. cbn in Hp. congruence.
  - assert (routed m (set_host h w)) as R by (split; cbn; [by rewrite Ha|done|intros; by rewrite Hdf]).
    assert (pins_mid ip gw m (set_host h w)) as Hi by done. split; [by eapply mid_crash|done].
Qed.

(** ** [reconcile_pins] keeps it *)

Lemma t_unpin ip m : triple crash_ok (pins_inv m) (unpin disk_ok ip) (λ _, pins_inv (delete ip m)).
Proof.
  apply (t_read_bind _ _ (m !! ip)); [by intros w (_ & Hm & _); rewrite Hm|]. destruct (m !! ip) as [gw|] eqn:E.
  - eapply t_bind; [by apply t_del|]. intros []. apply t_forget.
  - apply t_ret. intros w. by rewrite delete_id.
Qed.

Lemma t_unpin_all l m : triple crash_ok (pins_inv m) (run_each (unpin disk_ok) l) (λ _, pins_inv (foldl (λ m ip, delete ip m) m l)).
Proof.
  revert m. induction l as [|ip l IH]; intros m; [by apply t_ret|]. cbn.
  eapply t_bind; [apply t_unpin|]. intros []. eapply t_bind; [apply IH|]. intros bs. by apply t_ret.
Qed.

(** What [pin_host] makes of the pin of [ip], and what it reports. *)
Definition pinned_as (ip : IpAddr) (m m' : gmap IpAddr Gateway) (o : option IpAddr) : Prop :=
  match g (negb (ip_is_ipv4 ip)) with
  | None => m' !! ip = m !! ip ∧ o = None
  | Some gw =>
      (m' !! ip = Some gw ∧ o = Some ip) ∨ (m' !! ip = None ∧ o = Some ip ∧ (ip, gw) ∈ F) ∨
      (m' !! ip = None ∧ o = None ∧ ∃ (h : H) e, (add_host_route h ip gw).2 = Err e)
  end.

Definition host_pinned (ip : IpAddr) (m : gmap IpAddr Gateway) (o : option IpAddr) (w : PinWorld) : Prop :=
  ∃ m', pins_inv m' w ∧ (∀ i, i ≠ ip → m' !! i = m !! i) ∧ pinned_as ip m m' o.

Lemma t_pin_new ip gw m m0 : m !! ip = None → (∀ i, i ≠ ip → m !! i = m0 !! i) → g (negb (ip_is_ipv4 ip)) = Some gw → asked (ip, gw) →
  triple crash_ok (pins_inv m) (pin_new disk_ok ip gw) (host_pinned ip m0).
Proof.
  intros Hn Hf Hg Hask. unfold host_pinned, pinned_as. rewrite Hg. eapply t_bind; [by apply t_record|]. intros [].
  apply (t_bind _ _ _ _ (λ r w, added ip gw m r w ∧ ∀ e, r = Err e → ∃ h e, (add_host_route h ip gw).2 = Err e)).
  { intros w Hw. pose proof (t_add ip gw m w Hw) as Ht. unfold add_route_to, run_act in *.
    destruct (add_host_route (pw_host w) ip gw) as [h r] eqn:E. destruct Ht as [? ?]. split; [done|]. split; [done|].
    intros e He. exists (pw_host w), e. rewrite E. exact He. }
  intros [[|]|e]; apply t_pure; intros He.
  - apply t_ret. intros w Hi. exists (<[ip := gw]> m). split; [done|]. rewrite lookup_insert_eq.
    split; [|by left]. intros i Hne. rewrite lookup_insert_ne by done. auto.
  - apply t_pure. intros Hin. eapply t_bind; [apply t_forget|]. intros []. apply t_ret. intros w Hi. exists m. auto 10.
  - eapply t_bind; [apply t_forget|]. intros []. apply t_ret. intros w Hi. exists m. split; [done|]. split; [done|]. do 2 right.
    split; [done|]. split; [done|]. by eapply He.
Qed.

Lemma t_pin_host ip m : (∀ gw, g (negb (ip_is_ipv4 ip)) = Some gw → asked (ip, gw)) →
  triple crash_ok (pins_inv m) (pin_host disk_ok ip) (host_pinned ip m).
Proof.
  intros Hask.
  apply (t_read_bind _ _ (g (negb (ip_is_ipv4 ip)))); [by intros w ([_ _ ->] & _)|].
  destruct (g (negb (ip_is_ipv4 ip))) as [gw|] eqn:Eg.
  - apply (t_read_bind _ _ (m !! ip)); [by intros w (_ & Hm & _); rewrite Hm|]. destruct (m !! ip) as [had|] eqn:Em; [|apply t_pin_new; auto].
    case_decide as Hd.
    + apply t_ret. intros w Hi. exists m. subst had. split; [done|]. split; [done|]. unfold pinned_as. rewrite Eg. by left.
    + eapply t_bind; [by apply t_del|]. intros []. eapply t_bind; [apply t_forget|]. intros [].
      apply t_pin_new; [apply lookup_delete_eq| |done|auto]. intros i Hne. by rewrite lookup_delete_ne.
  - apply t_ret. intros w Hi. exists m. split; [done|]. split; [done|]. unfold pinned_as. by rewrite Eg.
Qed.

Lemma t_pin_all l m : NoDup l → (∀ ip gw, ip ∈ l → g (negb (ip_is_ipv4 ip)) = Some gw → asked (ip, gw)) → triple crash_ok (pins_inv m) (run_each (pin_host disk_ok) l)
  (λ os w, ∃ m', pins_inv m' w ∧ (∀ i, i ∉ l → m' !! i = m !! i) ∧ Forall2 (λ ip o, pinned_as ip m m' o) l os).
Proof.
  intros Hnd. revert m. induction Hnd as [|ip l Hin Hnd IH]; intros m Hask.
  { apply t_ret. intros w Hi. exists m. split; [done|]. split; [done|constructor]. }
  cbn. eapply t_bind; [apply t_pin_host; intros gw; apply Hask; by left|]. intros o w (m1 & Hi & Hf & Hp).
  pose proof (IH m1 ltac:(intros i gw Hil; apply Hask; by right) w Hi) as Ht. unfold run_bind, run_ret in *. destruct (run_each _ l w) as [[os w'] tr]. destruct Ht as [Ht (m2 & Hi2 & Hf2 & Hp2)].
  rewrite app_nil_r. split; [done|]. exists m2. split; [done|]. split.
  - intros i [Hne Hnl]%not_elem_of_cons. rewrite Hf2, Hf; done.
  - constructor.
    + unfold pinned_as in *. by rewrite (Hf2 ip Hin).
    + clear -Hp2 Hf Hin. revert Hin Hp2. generalize l. intros l'. revert os. induction l' as [|i l' IH]; intros os Hin Hp2; inv Hp2; constructor.
      * apply not_elem_of_cons in Hin as [Hne _]. unfold pinned_as in *. by rewrite <- (Hf i).
      * apply IH; [by apply not_elem_of_cons in Hin as [_ ?]|done].
Qed.
End pins_laws.

(** ** What reconciling guarantees *)

Section pins_theorems.
Context {H : Type} `{HT : HostRouteTable H, HL : !HostLaws H}.
Context (disk_ok : gmap IpAddr Gateway → bool).

(** The routes of the table that no pin accounts for. *)
Definition foreign (w : PinWorld (H := H)) : gset (IpAddr * Gateway) :=
  filter (λ r : IpAddr * Gateway, pin_map w !! r.1 ≠ Some r.2) (host_routes (pw_host w)).

(** Nobody else removed a pinned route. *)
Definition pins_present (w : PinWorld (H := H)) : Prop := ∀ ip gw, pin_map w !! ip = Some gw → (ip, gw) ∈ host_routes (pw_host w).

Definition gateway_for (w : PinWorld (H := H)) (ip : IpAddr) : option Gateway := default_gateway (pw_host w) (negb (ip_is_ipv4 ip)).

Lemma foreign_inv (j : Prop) w : pins_present w → (j → is_Some (pj_path (pw_pins w)) ∧ default ∅ (pw_file w) = pin_map w) →
  pins_inv (foreign w) (default_gateway (pw_host w)) j (pin_map w) w.
Proof.
  intros Hp Hs. split; [|done]. split.
  - intros [ip gw]. unfold foreign. rewrite elem_of_filter. cbn. destruct (decide (pin_map w !! ip = Some gw)) as [He|]; naive_solver.
  - intros [ip gw] He. unfold foreign. rewrite elem_of_filter. cbn in *. naive_solver.
  - done.
Qed.

Lemma inv_foreign F g j m w : pins_inv F g j m w → foreign w = F ∧ pins_present w.
Proof.
  intros ([Hr Ho _] & Hm & _). unfold pins_present, foreign. subst m. split.
  - apply set_eq. intros [ip gw]. rewrite elem_of_filter, Hr. cbn. specialize (Ho (ip, gw)). cbn in Ho. naive_solver.
  - intros ip gw He. apply Hr. by right.
Qed.

Lemma foldl_forget_lookup l (m : gmap IpAddr Gateway) ip : foldl (λ m ip, delete ip m) m l !! ip = if decide (ip ∈ l) then None else m !! ip.
Proof.
  revert m. induction l as [|i l IH]; intros m; [by rewrite decide_False by apply not_elem_of_nil|]. cbn. rewrite IH.
  destruct (decide (ip ∈ l)); [by rewrite decide_True by by right|]. destruct (decide (ip = i)) as [->|Hne].
  - rewrite lookup_delete_eq, decide_True; [done|by left].
  - rewrite lookup_delete_ne by done. rewrite decide_False; [done|]. by rewrite not_elem_of_cons.
Qed.

(** The routes that pinning these hosts asks for. *)
Definition asked_for (want : list IpAddr) (g : bool → option Gateway) (r : IpAddr * Gateway) : Prop :=
  r.1 ∈ want ∧ g (negb (ip_is_ipv4 r.1)) = Some r.2.

(** [reconcile_pins] as a whole. *)
Lemma t_reconcile F g j m want : (j → ∀ m, disk_ok m = true) →
  triple (crash_ok F (asked_for want g) j) (pins_inv F g j m) (reconcile_pins disk_ok want)
    (λ ok w, ∃ m' os, pins_inv F g j m' w ∧ ok = omap (λ x, x) os ∧ (∀ i, i ∉ want → m' !! i = None) ∧
       Forall2 (λ ip o, pinned_as (H := H) F g ip m m' o) (bs_iter (list_to_set want)) os).
Proof.
  intros Hd. unfold reconcile_pins. apply (t_read_bind _ _ (List.filter (λ ip, negb (bool_decide (ip ∈ list_to_set (C := gset IpAddr) want))) (bt_keys m))).
  { by intros w (_ & Hm & _); rewrite Hm. }
  set (stale := List.filter _ _). eapply t_bind; [by apply t_unpin_all|]. intros us. set (m1 := foldl _ m stale).
  assert (∀ i, m1 !! i = if decide (i ∈ want) then m !! i else None) as Hm1.
  { intros i. unfold m1. rewrite foldl_forget_lookup. unfold stale.
    destruct (decide (i ∈ want)) as [Hi|Hi].
    - rewrite decide_False; [done|]. rewrite list_elem_of_In, List.filter_In, negb_true_iff, bool_decide_eq_false. intros [_ Hn].
      apply Hn. by apply elem_of_list_to_set.
    - destruct (m !! i) as [gw|] eqn:E; [|by destruct (decide _)]. rewrite decide_True; [done|].
      rewrite list_elem_of_In, List.filter_In, negb_true_iff, bool_decide_eq_false, <- list_elem_of_In, elem_of_bt_keys, E.
      split; [by eexists|]. by rewrite elem_of_list_to_set. }
  eapply t_bind; [apply t_pin_all; [done|apply bs_iter_NoDup|]|].
  { intros ip gw Hin Hg. rewrite elem_of_bs_iter, elem_of_list_to_set in Hin. done. } intros os. apply t_ret. intros w (m' & Hi & Hf & Hp).
  exists m', os. split; [done|]. split; [done|]. split.
  - intros i Hni. rewrite Hf, Hm1; [by rewrite decide_False|]. by rewrite elem_of_bs_iter, elem_of_list_to_set.
  - eapply Forall2_impl_elem; [exact Hp|]. intros ip o Hip _. rewrite elem_of_bs_iter, elem_of_list_to_set in Hip. unfold pinned_as.
    by rewrite Hm1, decide_True.
Qed.

(** Pins are exact. With the pinned routes in the table, reconciling leaves
    the foreign routes (those no pin accounts for) exactly as they were; what the
    table holds besides them is exactly the pins the journal names; each pin is
    of a wanted host through the current default gateway of its family (or, when
    that family has no gateway now, the pin the host had); every host reported
    is wanted and routed through the current gateway; and a wanted host with a
    gateway is reported unless the table refused its route. With nothing wanted,
    every pin is removed. *)
Theorem pins_exact w want :
  pins_present w →
  let '(ok, w', _) := reconcile_pins disk_ok want w in
  foreign w' = foreign w ∧ pins_present w' ∧
  (∀ ip gw, pin_map w' !! ip = Some gw → ip ∈ want ∧
     (gateway_for w ip = Some gw ∨ gateway_for w ip = None ∧ pin_map w !! ip = Some gw)) ∧
  (∀ ip, ip ∈ ok → ip ∈ want ∧ ∃ gw, gateway_for w ip = Some gw ∧ (ip, gw) ∈ host_routes (pw_host w')) ∧
  (∀ ip gw, ip ∈ want → gateway_for w ip = Some gw → ip ∈ ok ∨ ∃ (h : H) e, (add_host_route h ip gw).2 = Err e) ∧
  (want = [] → pin_map w' = ∅).
Proof.
  intros Hp. pose proof (t_reconcile (foreign w) _ False (pin_map w) want ltac:(done) w (foreign_inv False w Hp ltac:(done))) as Ht.
  destruct (reconcile_pins disk_ok want w) as [[ok w'] tr]. destruct Ht as (_ & m' & os & Hi & -> & Hout & Hos).
  destruct (inv_foreign _ _ _ _ _ Hi) as [Hf Hp']. pose proof Hi as ([Hr _ _] & Hm & _). rewrite Hm. unfold gateway_for.
  assert (∀ ip, ip ∈ want → ∃ o, o ∈ os ∧ pinned_as (H := H) (foreign w) (default_gateway (pw_host w)) ip (pin_map w) m' o) as Hin.
  { intros ip Hw. apply (Forall2_elem_l _ _ _ _ Hos). by rewrite elem_of_bs_iter, elem_of_list_to_set. }
  split_and!; [done|done|..].
  - intros ip gw He. destruct (decide (ip ∈ want)) as [Hw|]; [|by rewrite Hout in He]. split; [done|].
    destruct (Hin ip Hw) as (o & _ & Ho). unfold pinned_as in Ho. rewrite He in Ho.
    destruct (default_gateway _ _) as [g0|]; [|destruct Ho as [Ho _]; by right].
    left. by destruct Ho as [[Ho _]|[[Ho _]|[Ho _]]].
  - intros ip (o & Ho & ->)%list_elem_of_omap. destruct (Forall2_elem_r _ _ _ _ Hos Ho) as (ip' & Hw & Hpa).
    rewrite elem_of_bs_iter, elem_of_list_to_set in Hw. unfold pinned_as in Hpa.
    destruct (default_gateway (pw_host w) (negb (ip_is_ipv4 ip'))) as [gw|] eqn:Eg; [|by destruct Hpa].
    destruct Hpa as [[He [= ->]]|[(_ & [= ->] & He)|(_ & ? & _)]]; [| |done]; (split; [done|]; exists gw; split; [done|]; apply Hr; auto).
  - intros ip gw Hw Hg. destruct (Hin ip Hw) as (o & Ho & Hpa). unfold pinned_as in Hpa. rewrite Hg in Hpa.
    destruct Hpa as [[_ ->]|[(_ & -> & _)|(_ & _ & ?)]]; [left; apply list_elem_of_omap; by eexists..|by right].
  - intros ->. apply map_empty. intros i. apply Hout. apply not_elem_of_nil.
Qed.

(** *** Dying, and starting again *)

(** What survives: the table and the file. *)
Definition restart (path : string) (w : PinWorld (H := H)) : PinWorld := mkPinWorld (pw_host w) (pj_load path (pw_file w)) (pw_file w).

Lemma unpin_any ip w : (∀ m, disk_ok m = true) → journal_synced True w → let '(_, w', _) := unpin disk_ok ip w in
  (∀ r, r ∈ host_routes (pw_host w') ↔ r ∈ host_routes (pw_host w) ∧ ~ (r.1 = ip ∧ pin_map w !! r.1 = Some r.2)) ∧
  pin_map w' = delete ip (pin_map w) ∧ journal_synced True w'.
Proof.
  intros Hd Hs. unfold unpin, run_bind, run_read. destruct (pin_map w !! ip) as [gw|] eqn:E; cbn.
  - set (w1 := set_host _ w). pose proof (persist_frame disk_ok (delete ip (pin_map w1)) w1) as [E1 E2].
    pose proof (persist_synced disk_ok True (λ _, Hd) (delete ip (pin_map w1)) w1 Hs) as S1. rewrite E1, E2.
    split; [|done]. intros [i gg]. cbn. rewrite host_del, elem_of_difference, elem_of_singleton.
    split; intros [Hin Hne]; (split; [done|]); [intros [-> He]; congruence|]. intros [= -> ->]. by apply Hne.
  - split; [|split; [by rewrite delete_id|done]]. intros [i gg]. cbn. split; [|tauto]. intros Hin. split; [done|]. intros [-> He]. congruence.
Qed.

Lemma unpin_all_any l w : (∀ m, disk_ok m = true) → journal_synced True w → let '(_, w', _) := run_each (unpin disk_ok) l w in
  (∀ r, r ∈ host_routes (pw_host w') ↔ r ∈ host_routes (pw_host w) ∧ ~ (r.1 ∈ l ∧ pin_map w !! r.1 = Some r.2)) ∧
  pin_map w' = foldl (λ m ip, delete ip m) (pin_map w) l ∧ journal_synced True w'.
Proof.
  intros Hd. revert w. induction l as [|ip l IH]; intros w Hs; cbn.
  { split; [|done]. intros r. split; [|tauto]. intros ?. split; [done|]. by intros [[]%not_elem_of_nil _]. }
  unfold run_bind at 1. pose proof (unpin_any ip w Hd Hs) as H1. destruct (unpin disk_ok ip w) as [[u w1] tr1]. destruct H1 as (R1 & M1 & S1).
  specialize (IH w1 S1). unfold run_bind, run_ret. destruct (run_each _ l w1) as [[us w2] tr2]. destruct IH as (R2 & M2 & S2).
  rewrite M2, M1. split; [|done]. intros [i gg]. rewrite R2, R1, M1. cbn. rewrite elem_of_cons.
  destruct (decide (i = ip)) as [->|Hne]; [rewrite lookup_delete_eq|rewrite lookup_delete_ne by done]; naive_solver.
Qed.

(** Wanting nothing removes whatever the journal names, and nothing else. *)
Lemma reconcile_nothing w : (∀ m, disk_ok m = true) → journal_synced True w → let '(_, w', _) := reconcile_pins disk_ok [] w in
  host_routes (pw_host w') = foreign w ∧ pin_map w' = ∅ ∧ journal_synced True w'.
Proof.
  intros Hd Hs. unfold reconcile_pins. unfold run_bind at 1, run_read. set (stale := List.filter _ _).
  assert (∀ i, i ∈ stale ↔ is_Some (pin_map w !! i)) as Hst.
  { intros i. unfold stale. rewrite list_elem_of_In, List.filter_In, negb_true_iff, bool_decide_eq_false, <- list_elem_of_In, elem_of_bt_keys. set_solver. }
  unfold run_bind at 1. pose proof (unpin_all_any stale w Hd Hs) as H1. destruct (run_each _ stale w) as [[us w1] tr1]. destruct H1 as (R1 & M1 & S1).
  unfold run_bind, run_ret. cbn. split; [|split; [|done]].
  - apply set_eq. intros [i gg]. unfold foreign. rewrite elem_of_filter, R1, Hst. cbn. split; [|naive_solver].
    intros [Hin Hn]. split; [|done]. intros He. apply Hn. rewrite He. eauto.
  - rewrite M1. apply map_empty. intros i. rewrite foldl_forget_lookup. case_decide as Hi; [done|]. rewrite Hst in Hi. by apply eq_None_not_Some.
Qed.

End pins_theorems.

(** ** A table, and the one hazard the journal leaves *)

Module PinsExample.
Record Tbl := mkTbl { tb_gw : bool → option Gateway; tb_routes : gset (IpAddr * Gateway) }.

#[export] Instance tbl : HostRouteTable Tbl := {|
  default_gateway := tb_gw;
  add_host_route t ip gw :=
    if decide ((ip, gw) ∈ tb_routes t) then (t, Ok false) else (mkTbl (tb_gw t) ({[(ip, gw)]} ∪ tb_routes t), Ok true);
  del_host_route t ip gw := mkTbl (tb_gw t) (tb_routes t ∖ {[(ip, gw)]});
|}.

#[export] Instance tbl_laws : HostLaws Tbl.
Proof. apply (@Build_HostLaws Tbl tbl tb_routes); cbn; try done; intros h ip gw; by case_decide. Defined.

Definition gw1 : Gateway := mkGateway (V4 (192 * 2 ^ 24 + 168 * 2 ^ 16 + 1)) (Some 2).
Definition gw2 : Gateway := mkGateway (V4 (10 * 2 ^ 24 + 1)) (Some 3).
Definition relay : IpAddr := V4 (203 * 2 ^ 24 + 5).
Definition coord : IpAddr := V4 (198 * 2 ^ 24 + 9).

(** The relay pinned through the old gateway; the administrator's own route to
    the coordinator through the new one. *)
Definition moved : PinWorld :=
  mkPinWorld (mkTbl (λ v6, if v6 then None else Some gw2) {[(relay, gw1); (coord, gw2)]})
    (mkPinJournal (Some "pins"%string) {[relay := gw1]}) (Some {[relay := gw1]}).

Lemma moved_present : pins_present moved.
Proof. intros ip gw He. cbn in *. apply lookup_singleton_Some in He as [<- <-]. set_solver. Qed.

(** Between recording a host whose route is already there and learning that it
    is, the journal names a route that is not ours: a process that dies there is
    succeeded by one that deletes it. *)
Lemma crash_takes_foreign :
  (coord, gw2) ∈ foreign moved ∧
  ∃ w1, w1 ∈ (reconcile_pins (λ _, true) [coord] moved).2 ∧
    (coord, gw2) ∉ host_routes (pw_host (reconcile_pins (λ _, true) [] (restart "pins" w1)).1.2).
Proof.
  split; [by_decide|]. exists (nth 2 (reconcile_pins (λ _, true) [coord] moved).2 moved). split; [|by_decide].
  apply list_elem_of_In, List.nth_In. vm_compute. lia.
Qed.
End PinsExample.

#[local] Existing Instance PinsExample.tbl.
#[local] Existing Instance PinsExample.tbl_laws.

Lemma pins_exact_witness :
  let '(ok, w', _) := reconcile_pins (λ _, true) [PinsExample.relay; PinsExample.coord] PinsExample.moved in
  foreign w' = foreign PinsExample.moved ∧ PinsExample.relay ∈ ok.
Proof.
  pose proof (pins_exact (λ _, true) PinsExample.moved [PinsExample.relay; PinsExample.coord] PinsExample.moved_present) as Hx.
  destruct (reconcile_pins _ _ _) as [[ok w'] tr] eqn:E. destruct Hx as (Hf & _). split; [exact Hf|].
  apply (f_equal (λ x, x.1.1)) in E. cbn [fst] in E. rewrite <- E. by_decide.
Defined.

