(* ===== verification/Routes.v ===== *)
(** * Operating-system routes (crates/nqvpn-endpoint/src/routes.rs)

    Which prefixes a node routes into its tunnel, which exit it uses under
    route-all, and how the wanted set is brought into the kernel. The kernel's
    table is a parameter ([RouteProgrammer]). *)

From S2P Require Import Prelude Ordered Ipnet Text Control Lpm Peers.

Section routes.
Context `{O : IpNetOps}.

(** ** Route-all *)

Definition catch_all_halves (v6 : bool) : list IpNet :=
  if v6 then [Net6 0 1; Net6 (2 ^ 127) 1] else [Net4 0 1; Net4 (2 ^ 31) 1].

Definition ip_is_ipv6 (ip : IpAddr) : bool := negb (ip_is_ipv4 ip).

Definition underlay_to_pin (underlay : list IpAddr) (local : list IpNet) : list IpAddr :=
  bs_iter (list_to_set (List.filter (λ ip, negb (existsb (λ l, net_contains l ip) local)) underlay)).

Definition default_net (v6 : bool) : IpNet := if v6 then Net6 0 0 else Net4 0 0.

Definition owns_default (v6 : bool) (m : PeerInfo) : bool :=
  pi_online m && existsb (λ p, bool_decide (net_trunc p = default_net v6)) (pi_prefixes m).

(** [Iterator::min]. *)
Definition min_of (l : list Z) : option Z :=
  match l with [] => None | x :: l' => Some (foldl Z.min x l') end.

Definition exit_gateway (view : Snapshot) (via : option string) (attached : option Z) (v6 : bool) : option Z :=
  let usable := λ id, existsb (λ m, (pi_node_id m =? id) && owns_default v6 m) (s_members view) in
  or_else (name ← via; pi_node_id <$> List.find (λ m, String.eqb (pi_name m) name && owns_default v6 m) (s_members view))
    (or_else (id ← attached; if usable id then Some id else None)
       (min_of (pi_node_id <$> List.filter (owns_default v6) (s_members view)))).

Record RouteAllPlan := mkRouteAllPlan { rap_nets : list IpNet; rap_exits : list (bool * Z); rap_failed_closed : list bool }.

Definition memb {A} `{EqDecision A} (l : list A) (x : A) : bool := bool_decide (x ∈ l).

Definition unpinned (to_pin pinned : list IpAddr) (v6 : bool) : list IpAddr :=
  List.filter (λ ip, Bool.eqb (ip_is_ipv6 ip) v6 && negb (memb pinned ip)) to_pin.
Definition transport_lost (transport to_pin pinned : list IpAddr) (v6 : bool) : bool :=
  existsb (memb transport) (unpinned to_pin pinned v6).
Definition transport_whole (transport to_pin pinned : list IpAddr) (v6 : bool) : bool :=
  let fam := List.filter (λ ip, Bool.eqb (ip_is_ipv6 ip) v6) transport in
  negb (bool_decide (fam = [])) && forallb (λ ip, negb (memb to_pin ip) || memb pinned ip) fam.

Definition plan_family (view : Snapshot) (via : option string) (attached : option Z) (transport to_pin pinned : list IpAddr)
    (plan : RouteAllPlan) (v6 : bool) : RouteAllPlan :=
  match exit_gateway view via attached v6 with
  | None => plan
  | Some node =>
      if negb (transport_lost transport to_pin pinned v6) || transport_whole transport to_pin pinned (negb v6) then
        mkRouteAllPlan (rap_nets plan ++ catch_all_halves v6) (rap_exits plan ++ [(v6, node)])
          (rap_failed_closed plan ++ if bool_decide (unpinned to_pin pinned v6 = []) then [] else [v6])
      else plan
  end.

Definition route_all_plan (view : Snapshot) (via : option string) (attached : option Z) (transport to_pin pinned : list IpAddr) : RouteAllPlan :=
  foldl (plan_family view via attached transport to_pin pinned) (mkRouteAllPlan [] [] []) [false; true].

(** ** Wanted routes *)

Definition permitted (policy : option RoutePolicy) (p : IpNet) : bool :=
  match policy with Some pol => permits pol p | None => true end.

Definition covers_of (view : Snapshot) (policy : option RoutePolicy) : gset IpNet :=
  list_to_set (List.filter (permitted policy) (net_trunc <$> s_reserved_prefixes view)).

Definition covered_by (covers : gset IpNet) (p : IpNet) : bool := existsb (λ cover, net_contains_net cover p) (bs_iter covers).

(** The prefixes of a member that may become routes. *)
Definition listed_routes (policy : option RoutePolicy) (m : PeerInfo) : list IpNet :=
  List.filter (permitted policy) (net_trunc <$> List.filter (λ p, negb (is_exit_marker p)) (pi_prefixes m)).

Definition add_uncovered (covers : gset IpNet) (set : gset IpNet) (prefixes : list IpNet) : gset IpNet :=
  foldl (λ (set : gset IpNet) prefix, if covered_by covers prefix then set else {[prefix]} ∪ set) set prefixes.

Definition os_wanted (view : Snapshot) (my_node_id : Z) (mine : list IpNet) (policy : option RoutePolicy) : list IpNet :=
  let covers := covers_of view policy in
  let set := foldl (λ set m, if pi_node_id m =? my_node_id then set else add_uncovered covers set (listed_routes policy m))
               covers (s_members view) in
  List.filter (λ w, negb (existsb (λ m, (0 <? net_prefix_len m) && net_contains_net m w) mine)) (bs_iter set).

Definition wanted_routes (view : Snapshot) (my_node_id : Z) (mine : list IpNet) : list IpNet := os_wanted view my_node_id mine None.
Definition wanted_routes_with (view : Snapshot) (my_node_id : Z) (mine : list IpNet) (policy : RoutePolicy) : list IpNet :=
  os_wanted view my_node_id mine (Some policy).

(** ** Exclusion *)

Inductive Exclusion : Type :=
| InsideLocal (l : IpNet)
| CapturesUnderlay (u : IpAddr).

Definition exclusion_reason (w : IpNet) (local : list IpNet) (underlay : list IpAddr) : option Exclusion :=
  match List.find (λ l, net_contains_net l w) local with
  | Some l => Some (InsideLocal l)
  | None =>
      CapturesUnderlay <$>
        List.find (λ u, net_contains w u && negb (existsb (λ l, net_contains l u && (net_prefix_len w <? net_prefix_len l)) local)) underlay
  end.

Definition exclude_local (wanted : list IpNet) (local : list IpNet) (underlay : list IpAddr) : list IpNet * list (IpNet * Exclusion) :=
  foldl (λ acc w, match exclusion_reason w local underlay with
                  | Some r => (acc.1, acc.2 ++ [(w, r)])
                  | None => (acc.1 ++ [w], acc.2)
                  end) ([], []) wanted.
End routes.

(** ** The kernel's table *)

Class RouteProgrammer (K : Type) := {
  add_via_tun : K → IpNet → K * Result unit string;
  prog_remove : K → IpNet → K * Result unit string;
  list_via_dev : K → option (list IpNet);
  pin_underlay : K → list IpAddr → K * Result (list IpAddr) string;
}.

Section route_set.
Context `{O : IpNetOps} {K : Type} `{RP : RouteProgrammer K}.

Record RouteSet := mkRouteSet {
  rs_programmer : K;
  rs_installed : gset IpNet;
  rs_last : list IpNet * list IpNet;
  rs_bound_to : option (gset IpNet);
}.

Definition route_set_new (k : K) : RouteSet := mkRouteSet k ∅ ([], []) None.

Definition trunc_set (l : list IpNet) : gset IpNet := list_to_set (net_trunc <$> l).

Definition readdressed (rs : RouteSet) (mine : gset IpNet) : bool :=
  match rs_bound_to rs with Some b => negb (bool_decide (b = mine)) | None => false end.

(** Call the programmer on each prefix: the table left, and what failed. *)
Fixpoint call_all (f : K → IpNet → K * Result unit string) (k : K) (l : list IpNet) : K * list (IpNet * string) :=
  match l with
  | [] => (k, [])
  | n :: l' =>
      let '(k, r) := f k n in
      let '(k, errs) := call_all f k l' in
      (k, match r with Ok _ => errs | Err e => (n, e) :: errs end)
  end.

Definition first_err {A} (a : A) (errs : list (IpNet * string)) : Result A string :=
  match errs with [] => Ok a | (_, e) :: _ => Err e end.

Definition reconcile_via_kernel (rs : RouteSet) (wanted mine : list IpNet) : RouteSet * Result bool string :=
  let last := (wanted, mine) in
  match list_via_dev (rs_programmer rs) with
  | None => (mkRouteSet (rs_programmer rs) (rs_installed rs) last (rs_bound_to rs), Ok false)
  | Some present =>
      let wanted := trunc_set wanted in
      let mine := trunc_set mine in
      let ours := trunc_set present ∖ mine in
      let rebind := readdressed rs mine && negb (bool_decide (ours = ∅)) in
      let k := if rebind then (call_all prog_remove (rs_programmer rs) (bs_iter ours)).1 else rs_programmer rs in
      let ours := if rebind then ∅ else ours in
      let k := (call_all prog_remove k (bs_iter (ours ∖ wanted))).1 in
      let '(k, errs) := call_all add_via_tun k (bs_iter (wanted ∖ ours)) in
      (mkRouteSet k wanted last (Some mine), first_err true errs)
  end.

Definition reassert_via_kernel (rs : RouteSet) : RouteSet * Result bool string :=
  reconcile_via_kernel rs (rs_last rs).1 (rs_last rs).2.

Definition route_reconcile (rs : RouteSet) (wanted mine : list IpNet) : RouteSet * Result unit string :=
  let wanted := trunc_set wanted in
  let mine := trunc_set mine in
  let rebind := readdressed rs mine && negb (bool_decide (rs_installed rs = ∅)) in
  let k := if rebind then (call_all prog_remove (rs_programmer rs) (bs_iter (rs_installed rs))).1 else rs_programmer rs in
  let installed := if rebind then ∅ else rs_installed rs in
  let k := (call_all prog_remove k (bs_iter (installed ∖ wanted))).1 in
  let installed := installed ∩ wanted in
  let '(k, errs) := call_all add_via_tun k (bs_iter (wanted ∖ installed)) in
  (mkRouteSet k (installed ∪ ((wanted ∖ installed) ∖ list_to_set errs.*1)) (rs_last rs) (Some mine), first_err tt errs).

(** [?] stops at the first failure. *)
Fixpoint add_until_err (k : K) (l : list IpNet) : K * Result unit string :=
  match l with
  | [] => (k, Ok tt)
  | n :: l' => match add_via_tun k n with (k, Ok _) => add_until_err k l' | (k, Err e) => (k, Err e) end
  end.

Definition route_reassert (rs : RouteSet) : RouteSet * Result unit string :=
  let '(k, r) := add_until_err (rs_programmer rs) (bs_iter (rs_installed rs)) in
  (mkRouteSet k (rs_installed rs) (rs_last rs) (rs_bound_to rs), r).

Definition route_set_drop (rs : RouteSet) : K := (call_all prog_remove (rs_programmer rs) (bs_iter (rs_installed rs))).1.
End route_set.

(** ** Exits *)

Section exits.
Context `{O : IpNetOps}.

Definition qualifies (v6 : bool) (m : PeerInfo) : Prop := pi_online m = true ∧ ∃ p, p ∈ pi_prefixes m ∧ net_trunc p = default_net v6.

Lemma owns_default_spec v6 m : owns_default v6 m = true ↔ qualifies v6 m.
Proof.
  unfold owns_default, qualifies. rewrite andb_true_iff, existsb_exists. setoid_rewrite bool_decide_eq_true. by setoid_rewrite <- list_elem_of_In.
Qed.

Lemma foldl_min_spec l x : foldl Z.min x l ∈ x :: l ∧ ∀ y, y ∈ x :: l → foldl Z.min x l ≤ y.
Proof.
  revert x. induction l as [|z l IH]; intros x; cbn; [split; [by left|]; by intros y ->%list_elem_of_singleton|].
  destruct (IH (Z.min x z)) as [H1 H2]. split.
  - apply elem_of_cons in H1 as [H1|H1]; [|by right; right]. rewrite H1. destruct (Z.min_spec x z) as [[_ ->]|[_ ->]]; [left|right; left].
  - intros y [->|[->|Hy]%elem_of_cons]%elem_of_cons; [| |apply H2; by right]; (etransitivity; [apply H2; by left|lia]).
Qed.

Lemma min_of_spec l : match min_of l with Some x => x ∈ l ∧ ∀ y, y ∈ l → x ≤ y | None => l = [] end.
Proof. destruct l as [|x l]; [done|]. apply foldl_min_spec. Qed.

(** The exit is chosen by preference, then attachment, then id. The exit of a
    family under route-all is an online member that owns the family's default;
    there is none only if no member is; a qualifying member of the preferred name
    is taken first; failing that, the relay this node is attached to if it
    qualifies; failing that, the qualifying member of the lowest id. *)
Theorem exit_gateway_exact view via attached v6 :
  match exit_gateway view via attached v6 with
  | None => ∀ m, m ∈ s_members view → ~ qualifies v6 m
  | Some id => ∃ m, m ∈ s_members view ∧ pi_node_id m = id ∧ qualifies v6 m ∧
      ((∃ p, p ∈ s_members view ∧ via = Some (pi_name p) ∧ qualifies v6 p) → via = Some (pi_name m)) ∧
      ((∀ p, p ∈ s_members view → via = Some (pi_name p) → ~ qualifies v6 p) →
       ((∃ p, p ∈ s_members view ∧ attached = Some (pi_node_id p) ∧ qualifies v6 p) → attached = Some id) ∧
       ((∀ p, p ∈ s_members view → attached = Some (pi_node_id p) → ~ qualifies v6 p) →
        ∀ p, p ∈ s_members view → qualifies v6 p → id ≤ pi_node_id p))
  end.
Proof.
  unfold exit_gateway. destruct (name ← via; _) as [id|] eqn:Ev; cbn [or_else].
  { apply bind_Some in Ev as (name & -> & (m & Hm & ->)%fmap_Some). apply List.find_some in Hm as [Hin Hb].
    rewrite <- list_elem_of_In, andb_true_iff, String.eqb_eq, owns_default_spec in *. destruct Hb as [<- Hq].
    exists m. split_and!; try done. intros Hn. by destruct (Hn m Hin eq_refl). }
  assert (∀ p, p ∈ s_members view → via = Some (pi_name p) → ~ qualifies v6 p) as Hv.
  { intros p Hp -> Hq. cbn in Ev. apply fmap_None in Ev. eapply List.find_none in Ev; [|by apply list_elem_of_In].
    cbn in Ev. by rewrite String.eqb_refl, (proj2 (owns_default_spec _ _) Hq) in Ev. }
  clear Ev. destruct (id ← attached; _) as [id|] eqn:Ea; cbn [or_else].
  { apply bind_Some in Ea as (i & -> & Hi). case_match eqn:Hu; [|done]. injection Hi as ->. apply existsb_exists in Hu as (m & Hin & Hb).
    rewrite <- list_elem_of_In, andb_true_iff, Z.eqb_eq, owns_default_spec in *. destruct Hb as [<- Hq]. exists m.
    split_and!; try done; [intros (p & ? & ? & ?); by destruct (Hv p)|]. intros _. split; [done|]. intros Hn. by destruct (Hn m Hin eq_refl). }
  assert (∀ p, p ∈ s_members view → attached = Some (pi_node_id p) → ~ qualifies v6 p) as Ha.
  { intros p Hp -> Hq. cbn in Ea. case_match eqn:Hu; [done|]. apply not_true_iff_false in Hu. apply Hu, existsb_exists. exists p.
    rewrite <- list_elem_of_In, andb_true_iff, Z.eqb_eq, owns_default_spec. done. }
  pose proof (min_of_spec (pi_node_id <$> List.filter (owns_default v6) (s_members view))) as Hmin.
  assert (∀ p, p ∈ List.filter (owns_default v6) (s_members view) ↔ p ∈ s_members view ∧ qualifies v6 p) as Hf.
  { intros p. by rewrite list_elem_of_In, List.filter_In, <- list_elem_of_In, owns_default_spec. }
  destruct (min_of _) as [id|].
  - destruct Hmin as [(m & -> & [Hin Hq]%Hf)%list_elem_of_fmap Hle]. exists m. split_and!; try done.
    + intros (p & ? & ? & ?). by destruct (Hv p).
    + intros _. split; [intros (p & ? & ? & ?); by destruct (Ha p)|]. intros _ p Hp Hqp. apply Hle, list_elem_of_fmap. exists p. by rewrite Hf.
  - intros m Hm Hq. apply fmap_nil_inv in Hmin. assert (m ∈ List.filter (owns_default v6) (s_members view)) as Hc by by apply Hf.
    rewrite Hmin in Hc. by apply not_elem_of_nil in Hc.
Qed.
End exits.

(** ** Route-all does not cut its own path *)

Section route_all.
Context `{O : IpNetOps, OL : !IpNetLaws O}.

Lemma memb_spec {A} `{EqDecision A} (l : list A) x : memb l x = true ↔ x ∈ l.
Proof. unfold memb. apply bool_decide_eq_true. Qed.

Lemma elem_unpinned to_pin pinned v6 ip : ip ∈ unpinned to_pin pinned v6 ↔ ip ∈ to_pin ∧ ip_is_ipv6 ip = v6 ∧ ip ∉ pinned.
Proof.
  unfold unpinned. rewrite list_elem_of_In, List.filter_In, <- list_elem_of_In, andb_true_iff, negb_true_iff, eqb_true_iff.
  unfold memb. rewrite bool_decide_eq_false. tauto.
Qed.

Lemma transport_lost_spec transport to_pin pinned v6 :
  transport_lost transport to_pin pinned v6 = true ↔ ∃ t, t ∈ transport ∧ t ∈ to_pin ∧ ip_is_ipv6 t = v6 ∧ t ∉ pinned.
Proof.
  unfold transport_lost. rewrite existsb_exists. setoid_rewrite memb_spec. setoid_rewrite <- list_elem_of_In. setoid_rewrite elem_unpinned. naive_solver.
Qed.

Lemma transport_whole_spec transport to_pin pinned v6 :
  transport_whole transport to_pin pinned v6 = true ↔
  (∃ t, t ∈ transport ∧ ip_is_ipv6 t = v6) ∧ ∀ t, t ∈ transport → ip_is_ipv6 t = v6 → t ∉ to_pin ∨ t ∈ pinned.
Proof.
  unfold transport_whole. set (fam := List.filter _ _).
  assert (∀ t, t ∈ fam ↔ t ∈ transport ∧ ip_is_ipv6 t = v6) as Hf.
  { intros t. unfold fam. by rewrite list_elem_of_In, List.filter_In, <- list_elem_of_In, eqb_true_iff. }
  rewrite andb_true_iff, negb_true_iff, bool_decide_eq_false, forallb_forall. setoid_rewrite <- list_elem_of_In. setoid_rewrite Hf.
  setoid_rewrite orb_true_iff. setoid_rewrite negb_true_iff. setoid_rewrite memb_spec. unfold memb. setoid_rewrite bool_decide_eq_false.
  split; intros [H1 H2]; (split; [|naive_solver]).
  - destruct fam as [|t fam']; [done|]. exists t. apply Hf. by left.
  - intros Hn. destruct H1 as (t & Ht). apply Hf in Ht. rewrite Hn in Ht. by apply not_elem_of_nil in Ht.
Qed.

(** A host that stays reachable off the tunnel: it is pinned, or carried by a
    connected route, or no route of the plan covers it. *)
Definition off_tunnel (plan : RouteAllPlan) (to_pin pinned : list IpAddr) (t : IpAddr) : Prop :=
  t ∈ pinned ∨ t ∉ to_pin ∨ ∀ n, n ∈ rap_nets plan → net_contains n t = false.

Definition family_active (view : Snapshot) (via : option string) (attached : option Z) (transport to_pin pinned : list IpAddr) (v6 : bool) : bool :=
  match exit_gateway view via attached v6 with
  | Some _ => negb (transport_lost transport to_pin pinned v6) || transport_whole transport to_pin pinned (negb v6)
  | None => false
  end.

Lemma plan_family_spec view via attached transport to_pin pinned plan v6 :
  let act := family_active view via attached transport to_pin pinned v6 in
  plan_family view via attached transport to_pin pinned plan v6 =
  mkRouteAllPlan (rap_nets plan ++ if act then catch_all_halves v6 else [])
    (rap_exits plan ++ if act then match exit_gateway view via attached v6 with Some node => [(v6, node)] | None => [] end else [])
    (rap_failed_closed plan ++ if act && negb (bool_decide (unpinned to_pin pinned v6 = [])) then [v6] else []).
Proof.
  unfold plan_family, family_active. destruct plan as [n e f]. cbn. destruct (exit_gateway _ _ _ _); [|by rewrite !app_nil_r].
  destruct (negb _ || _); cbn; [|by rewrite !app_nil_r]. by case_bool_decide.
Qed.

Lemma elem_halves v6 n : n ∈ catch_all_halves v6 → wf_net n ∧ ip_is_ipv4 (net_addr n) = negb v6.
Proof. destruct v6; intros [->| ->%list_elem_of_singleton]%elem_of_cons; (split; [by_decide|done]). Qed.

Lemma halves_family v6 n t : n ∈ catch_all_halves v6 → wf_addr t → ip_is_ipv6 t = negb v6 → net_contains n t = false.
Proof.
  intros [Hw Hf]%elem_halves Ht Hv. apply not_true_iff_false. intros Hc. apply net_contains_spec in Hc as [Hc _]; [|done..].
  unfold same_family, ip_is_ipv6 in *. rewrite Hf in Hc. by destruct v6, (ip_is_ipv4 t).
Qed.

Section plan.
Context (view : Snapshot) (via : option string) (attached : option Z) (transport to_pin pinned : list IpAddr).
#[local] Notation plan := (route_all_plan view via attached transport to_pin pinned).
#[local] Notation act := (family_active view via attached transport to_pin pinned).

(** The family has its transport off the tunnel, pinned or connected. *)
Definition carried_off (v6 : bool) : Prop := ∀ t, t ∈ transport → ip_is_ipv6 t = v6 → t ∉ to_pin ∨ t ∈ pinned.
Definition has_transport (v6 : bool) : Prop := ∃ t, t ∈ transport ∧ ip_is_ipv6 t = v6.

Lemma active_spec v6 : act v6 = true ↔
  is_Some (exit_gateway view via attached v6) ∧ (carried_off v6 ∨ has_transport (negb v6) ∧ carried_off (negb v6)).
Proof.
  unfold family_active. destruct (exit_gateway _ _ _ _); [|split; [done|by intros [[] _]]]. rewrite orb_true_iff, negb_true_iff, transport_whole_spec.
  rewrite <- not_true_iff_false, transport_lost_spec. unfold carried_off. split; intros Hx.
  - split; [by eexists|]. destruct Hx as [Hn|]; [left|by right]. intros t Ht Hv. destruct (decide (t ∈ to_pin)), (decide (t ∈ pinned)); naive_solver.
  - destruct Hx as [_ [Hc|]]; [left|by right]. intros (t & ? & ? & ? & ?). naive_solver.
Qed.

Lemma plan_exits v6 node : (v6, node) ∈ rap_exits plan ↔ exit_gateway view via attached v6 = Some node ∧ act v6 = true.
Proof.
  unfold route_all_plan. cbn [foldl]. rewrite !plan_family_spec. cbn. rewrite elem_of_app.
  assert (∀ w, (v6, node) ∈ (if act w then match exit_gateway view via attached w with Some n => [(w, n)] | None => [] end else []) ↔
    w = v6 ∧ exit_gateway view via attached v6 = Some node ∧ act v6 = true) as Hw.
  { intros w. destruct (act w) eqn:Ew; [|split; [by intros []%not_elem_of_nil|intros (-> & _ & ?); congruence]].
    destruct (exit_gateway view via attached w) as [n|] eqn:En; [rewrite list_elem_of_singleton|split; [by intros []%not_elem_of_nil|intros (-> & ? & _); congruence]].
    split; [intros [= -> ->]; by rewrite En|]. intros (-> & ? & _). congruence. }
  rewrite !Hw. destruct v6; naive_solver.
Qed.

Lemma plan_active v6 : act v6 = true ↔ ∃ node, (v6, node) ∈ rap_exits plan.
Proof.
  setoid_rewrite plan_exits. split; [|by intros (? & _ & ?)]. intros Ha. destruct (proj1 (active_spec v6) Ha) as [[node Hn] _]. eauto.
Qed.

Lemma plan_nets n : n ∈ rap_nets plan ↔ ∃ v6, act v6 = true ∧ n ∈ catch_all_halves v6.
Proof.
  unfold route_all_plan. cbn [foldl]. rewrite !plan_family_spec. cbn [rap_nets app]. rewrite elem_of_app.
  assert (∀ w, n ∈ (if act w then catch_all_halves w else []) ↔ act w = true ∧ n ∈ catch_all_halves w) as Hw.
  { intros w. destruct (act w); [tauto|]. split; [by intros []%not_elem_of_nil|by intros [? _]]. }
  rewrite !Hw. split; [intros [?|?]; eauto|]. intros ([] & ?); auto.
Qed.

Lemma plan_failed v6 : v6 ∈ rap_failed_closed plan ↔ act v6 = true ∧ ∃ t, t ∈ to_pin ∧ ip_is_ipv6 t = v6 ∧ t ∉ pinned.
Proof.
  unfold route_all_plan. cbn [foldl]. rewrite !plan_family_spec. cbn [rap_failed_closed app]. rewrite elem_of_app.
  assert (∀ w, v6 ∈ (if act w && negb (bool_decide (unpinned to_pin pinned w = [])) then [w] else []) ↔
    w = v6 ∧ act v6 = true ∧ ∃ t, t ∈ to_pin ∧ ip_is_ipv6 t = v6 ∧ t ∉ pinned) as Hw.
  { intros w. setoid_rewrite <- elem_unpinned. destruct (act w) eqn:Ew; cbn; [|split; [by intros []%not_elem_of_nil|intros (-> & ? & _); congruence]].
    case_bool_decide as Hb; cbn.
    - split; [by intros []%not_elem_of_nil|]. intros (-> & _ & t & Ht). rewrite Hb in Ht. by apply not_elem_of_nil in Ht.
    - rewrite list_elem_of_singleton. split; [|by intros (-> & _)]. intros ->. split; [done|]. split; [done|].
      destruct (unpinned to_pin pinned w) as [|t l]; [done|]. exists t. by left. }
  rewrite !Hw. destruct v6; naive_solver.
Qed.

(** C25: Route-all does not cut its own path. The plan activates a family exactly
    when it has an exit and either its own transport is carried off the tunnel
    (pinned, or on a connected network) or the other family has a transport and
    all of it is; activation installs both catch-all halves and asserts the
    chosen exit; a family is reported as failing closed exactly when it is
    activated with some address unpinned. So if there is any transport, some
    family has transport addresses that all stay reachable off the tunnel. *)
Theorem route_all_keeps_transport :
  (∀ v6 node, (v6, node) ∈ rap_exits plan ↔
     exit_gateway view via attached v6 = Some node ∧ (carried_off v6 ∨ has_transport (negb v6) ∧ carried_off (negb v6))) ∧
  (∀ n, n ∈ rap_nets plan ↔ ∃ v6 node, (v6, node) ∈ rap_exits plan ∧ n ∈ catch_all_halves v6) ∧
  (∀ v6, v6 ∈ rap_failed_closed plan ↔
     (∃ node, (v6, node) ∈ rap_exits plan) ∧ ∃ t, t ∈ to_pin ∧ ip_is_ipv6 t = v6 ∧ t ∉ pinned) ∧
  (∀ t0, t0 ∈ transport → Forall wf_addr transport →
     ∃ v6, has_transport v6 ∧ ∀ t, t ∈ transport → ip_is_ipv6 t = v6 → off_tunnel plan to_pin pinned t).
Proof.
  split_and!.
  - intros v6 node. rewrite plan_exits, active_spec. split; [by intros (? & _ & ?)|]. intros [He Hc]. split; [done|]. split; [|done]. rewrite He. by eexists.
  - intros n. rewrite plan_nets. setoid_rewrite plan_active. split; [intros (v6 & (node & ?) & ?); eauto|intros (v6 & node & ? & ?); eauto].
  - intros v6. by rewrite plan_failed, plan_active.
  - intros t0 Ht0 Hwf. rewrite Forall_forall in Hwf. assert (∀ v6, carried_off v6 → ∀ t, t ∈ transport → ip_is_ipv6 t = v6 → off_tunnel plan to_pin pinned t) as Hc.
    { intros v6 Hv t Ht Hf. unfold off_tunnel. destruct (Hv t Ht Hf); auto. }
    assert (has_transport (ip_is_ipv6 t0)) as Hh by by exists t0. destruct (act (ip_is_ipv6 t0)) eqn:Ea.
    + apply active_spec in Ea as [_ [Ha|[Hh' Ha]]]; eauto.
    + exists (ip_is_ipv6 t0). split; [done|]. intros t Ht Hf. right. right. intros n (v6 & Hact & Hn)%plan_nets.
      apply (halves_family v6); [done|by apply Hwf|]. rewrite Hf.
      destruct (decide (v6 = ip_is_ipv6 t0)) as [->|Hne]; [congruence|]. clear -Hne. by destruct v6, (ip_is_ipv6 t0).
Qed.
End plan.
End route_all.

(** ** Exclusion keeps the host's own routes *)

Section exclusion.
Context `{O : IpNetOps, OL : !IpNetLaws O}.

Definition harmless (local : list IpNet) (underlay : list IpAddr) (w : IpNet) : Prop :=
  (∀ l, l ∈ local → net_contains_net l w = false) ∧
  ∀ u, u ∈ underlay → net_contains w u = true → ∃ l, l ∈ local ∧ net_contains l u = true ∧ net_prefix_len w < net_prefix_len l.

Lemma exclusion_none w local underlay : exclusion_reason w local underlay = None ↔ harmless local underlay w.
Proof.
  unfold exclusion_reason, harmless. destruct (List.find (λ l, net_contains_net l w) local) as [l|] eqn:E1.
  - apply List.find_some in E1 as [Hin Hc]. rewrite <- list_elem_of_In in Hin. split; [done|]. intros [Hn _]. specialize (Hn l Hin). cbn in Hc. congruence.
  - pose proof (List.find_none _ _ E1) as Hn. setoid_rewrite <- list_elem_of_In in Hn. rewrite fmap_None. split.
    + intros E2. split; [done|]. intros u Hu Hw. pose proof (List.find_none _ _ E2 u ltac:(by apply list_elem_of_In)) as Hp. cbn in Hp.
      rewrite Hw in Hp. cbn in Hp. apply negb_false_iff, existsb_exists in Hp as (l & Hl & Hb).
      rewrite <- list_elem_of_In, andb_true_iff, Z.ltb_lt in *. naive_solver.
    + intros [_ Hu]. destruct (List.find _ underlay) as [u|] eqn:E2; [|done]. apply List.find_some in E2 as [Hin Hb].
      rewrite <- list_elem_of_In, andb_true_iff, negb_true_iff in *. destruct Hb as [Hw Hb]. destruct (Hu u Hin Hw) as (l & Hl & Hc & Hlt).
      apply not_true_iff_false in Hb. destruct Hb. apply existsb_exists. exists l.
      rewrite <- list_elem_of_In, andb_true_iff, Z.ltb_lt. done.
Qed.

Lemma exclude_local_spec wanted local underlay :
  let '(keep, out) := exclude_local wanted local underlay in
  keep = List.filter (λ w, bool_decide (exclusion_reason w local underlay = None)) wanted ∧
  out = omap (λ w, r ← exclusion_reason w local underlay; Some (w, r)) wanted.
Proof.
  unfold exclude_local. induction wanted as [|w ws IH] using rev_ind; [done|]. rewrite foldl_snoc, List.filter_app, omap_app. cbn.
  destruct (foldl _ _ ws) as [keep out]. destruct IH as [-> ->]. destruct (exclusion_reason w local underlay) as [r|]; cbn; by rewrite app_nil_r.
Qed.

(** What is installed never takes over what the host already routes. Of the
    wanted prefixes exactly the harmless ones are kept and every other is
    reported once with its reason; for a kept prefix, any address of a local
    network is covered by a strictly longer local prefix, and any underlay
    address it covers (the coordinator, a relay) is covered by a strictly longer
    local one too: longest-prefix matching always prefers the host's own route. *)
Theorem excluded_routes_harmless wanted local underlay :
  Forall wf_net wanted → Forall wf_net local →
  let '(keep, out) := exclude_local wanted local underlay in
  (∀ w, w ∈ keep ↔ w ∈ wanted ∧ harmless local underlay w) ∧
  (∀ w, w ∈ out.*1 ↔ w ∈ wanted ∧ ~ harmless local underlay w) ∧
  (length keep + length out = length wanted)%nat ∧
  (∀ w l ip, w ∈ keep → l ∈ local → wf_addr ip → net_contains l ip = true → net_contains w ip = true → net_prefix_len w < net_prefix_len l).
Proof.
  intros Hw Hl. pose proof (exclude_local_spec wanted local underlay) as Hs. destruct (exclude_local wanted local underlay) as [keep out].
  destruct Hs as [-> ->].
  assert (∀ w, w ∈ List.filter (λ w, bool_decide (exclusion_reason w local underlay = None)) wanted ↔ w ∈ wanted ∧ harmless local underlay w) as Hk.
  { intros w. by rewrite list_elem_of_In, List.filter_In, <- list_elem_of_In, bool_decide_eq_true, exclusion_none. }
  split; [done|]. split_and!.
  - intros w. rewrite list_elem_of_fmap. setoid_rewrite list_elem_of_omap. rewrite <- exclusion_none. split.
    + intros (x & -> & y & Hy & (r & Hr & [= <-])%bind_Some). cbn. by rewrite Hr.
    + intros [Hin Hn]. destruct (exclusion_reason w local underlay) as [r|] eqn:Er; [|done]. exists (w, r). split; [done|]. exists w.
      by rewrite Er.
  - clear. induction wanted as [|w ws IH]; [done|]. cbn. destruct (exclusion_reason w local underlay); cbn in *; lia.
  - intros w l ip [Hin [Hh _]]%Hk Hloc Hi Cl Cw. rewrite Forall_forall in *. destruct (Z.lt_ge_cases (net_prefix_len w) (net_prefix_len l)); [done|].
    exfalso. assert (net_contains_net l w = true) as Hc by (apply (contains_nested l w ip); auto; lia). by rewrite (Hh l Hloc) in Hc.
Qed.

(** ** The wanted set *)

Section wanted.
Context (view : Snapshot) (me : Z) (mine : list IpNet) (policy : option RoutePolicy).

Definition allowed (p : IpNet) : Prop := match policy with Some pol => permits pol p = true | None => True end.

(** Reserved by the network. *)
Definition reserved_route (w : IpNet) : Prop := w ∈ (net_trunc <$> s_reserved_prefixes view) ∧ allowed w.
(** Listed by another member, not as an exit. *)
Definition member_route (w : IpNet) : Prop :=
  allowed w ∧ ∃ m p, m ∈ s_members view ∧ pi_node_id m ≠ me ∧ p ∈ pi_prefixes m ∧ is_exit_marker p = false ∧ net_trunc p = w.

Lemma permitted_spec p : permitted policy p = true ↔ allowed p.
Proof. unfold permitted, allowed. by destruct policy. Qed.

Lemma covers_of_spec c : c ∈ covers_of view policy ↔ reserved_route c.
Proof.
  unfold covers_of, reserved_route. by rewrite elem_of_list_to_set, list_elem_of_In, List.filter_In, <- list_elem_of_In, permitted_spec.
Qed.

Lemma covered_by_spec p : covered_by (covers_of view policy) p = false ↔ ∀ c, reserved_route c → net_contains_net c p = false.
Proof.
  unfold covered_by. rewrite <- not_true_iff_false, existsb_exists. setoid_rewrite <- list_elem_of_In. setoid_rewrite elem_of_bs_iter.
  setoid_rewrite covers_of_spec. setoid_rewrite <- not_true_iff_false. naive_solver.
Qed.

Lemma listed_routes_spec m w :
  w ∈ listed_routes policy m ↔ allowed w ∧ ∃ p, p ∈ pi_prefixes m ∧ is_exit_marker p = false ∧ net_trunc p = w.
Proof.
  unfold listed_routes. rewrite list_elem_of_In, List.filter_In, <- list_elem_of_In, list_elem_of_fmap, permitted_spec.
  setoid_rewrite list_elem_of_In. setoid_rewrite List.filter_In. setoid_rewrite <- list_elem_of_In. setoid_rewrite negb_true_iff. naive_solver.
Qed.

Lemma add_uncovered_spec covers s l w : w ∈ add_uncovered covers s l ↔ w ∈ s ∨ w ∈ l ∧ covered_by covers w = false.
Proof.
  unfold add_uncovered. revert s. induction l as [|p l IH]; intros s; cbn; [split; [by left|]; by intros [?|[[]%not_elem_of_nil _]]|].
  rewrite IH, elem_of_cons. destruct (covered_by covers p) eqn:E; [|rewrite elem_of_union, elem_of_singleton].
  - split; [intros [?|[? ?]]; auto|]. intros [?|[[->|?] ?]]; [by left|congruence|auto].
  - split; [intros [[->|?]|[? ?]]; auto|]. intros [?|[[->|?] ?]]; auto.
Qed.

Lemma add_members_spec covers s ms w :
  w ∈ foldl (λ set m, if pi_node_id m =? me then set else add_uncovered covers set (listed_routes policy m)) s ms ↔
  w ∈ s ∨ covered_by covers w = false ∧ ∃ m, m ∈ ms ∧ pi_node_id m ≠ me ∧ w ∈ listed_routes policy m.
Proof.
  revert s. induction ms as [|m ms IH]; intros s; cbn; [split; [by left|]; by intros [?|(_ & ? & []%not_elem_of_nil & _)]|].
  rewrite IH. setoid_rewrite elem_of_cons. destruct (Z.eqb_spec (pi_node_id m) me) as [Hm|Hm]; [|rewrite add_uncovered_spec].
  - split.
    + intros [?|(? & x & ? & ? & ?)]; [by left|right]. split; [done|]. exists x. auto.
    + intros [?|(? & x & [->|?] & ? & ?)]; [by left|done|right]. split; [done|]. by exists x.
  - split.
    + intros [[?|[? ?]]|(? & x & ? & ? & ?)]; [by left|right..]; (split; [done|]); [exists m|exists x]; auto.
    + intros [?|(? & x & [->|?] & ? & ?)]; [by left; left|left; by right|right]. split; [done|]. by exists x.
Qed.

(** The wanted routes are exactly the reserved prefixes of the network and the
    prefixes other members list that no reserved one covers, as far as the
    policy permits them, never an exit's default, and never anything inside an
    address or LAN of this node's own; each is listed once. *)
Theorem wanted_exact :
  (∀ w, w ∈ os_wanted view me mine policy ↔
     (reserved_route w ∨ member_route w ∧ ∀ c, reserved_route c → net_contains_net c w = false) ∧
     ∀ m, m ∈ mine → 0 < net_prefix_len m → net_contains_net m w = false) ∧
  NoDup (os_wanted view me mine policy).
Proof.
  unfold os_wanted. split; [|apply NoDup_ListNoDup, List.NoDup_filter, NoDup_ListNoDup, bs_iter_NoDup].
  intros w. rewrite list_elem_of_In, List.filter_In, <- list_elem_of_In, elem_of_bs_iter, add_members_spec, covers_of_spec, covered_by_spec.
  setoid_rewrite listed_routes_spec. unfold member_route.
  rewrite negb_true_iff, <- not_true_iff_false, existsb_exists. setoid_rewrite <- list_elem_of_In. setoid_rewrite andb_true_iff.
  setoid_rewrite Z.ltb_lt. split; intros [Hw Hm]; split.
  - destruct Hw as [?|(Hc & m & Hin & Hne & Ha & p & Hp & Hx & <-)]; [by left|]. right. split; [|done]. split; [done|]. by exists m, p.
  - intros m Hin Hp. apply not_true_iff_false. intros Hc. apply Hm. by exists m.
  - destruct Hw as [?|((Ha & m & p & Hin & Hne & Hp & Hx & <-) & Hc)]; [by left|]. right. split; [done|]. exists m. split; [done|]. split; [done|]. split; [done|]. by exists p.
  - intros (m & Hin & Hp & Hc). by rewrite Hm in Hc.
Qed.
End wanted.
End exclusion.

(** ** Bringing the wanted set into the kernel *)

(** What a programmer promises about the routes through the device that it
    lists: a call changes at most the prefix it names - an add that is reported
    as failed has not made the route, but one reported as done need not have,
    and a removal may leave it behind - and a pin is a host route through the
    real gateway, not through the device. *)
Class RouteLaws (K : Type) `{O : IpNetOps, RouteProgrammer K} := {
  kernel : K → gset IpNet;
  kernel_list k l : list_via_dev k = Some l → ∀ n, n ∈ l ↔ n ∈ kernel k;
  kernel_add k n x : net_trunc n = n → x ∈ kernel (add_via_tun k n).1 → x ∈ kernel k ∨ x = n;
  kernel_add_keeps k n x : net_trunc n = n → x ∈ kernel k → x ∈ kernel (add_via_tun k n).1;
  kernel_remove k n x : net_trunc n = n → x ∈ kernel (prog_remove k n).1 → x ∈ kernel k;
  kernel_remove_keeps k n x : net_trunc n = n → x ∈ kernel k → x ≠ n → x ∈ kernel (prog_remove k n).1;
  kernel_pin k ips : kernel (pin_underlay k ips).1 = kernel k;
}.

Section converge.
Context `{O : IpNetOps, OL : !IpNetLaws O} {K : Type} `{RP : RouteProgrammer K, RL : !RouteLaws K}.

(** The calls [call_all] makes, each with the table it is made on. *)
Fixpoint calls_of (f : K → IpNet → K * Result unit string) (k : K) (l : list IpNet) : list (K * IpNet) :=
  match l with [] => [] | n :: l' => (k, n) :: calls_of f (f k n).1 l' end.

Lemma calls_of_snd f k l : (calls_of f k l).*2 = l.
Proof. revert k. induction l as [|n l IH]; intros k; cbn; [done|]. by rewrite IH. Qed.

(** Every failure of a call is reported. *)
Lemma calls_errs f k l k' n e : (k', n) ∈ calls_of f k l → (f k' n).2 = Err e → (n, e) ∈ (call_all f k l).2.
Proof.
  revert k. induction l as [|x l IH]; intros k; cbn; [by intros []%not_elem_of_nil|]. intros [[= <- <-]|Hin]%elem_of_cons He.
  - destruct (f k' n) as [k1 r]. cbn in He. subst r. destruct (call_all f k1 l). by left.
  - destruct (f k x) as [k1 r]. specialize (IH k1 Hin He). destruct (call_all f k1 l) as [k2 errs]. cbn in *. destruct r; [done|by right].
Qed.

(** What the calls keep on the way. *)
Lemma calls_of_before f k l k' n (R : K → K → Prop) : (∀ k, R k k) → (∀ a b c, R a b → R b c → R a c) → (∀ k n, R k (f k n).1) →
  (k', n) ∈ calls_of f k l → R k k'.
Proof.
  intros H1 H2 H3. revert k. induction l as [|x l IH]; intros k; cbn; [by intros []%not_elem_of_nil|]. intros [[= <- <-]|Hin]%elem_of_cons; [apply H1|eauto].
Qed.
Lemma calls_of_after f k l k' n (R : K → K → Prop) : (∀ k, R k k) → (∀ a b c, R a b → R b c → R a c) → (∀ k n, R k (f k n).1) →
  (k', n) ∈ calls_of f k l → R k' (call_all f k l).1.
Proof.
  intros H1 H2 H3. assert (∀ l k, R k (call_all f k l).1) as Hall.
  { intros l0. induction l0 as [|x l' IH]; intros k0; cbn; [apply H1|]. pose proof (H3 k0 x) as Hx. destruct (f k0 x) as [k1 r]. cbn in Hx.
    specialize (IH k1). destruct (call_all f k1 l'). eauto. }
  revert k. induction l as [|x l IH]; intros k; [by intros []%not_elem_of_nil|]. intros [[= <- <-]|Hin]%elem_of_cons; [apply Hall|].
  cbn. cbn in Hin. pose proof (H3 k x) as Hx. destruct (f k x) as [k1 r]. specialize (IH k1 Hin). destruct (call_all f k1 l). done.
Qed.

(** A programmer whose adds say when they failed. *)
Definition adds_tell : Prop := ∀ (k : K) n, is_ok (add_via_tun k n).2 = true → n ∈ kernel (add_via_tun k n).1.

(** One of these calls left the route out, reported an error, or left the route in. *)
Definition left_out (calls : list (K * IpNet)) (n : IpNet) : Prop := ∃ k, (k, n) ∈ calls ∧ n ∉ kernel (add_via_tun k n).1.
Definition add_told (calls : list (K * IpNet)) (n : IpNet) : Prop := ∃ k e, (k, n) ∈ calls ∧ (add_via_tun k n).2 = Err e.
Definition left_in (calls : list (K * IpNet)) (n : IpNet) : Prop := ∃ k, (k, n) ∈ calls ∧ n ∈ kernel (prog_remove k n).1.

Lemma call_adds l k : Forall (λ n, net_trunc n = n) l → let '(k', errs) := call_all add_via_tun k l in
  (∀ n, n ∈ kernel k' → n ∈ kernel k ∨ n ∈ l) ∧ (∀ n, n ∈ kernel k → n ∈ kernel k') ∧
  (∀ n, n ∈ l → n ∈ kernel k' ∨ left_out (calls_of add_via_tun k l) n ∧ (adds_tell → n ∈ errs.*1)) ∧
  (∀ n, n ∈ errs.*1 → n ∈ l ∧ add_told (calls_of add_via_tun k l) n).
Proof.
  revert k. induction l as [|x l IH]; intros k; cbn.
  { intros _. split_and!; [by left|done|by intros n []%not_elem_of_nil|by intros n []%not_elem_of_nil]. }
  intros [Hx Hl]%Forall_cons. pose proof (kernel_add k x) as Ha. pose proof (kernel_add_keeps k x) as Hk.
  destruct (add_via_tun k x) as [k1 r] eqn:Ex. cbn in Ha, Hk. specialize (IH k1 Hl).
  destruct (call_all add_via_tun k1 l) as [k2 errs]. destruct IH as (I1 & I2 & I3 & I4).
  assert (∀ n, n ∈ (match r with Ok _ => errs | Err e => (x, e) :: errs end).*1 ↔ n ∈ errs.*1 ∨ n = x ∧ is_ok r = false) as He.
  { intros n. destruct r as [u|e]; cbn; [naive_solver|]. rewrite elem_of_cons. naive_solver. }
  split_and!.
  - intros n [Hn|?]%I1; [|right; by right]. destruct (Ha n Hx Hn) as [?| ->]; [by left|right; by left].
  - auto.
  - intros n [->|Hn]%elem_of_cons; rewrite He.
    + destruct (decide (x ∈ kernel k1)) as [?|Hno]; [auto|right]. split; [exists k; split; [by left|by rewrite Ex]|].
      intros Ht. right. split; [done|]. apply not_true_iff_false. intros Ho. specialize (Ht k x). rewrite Ex in Ht. auto.
    + destruct (I3 n Hn) as [?|[(k' & Hf & ?) ?]]; [auto|right]. split; [exists k'; split; [by right|done]|auto].
  - intros n. rewrite He. intros [Hn|[-> Hf]].
    + destruct (I4 n Hn) as [? (k' & e & ? & ?)]. split; [by right|]. exists k', e. split; [by right|done].
    + split; [by left|]. destruct r as [u|e]; [done|]. exists k, e. split; [by left|by rewrite Ex].
Qed.

Lemma call_removes l k : Forall (λ n, net_trunc n = n) l → let k' := (call_all prog_remove k l).1 in
  ∀ n, (n ∈ kernel k' → n ∈ kernel k ∧ (n ∈ l → left_in (calls_of prog_remove k l) n)) ∧ (n ∈ kernel k → n ∉ l → n ∈ kernel k').
Proof.
  revert k. induction l as [|x l IH]; intros k; cbn.
  { intros _ n. split; [|done]. intros ?. split; [done|]. by intros []%not_elem_of_nil. }
  intros [Hx Hl]%Forall_cons n. pose proof (kernel_remove k x) as Ha. pose proof (kernel_remove_keeps k x) as Hk.
  assert (∀ l', x ∈ kernel (prog_remove k x).1 → left_in ((k, x) :: l') x) as Hf by (intros l' ?; exists k; by split; [left|]).
  destruct (prog_remove k x) as [k1 r]. cbn in Ha, Hk, Hf. specialize (IH k1 Hl n). cbn in IH.
  destruct (call_all prog_remove k1 l) as [k2 errs]. cbn in *. destruct IH as [I1 I2]. split.
  - intros Hn. destruct (I1 Hn) as [Hk1 Hl1]. split; [by eapply Ha|].
    intros [->|Hi]%elem_of_cons; [auto|]. destruct (Hl1 Hi) as (k' & ? & ?). exists k'. split; [by right|done].
  - intros Hkn [Hne Hn]%not_elem_of_cons. auto.
Qed.

Lemma elem_trunc_set n w : n ∈ trunc_set w → net_trunc n = n.
Proof. intros (x & -> & _)%elem_of_list_to_set%list_elem_of_fmap. apply net_trunc_twice. Qed.
Lemma truncated_iter (s : gset IpNet) : (∀ n, n ∈ s → net_trunc n = n) → Forall (λ n, net_trunc n = n) (bs_iter s).
Proof. intros H. apply Forall_forall. intros n ?%elem_of_bs_iter. auto. Qed.

(** What a reconciliation does to the table, in set terms: everything of [ours]
    that is not wanted is asked away, everything wanted that is missing asked in. *)
Lemma kernel_pass k (away missing : gset IpNet) (w : gset IpNet) :
  missing ⊆ w → (∀ n, n ∈ missing ∨ n ∈ away → net_trunc n = n) →
  let k1 := (call_all prog_remove k (bs_iter away)).1 in
  let '(k2, errs) := call_all add_via_tun k1 (bs_iter missing) in
  let adds := calls_of add_via_tun k1 (bs_iter missing) in
  (∀ n, n ∈ missing → n ∈ kernel k2 ∨ left_out adds n ∧ (adds_tell → n ∈ errs.*1)) ∧ (∀ n, n ∈ errs.*1 → n ∈ w ∧ add_told adds n) ∧
  (∀ n, n ∈ kernel k → n ∉ away → n ∈ kernel k2) ∧
  (∀ n, n ∈ kernel k2 → n ∈ w ∨ n ∈ kernel k ∧ (n ∈ away → left_in (calls_of prog_remove k (bs_iter away)) n)).
Proof.
  intros Hmw Ht. pose proof (call_removes (bs_iter away) k (truncated_iter away ltac:(auto))) as Hr. cbn in Hr. cbn.
  set (k1 := (call_all prog_remove k (bs_iter away)).1) in *. setoid_rewrite elem_of_bs_iter in Hr.
  pose proof (call_adds (bs_iter missing) k1 (truncated_iter missing ltac:(auto))) as Ha.
  destruct (call_all add_via_tun k1 (bs_iter missing)) as [k2 errs]. setoid_rewrite elem_of_bs_iter in Ha. destruct Ha as (A1 & A2 & A3 & A4). split_and!.
  - done.
  - intros n Hn. destruct (A4 n Hn) as [? ?]. split; [by apply Hmw|done].
  - intros n Hk Ha. apply A2. by apply Hr.
  - intros n [Hn|Hn]%A1; [|left; by apply Hmw]. right. by apply (Hr n).
Qed.

Lemma call_none f (k : K) (s : gset IpNet) : s = ∅ → call_all f k (bs_iter s) = (k, []).
Proof. intros ->. by vm_compute. Qed.

(** What a reconciliation asks away, then in. Both branches are one such pass: with
    re-addressing all of [ours] goes. *)
Definition reconcile_plan (rs : RouteSet) (w m : list IpNet) : gset IpNet * gset IpNet :=
  match list_via_dev (rs_programmer rs) with
  | None => (∅, ∅)
  | Some present =>
      let ours := trunc_set present ∖ trunc_set m in
      if readdressed rs (trunc_set m) && negb (bool_decide (ours = ∅)) then (ours, trunc_set w) else (ours ∖ trunc_set w, trunc_set w ∖ ours)
  end.

(** The calls it makes, each with the table it is made on. *)
Definition removes_made (rs : RouteSet) (w m : list IpNet) : list (K * IpNet) :=
  calls_of prog_remove (rs_programmer rs) (bs_iter (reconcile_plan rs w m).1).
Definition adds_made (rs : RouteSet) (w m : list IpNet) : list (K * IpNet) :=
  calls_of add_via_tun (call_all prog_remove (rs_programmer rs) (bs_iter (reconcile_plan rs w m).1)).1 (bs_iter (reconcile_plan rs w m).2).

Lemma reconcile_as_pass rs w m present : list_via_dev (rs_programmer rs) = Some present →
  let '(away, missing) := reconcile_plan rs w m in
  let '(k, errs) := call_all add_via_tun (call_all prog_remove (rs_programmer rs) (bs_iter away)).1 (bs_iter missing) in
  reconcile_via_kernel rs w m = (mkRouteSet k (trunc_set w) (w, m) (Some (trunc_set m)), first_err true errs) ∧
  missing ⊆ trunc_set w ∧ away ⊆ trunc_set present ∖ trunc_set m ∧ (trunc_set present ∖ trunc_set m) ∖ trunc_set w ⊆ away ∧
  ∀ n, n ∈ trunc_set w → n ∈ missing ∨ n ∈ trunc_set present ∧ n ∉ away.
Proof.
  intros Hl. unfold reconcile_via_kernel, reconcile_plan. rewrite Hl. set (ours := trunc_set present ∖ trunc_set m).
  destruct (readdressed rs (trunc_set m) && _).
  - rewrite (call_none _ _ (∅ ∖ trunc_set w)) by set_solver. cbn [fst]. replace (trunc_set w ∖ ∅) with (trunc_set w) by set_solver.
    destruct (call_all add_via_tun _ _) as [k errs]. split; [done|]. set_solver.
  - destruct (call_all add_via_tun _ _) as [k errs]. split; [done|]. split_and!; [set_solver..|].
    intros n Hn. destruct (decide (n ∈ ours)); set_solver.
Qed.

(** Of its own calls, this add left the route out, this removal left it in. *)
Definition add_fails (rs : RouteSet) (w m : list IpNet) (n : IpNet) : Prop := left_out (adds_made rs w m) n.
Definition add_errs (rs : RouteSet) (w m : list IpNet) (n : IpNet) : Prop := add_told (adds_made rs w m) n.
Definition remove_fails (rs : RouteSet) (w m : list IpNet) (n : IpNet) : Prop := left_in (removes_made rs w m) n.

(** What the table holds afterwards, whatever fails. *)
Lemma kernel_after rs w m present :
  list_via_dev (rs_programmer rs) = Some present → Forall (λ n, net_trunc n = n) present →
  let '(rs', r) := reconcile_via_kernel rs w m in
  let own := kernel (rs_programmer rs) ∩ trunc_set m in
  (∀ n, n ∈ trunc_set w → n ∈ kernel (rs_programmer rs') ∨ add_fails rs w m n ∧ (adds_tell → is_ok r = false)) ∧
  (is_ok r = false → ∃ n, n ∈ trunc_set w ∧ add_errs rs w m n) ∧
  own ⊆ kernel (rs_programmer rs') ∧
  (∀ n, n ∈ kernel (rs_programmer rs') → n ∈ trunc_set w ∨ n ∈ own ∨ n ∈ kernel (rs_programmer rs) ∧ remove_fails rs w m n) ∧
  (r = Ok true ∨ is_ok r = false).
Proof.
  intros Hl Ht. pose proof (kernel_list _ _ Hl) as Hk.
  assert (∀ n, n ∈ trunc_set present ↔ n ∈ kernel (rs_programmer rs)) as Hp.
  { intros n. unfold trunc_set. rewrite elem_of_list_to_set, list_elem_of_fmap. rewrite Forall_forall in Ht. setoid_rewrite <- Hk. split.
    - intros (x & -> & Hx). by rewrite Ht.
    - intros Hn. exists n. by rewrite Ht. }
  pose proof (reconcile_as_pass rs w m present Hl) as Hpass. unfold add_fails, add_errs, remove_fails, adds_made, removes_made.
  destruct (reconcile_plan rs w m) as [away missing]. cbn [fst snd].
  pose proof (kernel_pass (rs_programmer rs) away missing (trunc_set w)) as Hq. cbn in Hq.
  destruct (call_all add_via_tun _ _) as [k errs]. destruct Hpass as (-> & H1 & H2 & H3 & H4).
  destruct (Hq H1) as (Q1 & Q2 & Q3 & Q4); [|clear Hq; cbn [rs_programmer]].
  { intros n [Hn|Hn]; [apply H1 in Hn|apply H2, elem_of_difference in Hn as [Hn _]]; by eapply elem_trunc_set. }
  assert (∀ n, n ∈ errs.*1 → is_ok (first_err true errs) = false) as He by (destruct errs as [|[]]; [by intros n []%not_elem_of_nil|done]).
  split_and!.
  - intros n Hn. destruct (H4 n Hn) as [Hm|[Hpr Ha]]; [|left; apply Q3; [by apply Hp|done]]. destruct (Q1 n Hm) as [?|[? ?]]; eauto.
  - destruct errs as [|[x e] errs]; [done|]. intros _. exists x. apply Q2. by left.
  - intros n [Hn Hm]%elem_of_intersection. apply Q3; [done|]. intros Ha. by apply H2, elem_of_difference in Ha as [_ ?].
  - intros n Hn. destruct (Q4 n Hn) as [?|[Hb Hf]]; [by left|]. destruct (decide (n ∈ trunc_set w)); [by left|]. right.
    destruct (decide (n ∈ trunc_set m)); [left; by apply elem_of_intersection|right]. split; [done|]. apply Hf, H3. rewrite !elem_of_difference, Hp. done.
  - destruct errs as [|[] ?]; auto.
Qed.

(** One reconciliation against a readable kernel table brings it to the wanted
    set. Every wanted route is in the table afterwards unless its own add left
    it out, and then the call reports an error if the programmer's adds tell;
    an error is one of an add; the routes of the node's own addresses stay;
    any other route left is one a removal left behind. When no call fails the
    table holds exactly the wanted routes and the node's own. *)
Theorem kernel_reconciled rs w m present :
  list_via_dev (rs_programmer rs) = Some present → Forall (λ n, net_trunc n = n) present →
  let '(rs', r) := reconcile_via_kernel rs w m in
  let own := kernel (rs_programmer rs) ∩ trunc_set m in
  (∀ n, n ∈ trunc_set w → n ∈ kernel (rs_programmer rs') ∨ add_fails rs w m n ∧ (adds_tell → is_ok r = false)) ∧
  (is_ok r = false → ∃ n, n ∈ trunc_set w ∧ add_errs rs w m n) ∧
  own ⊆ kernel (rs_programmer rs') ∧
  (∀ n, n ∈ kernel (rs_programmer rs') → n ∈ trunc_set w ∨ n ∈ own ∨ n ∈ kernel (rs_programmer rs) ∧ remove_fails rs w m n) ∧
  ((∀ n, ~ add_fails rs w m n ∧ ~ add_errs rs w m n ∧ ~ remove_fails rs w m n) → r = Ok true ∧ kernel (rs_programmer rs') = trunc_set w ∪ own).
Proof.
  intros Hl Ht. pose proof (kernel_after rs w m present Hl Ht) as Hk. destruct (reconcile_via_kernel rs w m) as [rs' r].
  destruct Hk as (C1 & C2 & C3 & C4 & C5). split_and!; [done..|]. intros Hnf. split.
  { destruct C5 as [|Hf]; [done|]. destruct (C2 Hf) as (n & _ & Hx). destruct (Hnf n) as (_ & [] & _); done. }
  apply leibniz_equiv. intros n. destruct (Hnf n) as (Hna & _ & Hnr). rewrite elem_of_union. split; [intros [?|[?|[_ ?]]]%C4; auto; done|].
  intros [Hn|Hn]; [|by apply C3]. destruct (C1 n Hn) as [?|[Hf _]]; done.
Qed.
End converge.

(** ** Witnesses *)

(** A kernel table that refuses to add some prefixes and to remove others. *)
Record Table := mkTable { tb_routes : gset IpNet; tb_no_add : gset IpNet; tb_no_remove : gset IpNet }.

Module RoutesExample.
#[export] Instance Table_programmer : RouteProgrammer Table := {
  add_via_tun k n := if bool_decide (n ∈ tb_no_add k) then (k, Err "add refused")
    else (mkTable ({[n]} ∪ tb_routes k) (tb_no_add k) (tb_no_remove k), Ok tt);
  prog_remove k n := if bool_decide (n ∈ tb_no_remove k) then (k, Err "remove refused")
    else (mkTable (tb_routes k ∖ {[n]}) (tb_no_add k) (tb_no_remove k), Ok tt);
  list_via_dev k := Some (bs_iter (tb_routes k));
  pin_underlay k ips := (k, Ok ips);
}.

#[export] Program Instance Table_laws : RouteLaws Table := { kernel := tb_routes }.
Next Obligation. intros k l [= <-] n. apply elem_of_bs_iter. Qed.
Next Obligation. intros k n x _. cbn. case_bool_decide; cbn; set_solver. Qed.
Next Obligation. intros k n x _. cbn. case_bool_decide; cbn; set_solver. Qed.
Next Obligation. intros k n x _. cbn. case_bool_decide; cbn; set_solver. Qed.
Next Obligation. intros k n x _. cbn. case_bool_decide; cbn; set_solver. Qed.
Next Obligation. done. Qed.

Lemma table_tells : adds_tell (K := Table).
Proof. intros k n. cbn. case_bool_decide; cbn; [done|set_solver]. Qed.

(** 10.b.0.0/16, and 10.9.0.4/32. *)
Definition lan (b : Z) : IpNet := Net4 (10 * 2 ^ 24 + b * 2 ^ 16) 16.
Definition own : IpNet := Net4 (10 * 2 ^ 24 + 9 * 2 ^ 16 + 4) 32.
Definition table : Table := mkTable {[lan 1; lan 2; own]} {[lan 4]} ∅.
Definition rs : RouteSet := mkRouteSet table {[lan 1; lan 2]} ([lan 1; lan 2], [own]) (Some {[own]}).
(** The stale one goes, the new one comes, one add is refused. *)
Definition asked : list IpNet := [lan 1; Net4 (10 * 2 ^ 24 + 3 * 2 ^ 16 + 7) 16; lan 4].

Lemma rs_listed : list_via_dev (rs_programmer rs) = Some (bs_iter (tb_routes table)).
Proof. unfold list_via_dev, Table_programmer, rs, rs_programmer. reflexivity. Qed.

Lemma rs_truncated : Forall (λ n, net_trunc n = n) (bs_iter (tb_routes table)).
Proof. by_decide. Qed.
End RoutesExample.

#[local] Existing Instance RoutesExample.Table_programmer.
#[local] Existing Instance RoutesExample.Table_laws.

Lemma kernel_reconciled_witness :
  let '(rs', r) := reconcile_via_kernel RoutesExample.rs RoutesExample.asked [RoutesExample.own] in
  RoutesExample.lan 3 ∈ kernel (rs_programmer rs') ∧ RoutesExample.own ∈ kernel (rs_programmer rs') ∧ is_ok r = false.
Proof.
  pose proof (kernel_reconciled RoutesExample.rs RoutesExample.asked [RoutesExample.own] _ RoutesExample.rs_listed RoutesExample.rs_truncated) as Hx.
  destruct (reconcile_via_kernel _ _ _) as [rs' r] eqn:E. destruct Hx as (H1 & _ & H3 & _). apply (f_equal snd) in E as Er. cbn [snd] in Er.
  split_and!; [|apply H3; by_decide|rewrite <- Er; by_decide].
  destruct (H1 (RoutesExample.lan 3) ltac:(by_decide)) as [?|[Hf _]]; [done|].
  apply (f_equal fst) in E. cbn [fst] in E. rewrite <- E. by_decide.
Defined.

(** The host's LAN 10.1.0.0/16 and a relay at 10.2.0.1 reached through 10.2.0.0/24. *)
Lemma excluded_routes_harmless_witness :
  let wanted := [RoutesExample.lan 1; RoutesExample.lan 2; Net4 (10 * 2 ^ 24) 8] in
  let local := [RoutesExample.lan 1; Net4 (10 * 2 ^ 24 + 2 * 2 ^ 16) 24] in
  let '(keep, out) := exclude_local wanted local [V4 (10 * 2 ^ 24 + 2 * 2 ^ 16 + 1)] in
  length keep = 2%nat ∧ length out = 1%nat ∧ ∀ w, w ∈ keep → harmless local [V4 (10 * 2 ^ 24 + 2 * 2 ^ 16 + 1)] w.
Proof.
  intros wanted local.
  pose proof (excluded_routes_harmless wanted local [V4 (10 * 2 ^ 24 + 2 * 2 ^ 16 + 1)] ltac:(repeat constructor; by_decide) ltac:(repeat constructor; by_decide)) as Hx.
  destruct (exclude_local _ _ _) as [keep out] eqn:E. destruct Hx as (Hk & _).
  apply (f_equal (λ x, (length x.1, length x.2))) in E.
  assert ((length keep, length out) = (2, 1)%nat) as [= Hn Hm] by (etransitivity; [symmetry; exact E|by_decide]).
  split; [done|]. split; [done|]. intros w Hw. by apply Hk.
Defined.

(** An exit for both families; the transport is one pinned IPv4 relay and one
    IPv6 relay that could not be pinned. *)
Lemma route_all_keeps_transport_witness :
  let exit := mkPeerInfo 7 "x" Relay [Net4 0 0; Net6 0 0] "k" true 1 in
  let view := mkSnapshot 5 [exit] [] [] (mkNetworkMtu 1280 "") [] [] in
  let transport := [V4 (198 * 2 ^ 24 + 9); V6 5] in
  let plan := route_all_plan view None None transport transport [V4 (198 * 2 ^ 24 + 9)] in
  (true, 7) ∈ rap_exits plan ∧ true ∈ rap_failed_closed plan ∧
  ∃ v6, has_transport transport v6 ∧
    ∀ t, t ∈ transport → ip_is_ipv6 t = v6 → off_tunnel plan transport [V4 (198 * 2 ^ 24 + 9)] t.
Proof.
  intros exit view transport plan.
  destruct (route_all_keeps_transport view None None transport transport [V4 (198 * 2 ^ 24 + 9)]) as (_ & _ & _ & H).
  split; [by_decide|]. split; [by_decide|]. apply (H (V6 5)); [by_decide|repeat constructor; by_decide].
Defined.
