(* ===== verification/Validate.v ===== *)
(** * The rules a network must pass (crates/nqvpn-coord/src/config.rs, [validate_network_with])

    Every change of a network is normalized and checked by these rules before it
    is committed. Name resolution is a parameter. An error is a constructor per
    [bail!], and [NoIpv4] stands where [ipv4_cidr] would panic. *)

From S2P Require Import Prelude Ordered Ipnet Text Control Config Registry Directory Ipam Join Lpm.

Definition MAX_CREDENTIAL_TTL_MINS : Z := 7 * 24 * 60.
Definition MAX_LANES : Z := 32.

Inductive ConfigError : Type :=
| BadReachability | BadTransport | BadLanes | ZeroSetting | BadTtl | BadMtu | BadGrace | NotOneIpv4 | TwoIpv6
| BothRoles (name : string)
| EmptySecret (name : string) | BadSecret (name : string)
| RelayOnlyField (name : string) | ClientOnlyField (name : string) | DefaultLan (name : string) | NoRelayAddr (name : string)
| BadAutoPort (name : string) | NotHostPort (name : string) | BadPort (name : string) | BadRelayIp (name : string) (ip : IpAddr)
| LanInTunnel (name : string) (c t : IpNet) | PartialOverlap (name : string) (c oc : IpNet) (other : string)
| LanHasAddress (name : string) (c : IpNet) (other : string) (ip : IpAddr)
| UnknownRelay (name relay : string)
| UnusableIp (name : string) (ip : IpAddr) | OutsideTunnel (name : string) (ip : IpAddr) | NotAHost (name : string) (ip : IpAddr)
| ClaimedTwice (prev name : string) (ip : IpAddr)
| NoIpv4.

(** The first guard that holds is the error; the first element that fails is. *)
Definition guards {E} (l : list (bool * E)) : option E := snd <$> List.find fst l.
Fixpoint check_each {A E} (f : A → option E) (l : list A) : option E :=
  match l with [] => None | a :: l' => match f a with Some e => Some e | None => check_each f l' end end.

Section validate.
Context `{O : IpNetOps} (resolve_host : string → Z → list IpAddr).

(** ** Relay hosts *)

Definition HostCache : Type := gmap (string * Z) (list IpAddr).

(** The host without its brackets: 91 and 93. *)
Definition bare_host (host : string) : string := trim_end_matches 93 (trim_start_matches 91 host).

Definition split_host_port (addr : string) : option (string * Z) :=
  match strip_prefix "auto:" addr with
  | Some _ => None
  | None => p ← rsplit_once 58 addr; port ← parse_u16 p.2; Some (bare_host p.1, port)
  end.

Definition prefetch_one (cache : HostCache) (m : MemberCfg) : HostCache :=
  match mc_relay_addr m ≫= split_host_port with
  | Some (host, port) => match ip_parse host with None => <[(host, port) := resolve_host host port]> cache | Some _ => cache end
  | None => cache
  end.
Definition prefetch (cfg : NetworkConfig) : HostCache := foldl prefetch_one ∅ (bt_values (nc_relays cfg)).

Definition hc_lookup (hosts : HostCache) (host : string) (port : Z) : list IpAddr :=
  match hosts !! (host, port) with Some ips => ips | None => resolve_host host port end.

Definition host_ips (hosts : HostCache) (host : string) (port : Z) : list IpAddr :=
  match ip_parse host with Some ip => [ip] | None => hc_lookup hosts host port end.

Definition validate_relay_addr (name addr : string) (cfg : NetworkConfig) (hosts : HostCache) : option ConfigError :=
  match strip_prefix "auto:" addr with
  | Some port => match parse_u16 port with Some _ => None | None => Some (BadAutoPort name) end
  | None =>
      match rsplit_once 58 addr with
      | None => Some (NotHostPort name)
      | Some (host, port) =>
          match parse_u16 port with
          | None => Some (BadPort name)
          | Some port =>
              check_each (λ ip, if check_relay_ip ip cfg then None else Some (BadRelayIp name ip)) (host_ips hosts (bare_host host) port)
          end
      end
  end.

(** ** Normalization *)

Definition trunc_lans (m : MemberCfg) : MemberCfg :=
  mkMemberCfg (mc_secret m) (mc_relay_addr m) (net_trunc <$> mc_local_cidrs m) (mc_internet_gateway m) (mc_preferred_ip4 m) (mc_preferred_ip6 m)
    (mc_legacy_pool m) (mc_want_vpn_ip m) (mc_max_session_mbps m) (mc_preferred_relay m).

Definition normalized (cfg : NetworkConfig) : NetworkConfig :=
  mkNetworkConfig (nc_network_id cfg) (net_trunc <$> nc_cidrs cfg) (nc_settings cfg) (trunc_lans <$> nc_relays cfg) (nc_clients cfg).

(** ** The network as a whole *)

Definition one_of (l : list string) (s : string) : bool := existsb (String.eqb s) l.

Definition check_settings (s : SettingsCfg) : option ConfigError :=
  guards [(negb (one_of ["off"; "warn"; "deny"]%string (sc_relay_reachability s)), BadReachability);
    (negb (one_of ["datagram"; "stream"]%string (sc_transport s)), BadTransport);
    ((sc_lanes s =? 0) || (MAX_LANES <? sc_lanes s), BadLanes);
    ((sc_credential_ttl_mins s =? 0) || (sc_heartbeat_secs s =? 0) || (sc_offline_after s =? 0), ZeroSetting);
    (MAX_CREDENTIAL_TTL_MINS <? sc_credential_ttl_mins s, BadTtl);
    ((sc_mtu s <? 1280) || (9000 <? sc_mtu s), BadMtu);
    (600 <? sc_restart_grace_secs s, BadGrace)].

Definition count_family (v4 : bool) (cidrs : list IpNet) : nat := length (List.filter (λ c, eqb (ip_is_ipv4 (net_addr c)) v4) cidrs).

Definition check_network (cfg : NetworkConfig) : option ConfigError :=
  or_else (check_settings (nc_settings cfg))
    (or_else (guards [(negb (count_family true (nc_cidrs cfg) =? 1)%nat, NotOneIpv4); ((1 <? count_family false (nc_cidrs cfg))%nat, TwoIpv6)])
       (check_each (λ name, if bool_decide (is_Some (nc_relays cfg !! name)) then Some (BothRoles name) else None) (bt_keys (nc_clients cfg)))).

(** ** A member *)

Definition check_secret (name : string) (m : MemberCfg) : option ConfigError :=
  match mc_secret m with
  | Some s => guards [(String.eqb (trim s) "", EmptySecret name); (negb (plausible_secret (trim s)), BadSecret name)]
  | None => None
  end.

Definition opt_some {A} (o : option A) : bool := match o with Some _ => true | None => false end.
Definition gateway_set (m : MemberCfg) : bool := match mc_internet_gateway m with Some true => true | _ => false end.

Definition static_ips (m : MemberCfg) : list IpAddr := opt_list (V4 <$> mc_preferred_ip4 m) ++ opt_list (V6 <$> mc_preferred_ip6 m).

Definition lan_against (name : string) (c : IpNet) (other : string) (om : MemberCfg) : option ConfigError :=
  if String.eqb other name then None else
  or_else
    (check_each (λ oc, if overlaps c oc && negb (bool_decide (net_trunc c = net_trunc oc)) then Some (PartialOverlap name c oc other) else None)
       (mc_local_cidrs om))
    (check_each (λ ip, if net_contains c ip then Some (LanHasAddress name c other ip) else None) (static_ips om)).

Definition check_lan (name : string) (cfg : NetworkConfig) (c : IpNet) : option ConfigError :=
  or_else (check_each (λ t, if overlaps c t then Some (LanInTunnel name c t) else None) (nc_cidrs cfg))
    (check_each (λ p : string * MemberCfg * Role, lan_against name c p.1.1 p.1.2) (cfg_members cfg)).

Definition check_role (name : string) (m : MemberCfg) (role : Role) (cfg : NetworkConfig) (hosts : HostCache) : option ConfigError :=
  match role with
  | Client =>
      guards [(opt_some (mc_relay_addr m) || negb (bool_decide (mc_local_cidrs m = [])) || opt_some (mc_max_session_mbps m) || gateway_set m,
               RelayOnlyField name)]
  | Relay =>
      or_else (guards [(opt_some (mc_preferred_relay m), ClientOnlyField name);
                 (existsb (λ c, net_prefix_len c =? 0) (mc_local_cidrs m), DefaultLan name)])
        match mc_relay_addr m with
        | None => Some (NoRelayAddr name)
        | Some addr => or_else (validate_relay_addr name addr cfg hosts) (check_each (check_lan name cfg) (mc_local_cidrs m))
        end
  end.

Definition check_preferred (name : string) (m : MemberCfg) (cfg : NetworkConfig) : option ConfigError :=
  match mc_preferred_relay m with
  | Some p => if bool_decide (is_Some (nc_relays cfg !! p)) then None else Some (UnknownRelay name p)
  | None => None
  end.

Definition in_tunnel (cfg : NetworkConfig) (ip : IpAddr) : bool := existsb (λ c, net_contains c ip) (nc_cidrs cfg).

Definition check_ip4 (name : string) (cfg : NetworkConfig) (seen : gmap Z string) (ip : Z) : option ConfigError :=
  or_else (guards [(unroutable (V4 ip), UnusableIp name (V4 ip)); (negb (in_tunnel cfg (V4 ip)), OutsideTunnel name (V4 ip))])
    match ipv4_cidr cfg with
    | None => Some NoIpv4
    | Some v4 =>
        if (net_prefix_len v4 <? 31) && (bool_decide (V4 ip = net_network v4) || bool_decide (V4 ip = net_broadcast v4)) then Some (NotAHost name (V4 ip))
        else (λ prev, ClaimedTwice prev name (V4 ip)) <$> seen !! ip
    end.

Definition check_ip6 (name : string) (cfg : NetworkConfig) (seen : gmap Z string) (ip : Z) : option ConfigError :=
  or_else (guards [(unroutable (V6 ip), UnusableIp name (V6 ip)); (negb (in_tunnel cfg (V6 ip)), OutsideTunnel name (V6 ip))])
    ((λ prev, ClaimedTwice prev name (V6 ip)) <$> seen !! ip).

Definition check_static (check : gmap Z string → Z → option ConfigError) (name : string) (ip : option Z) (seen : gmap Z string) : Result (gmap Z string) ConfigError :=
  match ip with
  | None => Ok seen
  | Some ip => match check seen ip with Some e => Err e | None => Ok (<[ip := name]> seen) end
  end.

Fixpoint check_members (cfg : NetworkConfig) (hosts : HostCache) (seen4 seen6 : gmap Z string) (l : list (string * MemberCfg * Role)) : option ConfigError :=
  match l with
  | [] => None
  | (name, m, role) :: l' =>
      or_else (check_secret name m)
        (or_else (check_role name m role cfg hosts)
          (or_else (check_preferred name m cfg)
            match check_static (check_ip4 name cfg) name (mc_preferred_ip4 m) seen4 with
            | Err e => Some e
            | Ok seen4 =>
                match check_static (check_ip6 name cfg) name (mc_preferred_ip6 m) seen6 with
                | Err e => Some e
                | Ok seen6 => check_members cfg hosts seen4 seen6 l'
                end
            end))
  end.

(** The configuration is normalized in place, whatever the verdict. *)
Definition validate_network_with (cfg : NetworkConfig) (hosts : HostCache) : NetworkConfig * Result unit ConfigError :=
  let cfg := normalized cfg in
  (cfg, match or_else (check_network cfg) (check_members cfg hosts ∅ ∅ (cfg_members cfg)) with Some e => Err e | None => Ok tt end).

Definition validate_network (cfg : NetworkConfig) : NetworkConfig * Result unit ConfigError := validate_network_with cfg ∅.
End validate.

(** ** What a valid network is *)

Section valid.
Context `{O : IpNetOps} (resolve_host : string → Z → list IpAddr).

Record valid_settings (s : SettingsCfg) : Prop := {
  vs_reach : sc_relay_reachability s ∈ ["off"; "warn"; "deny"]%string;
  vs_transport : sc_transport s ∈ ["datagram"; "stream"]%string;
  vs_lanes : sc_lanes s ≠ 0 ∧ sc_lanes s ≤ 32;
  vs_ttl : sc_credential_ttl_mins s ≠ 0 ∧ sc_credential_ttl_mins s ≤ 10080;
  vs_beats : sc_heartbeat_secs s ≠ 0 ∧ sc_offline_after s ≠ 0;
  vs_mtu : 1280 ≤ sc_mtu s ≤ 9000;
  vs_grace : sc_restart_grace_secs s ≤ 600;
}.

(** An address the fleet may dial a relay at. *)
Definition dialable (cfg : NetworkConfig) (ip : IpAddr) : Prop :=
  let ip := to_canonical ip in
  (sc_allow_loopback_relays (nc_settings cfg) = true ∧ ip_is_loopback ip = true) ∨
  (unroutable ip = false ∧ (∀ c, c ∈ nc_cidrs cfg → net_contains c ip = false) ∧
   ∀ name m role c, (name, m, role) ∈ cfg_members cfg → c ∈ mc_local_cidrs m → net_contains c ip = false).

Definition valid_relay_addr (hosts : HostCache) (cfg : NetworkConfig) (addr : string) : Prop :=
  match strip_prefix "auto:" addr with
  | Some port => is_Some (parse_u16 port)
  | None => ∃ host port, split_host_port addr = Some (host, port) ∧ ∀ ip, ip ∈ host_ips resolve_host hosts host port → dialable cfg ip
  end.

(** A LAN against the tunnel space and against what other members hold. *)
Definition valid_lan (cfg : NetworkConfig) (name : string) (c : IpNet) : Prop :=
  (∀ t, t ∈ nc_cidrs cfg → overlaps c t = false) ∧
  ∀ other om role, (other, om, role) ∈ cfg_members cfg → other ≠ name →
    (∀ oc, oc ∈ mc_local_cidrs om → overlaps c oc = true → net_trunc c = net_trunc oc) ∧
    (∀ ip, ip ∈ static_ips om → net_contains c ip = false).

Definition valid_role (hosts : HostCache) (cfg : NetworkConfig) (name : string) (m : MemberCfg) (role : Role) : Prop :=
  match role with
  | Client => mc_relay_addr m = None ∧ mc_local_cidrs m = [] ∧ mc_max_session_mbps m = None ∧ mc_internet_gateway m ≠ Some true
  | Relay => mc_preferred_relay m = None ∧ (∃ addr, mc_relay_addr m = Some addr ∧ valid_relay_addr hosts cfg addr) ∧
      ∀ c, c ∈ mc_local_cidrs m → net_prefix_len c ≠ 0 ∧ valid_lan cfg name c
  end.

Definition valid_static (cfg : NetworkConfig) (ip : IpAddr) : Prop :=
  unroutable ip = false ∧ in_tunnel cfg ip = true ∧
  (∀ v4, ip_is_ipv4 ip = true → ipv4_cidr cfg = Some v4 → net_prefix_len v4 < 31 → ip ≠ net_network v4 ∧ ip ≠ net_broadcast v4).

Record valid_member (hosts : HostCache) (cfg : NetworkConfig) (name : string) (m : MemberCfg) (role : Role) : Prop := {
  vm_secret : ∀ s, mc_secret m = Some s → plausible_secret (trim s) = true;
  vm_role : valid_role hosts cfg name m role;
  vm_preferred : ∀ p, mc_preferred_relay m = Some p → is_Some (nc_relays cfg !! p);
  vm_static : ∀ ip, ip ∈ static_ips m → valid_static cfg ip;
}.

Record valid_network (hosts : HostCache) (cfg : NetworkConfig) : Prop := {
  vn_settings : valid_settings (nc_settings cfg);
  vn_one4 : count_family true (nc_cidrs cfg) = 1%nat;
  vn_one6 : (count_family false (nc_cidrs cfg) ≤ 1)%nat;
  vn_names : ∀ name, is_Some (nc_clients cfg !! name) → nc_relays cfg !! name = None;
  vn_members : ∀ name m role, (name, m, role) ∈ cfg_members cfg → valid_member hosts cfg name m role;
  vn_static4 : NoDup (omap (λ p : string * MemberCfg * Role, mc_preferred_ip4 p.1.2) (cfg_members cfg));
  vn_static6 : NoDup (omap (λ p : string * MemberCfg * Role, mc_preferred_ip6 p.1.2) (cfg_members cfg));
}.

(** ** Each check decides its rule *)

Lemma guards_none {E} (l : list (bool * E)) : guards l = None ↔ Forall (λ p, p.1 = false) l.
Proof.
  unfold guards. rewrite fmap_None. induction l as [|[[] e] l IH]; cbn; [by split; [constructor|]| |].
  - split; [done|]. by inversion_clear 1.
  - rewrite IH, Forall_cons. naive_solver.
Qed.

Lemma check_each_none {A E} (f : A → option E) l : check_each f l = None ↔ ∀ a, a ∈ l → f a = None.
Proof.
  induction l as [|a l IH]; cbn; [split; [by intros _ a []%not_elem_of_nil|done]|]. setoid_rewrite elem_of_cons.
  destruct (f a) eqn:Ef; [split; [done|intros H; rewrite H in Ef; [done|by left]]|]. rewrite IH. naive_solver.
Qed.

Lemma or_else_none {A} (a b : option A) : or_else a b = None ↔ a = None ∧ b = None.
Proof. destruct a; naive_solver. Qed.

Lemma check_one_none {A} (b : bool) (e : A) : (if b then Some e else None) = None ↔ b = false.
Proof. by destruct b. Qed.

Lemma check_settings_none s : check_settings s = None ↔ valid_settings s.
Proof.
  unfold check_settings, MAX_LANES, MAX_CREDENTIAL_TTL_MINS. rewrite guards_none, !Forall_cons, Forall_nil. cbn [fst].
  assert (∀ l x, negb (one_of l x) = false ↔ x ∈ l) as Hof.
  { intros l x. unfold one_of. rewrite negb_false_iff, existsb_exists. setoid_rewrite <- list_elem_of_In. setoid_rewrite String.eqb_eq. naive_solver. }
  rewrite !Hof, !orb_false_iff, !Z.eqb_neq, !Z.ltb_ge. split; [|intros []; lia + intuition lia].
  intros. constructor; intuition lia.
Qed.

Lemma check_relay_ip_true ip cfg : check_relay_ip ip cfg = true ↔ dialable cfg ip.
Proof.
  unfold check_relay_ip, dialable. set (a := to_canonical ip). destruct (sc_allow_loopback_relays (nc_settings cfg) && ip_is_loopback a) eqn:El.
  { apply andb_true_iff in El. split; [by left|done]. }
  assert (~ (sc_allow_loopback_relays (nc_settings cfg) = true ∧ ip_is_loopback a = true)) as Hn by (rewrite <- andb_true_iff, El; done).
  assert (∀ l, existsb (λ c, net_contains c a) l = false ↔ ∀ c, c ∈ l → net_contains c a = false) as Hx.
  { intros l. rewrite <- not_true_iff_false, existsb_exists. setoid_rewrite <- list_elem_of_In. setoid_rewrite <- not_true_iff_false. naive_solver. }
  destruct (unroutable a); [naive_solver|]. destruct (existsb _ (nc_cidrs cfg)) eqn:Ec.
  { split; [done|]. intros [?|(_ & Hc & _)]; [done|]. apply Hx in Hc. congruence. }
  assert (∀ c, c ∈ (bt_values (nc_relays cfg) ++ bt_values (nc_clients cfg)) ≫= mc_local_cidrs ↔
    ∃ name m role, (name, m, role) ∈ cfg_members cfg ∧ c ∈ mc_local_cidrs m) as Hl.
  { intros c. rewrite list_elem_of_bind. split.
    - intros (m & Hc & [[n Hm]%elem_of_bt_values|[n Hm]%elem_of_bt_values]%elem_of_app); [exists n, m, Relay|exists n, m, Client]; (split; [|done]); by apply elem_of_cfg_members.
    - intros (n & m & role & Hm & Hc). apply elem_of_cfg_members in Hm. exists m. split; [done|]. apply elem_of_app. rewrite !elem_of_bt_values. destruct role; eauto. }
  rewrite negb_true_iff, Hx. rewrite Hx in Ec. setoid_rewrite Hl. naive_solver.
Qed.

Lemma validate_relay_addr_none name addr cfg hosts :
  validate_relay_addr resolve_host name addr cfg hosts = None ↔ valid_relay_addr hosts cfg addr.
Proof.
  unfold validate_relay_addr, valid_relay_addr, split_host_port. destruct (strip_prefix "auto:" addr) as [port|].
  { destruct (parse_u16 port); [by split; [eexists|]|]. split; [done|by intros []]. }
  destruct (rsplit_once 58 addr) as [[host port]|]; cbn; [|by split; [|intros (? & ? & ? & _)]].
  destruct (parse_u16 port) as [n|]; cbn; [|by split; [|intros (? & ? & ? & _)]].
  rewrite check_each_none. setoid_rewrite <- check_relay_ip_true. split.
  - intros Hc. exists (bare_host host), n. split; [done|]. intros ip Hi. specialize (Hc ip Hi). by destruct (check_relay_ip ip cfg).
  - intros (h & p & [= <- <-] & Hc) ip Hi. by rewrite Hc.
Qed.

Lemma check_lan_none name cfg c : check_lan name cfg c = None ↔ valid_lan cfg name c.
Proof.
  unfold check_lan, valid_lan. rewrite or_else_none, !check_each_none. setoid_rewrite check_one_none.
  apply and_iff_compat_l. split.
  - intros Hl other om role Hin Hne. specialize (Hl _ Hin). unfold lan_against in Hl. cbn in Hl. rewrite (proj2 (String.eqb_neq _ _) Hne) in Hl.
    rewrite or_else_none, !check_each_none in Hl. setoid_rewrite check_one_none in Hl. destruct Hl as [H1 H2]. split; [|done].
    intros oc Ho Hv. specialize (H1 oc Ho). rewrite Hv in H1. by apply negb_false_iff, bool_decide_eq_true in H1.
  - intros Hl [[other om] role] Hin. unfold lan_against. cbn. destruct (String.eqb_spec other name) as [|Hne]; [done|].
    rewrite or_else_none, !check_each_none. setoid_rewrite check_one_none. destruct (Hl _ _ _ Hin Hne) as [H1 H2]. split; [|done].
    intros oc Ho. apply andb_false_iff. destruct (overlaps c oc) eqn:Hv; [right|by left]. apply negb_false_iff, bool_decide_eq_true. by apply H1.
Qed.

Lemma opt_some_false {A} (o : option A) : opt_some o = false ↔ o = None.
Proof. by destruct o. Qed.

Lemma check_role_none name m role cfg hosts : check_role resolve_host name m role cfg hosts = None ↔ valid_role hosts cfg name m role.
Proof.
  destruct role; unfold check_role, valid_role.
  - rewrite guards_none, Forall_singleton. cbn [fst]. rewrite !orb_false_iff, !opt_some_false, negb_false_iff, bool_decide_eq_true.
    assert (gateway_set m = false ↔ mc_internet_gateway m ≠ Some true) as -> by (unfold gateway_set; by destruct (mc_internet_gateway m) as [[]|]).
    tauto.
  - rewrite or_else_none, guards_none, !Forall_cons, Forall_nil. cbn [fst]. rewrite opt_some_false, <- not_true_iff_false, existsb_exists.
    setoid_rewrite <- list_elem_of_In. setoid_rewrite Z.eqb_eq. destruct (mc_relay_addr m) as [addr|]; [|split; [intros [_ ?]; done|intros (_ & (? & ? & _) & _); done]].
    rewrite or_else_none, check_each_none, validate_relay_addr_none. setoid_rewrite check_lan_none. split.
    + intros ((Hp & Hd & _) & Ha & Hl). split; [done|]. split; [eauto|]. intros c Hc. split; [|auto]. intros Hz. apply Hd. by exists c.
    + intros (Hp & (a & [= <-] & Ha) & Hl). split_and!; [done| |done|done|]; [|intros c Hc; by apply Hl]. intros (c & Hc & Hz). by destruct (Hl c Hc).
Qed.

Lemma check_secret_none name m : check_secret name m = None ↔ ∀ s, mc_secret m = Some s → plausible_secret (trim s) = true.
Proof.
  unfold check_secret. destruct (mc_secret m) as [s|]; [|naive_solver]. rewrite guards_none, !Forall_cons, Forall_nil. cbn [fst].
  rewrite negb_false_iff. split; [naive_solver|]. intros Hs. specialize (Hs s eq_refl). split_and!; [|done|done].
  destruct (String.eqb_spec (trim s) "") as [E|]; [|done]. by rewrite E in Hs.
Qed.

Lemma check_preferred_none name m cfg : check_preferred name m cfg = None ↔ ∀ p, mc_preferred_relay m = Some p → is_Some (nc_relays cfg !! p).
Proof.
  unfold check_preferred. destruct (mc_preferred_relay m) as [p|]; [|naive_solver]. case_bool_decide; naive_solver.
Qed.

(** ** The member loop *)

Lemma check_ip4_none name cfg seen ip v4 : ipv4_cidr cfg = Some v4 →
  check_ip4 name cfg seen ip = None ↔ valid_static cfg (V4 ip) ∧ seen !! ip = None.
Proof.
  intros Hv. unfold check_ip4, valid_static. rewrite Hv, or_else_none, guards_none, !Forall_cons, Forall_nil. cbn [fst]. rewrite negb_false_iff.
  destruct ((net_prefix_len v4 <? 31) && _) eqn:Eg.
  - apply andb_true_iff in Eg as [El Eh]. apply Z.ltb_lt in El. apply orb_true_iff in Eh. rewrite !bool_decide_eq_true in Eh.
    split; [intros [_ ?]; done|]. intros [(_ & _ & Hx) _]. destruct (Hx v4 eq_refl eq_refl El). tauto.
  - rewrite fmap_None. apply andb_false_iff in Eg. rewrite orb_false_iff, !bool_decide_eq_false, Z.ltb_ge in Eg.
    split; [|naive_solver]. intros ((? & ? & _) & ?). split_and!; [done..| |done]. intros v _ [= <-] Hl. destruct Eg; [lia|done].
Qed.

Lemma check_ip6_none name cfg seen ip : check_ip6 name cfg seen ip = None ↔ valid_static cfg (V6 ip) ∧ seen !! ip = None.
Proof.
  unfold check_ip6, valid_static. rewrite or_else_none, guards_none, !Forall_cons, Forall_nil, fmap_None. cbn [fst]. rewrite negb_false_iff. naive_solver.
Qed.

Lemma elem_static_ips ip m : ip ∈ static_ips m ↔ (∃ a, mc_preferred_ip4 m = Some a ∧ ip = V4 a) ∨ (∃ a, mc_preferred_ip6 m = Some a ∧ ip = V6 a).
Proof.
  unfold static_ips. rewrite elem_of_app. destruct (mc_preferred_ip4 m), (mc_preferred_ip6 m); cbn; rewrite ?list_elem_of_singleton, ?elem_of_nil; naive_solver.
Qed.

Definition fresh_in (seen : gmap Z string) (l : list Z) : Prop := NoDup l ∧ ∀ a, a ∈ l → seen !! a = None.

Lemma fresh_in_cons seen a l name : fresh_in seen (a :: l) ↔ seen !! a = None ∧ fresh_in (<[a := name]> seen) l.
Proof.
  unfold fresh_in. rewrite NoDup_cons. setoid_rewrite elem_of_cons. split.
  - intros ((Hn & Hd) & Hs). split; [auto|]. split; [done|]. intros b Hb. rewrite lookup_insert_ne; [auto|]. by intros ->.
  - intros (Ha & Hd & Hs). assert (a ∉ l) as Hn by (intros Hin; specialize (Hs a Hin); by rewrite lookup_insert_eq in Hs).
    split; [done|]. intros b [->|Hb]; [done|]. specialize (Hs b Hb). by rewrite lookup_insert_ne in Hs by (intros ->; done).
Qed.

Definition see (name : string) (o : option Z) (seen : gmap Z string) : gmap Z string := match o with Some a => <[a := name]> seen | None => seen end.

(** One field of the loop: what it needs, and what it leaves to the rest. *)
Lemma check_static_fresh (check : gmap Z string → Z → option ConfigError) (P : Z → Prop) name o seen l :
  (∀ ip, check seen ip = None ↔ P ip ∧ seen !! ip = None) →
  match check_static check name o seen with
  | Ok seen' => seen' = see name o seen ∧ (∀ a, o = Some a → P a) ∧ (fresh_in seen (opt_list o ++ l) ↔ fresh_in seen' l)
  | Err _ => ~ ((∀ a, o = Some a → P a) ∧ fresh_in seen (opt_list o ++ l))
  end.
Proof.
  intros Hc. destruct o as [a|]; cbn; [|naive_solver]. specialize (Hc a). destruct (check seen a) as [e|].
  - rewrite (fresh_in_cons _ _ _ name). intros [Hp [Hs _]]. by discriminate (proj2 Hc (conj (Hp a eq_refl) Hs)).
  - destruct (proj1 Hc eq_refl) as [Hp Hs]. split; [done|]. split; [by intros b [= <-]|]. rewrite (fresh_in_cons _ _ _ name). tauto.
Qed.

Lemma check_members_none hosts cfg v4 l seen4 seen6 : ipv4_cidr cfg = Some v4 →
  check_members resolve_host cfg hosts seen4 seen6 l = None ↔
  (∀ p, p ∈ l → valid_member hosts cfg p.1.1 p.1.2 p.2) ∧
  fresh_in seen4 (omap (λ p : string * MemberCfg * Role, mc_preferred_ip4 p.1.2) l) ∧
  fresh_in seen6 (omap (λ p : string * MemberCfg * Role, mc_preferred_ip6 p.1.2) l).
Proof.
  intros Hv. revert seen4 seen6. induction l as [|[[name m] role] l IH]; intros seen4 seen6.
  { cbn. split; [|done]. intros _. split; [by intros p []%not_elem_of_nil|]. split; (split; [constructor|by intros a []%not_elem_of_nil]). }
  cbn [check_members]. rewrite !or_else_none, check_secret_none, check_role_none, check_preferred_none.
  pose proof (check_static_fresh (check_ip4 name cfg) (λ a, valid_static cfg (V4 a)) name (mc_preferred_ip4 m) seen4
    (omap (λ p : string * MemberCfg * Role, mc_preferred_ip4 p.1.2) l) (λ ip, check_ip4_none name cfg seen4 ip v4 Hv)) as H4.
  pose proof (check_static_fresh (check_ip6 name cfg) (λ a, valid_static cfg (V6 a)) name (mc_preferred_ip6 m) seen6
    (omap (λ p : string * MemberCfg * Role, mc_preferred_ip6 p.1.2) l) (λ ip, check_ip6_none name cfg seen6 ip)) as H6.
  assert (∀ (f : MemberCfg → option Z), omap (λ p : string * MemberCfg * Role, f p.1.2) ((name, m, role) :: l) =
    opt_list (f m) ++ omap (λ p : string * MemberCfg * Role, f p.1.2) l) as Ho by (intros f; cbn; by destruct (f m)).
  rewrite !Ho. clear Ho.
  assert ((∀ p, p ∈ (name, m, role) :: l → valid_member hosts cfg p.1.1 p.1.2 p.2) ↔
    valid_member hosts cfg name m role ∧ ∀ p, p ∈ l → valid_member hosts cfg p.1.1 p.1.2 p.2) as ->.
  { setoid_rewrite elem_of_cons. split; [intros Ha; split; [apply (Ha (name, m, role)); by left|auto]|]. intros [? ?] p [->|?]; auto. }
  assert (valid_member hosts cfg name m role ↔ (∀ s, mc_secret m = Some s → plausible_secret (trim s) = true) ∧ valid_role hosts cfg name m role ∧
    (∀ p, mc_preferred_relay m = Some p → is_Some (nc_relays cfg !! p)) ∧
    (∀ a, mc_preferred_ip4 m = Some a → valid_static cfg (V4 a)) ∧ (∀ a, mc_preferred_ip6 m = Some a → valid_static cfg (V6 a))) as ->.
  { split; [intros [? ? ? Hs]; setoid_rewrite elem_static_ips in Hs; split_and!; eauto|]. intros (? & ? & ? & ? & ?). constructor; [done..|].
    intros ip. rewrite elem_static_ips. intros [(a & ? & ->)|(a & ? & ->)]; auto. }
  destruct (check_static (check_ip4 name cfg) _ _ _) as [s4|e]; [|split; [by intros (_ & _ & _ & ?)|tauto]].
  destruct (check_static (check_ip6 name cfg) _ _ _) as [s6|e]; [|split; [by intros (_ & _ & _ & ?)|tauto]].
  destruct H4 as (_ & H4 & ->), H6 as (_ & H6 & ->). rewrite IH. tauto.
Qed.

(** ** The verdict *)

Lemma one_ipv4 cfg : count_family true (nc_cidrs cfg) = 1%nat → ∃ v4, ipv4_cidr cfg = Some v4.
Proof.
  unfold count_family, ipv4_cidr. induction (nc_cidrs cfg) as [|c l IH]; cbn; [done|]. destruct (ip_is_ipv4 (net_addr c)); cbn; eauto.
Qed.

Lemma guards_some {E} (l : list (bool * E)) e : guards l = Some e → (true, e) ∈ l.
Proof. unfold guards. intros ([b x] & [Hin ?]%List.find_some & ->)%fmap_Some. cbn in *. subst. by apply list_elem_of_In. Qed.

Lemma check_each_some {A E} (f : A → option E) l e : check_each f l = Some e → ∃ a, a ∈ l ∧ f a = Some e.
Proof.
  induction l as [|a l IH]; [done|]. cbn. destruct (f a) eqn:Ef; [intros [= ->]; exists a; split; [by left|done]|].
  intros (b & Hb & ?)%IH. exists b. split; [by right|done].
Qed.

Lemma or_else_some {A} (a b : option A) e : or_else a b = Some e → a = Some e ∨ b = Some e.
Proof. destruct a; cbn; auto. Qed.

(** Take an error apart into the guard or element that raised it. *)
Ltac raised :=
  repeat match goal with
  | H : or_else _ _ = Some _ |- _ => apply or_else_some in H as [H|H]
  | H : guards _ = Some _ |- _ => apply guards_some in H; rewrite ?elem_of_cons, ?elem_of_nil in H; naive_solver
  | H : check_each _ _ = Some _ |- _ => apply check_each_some in H as (? & ? & H)
  | H : (match ?x with _ => _ end) = Some _ |- _ => destruct x; try discriminate H
  | H : _ <$> _ = Some _ |- _ => apply fmap_Some in H as (? & _ & H); discriminate H
  end.

Lemma check_network_total cfg : check_network cfg ≠ Some NoIpv4.
Proof. intros Hn. unfold check_network, check_settings in Hn. raised. Qed.

Lemma check_static_total check name ip seen : (∀ seen a, check seen a ≠ Some NoIpv4) → check_static check name ip seen ≠ Err NoIpv4.
Proof. intros Hc. unfold check_static. destruct ip as [a|]; [|done]. destruct (check seen a) eqn:E; [|done]. intros [= ->]. by apply Hc in E. Qed.

Lemma check_ip4_total name cfg v4 seen a : ipv4_cidr cfg = Some v4 → check_ip4 name cfg seen a ≠ Some NoIpv4.
Proof. intros Hv Hn. unfold check_ip4 in Hn. rewrite Hv in Hn. raised. Qed.

Lemma check_ip6_total name cfg seen a : check_ip6 name cfg seen a ≠ Some NoIpv4.
Proof. intros Hn. unfold check_ip6 in Hn. raised. Qed.

Lemma check_members_total hosts cfg l seen4 seen6 : is_Some (ipv4_cidr cfg) → check_members resolve_host cfg hosts seen4 seen6 l ≠ Some NoIpv4.
Proof.
  intros [v4 Hv]. revert seen4 seen6. induction l as [|[[name m] role] l IH]; intros seen4 seen6; [done|]. cbn [check_members]. intros Hn.
  repeat apply or_else_some in Hn as [Hn|Hn].
  - unfold check_secret in Hn. raised.
  - unfold check_role, validate_relay_addr, check_lan, lan_against in Hn. raised.
  - unfold check_preferred in Hn. raised.
  - destruct (check_static (check_ip4 name cfg) _ _ _) as [s4|e] eqn:E4; [|injection Hn as ->; revert E4; apply check_static_total; intros; by eapply check_ip4_total].
    destruct (check_static (check_ip6 name cfg) _ _ _) as [s6|e] eqn:E6; [by apply IH in Hn|].
    injection Hn as ->. revert E6. apply check_static_total. intros. apply check_ip6_total.
Qed.

(** C19: The configuration check accepts exactly the valid networks. Whatever it is
    given, it normalizes every range and LAN to its network address first, and it
    passes the result if and only if the settings are in range, there is one IPv4
    range and at most one IPv6 range, no name is both client and relay, every
    member has only the fields of its role, with a plausible secret, a dialable
    relay address, unambiguous LANs and a usable static address, and no static
    address is given twice. It never reaches the point where the code would
    panic. *)
Theorem validate_exact cfg hosts :
  let '(cfg', r) := validate_network_with resolve_host cfg hosts in
  cfg' = normalized cfg ∧ (r = Ok tt ↔ valid_network hosts cfg') ∧ r ≠ Err NoIpv4.
Proof.
  unfold validate_network_with. set (c := normalized cfg). split; [done|].
  assert (check_network c = None ↔ valid_settings (nc_settings c) ∧ count_family true (nc_cidrs c) = 1%nat ∧ (count_family false (nc_cidrs c) ≤ 1)%nat ∧
    ∀ name, is_Some (nc_clients c !! name) → nc_relays c !! name = None) as Hn.
  { unfold check_network. rewrite !or_else_none, check_settings_none, guards_none, !Forall_cons, Forall_nil, check_each_none. cbn [fst].
    setoid_rewrite elem_of_bt_keys. setoid_rewrite check_one_none. setoid_rewrite bool_decide_eq_false. setoid_rewrite <- eq_None_not_Some.
    rewrite negb_false_iff, Nat.eqb_eq, Nat.ltb_ge. tauto. }
  split.
  - split.
    + destruct (or_else _ _) eqn:E; [done|]. intros _. apply or_else_none in E as [E1 E2]. apply Hn in E1 as (? & H4 & ? & ?).
      destruct (one_ipv4 _ H4) as [v4 Hv]. apply (check_members_none _ _ v4) in E2 as (Hm & [H5 _] & [H6 _]); [|done].
      constructor; try done. intros name m role Hin. by apply (Hm (name, m, role)).
    + intros [? H4 ? ? Hm H5 H6]. destruct (one_ipv4 _ H4) as [v4 Hv]. rewrite (proj2 (or_else_none _ _)); [done|]. split; [by apply Hn|].
      apply (check_members_none _ _ v4); [done|]. split; [intros [[name m] role]; apply Hm|]. by split; (split; [|intros; apply lookup_empty]).
  - destruct (or_else _ _) as [e|] eqn:E; [|done]. intros [= ->]. destruct (check_network c) as [e|] eqn:En; cbn in E.
    + injection E as ->. by apply check_network_total in En.
    + destruct (proj1 Hn eq_refl) as (_ & H4 & _). destruct (one_ipv4 _ H4) as [v4 Hv]. apply check_members_total in E; [done|by eexists].
Qed.

(** ** What follows for routing *)

Context {OL : IpNetLaws O}.

(** What the types of the ipnet crate guarantee of a configuration. *)
Record wf_cfg (cfg : NetworkConfig) : Prop := {
  wc_cidrs : Forall wf_net (nc_cidrs cfg);
  wc_lans : ∀ name m role, (name, m, role) ∈ cfg_members cfg → Forall wf_net (mc_local_cidrs m);
}.

Lemma normalized_members cfg name m role : (name, m, role) ∈ cfg_members (normalized cfg) →
  ∃ m0, (name, m0, role) ∈ cfg_members cfg ∧ (m = m0 ∧ role = Client ∨ m = trunc_lans m0 ∧ role = Relay).
Proof.
  intros Hin. apply elem_of_cfg_members in Hin. destruct role; cbn in Hin.
  - exists m. split; [by apply elem_of_cfg_members|auto].
  - rewrite lookup_fmap in Hin. apply fmap_Some in Hin as (m0 & Hm & ->). exists m0. split; [by apply elem_of_cfg_members|auto].
Qed.

Lemma normalized_wf cfg : wf_cfg cfg → wf_cfg (normalized cfg).
Proof.
  intros [H1 H2]. split.
  - cbn. apply Forall_fmap. eapply Forall_impl; [exact H1|]. intros n. apply trunc_wf.
  - intros name m role (m0 & Hm & [[-> _]|[-> _]])%normalized_members; [by eapply H2|]. cbn. apply Forall_fmap.
    eapply Forall_impl; [by eapply H2|]. intros n. apply trunc_wf.
Qed.

(** Every LAN of a valid, normalized network is a relay's, and a network address. *)
Lemma valid_lan_of hosts cfg name m role c : wf_cfg cfg → valid_network hosts (normalized cfg) →
  (name, m, role) ∈ cfg_members (normalized cfg) → c ∈ mc_local_cidrs m →
  wf_net c ∧ net_trunc c = c ∧ valid_lan (normalized cfg) name c.
Proof.
  intros Hw [_ _ _ _ Hv _ _] Hin Hc. destruct (Hv _ _ _ Hin) as [_ Hr _ _].
  pose proof (wc_lans _ (normalized_wf _ Hw) _ _ _ Hin) as Hf. rewrite Forall_forall in Hf. split; [auto|].
  destruct (normalized_members _ _ _ _ Hin) as (m0 & Hm & [[-> ->]|[-> ->]]); cbn in Hr, Hc.
  - destruct Hr as (_ & Hn & _). rewrite Hn in Hc. by apply not_elem_of_nil in Hc.
  - destruct Hr as (_ & _ & Hl). split; [|by apply Hl]. apply list_elem_of_fmap in Hc as (c0 & -> & Hc0). apply trunc_idemp.
    pose proof (wc_lans _ Hw _ _ _ Hm) as H0. rewrite Forall_forall in H0. auto.
Qed.

Lemma share_overlaps n m ip : wf_net n → wf_net m → wf_addr ip → net_contains n ip = true → net_contains m ip = true → overlaps n m = true.
Proof. intros. unfold overlaps. apply orb_true_iff. by apply (share_network n m ip). Qed.

Lemma NoDup_omap_inj {A B} (f : A → option B) l x y b : NoDup (omap f l) → x ∈ l → y ∈ l → f x = Some b → f y = Some b → x = y.
Proof.
  induction l as [|z l IH]; [by intros _ []%not_elem_of_nil|]. intros Hn Hx Hy Ex Ey.
  assert (∀ w, w ∈ l → f w = Some b → b ∈ omap f l) as Hin by (intros w ? ?; apply list_elem_of_omap; eauto).
  apply elem_of_cons in Hx, Hy. destruct Hx as [->|Hx], Hy as [->|Hy]; [done| | |].
  - cbn in Hn. rewrite Ex in Hn. apply NoDup_cons in Hn as [Hn _]. by destruct (Hn (Hin _ Hy Ey)).
  - cbn in Hn. rewrite Ey in Hn. apply NoDup_cons in Hn as [Hn _]. by destruct (Hn (Hin _ Hx Ex)).
  - apply IH; try done. cbn in Hn. destruct (f z); [by apply NoDup_cons in Hn as [_ ?]|done].
Qed.

(** In a network that passed the check no address has two meanings. Two
    different members' LANs that share an address are the same prefix, a failover
    pair; no LAN shares an address with the tunnel; a static address lies in the
    tunnel, in no LAN, and belongs to one member; and an address the fleet dials
    a relay at lies in no space the VPN routes, unless it is a loopback address
    and those are allowed. *)
Theorem validated_unambiguous cfg hosts cfg' :
  wf_cfg cfg → validate_network_with resolve_host cfg hosts = (cfg', Ok tt) →
  (∀ n1 m1 r1 c1 n2 m2 r2 c2 ip, (n1, m1, r1) ∈ cfg_members cfg' → (n2, m2, r2) ∈ cfg_members cfg' → n1 ≠ n2 →
     c1 ∈ mc_local_cidrs m1 → c2 ∈ mc_local_cidrs m2 → wf_addr ip → net_contains c1 ip = true → net_contains c2 ip = true → c1 = c2) ∧
  (∀ n m r c ip, (n, m, r) ∈ cfg_members cfg' → c ∈ mc_local_cidrs m → wf_addr ip → in_tunnel cfg' ip = true → net_contains c ip = false) ∧
  (∀ n m r ip, (n, m, r) ∈ cfg_members cfg' → ip ∈ static_ips m → in_tunnel cfg' ip = true ∧
     ∀ n2 m2 r2, (n2, m2, r2) ∈ cfg_members cfg' → n2 ≠ n → ip ∉ static_ips m2) ∧
  (∀ n m addr host port ip, (n, m, Relay) ∈ cfg_members cfg' → mc_relay_addr m = Some addr → split_host_port addr = Some (host, port) →
     ip ∈ host_ips resolve_host hosts host port → dialable cfg' ip).
Proof.
  intros Hw Hval. pose proof (validate_exact cfg hosts) as Hx. rewrite Hval in Hx. destruct Hx as (-> & [Hv _] & _). specialize (Hv eq_refl).
  clear Hval. pose proof (normalized_wf _ Hw) as [Hwc _]. rewrite Forall_forall in Hwc. pose proof Hv as [_ _ _ _ Hmem H4 H6]. split_and!.
  - intros n1 m1 r1 c1 n2 m2 r2 c2 ip Hi1 Hi2 Hne Hc1 Hc2 Hip Co1 Co2.
    destruct (valid_lan_of _ _ _ _ _ _ Hw Hv Hi1 Hc1) as (W1 & T1 & _ & Hl1), (valid_lan_of _ _ _ _ _ _ Hw Hv Hi2 Hc2) as (W2 & T2 & _).
    rewrite <- T1, <- T2. apply (Hl1 n2 m2 r2); [done..|]. by apply (share_overlaps c1 c2 ip).
  - intros n m r c ip Hin Hc Hip Ht. destruct (valid_lan_of _ _ _ _ _ _ Hw Hv Hin Hc) as (W & _ & Hl & _).
    unfold in_tunnel in Ht. apply existsb_exists in Ht as (t & Htin & Hct). rewrite <- list_elem_of_In in Htin.
    apply not_true_iff_false. intros Hcc. assert (overlaps c t = true) as Ho by (apply (share_overlaps c t ip); auto). by rewrite (Hl t Htin) in Ho.
  - intros n m r ip Hin Hs. split; [by apply (vm_static _ _ _ _ _ (Hmem _ _ _ Hin))|]. intros n2 m2 r2 Hin2 Hne. rewrite elem_static_ips in *.
    intros Hs2. assert (n2 = n) as ->; [|done].
    destruct Hs as [(a & Ha & ->)|(a & Ha & ->)], Hs2 as [(b & Hb & [= ->])|(b & Hb & [= ->])].
    + by pose proof (NoDup_omap_inj _ _ (n, m, r) (n2, m2, r2) b H4 Hin Hin2 Ha Hb) as [= -> _ _].
    + by pose proof (NoDup_omap_inj _ _ (n, m, r) (n2, m2, r2) b H6 Hin Hin2 Ha Hb) as [= -> _ _].
  - intros n m addr host port ip Hin Ha Hs Hi. destruct (Hmem _ _ _ Hin) as [_ (_ & (addr' & Ha' & Hva) & _) _ _].
    assert (addr' = addr) as -> by congruence. unfold valid_relay_addr in Hva. unfold split_host_port in Hs, Hva.
    destruct (strip_prefix "auto:" addr); [done|]. destruct Hva as (h & p & Hsp & Hd). rewrite Hs in Hsp. injection Hsp as <- <-. auto.
Qed.
End valid.

(** ** Witness *)

Module ValidateExample.
(** 10.99.0.0/16; relays at 1.2.3.4 and 1.2.3.5 share the LAN 192.168.1.0/24,
    written with host bits by one of them. *)
Definition lan (host : Z) : IpNet := Net4 (192 * 2 ^ 24 + 168 * 2 ^ 16 + 256 + host) 24.
Definition relay (addr : string) (host : Z) (ip : option Z) : MemberCfg :=
  mkMemberCfg (Some "s"%string) (Some addr) [lan host] None ip None None None None None.
Definition client : MemberCfg := mkMemberCfg (Some "s"%string) None [] None None None None None None (Some "r1"%string).
Definition cfg : NetworkConfig :=
  mkNetworkConfig "n1" [Net4 (10 * 2 ^ 24 + 99 * 2 ^ 16) 16] settings_default
    {["r1"%string := relay "1.2.3.4:4444" 0 (Some (10 * 2 ^ 24 + 99 * 2 ^ 16 + 1)); "r2"%string := relay "1.2.3.5:4444" 59 None]}
    {["c1"%string := client]}.

Definition no_dns (host : string) (port : Z) : list IpAddr := [].

Lemma cfg_wf : wf_cfg cfg.
Proof.
  split; [repeat constructor; by_decide|]. intros name m role Hin.
  assert (Forall (λ p : string * MemberCfg * Role, Forall (λ c, ip_is_ipv4 (net_addr c) = true ∧ 0 ≤ net_prefix_len c ≤ 32 ∧ 0 ≤ ip_bits (net_addr c) < 2 ^ 32) (mc_local_cidrs p.1.2)) (cfg_members cfg)) as Hf by by_decide.
  rewrite Forall_forall in Hf. specialize (Hf _ Hin). cbn in Hf. eapply Forall_impl; [exact Hf|]. intros [a l|a l] (Hv & Hl & Ha); cbn in *; [|done].
  split; [done|]. unfold net_width. cbn. lia.
Qed.

Lemma cfg_accepted : validate_network_with no_dns cfg ∅ = (normalized cfg, Ok tt).
Proof. unfold validate_network_with. by f_equal. Qed.
End ValidateExample.

Lemma validated_unambiguous_witness :
  in_tunnel (normalized ValidateExample.cfg) (V4 (10 * 2 ^ 24 + 99 * 2 ^ 16 + 1)) = true ∧
  ∀ n m r c ip, (n, m, r) ∈ cfg_members (normalized ValidateExample.cfg) → c ∈ mc_local_cidrs m → wf_addr ip →
    in_tunnel (normalized ValidateExample.cfg) ip = true → net_contains c ip = false.
Proof.
  split; [by_decide|].
  exact (proj1 (proj2 (validated_unambiguous ValidateExample.no_dns ValidateExample.cfg ∅ _ ValidateExample.cfg_wf ValidateExample.cfg_accepted))).
Defined.
