(* ===== verification/Admin.v ===== *)
(** * Administration (crates/nqvpn-coord/src/admin.rs)

    The operator's changes to networks and members. An operation finds the
    network in the map, resolves what it must without its lock, and then acts
    under it: the second part is a function of its own ([.._locked]), so that
    what happened in between is whatever it happened to be. [rows] is the
    [networks] table of the database (crates/nqvpn-coord/src/db.rs); the durable
    registry of a network is its [ns_disk]. *)

From S2P Require Import Prelude Ordered Ipnet Text Control Replay Seal Credential Config Registry Leases Directory Ipam NetState RateLimit Join Validate.
From S2P Require Import Frame Tables RelayNet.

Abbreviation Rows := (gmap string NetworkConfig).

(** ** Specifications *)

Record NetworkSpec := mkNetworkSpec {
  nsp_network_id : string;
  nsp_ipv4_cidr : Z * Z;
  nsp_ipv6_cidr : option (Z * Z);
  nsp_settings : SettingsCfg;
}.

Record MemberSpec := mkMemberSpec {
  msp_relay_addr : option string;
  msp_local_cidrs : list IpNet;
  msp_preferred_ip4 : option Z;
  msp_preferred_ip6 : option Z;
  msp_want_vpn_ip : option bool;
  msp_max_session_mbps : option Z;
  msp_preferred_relay : option string;
  msp_internet_gateway : option bool;
}.

#[export] Instance MemberSpec_eq_dec : EqDecision MemberSpec.
Proof. solve_decision. Defined.

Definition spec_apply (s : MemberSpec) (m : MemberCfg) : MemberCfg :=
  mkMemberCfg (mc_secret m) (msp_relay_addr s) (msp_local_cidrs s) (msp_internet_gateway s) (msp_preferred_ip4 s)
    (msp_preferred_ip6 s) (mc_legacy_pool m) (msp_want_vpn_ip s) (msp_max_session_mbps s) (msp_preferred_relay s).

Definition spec_from_cfg (m : MemberCfg) : MemberSpec :=
  mkMemberSpec (mc_relay_addr m) (mc_local_cidrs m) (mc_preferred_ip4 m) (mc_preferred_ip6 m) (mc_want_vpn_ip m)
    (mc_max_session_mbps m) (mc_preferred_relay m) (mc_internet_gateway m).

(** IPv4 first, then IPv6 if there is one. *)
Definition spec_cidrs (s : NetworkSpec) : list IpNet :=
  Net4 (nsp_ipv4_cidr s).1 (nsp_ipv4_cidr s).2 :: opt_list ((λ p : Z * Z, Net6 p.1 p.2) <$> nsp_ipv6_cidr s).

(** ** Setters *)

Definition set_secret (s : string) (m : MemberCfg) : MemberCfg :=
  mkMemberCfg (Some s) (mc_relay_addr m) (mc_local_cidrs m) (mc_internet_gateway m) (mc_preferred_ip4 m) (mc_preferred_ip6 m)
    (mc_legacy_pool m) (mc_want_vpn_ip m) (mc_max_session_mbps m) (mc_preferred_relay m).
Definition cfg_set_space (cidrs : list IpNet) (s : SettingsCfg) (cfg : NetworkConfig) : NetworkConfig :=
  mkNetworkConfig (nc_network_id cfg) cidrs s (nc_relays cfg) (nc_clients cfg).
Definition ns_set_cfg (cfg : NetworkConfig) (n : NetState) : NetState :=
  mkNetState cfg (ns_registry n) (ns_directory n) (ns_leases n) (ns_sessions n) (ns_started_at n) (ns_deleted n)
    (ns_last_publish_ms n) (ns_flush_scheduled n) (ns_disk n) (ns_events n) (ns_gone n).
Definition ns_set_started (t : Z) (n : NetState) : NetState :=
  mkNetState (ns_cfg n) (ns_registry n) (ns_directory n) (ns_leases n) (ns_sessions n) t (ns_deleted n)
    (ns_last_publish_ms n) (ns_flush_scheduled n) (ns_disk n) (ns_events n) (ns_gone n).
Definition ns_set_deleted (b : bool) (n : NetState) : NetState :=
  mkNetState (ns_cfg n) (ns_registry n) (ns_directory n) (ns_leases n) (ns_sessions n) (ns_started_at n) b
    (ns_last_publish_ms n) (ns_flush_scheduled n) (ns_disk n) (ns_events n) (ns_gone n).
Definition dir_set_hold_down (secs : Z) (d : Directory) : Directory :=
  mkDirectory (dir_gen d) (dir_published d) (dir_published_digest d) (dir_ring d) (dir_owners d) secs
    (dir_reachability d) (dir_reported_mtu d) (dir_traffic d) (dir_exit_readiness d).
Definition dir_set_traffic (t : gmap Z TrafficSample) (d : Directory) : Directory :=
  mkDirectory (dir_gen d) (dir_published d) (dir_published_digest d) (dir_ring d) (dir_owners d) (dir_hold_down_secs d)
    (dir_reachability d) (dir_reported_mtu d) t (dir_exit_readiness d).
(** The instance holding the credentials of [m] is retired. *)
Definition retire_record (now : Z) (why : string) (m : MemberRecord) : MemberRecord :=
  mkMemberRecord (mr_node_id m) (mr_name m) (mr_role m) (mr_pubkey m) (mr_cert_fp m) (mr_ip4 m) (mr_ip6 m) (mr_routes m)
    (mr_relay_addr m) (mr_disabled m) (mr_created_unix m) (mr_last_join_unix m) (mr_last_join_from m)
    (mr_login_gen m ⊕ 1) (Some now) (Some why).
Definition set_record_disabled (b : bool) (m : MemberRecord) : MemberRecord :=
  mkMemberRecord (mr_node_id m) (mr_name m) (mr_role m) (mr_pubkey m) (mr_cert_fp m) (mr_ip4 m) (mr_ip6 m) (mr_routes m)
    (mr_relay_addr m) b (mr_created_unix m) (mr_last_join_unix m) (mr_last_join_from m)
    (mr_login_gen m) (mr_replaced_unix m) (mr_replaced_from m).

(** A change made through [NetworkConfig::member_by_name_mut]. *)
Definition alter_member (f : MemberCfg → MemberCfg) (name : string) (cfg : NetworkConfig) : NetworkConfig :=
  match nc_clients cfg !! name with
  | Some m => mkNetworkConfig (nc_network_id cfg) (nc_cidrs cfg) (nc_settings cfg) (nc_relays cfg) (<[name := f m]> (nc_clients cfg))
  | None => mkNetworkConfig (nc_network_id cfg) (nc_cidrs cfg) (nc_settings cfg) (alter f name (nc_relays cfg)) (nc_clients cfg)
  end.

(** ** Checks *)

Definition name_ok (name : string) : bool :=
  let bs := str_bytes name in
  negb (length bs =? 0)%nat && (length bs <=? 64)%nat &&
  forallb (λ c, is_ascii_alpha c || is_ascii_digit c || (c =? 45) || (c =? 95) || (c =? 46)) bs.

Definition valid_name (name : string) : Result unit ApiError := if name_ok name then Ok tt else Err BadRequest.

(** The addresses a record holds. *)
Definition record_ips (r : MemberRecord) : list IpAddr := opt_list (V4 <$> mr_ip4 r) ++ opt_list (V6 <$> mr_ip6 r).

(** A static address of [name] that another record holds. *)
Definition static_taken (reg : Registry) (name : string) (ip : IpAddr) : bool :=
  existsb (λ r, negb (String.eqb (mr_name r) name) && bool_decide (ip ∈ record_ips r)) (bt_values (rg_members reg)).

Definition validate_assignments `{O : IpNetOps} (cfg : NetworkConfig) (reg : Registry) : Result unit ApiError :=
  if negb (forallb (λ r, forallb (in_tunnel cfg) (record_ips r)) (bt_values (rg_members reg))) then Err BadRequest else
  if existsb (λ p : string * MemberCfg * Role, existsb (static_taken reg p.1.1) (static_ips p.1.2)) (cfg_members cfg)
  then Err AddressInUse else Ok tt.

Definition facts_equal (a b : MemberCfg) : bool := bool_decide (spec_from_cfg a = spec_from_cfg b).

Definition member_changed (old : NetworkConfig) (p : string * MemberCfg * Role) : bool :=
  match member_by_name old p.1.1 with
  | Some (o, old_role) => negb (bool_decide (old_role = p.2) && facts_equal o p.1.2)
  | None => true
  end.

Definition changed_members (old new : NetworkConfig) : list string :=
  (λ p : string * MemberCfg * Role, p.1.1) <$> List.filter (member_changed old) (cfg_members new).

Definition everyone_must_rejoin (old new : NetworkConfig) : bool :=
  let s := nc_settings old in
  let s' := nc_settings new in
  negb (bool_decide (nc_cidrs old = nc_cidrs new)) || negb (sc_mtu s =? sc_mtu s') ||
  negb (String.eqb (sc_transport s) (sc_transport s')) || negb (sc_lanes s =? sc_lanes s') ||
  negb (sc_heartbeat_secs s =? sc_heartbeat_secs s') || negb (sc_credential_ttl_mins s =? sc_credential_ttl_mins s') ||
  negb (sc_max_session_mbps s =? sc_max_session_mbps s').

(** ** Operations *)

(** The clocks an operation reads, and what the database answers: to the save of
    the configuration, to a registry commit, to the reload after a failed one,
    and to the generation mark saved while publishing. *)
Record AdminEnv := mkAdminEnv {
  ae_now : Z; ae_now_ms : Z; ae_cfg_ok : bool; ae_save_ok : bool; ae_load_ok : bool; ae_mark_ok : bool;
}.

Section admin.
Context `{O : IpNetOps, Q : MpscOps, L : CredLib, B : Base64, !JoinLib L}.
Context (enc : Snapshot → list Z) (resolve_host : string → Z → list IpAddr).

(** [Db::save_network], from [save_config]. *)
Definition save_config (rows : Rows) (n : NetState) (ok : bool) : Rows * bool :=
  if ok then (<[nc_network_id (ns_cfg n) := ns_cfg n]> rows, true) else (rows, false).

(** [AppState::publish]. *)
Definition admin_publish (keys : list KeyInfo) (e : AdminEnv) (n : NetState) : NetState :=
  publish enc n keys (ae_now e) (ae_now_ms e) (ae_mark_ok e).

(** Validation of a proposed configuration: the normalized configuration. *)
Definition check_change (cfg : NetworkConfig) (hosts : HostCache) (reg : Registry) : Result NetworkConfig ApiError :=
  match validate_network_with resolve_host cfg hosts with
  | (_, Err _) => Err BadRequest
  | (cfg, Ok _) => let? _ := validate_assignments cfg reg in Ok cfg
  end.

Definition prefetch_hosts (n : NetState) (edit : NetworkConfig → NetworkConfig) : HostCache :=
  prefetch resolve_host (edit (ns_cfg n)).

Definition update_network_locked (keys : list KeyInfo) (rows : Rows) (n : NetState) (hosts : HostCache) (spec : NetworkSpec)
    (e : AdminEnv) : Rows * NetState * Result unit ApiError :=
  match check_change (cfg_set_space (spec_cidrs spec) (nsp_settings spec) (ns_cfg n)) hosts (ns_registry n) with
  | Err err => (rows, n, Err err)
  | Ok cfg =>
      let everyone := everyone_must_rejoin (ns_cfg n) cfg in
      let n := ns_set_cfg cfg n in
      match save_config rows n (ae_cfg_ok e) with
      | (rows, false) => (rows, n, Err Internal)
      | (rows, true) =>
          let n := ns_set_directory (dir_set_hold_down (sc_hold_down_secs (nc_settings cfg)) (ns_directory n)) n in
          let n := if everyone then (reconfigure_all n "network settings changed").1 else n in
          (rows, admin_publish keys e n, Ok tt)
      end
  end.

Definition create_member_locked (rows : Rows) (n : NetState) (hosts : HostCache) (name : string) (role : Role) (spec : MemberSpec)
    (secret : string) (e : AdminEnv) : Rows * NetState * Result string ApiError :=
  match member_by_name (ns_cfg n) name with
  | Some _ => (rows, n, Err BadRequest)
  | None =>
      let m := set_secret secret (spec_apply spec member_cfg_default) in
      match check_change (insert_member name role m (ns_cfg n)) hosts (ns_registry n) with
      | Err err => (rows, n, Err err)
      | Ok cfg =>
          let n := ns_set_cfg cfg n in
          match save_config rows n (ae_cfg_ok e) with
          | (rows, false) => (rows, n, Err Internal)
          | (rows, true) => (rows, ns_announce n, Ok secret)
          end
      end
  end.

Definition reconfigure_named (why : string) (n : NetState) (name : string) : NetState :=
  match id_of (ns_registry n) name with Some node => reconfigure n node why | None => n end.

Definition update_member_locked (keys : list KeyInfo) (rows : Rows) (n : NetState) (hosts : HostCache) (name : string)
    (spec : MemberSpec) (e : AdminEnv) : Rows * NetState * Result unit ApiError :=
  match member_by_name (ns_cfg n) name with
  | None => (rows, n, Err NotFound)
  | Some _ =>
      match check_change (alter_member (spec_apply spec) name (ns_cfg n)) hosts (ns_registry n) with
      | Err err => (rows, n, Err err)
      | Ok cfg =>
          let changed := changed_members (ns_cfg n) cfg in
          let n := ns_set_cfg cfg n in
          match save_config rows n (ae_cfg_ok e) with
          | (rows, false) => (rows, n, Err Internal)
          | (rows, true) =>
              let n := foldl (reconfigure_named "configuration changed") n changed in
              (rows, ns_announce (admin_publish keys e n), Ok tt)
          end
      end
  end.

(** [secret] is what [generate_secret] drew. *)
Definition rotate_member_locked (keys : list KeyInfo) (rows : Rows) (n : NetState) (name secret : string) (e : AdminEnv)
    : Rows * NetState * Result string ApiError :=
  match member_by_name (ns_cfg n) name with
  | None => (rows, n, Err NotFound)
  | Some _ =>
      let n := ns_set_cfg (alter_member (set_secret secret) name (ns_cfg n)) n in
      match save_config rows n (ae_cfg_ok e) with
      | (rows, false) => (rows, n, Err Internal)
      | (rows, true) =>
          match id_of (ns_registry n) name with
          | None => (rows, n, Ok secret)
          | Some node =>
              let reg := set_members (alter (retire_record (ae_now e) "secret rotated") node (rg_members (ns_registry n))) (ns_registry n) in
              match commit_registry (ns_set_registry reg (ns_disk n) n) (ae_save_ok e) (ae_load_ok e) with
              | (n, false) => (rows, n, Err Internal)
              | (n, true) => (rows, admin_publish keys e (close_session n node "secret rotated"), Ok secret)
              end
          end
      end
  end.

(** [AppState::delete_member]. *)
Definition forget_member_locked (keys : list KeyInfo) (rows : Rows) (n : NetState) (name : string) (e : AdminEnv)
    : Rows * NetState * Result unit ApiError :=
  let '(cfg, in_cfg) := remove_member name (ns_cfg n) in
  let n := ns_set_cfg cfg n in
  let node := id_of (ns_registry n) name in
  if negb in_cfg && negb (opt_some node) then (rows, n, Err NotFound) else
  match save_config rows n (ae_cfg_ok e) with
  | (rows, false) => (rows, n, Err Internal)
  | (rows, true) =>
      match node with
      | None => (rows, admin_publish keys e n, Ok tt)
      | Some node =>
          match commit_registry (ns_set_registry (delete_member node (ns_registry n)) (ns_disk n) n) (ae_save_ok e) (ae_load_ok e) with
          | (n, false) => (rows, n, Err Internal)
          | (n, true) =>
              let n := close_session n node "member deleted" in
              let n := ns_set_leases (remove_relay (ns_leases n) node) n in
              let d := ns_directory n in
              let n := ns_set_directory (dir_set_mtu (delete node (dir_reported_mtu d)) (dir_set_traffic (delete node (dir_traffic d)) d)) n in
              (rows, admin_publish keys e n, Ok tt)
          end
      end
  end.

Definition set_disabled_locked (keys : list KeyInfo) (rows : Rows) (n : NetState) (name : string) (disabled : bool) (e : AdminEnv)
    : Rows * NetState * Result unit ApiError :=
  match id_of (ns_registry n) name with
  | None => (rows, n, Err NotFound)
  | Some node =>
      match rg_members (ns_registry n) !! node with
      | None => (rows, n, Err NotFound)
      | Some rec =>
          let reg := set_members (<[node := set_record_disabled disabled rec]> (rg_members (ns_registry n))) (ns_registry n) in
          match commit_registry (ns_set_registry reg (ns_disk n) n) (ae_save_ok e) (ae_load_ok e) with
          | (n, false) => (rows, n, Err Internal)
          | (n, true) =>
              let n := if disabled
                       then let n := close_session n node "member disabled" in
                            ns_set_leases (match mr_role rec with Relay => remove_relay | Client => remove end (ns_leases n) node) n
                       else n in
              (rows, admin_publish keys e n, Ok tt)
          end
      end
  end.

(** ** The whole coordinator *)

Record Coord := mkCoord { co_app : AppState; co_rows : Rows }.

Definition co_keys (c : Coord) : list KeyInfo := key_infos (as_keyring (co_app c)).

Definition as_del_net (id : string) (a : AppState) : AppState :=
  mkAppState (delete id (as_networks a)) (as_keyring a) (as_join_rate a) (as_join_rate_per_min a) (as_control_port a).

(** An operation on one network, with nothing between finding it in the map and
    getting its lock; the runs of Restart.v have the two apart. *)
Definition on_net {T} (c : Coord) (id : string) (f : Rows → NetState → Rows * NetState * Result T ApiError)
    : Coord * Result T ApiError :=
  match as_networks (co_app c) !! id with
  | None => (c, Err NotFound)
  | Some n => let '(rows, n, r) := f (co_rows c) n in (mkCoord (as_set_net id n (co_app c)) rows, r)
  end.

Definition update_network (c : Coord) (id : string) (spec : NetworkSpec) (e : AdminEnv) : Coord * Result unit ApiError :=
  on_net c id (λ rows n, update_network_locked (co_keys c) rows n
    (prefetch_hosts n (cfg_set_space (spec_cidrs spec) (nsp_settings spec))) spec e).

Definition create_member (c : Coord) (id name : string) (role : Role) (spec : MemberSpec) (secret : string) (e : AdminEnv)
    : Coord * Result string ApiError :=
  match valid_name name with
  | Err err => (c, Err err)
  | Ok _ => on_net c id (λ rows n, create_member_locked rows n
              (prefetch_hosts n (insert_member name role (spec_apply spec member_cfg_default))) name role spec secret e)
  end.

Definition update_member (c : Coord) (id name : string) (spec : MemberSpec) (e : AdminEnv) : Coord * Result unit ApiError :=
  on_net c id (λ rows n, update_member_locked (co_keys c) rows n (prefetch_hosts n (alter_member (spec_apply spec) name)) name spec e).

Definition rotate_member (c : Coord) (id name secret : string) (e : AdminEnv) : Coord * Result string ApiError :=
  on_net c id (λ rows n, rotate_member_locked (co_keys c) rows n name secret e).

Definition forget_member (c : Coord) (id name : string) (e : AdminEnv) : Coord * Result unit ApiError :=
  on_net c id (λ rows n, forget_member_locked (co_keys c) rows n name e).

Definition set_disabled (c : Coord) (id name : string) (disabled : bool) (e : AdminEnv) : Coord * Result unit ApiError :=
  on_net c id (λ rows n, set_disabled_locked (co_keys c) rows n name disabled e).

(** [reconnect_member] of api.rs: whether the member was connected. *)
Definition reconnect_member (c : Coord) (id name : string) : Coord * Result bool ApiError :=
  on_net c id (λ rows n,
    match id_of (ns_registry n) name with
    | None => (rows, n, Err NotFound)
    | Some node => (rows, reconfigure n node "reconnect requested", Ok (bool_decide (is_Some (ns_sessions n !! node))))
    end).

(** [AppState::add_network], then [started_at = 0]: nothing to collect before
    publishing. *)
Definition serve_new (cfg : NetworkConfig) (reg : Registry) (e : AdminEnv) (a : AppState) : AppState :=
  as_set_net (nc_network_id cfg) (ns_set_started 0 (ns_announce (ns_new enc cfg reg (ae_now e) (ae_now_ms e)))) a.

(** [uuid] is the one [Registry::new] draws. *)
Definition create_network (c : Coord) (spec : NetworkSpec) (uuid : string) (e : AdminEnv) : Coord * Result unit ApiError :=
  match valid_name (nsp_network_id spec) with
  | Err err => (c, Err err)
  | Ok _ =>
      match validate_network resolve_host (mkNetworkConfig (nsp_network_id spec) (spec_cidrs spec) (nsp_settings spec) ∅ ∅) with
      | (_, Err _) => (c, Err BadRequest)
      | (cfg, Ok _) =>
          if bool_decide (is_Some (as_networks (co_app c) !! nsp_network_id spec)) then (c, Err BadRequest) else
          if negb (ae_cfg_ok e) then (c, Err Internal) else
          (mkCoord (serve_new cfg (registry_new uuid) e (co_app c)) (<[nc_network_id cfg := cfg]> (co_rows c)), Ok tt)
      end
  end.

(** What [delete_network] does under the network's lock, its row already gone. *)
Definition retire_network (n : NetState) : NetState :=
  let n := ns_set_deleted true n in
  foldl (λ n node, close_session n node "network deleted") n (map_to_list (ns_sessions n)).*1.

(** The network leaves the map; whoever resolved it before still holds what is
    returned beside the answer. *)
Definition delete_network (c : Coord) (id : string) (e : AdminEnv) : Coord * option NetState * Result unit ApiError :=
  match as_networks (co_app c) !! id with
  | None => (c, None, Err NotFound)
  | Some n =>
      if negb (ae_cfg_ok e) then (c, Some n, Err Internal) else
      (mkCoord (as_del_net id (co_app c)) (delete id (co_rows c)), Some (retire_network n), Ok tt)
  end.

Definition export (c : Coord) : list NetworkConfig := ns_cfg <$> bt_values (as_networks (co_app c)).

(** ** Import *)

(** Each network on its own: the configurations, normalized. *)
Fixpoint import_check (ids : gset string) (cfgs : list NetworkConfig) : Result (list NetworkConfig) ApiError :=
  match cfgs with
  | [] => Ok []
  | cfg :: rest =>
      let? _ := valid_name (nc_network_id cfg) in
      if bool_decide (nc_network_id cfg ∈ ids) then Err BadRequest else
      if negb (forallb (λ p : string * MemberCfg * Role, name_ok p.1.1) (cfg_members cfg)) then Err BadRequest else
      match validate_network resolve_host cfg with
      | (_, Err _) => Err BadRequest
      | (cfg, Ok _) => let? rest := import_check ({[nc_network_id cfg]} ∪ ids) rest in Ok (cfg :: rest)
      end
  end.

Definition cfg_secrets (cfg : NetworkConfig) : list string :=
  omap (λ p : string * MemberCfg * Role, trim <$> mc_secret p.1.2) (cfg_members cfg).

(** The secrets that will be in force: the imported ones, and those of the
    networks that stay. *)
Definition import_secrets (nets : gmap string NetState) (cfgs : list NetworkConfig) : list string :=
  let kept := omap (λ p : string * NetState, if bool_decide (p.1 ∈ nc_network_id <$> cfgs) then None else Some (ns_cfg p.2)) (bt_iter nets) in
  (cfgs ++ kept) ≫= cfg_secrets.

Fixpoint claim_all (owners : gset string) (secrets : list string) : bool :=
  match secrets with
  | [] => true
  | s :: rest => if bool_decide (s ∈ owners) then false else claim_all ({[s]} ∪ owners) rest
  end.

(** The member's secret was replaced by the import. *)
Definition secret_replaced (old : option NetworkConfig) (name : string) (m : MemberCfg) : bool :=
  match old ≫= λ c, member_by_name c name with
  | Some (o, _) => opt_some (mc_secret o) && negb (bool_decide (mc_secret o = mc_secret m))
  | None => false
  end.

Definition import_record (old : option NetworkConfig) (cfg : NetworkConfig) (now : Z) (rec : MemberRecord) : MemberRecord :=
  match member_by_name cfg (mr_name rec) with
  | None => rec
  | Some (m, role) =>
      if negb (bool_decide (role = mr_role rec)) then retire_record now "role changed by import" rec else
      if secret_replaced old (mr_name rec) m then retire_record now "secret replaced by import" rec else rec
  end.

Definition import_registry (old : option NetworkConfig) (cfg : NetworkConfig) (now : Z) (reg : Registry) : Registry :=
  set_members (import_record old cfg now <$> rg_members reg) reg.

(** The registry an imported network starts from: the running one, or what the
    database still has ([None]: it could not be read), or a new one. *)
Record ImportEnv := mkImportEnv { ie_load : string → option (option Registry); ie_uuid : string → string }.

Definition import_base (nets : gmap string NetState) (ie : ImportEnv) (id : string) : Result Registry ApiError :=
  match nets !! id with
  | Some n => Ok (ns_registry n)
  | None => match ie_load ie id with
            | None => Err Internal
            | Some stored => Ok (default (registry_new (ie_uuid ie id)) stored)
            end
  end.

Fixpoint import_registries (nets : gmap string NetState) (ie : ImportEnv) (now : Z) (cfgs : list NetworkConfig)
    : Result (list (NetworkConfig * Registry)) ApiError :=
  match cfgs with
  | [] => Ok []
  | cfg :: rest =>
      let? reg := import_base nets ie (nc_network_id cfg) in
      let? _ := validate_assignments cfg reg in
      let old := ns_cfg <$> nets !! nc_network_id cfg in
      let? rest := import_registries nets ie now rest in
      Ok ((cfg, import_registry old cfg now reg) :: rest)
  end.

(** Who is thrown off, and why. *)
Definition import_retired (n : NetState) (cfg : NetworkConfig) (rec : MemberRecord) : option (Z * string) :=
  match rg_members (ns_registry n) !! mr_node_id rec with
  | Some before =>
      if mr_login_gen before <? mr_login_gen rec then Some (mr_node_id rec, "credential retired by import"%string) else
      if opt_some (member_by_name cfg (mr_name rec)) then None else Some (mr_node_id rec, "member removed by import"%string)
  | None => if opt_some (member_by_name cfg (mr_name rec)) then None else Some (mr_node_id rec, "member removed by import"%string)
  end.

Definition import_apply (keys : list KeyInfo) (e : AdminEnv) (cfg : NetworkConfig) (reg : Registry) (n : NetState) : NetState :=
  let retire := omap (import_retired n cfg) (bt_values (rg_members reg)) in
  let everyone := everyone_must_rejoin (ns_cfg n) cfg in
  let changed := changed_members (ns_cfg n) cfg in
  let n := ns_set_registry reg reg (ns_set_cfg cfg n) in
  let n := ns_set_directory (dir_set_hold_down (sc_hold_down_secs (nc_settings cfg)) (ns_directory n)) n in
  let n := foldl (λ n p, close_session n p.1 p.2) n retire in
  let n := if everyone then (reconfigure_all n "configuration imported").1
           else foldl (reconfigure_named "configuration imported") n changed in
  admin_publish keys e n.

Definition import_one (keys : list KeyInfo) (e : AdminEnv) (a : AppState) (p : NetworkConfig * Registry) : AppState :=
  match as_networks a !! nc_network_id p.1 with
  | Some n => as_set_net (nc_network_id p.1) (import_apply keys e p.1 p.2 n) a
  | None => serve_new p.1 p.2 e a
  end.

Definition import (c : Coord) (cfgs : list NetworkConfig) (ie : ImportEnv) (e : AdminEnv) : Coord * Result (list string) ApiError :=
  match import_check ∅ cfgs with
  | Err err => (c, Err err)
  | Ok cfgs =>
      let cfgs := sort_by_key nc_network_id cfgs in
      if negb (claim_all ∅ (import_secrets (as_networks (co_app c)) cfgs)) then (c, Err BadRequest) else
      match import_registries (as_networks (co_app c)) ie (ae_now e) cfgs with
      | Err err => (c, Err err)
      | Ok pairs =>
          if negb (ae_save_ok e) then (c, Err Internal) else
          (mkCoord (foldl (import_one (co_keys c) e) (co_app c) pairs)
             (foldl (λ rows p, <[nc_network_id p.1 := p.1]> rows) (co_rows c) pairs),
           Ok (nc_network_id <$> cfgs))
      end
  end.
End admin.

(** ** What the steps of an operation leave alone *)

(** Configuration, records (running and durable) and the deletion mark. *)
Definition ns_core (n : NetState) : NetworkConfig * Registry * Registry * bool :=
  (ns_cfg n, ns_registry n, ns_disk n, ns_deleted n).

(** As [ns_core], up to the generation mark of the registries. *)
Definition same_core (n n' : NetState) : Prop :=
  ns_cfg n' = ns_cfg n ∧ rg_members (ns_registry n') = rg_members (ns_registry n) ∧
  rg_network_uuid (ns_registry n') = rg_network_uuid (ns_registry n) ∧ ns_deleted n' = ns_deleted n.

Section frames.
Context `{O : IpNetOps, Q : MpscOps}.

Lemma close_session_core n node code why : ns_core (close_session_with n node code why) = ns_core n.
Proof. unfold close_session_with. by case_match. Qed.

Lemma close_session_gone n node code why :
  ns_sessions (close_session_with n node code why) = delete node (ns_sessions n).
Proof. unfold close_session_with. case_match; [done|]. by rewrite delete_id. Qed.

Lemma foldl_core {A} (f : NetState → A → NetState) l n : (∀ n x, ns_core (f n x) = ns_core n) → ns_core (foldl f n l) = ns_core n.
Proof. intros Hf. revert n. induction l as [|x l IH]; intros n; cbn; [done|]. by rewrite IH, Hf. Qed.

Lemma reconfigure_all_core n why : ns_core (reconfigure_all n why).1 = ns_core n.
Proof. apply foldl_core. intros. apply close_session_core. Qed.

Lemma reconfigure_named_core why n name : ns_core (reconfigure_named why n name) = ns_core n.
Proof. unfold reconfigure_named. case_match; [apply close_session_core|done]. Qed.

Lemma publish_core enc n keys now now_ms ok : same_core n (publish enc n keys now now_ms ok).
Proof. pose proof (publish_frame enc n keys now now_ms ok). cbn zeta in *. unfold same_core. naive_solver. Qed.

Lemma core_same n n' : ns_core n' = ns_core n → same_core n n'.
Proof. unfold ns_core, same_core. intros [= Hc Hr _ Hd]. by rewrite Hc, Hr, Hd. Qed.

Lemma same_core_trans n1 n2 n3 : same_core n1 n2 → same_core n2 n3 → same_core n1 n3.
Proof. unfold same_core. naive_solver congruence. Qed.
End frames.

(** ** What the published view says of a member *)

Section view.
Context `{O : IpNetOps, Q : MpscOps}.

(** What a member is after publishing: its record, unless it is disabled. *)
Lemma published_member enc n keys now now_ms ok id :
  ∃ d, member (dir_published (ns_directory (publish enc n keys now now_ms ok))) id =
       rg_members (ns_registry n) !! id ≫= λ rec, member_info d (ns_leases n) (id, rec).
Proof.
  unfold publish. cbn [ns_directory ns_cfg ns_registry ns_leases ns_set_publish].
  destruct (recompute enc (ns_directory n) (ns_cfg n) (ns_registry n) (ns_leases n) keys now now_ms) as [d [δ|]] eqn:Hr.
  - apply recompute_some in Hr as (_ & Hp & _). eexists. rewrite <- (next_view_member _ (ns_cfg n) _ _ keys).
    destruct (note_gen _ _) as [reg save]. cbn. rewrite Hp. done.
  - apply recompute_none in Hr as [Hd Hv]. exists d. rewrite <- (next_view_member _ (ns_cfg n) _ _ keys), Hv.
    cbn. by rewrite Hd.
Qed.
End view.

(** ** Members of a configuration *)

Lemma alter_member_lookup f name cfg k :
  member_by_name (alter_member f name cfg) k =
  if decide (k = name) then (λ p : MemberCfg * Role, (f p.1, p.2)) <$> member_by_name cfg k else member_by_name cfg k.
Proof.
  unfold alter_member, member_by_name. destruct (nc_clients cfg !! name) as [m|] eqn:Hc; cbn.
  - destruct (decide (k = name)) as [->|Hne]; [by rewrite lookup_insert_eq, Hc|by rewrite lookup_insert_ne].
  - destruct (decide (k = name)) as [->|Hne].
    + rewrite Hc, lookup_alter_eq. by destruct (nc_relays cfg !! name).
    + by rewrite lookup_alter_ne.
Qed.

Lemma alter_member_id f name cfg : nc_network_id (alter_member f name cfg) = nc_network_id cfg.
Proof. unfold alter_member. by case_match. Qed.

(** ** Records, and the credentials they let through *)

Section admitted.
Context `{L : CredLib}.

(** Every record is filed under its own id. *)
Definition filed (reg : Registry) : Prop := ∀ id m, rg_members reg !! id = Some m → mr_node_id m = id.

Lemma registry_inv_filed reg : registry_inv reg → filed reg.
Proof. intros (H & _) id m Hm. by apply H. Qed.

Lemma admitted_record nets keys token fp now c id n :
  nets id = Some n → filed (ns_registry n) → verify_credential nets keys token fp now = Ok (c, id) →
  ∃ rec, rg_members (ns_registry n) !! cl_node_id c = Some rec ∧ mr_disabled rec = false ∧ mr_login_gen rec ≤ cl_login_gen c.
Proof.
  intros Hn Hf. unfold verify_credential. destruct (peek_network token) as [id'|]; [|done].
  destruct (nets id') as [n'|] eqn:Hn'; [|done]. destruct (ns_deleted n'); [done|].
  destruct (verify _ _ _ _) as [c'|]; [|done].
  destruct (rg_members (ns_registry n') !! _) as [rec|] eqn:Hr; [|done].
  destruct (Z.eqb_spec (mr_node_id rec) (cl_node_id c')) as [He|]; [|done]. destruct (mr_disabled rec) eqn:Hd; [done|].
  destruct (Z.ltb_spec (cl_login_gen c') (mr_login_gen rec)); [done|]. cbn [negb]. case_match; [done|].
  intros [= <- <-]. rewrite Hn in Hn'. injection Hn' as <-. exists rec. split_and!; [|done|lia].
  apply Hf in Hr as Hk. rewrite <- Hk, He in Hr. exact Hr.
Qed.
End admitted.

(** The instance of [node] with the credentials issued up to login generation
    [g] is locked out of [n], which is served as [id]: it has no control session,
    the coordinator admits none of those credentials, and neither does a relay
    that follows the published view. *)
Definition locked_out `{L : CredLib} (n : NetState) (id : string) (node g : Z) : Prop :=
  ns_sessions n !! node = None ∧
  (∀ nets keys token fp now c, nets id = Some n → verify_credential nets keys token fp now = Ok (c, id) →
     cl_node_id c = node → g < cl_login_gen c) ∧
  (enabled (ns_registry n) node = true → ∀ c elapsed, cl_node_id c = node → cl_login_gen c ≤ g →
     vouch (dir_published (ns_directory n)) c elapsed = Err VStaleLogin).

Section lockout.
Context `{O : IpNetOps, Q : MpscOps, L : CredLib}.

Lemma published_locks_out enc n keys now now_ms ok id node rec g :
  filed (ns_registry n) → rg_members (ns_registry n) !! node = Some rec → g < mr_login_gen rec →
  ns_sessions n !! node = None → locked_out (publish enc n keys now now_ms ok) id node g.
Proof.
  intros Hf Hr Hg Hs. destruct (publish_core enc n keys now now_ms ok) as (_ & Hm & _ & _). split_and!.
  - apply not_elem_of_dom. destruct (publish_frame enc n keys now now_ms ok) as (_ & _ & _ & _ & _ & _ & -> & _).
    by apply not_elem_of_dom.
  - intros nets ks token fp t c Hn Hv Hc. destruct (admitted_record _ _ _ _ _ _ _ _ Hn ltac:(unfold filed; rewrite Hm; exact Hf) Hv)
      as (rec' & Hr' & _ & Hle). rewrite Hm, Hc, Hr in Hr'. injection Hr' as <-. lia.
  - unfold enabled. rewrite Hm, Hr, negb_true_iff. intros Hd c elapsed Hc Hle.
    destruct (published_member enc n keys now now_ms ok node) as [d Hp]. unfold vouch. rewrite Hc, Hp, Hr. cbn.
    rewrite Hd. cbn. by rewrite (proj2 (Z.ltb_lt _ _)) by lia.
Qed.
End lockout.

Section rotate.
Context `{O : IpNetOps, Q : MpscOps, L : CredLib, B : Base64, !JoinLib L}.

Lemma join_other_secret enc n k port name req peer je m role s :
  member_by_name (ns_cfg n) name = Some (m, role) → mc_secret m = Some s → trim (jr_secret req) ≠ trim s →
  join_locked enc n k port name req peer je = (n, Returned (Err BadCredentials)).
Proof.
  intros Hm Hs Hne. unfold join_locked, join_check. rewrite Hm. destruct (ns_deleted n); [done|].
  destruct (secret_is _ m) eqn:Hi; [|done]. apply secret_is_spec in Hi as (s' & Hs' & Ht). congruence.
Qed.

(** Where a successful rotation leaves the network. *)
Lemma rotated enc keys rows n name secret e rows' n' s p :
  member_by_name (ns_cfg n) name = Some p → rotate_member_locked enc keys rows n name secret e = (rows', n', Ok s) →
  let cfg := alter_member (set_secret secret) name (ns_cfg n) in
  s = secret ∧ ns_cfg n' = cfg ∧ rows' = <[nc_network_id (ns_cfg n) := cfg]> rows ∧
  match by_name (ns_registry n) name with
  | None => rg_members (ns_registry n') = rg_members (ns_registry n)
  | Some rec =>
      let node := mr_node_id rec in
      let reg := set_members (alter (retire_record (ae_now e) "secret rotated") node (rg_members (ns_registry n))) (ns_registry n) in
      n' = admin_publish enc keys e (close_session (ns_set_registry reg reg (ns_set_cfg cfg n)) node "secret rotated")
  end.
Proof.
  intros Hm. unfold rotate_member_locked, save_config, id_of, commit_registry. rewrite Hm. cbn zeta.
  destruct (ae_cfg_ok e); [|done]. cbn [ns_registry ns_set_cfg ns_cfg]. rewrite alter_member_id.
  destruct (by_name (ns_registry n) name) as [rec|]; cbn [fmap option_fmap option_map]; [|by intros [= <- <- <-]].
  destruct (ae_save_ok e); [|done]. intros [= <- <- <-]. split_and!; try done.
  unfold admin_publish. etransitivity; [apply publish_core|].
  unfold close_session. by match goal with |- ns_cfg (close_session_with ?a ?b ?c ?d) = _ =>
    pose proof (close_session_core a b c d) as [= -> _ _ _] end.
Qed.
End rotate.

(** C8: Rotating a secret takes effect everywhere at once. When it succeeds, the
    new secret is the member's in the running configuration and in the database,
    where nothing else changed; a join with any other secret is refused from then
    on; and if the member had joined, its login generation moved on, durably, so
    that the credentials issued before are refused by the coordinator and by
    every relay that follows the published view, and its control session is
    gone. Other networks and other records are untouched. *)
Theorem rotation_retires `{O : IpNetOps, Q : MpscOps, L : CredLib, B : Base64, !JoinLib L} enc c id name secret e c' s n m role
    (Hn : as_networks (co_app c) !! id = Some n) (Hid : nc_network_id (ns_cfg n) = id)
    (Hm : member_by_name (ns_cfg n) name = Some (m, role)) (Hinv : registry_inv (ns_registry n))
    (Hr : rotate_member enc c id name secret e = (c', Ok s)) :
  s = secret ∧ (∀ id', id' ≠ id → as_networks (co_app c') !! id' = as_networks (co_app c) !! id') ∧
  ∃ n', as_networks (co_app c') !! id = Some n' ∧ co_rows c' = <[id := ns_cfg n']> (co_rows c) ∧
    (∀ k, member_by_name (ns_cfg n') k = if decide (k = name) then Some (set_secret secret m, role) else member_by_name (ns_cfg n) k) ∧
    (∀ req peer je k port, trim (jr_secret req) ≠ trim secret →
       join_locked enc n' k port name req peer je = (n', Returned (Err BadCredentials))) ∧
    (∀ rec, by_name (ns_registry n) name = Some rec → u_range 64 (mr_login_gen rec + 1) → 0 ≤ mr_login_gen rec →
       let node := mr_node_id rec in
       rg_members (ns_registry n') = <[node := retire_record (ae_now e) "secret rotated" rec]> (rg_members (ns_registry n)) ∧
       rg_members (ns_disk n') = rg_members (ns_registry n') ∧ locked_out n' id node (mr_login_gen rec)).
Proof.
  unfold rotate_member, on_net in Hr. rewrite Hn in Hr. destruct (rotate_member_locked _ _ _ _ _ _ _) as [[rows n'] r] eqn:Hl.
  injection Hr as <- ->. eapply rotated in Hl as (-> & Hcfg & -> & Hrec); [|exact Hm]. cbn [co_app co_rows as_networks as_set_net].
  assert (∀ k, member_by_name (ns_cfg n') k =
    if decide (k = name) then Some (set_secret secret m, role) else member_by_name (ns_cfg n) k) as Hmem.
  { intros k. rewrite Hcfg, alter_member_lookup. case_decide as Hk; [|done]. by rewrite Hk, Hm. }
  split; [done|]. split; [intros; by rewrite lookup_insert_ne|]. exists n'. rewrite lookup_insert_eq, Hcfg, Hid. split_and!; try done.
  - rewrite <- Hcfg. exact Hmem.
  - intros req peer je k port Hne. apply (join_other_secret enc n' k port name req peer je (set_secret secret m) role secret); [|done|done].
    by rewrite Hmem, decide_True.
  - intros rec Hb Hu H0. cbn zeta. rewrite Hb in Hrec. cbn zeta in Hrec.
    apply by_name_some in Hb as Hk. destruct Hk as (_ & i & Hi). pose proof (proj1 (proj1 Hinv _ _ Hi)) as <-.
    set (reg := set_members _ _) in Hrec.
    assert (rg_members reg = <[mr_node_id rec := retire_record (ae_now e) "secret rotated" rec]> (rg_members (ns_registry n))) as Hreg.
    { cbn. apply map_eq. intros k. destruct (decide (k = mr_node_id rec)) as [->|Hne];
        [by rewrite lookup_alter_eq, lookup_insert_eq, Hi|by rewrite lookup_alter_ne, lookup_insert_ne]. }
    set (n1 := close_session _ _ _) in Hrec.
    assert (ns_core n1 = (alter_member (set_secret secret) name (ns_cfg n), reg, reg, ns_deleted n)) as Hcore
      by apply close_session_core.
    injection Hcore as Hc1 Hr1 Hd1 _. unfold admin_publish in Hrec.
    destruct (publish_frame enc n1 (co_keys c) (ae_now e) (ae_now_ms e) (ae_mark_ok e)) as (_ & _ & _ & Hm2 & _ & Hd2 & _).
    rewrite <- Hrec in Hm2, Hd2. rewrite Hm2, Hd2, Hr1 by by rewrite Hr1, Hd1. split_and!; [done|done|].
    rewrite Hrec. apply (published_locks_out _ _ _ _ _ _ _ _ (retire_record (ae_now e) "secret rotated" rec)).
    + rewrite Hr1. intros j x. rewrite Hreg, lookup_insert_Some. intros [[<- <-]|[_ Hj]]; [done|]. by apply (proj1 Hinv).
    + by rewrite Hr1, Hreg, lookup_insert_eq.
    + cbn. rewrite wadd64_small by (unfold u_range in Hu; lia). lia.
    + unfold n1, close_session. rewrite close_session_gone. apply lookup_delete_eq.
Qed.

(** ** Import *)

Lemma claim_all_true owners l : claim_all owners l = true ↔ NoDup l ∧ ∀ s, s ∈ l → s ∉ owners.
Proof.
  revert owners. induction l as [|s l IH]; intros owners; cbn.
  - split; [|done]. intros _. split; [constructor|]. intros s Hs. inversion Hs.
  - case_bool_decide as Hs; [|rewrite IH, NoDup_cons]; [split; [done|]; intros [_ H]; by destruct (H s ltac:(left))|].
    setoid_rewrite elem_of_cons. set_solver.
Qed.

Lemma normalized_id cfg : nc_network_id (normalized cfg) = nc_network_id cfg.
Proof. done. Qed.

(** A fold that writes each key once. *)
Lemma foldl_once {A E} (key : E → string) (upd : E → option A → A) l (m : gmap string A) :
  NoDup (key <$> l) →
  (∀ b, b ∈ l → foldl (λ m b, <[key b := upd b (m !! key b)]> m) m l !! key b = Some (upd b (m !! key b))) ∧
  (∀ k, k ∉ key <$> l → foldl (λ m b, <[key b := upd b (m !! key b)]> m) m l !! k = m !! k).
Proof.
  revert m. induction l as [|x l IH]; intros m Hnd; cbn [foldl fmap list_fmap].
  - split; [intros b Hb; inversion Hb|done].
  - apply NoDup_cons in Hnd as [Hx Hnd]. destruct (IH (<[key x := upd x (m !! key x)]> m) Hnd) as [H1 H2]. split.
    + intros b [->|Hb]%elem_of_cons; [by rewrite H2, lookup_insert_eq|]. rewrite H1 by done.
      assert (key b ≠ key x) by (intros He; apply Hx; rewrite <- He; by apply list_elem_of_fmap_2).
      by rewrite lookup_insert_ne.
    + intros k [Hne Hk]%not_elem_of_cons. by rewrite H2, lookup_insert_ne.
Qed.

Section import_lemmas.
Context `{O : IpNetOps, Q : MpscOps, L : CredLib, B : Base64, !JoinLib L}.
Context (enc : Snapshot → list Z) (resolve_host : string → Z → list IpAddr).

Lemma import_check_ok ids cfgs out : import_check resolve_host ids cfgs = Ok out →
  out = normalized <$> cfgs ∧ NoDup (nc_network_id <$> cfgs) ∧ (∀ id, id ∈ nc_network_id <$> cfgs → id ∉ ids) ∧
  Forall (λ cfg, validate_network resolve_host cfg = (normalized cfg, Ok tt)) cfgs.
Proof.
  revert ids out. induction cfgs as [|cfg cfgs IH]; intros ids out; cbn [import_check fmap list_fmap].
  - intros [= <-]. split_and!; [done|constructor|set_solver|constructor].
  - unfold valid_name at 1. destruct (name_ok _); [|done]. case_bool_decide as Hid; [done|]. case_match; [done|].
    destruct (validate_network resolve_host cfg) as [cfg' [[]|]] eqn:Hv; [|done].
    assert (cfg' = normalized cfg) as -> by by injection Hv.
    cbn [nc_network_id normalized]. destruct (import_check _ _ _) as [rest|] eqn:Hr; [|done]. intros [= <-].
    apply IH in Hr as (-> & Hnd & Hni & Hall). split_and!; [done| | |].
    + constructor; [|done]. intros Hin. apply (Hni _ Hin). set_solver.
    + intros id [->|Hin]%elem_of_cons; [done|]. apply Hni in Hin. set_solver.
    + by constructor.
Qed.

Lemma import_registries_ok nets ie now cfgs pairs : import_registries nets ie now cfgs = Ok pairs →
  pairs.*1 = cfgs ∧
  ∀ p, p ∈ pairs → ∃ base, import_base nets ie (nc_network_id p.1) = Ok base ∧ validate_assignments p.1 base = Ok tt ∧
    p.2 = import_registry (ns_cfg <$> nets !! nc_network_id p.1) p.1 now base.
Proof.
  revert pairs. induction cfgs as [|cfg cfgs IH]; intros pairs; cbn [import_registries].
  - intros [= <-]. split; [done|]. intros p Hp. inversion Hp.
  - destruct (import_base _ _ _) as [base|] eqn:Hb; [|done]. destruct (validate_assignments _ _) as [[]|] eqn:Hv; [|done].
    destruct (import_registries _ _ _ cfgs) as [rest|]; [|done]. intros [= <-]. destruct (IH _ eq_refl) as [<- Hr].
    split; [done|]. intros p [->|Hp]%elem_of_cons; [|by apply Hr]. by exists base.
Qed.

(** What an imported network becomes. *)
Definition imported_net (keys : list KeyInfo) (e : AdminEnv) (p : NetworkConfig * Registry) (o : option NetState) : NetState :=
  match o with
  | Some n => import_apply enc keys e p.1 p.2 n
  | None => ns_set_started 0 (ns_announce (ns_new enc p.1 p.2 (ae_now e) (ae_now_ms e)))
  end.

Lemma import_fold keys e a pairs :
  as_networks (foldl (import_one enc keys e) a pairs) =
  foldl (λ m p, <[nc_network_id p.1 := imported_net keys e p (m !! nc_network_id p.1)]> m) (as_networks a) pairs.
Proof.
  revert a. induction pairs as [|p pairs IH]; intros a; cbn [foldl]; [done|]. rewrite IH. f_equal.
  unfold import_one, imported_net. by destruct (as_networks a !! nc_network_id p.1).
Qed.
End import_lemmas.

(** ** Sessions only ever leave *)

Section leaving.
Context `{O : IpNetOps, Q : MpscOps}.

Lemma foldl_sessions {A} (f : NetState → A → NetState) l n :
  (∀ n x, dom (ns_sessions (f n x)) ⊆ dom (ns_sessions n)) → dom (ns_sessions (foldl f n l)) ⊆ dom (ns_sessions n).
Proof. intros Hf. revert n. induction l as [|x l IH]; intros n; cbn; [done|]. rewrite (IH (f n x)). apply Hf. Qed.

Lemma close_sessions n node code why : dom (ns_sessions (close_session_with n node code why)) ⊆ dom (ns_sessions n).
Proof. rewrite close_session_gone, dom_delete_L. set_solver. Qed.

Lemma foldl_closes (l : list (Z * string)) n node why : (node, why) ∈ l →
  node ∉ dom (ns_sessions (foldl (λ n p, close_session n p.1 p.2) n l)).
Proof.
  revert n. induction l as [|x l IH]; intros n Hin; [inversion Hin|]. cbn [foldl].
  apply elem_of_cons in Hin as [<-|Hin]; [|by apply IH]. intros Hd.
  apply (foldl_sessions _ _ _ ltac:(intros; apply close_sessions)) in Hd. unfold close_session in Hd.
  rewrite close_session_gone, dom_delete_L in Hd. set_solver.
Qed.

Lemma reconfigure_sessions why n name : dom (ns_sessions (reconfigure_named why n name)) ⊆ dom (ns_sessions n).
Proof. unfold reconfigure_named. case_match; [apply close_sessions|done]. Qed.
End leaving.

(** The record must be retired by an import of [cfg] over [old]: its member has
    another role, or another secret. *)
Definition must_retire (old cfg : NetworkConfig) (rec : MemberRecord) : Prop :=
  ∃ m role, member_by_name cfg (mr_name rec) = Some (m, role) ∧
    (role ≠ mr_role rec ∨ ∃ o r s, member_by_name old (mr_name rec) = Some (o, r) ∧ mc_secret o = Some s ∧ mc_secret m ≠ Some s).

Lemma import_record_gen old cfg now rec :
  (must_retire old cfg rec → mr_login_gen (import_record (Some old) cfg now rec) = mr_login_gen rec ⊕ 1) ∧
  (¬ must_retire old cfg rec → import_record (Some old) cfg now rec = rec).
Proof.
  unfold import_record, must_retire, secret_replaced. destruct (member_by_name cfg (mr_name rec)) as [[m role]|]; [|naive_solver].
  case_bool_decide as Hr; cbn [negb]; [|naive_solver]. change (Some old ≫= _) with (member_by_name old (mr_name rec)).
  destruct (member_by_name old (mr_name rec)) as [[o r]|]; [|naive_solver].
  destruct (mc_secret o) as [s|] eqn:Hs; cbn [opt_some andb]; [|naive_solver congruence].
  case_bool_decide as He; cbn [negb]; split; try done; intros H.
  - destruct H as (m' & r' & [= <- <-] & [?|(o' & r'' & s' & [= <- <-] & Hs' & Hm)]); congruence.
  - destruct H. exists m, role. split; [done|]. right. exists o, r, s. split_and!; congruence.
Qed.

Lemma import_record_frame old cfg now rec :
  let rec' := import_record old cfg now rec in
  mr_node_id rec' = mr_node_id rec ∧ mr_name rec' = mr_name rec ∧ mr_role rec' = mr_role rec ∧ mr_disabled rec' = mr_disabled rec ∧
  mr_ip4 rec' = mr_ip4 rec ∧ mr_ip6 rec' = mr_ip6 rec ∧ mr_routes rec' = mr_routes rec.
Proof. cbn zeta. unfold import_record. repeat case_match; done. Qed.

Section import_apply_lemmas.
Context `{O : IpNetOps, Q : MpscOps, L : CredLib}.
Context (enc : Snapshot → list Z) (keys : list KeyInfo) (e : AdminEnv) (cfg : NetworkConfig) (n : NetState).
#[local] Notation reg := (import_registry (Some (ns_cfg n)) cfg (ae_now e) (ns_registry n)).

(** The network before it is published. *)
Definition import_staged : NetState :=
  let retire := omap (import_retired n cfg) (bt_values (rg_members reg)) in
  let n1 := ns_set_registry reg reg (ns_set_cfg cfg n) in
  let n1 := ns_set_directory (dir_set_hold_down (sc_hold_down_secs (nc_settings cfg)) (ns_directory n1)) n1 in
  let n1 := foldl (λ n p, close_session n p.1 p.2) n1 retire in
  if everyone_must_rejoin (ns_cfg n) cfg then (reconfigure_all n1 "configuration imported").1
  else foldl (reconfigure_named "configuration imported") n1 (changed_members (ns_cfg n) cfg).

Lemma import_apply_staged : import_apply enc keys e cfg reg n = admin_publish enc keys e import_staged.
Proof. done. Qed.

Lemma import_staged_core : ns_core import_staged = (cfg, reg, reg, ns_deleted n).
Proof.
  unfold import_staged. destruct (everyone_must_rejoin _ _); [rewrite reconfigure_all_core|rewrite foldl_core by (intros; apply reconfigure_named_core)];
    rewrite foldl_core by (intros; apply close_session_core); done.
Qed.

Lemma import_staged_closed node rec : filed (ns_registry n) → rg_members (ns_registry n) !! node = Some rec →
  must_retire (ns_cfg n) cfg rec → u_range 64 (mr_login_gen rec + 1) → 0 ≤ mr_login_gen rec → node ∉ dom (ns_sessions import_staged).
Proof.
  intros Hf Hr Hm Hu H0.
  assert ((node, "credential retired by import"%string) ∈ omap (import_retired n cfg) (bt_values (rg_members reg))) as Hin.
  { apply list_elem_of_omap. exists (import_record (Some (ns_cfg n)) cfg (ae_now e) rec). split.
    - apply elem_of_bt_values. exists node. cbn. by rewrite lookup_fmap, Hr.
    - unfold import_retired. destruct (import_record_frame (Some (ns_cfg n)) cfg (ae_now e) rec) as (-> & _).
      rewrite (Hf _ _ Hr), Hr, (proj1 (import_record_gen (ns_cfg n) cfg (ae_now e) rec) Hm), wadd64_small by (unfold u_range in Hu; lia).
      by rewrite (proj2 (Z.ltb_lt _ _)) by lia. }
  intros Hd. unfold import_staged in Hd. eapply foldl_closes; [exact Hin|].
  destruct (everyone_must_rejoin _ _).
  - unfold reconfigure_all in Hd. cbn in Hd. eapply foldl_sessions in Hd; [exact Hd|]. intros. apply close_sessions.
  - eapply foldl_sessions in Hd; [exact Hd|]. intros. apply reconfigure_sessions.
Qed.

(** The network after an import. *)
Lemma import_apply_spec id : filed (ns_registry n) →
  let n' := import_apply enc keys e cfg reg n in
  ns_cfg n' = cfg ∧ ns_deleted n' = ns_deleted n ∧ rg_members (ns_registry n') = rg_members reg ∧ rg_members (ns_disk n') = rg_members reg ∧
  ∀ node rec, rg_members (ns_registry n) !! node = Some rec → must_retire (ns_cfg n) cfg rec →
    u_range 64 (mr_login_gen rec + 1) → 0 ≤ mr_login_gen rec → locked_out n' id node (mr_login_gen rec).
Proof.
  intros Hf. cbn zeta. rewrite import_apply_staged. unfold admin_publish. pose proof import_staged_core as [= Hc Hr Hdk Hd].
  destruct (publish_frame enc import_staged keys (ae_now e) (ae_now_ms e) (ae_mark_ok e)) as (-> & -> & _ & -> & _ & Hdisk & _).
  rewrite Hdisk, Hc, Hr, Hd by by rewrite Hdk, Hr. split_and!; [done..|]. intros node rec Hrec Hm Hu H0.
  apply (published_locks_out _ _ _ _ _ _ _ _ (import_record (Some (ns_cfg n)) cfg (ae_now e) rec)).
  - rewrite Hr. intros i x. cbn. rewrite lookup_fmap. intros (y & Hy & ->)%fmap_Some.
    destruct (import_record_frame (Some (ns_cfg n)) cfg (ae_now e) y) as (-> & _). by apply Hf.
  - rewrite Hr. cbn. by rewrite lookup_fmap, Hrec.
  - rewrite (proj1 (import_record_gen _ _ _ _) Hm), wadd64_small by (unfold u_range in Hu; lia). lia.
  - apply not_elem_of_dom. by eapply import_staged_closed.
Qed.
End import_apply_lemmas.

(** No two members of all networks hold the same secret. *)
Definition unique_secrets (nets : gmap string NetState) : Prop :=
  ∀ i n k m r s i' n' k' m' r' s', nets !! i = Some n → nets !! i' = Some n' →
    (k, m, r) ∈ cfg_members (ns_cfg n) → (k', m', r') ∈ cfg_members (ns_cfg n') →
    mc_secret m = Some s → mc_secret m' = Some s' → trim s = trim s' → i = i' ∧ k = k' ∧ r = r'.

(** Networks are filed under their own id, and none that is served is deleted. *)
Definition keyed (nets : gmap string NetState) : Prop :=
  ∀ id n, nets !! id = Some n → nc_network_id (ns_cfg n) = id ∧ ns_deleted n = false.

Lemma NoDup_bind_inj {A C} (f : A → list C) l x y c : NoDup (l ≫= f) → x ∈ l → y ∈ l → c ∈ f x → c ∈ f y → x = y.
Proof.
  induction l as [|z l IH]; intros Hnd Hx Hy Hcx Hcy; [inversion Hx|]. cbn in Hnd. apply NoDup_app in Hnd as (_ & Hd & Hnd).
  assert (∀ w, w ∈ l → c ∈ f w → c ∉ f z) as Hn by (intros w Hw Hc Hz; apply (Hd c Hz); apply list_elem_of_bind; eauto).
  apply elem_of_cons in Hx as [->|Hx], Hy as [->|Hy]; [done|by destruct (Hn y)|by destruct (Hn x)|by apply IH].
Qed.

Lemma NoDup_bind_part {A C} (f : A → list C) l x : NoDup (l ≫= f) → x ∈ l → NoDup (f x).
Proof.
  induction l as [|z l IH]; intros Hnd Hx; [inversion Hx|]. cbn in Hnd. apply NoDup_app in Hnd as (Hz & _ & Hnd).
  apply elem_of_cons in Hx as [->|Hx]; auto.
Qed.

Lemma elem_of_cfg_secrets cfg t : t ∈ cfg_secrets cfg ↔ ∃ k m r s, (k, m, r) ∈ cfg_members cfg ∧ mc_secret m = Some s ∧ t = trim s.
Proof.
  unfold cfg_secrets. rewrite list_elem_of_omap. split.
  - intros ([[k m] r] & Hin & (s & Hs & ->)%fmap_Some). eauto 10.
  - intros (k & m & r & s & Hin & Hs & ->). exists (k, m, r). split; [done|]. cbn. by rewrite Hs.
Qed.

Lemma distinct_secrets nets cfgs :
  keyed nets → NoDup (cfgs ≫= cfg_secrets) → (∀ id n, nets !! id = Some n → ns_cfg n ∈ cfgs) → unique_secrets nets.
Proof.
  intros Hk Hnd Hin i n k m r s i' n' k' m' r' s' Hn Hn' Hm Hm' Hs Hs' Ht.
  assert (ns_cfg n = ns_cfg n') as Hc.
  { eapply (NoDup_bind_inj cfg_secrets cfgs _ _ (trim s)); [done|by eapply Hin|by eapply Hin| |]; apply elem_of_cfg_secrets; eauto 10. }
  assert (i = i') as <- by (rewrite <- (proj1 (Hk _ _ Hn)), <- (proj1 (Hk _ _ Hn')); congruence).
  rewrite <- Hc in Hm'. assert ((k, m, r) = (k', m', r')) as [= -> -> ->]; [|done].
  apply (NoDup_omap_inj (λ p : string * MemberCfg * Role, trim <$> mc_secret p.1.2) (cfg_members (ns_cfg n)) _ _ (trim s)); try done.
  - by eapply (NoDup_bind_part cfg_secrets); [|by eapply Hin].
  - cbn. by rewrite Hs.
  - cbn. by rewrite Hs', Ht.
Qed.

Section import_net.
Context `{O : IpNetOps, Q : MpscOps, L : CredLib, B : Base64, !JoinLib L}.
Context (enc : Snapshot → list Z) (resolve_host : string → Z → list IpAddr).

(** Everything about an import that succeeded. *)
Lemma import_ok c cfgs ie e c' ids : import enc resolve_host c cfgs ie e = (c', Ok ids) →
  let nets := as_networks (co_app c) in
  ∃ sorted pairs, sorted ≡ₚ normalized <$> cfgs ∧ ids = nc_network_id <$> sorted ∧ NoDup ids ∧ pairs.*1 = sorted ∧
    Forall (λ cfg, validate_network resolve_host cfg = (normalized cfg, Ok tt)) cfgs ∧ NoDup (import_secrets nets sorted) ∧
    (∀ p, p ∈ pairs → ∃ base, import_base nets ie (nc_network_id p.1) = Ok base ∧ validate_assignments p.1 base = Ok tt ∧
       p.2 = import_registry (ns_cfg <$> nets !! nc_network_id p.1) p.1 (ae_now e) base) ∧
    (∀ p, p ∈ pairs → let id := nc_network_id p.1 in
       as_networks (co_app c') !! id = Some (imported_net enc (co_keys c) e p (nets !! id)) ∧ co_rows c' !! id = Some p.1) ∧
    (∀ id, id ∉ ids → as_networks (co_app c') !! id = nets !! id ∧ co_rows c' !! id = co_rows c !! id).
Proof.
  unfold import. destruct (import_check _ _ _) as [checked|] eqn:Hc; [|done].
  apply import_check_ok in Hc as (-> & Hnd & _ & Hv).
  set (sorted := sort_by_key nc_network_id (normalized <$> cfgs)).
  assert (sorted ≡ₚ normalized <$> cfgs) as Hp by apply sort_by_key_perm.
  destruct (claim_all _ _) eqn:Hcl; [|done]. apply claim_all_true in Hcl as [Hcl _].
  destruct (import_registries _ _ _ sorted) as [pairs|] eqn:Hr; [|done]. apply import_registries_ok in Hr as [Hfst Hreg].
  cbn [negb]. destruct (ae_save_ok e); [|done]. cbn [negb]. intros [= <- <-]. cbn zeta.
  assert (NoDup (nc_network_id <$> sorted)) as Hnd' by (rewrite Hp, <- list_fmap_compose; exact Hnd).
  assert ((λ p : NetworkConfig * Registry, nc_network_id p.1) <$> pairs = nc_network_id <$> sorted) as Hk
    by (rewrite <- Hfst, <- list_fmap_compose; done).
  assert (NoDup ((λ p : NetworkConfig * Registry, nc_network_id p.1) <$> pairs)) as Hnd2 by (rewrite Hk; exact Hnd').
  destruct (foldl_once (λ p : NetworkConfig * Registry, nc_network_id p.1) (imported_net enc (co_keys c) e) pairs (as_networks (co_app c)) Hnd2) as [N1 N2].
  destruct (foldl_once (λ p : NetworkConfig * Registry, nc_network_id p.1) (λ p _, p.1) pairs (co_rows c) Hnd2) as [R1 R2].
  exists sorted, pairs. cbn [co_app co_rows]. rewrite import_fold. split_and!; try done.
  - intros p Hin. split; [by apply N1|by apply R1].
  - intros id Hid. assert (id ∉ (λ p : NetworkConfig * Registry, nc_network_id p.1) <$> pairs) as Hid'
      by (rewrite Hk; exact Hid).
    split; [by apply N2|by apply R2].
Qed.

Lemma import_base_running nets ie id n : nets !! id = Some n → import_base nets ie id = Ok (ns_registry n).
Proof. unfold import_base. by intros ->. Qed.
End import_net.

Section imported.
Context `{O : IpNetOps, Q : MpscOps, L : CredLib, B : Base64, !JoinLib L}.
Context (enc : Snapshot → list Z) (resolve_host : string → Z → list IpAddr) (keys : list KeyInfo) (e : AdminEnv) (nets : gmap string NetState).

Definition imported_ok (p : NetworkConfig * Registry) : Prop :=
  let id := nc_network_id p.1 in
  let n' := imported_net enc keys e p (nets !! id) in
  ns_cfg n' = p.1 ∧ ns_deleted n' = false ∧ rg_members (ns_disk n') = rg_members (ns_registry n') ∧
  ∀ n, nets !! id = Some n →
    validate_assignments p.1 (ns_registry n) = Ok tt ∧
    ∀ node rec, rg_members (ns_registry n) !! node = Some rec →
      (¬ must_retire (ns_cfg n) p.1 rec → rg_members (ns_registry n') !! node = Some rec) ∧
      (must_retire (ns_cfg n) p.1 rec → u_range 64 (mr_login_gen rec + 1) → 0 ≤ mr_login_gen rec → locked_out n' id node (mr_login_gen rec)).

Lemma imported_net_ok ie p : keyed nets → (∀ id n, nets !! id = Some n → filed (ns_registry n)) →
  (∃ base, import_base nets ie (nc_network_id p.1) = Ok base ∧ validate_assignments p.1 base = Ok tt ∧
     p.2 = import_registry (ns_cfg <$> nets !! nc_network_id p.1) p.1 (ae_now e) base) → imported_ok p.
Proof.
  intros Hk Hf (base & Hb & Hv & Hreg). destruct p as [cfg reg]. unfold imported_ok, imported_net, import_base in *. cbn [fst snd] in *.
  destruct (nets !! nc_network_id cfg) as [n|] eqn:Hn; [|done]. injection Hb as <-. cbn [fmap option_fmap option_map] in Hreg.
  destruct (import_apply_spec enc keys e cfg n (nc_network_id cfg) (Hf _ _ Hn)) as (H1 & H2 & H3 & H4 & H5).
  rewrite Hreg, H1, H2, H3, H4. split_and!; [done|by apply (Hk _ _ Hn)|done|]. intros n0 [= <-]. split; [done|].
  intros node rec Hrec. split; [|by apply H5]. intros Hm. cbn. rewrite lookup_fmap, Hrec. cbn. f_equal.
  by apply (proj2 (import_record_gen _ _ _ _)).
Qed.

Lemma imported_net_face p : keyed nets →
  let n' := imported_net enc keys e p (nets !! nc_network_id p.1) in ns_cfg n' = p.1 ∧ ns_deleted n' = false.
Proof.
  intros Hk. cbn zeta. unfold imported_net. destruct (nets !! nc_network_id p.1) as [n|] eqn:Hn; [|done].
  unfold import_apply, admin_publish. match goal with |- context [publish enc ?x keys ?a ?b ?c] => set (st := x);
    destruct (publish_core enc st keys a b c) as (-> & _ & _ & ->) end.
  assert (ns_core st = (p.1, p.2, p.2, ns_deleted n)) as [= -> _ _ ->]; [|split; [done|by apply (Hk _ _ Hn)]].
  unfold st. destruct (everyone_must_rejoin _ _); [rewrite reconfigure_all_core|rewrite foldl_core by (intros; apply reconfigure_named_core)];
    rewrite foldl_core by (intros; apply close_session_core); done.
Qed.

Lemma import_err c cfgs ie c' err : import enc resolve_host c cfgs ie e = (c', Err err) → c' = c.
Proof. unfold import. repeat case_match; intros; by simplify_eq. Qed.
End imported.

Lemma import_unique `{O : IpNetOps, Q : MpscOps, L : CredLib, B : Base64, !JoinLib L} enc resolve_host c cfgs ie e c' ids :
  keyed (as_networks (co_app c)) → import enc resolve_host c cfgs ie e = (c', Ok ids) →
  keyed (as_networks (co_app c')) ∧ unique_secrets (as_networks (co_app c')).
Proof.
  intros Hkeyed Hi. destruct (import_ok _ _ _ _ _ _ _ _ Hi) as (sorted & pairs & Hp & -> & Hnd & Hfst & Hv & Hsec & Hreg & Hin & Hout).
  assert (∀ id n, as_networks (co_app c') !! id = Some n →
    (∃ p, p ∈ pairs ∧ id = nc_network_id p.1 ∧ ns_cfg n = p.1 ∧ ns_deleted n = false) ∨
    (id ∉ nc_network_id <$> sorted ∧ as_networks (co_app c) !! id = Some n)) as Hcase.
  { intros id n Hn. destruct (decide (id ∈ nc_network_id <$> sorted)) as [Hid|Hid]; [left|right; by rewrite (proj1 (Hout _ Hid)) in Hn].
    rewrite <- Hfst, <- list_fmap_compose in Hid. apply list_elem_of_fmap in Hid as (p & -> & Hpp). unfold compose in *.
    rewrite (proj1 (Hin p Hpp)) in Hn. injection Hn as <-. exists p. split; [done|]. split; [done|]. by apply imported_net_face. }
  assert (keyed (as_networks (co_app c'))) as Hk'.
  { intros id n Hn. destruct (Hcase _ _ Hn) as [(p & _ & -> & -> & ->)|[_ ?]]; [done|by apply Hkeyed]. }
  split; [done|]. eapply distinct_secrets; [done|exact Hsec|]. intros id n Hn. rewrite elem_of_app, list_elem_of_omap.
  destruct (Hcase _ _ Hn) as [(p & Hpp & -> & -> & _)|[Hid Hn0]]; [left; rewrite <- Hfst; by apply list_elem_of_fmap_2|].
  right. exists (id, n). rewrite elem_of_bt_iter. split; [done|]. cbn. by rewrite bool_decide_eq_false_2.
Qed.

(** C9: An import is all or nothing. If it fails, nothing changed. If it
    succeeds, every network it names is served with exactly the configuration it
    gives (normalized, and accepted by validation on its own and against the
    addresses already handed out), which is also what the database has; every
    other network is as it was; no two members of all networks share a secret;
    the records of a network that was running are kept, except that a member
    whose role or secret the import changed moves to a new login generation,
    durably, and is locked out with every credential it held. *)
Theorem import_atomic `{O : IpNetOps, Q : MpscOps, L : CredLib, B : Base64, !JoinLib L} enc resolve_host c cfgs ie e c' r
    (Hkeyed : keyed (as_networks (co_app c))) (Hfiled : ∀ id n, as_networks (co_app c) !! id = Some n → filed (ns_registry n))
    (Hi : import enc resolve_host c cfgs ie e = (c', r)) :
  match r with
  | Err _ => c' = c
  | Ok ids =>
      ids ≡ₚ nc_network_id <$> cfgs ∧ NoDup ids ∧ unique_secrets (as_networks (co_app c')) ∧ keyed (as_networks (co_app c')) ∧
      (∀ id, id ∉ ids → as_networks (co_app c') !! id = as_networks (co_app c) !! id ∧ co_rows c' !! id = co_rows c !! id) ∧
      ∀ cfg, cfg ∈ cfgs → let id := nc_network_id cfg in
        validate_network resolve_host cfg = (normalized cfg, Ok tt) ∧
        ∃ n', as_networks (co_app c') !! id = Some n' ∧ ns_cfg n' = normalized cfg ∧ co_rows c' !! id = Some (normalized cfg) ∧
          rg_members (ns_disk n') = rg_members (ns_registry n') ∧
          ∀ n, as_networks (co_app c) !! id = Some n →
            validate_assignments (normalized cfg) (ns_registry n) = Ok tt ∧
            ∀ node rec, rg_members (ns_registry n) !! node = Some rec →
              (¬ must_retire (ns_cfg n) (normalized cfg) rec → rg_members (ns_registry n') !! node = Some rec) ∧
              (must_retire (ns_cfg n) (normalized cfg) rec → u_range 64 (mr_login_gen rec + 1) → 0 ≤ mr_login_gen rec →
                 locked_out n' id node (mr_login_gen rec))
  end.
Proof.
  destruct r as [ids|err]; [|by eapply import_err].
  destruct (import_unique _ _ _ _ _ _ _ _ Hkeyed Hi) as [Hk' Hu'].
  destruct (import_ok _ _ _ _ _ _ _ _ Hi) as (sorted & pairs & Hp & -> & Hnd & Hfst & Hv & Hsec & Hreg & Hin & Hout).
  split_and!; [by rewrite Hp, <- list_fmap_compose|done..|].
  intros cfg Hc. cbn zeta. split; [by eapply Forall_forall in Hv|].
  assert (normalized cfg ∈ pairs.*1) as Hn by (rewrite Hfst, Hp; by apply list_elem_of_fmap_2).
  apply list_elem_of_fmap in Hn as (p & Hpc & Hpp). destruct (Hin p Hpp) as [Hn' Hrow].
  destruct (imported_net_ok enc (co_keys c) e _ ie p Hkeyed Hfiled (Hreg p Hpp)) as (Hcfg & _ & Hdisk & Hrun).
  rewrite <- Hpc in *. cbn [nc_network_id normalized] in *. eexists. split_and!; [exact Hn'|exact Hcfg|exact Hrow|exact Hdisk|exact Hrun].
Qed.

(** ** Where an operation and its answer part *)

Section partings.
Context `{O : IpNetOps, Q : MpscOps, L : CredLib, B : Base64, !JoinLib L}.
Context (enc : Snapshot → list Z) (resolve_host : string → Z → list IpAddr).

(** A rotation whose save fails is refused, and is in force all the same: the
    running configuration has the new secret, which the operator never sees,
    and the database the old one. *)
Lemma failed_rotation_in_force keys rows n name secret e p :
  member_by_name (ns_cfg n) name = Some p → ae_cfg_ok e = false →
  ∃ n', rotate_member_locked enc keys rows n name secret e = (rows, n', Err Internal) ∧
    member_by_name (ns_cfg n') name = Some (set_secret secret p.1, p.2).
Proof.
  intros Hm He. unfold rotate_member_locked, save_config. rewrite Hm, He. eexists. split; [done|].
  cbn [ns_cfg ns_set_cfg]. by rewrite alter_member_lookup, decide_True, Hm.
Qed.

Lemma check_change_ok cfg hosts reg cfg' : check_change resolve_host cfg hosts reg = Ok cfg' → cfg' = normalized cfg.
Proof. unfold check_change, validate_network_with. repeat case_match; intros; by simplify_eq/=. Qed.

Lemma retire_network_cfg n : ns_cfg (retire_network n) = ns_cfg n ∧ ns_registry (retire_network n) = ns_registry n ∧
  ns_deleted (retire_network n) = true.
Proof.
  assert (ns_core (retire_network n) = ns_core (ns_set_deleted true n)) as [= -> -> _ ->]; [|done].
  apply foldl_core. intros. apply close_session_core.
Qed.

(** An operation that found the network before it was deleted, and gets its lock
    after, is not refused: the deleted network's row comes back. *)
Lemma deleted_row_returns rows n hosts name role spec secret e cfg :
  member_by_name (ns_cfg n) name = None → ae_cfg_ok e = true →
  check_change resolve_host (insert_member name role (set_secret secret (spec_apply spec member_cfg_default)) (ns_cfg n)) hosts (ns_registry n) = Ok cfg →
  let id := nc_network_id (ns_cfg n) in
  ∃ rows' n', create_member_locked resolve_host (delete id rows) (retire_network n) hosts name role spec secret e = (rows', n', Ok secret) ∧
    rows' !! id = Some cfg.
Proof.
  intros Hm He Hc. destruct (retire_network_cfg n) as (Hcfg & Hreg & _). unfold create_member_locked, save_config.
  rewrite Hcfg, Hreg, Hm, He. cbn zeta. rewrite Hc. eexists _, _. split; [done|]. cbn [ns_cfg ns_set_cfg].
  apply check_change_ok in Hc as ->. cbn [nc_network_id normalized]. destruct role; apply lookup_insert_eq.
Qed.

(** A member an import leaves out keeps its record and stays in the published
    view at its login generation, so its credential is honoured until it expires. *)
Lemma removed_by_import_listed keys e cfg n node rec :
  rg_members (ns_registry n) !! node = Some rec → mr_disabled rec = false → member_by_name cfg (mr_name rec) = None →
  let n' := import_apply enc keys e cfg (import_registry (Some (ns_cfg n)) cfg (ae_now e) (ns_registry n)) n in
  rg_members (ns_registry n') !! node = Some rec ∧
  ∃ p, member (dir_published (ns_directory n')) node = Some p ∧ pi_login_gen p = mr_login_gen rec ∧ pi_role p = mr_role rec.
Proof.
  intros Hr Hd Hm. cbn zeta. rewrite import_apply_staged. unfold admin_publish. pose proof (import_staged_core e cfg n) as [= _ Hreg _ _].
  assert (rg_members (ns_registry (import_staged e cfg n)) !! node = Some rec) as Hrec.
  { rewrite Hreg. cbn. rewrite lookup_fmap, Hr. cbn. unfold import_record. by rewrite Hm. }
  destruct (publish_core enc (import_staged e cfg n) keys (ae_now e) (ae_now_ms e) (ae_mark_ok e)) as (_ & -> & _). split; [done|].
  destruct (published_member enc (import_staged e cfg n) keys (ae_now e) (ae_now_ms e) (ae_mark_ok e) node) as [d ->].
  rewrite Hrec. cbn. rewrite Hd. by eexists.
Qed.
End partings.

(** ** Witnesses *)

Module AdminExample.
#[export] Existing Instance ipnet_ref.
#[export] Existing Instance mpsc_ref.
#[export] Existing Instance JoinExample.join_lib.

(** One relay, which both clients prefer; the first client has joined. *)
Definition spec : MemberSpec := mkMemberSpec None [] None None None None None None.
Definition client (s : string) : MemberCfg := mkMemberCfg (Some s) None [] None None None None None None (Some "r1"%string).
Definition relay : MemberCfg := mkMemberCfg (Some "s-r1"%string) (Some "1.2.3.4:4444"%string) [] None None None None None None None.
Definition cfg : NetworkConfig :=
  mkNetworkConfig "net" [Net4 (10 * 2 ^ 24 + 99 * 2 ^ 16) 16] settings_default {["r1"%string := relay]}
    (<["c1"%string := client "s-c1"]> {["c2"%string := client "s-c2"]}).
Definition rec : MemberRecord :=
  mkMemberRecord 1 "c1" Client (Some "PK"%string) (Some "fp"%string) (Some (10 * 2 ^ 24 + 99 * 2 ^ 16 + 1)) None [] None false 5 None None 3 None None.
Definition reg : Registry := mkRegistry ∅ "u" 2 {[1 := rec]} 0.
Definition session : CtlSession := session_new 7 (mkClaims ISS AUD "net" "u" 1 "c1" Client "PK" "fp" [] 3 0 900) "198.51.100.1:5000".
Definition n : NetState := ns_set_sessions {[1 := session]} (ns_new DirExample.enc cfg reg 10 10000).
Definition c : Coord (L := CredExample.lib) :=
  mkCoord (mkAppState {["net"%string := n]} JoinExample.keyring rate_limiter_default 10 4433) {["net"%string := cfg]}.
Definition env : AdminEnv := mkAdminEnv 100 100000 true true true true.
Definition no_dns (host : string) (port : Z) : list IpAddr := [].

Lemma reg_inv : registry_inv reg.
Proof.
  assert (∀ id m, rg_members reg !! id = Some m → id = 1 ∧ m = rec) as H by (intros id m; cbn; rewrite lookup_singleton_Some; naive_solver).
  split_and!; [|intros i j m m' [-> ->]%H [-> ->]%H; done|by_decide]. intros id m [-> ->]%H. cbn. lia.
Qed.

Lemma c_keyed : keyed (as_networks (co_app c)).
Proof. intros id x. cbn. rewrite lookup_singleton_Some. by intros [<- <-]. Qed.

Lemma c_filed id x : as_networks (co_app c) !! id = Some x → filed (ns_registry x).
Proof. cbn. rewrite lookup_singleton_Some. intros [<- <-]. apply registry_inv_filed, reg_inv. Qed.

(** Deleting the relay two clients prefer succeeds, and neither client can then
    be changed, not even to stop preferring it. *)
Definition stranded := forget_member DirExample.enc c "net" "r1" env.
Lemma delete_strands_members :
  stranded.2 = Ok tt ∧
  (update_member DirExample.enc no_dns stranded.1 "net" "c1" spec env).2 = Err BadRequest ∧
  (update_member DirExample.enc no_dns stranded.1 "net" "c2" spec env).2 = Err BadRequest.
Proof. vm_compute. done. Qed.

(** The second client gets a new secret by import. *)
Definition cfg' : NetworkConfig := alter_member (set_secret "s-new") "c1" cfg.
Definition imp := import DirExample.enc no_dns c [cfg'] (mkImportEnv (λ _, Some None) (λ _, "u2"%string)) env.
Definition rot := rotate_member DirExample.enc c "net" "c1" "s-new" env.
Lemma imp_ok : imp = (imp.1, Ok ["net"%string]).
Proof. apply pair_equal_spec. split; [done|]. by vm_compute. Qed.
Lemma rot_ok : rot = (rot.1, Ok "s-new"%string).
Proof. apply pair_equal_spec. split; [done|]. by vm_compute. Qed.
End AdminExample.

Lemma rotation_retires_witness :
  ∃ n', as_networks (co_app (AdminExample.rot).1) !! "net"%string = Some n' ∧ ns_sessions AdminExample.n !! 1 = Some AdminExample.session ∧
    locked_out (L := CredExample.lib) n' "net" 1 3.
Proof.
  destruct (rotation_retires (L := CredExample.lib) DirExample.enc AdminExample.c "net" "c1" "s-new" AdminExample.env _ _ AdminExample.n (AdminExample.client "s-c1") Client
    ltac:(vm_compute; reflexivity) ltac:(vm_compute; reflexivity) ltac:(vm_compute; reflexivity) AdminExample.reg_inv AdminExample.rot_ok)
    as (_ & _ & n' & Hn' & _ & _ & _ & Hl).
  exists n'. split; [exact Hn'|]. split; [vm_compute; reflexivity|].
  exact (proj2 (proj2 (Hl AdminExample.rec ltac:(vm_compute; reflexivity) ltac:(by_decide) ltac:(by_decide)))).
Defined.

Lemma import_atomic_witness :
  ∃ n', as_networks (co_app (AdminExample.imp).1) !! "net"%string = Some n' ∧ ns_cfg n' = normalized AdminExample.cfg' ∧
    locked_out (L := CredExample.lib) n' "net" 1 3.
Proof.
  destruct (import_atomic (L := CredExample.lib) _ _ _ _ _ _ _ _ AdminExample.c_keyed AdminExample.c_filed AdminExample.imp_ok)
    as (_ & _ & _ & _ & _ & Hc).
  destruct (Hc AdminExample.cfg' ltac:(left)) as (_ & n' & Hn' & Hcfg & _ & _ & Hrun).
  exists n'. split; [exact Hn'|]. split; [exact Hcfg|].
  destruct (Hrun AdminExample.n ltac:(vm_compute; reflexivity)) as [_ Hrec].
  apply (proj2 (Hrec 1 AdminExample.rec ltac:(vm_compute; reflexivity))); [|by_decide..].
  eexists _, _. split; [vm_compute; reflexivity|]. right. eexists _, _, _.
  split; [vm_compute; reflexivity|]. split; [reflexivity|]. vm_compute. discriminate.
Defined.
