(* ===== verification/Coordinator.v ===== *)
(** * The coordinator as a whole

    Every operation of [Admin], the joins of [Join] and the handlers of
    [NetState] as the steps of one coordinator, and what holds through all of
    them. *)

From S2P Require Import Prelude Ordered Ipnet Text Control Replay Seal Credential Config Registry Leases Directory Ipam NetState RateLimit Join Validate.
From S2P Require Import Frame Tables RelayNet Admin.

(** ** Everything that happens to the coordinator *)

Section coord.
Context `{O : IpNetOps, Q : MpscOps, L : CredLib, B : Base64, !JoinLib L}.
Context (enc : Snapshot → list Z) (resolve_host : string → Z → list IpAddr).

(** Nobody holds the secret [generate_secret] drew. *)
Definition fresh_secret (c : Coord) (s : string) : Prop :=
  ∀ id n name, as_networks (co_app c) !! id = Some n → ¬ holds_secret (ns_cfg n) name s.

Inductive coord_step : Coord → Coord → Prop :=
| cs_create_network c spec uuid e c' r : create_network enc resolve_host c spec uuid e = (c', r) → coord_step c c'
| cs_update_network c id spec e c' r : update_network enc resolve_host c id spec e = (c', r) → coord_step c c'
| cs_delete_network c id e c' h r : delete_network c id e = (c', h, r) → coord_step c c'
| cs_create_member c id name role spec secret e c' r : fresh_secret c secret →
    create_member resolve_host c id name role spec secret e = (c', r) → coord_step c c'
| cs_update_member c id name spec e c' r : update_member enc resolve_host c id name spec e = (c', r) → coord_step c c'
| cs_rotate_member c id name secret e c' r : fresh_secret c secret →
    rotate_member enc c id name secret e = (c', r) → coord_step c c'
| cs_forget_member c id name e c' r : forget_member enc c id name e = (c', r) → coord_step c c'
| cs_set_disabled c id name disabled e c' r : set_disabled enc c id name disabled e = (c', r) → coord_step c c'
| cs_reconnect c id name c' r : reconnect_member c id name = (c', r) → coord_step c c'
| cs_import c cfgs ie e c' r : import enc resolve_host c cfgs ie e = (c', r) → coord_step c c'
| cs_join c req peer now je a out : join enc (co_app c) req peer now je = (a, out) → coord_step c (mkCoord a (co_rows c))
(* the handlers of the control plane *)
| cs_handler c id n n' : as_networks (co_app c) !! id = Some n → ns_cfg n' = ns_cfg n → ns_deleted n' = ns_deleted n →
    coord_step c (mkCoord (as_set_net id n' (co_app c)) (co_rows c)).

Definition coord_inv (c : Coord) : Prop := keyed (as_networks (co_app c)) ∧ unique_secrets (as_networks (co_app c)).

(** Secrets stay with their members, but for at most one new one. *)
Definition keeps_secrets (new : option (string * Role * string)) (cfg cfg' : NetworkConfig) : Prop :=
  nc_network_id cfg' = nc_network_id cfg ∧
  ∀ k m r s, (k, m, r) ∈ cfg_members cfg' → mc_secret m = Some s →
    (∃ m0, (k, m0, r) ∈ cfg_members cfg ∧ mc_secret m0 = Some s) ∨ new = Some (k, r, s).

Lemma keeps_secrets_refl new cfg : keeps_secrets new cfg cfg.
Proof. split; [done|]. eauto. Qed.

Lemma keeps_normalized new cfg cfg' : keeps_secrets new cfg cfg' → keeps_secrets new cfg (normalized cfg').
Proof.
  intros [Hid H]. split; [done|]. intros k m r s Hin Hs. apply normalized_members in Hin as (m0 & Hin & [[-> _]|[-> _]]); by eapply H.
Qed.

Lemma keeps_alter new f name cfg p : member_by_name cfg name = Some p →
  (∀ m, mc_secret (f m) = mc_secret m ∨ ∃ s, mc_secret (f m) = Some s ∧ new = Some (name, p.2, s)) →
  keeps_secrets new cfg (alter_member f name cfg).
Proof.
  intros Hp Hf. split; [apply alter_member_id|]. intros k m r s. rewrite elem_of_cfg_members. unfold alter_member, member_by_name in *.
  destruct (nc_clients cfg !! name) as [x|] eqn:Hx; [injection Hp as <-|].
  - destruct r; cbn; [|intros Hm Hs; left; exists m; by rewrite elem_of_cfg_members].
    rewrite lookup_insert_Some. intros [[<- <-]|[_ Hm]] Hs; [|left; exists m; by rewrite elem_of_cfg_members].
    destruct (Hf x) as [He|(s' & He & ->)]; [left; exists x; rewrite elem_of_cfg_members; split; [done|congruence]|right; cbn; congruence].
  - destruct r; cbn; [intros Hm Hs; left; exists m; by rewrite elem_of_cfg_members|].
    rewrite lookup_alter_Some. intros [(<- & x & Hm & ->)|[_ Hm]] Hs; [|left; exists m; by rewrite elem_of_cfg_members].
    rewrite Hm in Hp. injection Hp as <-.
    destruct (Hf x) as [He|(s' & He & ->)]; [left; exists x; rewrite elem_of_cfg_members; split; [done|congruence]|right; cbn; congruence].
Qed.

Lemma unique_update nets id n n' new :
  keyed nets → unique_secrets nets → nets !! id = Some n → keeps_secrets new (ns_cfg n) (ns_cfg n') → ns_deleted n' = ns_deleted n →
  (∀ k r s i x name, new = Some (k, r, s) → nets !! i = Some x → ¬ holds_secret (ns_cfg x) name s) →
  keyed (<[id := n']> nets) ∧ unique_secrets (<[id := n']> nets).
Proof.
  intros Hk Hu Hn [Hid Hs] Hd Hf. split.
  - intros i x. rewrite lookup_insert_Some. intros [[<- <-]|[_ Hx]]; [|by apply Hk]. rewrite Hid, Hd. by apply Hk.
  - (* every holder is an old one, or the new one, whose secret nobody held *)
    assert (∀ i x k m r s, <[id := n']> nets !! i = Some x → (k, m, r) ∈ cfg_members (ns_cfg x) → mc_secret m = Some s →
      (∃ x0 m0, nets !! i = Some x0 ∧ (k, m0, r) ∈ cfg_members (ns_cfg x0) ∧ mc_secret m0 = Some s) ∨ (i = id ∧ new = Some (k, r, s))) as Hold.
    { intros i x k m r s. rewrite lookup_insert_Some. intros [[<- <-]|[_ Hx]] Hm Hsec; [|eauto 10].
      destruct (Hs _ _ _ _ Hm Hsec) as [(m0 & ? & ?)|]; eauto 10. }
    intros i x k m r s i' x' k' m' r' s' Hx Hx' Hm Hm' Hsec Hsec' Ht.
    destruct (Hold _ _ _ _ _ _ Hx Hm Hsec) as [(x0 & m0 & ? & ? & ?)|[-> Hnew]],
             (Hold _ _ _ _ _ _ Hx' Hm' Hsec') as [(x0' & m0' & ? & ? & ?)|[-> Hnew']].
    + by eapply Hu.
    + exfalso. eapply (Hf _ _ _ i x0 k Hnew'); [done|]. by exists m0, r, s.
    + exfalso. eapply (Hf _ _ _ i' x0' k' Hnew); [done|]. exists m0', r', s'. done.
    + naive_solver.
Qed.

(** What an operation may do to its network. *)
Definition ns_face (n : NetState) : NetworkConfig * bool := (ns_cfg n, ns_deleted n).
Definition net_ok (new : option (string * Role * string)) (n n' : NetState) : Prop :=
  keeps_secrets new (ns_cfg n) (ns_cfg n') ∧ ns_deleted n' = ns_deleted n.

Lemma face_ok new n n' : ns_face n' = ns_face n → net_ok new n n'.
Proof. intros [= Hc Hd]. unfold net_ok. rewrite Hc, Hd. split; [apply keeps_secrets_refl|done]. Qed.

Lemma face_cfg new n n' cfg : ns_face n' = (cfg, ns_deleted n) → keeps_secrets new (ns_cfg n) cfg → net_ok new n n'.
Proof. intros [= Hc Hd] Hk. unfold net_ok. by rewrite Hc, Hd. Qed.

Lemma core_face n n' : ns_core n' = ns_core n → ns_face n' = ns_face n.
Proof. unfold ns_face. by intros [= -> _ _ ->]. Qed.

Lemma publish_face keys e n : ns_face (admin_publish enc keys e n) = ns_face n.
Proof. unfold ns_face, admin_publish. by destruct (publish_core enc n keys (ae_now e) (ae_now_ms e) (ae_mark_ok e)) as (-> & _ & _ & ->). Qed.
Lemma close_face n node why : ns_face (close_session n node why) = ns_face n.
Proof. apply core_face, close_session_core. Qed.
Lemma reconfigure_all_face n why l : ns_face (foldl (λ n node, reconfigure n node why) n l) = ns_face n.
Proof. apply core_face, foldl_core. intros. apply close_session_core. Qed.
Lemma reconfigure_names_face n why l : ns_face (foldl (reconfigure_named why) n l) = ns_face n.
Proof. apply core_face, foldl_core. intros. apply reconfigure_named_core. Qed.
Lemma commit_face n a b n' ok : commit_registry n a b = (n', ok) → ns_face n' = ns_face n.
Proof. unfold commit_registry. destruct a; by intros [= <- <-]. Qed.
Lemma announce_face n : ns_face (ns_announce n) = ns_face n. Proof. done. Qed.
Lemma set_leases_face l n : ns_face (ns_set_leases l n) = ns_face n. Proof. done. Qed.
Lemma set_directory_face d n : ns_face (ns_set_directory d n) = ns_face n. Proof. done. Qed.
Lemma set_registry_face r d n : ns_face (ns_set_registry r d n) = ns_face n. Proof. done. Qed.
Create Rewrite HintDb face.
#[local] Hint Rewrite publish_face close_face reconfigure_all_face reconfigure_names_face announce_face set_leases_face
  set_directory_face set_registry_face : face.
#[local] Ltac face := repeat (autorewrite with face;
  match goal with H : commit_registry _ _ _ = (_, _) |- _ => apply commit_face in H; rewrite H; clear H | _ => idtac end); try done.

Lemma update_network_ok keys rows n hosts spec e rows' n' r :
  update_network_locked enc resolve_host keys rows n hosts spec e = (rows', n', r) → net_ok None n n'.
Proof.
  unfold update_network_locked. destruct (check_change _ _ _ _) as [cfg|] eqn:Hc; [|intros [= <- <- <-]; by apply face_ok].
  apply check_change_ok in Hc as ->. intros H. apply (face_cfg _ _ _ (normalized (cfg_set_space (spec_cidrs spec) (nsp_settings spec) (ns_cfg n)))).
  - unfold save_config in H. destruct (ae_cfg_ok e); injection H as <- <- <-; [|done]. face. destruct (everyone_must_rejoin _ _); face.
  - apply keeps_normalized. split; [done|]. eauto.
Qed.

Lemma create_member_ok rows n hosts name role spec secret e rows' n' r :
  create_member_locked resolve_host rows n hosts name role spec secret e = (rows', n', r) → net_ok (Some (name, role, secret)) n n'.
Proof.
  unfold create_member_locked. destruct (member_by_name _ _) eqn:Hm; [intros [= <- <- <-]; by apply face_ok|].
  destruct (check_change _ _ _ _) as [cfg|] eqn:Hc; [|intros [= <- <- <-]; by apply face_ok].
  apply check_change_ok in Hc. intros H. apply (face_cfg _ _ _ cfg).
  - unfold save_config in H. destruct (ae_cfg_ok e); injection H as <- <- <-; done.
  - rewrite Hc. apply keeps_normalized. split; [by destruct role|]. intros k m rl s. rewrite elem_of_cfg_members.
    assert (∀ rl', (rl' = rl) → match rl' with Client => nc_clients (ns_cfg n) !! k = Some m | Relay => nc_relays (ns_cfg n) !! k = Some m end →
      mc_secret m = Some s → (∃ m0, (k, m0, rl) ∈ cfg_members (ns_cfg n) ∧ mc_secret m0 = Some s) ∨ Some (name, role, secret) = Some (k, rl, s)) as Hold
      by (intros ? <- Hk Hs; left; exists m; by rewrite elem_of_cfg_members).
    destruct role, rl; cbn; try (by apply (Hold _ eq_refl)); rewrite lookup_insert_Some;
      (intros [[<- <-]|[_ Hk]] Hs; [right; cbn in Hs; congruence|by apply (Hold _ eq_refl)]).
Qed.

Lemma update_member_ok keys rows n hosts name spec e rows' n' r :
  update_member_locked enc resolve_host keys rows n hosts name spec e = (rows', n', r) → net_ok None n n'.
Proof.
  unfold update_member_locked. destruct (member_by_name _ _) as [p|] eqn:Hm; [|intros [= <- <- <-]; by apply face_ok].
  destruct (check_change _ _ _ _) as [cfg|] eqn:Hc; [|intros [= <- <- <-]; by apply face_ok].
  apply check_change_ok in Hc. intros H. apply (face_cfg _ _ _ cfg).
  - unfold save_config in H. destruct (ae_cfg_ok e); injection H as <- <- <-; face.
  - rewrite Hc. apply keeps_normalized. eapply keeps_alter; [exact Hm|]. intros m. by left.
Qed.

Lemma rotate_member_ok keys rows n name secret e rows' n' r p : member_by_name (ns_cfg n) name = Some p →
  rotate_member_locked enc keys rows n name secret e = (rows', n', r) → net_ok (Some (name, p.2, secret)) n n'.
Proof.
  intros Hm. unfold rotate_member_locked, save_config. rewrite Hm. intros H.
  apply (face_cfg _ _ _ (alter_member (set_secret secret) name (ns_cfg n))).
  - destruct (ae_cfg_ok e); [|by injection H as <- <- <-]. cbn zeta in H. destruct (id_of _ _); [|by injection H as <- <- <-].
    destruct (commit_registry _ _ _) as [n1 []] eqn:Hc; injection H as <- <- <-; face.
  - eapply keeps_alter; [exact Hm|]. intros m. right. by exists secret.
Qed.

Lemma forget_member_ok keys rows n name e rows' n' r :
  forget_member_locked enc keys rows n name e = (rows', n', r) → net_ok None n n'.
Proof.
  unfold forget_member_locked, save_config. destruct (remove_member name (ns_cfg n)) as [cfg gone] eqn:Hr. intros H.
  apply (face_cfg _ _ _ cfg).
  - cbn zeta in H. destruct (negb _ && _); [by injection H as <- <- <-|]. destruct (ae_cfg_ok e); [|by injection H as <- <- <-]. destruct (id_of _ _); [|injection H as <- <- <-; face].
    destruct (commit_registry _ _ _) as [n1 []] eqn:Hc; injection H as <- <- <-; face.
  - unfold remove_member in Hr. split; [by destruct (nc_clients (ns_cfg n) !! name); injection Hr as <- _|]. intros k m rl s Hin Hs. left. exists m. split; [|done].
    rewrite elem_of_cfg_members in Hin |- *. destruct (nc_clients (ns_cfg n) !! name); injection Hr as <- _; destruct rl; cbn in *; try done; by apply lookup_delete_Some in Hin as [_ ?].
Qed.

Lemma set_disabled_ok keys rows n name b e rows' n' r :
  set_disabled_locked enc keys rows n name b e = (rows', n', r) → ns_face n' = ns_face n.
Proof.
  unfold set_disabled_locked. destruct (id_of _ _) as [node|]; [|by intros [= <- <- <-]].
  destruct (rg_members _ !! node) as [rec|]; [|by intros [= <- <- <-]].
  destruct (commit_registry _ _ _) as [n1 []] eqn:Hc; intros [= <- <- <-]; face. destruct b; face.
Qed.
End coord.

Section coord_inv.
Context `{O : IpNetOps, Q : MpscOps, L : CredLib, B : Base64, !JoinLib L}.
Context (enc : Snapshot → list Z) (resolve_host : string → Z → list IpAddr).

Lemma join_locked_face n k port name req peer je n' out : join_locked enc n k port name req peer je = (n', out) → ns_face n' = ns_face n.
Proof.
  intros [(err & _ & ->)|[(reg & _ & _ & ->)|(m & role & ra & reg & g & reg' & rec & _ & _ & _ & _ & -> & _)]]%join_locked_cases; [done..|].
  unfold ns_face. destruct (publish_core enc (join_committed n reg' rec (is_replaced (by_name (ns_registry n) name) req) peer)
    (key_infos k) (je_now je) (je_now_ms je) (je_mark_ok je)) as (-> & _ & _ & ->).
  by destruct (join_committed_frame n reg' rec (is_replaced (by_name (ns_registry n) name) req) peer) as (-> & -> & _).
Qed.

Lemma join_networks a req peer now je a' out : join enc a req peer now je = (a', out) →
  as_networks a' = as_networks a ∨
  ∃ id n n', as_networks a !! id = Some n ∧ ns_face n' = ns_face n ∧ as_networks a' = <[id := n']> (as_networks a).
Proof.
  unfold join, join_admit, check_rate. destruct (rate_check _ _ _ _ _) as [rl []]; cbn [negb]; [|intros [= <- <-]; by left].
  destruct (resolve_secret _ _) as [[id name]|]; [|intros [= <- <-]; by left].
  destruct (valid_pubkey _); cbn [negb]; [|intros [= <- <-]; by left].
  destruct (valid_fingerprint _); cbn [negb]; [|intros [= <- <-]; by left]. cbn [as_networks as_set_rate].
  destruct (as_networks a !! id) as [n|] eqn:Hn; [|intros [= <- <-]; by left].
  destruct (join_locked _ _ _ _ _ _ _) as [n' out'] eqn:Hl. intros [= <- <-]. right.
  exists id, n, n'. split_and!; [done|by eapply join_locked_face|done].
Qed.

Lemma on_net_inv {T} c id (f : Rows → NetState → Rows * NetState * Result T ApiError) c' r :
  on_net c id f = (c', r) → coord_inv c →
  (∀ n rows n' x, as_networks (co_app c) !! id = Some n → f (co_rows c) n = (rows, n', x) →
     ∃ new, net_ok new n n' ∧ ∀ k rl s, new = Some (k, rl, s) → fresh_secret c s) → coord_inv c'.
Proof.
  intros Hc [Hk Hu] Hf. unfold on_net in Hc. destruct (as_networks _ !! id) as [n|] eqn:Hn; [|by injection Hc as <- <-].
  destruct (f _ n) as [[rows n'] x] eqn:Hx. injection Hc as <- <-. destruct (Hf n rows n' x eq_refl Hx) as (new & [Hs Hd] & Hnew).
  eapply unique_update; try done. intros. by eapply Hnew.
Qed.

Lemma coord_step_inv c c' : coord_step enc resolve_host c c' → coord_inv c → coord_inv c'.
Proof.
  destruct 1 as [c spec uuid e c' r H|c id spec e c' r H|c id e c' h r H|c id name role spec secret e c' r Hf H|c id name spec e c' r H
    |c id name secret e c' r Hf H|c id name e c' r H|c id name b e c' r H|c id name c' r H|c cfgs ie e c' r H|c req peer now je a out H
    |c id n n' Hn Hc Hd]; intros Hi.
  - unfold create_network in H. destruct (valid_name _); [|by injection H as <- <-].
    destruct (validate_network resolve_host _) as [cfg [u|]] eqn:Hv; [|by injection H as <- <-].
    case_bool_decide as Hex; [by injection H as <- <-|]. destruct (ae_cfg_ok e); injection H as <- <-; [|done].
    assert (cfg = normalized (mkNetworkConfig (nsp_network_id spec) (spec_cidrs spec) (nsp_settings spec) ∅ ∅)) as -> by by injection Hv.
    destruct Hi as [Hk Hu]. split.
    + intros id n. cbn. rewrite lookup_insert_Some. intros [[<- <-]|[_ Hn]]; [done|by apply Hk].
    + intros i n k m rl s i' n' k' m' rl' s'. cbn. rewrite !lookup_insert_Some.
      intros [[_ <-]|[_ Hn]] [[_ <-]|[_ Hn']] Hm Hm'; try (by apply elem_of_cfg_members in Hm; destruct rl);
        try (by apply elem_of_cfg_members in Hm'; destruct rl'). by eapply Hu.
  - eapply on_net_inv; [exact H|done|]. intros n rows n' x _ Hx. exists None. split; [by eapply update_network_ok, Hx|done].
  - unfold delete_network in H. destruct (as_networks _ !! id) as [n0|]; [|by injection H as <- <- <-].
    destruct (ae_cfg_ok e); injection H as <- <- <-; [|done]. destruct Hi as [Hk Hu]. split.
    + intros i n. cbn. rewrite lookup_delete_Some. intros [_ ?]. by apply Hk.
    + intros i n k m rl s i' n' k' m' rl' s'. cbn. rewrite !lookup_delete_Some. intros [_ ?] [_ ?]. by eapply Hu.
  - unfold create_member in H. destruct (valid_name name); [|by injection H as <- <-].
    eapply on_net_inv; [exact H|done|]. intros n rows n' x _ Hx. eexists. split; [by eapply create_member_ok, Hx|]. by intros ? ? ? [= <- <- <-].
  - eapply on_net_inv; [exact H|done|]. intros n rows n' x _ Hx. exists None. split; [by eapply update_member_ok, Hx|done].
  - eapply on_net_inv; [exact H|done|]. intros n rows n' x _ Hx. destruct (member_by_name (ns_cfg n) name) as [p|] eqn:Hm.
    + eexists. split; [by eapply rotate_member_ok, Hx|]. by intros ? ? ? [= <- <- <-].
    + unfold rotate_member_locked in Hx. rewrite Hm in Hx. injection Hx as <- <- <-. exists None. split; [by apply face_ok|done].
  - eapply on_net_inv; [exact H|done|]. intros n rows n' x _ Hx. exists None. split; [by eapply forget_member_ok, Hx|done].
  - eapply on_net_inv; [exact H|done|]. intros n rows n' x _ Hx. exists None. split; [by eapply face_ok, set_disabled_ok, Hx|done].
  - eapply on_net_inv; [exact H|done|]. intros n rows n' x _ Hx. exists None. split; [|done]. apply face_ok.
    cbn beta in Hx. destruct (id_of _ _); injection Hx as <- <- <-; [apply core_face, close_session_core|done].
  - destruct r as [ids|err]; [|by apply import_err in H as ->]. destruct Hi as [Hk _]. by eapply import_unique.
  - apply join_networks in H as [He|(id & n & n' & Hn & [= Hc Hd] & He)]; unfold coord_inv; cbn [co_app]; rewrite He; [done|].
    destruct Hi. eapply unique_update with (n := n) (new := None); try done. rewrite Hc. apply keeps_secrets_refl.
  - destruct Hi. eapply unique_update with (n := n) (new := None); try done. rewrite Hc. apply keeps_secrets_refl.
Qed.
End coord_inv.

(** C7: A secret names one member. Through every operation on the coordinator,
    failing ones included (creating, changing and deleting networks and members,
    rotations, imports, joins and the control plane's handlers), as long as no
    generated secret is one in use, no two members of all networks hold the same
    secret; so a presented secret resolves to a member exactly when that member
    holds it. *)
Theorem secret_names_one `{O : IpNetOps, Q : MpscOps, L : CredLib, B : Base64, !JoinLib L} enc resolve_host c0 c
    (H0 : coord_inv c0) (Hr : rtc (coord_step enc resolve_host) c0 c) :
  unique_secrets (as_networks (co_app c)) ∧
  ∀ secret id name, resolve_secret (co_app c) secret = Some (id, name) ↔
    plausible_secret (trim secret) = true ∧ ∃ n, as_networks (co_app c) !! id = Some n ∧ holds_secret (ns_cfg n) name secret.
Proof.
  assert (coord_inv c) as [_ Hu] by (eapply rtc_inv_preserved; [|exact H0|exact Hr]; intros; by eapply coord_step_inv).
  split; [done|]. intros secret id name. pose proof (resolve_secret_spec (co_app c) secret) as Hs.
  destruct (resolve_secret (co_app c) secret) as [[id' name']|]; [|naive_solver].
  split; [by intros [= <- <-]|]. destruct Hs as (_ & n' & Hn' & m' & r' & s' & Hm' & Hs' & Ht').
  intros (_ & n & Hn & m & r & s & Hm & Hs & Ht). destruct (Hu _ _ _ _ _ _ _ _ _ _ _ _ Hn Hn' Hm Hm' Hs Hs') as (-> & -> & _); congruence.
Qed.

Module CoordinatorExample.
Lemma c_inv : coord_inv AdminExample.c.
Proof.
  split; [apply AdminExample.c_keyed|]. eapply (distinct_secrets _ [AdminExample.cfg]); [apply AdminExample.c_keyed|by_decide|].
  intros id x. cbn. rewrite lookup_singleton_Some. intros [_ <-]. by left.
Qed.

(** Nobody holds the secret the examples rotate to. *)
Lemma new_fresh : fresh_secret AdminExample.c "s-new".
Proof.
  intros id x name. cbn. rewrite lookup_singleton_Some. intros [_ <-] (m & r & s & Hin & Hs & Ht).
  assert (trim s ∈ cfg_secrets AdminExample.cfg) as Hx by (apply elem_of_cfg_secrets; eauto 10).
  rewrite Ht in Hx. revert Hx. vm_compute. intros Hx. repeat (inversion Hx as [|? ? ? Hy]; subst; clear Hx; rename Hy into Hx).
Qed.

Lemma rotated_step : coord_step DirExample.enc AdminExample.no_dns AdminExample.c (AdminExample.rot).1.
Proof. eapply cs_rotate_member; [exact new_fresh|exact AdminExample.rot_ok]. Qed.
End CoordinatorExample.

Lemma secret_names_one_witness :
  resolve_secret (co_app (AdminExample.rot).1) " s-new" = Some ("net"%string, "c1"%string) ∧
  unique_secrets (as_networks (co_app (AdminExample.rot).1)).
Proof.
  destruct (secret_names_one (L := CredExample.lib) DirExample.enc AdminExample.no_dns AdminExample.c (AdminExample.rot).1 CoordinatorExample.c_inv)
    as [Hu _]; [|split; [vm_compute; reflexivity|exact Hu]].
  apply rtc_once, CoordinatorExample.rotated_step.
Defined.
