(* ===== verification/AdminAuth.v ===== *)
(** * Admin access to the coordinator (crates/nqvpn-coord/src/auth.rs, api.rs)

    Logins, UI sessions, the check every admin request passes and the guard against
    requests a foreign page makes with the cookie. A login is two events: it is
    counted and takes a slot, then the password has been checked. Argon2's verdict is
    a parameter. *)

From Stdlib Require Import Ascii.
From S2P Require Import Prelude Ordered Ipnet Text Credential Config RateLimit Join.

Definition COOKIE : string := "nqvpn_session".
Definition MAX_LOGIN_ATTEMPTS_PER_MIN : Z := 10.
Definition LOGIN_SLOTS : Z := 4.

(** ** Requests *)

(** [HeaderMap]: names in lower case with their bytes; [get] is the first. *)
Definition Headers : Type := list (string * list Z).

(** [get(name)] and [to_str], which fails outside visible ASCII. *)
Definition header_str (h : Headers) (name : string) : option string :=
  v ← snd <$> List.find (λ p, String.eqb p.1 name) h;
  if forallb (λ b, ((32 <=? b) && (b <? 127)) || (b =? 9)) v then Some (bytes_str v) else None.

(** [find_map] over the parts of the Cookie header. *)
Definition cookie_token (h : Headers) : option string :=
  raw ← header_str h "cookie";
  head (omap (λ c, r ← strip_prefix COOKIE (trim c); strip_prefix "=" r) (split_on ";" raw)).

Definition bearer_token (h : Headers) : option string :=
  v ← header_str h "authorization";
  t ← strip_prefix "Bearer " v;
  let t := trim t in if String.eqb t "" then None else Some t.

(** ** The guard against foreign pages *)

Definition ascii_lower (s : string) : string :=
  bytes_str ((λ b, if (65 <=? b) && (b <=? 90) then b + 32 else b) <$> str_bytes s).
Definition strip_suffix (x s : string) : option string :=
  (λ l, bytes_str (rev l)) <$> strip_bytes (rev (str_bytes x)) (rev (str_bytes s)).

(** [split_once("://")]. *)
Fixpoint split_scheme (s : list Z) : option (list Z * list Z) :=
  match s with
  | [] => None
  | b :: s' => match strip_bytes [58; 47; 47] s with Some r => Some ([], r) | None => (λ p : list Z * list Z, (b :: p.1, p.2)) <$> split_scheme s' end
  end.

Definition authority (url : string) : option string :=
  '(scheme, rest) ← both_str <$> split_scheme (str_bytes url);
  let host := ascii_lower (match split_once 47 rest with Some (a, _) => a | None => rest end) in
  default_ ← (if String.eqb scheme "https" then Some ":443"%string else if String.eqb scheme "http" then Some ":80"%string else None);
  Some (default host (strip_suffix default_ host)).

Definition strip_default (host : string) : string := let h := ascii_lower host in default h (strip_suffix ":443" h).

Definition origin_candidates (public_url : option string) (h : Headers) (uri_authority : option string) : list string :=
  (strip_default <$> omap (header_str h) ["host"; "x-forwarded-host"]%string) ++
  option_list (strip_default <$> uri_authority) ++ option_list (u ← public_url; authority u).

Definition same_origin (public_url : option string) (origin : string) (h : Headers) (uri_authority : option string) : bool :=
  match authority origin with
  | None => false
  | Some origin => existsb (String.eqb origin) (origin_candidates public_url h uri_authority)
  end.

Record HttpRequest := mkHttpRequest { hq_method : string; hq_path : string; hq_authority : option string; hq_headers : Headers }.

(** Whether the request is passed on. An Origin that is not text counts as [null]. *)
Definition origin_guard (public_url : option string) (q : HttpRequest) : bool :=
  let changes_state := negb (existsb (String.eqb (hq_method q)) ["GET"; "HEAD"; "OPTIONS"]%string) in
  let is_ws := String.eqb (hq_path q) "/api/v1/ws" in
  if (changes_state || is_ws) && match cookie_token (hq_headers q) with Some _ => true | None => false end then
    match List.find (λ p, String.eqb p.1 "origin") (hq_headers q) with
    | Some _ => same_origin public_url (default "null"%string (header_str (hq_headers q) "origin")) (hq_headers q) (hq_authority q)
    | None => true
    end
  else true.

(** ** Sessions *)

Record UiSession := mkUiSession { us_user : string; us_expires : Z }.
Record AdminCfg := mkAdminCfg { ad_user : option string; ad_password_hash : option string; ad_session_hours : Z }.
Record AuthState := mkAuthState { au_live : gmap string UiSession; au_rate : RateLimiter; au_slots : Z }.

Definition auth_new : AuthState := mkAuthState ∅ rate_limiter_default LOGIN_SLOTS.

Definition session_lookup (live : gmap string UiSession) (token : string) (now : Z) : option UiSession :=
  s ← live !! token; if now <? us_expires s then Some s else None.

(** [Sessions::open] with the token it generated. *)
Definition ui_open (token user : string) (ttl now : Z) (live : gmap string UiSession) : gmap string UiSession :=
  <[token := mkUiSession user (now ⊕ ttl)]> (filter (λ p : string * UiSession, now < us_expires p.2) live).

Inductive AuthError : Set := AdminDisabled | RateLimited_ | WrongLogin | AdminUnauthorized.

Section auth.
(** [verify_password password phc]. *)
Context (verify_password : string → string → bool) (cfg : AdminCfg) (admin_token : option string).

(** Up to the password check: counted, a slot taken. *)
Definition login_begin (ip : string) (now : Z) (a : AuthState) : AuthState * Result unit AuthError :=
  match ad_user cfg, ad_password_hash cfg with
  | Some _, Some _ =>
      let '(rate, allowed) := rate_check RATE_LIMIT_MAX_KEYS (au_rate a) (rate_key ip) MAX_LOGIN_ATTEMPTS_PER_MIN now in
      let a := mkAuthState (au_live a) rate (au_slots a) in
      if negb allowed then (a, Err RateLimited_) else
      if au_slots a <=? 0 then (a, Err RateLimited_) else
      (mkAuthState (au_live a) rate (au_slots a - 1), Ok tt)
  | _, _ => (a, Err AdminDisabled)
  end.

Definition session_ttl : Z := (Z.max (ad_session_hours cfg) 1 * 3600) mod 2 ^ 64.

(** The name and password are the configured ones. *)
Definition login_ok (user password : string) : bool :=
  match ad_user cfg, ad_password_hash cfg with
  | Some u, Some h => constant_time_eq u user && verify_password password h
  | _, _ => false
  end.

(** From the password check on; [checked] is false when its task failed. *)
Definition login_finish (ip user password token : string) (checked : bool) (now : Z) (a : AuthState) : AuthState * Result string AuthError :=
  let a := mkAuthState (au_live a) (au_rate a) (au_slots a + 1) in
  if negb (login_ok user password && checked) then (a, Err WrongLogin) else
  (mkAuthState (ui_open token (default ""%string (ad_user cfg)) session_ttl now (au_live a)) (refund (au_rate a) (rate_key ip)) (au_slots a), Ok token).

Definition logout (h : Headers) (a : AuthState) : AuthState :=
  match cookie_token h with Some c => mkAuthState (delete c (au_live a)) (au_rate a) (au_slots a) | None => a end.

Definition check_admin (h : Headers) (now : Z) (a : AuthState) : Result unit AuthError :=
  let live t := match session_lookup (au_live a) t now with Some _ => true | None => false end in
  let by_bearer := match bearer_token h with
    | Some t =>
        match admin_token with Some c => negb (String.eqb c "") && constant_time_eq t c | None => false end || live t
    | None => false
    end in
  if by_bearer then Ok tt else
  if match cookie_token h with Some c => live c | None => false end then Ok tt else
  match admin_token, ad_password_hash cfg with None, None => Err AdminDisabled | _, _ => Err AdminUnauthorized end.
End auth.

(** ** The coordinator's admins over time *)

Section access.
Context (verify_password : string → string → bool) (cfg : AdminCfg) (admin_token : option string).

(** [auth_ran clock a checking given]: after events up to [clock], the state, the
    logins being checked, and the sessions given out and not logged out of, with
    nothing ever dropped for being over. *)
Inductive auth_ran : Z → AuthState → list (string * string * string) → gmap string UiSession → Prop :=
| ar_new now : auth_ran now auth_new [] ∅
| ar_wait now now' a checking given : auth_ran now a checking given → now ≤ now' → auth_ran now' a checking given
| ar_begin now a checking given ip user password a' r :
    auth_ran now a checking given → login_begin cfg ip now a = (a', r) →
    auth_ran now a' (checking ++ match r with Ok _ => [(ip, user, password)] | Err _ => [] end) given
| ar_finish now a checking given before after ip user password token checked a' r :
    auth_ran now a checking given → checking = before ++ (ip, user, password) :: after →
    login_finish verify_password cfg ip user password token checked now a = (a', r) →
    auth_ran now a' (before ++ after)
      match r with Ok t => <[t := mkUiSession user (now ⊕ session_ttl cfg)]> given | Err _ => given end
| ar_logout now a checking given h :
    auth_ran now a checking given →
    auth_ran now (logout h a) checking (match cookie_token h with Some c => delete c given | None => given end).

(** Who a session given out belongs to. *)
Definition given_to_admin (given : gmap string UiSession) : Prop :=
  ∀ t s, given !! t = Some s → ∃ password, login_ok verify_password cfg (us_user s) password = true.

Lemma login_ok_user user password : login_ok verify_password cfg user password = true → ad_user cfg = Some user.
Proof.
  unfold login_ok. destruct (ad_user cfg) as [u|], (ad_password_hash cfg); try done.
  intros [He _]%andb_true_iff. apply constant_time_eq_spec in He. by subst.
Qed.

Lemma auth_ran_inv now a checking given : auth_ran now a checking given →
  (∀ t now', now ≤ now' → session_lookup (au_live a) t now' = session_lookup given t now') ∧
  given_to_admin given ∧ au_slots a = LOGIN_SLOTS - Z.of_nat (length checking) ∧ 0 ≤ au_slots a.
Proof.
  induction 1 as [now|now now' a checking given Hr (IH1 & IH2 & IH3 & IH4) Hle|now a checking given ip user password a' r Hr (IH1 & IH2 & IH3 & IH4) Hb
    |now a checking given before after ip user password token checked a' r Hr (IH1 & IH2 & IH3 & IH4) -> Hf|now a checking given h Hr (IH1 & IH2 & IH3 & IH4)].
  - split_and!; [done|by intros t s|done|done].
  - split_and!; try done. intros. apply IH1. lia.
  - unfold login_begin in Hb. destruct (ad_user cfg), (ad_password_hash cfg); try (injection Hb as <- <-; by rewrite app_nil_r).
    destruct (rate_check _ _ _ _ _) as [rate []]; cbn in Hb; [|injection Hb as <- <-; by rewrite app_nil_r].
    destruct (Z.leb_spec (au_slots a) 0); injection Hb as <- <-; [by rewrite app_nil_r|]. cbn. split_and!; try done; [rewrite length_app; cbn; lia|lia].
  - rewrite length_app in IH3. cbn [length] in IH3. unfold login_finish in Hf.
    destruct (login_ok verify_password cfg user password) eqn:Hok; cbn in Hf.
    2: { injection Hf as <- <-. cbn. split_and!; try done; rewrite ?length_app; lia. }
    destruct checked; injection Hf as <- <-; cbn; rewrite ?length_app; split_and!; try done; try lia.
    + intros t now' Hle. rewrite (login_ok_user _ _ Hok). cbn. unfold ui_open, session_lookup in *. specialize (IH1 t now' Hle).
      destruct (decide (token = t)) as [->|Hne]; [by rewrite !lookup_insert_eq|]. rewrite !lookup_insert_ne by done.
      rewrite <- IH1, map_lookup_filter. destruct (au_live a !! t) as [s|]; [|done]. cbn.
      case_guard; [done|]. cbn. destruct (Z.ltb_spec now' (us_expires s)); [cbn in *; lia|done].
    + intros t s [[<- <-]|[_ Hl]]%lookup_insert_Some; [by exists password|by eapply IH2].
  - unfold logout. destruct (cookie_token h) as [c|]; [|done]. cbn. split_and!; try done.
    + intros t now' Hle. unfold session_lookup in *. destruct (decide (c = t)) as [->|]; [by rewrite !lookup_delete_eq|]. rewrite !lookup_delete_ne by done. by apply IH1.
    + intros t s [_ Hl]%lookup_delete_Some. by eapply IH2.
Qed.
End access.

Definition is_live (live : gmap string UiSession) (now : Z) (t : string) : bool :=
  match session_lookup live t now with Some _ => true | None => false end.

Lemma check_admin_ok cfg admin_token h now a : check_admin cfg admin_token h now a = Ok tt ↔
  match bearer_token h with
  | Some t => match admin_token with Some c => negb (String.eqb c "") && constant_time_eq t c | None => false end || is_live (au_live a) now t
  | None => false
  end = true ∨
  match cookie_token h with Some c => is_live (au_live a) now c | None => false end = true.
Proof.
  unfold check_admin. fold (is_live (au_live a) now).
  set (b1 := match bearer_token h with Some _ => _ | None => _ end). set (b2 := match cookie_token h with Some _ => _ | None => _ end).
  change (match bearer_token h with Some t => _ | None => _ end) with b1. change (match cookie_token h with Some c => _ | None => _ end) with b2.
  destruct b1, b2; try naive_solver. destruct admin_token, (ad_password_hash cfg); naive_solver.
Qed.

Lemma bearer_nonempty h t : bearer_token h = Some t → t ≠ ""%string.
Proof.
  unfold bearer_token. destruct (header_str h "authorization") as [v|]; [|done]. cbn [mbind option_bind].
  destruct (strip_prefix "Bearer " v) as [x|]; [|done]. cbn [mbind option_bind]. destruct (String.eqb_spec (trim x) ""); [done|]. by intros [= <-].
Qed.

(** C35: Only admins are let in. At every moment of a coordinator's life, a request
    passes the admin check exactly when its bearer token is the configured one, or its
    bearer token or cookie names a session that was given out, is not logged out of and
    is not over; a session is given out only to the configured user with a password
    that verified, and never by default: with nothing configured nothing passes. At
    most four passwords are being checked at a time. A request that carries the cookie
    and changes state is passed on with an Origin only if that is this coordinator's. *)
Theorem admin_access_exact verify_password cfg admin_token now a checking given
    (Hr : auth_ran verify_password cfg now a checking given) :
  (∀ h, check_admin cfg admin_token h now a = Ok tt ↔
     (∃ t, bearer_token h = Some t ∧ (admin_token = Some t ∨ ∃ s, given !! t = Some s ∧ now < us_expires s)) ∨
     (∃ c s, cookie_token h = Some c ∧ given !! c = Some s ∧ now < us_expires s)) ∧
  (∀ t s, given !! t = Some s → ad_user cfg = Some (us_user s) ∧ ∃ password hash, ad_password_hash cfg = Some hash ∧ verify_password password hash = true) ∧
  (length checking ≤ 4)%nat ∧
  (∀ public_url q c o, cookie_token (hq_headers q) = Some c → header_str (hq_headers q) "origin" = Some o →
     hq_method q ∉ ["GET"; "HEAD"; "OPTIONS"]%string → origin_guard public_url q = true →
     ∃ host, authority o = Some host ∧ host ∈ origin_candidates public_url (hq_headers q) (hq_authority q)).
Proof.
  apply auth_ran_inv in Hr as (H1 & H2 & H3 & H4). unfold LOGIN_SLOTS in H3. split_and!; [| |lia|].
  - intros h. assert (∀ t, is_live (au_live a) now t = true ↔ ∃ s, given !! t = Some s ∧ now < us_expires s) as Hl.
    { intros t. unfold is_live. rewrite H1 by done. unfold session_lookup. destruct (given !! t) as [s|]; cbn; [|naive_solver].
      destruct (Z.ltb_spec now (us_expires s)); naive_solver lia. }
    rewrite check_admin_ok. destruct (bearer_token h) as [t|] eqn:Hb.
    + apply bearer_nonempty in Hb as Hne. rewrite orb_true_iff, Hl.
      assert (match admin_token with Some c => negb (String.eqb c "") && constant_time_eq t c | None => false end = true ↔ admin_token = Some t) as ->.
      { destruct admin_token as [c|]; [|done]. rewrite andb_true_iff, negb_true_iff, String.eqb_neq, constant_time_eq_spec. naive_solver. }
      destruct (cookie_token h) as [c|]; [rewrite Hl|]; naive_solver.
    + destruct (cookie_token h) as [c|]; [rewrite Hl|]; naive_solver.
  - intros t s (password & Hok)%H2. split; [by eapply login_ok_user|]. unfold login_ok in Hok.
    destruct (ad_user cfg), (ad_password_hash cfg) as [hash|]; try done. apply andb_true_iff in Hok as [_ ?]. by exists password, hash.
  - intros public_url q c o Hc Ho Hm. unfold origin_guard. rewrite Hc.
    assert (existsb (String.eqb (hq_method q)) ["GET"; "HEAD"; "OPTIONS"]%string = false) as ->.
    { apply not_true_iff_false. rewrite existsb_exists. intros (x & Hx & Hq%String.eqb_eq). apply Hm. rewrite Hq. by apply list_elem_of_In. }
    cbn [negb orb andb]. destruct (List.find (λ p, String.eqb p.1 "origin") (hq_headers q)) as [p|] eqn:Hf;
      [|unfold header_str in Ho; by rewrite Hf in Ho].
    rewrite Ho. change (default "null"%string (Some o)) with o.
    unfold same_origin. destruct (authority o) as [host|]; [|done]. rewrite existsb_exists. intros (x & Hx & ->%String.eqb_eq).
    exists x. split; [done|]. by apply list_elem_of_In.
Qed.

Module AuthExample.
Definition cfg : AdminCfg := mkAdminCfg (Some "root"%string) (Some "phc"%string) 12.
Definition argon (password phc : string) : bool := String.eqb password "pw".
Definition begun : AuthState := (login_begin cfg "192.0.2.1" 100 auth_new).1.
Definition logged_in : AuthState := (login_finish argon cfg "192.0.2.1" "root" "pw" "tok" true 101 begun).1.
Definition headers : Headers := [("cookie"%string, str_bytes "a=b; nqvpn_session=tok"); ("origin"%string, str_bytes "https://Coord.example:443");
  ("host"%string, str_bytes "coord.example")].

Lemma guarded : cookie_token headers = Some "tok"%string ∧
  origin_guard None (mkHttpRequest "POST" "/api/v1/import" None headers) = true ∧
  origin_guard None (mkHttpRequest "POST" "/api/v1/import" None (("origin"%string, str_bytes "https://evil.example") :: headers)) = false.
Proof. vm_compute. done. Qed.

Lemma admin_ran : auth_ran argon cfg 43300 logged_in [] {["tok"%string := mkUiSession "root" 43301]}.
Proof.
  apply (ar_wait _ _ 101); [|lia].
  apply (ar_finish argon cfg 101 begun [("192.0.2.1", "root", "pw")]%string ∅ [] [] "192.0.2.1" "root" "pw" "tok" true logged_in (Ok "tok"%string));
    [|done|vm_compute; reflexivity].
  apply (ar_wait _ _ 100); [|lia].
  apply (ar_begin argon cfg 100 auth_new [] ∅ "192.0.2.1" "root" "pw" begun (Ok tt)); [constructor|vm_compute; reflexivity].
Qed.
End AuthExample.

Lemma admin_access_exact_witness :
  check_admin AuthExample.cfg None AuthExample.headers 43300 AuthExample.logged_in = Ok tt.
Proof.
  destruct (admin_access_exact AuthExample.argon AuthExample.cfg None 43300 _ _ _ AuthExample.admin_ran) as [H _].
  apply H. right. exists "tok"%string, (mkUiSession "root" 43301). split_and!; [vm_compute; reflexivity|apply lookup_singleton_eq|cbn; lia].
Defined.
