(* ===== verification/DataSession.v ===== *)
(** * Data sessions (crates/nqvpn-session/src/lib.rs)

    One authenticated connection between a member and a relay, or two relays:
    the exchange that opens it from either side, and the loop that drives it
    until it ends. One iteration of the loop is [run_step]: the state, what the
    [select!] delivered, and the verifier as it stands at that moment. The
    connection is the sequence of those events and what is handed to it
    ([SessionOut]). What is only logged is left out. *)

From S2P Require Import Prelude Frame Envelope Control Credential Tables RelayNet.

Definition MAX_HELLO : Z := 16 * 1024.
Definition CLOSE_VERSION : Z := 3.
Definition SESSION_CLOSE_EXPIRED : Z := 6.
Definition SESSION_CLOSE_PROBE_TIMEOUT : Z := 7.

(** [Verifier::verify], at one moment; [StaleLogin] is told apart. *)
Inductive Refusal : Set := StaleLogin | OtherRefusal.
Definition Verifier : Type := string → string → Result Claims Refusal.

Inductive ProtocolError : Set :=
| BadRefresh
| AnotherMember (node : Z)
| RefreshRejected (r : Refusal).

Inductive End_ : Set :=
| EndClosed
| EndExpired
| EndProbeTimeout
| EndProtocol (p : ProtocolError).

Record SessionConfig := mkSessionConfig { scf_probe_secs : Z; scf_probe_misses : Z }.
Definition session_config_default : SessionConfig := mkSessionConfig 2 5.

Record LiveSession := mkLiveSession {
  lv_peer : Z;
  lv_peer_role : Role;
  lv_claims : Claims;
  lv_peer_fp : string;
  lv_exp : Z;
  lv_login_gen : Z;
  lv_rtt_us : Z;
}.

Definition session_open (peer : Z) (peer_role : Role) (claims : Claims) (peer_fp : string) : LiveSession :=
  mkLiveSession peer peer_role claims peer_fp (cl_exp claims) (cl_login_gen claims) 0.

Definition lv_set_cred (exp login_gen : Z) (s : LiveSession) : LiveSession :=
  mkLiveSession (lv_peer s) (lv_peer_role s) (lv_claims s) (lv_peer_fp s) exp login_gen (lv_rtt_us s).
Definition lv_set_rtt (rtt : Z) (s : LiveSession) : LiveSession :=
  mkLiveSession (lv_peer s) (lv_peer_role s) (lv_claims s) (lv_peer_fp s) (lv_exp s) (lv_login_gen s) rtt.

(** When the session ends for want of a Refresh. *)
Definition ends_at (s : LiveSession) : Z := sat_add 64 (lv_exp s) LEEWAY_SECS.

(** Handed to the connection, or to [on_packet]. *)
Inductive SessionOut : Type :=
| SendFrame (bytes : list Z)
| SendMsg (kind : Kind) (payload : list Z)
| OnPacket (bytes : list Z) (lane : Z)
| CloseConn (code : Z).

(** What the [select!] delivers: the packet channel ([None] when it ended), the
    control stream's reader task, the expiry timer, the probe tick. *)
Inductive SessionEvent : Type :=
| EvPacket (p : option (list Z * Z))
| EvControl (e : option (Result Envelope StreamError))
| EvExpiry
| EvTick.

(** bincode on the two messages: [None] where decoding fails. *)
Class SessionCodec := {
  hello_bytes : string → list Z;
  hello_of : list Z → option string;
  refresh_bytes : string → list Z;
  refresh_of : list Z → option string;
}.
Class SessionCodecLaws (S : SessionCodec) : Prop := {
  hello_roundtrip c : hello_of (hello_bytes c) = Some c;
  refresh_roundtrip c : refresh_of (refresh_bytes c) = Some c;
}.

Section session.
Context `{L : CredLib, S : SessionCodec}.

(** [Session::refresh]; [sent] says whether the message could be written. *)
Definition present_refresh (s : LiveSession) (credential : string) (sent : bool) : LiveSession * list SessionOut * bool :=
  if negb sent then (s, [], false) else
  (match peek_exp credential with Some exp => lv_set_cred exp (lv_login_gen s) s | None => s end,
   [SendMsg KRefresh (refresh_bytes credential)], true).

(** ** The loop *)

Record RunState := mkRunState { ru_session : LiveSession; ru_outstanding : Z; ru_seq : Z }.

Definition run_start (s : LiveSession) : RunState := mkRunState s 0 0.

Definition run_packet (elapsed_us : Z) (st : RunState) (d : list Z) (lane : Z) : RunState * list SessionOut :=
  match head d with
  | Some t =>
      if t =? T_PROBE then
        (st, match probe_parse d with Some p => [SendFrame (probe_encode (probe_into_reply p))] | None => [] end) else
      if t =? T_REPLY then
        (match probe_parse d with
         | Some p => mkRunState (lv_set_rtt (elapsed_us ⊖ pr_t_sent p) (ru_session st)) 0 (ru_seq st)
         | None => st
         end, [])
      else (st, [OnPacket d lane])
  | None => (st, [OnPacket d lane])
  end.

Definition run_refresh (v : option Verifier) (st : RunState) (payload : list Z) : RunState * option End_ :=
  match v with
  | None => (st, None)
  | Some v =>
      match refresh_of payload with
      | None => (st, Some (EndProtocol BadRefresh))
      | Some credential =>
          let s := ru_session st in
          match v credential (lv_peer_fp s) with
          | Ok c =>
              if (cl_node_id c =? cl_node_id (lv_claims s)) && bool_decide (cl_role c = cl_role (lv_claims s))
              then (mkRunState (lv_set_cred (cl_exp c) (cl_login_gen c) s) (ru_outstanding st) (ru_seq st), None)
              else (st, Some (EndProtocol (AnotherMember (cl_node_id c))))
          | Err r => (st, Some (EndProtocol (RefreshRejected r)))
          end
      end
  end.

(** One iteration; [elapsed_us] is the time since [run] was called. *)
Definition run_step (cfg : SessionConfig) (v : option Verifier) (elapsed_us : Z) (st : RunState) (ev : SessionEvent)
    : RunState * list SessionOut * option End_ :=
  match ev with
  | EvPacket None => (st, [], Some EndClosed)
  | EvPacket (Some (d, lane)) => (run_packet elapsed_us st d lane, None)
  | EvControl (Some (Ok env)) =>
      if env_kind env =? kind_u16 KRefresh
      then let '(st, e) := run_refresh v st (env_payload env) in (st, [], e)
      else (st, [], None)
  | EvControl _ => (st, [], Some EndClosed)
  | EvExpiry => (st, [CloseConn SESSION_CLOSE_EXPIRED], Some EndExpired)
  | EvTick =>
      if scf_probe_misses cfg <=? ru_outstanding st
      then (st, [CloseConn SESSION_CLOSE_PROBE_TIMEOUT], Some EndProbeTimeout)
      else
        let seq := ru_seq st ⊕ 1 in
        (mkRunState (ru_session st) (ru_outstanding st + 1) seq, [SendFrame (probe_encode (mkProbe T_PROBE seq elapsed_us))], None)
  end.

(** What one iteration saw: the clock at its top, what was delivered, how long
    that took in whole seconds, the time since the start, and the verifier. *)
Record Iteration := mkIteration {
  it_now : Z; it_event : SessionEvent; it_waited : Z; it_elapsed_us : Z; it_verifier : option Verifier;
}.

(** The timer runs for [exp_in] from the top of the loop; the tick branch is
    disabled without probing. *)
Definition may_happen (cfg : SessionConfig) (st : RunState) (it : Iteration) : Prop :=
  match it_event it with
  | EvExpiry => ends_at (ru_session st) ⊖ it_now it ≤ it_waited it
  | EvTick => 0 < scf_probe_secs cfg
  | _ => True
  end.

(** The iterations of a loop that has not ended. *)
Inductive running (cfg : SessionConfig) (s0 : LiveSession) : list Iteration → RunState → list SessionOut → Prop :=
| rn_start : running cfg s0 [] (run_start s0) []
| rn_step tr st outs it st' out :
    running cfg s0 tr st outs → may_happen cfg st it →
    run_step cfg (it_verifier it) (it_elapsed_us it) st (it_event it) = (st', out, None) →
    running cfg s0 (tr ++ [it]) st' (outs ++ out).

(** ** Opening: the acceptor *)

Record AcceptParams := mkAcceptParams { ap_verifier : Verifier; ap_ack_gen : Z }.

Inductive AcceptError : Set :=
| NoCertificate
| HelloTimeout
| HelloStream (e : StreamError)
| HelloVersion
| NotHello
| BadHello
| BadCredential
| NotServing
| NotVerified (r : Refusal)
| AckFailed.

(** [hello]: what arrived on the control stream within the deadline ([None]:
    nothing did); [ack_of] encodes [HelloAck], [ack_ok] says it could be sent. *)
Definition session_accept (params_for : string → option AcceptParams) (ack_of : Z → list Z) (fp : option string)
    (hello : option (Result Envelope StreamError)) (ack_ok : bool) : list SessionOut * Result LiveSession AcceptError :=
  match fp with
  | None => ([], Err NoCertificate)
  | Some fp =>
      match hello with
      | None => ([], Err HelloTimeout)
      | Some (Err e) => ([], Err (HelloStream e))
      | Some (Ok env) =>
          match check_version (env_major env) (env_minor env) with
          | Err _ => ([CloseConn CLOSE_VERSION], Err HelloVersion)
          | Ok _ =>
              if negb (env_kind env =? kind_u16 KHello) then ([], Err NotHello) else
              match hello_of (env_payload env) with
              | None => ([], Err BadHello)
              | Some credential =>
                  match peek_network credential with
                  | None => ([], Err BadCredential)
                  | Some network =>
                      match params_for network with
                      | None => ([], Err NotServing)
                      | Some params =>
                          match ap_verifier params credential fp with
                          | Err r =>
                              ([CloseConn (match r with StaleLogin => SESSION_CLOSE_STALE_LOGIN | OtherRefusal => SESSION_CLOSE_EVICTED end)],
                               Err (NotVerified r))
                          | Ok claims =>
                              if negb ack_ok then ([], Err AckFailed) else
                              ([SendMsg KHelloAck (ack_of (ap_ack_gen params))],
                               Ok (session_open (cl_node_id claims) (cl_role claims) claims fp))
                          end
                      end
                  end
              end
          end
      end
  end.

(** [SingleNetwork::params_for]. *)
Definition single_network (network_id : string) (v : Verifier) (id : string) : option AcceptParams :=
  if String.eqb id network_id then Some (mkAcceptParams v 0) else None.

(** A relay's networks ([Fleet] of crates/nqvpn-relay/src/net.rs). *)
Definition relay_verifier (n : RelayNet) (now elapsed : Z) : Verifier := λ credential fp,
  match net_verify n credential fp now elapsed with
  | Ok c => Ok c
  | Err VStaleLogin => Err StaleLogin
  | Err _ => Err OtherRefusal
  end.

Definition fleet_params (nets : gmap string RelayNet) (now elapsed : Z) (id : string) : option AcceptParams :=
  n ← nets !! id; Some (mkAcceptParams (relay_verifier n now elapsed) (s_gen (rn_view n))).

(** ** Opening: the dialer *)

Inductive Ack : Type :=
| AckEnv (env : Envelope)
| AckError (closed : option (Z * string))
| AckTimeout.

(** How dialing one address goes; from a connection on, the certificate the far
    end presented and how the exchange went. *)
Inductive Attempt : Type :=
| NotConnected
| Connected (fp : option string) (opened hello_sent : bool) (ack : Ack).

Inductive OpenError : Type :=
| ResolveFailed
| NoAddress
| Unreached
| PeerNoCertificate
| StreamFailed
| Refused (code : Z) (reason : string)
| NoAck
| CredentialRefused.

Definition dial_connected (peer : Z) (peer_role : Role) (claims : Claims) (fp : option string) (opened hello_sent : bool) (ack : Ack)
    : Result LiveSession OpenError :=
  match fp with
  | None => Err PeerNoCertificate
  | Some fp =>
      if negb (opened && hello_sent) then Err StreamFailed else
      match ack with
      | AckError (Some (code, reason)) => Err (Refused code reason)
      | AckError None | AckTimeout => Err NoAck
      | AckEnv env => if env_kind env =? kind_u16 KHelloAck then Ok (session_open peer peer_role claims fp) else Err CredentialRefused
      end
  end.

Fixpoint dial_each (peer : Z) (peer_role : Role) (claims : Claims) (attempts : list Attempt) : Result LiveSession OpenError :=
  match attempts with
  | [] => Err Unreached
  | NotConnected :: rest => dial_each peer peer_role claims rest
  | Connected fp opened hello_sent ack :: _ => dial_connected peer peer_role claims fp opened hello_sent ack
  end.

(** [attempts]: one per address the name resolves to ([None]: it does not). *)
Definition dial (peer : Z) (peer_role : Role) (claims : Claims) (attempts : option (list Attempt)) : Result LiveSession OpenError :=
  match attempts with
  | None => Err ResolveFailed
  | Some [] => Err NoAddress
  | Some attempts => dial_each peer peer_role claims attempts
  end.
End session.

(** ** What a running session rests on *)

Section vouched.
Context `{L : CredLib, S : SessionCodec}.

(** The session is held by a credential that [v] accepted for its certificate. *)
Definition held_by (v : Verifier) (s : LiveSession) : Prop :=
  ∃ cred c, v cred (lv_peer_fp s) = Ok c ∧ cl_node_id c = lv_peer s ∧ cl_role c = lv_peer_role s ∧
    lv_exp s = cl_exp c ∧ lv_login_gen s = cl_login_gen c.

(** Who is at the other end, which never changes. *)
Definition identity (s : LiveSession) : Z * Role * Claims * string := (lv_peer s, lv_peer_role s, lv_claims s, lv_peer_fp s).

Lemma run_packet_session t st d lane st' out : run_packet t st d lane = (st', out) →
  identity (ru_session st') = identity (ru_session st) ∧ lv_exp (ru_session st') = lv_exp (ru_session st) ∧
  lv_login_gen (ru_session st') = lv_login_gen (ru_session st).
Proof. unfold run_packet. repeat case_match; intros; by simplify_eq/=. Qed.

Lemma run_refresh_session v st payload st' : run_refresh v st payload = (st', None) →
  st' = st ∨ ∃ f cred c, v = Some f ∧ f cred (lv_peer_fp (ru_session st)) = Ok c ∧
    cl_node_id c = cl_node_id (lv_claims (ru_session st)) ∧ cl_role c = cl_role (lv_claims (ru_session st)) ∧
    st' = mkRunState (lv_set_cred (cl_exp c) (cl_login_gen c) (ru_session st)) (ru_outstanding st) (ru_seq st).
Proof.
  unfold run_refresh. destruct v as [f|]; [|intros [= <-]; by left]. destruct (refresh_of payload) as [cred|]; [|done].
  destruct (f cred _) as [c|] eqn:Hc; [|done]. case_match eqn:He; [|done]. intros [= <-]. right.
  apply andb_true_iff in He as [?%Z.eqb_eq ?%bool_decide_eq_true]. by exists f, cred, c.
Qed.

Lemma run_step_session cfg it st st' out : run_step cfg (it_verifier it) (it_elapsed_us it) st (it_event it) = (st', out, None) →
  identity (ru_session st') = identity (ru_session st) ∧
  ((lv_exp (ru_session st') = lv_exp (ru_session st) ∧ lv_login_gen (ru_session st') = lv_login_gen (ru_session st)) ∨
   ∃ v, it_verifier it = Some v ∧
     (cl_node_id (lv_claims (ru_session st)) = lv_peer (ru_session st) → cl_role (lv_claims (ru_session st)) = lv_peer_role (ru_session st) →
      held_by v (ru_session st'))).
Proof.
  unfold run_step. destruct (it_event it) as [[[d lane]|]|[[env|]|]| |]; try done.
  - intros [= H]. apply run_packet_session in H as (? & ? & ?). auto.
  - destruct (env_kind env =? _); [|intros [= <- <-]; auto]. destruct (run_refresh _ _ _) as [st1 e] eqn:Hr. intros [= <- <- ->].
    apply run_refresh_session in Hr as [->|(f & cred & c & Hf & Hv & Hn & Hro & ->)]; [auto|]. split; [done|]. right. exists f. split; [done|].
    intros Hp Hpr. exists cred, c. cbn. split_and!; congruence.
  - destruct (_ <=? _); [done|]. intros [= <- <-]. auto.
Qed.

Lemma running_held cfg s0 v0 tr st outs :
  held_by v0 s0 → cl_node_id (lv_claims s0) = lv_peer s0 → cl_role (lv_claims s0) = lv_peer_role s0 → running cfg s0 tr st outs →
  identity (ru_session st) = identity s0 ∧ ∃ v, (v = v0 ∨ ∃ it, it ∈ tr ∧ it_verifier it = Some v) ∧ held_by v (ru_session st).
Proof.
  intros H0 Hn Hr. induction 1 as [|tr st outs it st' out Hrun [Hi (v & Hv & Hh)] Hm Hs]; [eauto|].
  apply run_step_session in Hs as [Hi' Hc]. split; [congruence|]. unfold identity in *. destruct Hc as [[He Hg]|(v' & Hv' & Hc)].
  - exists v. split; [|destruct Hh as (cred & c & ? & ? & ? & ? & ?); exists cred, c; split_and!; congruence].
    destruct Hv as [|(it' & ? & ?)]; [by left|right]. exists it'. rewrite elem_of_app. auto.
  - exists v'. split; [right; exists it; split; [apply elem_of_app; right; by left|done]|]. apply Hc; congruence.
Qed.

Lemma session_accept_ok params_for ack_of fp hello ack_ok out s : session_accept params_for ack_of fp hello ack_ok = (out, Ok s) →
  ∃ fp0 env cred network params c, fp = Some fp0 ∧ hello = Some (Ok env) ∧ check_version (env_major env) (env_minor env) = Ok tt ∧
    env_kind env = kind_u16 KHello ∧ hello_of (env_payload env) = Some cred ∧ peek_network cred = Some network ∧
    params_for network = Some params ∧ ap_verifier params cred fp0 = Ok c ∧ s = session_open (cl_node_id c) (cl_role c) c fp0.
Proof.
  unfold session_accept. destruct fp as [fp0|]; [|done]. destruct hello as [[env|]|]; [|done..]. destruct (check_version _ _) as [[]|] eqn:?; [|done].
  destruct (Z.eqb_spec (env_kind env) (kind_u16 KHello)); [|done]. cbn [negb]. destruct (hello_of _) as [cred|] eqn:?; [|done].
  destruct (peek_network cred) as [network|] eqn:?; [|done]. destruct (params_for network) as [params|] eqn:?; [|done].
  destruct (ap_verifier params cred fp0) as [c|] eqn:?; [|done]. destruct ack_ok; [|done]. intros [= <- <-].
  by exists fp0, env, cred, network, params, c.
Qed.
End vouched.

(** C13: A session is held by a live credential. From the moment a session is
    accepted and as long as its loop runs, the node, role and certificate at the
    other end are those of the Hello, and the expiry and login generation in
    force are those of a credential for that node and role which the acceptor's
    verifier accepted for that certificate: the one of the Hello, or of a Refresh
    since. It is ended for expiry only once that credential's expiry and the
    verifier's own leeway have passed, so never as long as the verifier would
    still accept the credential. *)
Theorem session_vouched `{L : CredLib, S : SessionCodec} cfg params_for ack_of fp hello ack_ok out s0 tr st outs
    (Ha : session_accept params_for ack_of fp hello ack_ok = (out, Ok s0)) (Hr : running cfg s0 tr st outs) :
  fp = Some (lv_peer_fp (ru_session st)) ∧ lv_peer (ru_session st) = lv_peer s0 ∧ lv_peer_role (ru_session st) = lv_peer_role s0 ∧
  (∃ v, ((∃ network params, params_for network = Some params ∧ v = ap_verifier params) ∨ ∃ it, it ∈ tr ∧ it_verifier it = Some v) ∧
        held_by v (ru_session st)) ∧
  (∀ it st' o, may_happen cfg st it →
     run_step cfg (it_verifier it) (it_elapsed_us it) st (it_event it) = (st', o, Some EndExpired) →
     ends_at (ru_session st) ≤ it_now it + it_waited it ∧
     ∀ claims expected, cl_exp claims = lv_exp (ru_session st) → check_claims claims expected (it_now it + it_waited it) ≠ Ok claims).
Proof.
  apply session_accept_ok in Ha as (fp0 & env & cred & network & params & c & -> & -> & _ & _ & _ & _ & Hp & Hv & ->).
  destruct (running_held cfg (session_open (cl_node_id c) (cl_role c) c fp0) (ap_verifier params) tr st outs
    ltac:(by exists cred, c) eq_refl eq_refl Hr) as ([= H1 H2 _ H4] & v & Hin & Hh).
  rewrite H4, H1, H2. split_and!; try done.
  - exists v. split; [|done]. destruct Hin as [->|]; [left; eauto|by right].
  - intros it st' o Hm Hs. unfold may_happen in Hm. unfold run_step in Hs. destruct (it_event it) as [[[d lane]|]|[[e'|]|]| |]; try done.
    + destruct (env_kind e' =? _); [|done]. destruct (run_refresh _ _ _) as [st1 [e1|]] eqn:Hr1; [|done]. injection Hs as <- <- ->. exfalso.
      unfold run_refresh in Hr1. repeat case_match; by simplify_eq.
    + unfold sat_sub in Hm. assert (ends_at (ru_session st) ≤ it_now it + it_waited it) as Hle by lia. split; [done|].
      intros cl ex He [_ Hb]%check_claims_ok. unfold bound_to in Hb. rewrite He in Hb. unfold ends_at in Hle. lia.
    + destruct (_ <=? _); [done|]. done.
Qed.

(** ** Liveness by probes *)

(** An answer to a probe. *)
Definition is_answer (d : list Z) : bool :=
  bool_decide (head d = Some T_REPLY) && match probe_parse d with Some _ => true | None => false end.

(** Probes sent and not answered since: counted over what happened. *)
Definition count_unanswered (n : Z) (it : Iteration) : Z :=
  match it_event it with
  | EvTick => n + 1
  | EvPacket (Some (d, _)) => if is_answer d then 0 else n
  | _ => n
  end.
Definition unanswered (tr : list Iteration) : Z := foldl count_unanswered 0 tr.

Definition is_tick (it : Iteration) : bool := match it_event it with EvTick => true | _ => false end.
Definition answered_by (it : Iteration) : bool := match it_event it with EvPacket (Some (d, _)) => is_answer d | _ => false end.

(** What is passed on, and what is not for the session itself. *)
Definition packet_of (o : SessionOut) : option (list Z * Z) := match o with OnPacket d lane => Some (d, lane) | _ => None end.
Definition data_of (it : Iteration) : option (list Z * Z) :=
  match it_event it with
  | EvPacket (Some (d, lane)) =>
      if bool_decide (head d = Some T_PROBE) || bool_decide (head d = Some T_REPLY) then None else Some (d, lane)
  | _ => None
  end.

Section liveness.
Context `{L : CredLib, S : SessionCodec}.

Lemma run_packet_spec t st d lane st' out : run_packet t st d lane = (st', out) →
  ru_outstanding st' = (if is_answer d then 0 else ru_outstanding st) ∧
  omap packet_of out = (if bool_decide (head d = Some T_PROBE) || bool_decide (head d = Some T_REPLY) then [] else [(d, lane)]).
Proof.
  unfold run_packet, is_answer. destruct (head d) as [x|]; [|by intros [= <- <-]].
  destruct (Z.eqb_spec x T_PROBE) as [->|]; [|destruct (Z.eqb_spec x T_REPLY) as [->|]].
  - intros [= <- <-]. cbn. split; [done|]. by destruct (probe_parse d).
  - destruct (probe_parse d); intros [= <- <-]; done.
  - intros [= <- <-]. rewrite !(bool_decide_eq_false_2 (Some x = _)) by congruence. done.
Qed.

Lemma run_step_count cfg it st st' out : run_step cfg (it_verifier it) (it_elapsed_us it) st (it_event it) = (st', out, None) →
  ru_outstanding st' = count_unanswered (ru_outstanding st) it ∧ omap packet_of out = option_list (data_of it) ∧
  (is_tick it = true → ru_outstanding st < scf_probe_misses cfg).
Proof.
  unfold run_step, count_unanswered, data_of, is_tick. destruct (it_event it) as [[[d lane]|]|[[env|]|]| |]; try done.
  - intros [= H]. apply run_packet_spec in H as [-> ->]. split_and!; [done| |done]. by case_match.
  - destruct (env_kind env =? _); [|by intros [= <- <-]]. destruct (run_refresh _ _ _) as [st1 e] eqn:Hr. intros [= <- <- ->].
    by apply run_refresh_session in Hr as [->|(? & ? & ? & _ & _ & _ & _ & ->)].
  - destruct (Z.leb_spec (scf_probe_misses cfg) (ru_outstanding st)); [done|]. by intros [= <- <-].
Qed.

Lemma running_count cfg s0 tr st outs : running cfg s0 tr st outs →
  ru_outstanding st = unanswered tr ∧ omap packet_of outs = omap data_of tr ∧
  (0 ≤ scf_probe_misses cfg → 0 ≤ unanswered tr ≤ scf_probe_misses cfg).
Proof.
  induction 1 as [|tr st outs it st' out Hrun (Ho & Hp & Hb) Hm Hs]; [done|]. apply run_step_count in Hs as (Ho' & Hp' & Ht).
  unfold unanswered in *. rewrite foldl_snoc, !omap_app, Ho', Ho, Hp, Hp'. split_and!; [done| |].
  - done.
  - intros H0. specialize (Hb H0). rewrite Ho in Ht. set (m := foldl count_unanswered 0 tr) in *. clearbody m.
    unfold is_tick in Ht. unfold count_unanswered.
    destruct (it_event it) as [[[d lane]|]|?| |]; try specialize (Ht eq_refl); repeat case_match; lia.
Qed.

Lemma unanswered_silent tr : Forall (λ it, answered_by it = false) tr → unanswered tr = Z.of_nat (length (List.filter is_tick tr)).
Proof.
  unfold unanswered. induction tr as [|it tr IH] using rev_ind; [done|]. rewrite Forall_app, Forall_singleton. intros [Ha Hit].
  rewrite foldl_snoc, List.filter_app, length_app, (IH Ha). unfold count_unanswered, answered_by, is_tick in *. cbn.
  destruct (it_event it) as [[[d lane]|]|?| |]; cbn; try lia. rewrite Hit. lia.
Qed.
End liveness.

(** C23: A dead peer is noticed, a live one is kept. While the loop runs, the
    session has sent one probe for every tick and at most [probe_misses] of them
    since the last answer; the next tick ends it with a probe timeout exactly
    when that many are unanswered, and nothing else does; so a peer that never
    answers lets it through at most [probe_misses] ticks. The far end of any
    session answers every probe as it came, and the answer clears the count and
    gives the round trip. Neither probes nor answers reach the data path, where
    every other packet arrives, once and in order. *)
Theorem probe_liveness `{L : CredLib, S : SessionCodec} cfg s0 tr st outs
    (Hm : 0 ≤ scf_probe_misses cfg) (Hr : running cfg s0 tr st outs) :
  ru_outstanding st = unanswered tr ∧ unanswered tr ≤ scf_probe_misses cfg ∧
  (∀ v t ev, (run_step cfg v t st ev).2 = Some EndProbeTimeout ↔ ev = EvTick ∧ unanswered tr = scf_probe_misses cfg) ∧
  (Forall (λ it, answered_by it = false) tr → Z.of_nat (length (List.filter is_tick tr)) ≤ scf_probe_misses cfg) ∧
  (∀ far fcfg fv ft seq t0 v t lane lane', u_range 64 seq → u_range 64 t0 →
     ∃ answer st', run_step fcfg fv ft far (EvPacket (Some (probe_encode (mkProbe T_PROBE seq t0), lane))) = (far, [SendFrame answer], None) ∧
       run_step cfg v t st (EvPacket (Some (answer, lane'))) = (st', [], None) ∧
       ru_outstanding st' = 0 ∧ lv_rtt_us (ru_session st') = t ⊖ t0) ∧
  omap packet_of outs = omap data_of tr.
Proof.
  destruct (running_count _ _ _ _ _ Hr) as (Ho & Hp & Hb). specialize (Hb Hm). split_and!; [done|lia| | | |done].
  - intros v t ev. rewrite <- Ho in *. unfold run_step. destruct ev as [[[d lane]|]|[[env|]|]| |]; cbn [snd]; try naive_solver.
    + destruct (_ =? _); [|naive_solver]. destruct (run_refresh v st (env_payload env)) as [st1 e] eqn:Hrr. cbn [snd].
      split; [intros ->|naive_solver]. unfold run_refresh in Hrr. repeat case_match; by simplify_eq.
    + destruct (Z.leb_spec (scf_probe_misses cfg) (ru_outstanding st)); cbn [snd]; split; [|done|done|]; [|naive_solver lia].
      intros _. split; [done|lia].
  - intros Hs. rewrite <- unanswered_silent by done. lia.
  - intros far fcfg fv ft seq t0 v t lane lane' Hs Ht.
    assert (wf_probe (mkProbe T_PROBE seq t0)) as Hw by (split; [by left|done]).
    destruct control_frames_roundtrip_disjoint as (H1 & H2 & _).
    pose proof (proj1 (H1 _ [] Hw)) as E1. pose proof (H2 _ [] Hw) as E2. rewrite app_nil_r in E1, E2.
    exists (probe_encode (mkProbe T_REPLY seq t0)). unfold run_step, run_packet.
    change (head (probe_encode (mkProbe T_PROBE seq t0))) with (Some T_PROBE).
    change (head (probe_encode (mkProbe T_REPLY seq t0))) with (Some T_REPLY).
    change (T_PROBE =? T_PROBE) with true. change (T_REPLY =? T_PROBE) with false. change (T_REPLY =? T_REPLY) with true. cbv iota.
    rewrite E1. change (probe_into_reply (mkProbe T_PROBE seq t0)) with (mkProbe T_REPLY seq t0) in *. rewrite E2. eexists. by split_and!.
Qed.

(** ** The two ends of the opening exchange *)

(** What quinn lets the dialer see, once the connection works and nothing times out,
    of what the acceptor did before it returned: the message it wrote; the code and
    some reason where it closed the connection; and where it did neither, it has
    dropped the connection, which closes it with code 0 and no reason, unless the end
    of the stream is seen first. *)
Class QuinnPeer := { ack_seen : list SessionOut → Ack → Prop }.
Class QuinnPeerLaws (Q : QuinnPeer) : Prop := {
  seen_message k payload out ack : ack_seen (SendMsg k payload :: out) ack → ack = AckEnv (envelope_new k payload);
  seen_close code out ack : ack_seen (CloseConn code :: out) ack → ∃ reason, ack = AckError (Some (code, reason));
  seen_dropped ack : ack_seen [] ack → ack = AckError (Some (0, ""%string)) ∨ ack = AckError None;
}.

(** How an acceptor's refusal reads at the other end. *)
Definition refusal_code (e : AcceptError) : option Z :=
  match e with
  | NotVerified StaleLogin => Some SESSION_CLOSE_STALE_LOGIN
  | NotVerified OtherRefusal => Some SESSION_CLOSE_EVICTED
  | HelloVersion => Some CLOSE_VERSION
  | _ => None
  end.

Section opening.
Context `{L : CredLib, S : SessionCodec}.

Lemma verify_bound_to token keys e now c : verify token keys e now = Ok c → bound_to c e now.
Proof. unfold verify, ok_or. repeat case_match; try done; cbn; repeat case_match; try done. by intros [-> ?]%check_claims_ok. Qed.

Lemma net_verify_bound n cred fp now elapsed c : net_verify n cred fp now elapsed = Ok c →
  cl_cert_fp c = fp ∧ bound_to c (mkExpected COORD_ISS (rn_network_id n) (rn_network_uuid n)) now.
Proof.
  unfold net_verify, ensure. case_bool_decide; [done|]. destruct (verify _ _ _ _) as [c'|] eqn:Hv; [|done]. cbn.
  destruct (String.eqb_spec (cl_cert_fp c') fp); [|done]. repeat (cbn; case_match; try done). intros [= <-].
  split; [done|]. by eapply verify_bound_to.
Qed.

(** The exchange as one function of what the relay knows. *)
Lemma accept_hello nets now elapsed ack_of fp cred `{!SessionCodecLaws S} :
  session_accept (fleet_params nets now elapsed) ack_of (Some fp) (Some (Ok (envelope_new KHello (hello_bytes cred)))) true =
  match peek_network cred with
  | None => ([], Err BadCredential)
  | Some network =>
      match nets !! network with
      | None => ([], Err NotServing)
      | Some n =>
          match net_verify n cred fp now elapsed with
          | Ok c => ([SendMsg KHelloAck (ack_of (s_gen (rn_view n)))], Ok (session_open (cl_node_id c) (cl_role c) c fp))
          | Err VStaleLogin => ([CloseConn SESSION_CLOSE_STALE_LOGIN], Err (NotVerified StaleLogin))
          | Err _ => ([CloseConn SESSION_CLOSE_EVICTED], Err (NotVerified OtherRefusal))
          end
      end
  end.
Proof.
  unfold session_accept, envelope_new. cbn. rewrite hello_roundtrip. unfold fleet_params. destruct (peek_network cred) as [network|]; [|done].
  destruct (nets !! network) as [n|]; [|done]. cbn. unfold relay_verifier. destruct (net_verify n cred fp now elapsed) as [c|[]]; done.
Qed.

Lemma dial_each_skip peer role claims k a rest :
  dial_each peer role claims (replicate k NotConnected ++ a :: rest) = dial_each peer role claims (a :: rest).
Proof. induction k; [done|]. by cbn [replicate app dial_each]. Qed.

Lemma dial_skip peer role claims k a rest :
  dial peer role claims (Some (replicate k NotConnected ++ a :: rest)) = dial_each peer role claims (a :: rest).
Proof. rewrite <- dial_each_skip with (k := k). by destruct k. Qed.
End opening.


(** ** A session at work *)

Module SessionExample.
#[export] Instance lib : CredLib := CredExample.lib.

(** A length-prefixed text stands in for bincode. *)
#[export] Instance codec : SessionCodec := {|
  hello_bytes := λ s, [Zpos (encode s)]; hello_of := λ l, match l with [Zpos p] => decode p | _ => None end;
  refresh_bytes := λ s, [Zpos (encode s)]; refresh_of := λ l, match l with [Zpos p] => decode p | _ => None end;
|}.
#[export] Instance codec_laws : SessionCodecLaws codec.
Proof. split; intros; cbn; apply decode_encode. Qed.

Definition alice (exp : Z) : Claims :=
  mkClaims "nqvpn-coord" AUD "net" "uuid" 10 "alice" Client "PK" "fpC" ["10.0.0.7/32"%string] 1 1000 exp.
Definition token (exp : Z) : string := sign (alice exp) "k1" 5.

Definition relay : RelayNet :=
  mkRelayNet "net" "uuid" 1 FleetExample.view false false "cred" [("k1"%string, 5)] (mkSessionMaps (tables_new 1) ∅ ∅ 1) ∅
    (mkStats counters_default ∅ byte_counter_default byte_counter_default 0) false None false None 0 0 0.
Definition nets : gmap string RelayNet := {["net" := relay]}.
Definition verifier (now : Z) : Verifier := relay_verifier relay now 100.
Definition opened : list SessionOut * Result LiveSession AcceptError :=
  session_accept (fleet_params nets 1500 100) (λ g, [g]) (Some "fpC") (Some (Ok (envelope_new KHello (hello_bytes (token 4600))))) true.
Definition session : LiveSession := session_open 10 Client (alice 4600) "fpC".

(** A data packet, a Refresh, then two ticks. *)
Definition steps (i : nat) : Iteration :=
  match i with
  | 0%nat => mkIteration 1500 (EvPacket (Some ([T_DATA; 1], 0))) 1 10 (Some (verifier 1500))
  | 1%nat => mkIteration 1501 (EvControl (Some (Ok (envelope_new KRefresh (refresh_bytes (token 9000)))))) 1 20 (Some (verifier 1501))
  | 2%nat => mkIteration 1502 EvTick 1 30 (Some (verifier 1502))
  | _ => mkIteration 1503 EvTick 1 40 (Some (verifier 1503))
  end.
Definition iterations : list Iteration := [steps 0; steps 1; steps 2; steps 3].
Definition after : RunState := mkRunState (lv_set_cred 9000 1 session) 2 2.
Definition handed_at (i : nat) : SessionOut :=
  match i with
  | 0%nat => OnPacket [T_DATA; 1] 0
  | 1%nat => SendFrame (probe_encode (mkProbe T_PROBE 1 30))
  | _ => SendFrame (probe_encode (mkProbe T_PROBE 2 40))
  end.
Definition handed : list SessionOut := [handed_at 0; handed_at 1; handed_at 2].

Lemma accepted : opened = ([SendMsg KHelloAck [5]], Ok session).
Proof. vm_compute. reflexivity. Qed.

(** A connection that is dropped is seen as closed with code 0. *)
#[export] Instance quinn : QuinnPeer := {| ack_seen out ack :=
  ack = match out with
        | SendMsg k p :: _ => AckEnv (envelope_new k p)
        | CloseConn code :: _ => AckError (Some (code, "refused"%string))
        | _ => AckError (Some (0, ""%string))
        end |}.
#[export] Instance quinn_laws : QuinnPeerLaws quinn.
Proof. split; cbn; intros; subst; eauto. Qed.

(** A relay that does not serve the network. *)
Lemma not_served : session_accept (fleet_params ∅ 1500 100) (λ g, [g]) (Some "fpC") (Some (Ok (envelope_new KHello (hello_bytes (token 4600))))) true = ([], Err NotServing).
Proof. vm_compute. reflexivity. Qed.

Definition cfg : SessionConfig := mkSessionConfig 2 5.
Definition at_ (s : LiveSession) (n : Z) : RunState := mkRunState s n n.

Lemma session_ran : running cfg session iterations after handed.
Proof.
  change iterations with (((([] ++ [steps 0]) ++ [steps 1]) ++ [steps 2]) ++ [steps 3]).
  change handed with ((((([] : list SessionOut) ++ [handed_at 0]) ++ []) ++ [handed_at 1]) ++ [handed_at 2]).
  pose proof (rn_start cfg session) as H0.
  pose proof (rn_step cfg session _ _ _ (steps 0) (at_ session 0) _ H0 I ltac:(vm_compute; reflexivity)) as H1.
  pose proof (rn_step cfg session _ _ _ (steps 1) (at_ (lv_set_cred 9000 1 session) 0) [] H1 I ltac:(vm_compute; reflexivity)) as H2.
  pose proof (rn_step cfg session _ _ _ (steps 2) (at_ (lv_set_cred 9000 1 session) 1) _ H2 eq_refl ltac:(vm_compute; reflexivity)) as H3.
  exact (rn_step cfg session _ _ _ (steps 3) after _ H3 eq_refl ltac:(vm_compute; reflexivity)).
Qed.
End SessionExample.

#[local] Existing Instance SessionExample.lib.
#[local] Existing Instance SessionExample.codec.
#[local] Existing Instance SessionExample.codec_laws.

Lemma session_vouched_witness : ends_at (ru_session SessionExample.after) = 9120 ∧
  lv_peer_fp (ru_session SessionExample.after) = "fpC"%string ∧
  ∃ v, held_by v (ru_session SessionExample.after).
Proof.
  split; [reflexivity|].
  destruct (session_vouched SessionExample.cfg (fleet_params SessionExample.nets 1500 100) (λ g, [g]) (Some "fpC"%string)
    (Some (Ok (envelope_new KHello (hello_bytes (SessionExample.token 4600))))) true [SendMsg KHelloAck [5]] SessionExample.session
    SessionExample.iterations SessionExample.after SessionExample.handed SessionExample.accepted SessionExample.session_ran)
    as (Hf & _ & _ & (v & _ & Hv) & _).
  split; [congruence|]. by exists v.
Defined.

Lemma probe_liveness_witness : unanswered SessionExample.iterations = 2 ∧
  omap packet_of SessionExample.handed = [([T_DATA; 1], 0)].
Proof.
  destruct (probe_liveness SessionExample.cfg SessionExample.session SessionExample.iterations SessionExample.after SessionExample.handed
    ltac:(by_decide) SessionExample.session_ran) as (Ho & _ & _ & _ & _ & Hp).
  split; [by rewrite <- Ho|]. rewrite Hp. reflexivity.
Defined.

#[local] Existing Instance SessionExample.quinn.
#[local] Existing Instance SessionExample.quinn_laws.

