(* ===== verification/Rpc.v ===== *)
(** * Calls over the control stream (crates/nqvpn-proto/src/rpc.rs, errors.rs)

    [RpcPeer] issues calls, answers them and pairs replies with calls. The calls
    under way are tasks of their own: a peer's state holds, next to the map of
    waiters, where each call stands and its one-shot channel; an event is one
    atomic piece of what the tasks do, so a list of events is an interleaving. *)

From S2P Require Import Prelude Ordered Envelope.

(** ** The error vocabulary *)

Inductive ErrorCode : Set :=
| BadCredentials | ClientDisabled | PrefixConflict | AddressInUse | AddressSpaceExhausted | PoolExhausted | UnknownPool
| RelayUnreachable | BadRequest | RateLimited | AdminAuthRequired | NotFound | Internal | UnsupportedVerb | UnsupportedVersion
| UnknownCode (s : string).

Definition code_as_str (c : ErrorCode) : string :=
  match c with
  | BadCredentials => "bad_credentials"
  | ClientDisabled => "client_disabled"
  | PrefixConflict => "prefix_conflict"
  | AddressInUse => "address_in_use"
  | AddressSpaceExhausted => "address_space_exhausted"
  | PoolExhausted => "pool_exhausted"
  | UnknownPool => "unknown_pool"
  | RelayUnreachable => "relay_unreachable"
  | BadRequest => "bad_request"
  | RateLimited => "rate_limited"
  | AdminAuthRequired => "admin_auth_required"
  | UnsupportedVerb => "unsupported_verb"
  | UnsupportedVersion => "unsupported_version"
  | NotFound => "not_found"
  | Internal => "internal"
  | UnknownCode s => s
  end.

Definition named_codes : list ErrorCode :=
  [BadCredentials; ClientDisabled; PrefixConflict; AddressInUse; AddressSpaceExhausted; PoolExhausted; UnknownPool;
   RelayUnreachable; BadRequest; RateLimited; AdminAuthRequired; UnsupportedVerb; UnsupportedVersion; NotFound; Internal].

Definition code_parse (s : string) : ErrorCode :=
  default (UnknownCode s) (List.find (λ c, String.eqb s (code_as_str c)) named_codes).

(** Retrying never succeeds on its own. *)
Definition is_terminal (c : ErrorCode) : bool :=
  match c with
  | BadCredentials | ClientDisabled | PrefixConflict | AddressInUse | UnknownPool | BadRequest
  | UnsupportedVerb | UnsupportedVersion => true
  | _ => false
  end.

(** ** Messages *)

Definition API_VERSIONS : Z := 1.

Record Request := mkRequest { rq_req_id : Z; rq_verb : Z; rq_version : Z; rq_payload : list Z }.
Record Response := mkResponse { rs_req_id : Z; rs_code : option string; rs_payload : list Z }.
Record VerbSupport := mkVerbSupport { vs_verb : Z; vs_min : Z; vs_max : Z }.
Definition ApiVersions : Type := list VerbSupport.

Definition accepts (s : VerbSupport) (version : Z) : bool := (vs_min s <=? version) && (version <=? vs_max s).

(** bincode on the messages: [None] where it fails. *)
Class RpcCodec := {
  request_bytes : Request → option (list Z);
  request_of : list Z → option Request;
  response_bytes : Response → option (list Z);
  response_of : list Z → option Response;
  support_bytes : VerbSupport → option (list Z);
  support_of : list Z → option VerbSupport;
  versions_bytes : ApiVersions → option (list Z);
  versions_of : list Z → option ApiVersions;
}.
Class RpcCodecLaws (C : RpcCodec) : Prop := {
  request_roundtrip r b : request_bytes r = Some b → request_of b = Some r;
  response_roundtrip r b : response_bytes r = Some b → response_of b = Some r;
  support_roundtrip s : ∃ b, support_bytes s = Some b ∧ support_of b = Some s;
  support_of_nothing : support_of [] = None;
}.

(** The trait [Rpc]: a request type with its response, verb and versions. *)
Record Rpc := mkRpc {
  Req : Type; Resp : Type;
  VERB : Z; MIN_VERSION : Z; MAX_VERSION : Z;
  req_bytes : Req → option (list Z);
  resp_of : list Z → option Resp;
}.

(** The trait [VerbHandler], as it stands when it is called. *)
Record VerbHandler := mkVerbHandler {
  supported : list VerbSupport;
  handle : Z → Z → list Z → Result (list Z) ErrorCode;
}.
Definition NoVerbs : VerbHandler := mkVerbHandler [] (λ _ _ _, Err UnsupportedVerb).

Inductive RpcError : Set :=
| Remote (c : ErrorCode)
| VersionError (s : VerbSupport)
| TimedOut
| SessionClosed
| Codec.

(** ** A peer *)

(** [oneshot]: the sender is held by [pending]; a value was sent; it was dropped. *)
Inductive OneShot : Type := OsOpen | OsSent (r : Response) | OsClosed.
Inductive Phase : Set := PSending | PWaiting.
Record Call := mkCall { ca_id : Z; ca_phase : Phase; ca_rx : OneShot }.

Record RpcPeer := mkRpcPeer {
  rp_pending : gmap Z nat;
  rp_calls : gmap nat Call;
  rp_next_id : Z;
  rp_stopped : bool;
  rp_fresh : nat;
}.

Definition rpc_new : RpcPeer := mkRpcPeer ∅ ∅ 1 false 0.

Definition set_rx (rx : OneShot) (tx : nat) (calls : gmap nat Call) : gmap nat Call :=
  alter (λ c, mkCall (ca_id c) (ca_phase c) rx) tx calls.

(** A sender that leaves the map is sent on or dropped. *)
Definition drop_sender (id : Z) (p : RpcPeer) : RpcPeer :=
  mkRpcPeer (delete id (rp_pending p))
    (match rp_pending p !! id with Some tx => set_rx OsClosed tx (rp_calls p) | None => rp_calls p end)
    (rp_next_id p) (rp_stopped p) (rp_fresh p).

(** Clearing the map drops every sender it holds. *)
Definition rpc_close (p : RpcPeer) : RpcPeer :=
  mkRpcPeer ∅ (foldr (set_rx OsClosed) (rp_calls p) (map_to_list (rp_pending p)).*2) (rp_next_id p) (rp_stopped p) (rp_fresh p).

Section peer.
Context `{C : RpcCodec}.

(** [encode_msg]. *)
Definition request_msg (r : Request) : option (list Z) := (λ b, envelope_encode (envelope_new KRequest b)) <$> request_bytes r.
Definition response_msg (r : Response) : option (list Z) := (λ b, envelope_encode (envelope_new KResponse b)) <$> response_bytes r.

(** [call_versioned] up to the wait for room in the outgoing queue: the bytes to
    send and the call's one-shot, or how it failed. *)
Definition call_start (verb version : Z) (payload : option (list Z)) (p : RpcPeer) : RpcPeer * Result (nat * list Z) RpcError :=
  if rp_stopped p then (p, Err SessionClosed) else
  match payload with
  | None => (p, Err Codec)
  | Some payload =>
      let req_id := rp_next_id p in
      let next := rp_next_id p ⊕ 1 in
      match request_msg (mkRequest req_id verb version payload) with
      | None => (mkRpcPeer (rp_pending p) (rp_calls p) next (rp_stopped p) (rp_fresh p), Err Codec)
      | Some bytes =>
          let tx := rp_fresh p in
          let q := drop_sender req_id p in
          (mkRpcPeer (<[req_id := tx]> (rp_pending q)) (<[tx := mkCall req_id PSending OsOpen]> (rp_calls q)) next (rp_stopped q) (S tx),
           Ok (tx, bytes))
      end
  end.

(** The call is over, however it ended: [PendingGuard::drop]. *)
Definition call_end (tx : nat) (p : RpcPeer) : RpcPeer :=
  match rp_calls p !! tx with
  | None => p
  | Some c =>
      let q := drop_sender (ca_id c) p in
      mkRpcPeer (rp_pending q) (delete tx (rp_calls q)) (rp_next_id q) (rp_stopped q) (rp_fresh q)
  end.

(** [out.send(bytes).await] finished. *)
Definition call_sent (tx : nat) (ok : bool) (p : RpcPeer) : RpcPeer * option (Result Response RpcError) :=
  match rp_calls p !! tx with
  | Some (mkCall id PSending rx) =>
      if ok then (mkRpcPeer (rp_pending p) (<[tx := mkCall id PWaiting rx]> (rp_calls p)) (rp_next_id p) (rp_stopped p) (rp_fresh p), None)
      else (call_end tx p, Some (Err SessionClosed))
  | _ => (p, None)
  end.

(** The wait is polled: the channel first, then the timer. *)
Definition call_poll (tx : nat) (timed_out : bool) (p : RpcPeer) : RpcPeer * option (Result Response RpcError) :=
  match rp_calls p !! tx with
  | Some (mkCall _ PWaiting rx) =>
      match rx with
      | OsSent r => (call_end tx p, Some (Ok r))
      | OsClosed => (call_end tx p, Some (Err SessionClosed))
      | OsOpen => if timed_out then (call_end tx p, Some (Err TimedOut)) else (p, None)
      end
  | _ => (p, None)
  end.

(** What the caller gets for a response. *)
Definition interpret (R : Rpc) (resp : Response) : Result (Resp R) RpcError :=
  match rs_code resp with
  | Some code =>
      let code := code_parse code in
      match code, support_of (rs_payload resp) with
      | UnsupportedVersion, Some sup => Err (VersionError sup)
      | _, _ => Err (Remote code)
      end
  | None => match resp_of R (rs_payload resp) with Some r => Ok r | None => Err Codec end
  end.

Definition fail (req : Request) (code : ErrorCode) (payload : list Z) : Response :=
  mkResponse (rq_req_id req) (Some (code_as_str code)) payload.

Definition dispatch (h : VerbHandler) (req : Request) : Response :=
  if rq_verb req =? API_VERSIONS then
    match versions_bytes (sort_by_key vs_verb (supported h ++ [mkVerbSupport API_VERSIONS 1 1])) with
    | Some payload => mkResponse (rq_req_id req) None payload
    | None => fail req Internal []
    end
  else
  match List.find (λ v, vs_verb v =? rq_verb req) (supported h) with
  | None => fail req UnsupportedVerb []
  | Some sup =>
      if negb (accepts sup (rq_version req)) then fail req UnsupportedVersion (default [] (support_bytes sup)) else
      match handle h (rq_verb req) (rq_version req) (rq_payload req) with
      | Ok payload => mkResponse (rq_req_id req) None payload
      | Err code => fail req code []
      end
  end.

(** What [try_send] on the outgoing queue would find. *)
Inductive Queue : Set := QRoom | QFull | QGone.

Definition deliver (resp : Response) (p : RpcPeer) : RpcPeer :=
  match rp_pending p !! rs_req_id resp with
  | Some tx => mkRpcPeer (delete (rs_req_id resp) (rp_pending p)) (set_rx (OsSent resp) tx (rp_calls p)) (rp_next_id p) (rp_stopped p) (rp_fresh p)
  | None => p
  end.

(** The state, what was put in the queue, and whether the envelope was for this layer. *)
Definition on_envelope (h : VerbHandler) (q : Queue) (env : Envelope) (p : RpcPeer) : RpcPeer * option (list Z) * bool :=
  if env_kind env =? kind_u16 KResponse then
    (match response_of (env_payload env) with Some resp => deliver resp p | None => p end, None, true)
  else if negb (env_kind env =? kind_u16 KRequest) then (p, None, false)
  else if rp_stopped p then (p, None, true)
  else
  match request_of (env_payload env) with
  | None => (p, None, true)
  | Some req =>
      match response_msg (dispatch h req) with
      | None => (p, None, true)
      | Some bytes =>
          match q with
          | QRoom => (p, Some bytes, true)
          | QFull => (rpc_close (mkRpcPeer (rp_pending p) (rp_calls p) (rp_next_id p) true (rp_fresh p)), None, true)
          | QGone => (p, None, true)
          end
      end
  end.
End peer.

(** ** Interleavings *)

Inductive RpcEvent : Type :=
| EvCall (verb version : Z) (payload : option (list Z))
| EvSent (tx : nat) (ok : bool)
| EvPoll (tx : nat) (timed_out : bool)
| EvDropCall (tx : nat)
| EvEnvelope (h : VerbHandler) (q : Queue) (env : Envelope)
| EvClose.

(** What can be seen: a call was sent as a request, a call returned, a reply was queued. *)
Inductive RpcOut : Type :=
| OSent (tx : nat) (req_id : Z)
| OReturned (tx : nat) (r : Result Response RpcError)
| OReply (bytes : list Z).

Section machine.
Context `{C : RpcCodec}.

Definition returned (tx : nat) (r : option (Result Response RpcError)) : list RpcOut := option_list (OReturned tx <$> r).

Definition rpc_step (p : RpcPeer) (ev : RpcEvent) : RpcPeer * list RpcOut :=
  match ev with
  | EvCall verb version payload =>
      let '(q, r) := call_start verb version payload p in
      (q, match r with Ok (tx, _) => [OSent tx (rp_next_id p)] | Err _ => [] end)
  | EvSent tx ok => let '(q, r) := call_sent tx ok p in (q, returned tx r)
  | EvPoll tx timed_out => let '(q, r) := call_poll tx timed_out p in (q, returned tx r)
  | EvDropCall tx => (call_end tx p, [])
  | EvEnvelope h q env => let '(q, b, _) := on_envelope h q env p in (q, option_list (OReply <$> b))
  | EvClose => (rpc_close p, [])
  end.

Fixpoint rpc_run (p : RpcPeer) (evs : list RpcEvent) : RpcPeer * list RpcOut :=
  match evs with
  | [] => (p, [])
  | ev :: evs => let '(p, o) := rpc_step p ev in let '(p, os) := rpc_run p evs in (p, o ++ os)
  end.

(** The response an envelope carries, and those of a run. *)
Definition carried_response (ev : RpcEvent) : option Response :=
  match ev with
  | EvEnvelope _ _ env => if env_kind env =? kind_u16 KResponse then response_of (env_payload env) else None
  | _ => None
  end.

Definition is_call (ev : RpcEvent) : bool := match ev with EvCall _ _ _ => true | _ => false end.
Definition started (evs : list RpcEvent) : Z := Z.of_nat (length (List.filter is_call evs)).

(** The waiters are the calls still without an outcome; a call's ids are its own. *)
Record rpc_inv (got : list Response) (sent : list (nat * Z)) (n : Z) (p : RpcPeer) : Prop := mkRpcInv {
  ri_pending : ∀ id tx, rp_pending p !! id = Some tx ↔ ∃ c, rp_calls p !! tx = Some c ∧ ca_id c = id ∧ ca_rx c = OsOpen;
  ri_ids : ∀ tx c, rp_calls p !! tx = Some c → 1 ≤ ca_id c < rp_next_id p ∧ (tx < rp_fresh p)%nat;
  ri_inj : ∀ tx tx' c c', rp_calls p !! tx = Some c → rp_calls p !! tx' = Some c' → ca_id c = ca_id c' → tx = tx';
  ri_sent : ∀ tx c, rp_calls p !! tx = Some c → (tx, ca_id c) ∈ sent;
  ri_got : ∀ tx c r, rp_calls p !! tx = Some c → ca_rx c = OsSent r → rs_req_id r = ca_id c ∧ r ∈ got;
  ri_next : 1 ≤ rp_next_id p ≤ n + 1;
}.

Lemma inv_new : rpc_inv [] [] 0 rpc_new.
Proof. split; cbn; try done. intros id tx. split; [done|]. by intros (c & ? & _). Qed.

(** Sets of calls with some one-shots replaced. *)
Lemma lookup_set_rx rx tx calls tx' : set_rx rx tx calls !! tx' =
  if decide (tx' = tx) then (λ c, mkCall (ca_id c) (ca_phase c) rx) <$> calls !! tx else calls !! tx'.
Proof. unfold set_rx. case_decide; subst; by simplify_map_eq. Qed.

Lemma inv_weaken got got' sent sent' n n' p :
  rpc_inv got sent n p → got ⊆ got' → sent ⊆ sent' → n ≤ n' → rpc_inv got' sent' n' p.
Proof. intros [H1 H2 H3 H4 H5 H6] ? ? ?. split; eauto; [|lia]. intros. destruct (H5 tx c r) as [? ?]; eauto. Qed.

(** The sender held for [id] leaves the map, its channel left as [rx]. *)
Lemma inv_take got sent n p id tx rx :
  rpc_inv got sent n p → rp_pending p !! id = Some tx → rx ≠ OsOpen → (∀ r, rx = OsSent r → rs_req_id r = id ∧ r ∈ got) →
  rpc_inv got sent n (mkRpcPeer (delete id (rp_pending p)) (set_rx rx tx (rp_calls p)) (rp_next_id p) (rp_stopped p) (rp_fresh p)).
Proof.
  intros [H1 H2 H3 H4 H5 H6] Hp Hrx Hg. pose proof Hp as (c0 & Hc0 & Hid & Ho)%H1.
  split; cbn; try done.
  - intros id' tx'. rewrite lookup_delete_Some, H1. setoid_rewrite lookup_set_rx. case_decide as Ht.
    + subst tx'. rewrite Hc0. cbn. split; [intros [Hne (c & [= <-] & ? & ?)]; congruence|]. intros (c & [= <-] & ? & ?). by cbn in *.
    + split; [intros [_ ?]; done|]. intros (c & Hc & Hi & Hop). split; [|eauto]. intros <-. apply Ht. eapply H3; eauto; congruence.
  - intros tx' c. rewrite lookup_set_rx. case_decide; [|apply H2]. subst. rewrite Hc0. intros [= <-]. by apply (H2 tx c0).
  - intros t1 t2 c1 c2. rewrite !lookup_set_rx. do 2 case_decide; subst; rewrite ?Hc0; intros; simplify_eq/=; try done; eauto.
  - intros tx' c. rewrite lookup_set_rx. case_decide; [|apply H4]. subst. rewrite Hc0. intros [= <-]. by apply (H4 tx c0).
  - intros tx' c r. rewrite lookup_set_rx. case_decide; [|apply H5]. subst. rewrite Hc0. intros [= <-]. cbn. intros ->. by apply Hg.
Qed.

Lemma inv_drop got sent n p id : rpc_inv got sent n p → rpc_inv got sent n (drop_sender id p).
Proof.
  intros H. unfold drop_sender. destruct (rp_pending p !! id) as [tx|] eqn:Hp.
  - by apply inv_take.
  - rewrite delete_id by done. by destruct p.
Qed.

(** A call whose channel is settled can go. *)
Lemma inv_forget got sent n p tx c : rpc_inv got sent n p → rp_calls p !! tx = Some c → ca_rx c ≠ OsOpen →
  rpc_inv got sent n (mkRpcPeer (rp_pending p) (delete tx (rp_calls p)) (rp_next_id p) (rp_stopped p) (rp_fresh p)).
Proof.
  intros [H1 H2 H3 H4 H5 H6] Hc Ho.
  assert (∀ tx' c', delete tx (rp_calls p) !! tx' = Some c' ↔ tx ≠ tx' ∧ rp_calls p !! tx' = Some c') as Hd by (intros; apply lookup_delete_Some).
  split; cbn; try done.
  - intros id tx'. rewrite H1. setoid_rewrite Hd. split; [|intros (c' & [_ ?] & ?); eauto].
    intros (c' & ? & ? & ?). exists c'. split_and!; [congruence|done..].
  - intros tx' c' [_ ?]%Hd. eauto.
  - intros t1 t2 c1 c2 [_ ?]%Hd [_ ?]%Hd. eauto.
  - intros tx' c' [_ ?]%Hd. eauto.
  - intros tx' c' r [_ ?]%Hd. eauto.
Qed.

Lemma drop_sender_calls id p tx c : rp_calls p !! tx = Some c →
  rp_calls (drop_sender id p) !! tx = Some c ∨ rp_calls (drop_sender id p) !! tx = Some (mkCall (ca_id c) (ca_phase c) OsClosed).
Proof.
  intros Hc. unfold drop_sender. cbn. destruct (rp_pending p !! id); [|by left]. rewrite lookup_set_rx.
  case_decide; [|by left]. subst. rewrite Hc. by right.
Qed.

Lemma inv_end got sent n p tx : rpc_inv got sent n p → rpc_inv got sent n (call_end tx p).
Proof.
  intros H. unfold call_end. destruct (rp_calls p !! tx) as [c|] eqn:Hc; [|done].
  pose proof (inv_drop _ _ _ _ (ca_id c) H) as Hd. destruct (drop_sender_calls (ca_id c) p tx c Hc) as [E|E];
    (eapply inv_forget; [done|exact E|]); [|done].
  intros Ho. destruct (ri_pending _ _ _ _ Hd (ca_id c) tx) as [_ Hp]. specialize (Hp ltac:(eauto)). cbn in Hp. by rewrite lookup_delete_eq in Hp.
Qed.

(** Dropping the senders of several ids. *)
Lemma set_rx_all rx txs calls tx : foldr (set_rx rx) calls txs !! tx =
  if decide (tx ∈ txs) then (λ c, mkCall (ca_id c) (ca_phase c) rx) <$> calls !! tx else calls !! tx.
Proof.
  induction txs as [|t txs IH]; [done|]. cbn. rewrite lookup_set_rx, !IH.
  destruct (decide (tx = t)) as [->|]; [|repeat case_decide; set_solver].
  rewrite (decide_True (P := t ∈ t :: txs)) by set_solver. rewrite IH. by repeat case_decide; destruct (calls !! t).
Qed.

Lemma inv_close got sent n p : rpc_inv got sent n p → rpc_inv got sent n (rpc_close p) ∧
  ∀ tx c, rp_calls (rpc_close p) !! tx = Some c → ca_rx c ≠ OsOpen.
Proof.
  intros [H1 H2 H3 H4 H5 H6].
  assert (∀ tx c, rp_calls (rpc_close p) !! tx = Some c → ∃ c0, rp_calls p !! tx = Some c0 ∧ ca_id c = ca_id c0 ∧
    ca_rx c ≠ OsOpen ∧ (ca_rx c = ca_rx c0 ∨ ca_rx c = OsClosed)) as Hc.
  { intros tx c. cbn. rewrite set_rx_all. case_decide as Hin.
    - destruct (rp_calls p !! tx) as [c0|]; [|done]. intros [= <-]. eexists. split_and!; try done. by right.
    - intros Hl. exists c. split_and!; try done; [|by left]. intros Ho. apply Hin, list_elem_of_fmap. exists (ca_id c, tx).
      split; [done|]. apply elem_of_map_to_list, H1. eauto. }
  split; [|intros tx c Hl; by destruct (Hc tx c Hl) as (? & _ & _ & ? & _)]. split; [| | | | |done].
  - intros id tx. split; [done|]. intros (c & Hl & _ & Ho). destruct (Hc tx c Hl) as (? & _ & _ & ? & _). done.
  - intros tx c Hl. destruct (Hc tx c Hl) as (c0 & ? & -> & _). eauto.
  - intros t1 t2 c1 c2 Hl1 Hl2. destruct (Hc t1 c1 Hl1) as (? & ? & -> & _), (Hc t2 c2 Hl2) as (? & ? & -> & _). eauto.
  - intros tx c Hl. destruct (Hc tx c Hl) as (c0 & ? & -> & _). eauto.
  - intros tx c r Hl Hr. destruct (Hc tx c Hl) as (c0 & ? & -> & _ & [E|E]); [|congruence]. eapply H5; [done|]. congruence.
Qed.

Lemma inv_start got sent n p verb version payload q r :
  rpc_inv got sent n p → n < 2 ^ 64 - 2 → call_start verb version payload p = (q, r) →
  rpc_inv got (sent ++ match r with Ok (tx, _) => [(tx, rp_next_id p)] | Err _ => [] end) (n + 1) q.
Proof.
  intros H Hn. pose proof (ri_next _ _ _ _ H) as Hx. unfold call_start.
  destruct (rp_stopped p); [intros [= <- <-]; eapply inv_weaken; [done|set_solver..|lia]|].
  destruct payload as [payload|]; [|intros [= <- <-]; eapply inv_weaken; [done|set_solver..|lia]].
  rewrite (wadd64_small (rp_next_id p) 1) by lia.
  assert (rp_pending p !! rp_next_id p = None) as Hno.
  { apply eq_None_not_Some. intros [tx (c & Hc & Hi & _)%(ri_pending _ _ _ _ H)]. destruct (ri_ids _ _ _ _ H tx c Hc). lia. }
  destruct H as [H1 H2 H3 H4 H5 _]. destruct (request_msg _) as [bytes|]; intros [= <- <-].
  2: { rewrite app_nil_r. split; cbn; try done; [|lia]. intros tx c Hc. destruct (H2 tx c Hc). lia. }
  unfold drop_sender. rewrite Hno, delete_id by done.
  assert (rp_calls p !! rp_fresh p = None) as Hnf.
  { apply eq_None_not_Some. intros [c Hc]. destruct (H2 _ c Hc). lia. }
  split; cbn [rp_pending rp_calls rp_next_id rp_fresh]; [| | | | |lia].
  - intros id tx. setoid_rewrite lookup_insert_Some. rewrite H1. split.
    + intros [[<- <-]|[Hne (c & Hc & Hi & Ho)]]; [eexists; split; [by left|done]|]. exists c. split; [right; split; congruence|done].
    + intros (c & [[<- <-]|[Hne Hc]] & Hi & Ho); [by left|]. right. split; [|eauto]. destruct (H2 tx c Hc). lia.
  - intros tx c [[<- <-]|[_ Hc]]%lookup_insert_Some; [cbn; lia|]. destruct (H2 tx c Hc). lia.
  - intros t1 t2 c1 c2 [[<- <-]|[_ Hc]]%lookup_insert_Some [[<- <-]|[_ Hc']]%lookup_insert_Some; cbn; try done; eauto; intros Hi.
    + destruct (H2 t2 c2 Hc'). lia.
    + destruct (H2 t1 c1 Hc). lia.
  - intros tx c [[<- <-]|[_ Hc]]%lookup_insert_Some; apply elem_of_app; [right; by left|left; eauto].
  - intros tx c r [[<- <-]|[_ Hc]]%lookup_insert_Some; [done|]. eauto.
Qed.

Definition sent_of (o : RpcOut) : option (nat * Z) := match o with OSent tx id => Some (tx, id) | _ => None end.

(** What is returned to a call is for it. *)
Definition ours (got : list Response) (sent : list (nat * Z)) (o : RpcOut) : Prop :=
  ∀ tx r, o = OReturned tx (Ok r) → (tx, rs_req_id r) ∈ sent ∧ r ∈ got.

Lemma poll_ours got sent n p tx b q r : rpc_inv got sent n p → call_poll tx b p = (q, r) →
  rpc_inv got sent n q ∧ Forall (ours got sent) (returned tx r).
Proof.
  intros H. unfold call_poll. destruct (rp_calls p !! tx) as [[id [] rx]|] eqn:Hc; try (by intros [= <- <-]).
  assert (rpc_inv got sent n (call_end tx p)) by by apply inv_end.
  destruct rx as [|resp|]; [destruct b| |]; intros [= <- <-]; (split; [done|]); try apply Forall_nil; try done;
    apply Forall_singleton; intros tx' r'; [done| |done].
  intros [= <- <-]. destruct (ri_got _ _ _ _ H tx _ resp Hc eq_refl) as [E ?]. split; [|done]. rewrite E. by eapply (ri_sent _ _ _ _ H).
Qed.

Lemma sent_ours got sent n p tx ok q r : rpc_inv got sent n p → call_sent tx ok p = (q, r) →
  rpc_inv got sent n q ∧ Forall (ours got sent) (returned tx r).
Proof.
  intros H. unfold call_sent. destruct (rp_calls p !! tx) as [[id [] rx]|] eqn:Hc; try (by intros [= <- <-]).
  destruct ok; intros [= <- <-]; [|split; [by apply inv_end|by apply Forall_singleton]]. split; [|done].
  destruct H as [H1 H2 H3 H4 H5 H6].
  assert (∀ tx' c, <[tx := mkCall id PWaiting rx]> (rp_calls p) !! tx' = Some c →
    ∃ c0, rp_calls p !! tx' = Some c0 ∧ ca_id c = ca_id c0 ∧ ca_rx c = ca_rx c0) as Hb.
  { intros tx' c [[<- <-]|[_ ?]]%lookup_insert_Some; eauto. }
  split; cbn [rp_pending rp_calls rp_next_id rp_fresh]; try done.
  - intros id' tx'. rewrite H1. split.
    + intros (c & Hl & ? & ?). destruct (decide (tx = tx')) as [<-|].
      * exists (mkCall id PWaiting rx). rewrite lookup_insert_eq. simplify_eq/=. done.
      * exists c. by rewrite lookup_insert_ne.
    + intros (c & Hl & ? & ?). destruct (Hb tx' c Hl) as (c0 & ? & ? & ?). exists c0. split_and!; congruence.
  - intros tx' c (c0 & ? & -> & _)%Hb. eauto.
  - intros t1 t2 c1 c2 (? & ? & -> & _)%Hb (? & ? & -> & _)%Hb. eauto.
  - intros tx' c (c0 & ? & -> & _)%Hb. eauto.
  - intros tx' c r' (c0 & ? & -> & ->)%Hb. eauto.
Qed.

Lemma inv_envelope got sent n p h q env p' b m : rpc_inv got sent n p → on_envelope h q env p = (p', b, m) →
  rpc_inv (got ++ option_list (carried_response (EvEnvelope h q env))) sent n p'.
Proof.
  intros H. assert (rpc_inv (got ++ option_list (carried_response (EvEnvelope h q env))) sent n p) as Hw by (eapply inv_weaken; [done|set_solver..|lia]).
  revert Hw. unfold on_envelope. cbn [carried_response]. destruct (env_kind env =? kind_u16 KResponse).
  - destruct (response_of _) as [resp|]; intros Hw ?; simplify_eq/=; [|done]. unfold deliver.
    destruct (rp_pending p !! rs_req_id resp) as [tx|] eqn:Hp; [|done]. apply inv_take; [done..|].
    intros r [= <-]. split; [done|]. set_solver.
  - intros Hw. repeat case_match; intros; simplify_eq/=; try done. apply inv_close. by destruct Hw; split.
Qed.

Lemma rpc_step_inv got sent n p ev q o : rpc_inv got sent n p → (is_call ev = true → n < 2 ^ 64 - 2) → rpc_step p ev = (q, o) →
  let got' := got ++ option_list (carried_response ev) in let sent' := sent ++ omap sent_of o in
  rpc_inv got' sent' (n + Z.b2z (is_call ev)) q ∧ Forall (ours got' sent') o.
Proof.
  intros H Hn. cbn zeta. destruct ev as [verb version payload|tx ok|tx b|tx|h qu env|]; cbn [rpc_step is_call carried_response Z.b2z option_list];
    rewrite ?app_nil_r, ?Z.add_0_r.
  - destruct (call_start verb version payload p) as [q' r] eqn:Hs. intros [= <- <-]. apply inv_start with (got := got) (sent := sent) (n := n) in Hs; [|auto..].
    destruct r as [[tx bytes]|]; (split; [done|]); [|done]. by apply Forall_singleton.
  - destruct (call_sent tx ok p) as [q' r] eqn:Hs. intros [= <- <-]. apply (sent_ours got sent n) in Hs as [? ?]; [|done].
    replace (omap sent_of (returned tx r)) with (@nil (nat * Z)) by by destruct r. by rewrite app_nil_r.
  - destruct (call_poll tx b p) as [q' r] eqn:Hs. intros [= <- <-]. apply (poll_ours got sent n) in Hs as [? ?]; [|done].
    replace (omap sent_of (returned tx r)) with (@nil (nat * Z)) by by destruct r. by rewrite app_nil_r.
  - intros [= <- <-]. cbn. rewrite app_nil_r. split; [by apply inv_end|done].
  - destruct (on_envelope h qu env p) as [[q' b] m] eqn:Hs. intros [= <- <-]. apply (inv_envelope got sent n) in Hs; [|done].
    destruct b as [b|]; cbn; rewrite app_nil_r; (split; [done|]); [by apply Forall_singleton|done].
  - intros [= <- <-]. cbn. rewrite app_nil_r. split; [by apply inv_close|done].
Qed.

Lemma ours_weaken got got' sent sent' o : got ⊆ got' → sent ⊆ sent' → ours got sent o → ours got' sent' o.
Proof. intros ? ? H tx r Ho. destruct (H tx r Ho). auto. Qed.

Lemma rpc_run_inv evs got sent n p q o : rpc_inv got sent n p → n + started evs < 2 ^ 64 - 1 → 0 ≤ n → rpc_run p evs = (q, o) →
  let got' := got ++ omap carried_response evs in let sent' := sent ++ omap sent_of o in
  rpc_inv got' sent' (n + started evs) q ∧ Forall (ours got' sent') o.
Proof.
  revert got sent n p o. induction evs as [|ev evs IH]; intros got sent n p o H Hn H0; cbn [rpc_run].
  - intros [= <- <-]. cbn. rewrite !app_nil_r, Z.add_0_r. by split; [|constructor].
  - destruct (rpc_step p ev) as [p1 o1] eqn:Hs. destruct (rpc_run p1 evs) as [p2 o2] eqn:Hr. intros [= <- <-].
    assert (started (ev :: evs) = Z.b2z (is_call ev) + started evs) as Hst
      by (unfold started; cbn [List.filter]; destruct (is_call ev); cbn [length Z.b2z]; lia).
    assert (0 ≤ started evs) by (unfold started; lia).
    apply (rpc_step_inv got sent n) in Hs as [Hi Ho]; [|done|intros E; rewrite E in Hst; cbn [Z.b2z] in Hst; lia].
    apply (IH _ _ _ _ _ Hi) in Hr as [Hi2 Ho2]; [|lia|destruct (is_call ev); cbn; lia].
    cbn zeta in *. rewrite Hst. replace (got ++ omap carried_response (ev :: evs)) with ((got ++ option_list (carried_response ev)) ++ omap carried_response evs)
      by (rewrite <- app_assoc; cbn; by destruct (carried_response ev)).
    rewrite omap_app, app_assoc, Z.add_assoc. split; [done|]. apply Forall_app. split; [|done].
    eapply Forall_impl; [exact Ho|]. intros. eapply ours_weaken; [..|done]; set_solver.
Qed.

Lemma poll_settled p tx c : rp_calls p !! tx = Some c → ca_phase c = PWaiting →
  (call_poll tx true p).2 ≠ None ∧ (ca_rx c ≠ OsOpen → (call_poll tx false p).2 ≠ None).
Proof. destruct c as [id ph rx]. cbn. intros Hc ->. unfold call_poll. rewrite Hc. by destruct rx. Qed.
End machine.

(** C21: Replies reach their own call, and no call waits for ever. Over any
    interleaving of calls, replies, timeouts, cancellations and closes (with fewer
    than 2^64 - 1 calls): a call returns a response only if that response arrived and
    carries the id the call was sent with, which no other call of the session has;
    the map of waiters holds exactly the calls without an outcome yet, so it is
    empty when none is under way; every call waiting for its reply returns when its
    timer fires, and at once after the session closes. *)
Theorem rpc_correlated `{C : RpcCodec} evs p outs
    (Hn : started evs < 2 ^ 64 - 1) (Hr : rpc_run rpc_new evs = (p, outs)) :
  (∀ tx r, OReturned tx (Ok r) ∈ outs → OSent tx (rs_req_id r) ∈ outs ∧ r ∈ omap carried_response evs) ∧
  (∀ id tx, rp_pending p !! id = Some tx ↔ ∃ c, rp_calls p !! tx = Some c ∧ ca_id c = id ∧ ca_rx c = OsOpen) ∧
  (rp_calls p = ∅ → rp_pending p = ∅) ∧
  (∀ tx tx' c c', rp_calls p !! tx = Some c → rp_calls p !! tx' = Some c' → ca_id c = ca_id c' → tx = tx') ∧
  (∀ tx c, rp_calls p !! tx = Some c → ca_phase c = PWaiting → (call_poll tx true p).2 ≠ None) ∧
  (∀ tx c, rp_calls (rpc_close p) !! tx = Some c → ca_phase c = PWaiting → (call_poll tx false (rpc_close p)).2 ≠ None).
Proof.
  apply (rpc_run_inv evs [] [] 0) in Hr as [Hi Ho]; [|apply inv_new|lia|lia]. cbn in Hi, Ho. split_and!.
  - intros tx r Hin. rewrite Forall_forall in Ho. destruct (Ho _ Hin tx r eq_refl) as [Hs ?]. split; [|done].
    apply list_elem_of_omap in Hs as ([tx' id| |] & ? & [= -> ->]). done.
  - apply Hi.
  - intros He. apply map_empty. intros id. apply eq_None_not_Some. intros [tx (c & Hc & _)%(ri_pending _ _ _ _ Hi)]. by rewrite He in Hc.
  - apply Hi.
  - intros tx c Hc Hw. by eapply poll_settled.
  - intros tx c Hc Hw. eapply poll_settled; [done|done|]. eapply inv_close; [exact Hi|done].
Qed.

(** ** A call and its answer *)

Lemma code_parse_as_str c : (∀ s, c ≠ UnknownCode s) → code_parse (code_as_str c) = c.
Proof. intros H. destruct c; try reflexivity. by destruct (H s). Qed.

#[local] Arguments code_parse : simpl never.

(** What calling [R] against a peer with handler [h] comes to. *)
Definition answer `{C : RpcCodec} (R : Rpc) (h : VerbHandler) (version : Z) (payload : list Z) : Result (Resp R) RpcError :=
  let decoded b := match resp_of R b with Some r => Ok r | None => Err Codec end in
  if VERB R =? API_VERSIONS then
    match versions_bytes (sort_by_key vs_verb (supported h ++ [mkVerbSupport API_VERSIONS 1 1])) with
    | Some b => decoded b
    | None => Err (Remote Internal)
    end
  else
  match List.find (λ v, vs_verb v =? VERB R) (supported h) with
  | None => Err (Remote UnsupportedVerb)
  | Some sup =>
      if accepts sup version then
        match handle h (VERB R) version payload with
        | Ok b => decoded b
        | Err code => Err (Remote (code_parse (code_as_str code)))
        end
      else Err (VersionError sup)
  end.

Section answering.
Context `{C : RpcCodec, !RpcCodecLaws C}.

Lemma interpret_fail R req code payload : (code_parse (code_as_str code) = UnsupportedVersion → support_of payload = None) →
  interpret R (fail req code payload) = Err (Remote (code_parse (code_as_str code))).
Proof. intros H. unfold interpret, fail. cbn. destruct (code_parse (code_as_str code)) eqn:E; try done. by rewrite H. Qed.

Lemma interpret_dispatch R h id version payload :
  interpret R (dispatch h (mkRequest id (VERB R) version payload)) = answer R h version payload.
Proof.
  unfold dispatch, answer. cbn. destruct (VERB R =? API_VERSIONS).
  - destruct (versions_bytes _); [done|]. by apply interpret_fail.
  - destruct (List.find _ _) as [sup|]; [|by apply interpret_fail]. destruct (accepts sup version); cbn.
    + destruct (handle h _ _ _); [done|]. apply interpret_fail. intros _. apply support_of_nothing.
    + destruct (support_roundtrip sup) as (b & Hb & Hs). rewrite Hb. unfold interpret, fail. cbn. by rewrite Hs.
Qed.

Lemma dispatch_id h req : rs_req_id (dispatch h req) = rq_req_id req.
Proof. unfold dispatch, fail. by repeat case_match. Qed.

Lemma envelope_wire k b : Z.of_nat (length b) ≤ MAX_PAYLOAD → max_payload_for (kind_u16 k) = MAX_PAYLOAD →
  envelope_decode (envelope_encode (envelope_new k b)) = Ok (envelope_new k b, (HEADER_LEN + length b)%nat).
Proof.
  intros Hb Hk. destruct envelope_codec_exact as [H _]. rewrite <- (app_nil_r (envelope_encode _)). rewrite H; [done|].
  split_and!; cbn; [done|done|by destruct k|]. rewrite Hk. lia.
Qed.

(** A reply for a call just sent, whatever else is under way. *)
Lemma deliver_poll p tx id resp b :
  rp_calls p !! tx = Some (mkCall id PWaiting OsOpen) → rp_pending p !! id = Some tx → rs_req_id resp = id →
  call_poll tx b (deliver resp p) =
    (mkRpcPeer (delete id (rp_pending p)) (delete tx (rp_calls p)) (rp_next_id p) (rp_stopped p) (rp_fresh p), Some (Ok resp)).
Proof.
  intros Hc Hp <-. unfold deliver. rewrite Hp. unfold call_poll, call_end. cbn. rewrite !lookup_set_rx, decide_True, Hc by done. cbn.
  rewrite lookup_delete_eq, delete_id by apply lookup_delete_eq. do 2 f_equal. apply map_eq. intros t.
  destruct (decide (t = tx)) as [->|]; [by rewrite !lookup_delete_eq|]. rewrite !lookup_delete_ne, lookup_set_rx, decide_False by done. done.
Qed.
End answering.

(** Calls are answered. A call made on a live session, whatever other calls are
    under way on it, is decoded on the far side and answered there, and its caller
    gets exactly what the far side's handler says to the request it made: the
    handler's payload, decoded as the response type of that call; the handler's
    error code; [UnsupportedVerb] for a verb the handler does not have; and for a
    version outside the verb's range that range, and any version in it is then
    served. Neither side's session ends over any of these, the far side's state is
    unchanged, and the caller's is what it was before the call. *)
Theorem rpc_answered `{C : RpcCodec, !RpcCodecLaws C} evs pA outs pB h R (q : Req R) version payload bq bs
    (Hr : rpc_run rpc_new evs = (pA, outs)) (Hn : started evs < 2 ^ 64 - 2)
    (HA : rp_stopped pA = false) (HB : rp_stopped pB = false) (Hp : req_bytes R q = Some payload)
    (Hq : request_bytes (mkRequest (rp_next_id pA) (VERB R) version payload) = Some bq) (Hql : Z.of_nat (length bq) ≤ MAX_PAYLOAD)
    (Hs : response_bytes (dispatch h (mkRequest (rp_next_id pA) (VERB R) version payload)) = Some bs)
    (Hsl : Z.of_nat (length bs) ≤ MAX_PAYLOAD) :
  ∃ pA1 tx bytes envq nq reply envr nr pA2 resp,
    call_start (VERB R) version (req_bytes R q) pA = (pA1, Ok (tx, bytes)) ∧ envelope_decode bytes = Ok (envq, nq) ∧
    on_envelope h QRoom envq pB = (pB, Some reply, true) ∧ envelope_decode reply = Ok (envr, nr) ∧
    (∀ hA qA, on_envelope hA qA envr (call_sent tx true pA1).1 = (pA2, None, true)) ∧
    (∀ b, (call_poll tx b pA2).2 = Some (Ok resp) ∧ rp_pending (call_poll tx b pA2).1 = rp_pending pA ∧
          rp_calls (call_poll tx b pA2).1 = rp_calls pA ∧ rp_stopped (call_poll tx b pA2).1 = false) ∧
    interpret R resp = answer R h version payload ∧
    (∀ sup, answer R h version payload = Err (VersionError sup) → List.find (λ v, vs_verb v =? VERB R) (supported h) = Some sup ∧
       ∀ v b, accepts sup v = true → handle h (VERB R) v payload = Ok b →
         answer R h v payload = match resp_of R b with Some r => Ok r | None => Err Codec end).
Proof.
  apply (rpc_run_inv evs [] [] 0) in Hr as [Hi _]; [|apply inv_new|lia|lia]. rewrite Hp.
  assert (rp_pending pA !! rp_next_id pA = None) as Hno.
  { apply eq_None_not_Some. intros [tx (c & Hc & Hid & _)%(ri_pending _ _ _ _ Hi)]. destruct (ri_ids _ _ _ _ Hi tx c Hc). lia. }
  assert (rp_calls pA !! rp_fresh pA = None) as Hnf.
  { apply eq_None_not_Some. intros [c Hc]. destruct (ri_ids _ _ _ _ Hi _ c Hc). lia. }
  unfold call_start. rewrite HA. unfold request_msg. rewrite Hq. cbn [fmap option_fmap option_map].
  eexists _, _, _, _, _, _, _, _, _, (dispatch h (mkRequest (rp_next_id pA) (VERB R) version payload)).
  split; [reflexivity|]. split; [by apply envelope_wire|]. split.
  { unfold on_envelope. cbn. rewrite HB, (request_roundtrip _ _ Hq). unfold response_msg. rewrite Hs. reflexivity. }
  split; [by apply envelope_wire|]. split.
  { intros hA qA. unfold on_envelope. cbn [env_kind envelope_new env_payload]. rewrite Z.eqb_refl, (response_roundtrip _ _ Hs). reflexivity. }
  split; [|split; [apply interpret_dispatch|]].
  - intros b. unfold call_sent, drop_sender. cbn [rp_calls rp_pending rp_next_id rp_stopped rp_fresh fst]. rewrite Hno, lookup_insert_eq, delete_id by done.
    erewrite deliver_poll; [|by cbn; rewrite lookup_insert_eq|by cbn; rewrite lookup_insert_eq|by rewrite dispatch_id].
    cbn. rewrite delete_insert_id, insert_insert_eq, delete_insert_id by done. done.
  - unfold answer. intros sup. destruct (VERB R =? API_VERSIONS); [by repeat case_match|].
    destruct (List.find _ _) as [sup'|] eqn:Hf; [|done]. destruct (accepts sup' version); [by repeat case_match|]. intros [= ->].
    split; [done|]. intros v b Hv Hh. by rewrite Hv, Hh.
Qed.

(** ** Concrete runs *)

Module RpcExample.
Definition pack {A} `{Countable A} (x : A) : option (list Z) := Some [Zpos (encode x)].
Definition unpack {A} `{Countable A} (l : list Z) : option A := match l with [Zpos p] => decode p | _ => None end.

Definition req_tuple (r : Request) := (rq_req_id r, rq_verb r, rq_version r, rq_payload r).
Definition tuple_req (t : Z * Z * Z * list Z) : Request := let '(a, b, c, d) := t in mkRequest a b c d.
Definition resp_tuple (r : Response) := (rs_req_id r, rs_code r, rs_payload r).
Definition tuple_resp (t : Z * option string * list Z) : Response := let '(a, b, c) := t in mkResponse a b c.
Definition sup_tuple (s : VerbSupport) := (vs_verb s, vs_min s, vs_max s).
Definition tuple_sup (t : Z * Z * Z) : VerbSupport := let '(a, b, c) := t in mkVerbSupport a b c.

#[export] Instance codec : RpcCodec := {|
  request_bytes := λ r, pack (req_tuple r); request_of := λ l, option_map tuple_req (unpack l);
  response_bytes := λ r, pack (resp_tuple r); response_of := λ l, option_map tuple_resp (unpack l);
  support_bytes := λ s, pack (sup_tuple s); support_of := λ l, option_map tuple_sup (unpack l);
  versions_bytes := λ v, pack (List.map sup_tuple v); versions_of := λ l, option_map (List.map tuple_sup) (unpack l);
|}.
#[export] Instance codec_laws : RpcCodecLaws codec.
Proof.
  split; cbn; [intros [] b [= <-]|intros [] b [= <-]|intros []; eexists; split; [done|]|done]; unfold unpack; by rewrite decode_encode.
Qed.

(** A verb at versions 1 and 2, and a call of it. *)
Definition echo : Rpc := mkRpc (list Z) (list Z) 100 1 2 Some Some.
Definition handler : VerbHandler := mkVerbHandler [mkVerbSupport 100 1 2] (λ _ version payload, Ok (version :: payload)).

(** The reply to the first of two calls arrives; the second times out. *)
Definition reply : Envelope := envelope_new KResponse (default [] (pack (resp_tuple (mkResponse 1 None [7])))).
Definition events : list RpcEvent :=
  [EvCall 100 2 (Some [1]); EvCall 100 2 (Some [2]); EvSent 1 true; EvEnvelope NoVerbs QRoom reply;
   EvSent 0 true; EvPoll 0 false; EvPoll 1 true].

Lemma rpc_events_run : (rpc_run rpc_new events).2 =
  [OSent 0 1; OSent 1 2; OReturned 0 (Ok (mkResponse 1 None [7])); OReturned 1 (Err TimedOut)].
Proof. vm_compute. reflexivity. Qed.

(** A call still waiting for room in the outgoing queue is outside the timer and
    is not woken by a close. *)
Lemma queueing_call_waits :
  (rpc_run rpc_new [EvCall 100 2 (Some [1]); EvPoll 0 true; EvClose; EvPoll 0 true]).2 = [OSent 0 1].
Proof. vm_compute. reflexivity. Qed.
End RpcExample.

#[local] Existing Instance RpcExample.codec.
#[local] Existing Instance RpcExample.codec_laws.

Lemma rpc_correlated_witness : OSent 0 1 ∈ (rpc_run rpc_new RpcExample.events).2.
Proof.
  destruct (rpc_run rpc_new RpcExample.events) as [p outs] eqn:Hr.
  destruct (rpc_correlated RpcExample.events p outs ltac:(vm_compute; reflexivity) Hr) as [H _].
  apply (H 0%nat (mkResponse 1 None [7])). pose proof RpcExample.rpc_events_run as E. rewrite Hr in E. cbn in E. rewrite E. set_solver.
Defined.

(** Version 3 is refused with the range; version 2 is served. *)
Lemma rpc_answered_witness :
  answer RpcExample.echo RpcExample.handler 3 [5] = Err (VersionError (mkVerbSupport 100 1 2)) ∧
  answer RpcExample.echo RpcExample.handler 2 [5] = Ok [2; 5].
Proof.
  split; [reflexivity|].
  destruct (rpc_answered [] rpc_new [] rpc_new RpcExample.handler RpcExample.echo [5] 3 [5]
    (default [] (request_bytes (mkRequest 1 100 3 [5])))
    (default [] (response_bytes (dispatch RpcExample.handler (mkRequest 1 100 3 [5]))))
    eq_refl ltac:(vm_compute; reflexivity) eq_refl eq_refl eq_refl eq_refl ltac:(vm_compute; done) eq_refl ltac:(vm_compute; done))
    as (pA1 & tx & bytes & envq & nq & reply & envr & nr & pA2 & resp & _ & _ & _ & _ & _ & _ & _ & H).
  destruct (H (mkVerbSupport 100 1 2) eq_refl) as [_ Hv]. exact (Hv 2 [2; 5] eq_refl eq_refl).
Defined.
