(* ===== verification/Token.v ===== *)
(** * Member tokens (crates/nqvpn-proto/src/token.rs)

    The string an operator copies from the coordinator to a machine: how the
    coordinator makes it ([member_token] of crates/nqvpn-coord/src/admin.rs), its
    text, and how the machine reads it back. Base64 is [CredLib]'s. *)

From Stdlib Require Import Ascii.
From S2P Require Import Prelude Ordered Ipnet Text Control Replay Seal Credential Config Registry Leases Directory Ipam NetState RateLimit Join Validate.
From S2P Require Import Frame Tables RelayNet Admin.

Definition PREFIX : string := "nqv1.".

Record Token := mkToken { tk_coordinator : string; tk_secret : string; tk_fp : option string }.
Inductive TokenError : Set := TPrefix | TMalformed | TNoEndpoint | TNoSecret.

(** ** [String::from_utf8] *)

Definition utf8_cont (b : Z) : bool := (128 <=? b) && (b <=? 191).
Definition utf8_second3 (b b2 : Z) : bool :=
  ((if b =? 224 then 160 else 128) <=? b2) && (b2 <=? (if b =? 237 then 159 else 191)).
Definition utf8_second4 (b b2 : Z) : bool :=
  ((if b =? 240 then 144 else 128) <=? b2) && (b2 <=? (if b =? 244 then 143 else 191)).

(** What follows the first character; [None]: there is none, or it is not well formed. *)
Definition utf8_char (l : list Z) : option (list Z) :=
  match l with
  | [] => None
  | b :: r =>
      if b <? 128 then Some r else
      match r with
      | [] => None
      | b2 :: r2 =>
          if (194 <=? b) && (b <=? 223) then (if utf8_cont b2 then Some r2 else None) else
          match r2 with
          | [] => None
          | b3 :: r3 =>
              if (224 <=? b) && (b <=? 239) then (if utf8_second3 b b2 && utf8_cont b3 then Some r3 else None) else
              match r3 with
              | [] => None
              | b4 :: r4 =>
                  if (240 <=? b) && (b <=? 244) then (if utf8_second4 b b2 && utf8_cont b3 && utf8_cont b4 then Some r4 else None)
                  else None
              end
          end
      end
  end.

(** Every character takes a byte or more, so the length is enough fuel. *)
Fixpoint utf8_run (fuel : nat) (l : list Z) : bool :=
  match l, fuel with
  | [], _ => true
  | _, O => false
  | _, S n => match utf8_char l with Some r => utf8_run n r | None => false end
  end.
Definition utf8_valid (l : list Z) : bool := utf8_run (length l) l.

Section token.
Context `{L : CredLib}.

Definition token_encode (t : Token) : string :=
  let body := ("endpoint=" +:+ tk_coordinator t +:+ ";secret=" +:+ tk_secret t)%string in
  let body := match tk_fp t with Some fp => (body +:+ ";fp=" +:+ fp)%string | None => body end in
  (PREFIX +:+ b64url_encode (str_bytes body))%string.

Definition non_empty (o : option string) : option string := s ← o; if String.eqb s "" then None else Some s.

Definition token_part (st : option string * option string * option string) (part : string) :=
  let '(coordinator, secret, fp) := st in
  match split_once 61 part with
  | Some (k, v) =>
      if String.eqb k "endpoint" then (Some (trim v), secret, fp) else
      if String.eqb k "secret" then (coordinator, Some (trim v), fp) else
      if String.eqb k "fp" then (coordinator, secret, non_empty (Some (trim v)))
      else st
  | None => st
  end.

Definition token_parse (s : string) : Result Token TokenError :=
  match strip_prefix PREFIX (trim s) with
  | None => Err TPrefix
  | Some body =>
      match b64url_decode body with
      | None => Err TMalformed
      | Some raw =>
          if negb (utf8_valid raw) then Err TMalformed else
          let '(coordinator, secret, fp) := foldl token_part (None, None, None) (split_on ";" (bytes_str raw)) in
          match non_empty coordinator with
          | None => Err TNoEndpoint
          | Some coordinator =>
              match non_empty secret with
              | None => Err TNoSecret
              | Some secret => Ok (mkToken coordinator secret fp)
              end
          end
      end
  end.

(** [member_token]; [cert_fp] is the fingerprint of a self-signed certificate. *)
Definition member_token (a : AppState) (id name endpoint : string) (cert_fp : option string) : Result (Token * Role) ApiError :=
  match as_networks a !! id with
  | None => Err NotFound
  | Some n =>
      match member_by_name (ns_cfg n) name with
      | None => Err NotFound
      | Some (m, role) =>
          match mc_secret m with
          | None => Err NotFound
          | Some secret => Ok (mkToken endpoint secret cert_fp, role)
          end
      end
  end.
End token.

(** The alphabet of unpadded URL-safe base64. *)
Class B64Alphabet (L : CredLib) : Prop :=
  b64_graphic bs : Forall (λ b, 33 ≤ b ≤ 126) (str_bytes (b64url_encode bs)).

(** ** Lemmas *)

Lemma utf8_char_app a b r : utf8_char a = Some r → utf8_char (a ++ b) = Some (r ++ b).
Proof.
  unfold utf8_char. destruct a as [|x a]; [done|]. cbn. destruct (x <? 128); [by intros [= <-]|].
  destruct a as [|x2 a]; [done|]. cbn. destruct (_ && _); [destruct (utf8_cont x2); [by intros [= <-]|done]|].
  destruct a as [|x3 a]; [done|]. cbn. destruct (_ && _); [destruct (_ && _); [by intros [= <-]|done]|].
  destruct a as [|x4 a]; [done|]. cbn. destruct (_ && _); [destruct (_ && _); [by intros [= <-]|done]|done].
Qed.

Lemma utf8_char_shorter a r : utf8_char a = Some r → (length r < length a)%nat.
Proof. unfold utf8_char. intros H. repeat case_match; simplify_eq; cbn; lia. Qed.

Lemma utf8_run_more m n l : (length l ≤ m)%nat → (length l ≤ n)%nat → utf8_run m l = utf8_run n l.
Proof.
  revert n l. induction m as [|m IH]; intros n l Hm Hn; [by destruct l; [destruct n|cbn in Hm; lia]|].
  destruct l as [|x l]; [by destruct n|]. destruct n as [|n]; [cbn in Hn; lia|]. cbn [utf8_run].
  destruct (utf8_char (x :: l)) as [r|] eqn:E; [|done]. apply utf8_char_shorter in E. apply IH; lia.
Qed.

Lemma utf8_app a b : utf8_valid a = true → utf8_valid b = true → utf8_valid (a ++ b) = true.
Proof.
  intros Ha Hb. unfold utf8_valid in Ha. assert (length a ≤ length a)%nat as Hl by done. revert Ha Hl.
  generalize (length a) at 1 3 as m. intros m. revert a. induction m as [|m IH]; intros a; [by destruct a|].
  destruct a as [|x a]; [done|]. cbn [utf8_run]. destruct (utf8_char (x :: a)) as [r|] eqn:E; [|done]. intros Hr Hl.
  pose proof (utf8_char_shorter _ _ E). apply (utf8_char_app _ b) in E. unfold utf8_valid. change ((x :: a) ++ b) with (x :: (a ++ b)) in *.
  cbn [length utf8_run]. rewrite E. rewrite <- (IH r Hr) by lia. apply utf8_run_more; [|done]. rewrite !length_app. cbn in *. lia.
Qed.

Lemma str_bytes_app a b : str_bytes (a +:+ b)%string = str_bytes a ++ str_bytes b.
Proof. induction a as [|x a IH]; [done|]. rewrite string_app_cons. unfold str_bytes in *. cbn. by rewrite IH. Qed.

Lemma bytes_str_bytes s : bytes_str (str_bytes s) = s.
Proof. apply str_bytes_inj, str_bytes_bytes_str, bytes_of_str. Qed.

(** Printable ASCII has nothing to trim. *)
Lemma graphic_no_space l : Forall (λ b, 33 ≤ b ≤ 126) l → strip_any white_space l = None ∧ strip_any ((@rev Z) <$> white_space) l = None.
Proof.
  intros Hl.
  assert (∀ ws, Forall (λ w, match w with b :: _ => (b <? 33) || (126 <? b) | [] => false end = true) ws → strip_any ws l = None) as H.
  { intros ws Hw. apply strip_any_none. intros w s' Hin ->. rewrite Forall_forall in Hw. specialize (Hw w Hin).
    destruct w as [|b w]; [done|]. apply Forall_app, proj1, Forall_cons, proj1 in Hl. apply orb_true_iff in Hw as [?%Z.ltb_lt|?%Z.ltb_lt]; lia. }
  split; apply H; by_decide.
Qed.

Lemma trim_graphic s : Forall (λ b, 33 ≤ b ≤ 126) (str_bytes s) → trim s = s.
Proof.
  intros H. unfold trim. rewrite (trim_bytes_stop _ white_space (str_bytes s) (proj1 (graphic_no_space _ H))).
  rewrite (trim_bytes_stop _ _ (rev (str_bytes s)) (proj2 (graphic_no_space _ (List.Forall_rev H)))). rewrite rev_involutive. apply bytes_str_bytes.
Qed.

Lemma split_once_key k v : Forall (λ b, b ≠ 61) (str_bytes k) → split_once 61 (k +:+ "=" +:+ v)%string = Some (k, v).
Proof.
  intros H. unfold split_once. rewrite !str_bytes_app.
  assert (∀ l r, Forall (λ b, b ≠ 61) l → split_bytes 61 (l ++ 61 :: r) = Some (l, r)) as Hs.
  { induction l as [|x l IH]; intros r Hl; cbn; [done|]. apply Forall_cons in Hl as [Hx Hl].
    destruct (Z.eqb_spec x 61); [done|]. by rewrite IH. }
  change (str_bytes "=" ++ str_bytes v) with (61 :: str_bytes v). rewrite Hs by done. cbn [fmap option_fmap option_map]. unfold both_str. cbn [fst snd]. by rewrite !bytes_str_bytes.
Qed.

(** A field an operator's endpoint, a secret or a fingerprint may be. *)
Definition field_ok (s : string) : bool := no_char ";" s && utf8_valid (str_bytes s).

Lemma utf8_ascii l : Forall (λ b, b < 128) l → utf8_valid l = true.
Proof.
  unfold utf8_valid. induction 1 as [|x l Hx Hl IH]; [done|]. cbn [length utf8_run utf8_char]. by rewrite (proj2 (Z.ltb_lt _ _) Hx).
Qed.

Lemma no_char_bytes c s : Forall (λ b, b ≠ Z.of_nat (nat_of_ascii c)) (str_bytes s) → no_char c s = true.
Proof.
  induction s as [|x s IH]; [done|]. unfold str_bytes. cbn. intros [Hx Hs]%Forall_cons. rewrite IH by done.
  destruct (Ascii.eqb_spec x c) as [->|]; [done|]. done.
Qed.

Lemma plausible_graphic s : plausible_secret s = true → s ≠ ""%string ∧ Forall (λ b, 33 ≤ b ≤ 126 ∧ b ≠ 59) (str_bytes s).
Proof.
  unfold plausible_secret. intros [[He _]%andb_true_iff Hf]%andb_true_iff. split; [by intros ->|].
  apply Forall_forall. intros b Hb. apply list_elem_of_In in Hb. rewrite List.forallb_forall in Hf. specialize (Hf b Hb).
  unfold is_ascii_alpha, is_ascii_digit in Hf. lia.
Qed.

Lemma plausible_field s : plausible_secret s = true → field_ok s = true ∧ trim s = s ∧ s ≠ ""%string.
Proof.
  intros [Hne Hg]%plausible_graphic. split_and!; [|apply trim_graphic; eapply Forall_impl; [exact Hg|naive_solver]|done].
  unfold field_ok. rewrite no_char_bytes, utf8_ascii; [done|..]; (eapply Forall_impl; [exact Hg|]); cbn; [intros; lia|naive_solver].
Qed.

Lemma no_char_app c a b : no_char c (a +:+ b)%string = no_char c a && no_char c b.
Proof. induction a as [|x a IH]; [done|]. rewrite string_app_cons. cbn. by rewrite IH, andb_assoc. Qed.

Lemma part_endpoint st v : token_part st ("endpoint=" +:+ v) = (Some (trim v), st.1.2, st.2).
Proof. destruct st as [[c s] f]. unfold token_part. change ("endpoint=" +:+ v)%string with ("endpoint" +:+ "=" +:+ v)%string. by rewrite split_once_key by by_decide. Qed.
Lemma part_secret st v : token_part st ("secret=" +:+ v) = (st.1.1, Some (trim v), st.2).
Proof. destruct st as [[c s] f]. unfold token_part. change ("secret=" +:+ v)%string with ("secret" +:+ "=" +:+ v)%string. by rewrite split_once_key by by_decide. Qed.
Lemma part_fp st v : token_part st ("fp=" +:+ v) = (st.1.1, st.1.2, non_empty (Some (trim v))).
Proof. destruct st as [[c s] f]. unfold token_part. change ("fp=" +:+ v)%string with ("fp" +:+ "=" +:+ v)%string. by rewrite split_once_key by by_decide. Qed.

Section laws.
Context `{L : CredLib, !CredLaws L, !B64Alphabet L}.

Lemma token_encode_graphic t : Forall (λ b, 33 ≤ b ≤ 126) (str_bytes (token_encode t)).
Proof. unfold token_encode. rewrite str_bytes_app. apply Forall_app. split; [by_decide|apply b64_graphic]. Qed.

(** Reading back what was written: the fields come back trimmed. *)
Lemma token_parse_encode t s : trim s = token_encode t →
  field_ok (tk_coordinator t) = true → field_ok (tk_secret t) = true → (∀ f, tk_fp t = Some f → field_ok f = true) →
  trim (tk_coordinator t) ≠ ""%string → trim (tk_secret t) ≠ ""%string →
  token_parse s = Ok (mkToken (trim (tk_coordinator t)) (trim (tk_secret t)) (f ← tk_fp t; non_empty (Some (trim f)))).
Proof.
  intros Hs [Hc1 Hc2]%andb_true_iff [Hs1 Hs2]%andb_true_iff Hf Hc Hsec. unfold token_parse. rewrite Hs. unfold token_encode.
  set (body := match tk_fp t with Some _ => _ | None => _ end).
  assert (utf8_valid (str_bytes body) = true ∧
    split_on ";" body = ["endpoint=" +:+ tk_coordinator t; "secret=" +:+ tk_secret t]%string ++ option_list ((λ f, "fp=" +:+ f)%string <$> tk_fp t)) as [Hu Hsp].
  { assert (utf8_valid (str_bytes ("endpoint=" +:+ tk_coordinator t +:+ ";secret=" +:+ tk_secret t)) = true) as Hu0
      by (rewrite !str_bytes_app; repeat apply utf8_app; done).
    assert (no_char ";" ("endpoint=" +:+ tk_coordinator t) = true) as N1 by (rewrite no_char_app; by rewrite Hc1).
    assert (no_char ";" ("secret=" +:+ tk_secret t) = true) as N2 by (rewrite no_char_app; by rewrite Hs1).
    unfold body. destruct (tk_fp t) as [f|]; cbn [fmap option_fmap option_map option_list].
    - specialize (Hf f eq_refl). apply andb_true_iff in Hf as [Hf1 Hf2]. split; [rewrite str_bytes_app, str_bytes_app; repeat apply utf8_app; done|].
      assert (no_char ";" ("fp=" +:+ f) = true) as N3 by (rewrite no_char_app; by rewrite Hf1).
      replace (("endpoint=" +:+ tk_coordinator t +:+ ";secret=" +:+ tk_secret t) +:+ ";fp=" +:+ f)%string
        with (("endpoint=" +:+ tk_coordinator t) +:+ String ";" (("secret=" +:+ tk_secret t) +:+ String ";" ("fp=" +:+ f)))%string
        by (by rewrite !string_app_assoc).
      rewrite !split_on_app by done. by rewrite split_on_no_char.
    - split; [done|].
      replace ("endpoint=" +:+ tk_coordinator t +:+ ";secret=" +:+ tk_secret t)%string
        with (("endpoint=" +:+ tk_coordinator t) +:+ String ";" ("secret=" +:+ tk_secret t))%string by (by rewrite !string_app_assoc).
      rewrite split_on_app by done. by rewrite split_on_no_char. }
  unfold strip_prefix. rewrite str_bytes_app. rewrite (proj2 (strip_bytes_some _ _ _) eq_refl). cbn [fmap option_fmap option_map].
  rewrite bytes_str_bytes, b64_roundtrip, Hu. cbn [negb]. rewrite bytes_str_bytes, Hsp.
  assert (∀ x, x ≠ ""%string → non_empty (Some x) = Some x) as Hne by (intros x Hx; unfold non_empty; cbn; by destruct (String.eqb_spec x "")).
  destruct (tk_fp t) as [f|]; cbn [fmap option_fmap option_map app]; unfold option_list; cbn [option_rect foldl]; rewrite part_endpoint, part_secret, ?part_fp; cbn [fst snd]; cbv beta iota;
    by rewrite (Hne _ Hc), (Hne _ Hsec).
Qed.
End laws.

(** A token admits its member and no other: the token the coordinator shows for a
    member, copied with or without white space around it, is read back as the
    coordinator's endpoint, the fingerprint to pin when there is one, and a secret
    that the coordinator resolves to that member of that network, as long as the
    endpoint has no semicolon. *)
Lemma token_admits `{L : CredLib, !CredLaws L, !B64Alphabet L} a id name endpoint cert_fp t role s
    (Hu : unique_secrets (as_networks a)) (Ht : member_token a id name endpoint cert_fp = Ok (t, role))
    (Hs : trim s = token_encode t ∨ s = token_encode t)
    (Hp : plausible_secret (tk_secret t) = true) (He : field_ok endpoint = true) (Hn : trim endpoint ≠ ""%string)
    (Hf : ∀ f, cert_fp = Some f → field_ok f = true ∧ trim f = f ∧ f ≠ ""%string) :
  ∃ t', token_parse s = Ok t' ∧ tk_coordinator t' = trim endpoint ∧ tk_fp t' = cert_fp ∧
    resolve_secret a (tk_secret t') = Some (id, name) ∧
    ∃ n m, as_networks a !! id = Some n ∧ member_by_name (ns_cfg n) name = Some (m, role).
Proof.
  assert (trim s = token_encode t) as Hts by (destruct Hs as [ | -> ]; [done|]; apply trim_graphic, token_encode_graphic).
  unfold member_token in Ht. destruct (as_networks a !! id) as [n|] eqn:En; [|done].
  destruct (member_by_name (ns_cfg n) name) as [[m r]|] eqn:Em; [|done]. destruct (mc_secret m) as [sec|] eqn:Es; [|done].
  injection Ht as <- <-. cbn [tk_secret] in *. destruct (plausible_field sec Hp) as (Hfs & Htr & Hne).
  eexists. split; [apply (token_parse_encode (mkToken endpoint sec cert_fp)); cbn [tk_coordinator tk_secret tk_fp]; [exact Hts|done|done|naive_solver|done|by rewrite Htr]|].
  cbn [tk_secret tk_coordinator tk_fp]. rewrite Htr. split_and!; [done| | |eauto].
  - destruct cert_fp as [f|]; [|done]. destruct (Hf f eq_refl) as (_ & Hx1 & Hx). cbn [mbind option_bind]. rewrite Hx1. unfold non_empty. cbn. by destruct (String.eqb_spec f "").
  - pose proof (resolve_secret_spec a sec) as Hr. rewrite Htr in Hr. apply member_by_name_elem in Em.
    assert (holds_secret (ns_cfg n) name sec) as Hh by (exists m, r, sec; done).
    destruct (resolve_secret a sec) as [[id' name']|]; [|by destruct (Hr Hp id n name)].
    destruct Hr as (_ & n' & Hn' & m' & r' & s' & Hm' & Hs' & Ht'). destruct (Hu _ _ _ _ _ _ _ _ _ _ _ _ En Hn' Em Hm' Es Hs') as (-> & -> & _); congruence.
Qed.

Module TokenExample.
#[export] Instance alphabet : B64Alphabet CredExample.lib.
Proof. intros bs. cbn. generalize (encode bs) as p. induction p; cbn; [..|done]; by constructor. Qed.

(** The operator's semicolon: the endpoint comes back cut short. *)
Lemma semicolon_cuts :
  token_parse (L := CredExample.lib) (token_encode (L := CredExample.lib) (mkToken "https://c;d" "s" None)) = Ok (mkToken "https://c" "s" None).
Proof. vm_compute. reflexivity. Qed.
End TokenExample.
