(* ===== verification/Lanes.v ===== *)
(** * The packet channel of a connection (crates/nqvpn-proto/src/transport.rs)

    Datagrams, or framed packets on parallel one-way streams, the lanes. A lane is
    its writer task's queue, what that task has put on the stream so far, and
    whether it still runs; the far end's reader is a function of the bytes that
    have arrived, which are a prefix of those. *)

From S2P Require Import Prelude Frame Validate Engine.

Inductive Mode : Set := Datagram | Stream.
Definition mode_parse (s : string) : Mode := if String.eqb s "stream" then Stream else Datagram.
Definition mode_as_str (m : Mode) : string := match m with Datagram => "datagram" | Stream => "stream" end.

Definition SEND_QUEUE : Z := 1024.
Definition LEN_PREFIX : nat := 2.
Definition MAX_TUNNEL_MTU : Z := 9000.
Definition FRAME_OVERHEAD : Z := 39.
Definition MAX_LANE_FRAME : Z := MAX_TUNNEL_MTU + FRAME_OVERHEAD + 256.

Abbreviation Packet := (list Z).
Definition plen (p : Packet) : Z := Z.of_nat (length p).

(** [tokio::sync::mpsc] towards a writer: [Sender::try_send] on a channel of this
    capacity, whose receiver may be gone, holding these packets. *)
Class LaneQueue := { lane_try_send : Z → bool → list Packet → Packet → option (list Packet) }.
Class LaneQueueLaws (Q : LaneQueue) : Prop := {
  lane_send_room cap q p : Z.of_nat (length q) < cap → lane_try_send cap true q p = Some (q ++ [p]);
  lane_send_some cap open q p q' : lane_try_send cap open q p = Some q' → q' = q ++ [p] ∧ open = true ∧ Z.of_nat (length q) < cap;
}.

Record Lane := mkLane {
  ln_cap : Z; ln_queue : list Packet;
  ln_named : bool;
  ln_wire : list Z; ln_open : bool;
}.

Record PacketChannel := mkPacketChannel {
  pc_mode : Mode; pc_lanes : list Lane; pc_dropped : Z; pc_too_large : Z;
}.

Definition oversized (c : PacketChannel) : PacketChannel :=
  mkPacketChannel (pc_mode c) (pc_lanes c) (pc_dropped c ⊕ 1) (pc_too_large c ⊕ 1).
Definition dropped_one (c : PacketChannel) : PacketChannel :=
  mkPacketChannel (pc_mode c) (pc_lanes c) (pc_dropped c ⊕ 1) (pc_too_large c).
Definition pc_set_lane (i : nat) (l : Lane) (c : PacketChannel) : PacketChannel :=
  mkPacketChannel (pc_mode c) (<[i := l]> (pc_lanes c)) (pc_dropped c) (pc_too_large c).

Definition lane_number (lanes : Z) : Z := Z.min (Z.max lanes 1) MAX_LANES.
Definition per_lane (n : Z) : Z := Z.max (SEND_QUEUE / n) 64.

Definition start_lanes (mode : Mode) (lanes : Z) : PacketChannel :=
  mkPacketChannel mode
    match mode with
    | Datagram => []
    | Stream => let n := lane_number lanes in replicate (Z.to_nat n) (mkLane (per_lane n) [] false [] true)
    end 0 0.
Definition channel_start (mode : Mode) : PacketChannel := start_lanes mode 1.

(** ** Sending *)

Section channel.
Context `{Q : LaneQueue}.

(** [max_datagram] and [datagram_ok]: what quinn says of a datagram now. *)
Definition send_on (max_datagram : option Z) (datagram_ok : bool) (packet : Packet) (lane : Z) (c : PacketChannel) : PacketChannel * bool :=
  let too_large := match pc_mode c with
    | Datagram => match max_datagram with Some max => max <? plen packet | None => false end
    | Stream => MAX_LANE_FRAME <? plen packet
    end in
  if too_large then (oversized c, false) else
  match pc_lanes c with
  | [] => match pc_mode c with Datagram => if datagram_ok then (c, true) else (dropped_one c, false) | Stream => (dropped_one c, false) end
  | lanes =>
      let i := Z.to_nat (lane mod Z.of_nat (length lanes)) in
      match lanes !! i with
      | Some l =>
          match lane_try_send (ln_cap l) (ln_open l) (ln_queue l) packet with
          | Some q => (pc_set_lane i (mkLane (ln_cap l) q (ln_named l) (ln_wire l) (ln_open l)) c, true)
          | None => (dropped_one c, false)
          end
      | None => (dropped_one c, false)
      end
  end.

Definition pc_send (max_datagram : option Z) (datagram_ok : bool) (packet : Packet) (c : PacketChannel) : PacketChannel * bool :=
  send_on max_datagram datagram_ok packet LANE_DEFAULT c.
End channel.

(** ** The writer task of a lane *)

Definition lane_frame (p : Packet) : list Z := to_be LEN_PREFIX (plen p) ++ p.

(** The stream opened and the lane named itself, or not. *)
Definition lane_name (i : nat) (ok : bool) (l : Lane) : Lane :=
  if negb (ln_open l) || ln_named l then l else
  if ok then mkLane (ln_cap l) (ln_queue l) true (ln_wire l ++ [Z.of_nat i]) true
  else mkLane (ln_cap l) (ln_queue l) false (ln_wire l) false.

(** The next packet; [cut] is how many bytes went out when the stream failed. *)
Definition lane_write (i : nat) (cut : option nat) (c : PacketChannel) : PacketChannel :=
  match pc_lanes c !! i with
  | Some (mkLane cap (p :: q) true wire true) =>
      if 65535 <? plen p then oversized (pc_set_lane i (mkLane cap q true wire true) c) else
      match cut with
      | None => pc_set_lane i (mkLane cap q true (wire ++ lane_frame p) true) c
      | Some k => pc_set_lane i (mkLane cap q true (wire ++ take (Nat.min k (pred (length (lane_frame p)))) (lane_frame p)) false) c
      end
  | _ => c
  end.

(** ** The reader of a lane *)

(** The packets handed to the inbox and the oversized ones counted. Every frame
    takes two bytes or more, so the length is enough fuel. *)
Fixpoint read_frames (fuel : nat) (bs : list Z) : list Packet * Z :=
  match fuel with
  | O => ([], 0)
  | S fuel =>
      if (length bs <? LEN_PREFIX)%nat then ([], 0) else
      let len := Z.to_nat (from_be (take LEN_PREFIX bs)) in
      let rest := drop LEN_PREFIX bs in
      if MAX_LANE_FRAME <? Z.of_nat len then
        if (length rest <? len)%nat then ([], 1)
        else let '(ps, n) := read_frames fuel (drop len rest) in (ps, n + 1)
      else
        if (length rest <? len)%nat then ([], 0)
        else let '(ps, n) := read_frames fuel (drop len rest) in (take len rest :: ps, n)
  end.

(** The lane's name and what came on it. *)
Definition lane_read (bs : list Z) : option Z * list Packet * Z :=
  match bs with
  | [] => (None, [], 0)
  | lane :: rest => let '(ps, n) := read_frames (length rest) rest in (Some lane, ps, n)
  end.

(** ** Frames on a stream *)

Definition frames (ps : list Packet) : list Z := mjoin (lane_frame <$> ps).
Definition carriable (p : Packet) : bool := plen p <=? MAX_LANE_FRAME.

Lemma frames_cons p ps : frames (p :: ps) = lane_frame p ++ frames ps.
Proof. reflexivity. Qed.
Lemma frames_snoc ps p : frames (ps ++ [p]) = frames ps ++ lane_frame p.
Proof. unfold frames. rewrite fmap_app, join_app. cbn. by rewrite app_nil_r. Qed.

Lemma length_lane_frame p : length (lane_frame p) = (2 + length p)%nat.
Proof. unfold lane_frame. by rewrite length_app, to_be_length. Qed.

Lemma read_frames_S fuel bs : read_frames (S fuel) bs =
  if (length bs <? 2)%nat then ([], 0) else
  let len := Z.to_nat (from_be (take 2 bs)) in
  let rest := drop 2 bs in
  if MAX_LANE_FRAME <? Z.of_nat len then
    if (length rest <? len)%nat then ([], 1) else let '(ps, n) := read_frames fuel (drop len rest) in (ps, n + 1)
  else
    if (length rest <? len)%nat then ([], 0) else let '(ps, n) := read_frames fuel (drop len rest) in (take len rest :: ps, n).
Proof. reflexivity. Qed.

Lemma read_frames_fuel m n bs : (length bs ≤ m)%nat → (length bs ≤ n)%nat → read_frames m bs = read_frames n bs.
Proof.
  revert n bs. induction m as [|m IH]; intros n bs Hm Hn.
  - destruct bs; [|cbn in Hm; lia]. by destruct n.
  - destruct n as [|n]; [destruct bs; [done|cbn in Hn; lia]|]. rewrite !read_frames_S. cbn zeta.
    destruct (Nat.ltb_spec (length bs) 2); [done|].
    rewrite (IH n) by (rewrite !length_drop; lia). done.
Qed.

Lemma read_frames_cons p rest : plen p ≤ 65535 → read_frames (length (lane_frame p ++ rest)) (lane_frame p ++ rest) =
  let '(ps, n) := read_frames (length rest) rest in if carriable p then (p :: ps, n) else (ps, n + 1).
Proof.
  intros Hp. unfold plen in *. rewrite length_app, length_lane_frame. unfold lane_frame, LEN_PREFIX. cbn [Nat.add]. rewrite read_frames_S. cbn zeta.
  rewrite <- app_assoc. rewrite length_app, to_be_length.
  rewrite (proj2 (Nat.ltb_ge _ _)) by lia. rewrite take_app_length', drop_app_length' by by rewrite to_be_length.
  unfold plen. rewrite from_to_be by lia. rewrite Nat2Z.id, length_app.
  rewrite (proj2 (Nat.ltb_ge (length p + length rest) (length p))) by lia. rewrite take_app_length, drop_app_length.
  rewrite (read_frames_fuel _ (length rest) rest) by lia. unfold carriable, plen.
  destruct (read_frames (length rest) rest) as [ps k]. destruct (Z.ltb_spec MAX_LANE_FRAME (Z.of_nat (length p))), (Z.leb_spec (Z.of_nat (length p)) MAX_LANE_FRAME); done || lia.
Qed.

Lemma read_frames_short p k : plen p ≤ 65535 → (k < length (lane_frame p))%nat →
  (read_frames (length (take k (lane_frame p))) (take k (lane_frame p))).1 = [] ∧
  (carriable p = true → (read_frames (length (take k (lane_frame p))) (take k (lane_frame p))).2 = 0).
Proof.
  intros Hp Hk. rewrite length_lane_frame in Hk. rewrite length_take_le by (rewrite length_lane_frame; lia).
  destruct k as [|k]; [done|]. rewrite read_frames_S. cbn zeta. rewrite length_take_le by (rewrite length_lane_frame; lia).
  destruct (Nat.ltb_spec (S k) 2); [done|]. unfold lane_frame, plen in *.
  rewrite take_app_ge, take_app_length', drop_app_length' by (rewrite ?to_be_length; unfold LEN_PREFIX; lia). rewrite to_be_length.
  rewrite from_to_be by (unfold LEN_PREFIX; lia). rewrite Nat2Z.id, length_take.
  rewrite (proj2 (Nat.ltb_lt _ _)) by (unfold LEN_PREFIX; lia).
  unfold carriable, plen. destruct (Z.ltb_spec MAX_LANE_FRAME (Z.of_nat (length p))); [|done]. split; [done|]. intros ?%Z.leb_le. lia.
Qed.

(** Whatever has arrived of a stream of frames is the carriable ones of its first
    frames; all of them, and each other one counted, once all has arrived. *)
Lemma read_frames_prefix ps k : Forall (λ p, plen p ≤ 65535) ps →
  ∃ ps', ps' `prefix_of` ps ∧ (read_frames (length (take k (frames ps))) (take k (frames ps))).1 = List.filter carriable ps' ∧
    (forallb carriable ps = true → (read_frames (length (take k (frames ps))) (take k (frames ps))).2 = 0).
Proof.
  intros H. revert k. induction H as [|p ps Hp Hps IH]; intros k.
  { exists []. split; [done|]. unfold frames. cbn. by rewrite take_nil. }
  rewrite frames_cons.
  destruct (Nat.lt_ge_cases k (length (lane_frame p))) as [Hk|Hk].
  - rewrite take_app_le by lia. destruct (read_frames_short p k Hp Hk) as [E1 E2]. exists []. split; [apply prefix_nil|]. split; [done|].
    cbn. intros [? _]%andb_true_iff. by apply E2.
  - rewrite take_app_ge by lia. rewrite read_frames_cons by done. destruct (IH (k - length (lane_frame p))%nat) as (ps' & Hpre & E1 & E2).
    destruct (read_frames _ _) as [l m]. cbn [fst snd] in *. exists (p :: ps'). split; [by apply prefix_cons|]. cbn.
    destruct (carriable p); cbn; [|done]. split; [by rewrite E1|done].
Qed.

Lemma read_frames_all ps : Forall (λ p, plen p ≤ 65535) ps →
  read_frames (length (frames ps)) (frames ps) = (List.filter carriable ps, Z.of_nat (length (List.filter (λ p, negb (carriable p)) ps))).
Proof.
  induction 1 as [|p ps Hp Hps IH]; [done|]. rewrite frames_cons.
  rewrite read_frames_cons, IH by done. cbn [List.filter]. destruct (carriable p); cbn [negb]; [done|]. f_equal. cbn [length]. lia.
Qed.

(** ** Lanes at work *)

Inductive LaneEvent : Type :=
| LSend (packet : Packet) (lane : Z)
| LName (i : nat) (ok : bool)
| LWrite (i : nat) (cut : option nat).

Section lanes.
Context `{Q : LaneQueue}.

Definition lane_of (c : PacketChannel) (lane : Z) : nat := Z.to_nat (lane mod Z.of_nat (length (pc_lanes c))).

(** The channel, the packets taken with the lane each went to, the number refused. *)
Definition lane_step (st : PacketChannel * list (nat * Packet) * Z) (ev : LaneEvent) : PacketChannel * list (nat * Packet) * Z :=
  let '(c, acc, refused) := st in
  match ev with
  | LSend p lane =>
      let '(c', ok) := send_on None false p lane c in
      if ok then (c', acc ++ [(lane_of c lane, p)], refused) else (c', acc, refused + 1)
  | LName i ok => (match pc_lanes c !! i with Some l => pc_set_lane i (lane_name i ok l) c | None => c end, acc, refused)
  | LWrite i cut => (lane_write i cut c, acc, refused)
  end.
Definition lanes_run (lanes : Z) (evs : list LaneEvent) := foldl lane_step (start_lanes Stream lanes, [], 0) evs.

(** What was taken for a lane, in order. *)
Definition taken (i : nat) (acc : list (nat * Packet)) : list Packet := omap (λ p, if decide (p.1 = i) then Some p.2 else None) acc.

(** What is on the stream is the lane's name and the start of what was taken for
    it; while the writer runs, exactly what is no longer queued. *)
Record lane_inv (cap : Z) (i : nat) (sent : list Packet) (l : Lane) : Prop := mkLaneInv {
  li_cap : ln_cap l = cap ∧ Z.of_nat (length (ln_queue l)) ≤ cap;
  li_small : Forall (λ p, carriable p = true) sent;
  li_wire : ln_wire l `prefix_of` Z.of_nat i :: frames sent;
  li_open : ln_open l = true →
    if ln_named l then ∃ done, ln_wire l = Z.of_nat i :: frames done ∧ sent = done ++ ln_queue l
    else ln_wire l = [] ∧ sent = ln_queue l;
}.

Definition lanes_inv (cap : Z) (n : nat) (st : PacketChannel * list (nat * Packet) * Z) : Prop :=
  let '(c, acc, refused) := st in
  pc_mode c = Stream ∧ length (pc_lanes c) = n ∧ pc_dropped c = refused mod 2 ^ 64 ∧
  ∀ i l, pc_lanes c !! i = Some l → lane_inv cap i (taken i acc) l.

Lemma prefix_frames_snoc w i sent p : w `prefix_of` i :: frames sent → w `prefix_of` i :: frames (sent ++ [p]).
Proof. intros [k Hk]. exists (k ++ lane_frame p). rewrite frames_snoc, app_assoc, <- Hk. done. Qed.

Lemma taken_snoc i acc j p : taken i (acc ++ [(j, p)]) = taken i acc ++ if decide (j = i) then [p] else [].
Proof. unfold taken. rewrite omap_app. cbn. by case_decide. Qed.

Context `{!LaneQueueLaws Q}.

Lemma send_on_inv cap n c acc refused p lane : (0 < n)%nat → lanes_inv cap n (c, acc, refused) →
  lanes_inv cap n (lane_step (c, acc, refused) (LSend p lane)).
Proof.
  intros Hn (Hm & Hl & Hd & Hi). unfold lane_step, send_on. rewrite Hm.
  assert (∀ c', pc_mode c' = Stream → pc_lanes c' = pc_lanes c → pc_dropped c' = pc_dropped c ⊕ 1 → lanes_inv cap n (c', acc, refused + 1)) as Hdrop.
  { intros c' H1 H2 H3. unfold lanes_inv. rewrite H2, H3, Hd. split_and!; try done. unfold wadd64. by rewrite Zplus_mod_idemp_l. }
  destruct (Z.ltb_spec MAX_LANE_FRAME (plen p)) as [|Hp]; [by apply Hdrop|]. unfold lane_of.
  destruct (pc_lanes c) as [|l0 ls] eqn:El; [by apply Hdrop|]. rewrite <- El in *.
  set (i := Z.to_nat (lane mod Z.of_nat (length (pc_lanes c)))).
  destruct (pc_lanes c !! i) as [l|] eqn:Hli; [|by apply Hdrop; rewrite ?El].
  destruct (lane_try_send _ _ _ _) as [q|] eqn:Hs; [|by apply Hdrop; rewrite ?El].
  apply lane_send_some in Hs as (-> & Ho & Hroom). split_and!; [done|cbn; by rewrite length_insert|done|].
  intros j lj. cbn [pc_lanes pc_set_lane]. rewrite taken_snoc. destruct (Hi i l Hli) as [[Hc1 Hc2] Hsm Hw Hop].
  destruct (decide (i = j)) as [<-|Hne].
  - rewrite list_lookup_insert_eq by (by eapply lookup_lt_Some). intros [= <-]. split; cbn.
    + rewrite length_app. cbn. split; [done|lia].
    + apply Forall_app. split; [done|]. apply Forall_singleton. unfold carriable. lia.
    + by apply prefix_frames_snoc.
    + intros Ho'. specialize (Hop Ho'). destruct (ln_named l); [destruct Hop as (done_ & -> & ->)|destruct Hop as [-> ->]; done].
      exists done_. by rewrite app_assoc.
  - rewrite list_lookup_insert_ne by done. intros Hj. rewrite app_nil_r. eauto.
Qed.

Lemma lane_upd cap n c acc refused i l l' c' : lanes_inv cap n (c, acc, refused) → pc_lanes c !! i = Some l →
  pc_mode c' = pc_mode c → pc_dropped c' = pc_dropped c → pc_lanes c' = <[i := l']> (pc_lanes c) →
  lane_inv cap i (taken i acc) l' → lanes_inv cap n (c', acc, refused).
Proof.
  intros (Hm & Hl & Hd & Hi) Hli H1 H2 H3 H. unfold lanes_inv. rewrite H1, H2, H3. split_and!; try done; [by rewrite length_insert|].
  intros j lj. destruct (decide (i = j)) as [<-|Hne].
  - rewrite list_lookup_insert_eq by (by eapply lookup_lt_Some). by intros [= <-].
  - rewrite list_lookup_insert_ne by done. eauto.
Qed.

Lemma lane_step_inv cap n st ev : (0 < n)%nat → lanes_inv cap n st → lanes_inv cap n (lane_step st ev).
Proof.
  destruct st as [[c acc] refused]. intros Hn H. destruct ev as [p lane|i ok|i cut]; [by apply send_on_inv| |]; cbn [lane_step].
  - destruct (pc_lanes c !! i) as [l|] eqn:Hl; [|done]. eapply (lane_upd cap n c acc refused i l (lane_name i ok l)); try done.
    pose proof H as (_ & _ & _ & Hi). pose proof (Hi i l Hl) as Hinv. unfold lane_name.
    destruct (ln_open l) eqn:Ho; cbn; [|done]. destruct (ln_named l) eqn:Hna; [done|]. destruct Hinv as [Hc Hs Hw Hop]. rewrite Ho, Hna in Hop.
    destruct (Hop eq_refl) as [Ew Es]. destruct ok; split; cbn; try done.
    + rewrite Ew. cbn. rewrite <- (app_nil_l (Z.of_nat i :: frames _)). exists (frames (taken i acc)). done.
    + intros _. exists []. rewrite Ew. done.
  - unfold lane_write. destruct (pc_lanes c !! i) as [l|] eqn:Hl; [|done].
    destruct l as [cap' [|p q] [] wire []]; try done. pose proof H as (_ & _ & _ & Hi). destruct (Hi i _ Hl) as [[Hc1 Hc2] Hs Hw Hop].
    cbn in Hc1, Hc2, Hw, Hop. destruct (Hop eq_refl) as (done_ & Ew & Es).
    assert (plen p ≤ MAX_LANE_FRAME) as Hp by (rewrite Es in Hs; apply Forall_app in Hs as [_ [? _]%Forall_cons]; unfold carriable in *; lia).
    assert (wire ++ lane_frame p `prefix_of` Z.of_nat i :: frames (taken i acc)) as Hpre.
    { rewrite Es, Ew. exists (frames q). unfold frames. rewrite fmap_app, join_app. cbn. rewrite <- app_assoc. done. }
    destruct (Z.ltb_spec 65535 (plen p)); [unfold MAX_LANE_FRAME, MAX_TUNNEL_MTU, FRAME_OVERHEAD in Hp; lia|].
    destruct cut as [k|]; (eapply lane_upd; [done|exact Hl|done|done|reflexivity|]); (split; cbn; [split; [done|lia]|done| |done || (intros _)]).
    + etrans; [|exact Hpre]. apply prefix_app, prefix_take.
    + done.
    + exists (done_ ++ [p]). rewrite frames_snoc, Ew, <- app_assoc. done.
Qed.
End lanes.

(** C34: Lanes keep packets whole and in order. Whatever is sent on whatever lanes, and
    however the writers get on, for each lane: whatever part of its stream has
    arrived, its reader has the lane's own number and the first of the packets
    taken for that lane, each as it was, in order, none twice; while its writer
    runs, every packet taken is on the stream or queued; the queue stays within its
    share. Every packet not taken is counted. And a reader given frames no sender of
    ours makes skips exactly the oversized ones, counts them, and stays in step. *)
Theorem lanes_in_order `{Q : LaneQueue, !LaneQueueLaws Q} lanes evs :
  let '(c, acc, refused) := lanes_run lanes evs in
  length (pc_lanes c) = Z.to_nat (lane_number lanes) ∧ 1 ≤ lane_number lanes ≤ MAX_LANES ∧
  pc_dropped c = refused mod 2 ^ 64 ∧
  (∀ i l, pc_lanes c !! i = Some l →
     (∀ k, ∃ ps, ps `prefix_of` taken i acc ∧
        lane_read (take k (ln_wire l)) = (match take k (ln_wire l) with [] => None | _ => Some (Z.of_nat i) end, ps, 0)) ∧
     (ln_open l = true → ln_named l = true →
        ∃ ps, lane_read (ln_wire l) = (Some (Z.of_nat i), ps, 0) ∧ taken i acc = ps ++ ln_queue l) ∧
     Z.of_nat (length (ln_queue l)) ≤ per_lane (lane_number lanes)) ∧
  (∀ name ps, Forall (λ p, plen p ≤ 65535) ps →
     lane_read (name :: frames ps) =
       (Some name, List.filter carriable ps, Z.of_nat (length (List.filter (λ p, negb (carriable p)) ps)))).
Proof.
  assert (1 ≤ lane_number lanes ≤ MAX_LANES) as Hn by (unfold lane_number, MAX_LANES; lia).
  assert (lanes_inv (per_lane (lane_number lanes)) (Z.to_nat (lane_number lanes)) (lanes_run lanes evs)) as H.
  { unfold lanes_run. apply (foldl_inv (lanes_inv _ _)); [|intros; apply lane_step_inv; [lia|done]].
    split_and!; [done|cbn; by rewrite length_replicate|done|]. cbn. intros i l [-> _]%lookup_replicate.
    split; cbn; try done; [|by apply prefix_nil]. unfold per_lane. split; [done|lia]. }
  destruct (lanes_run lanes evs) as [[c acc] refused]. destruct H as (_ & Hl & Hd & Hi). split_and!; try done; try lia.
  - intros i l Hli. destruct (Hi i l Hli) as [[_ Hc] Hs Hw Ho].
    assert (Forall (λ p, plen p ≤ 65535) (taken i acc)) as Hsm.
    { eapply Forall_impl; [exact Hs|]. intros p Hp. unfold carriable, MAX_LANE_FRAME, MAX_TUNNEL_MTU, FRAME_OVERHEAD in Hp. lia. }
    assert (∀ ps, ps `prefix_of` taken i acc → List.filter carriable ps = ps ∧ forallb carriable ps = true) as Hf.
    { intros ps [r Hr]. rewrite Hr in Hs. apply Forall_app in Hs as [Hs _]. clear -Hs. induction Hs as [|p ps Hp Hps [IH1 IH2]]; [done|]. cbn. by rewrite Hp, IH1, IH2. }
    split_and!; [| |done].
    + intros k. destruct Hw as [r Hr].
      assert (take k (ln_wire l) = take (Nat.min k (length (ln_wire l))) (Z.of_nat i :: frames (taken i acc))) as ->.
      { rewrite Hr. rewrite take_app_le by lia. destruct (Nat.le_ge_cases k (length (ln_wire l))); [by rewrite Nat.min_l|].
        rewrite Nat.min_r by done. by rewrite !take_ge. }
      destruct (Nat.min k (length (ln_wire l))) as [|k']; [exists []; split; [apply prefix_nil|done]|]. cbn [take lane_read].
      destruct (read_frames_prefix (taken i acc) k' Hsm) as (ps & Hps & E1 & E2). exists ps. split; [done|].
      destruct (read_frames _ _) as [l1 n1]. cbn in E1, E2. rewrite E1, E2; [|by apply Hf]. by rewrite (proj1 (Hf ps Hps)).
    + intros Hop Hna. specialize (Ho Hop). rewrite Hna in Ho. destruct Ho as (ps & -> & Hq). exists ps. split; [|done].
      assert (ps `prefix_of` taken i acc) as Hpre by (rewrite Hq; by eexists). cbn [lane_read].
      rewrite read_frames_all by (rewrite Hq in Hsm; by apply Forall_app in Hsm as [? _]).
      destruct (Hf ps Hpre) as [-> Hall]. do 2 f_equal. clear -Hall. induction ps as [|p ps IH]; [done|]. cbn in *.
      apply andb_true_iff in Hall as [-> ?]. cbn. auto.
  - intros name ps Hps. cbn [lane_read]. by rewrite read_frames_all.
Qed.

(** [tokio]'s channel as documented. *)
Module LanesExample.
#[export] Instance lane_queue : LaneQueue := {|
  lane_try_send cap open q p := if open && (Z.of_nat (length q) <? cap) then Some (q ++ [p]) else None;
|}.
#[export] Instance queue_laws : LaneQueueLaws lane_queue.
Proof.
  split; cbn.
  - intros cap q p H. by rewrite (proj2 (Z.ltb_lt _ _) H).
  - intros cap [] q p q'; cbn; [|done]. destruct (Z.ltb_spec (Z.of_nat (length q)) cap); [|done]. by intros [= <-].
Qed.

(** Two lanes; lane 5 wraps to 1, where the stream is cut in the second frame. *)
Definition events : list LaneEvent :=
  [LName 1 true; LSend [1; 2] 5; LSend [3] 0; LSend [4; 5; 6] 1; LWrite 1 None; LWrite 1 (Some 3%nat)].
Lemma lane_events_run : match lanes_run 2 events with
  | (c, acc, refused) => acc = [(1%nat, [1; 2]); (0%nat, [3]); (1%nat, [4; 5; 6])] ∧
      (ln_wire <$> pc_lanes c !! 1%nat) = Some [1; 0; 2; 1; 2; 0; 3; 4] end.
Proof. vm_compute. done. Qed.
End LanesExample.

#[local] Existing Instance LanesExample.queue_laws.

Lemma lanes_in_order_witness :
  (lane_read <$> (ln_wire <$> (lanes_run (Q := LanesExample.lane_queue) 2 LanesExample.events).1.1.(pc_lanes) !! 1%nat)) = Some (Some 1, [[1; 2]], 0) ∧
  ∃ ps, ps `prefix_of` [[1; 2]; [4; 5; 6]] ∧ lane_read [1; 0; 2; 1; 2; 0; 3; 4] = (Some 1, ps, 0).
Proof.
  split; [vm_compute; reflexivity|].
  pose proof (lanes_in_order (Q := LanesExample.lane_queue) 2 LanesExample.events) as H.
  destruct (lanes_run (Q := LanesExample.lane_queue) 2 LanesExample.events) as [[c acc] refused] eqn:E.
  destruct H as (_ & _ & _ & H & _). vm_compute in E. injection E as <- <- <-.
  destruct (H 1%nat _ eq_refl) as (Hk & _). destruct (Hk 8%nat) as (ps & Hps & Hr). exists ps. split; [exact Hps|exact Hr].
Defined.
