(* ===== verification/Member.v ===== *)
(** * The member control loop (crates/nqvpn-sync/src/link.rs, join.rs)

    What keeps a client or a relay a member: sessions with the coordinator one after
    the other, a join between two of them, and beside them a task that renews the
    credential. The two tasks and the data plane share [LinkHandle], the credential
    and the control address; an event is what one of them does between two waits, so
    a list of events is an interleaving. A join attempt's answer and how a session
    ended are in the events; what the loop does outside itself is a list of
    [MemberOut]s. *)

From S2P Require Import Rpc.
From S2P Require Import Prelude Ordered Ipnet Text Control Replay Seal Credential Config Registry Leases Directory Ipam NetState RateLimit Join.

(** ** The HTTPS join client (crates/nqvpn-proto/src/joinapi.rs) *)

Inductive JoinError : Set :=
| JeIo | JeResolve | JeConnect | JeBadUrl | JeTls | JeMalformed | JeTooLarge | JeJson
| JeRejected (status : Z) (code : ErrorCode).

Definition je_terminal (e : JoinError) : bool := match e with JeRejected _ code => is_terminal code | _ => false end.

Definition first_part (c : Z) (s : string) : string := match split_once c s with Some (a, _) => a | None => s end.

Definition parse_url (url : string) : Result (string * Z) JoinError :=
  match strip_prefix "https://" url with
  | None => Err JeBadUrl
  | Some rest =>
      let host_port := first_part 47 rest in
      if String.eqb host_port "" then Err JeBadUrl else
      match strip_prefix "[" host_port with
      | Some rest =>
          match split_once 93 rest with
          | None => Err JeBadUrl
          | Some (h, tail) =>
              match strip_prefix ":" tail with
              | None => Ok (h, 443)
              | Some p => match parse_u16 p with Some port => Ok (h, port) | None => Err JeBadUrl end
              end
          end
      | None =>
          if Z.of_nat (length (List.filter (λ b, b =? 58) (str_bytes host_port))) =? 1 then
            match split_once 58 host_port with
            | Some (h, p) => match parse_u16 p with Some port => Ok (h, port) | None => Err JeBadUrl end
            | None => Err JeBadUrl
            end
          else Ok (host_port, 443)
      end
  end.

Definition control_addr (api_url : string) (control_port : Z) : Result string JoinError :=
  let? hp := parse_url api_url in
  let port := bytes_str (fmt_digits 5 10 control_port) in
  Ok (if existsb (λ b, b =? 58) (str_bytes hp.1) then ("[" +:+ hp.1 +:+ "]:" +:+ port)%string else (hp.1 +:+ ":" +:+ port)%string).

Definition retry_delay (terminal : bool) (consecutive : Z) : Z :=
  if terminal then Z.min (2 ^ (Z.max 1 (Z.min consecutive 16) - 1)) 30 else Z.min (2 ^ Z.min consecutive 3) 5.

(** ** Retrying a join *)

Record Retry := mkRetry { rt_transient : Z; rt_refused : Z }.
Definition retry_default : Retry := mkRetry 0 0.

(** [Retry::failed]: the counts, and how long to wait. *)
Definition retry_failed (e : JoinError) (r : Retry) : Retry * Z :=
  if je_terminal e then let n := sat_add 32 (rt_refused r) 1 in (mkRetry (rt_transient r) n, retry_delay true n)
  else let n := sat_add 32 (rt_transient r) 1 in (mkRetry n (rt_refused r), retry_delay false n).

(** What one attempt came to; [Panicked]: its task failed. *)
Inductive JoinAttempt : Type := Accepted (r : JoinResponse) | Failed (e : JoinError) | Panicked.

(** One turn of [join_with_backoff_reporting]: the response, or the counts and the
    wait; and what [on_refused] is told. *)
Definition join_attempt (a : JoinAttempt) (r : Retry) : (JoinResponse + Retry * Z) * option bool :=
  match a with
  | Accepted resp => (inl resp, if 0 <? rt_refused r then Some false else None)
  | Failed e => (inr (retry_failed e r), if je_terminal e && (rt_refused r =? 0) then Some true else None)
  | Panicked => (inr (r, 5), None)
  end.

(** ** The shared handle *)

(** [lh_notified]: the permit [stop_notify] holds for whoever waits next. *)
Record LinkHandle := mkLinkHandle { lh_stop : option string; lh_notified : bool; lh_refresh : option string; lh_refused : bool }.

Definition handle_stop (reason : string) (h : LinkHandle) : LinkHandle :=
  mkLinkHandle (match lh_stop h with Some r => Some r | None => Some reason end) true (lh_refresh h) (lh_refused h).
Definition handle_refresh (credential : string) (h : LinkHandle) : LinkHandle :=
  mkLinkHandle (lh_stop h) (lh_notified h) (Some credential) (lh_refused h).
Definition handle_refused (b : bool) (h : LinkHandle) : LinkHandle :=
  mkLinkHandle (lh_stop h) (lh_notified h) (lh_refresh h) b.

(** How a control session ends: the application code it was closed with and the
    reason, any other error, or the handle's notification. *)
Inductive SessionEnd : Set := SeClosed (code : Z) (reason : string) | SeLost | SeNotified.
Inductive SessionError : Set := SStop (reason : string) | SReconfigured | SOther.

Definition session_error (h : LinkHandle) (e : SessionEnd) : SessionError :=
  match e with
  | SeClosed code reason =>
      if code =? CLOSE_REPLACED then SStop reason else
      if code =? CLOSE_RECONFIGURED then SReconfigured else SOther
  | SeLost => SOther
  | SeNotified => SStop (default "stopped"%string (lh_stop h))
  end.

(** ** The two tasks *)

Inductive MainPhase : Type :=
| MTop
| MSession
| MPause (healthy reconfigured : bool)
| MJoin (r : Retry)
| MExit (reason : string).
Inductive RenewPhase : Type := RSleep (secs : Z) | RJoin (r : Retry) | REnded.

Record Member := mkMember {
  mb_handle : LinkHandle; mb_credential : string; mb_control_addr : string; mb_delay : Z; mb_main : MainPhase; mb_renewal : RenewPhase;
}.

Inductive MemberOut : Type :=
| MoSession (control_addr credential : string)
| MoRefresh (credential : string)
| MoJoinSent
| MoRefused (b : bool)
| MoJoined (r : JoinResponse).

Inductive MemberEvent : Type :=
| MeTop
| MePresent
| MeSessionEnd (e : SessionEnd) (lasted : Z)
| MePaused
| MeJoin (a : JoinAttempt)
| MeRenewWake
| MeRenewJoin (a : JoinAttempt)
| MeReplaced (reason : string).

Section member.
Context `{L : CredLib}.
Context (coordinator : string).

Definition mb_set_handle (h : LinkHandle) (m : Member) : Member :=
  mkMember h (mb_credential m) (mb_control_addr m) (mb_delay m) (mb_main m) (mb_renewal m).
Definition mb_set_main (p : MainPhase) (m : Member) : Member :=
  mkMember (mb_handle m) (mb_credential m) (mb_control_addr m) (mb_delay m) p (mb_renewal m).
Definition mb_set_renewal (p : RenewPhase) (m : Member) : Member :=
  mkMember (mb_handle m) (mb_credential m) (mb_control_addr m) (mb_delay m) (mb_main m) p.
Definition mb_set_delay (d : Z) (m : Member) : Member :=
  mkMember (mb_handle m) (mb_credential m) (mb_control_addr m) d (mb_main m) (mb_renewal m).

Definition member_start (h : LinkHandle) (first : JoinResponse) : Member :=
  mkMember h (jp_credential first)
    (match control_addr coordinator (jp_control_port first) with Ok a => a | Err _ => "" end) 1 MTop (RSleep (renew_after_secs (jp_credential first))).

(** [run_member] returns: the renewal task goes with it. *)
Definition member_exit (reason : string) (m : Member) : Member := mb_set_main (MExit reason) (mb_set_renewal REnded m).

(** A join was accepted: its credential and where the control plane is now. *)
Definition take_response (r : JoinResponse) (m : Member) : Member :=
  mkMember (mb_handle m) (jp_credential r)
    (match control_addr coordinator (jp_control_port r) with Ok a => a | Err _ => mb_control_addr m end)
    (mb_delay m) (mb_main m) (mb_renewal m).

Definition tell_refused (b : option bool) (m : Member) : Member * list MemberOut :=
  match b with Some b => (mb_set_handle (handle_refused b (mb_handle m)) m, [MoRefused b]) | None => (m, []) end.

Definition member_step (m : Member) (ev : MemberEvent) : Member * list MemberOut :=
  match ev with
  | MeReplaced reason => (mb_set_handle (handle_stop reason (mb_handle m)) m, [])
  | MeTop =>
      match mb_main m with
      | MTop =>
          match lh_stop (mb_handle m) with
          | Some reason => (member_exit reason m, [])
          | None => (mb_set_main MSession m, [MoSession (mb_control_addr m) (mb_credential m)])
          end
      | _ => (m, [])
      end
  | MePresent =>
      match mb_main m, lh_refresh (mb_handle m) with
      | MSession, Some c =>
          (mb_set_handle (mkLinkHandle (lh_stop (mb_handle m)) (lh_notified (mb_handle m)) None (lh_refused (mb_handle m))) m, [MoRefresh c])
      | _, _ => (m, [])
      end
  | MeSessionEnd e lasted =>
      match mb_main m with
      | MSession =>
          if match e with SeNotified => negb (lh_notified (mb_handle m)) | _ => false end then (m, []) else
          let h := match e with
            | SeNotified => mkLinkHandle (lh_stop (mb_handle m)) false (lh_refresh (mb_handle m)) (lh_refused (mb_handle m))
            | _ => mb_handle m
            end in
          match session_error h e with
          | SStop reason => (member_exit reason (mb_set_handle (handle_stop reason h) m), [])
          | SReconfigured => (mb_set_main (MPause (30 <=? lasted) true) (mb_set_handle h m), [])
          | SOther => (mb_set_main (MPause (30 <=? lasted) false) (mb_set_handle h m), [])
          end
      | _ => (m, [])
      end
  | MePaused =>
      match mb_main m with
      | MPause healthy reconfigured =>
          let m := mb_set_delay (if healthy || reconfigured then 1 else Z.min (mb_delay m * 2) 5) m in
          match lh_stop (mb_handle m) with
          | Some reason => (member_exit reason m, [])
          | None => (mb_set_main (MJoin retry_default) m, [])
          end
      | _ => (m, [])
      end
  | MeJoin a =>
      match mb_main m with
      | MJoin r =>
          let '(res, told) := join_attempt a r in
          let '(m, out) := tell_refused told m in
          match res with
          | inl resp => (mb_set_main MTop (take_response resp m), MoJoinSent :: out ++ [MoJoined resp])
          | inr (r, _) => (mb_set_main (MJoin r) m, MoJoinSent :: out)
          end
      | _ => (m, [])
      end
  | MeRenewWake =>
      match mb_renewal m with
      | RSleep _ =>
          match lh_stop (mb_handle m) with
          | Some _ => (mb_set_renewal REnded m, [])
          | None => (mb_set_renewal (RJoin retry_default) m, [])
          end
      | _ => (m, [])
      end
  | MeRenewJoin a =>
      match mb_renewal m with
      | RJoin r =>
          let '(res, told) := join_attempt a r in
          let '(m, out) := tell_refused told m in
          match res with
          | inl resp =>
              let m := take_response resp m in
              (mb_set_renewal (RSleep (renew_after_secs (jp_credential resp))) (mb_set_handle (handle_refresh (jp_credential resp) (mb_handle m)) m),
               MoJoinSent :: out ++ [MoJoined resp])
          | inr (r, _) => (mb_set_renewal (RJoin r) m, MoJoinSent :: out)
          end
      | _ => (m, [])
      end
  end.

Fixpoint member_run (m : Member) (evs : list MemberEvent) : Member * list MemberOut :=
  match evs with
  | [] => (m, [])
  | ev :: evs => let '(m, o) := member_step m ev in let '(m, os) := member_run m evs in (m, o ++ os)
  end.

(** The response a step of the renewal task brings, and all of them, oldest first. *)
Definition renewed (ev : MemberEvent) (m : Member) : option JoinResponse :=
  match ev, mb_renewal m with MeRenewJoin (Accepted resp), RJoin _ => Some resp | _, _ => None end.
Fixpoint renewals (m : Member) (evs : list MemberEvent) : list JoinResponse :=
  match evs with
  | [] => []
  | ev :: evs => option_list (renewed ev m) ++ renewals (member_step m ev).1 evs
  end.

(** The runs of a member that starts with the response of its first join. *)
Inductive member_ran (first : JoinResponse) : list MemberEvent → Member → list MemberOut → Prop :=
| mr_start : member_ran first [] (member_start (mkLinkHandle None false None false) first) []
| mr_step evs m outs ev m' o :
    member_ran first evs m outs → member_step m ev = (m', o) → member_ran first (evs ++ [ev]) m' (outs ++ o).
End member.

(** ** What a member's run keeps *)

Definition joined_of (o : MemberOut) : option JoinResponse := match o with MoJoined r => Some r | _ => None end.
Definition last_joined (first : JoinResponse) (outs : list MemberOut) : JoinResponse := default first (last (omap joined_of outs)).

(** The events that say another instance has taken over. *)
Definition is_replacement (ev : MemberEvent) : bool :=
  match ev with
  | MeReplaced _ => true
  | MeSessionEnd (SeClosed code _) _ => code =? CLOSE_REPLACED
  | _ => false
  end.

Definition exited (m : Member) : bool := match mb_main m with MExit _ => true | _ => false end.
Definition main_joining (m : Member) : option Retry := match mb_main m with MJoin r => Some r | _ => None end.
Definition renew_joining (m : Member) : option Retry := match mb_renewal m with RJoin r => Some r | _ => None end.
Definition refused_in (r : option Retry) : bool := match r with Some r => 0 <? rt_refused r | None => false end.

Definition counts_ok (r : Retry) : Prop := 0 ≤ rt_transient r ∧ 0 ≤ rt_refused r.

(** Join sequences under way. *)
Definition under_way (m : Member) : nat :=
  (length (option_list (main_joining m)) + length (option_list (renew_joining m)))%nat.

Record member_inv (first : JoinResponse) (evs : list MemberEvent) (outs : list MemberOut) (m : Member) : Prop := mkMemberInv {
  mi_credential : mb_credential m = jp_credential (last_joined first outs);
  mi_delay : 1 ≤ mb_delay m ≤ 5;
  mi_exit : exited m = true → lh_stop (mb_handle m) ≠ None ∧ mb_renewal m = REnded;
  mi_stop : lh_stop (mb_handle m) ≠ None → ∃ ev, ev ∈ evs ∧ is_replacement ev = true;
  mi_permit : lh_notified (mb_handle m) = true → lh_stop (mb_handle m) ≠ None;
  mi_counts : ∀ r, main_joining m = Some r ∨ renew_joining m = Some r → counts_ok r;
  mi_refused : lh_refused (mb_handle m) = true → exited m = false → refused_in (main_joining m) || refused_in (renew_joining m) = true;
}.

Section member_inv.
Context `{L : CredLib}.
Context (coordinator : string) (first : JoinResponse).
Abbreviation step := (member_step coordinator).

Lemma last_joined_snoc outs o : last_joined first (outs ++ o) = last_joined (last_joined first outs) o.
Proof. unfold last_joined. rewrite omap_app, last_app. by destruct (last (omap joined_of o)). Qed.

Lemma stop_in_snoc evs ev : (∃ e, e ∈ evs ∧ is_replacement e = true) → ∃ e, e ∈ evs ++ [ev] ∧ is_replacement e = true.
Proof. intros (e & ? & ?). exists e. rewrite elem_of_app. auto. Qed.

Lemma retry_delay_bound b n : 1 ≤ n → 1 ≤ retry_delay b n ≤ 30.
Proof.
  intros Hn. unfold retry_delay. destruct b.
  - assert (1 ≤ 2 ^ (Z.max 1 (Z.min n 16) - 1)) by (rewrite <- (Z.pow_0_r 2); apply Z.pow_le_mono_r; lia). lia.
  - assert (1 ≤ 2 ^ Z.min n 3) by (rewrite <- (Z.pow_0_r 2); apply Z.pow_le_mono_r; lia). lia.
Qed.

Lemma join_attempt_spec a r : counts_ok r →
  match join_attempt a r with
  | (inl resp, told) => a = Accepted resp ∧ told = (if 0 <? rt_refused r then Some false else None)
  | (inr (r', wait), told) =>
      counts_ok r' ∧ 1 ≤ wait ≤ 30 ∧ (told = None ∨ told = Some true ∧ 0 < rt_refused r') ∧ (0 < rt_refused r → 0 < rt_refused r')
  end.
Proof.
  intros [Ht Hr]. unfold join_attempt, retry_failed. destruct a as [resp|e|]; [done| |cbn; unfold counts_ok; split_and!; auto; lia].
  unfold sat_add, counts_ok. destruct (je_terminal e); cbn -[Z.pow].
  - split_and!; try lia; try (apply retry_delay_bound; lia). destruct (_ =? _); [right; split; [done|lia]|by left].
  - split_and!; try lia; try (apply retry_delay_bound; lia). by left.
Qed.

Lemma tell_refused_spec told m m' out : tell_refused told m = (m', out) →
  m' = mb_set_handle (match told with Some b => handle_refused b (mb_handle m) | None => mb_handle m end) m ∧
  omap joined_of out = [].
Proof. unfold tell_refused. destruct told; intros [= <- <-]; [done|]. by destruct m. Qed.

(** A step that neither joins nor ends a join sequence. *)
Lemma member_inv_quiet evs outs m ev m' o : member_inv first evs outs m →
  mb_credential m' = mb_credential m → omap joined_of o = [] → 1 ≤ mb_delay m' ≤ 5 →
  lh_refused (mb_handle m') = lh_refused (mb_handle m) → main_joining m = None →
  (exited m' = true → lh_stop (mb_handle m') ≠ None ∧ mb_renewal m' = REnded) →
  (exited m' = false → mb_renewal m' = mb_renewal m) → main_joining m' = None ∨ main_joining m' = Some retry_default →
  (lh_stop (mb_handle m') ≠ None → lh_stop (mb_handle m) ≠ None ∨ is_replacement ev = true) →
  (lh_notified (mb_handle m') = true → lh_stop (mb_handle m') ≠ None) →
  (exited m = true → exited m' = true) →
  member_inv first (evs ++ [ev]) (outs ++ o) m'.
Proof.
  intros [H1 H2 H3 H4 H5 H6 H7] E1 E2 E3 E4 E5 E6 E7 E8 E9 E10 E11. split; try done.
  - rewrite last_joined_snoc. unfold last_joined at 1. rewrite E2. cbn. congruence.
  - intros [Hst|He]%E9; [by apply stop_in_snoc, H4|]. exists ev. split; [apply elem_of_app; right; by left|done].
  - intros r [Hr|Hr]; [destruct E8 as [E8|E8]; rewrite E8 in Hr; simplify_eq; unfold counts_ok; cbn; lia|].
    destruct (exited m') eqn:Hx; [destruct (E6 eq_refl) as [_ Hx2]; unfold renew_joining in Hr; by rewrite Hx2 in Hr|].
    apply H6. right. unfold renew_joining in *. by rewrite E7 in Hr.
  - intros Href Hx. rewrite E4 in Href. assert (exited m = false) as Hxm by (destruct (exited m); [by rewrite E11 in Hx|done]).
    specialize (H7 Href Hxm). rewrite E5 in H7. cbn in H7. unfold renew_joining in *. rewrite E7 by done. rewrite H7. apply orb_true_r.
Qed.

(** One turn of a join sequence, of either task. *)
Lemma inv_turn evs outs m m1 o (main : bool) r a res told :
  member_inv first evs outs m → exited m = false →
  (if main then main_joining m else renew_joining m) = Some r → join_attempt a r = (res, told) → tell_refused told m = (m1, o) →
  lh_stop (mb_handle m1) = lh_stop (mb_handle m) ∧ lh_notified (mb_handle m1) = lh_notified (mb_handle m) ∧ mb_delay m1 = mb_delay m ∧
  mb_main m1 = mb_main m ∧ mb_renewal m1 = mb_renewal m ∧ mb_credential m1 = mb_credential m ∧ omap joined_of o = [] ∧
  match res with
  | inl _ => lh_refused (mb_handle m1) = true → refused_in (if main then renew_joining m else main_joining m) = true
  | inr (r', _) => counts_ok r' ∧ (lh_refused (mb_handle m1) = true → refused_in (Some r') || refused_in (if main then renew_joining m else main_joining m) = true)
  end.
Proof.
  intros [H1 H2 H3 H4 H5 H6 H7] Hx Hr Ha Ht. assert (counts_ok r) as Hc by (apply H6; destruct main; auto).
  pose proof (join_attempt_spec a r Hc) as Hs. rewrite Ha in Hs. apply tell_refused_spec in Ht as [-> Ho].
  split_and!; [destruct told; done..|].
  assert (lh_refused (mb_handle m) = true → refused_in (Some r) || refused_in (if main then renew_joining m else main_joining m) = true) as H7'.
  { intros Href. specialize (H7 Href Hx). destruct main; rewrite Hr in H7; [done|]. by rewrite orb_comm. }
  destruct res as [resp|[r' wait]]; cbn [mb_handle mb_set_handle].
  - destruct Hs as [_ ->]. cbn [refused_in] in H7'. destruct (0 <? rt_refused r); cbn; [done|]. intros Href. by apply H7'.
  - destruct Hs as (Hc' & _ & [->|[-> Hpos]] & Hmono); (split; [done|]); cbn.
    + intros Href. specialize (H7' Href). cbn [refused_in] in H7'. apply orb_true_iff in H7' as [?%Z.ltb_lt|E]; [|rewrite E; apply orb_true_r].
      rewrite (proj2 (Z.ltb_lt _ _)) by auto. done.
    + intros _. by rewrite (proj2 (Z.ltb_lt _ _) Hpos).
Qed.

Lemma inv_same evs outs m ev m' o : member_inv first evs outs m → m' = m → o = [] → member_inv first (evs ++ [ev]) (outs ++ o) m'.
Proof. intros [H1 H2 H3 H4 H5 H6 H7] -> ->. rewrite app_nil_r. split; try done. intros. by apply stop_in_snoc, H4. Qed.

Lemma inv_top evs outs m m' o : member_inv first evs outs m → step m MeTop = (m', o) →
  member_inv first (evs ++ [MeTop]) (outs ++ o) m'.
Proof.
  intros H Hs. pose proof H as [H1 H2 H3 H4 H5 H6 H7]. pose proof (inv_same evs outs m MeTop m' o H) as Hsame. cbn [member_step] in Hs.
  destruct (mb_main m) eqn:Hm; try (injection Hs as <- <-; by apply Hsame).
  destruct (lh_stop (mb_handle m)) as [reason|] eqn:Hst; injection Hs as <- <-;
    apply (member_inv_quiet evs outs m); unfold exited, main_joining; cbn; rewrite ?Hm, ?Hst; try done; auto.
Qed.

Lemma inv_present evs outs m m' o : member_inv first evs outs m → step m MePresent = (m', o) →
  member_inv first (evs ++ [MePresent]) (outs ++ o) m'.
Proof.
  intros H Hs. pose proof H as [H1 H2 H3 H4 H5 H6 H7]. pose proof (inv_same evs outs m MePresent m' o H) as Hsame. cbn [member_step] in Hs.
  destruct (mb_main m) eqn:Hm; try (injection Hs as <- <-; by apply Hsame).
  destruct (lh_refresh (mb_handle m)) as [c|]; injection Hs as <- <-; [|by apply Hsame].
  apply (member_inv_quiet evs outs m); unfold exited, main_joining; cbn; rewrite ?Hm; try done; auto.
Qed.

Lemma inv_session_end evs outs m e lasted m' o : member_inv first evs outs m → step m (MeSessionEnd e lasted) = (m', o) →
  member_inv first (evs ++ [(MeSessionEnd e lasted)]) (outs ++ o) m'.
Proof.
  intros H Hs. pose proof H as [H1 H2 H3 H4 H5 H6 H7]. pose proof (inv_same evs outs m (MeSessionEnd e lasted) m' o H) as Hsame. cbn [member_step] in Hs.
  destruct (mb_main m) eqn:Hm; try (injection Hs as <- <-; by apply Hsame).
  destruct e as [code reason| |]; cbn [session_error] in Hs; [| |destruct (lh_notified (mb_handle m)) eqn:Hno; cbn [negb] in Hs; [|injection Hs as <- <-; by apply Hsame]].
  - destruct (Z.eqb_spec code CLOSE_REPLACED) as [->|]; [|destruct (code =? CLOSE_RECONFIGURED)]; injection Hs as <- <-;
      apply (member_inv_quiet evs outs m); unfold exited, main_joining; cbn; rewrite ?Hm; try done; auto;
      by destruct (lh_stop (mb_handle m)).
  - injection Hs as <- <-. apply (member_inv_quiet evs outs m); unfold exited, main_joining; cbn; rewrite ?Hm; try done; auto.
  - specialize (H5 eq_refl). destruct (lh_stop (mb_handle m)) as [reason|] eqn:Hst; [|done]. injection Hs as <- <-.
    apply (member_inv_quiet evs outs m); unfold exited, main_joining; cbn; rewrite ?Hm, ?Hst; try done; auto.
Qed.

Lemma inv_paused evs outs m m' o : member_inv first evs outs m → step m MePaused = (m', o) →
  member_inv first (evs ++ [MePaused]) (outs ++ o) m'.
Proof.
  intros H Hs. pose proof H as [H1 H2 H3 H4 H5 H6 H7]. pose proof (inv_same evs outs m MePaused m' o H) as Hsame. cbn [member_step] in Hs.
  destruct (mb_main m) as [| |healthy reconf| |] eqn:Hm; try (injection Hs as <- <-; by apply Hsame). cbn in Hs.
  assert (1 ≤ (if healthy || reconf then 1 else Z.min (mb_delay m * 2) 5) ≤ 5) as Hd by (destruct (healthy || reconf); lia).
  destruct (lh_stop (mb_handle m)) as [reason|] eqn:Hst; injection Hs as <- <-;
    apply (member_inv_quiet evs outs m); unfold exited, main_joining; cbn; rewrite ?Hm, ?Hst; try done; auto.
Qed.

Lemma inv_join evs outs m a m' o : member_inv first evs outs m → step m (MeJoin a) = (m', o) →
  member_inv first (evs ++ [(MeJoin a)]) (outs ++ o) m'.
Proof.
  intros H Hs. pose proof H as [H1 H2 H3 H4 H5 H6 H7]. pose proof (inv_same evs outs m (MeJoin a) m' o H) as Hsame. cbn [member_step] in Hs.
  destruct (mb_main m) as [| | |r|] eqn:Hm; try (injection Hs as <- <-; by apply Hsame).
  assert (exited m = false) as Hx by (unfold exited; by rewrite Hm). assert (main_joining m = Some r) as Hj by (unfold main_joining; by rewrite Hm).
  destruct (join_attempt a r) as [res told] eqn:Ha. destruct (tell_refused told m) as [m1 o1] eqn:Ht.
  destruct (inv_turn evs outs m m1 o1 true r a res told H Hx Hj Ha Ht) as (Es & En & Ed & Em & Er & Ec & Eo & Hres).
  assert (renew_joining m1 = renew_joining m) as Erj by (unfold renew_joining; by rewrite Er).
  destruct res as [resp|[r' wait]]; injection Hs as <- <-.
  - split; cbn; rewrite ?Es, ?En, ?Ed; try done.
    + rewrite last_joined_snoc. unfold last_joined at 1. cbn. by rewrite omap_app, Eo.
    + intros. by apply stop_in_snoc, H4.
    + intros r' [?|Hr']; [done|]. apply H6. right. unfold renew_joining in *. cbn in Hr'. by rewrite Er in Hr'.
    + intros Href _. unfold main_joining, renew_joining in *. cbn. rewrite Er. by apply Hres.
  - destruct Hres as [Hc' Hres]. split; cbn; rewrite ?Es, ?En, ?Ed; try done.
    + rewrite last_joined_snoc. unfold last_joined at 1. cbn. rewrite Eo. cbn. congruence.
    + intros. by apply stop_in_snoc, H4.
    + intros r0 [[= <-]|Hr']; [done|]. apply H6. right. unfold renew_joining in *. cbn in Hr'. by rewrite Er in Hr'.
    + intros Href _. unfold main_joining, renew_joining in *. cbn. rewrite Er. by apply Hres.
Qed.

Lemma inv_renew_wake evs outs m m' o : member_inv first evs outs m → step m MeRenewWake = (m', o) →
  member_inv first (evs ++ [MeRenewWake]) (outs ++ o) m'.
Proof.
  intros H Hs. pose proof H as [H1 H2 H3 H4 H5 H6 H7]. pose proof (inv_same evs outs m MeRenewWake m' o H) as Hsame. cbn [member_step] in Hs.
  destruct (mb_renewal m) as [secs| |] eqn:Hm; try (injection Hs as <- <-; by apply Hsame).
  assert (exited m = false) as Hx by (destruct (exited m) eqn:Hx; [by destruct (H3 eq_refl)|done]).
  assert (renew_joining m = None) as Hj by (unfold renew_joining; by rewrite Hm).
  destruct (lh_stop (mb_handle m)) as [reason|] eqn:Hst; injection Hs as <- <-; rewrite app_nil_r; (split; cbn; rewrite ?Hst; try done).
  - intros. by apply stop_in_snoc, H4.
  - intros r [Hr|Hr]; [apply H6; by left|done].
  - intros Href _. specialize (H7 Href Hx). rewrite Hj, orb_comm in H7. rewrite orb_comm. done.
  - unfold exited in *. cbn. by rewrite Hx.
  - intros r [Hr|Hr]; [apply H6; by left|]. injection Hr as <-. unfold counts_ok; cbn; lia.
  - intros Href _. specialize (H7 Href Hx). rewrite Hj, orb_comm in H7. rewrite orb_comm. done.
Qed.

Lemma inv_renew_join evs outs m a m' o : member_inv first evs outs m → step m (MeRenewJoin a) = (m', o) →
  member_inv first (evs ++ [(MeRenewJoin a)]) (outs ++ o) m'.
Proof.
  intros H Hs. pose proof H as [H1 H2 H3 H4 H5 H6 H7]. pose proof (inv_same evs outs m (MeRenewJoin a) m' o H) as Hsame. cbn [member_step] in Hs.
  destruct (mb_renewal m) as [|r|] eqn:Hm; try (injection Hs as <- <-; by apply Hsame).
  assert (exited m = false) as Hx by (destruct (exited m) eqn:Hx; [by destruct (H3 eq_refl)|done]).
  assert (renew_joining m = Some r) as Hj by (unfold renew_joining; by rewrite Hm).
  destruct (join_attempt a r) as [res told] eqn:Ha. destruct (tell_refused told m) as [m1 o1] eqn:Ht.
  destruct (inv_turn evs outs m m1 o1 false r a res told H Hx Hj Ha Ht) as (Es & En & Ed & Em & Er & Ec & Eo & Hres).
  assert (main_joining m1 = main_joining m) as Emj by (unfold main_joining; by rewrite Em).
  assert (exited m1 = false) as Hx1 by (unfold exited; by rewrite Em).
  destruct res as [resp|[r' wait]]; injection Hs as <- <-.
  - split; cbn; rewrite ?Es, ?En, ?Ed; try done.
    + rewrite last_joined_snoc. unfold last_joined at 1. cbn. by rewrite omap_app, Eo.
    + unfold exited in *. cbn. by rewrite Hx1.
    + intros. by apply stop_in_snoc, H4.
    + intros r' [Hr'|?]; [|done]. apply H6. left. by rewrite <- Emj.
    + intros Href _. unfold main_joining in *. cbn. rewrite Em. rewrite orb_false_r. by apply Hres.
  - destruct Hres as [Hc' Hres]. split; cbn; rewrite ?Es, ?En, ?Ed; try done.
    + rewrite last_joined_snoc. unfold last_joined at 1. cbn. rewrite Eo. cbn. congruence.
    + unfold exited in *. cbn. by rewrite Hx1.
    + intros. by apply stop_in_snoc, H4.
    + intros r0 [Hr'|[= <-]]; [|done]. apply H6. left. by rewrite <- Emj.
    + intros Href _. unfold main_joining in *. cbn. rewrite Em, orb_comm. by apply Hres.
Qed.

Lemma inv_replaced evs outs m reason m' o : member_inv first evs outs m → step m (MeReplaced reason) = (m', o) →
  member_inv first (evs ++ [(MeReplaced reason)]) (outs ++ o) m'.
Proof.
  intros H Hs. pose proof H as [H1 H2 H3 H4 H5 H6 H7]. pose proof (inv_same evs outs m (MeReplaced reason) m' o H) as Hsame. cbn [member_step] in Hs.
  injection Hs as <- <-. rewrite app_nil_r. split; cbn; try done.
  - intros Hx. destruct (H3 Hx). by destruct (lh_stop (mb_handle m)).
  - intros _. exists (MeReplaced reason). split; [apply elem_of_app; right; by left|done].
  - by destruct (lh_stop (mb_handle m)).
Qed.

Lemma member_step_inv evs outs m ev m' o : member_inv first evs outs m → step m ev = (m', o) → member_inv first (evs ++ [ev]) (outs ++ o) m'.
Proof. destruct ev; eauto using inv_top, inv_present, inv_session_end, inv_paused, inv_join, inv_renew_wake, inv_renew_join, inv_replaced. Qed.

Lemma member_ran_inv evs m outs : member_ran coordinator first evs m outs → member_inv first evs outs m.
Proof.
  induction 1 as [|evs m outs ev m' o Hr IH Hs]; [|by eapply member_step_inv].
  split; cbn; try done; try lia. intros r [?|?]; done.
Qed.

Lemma told_out told m m1 o : tell_refused told m = (m1, o) →
  lh_stop (mb_handle m1) = lh_stop (mb_handle m) ∧ mb_main m1 = mb_main m ∧ mb_renewal m1 = mb_renewal m ∧ omap joined_of o = [] ∧
  ∀ a c, MoSession a c ∉ o.
Proof. unfold tell_refused. destruct told; intros; simplify_eq/=; split_and!; try done; set_solver. Qed.

Ltac still := split; [done|split; [set_solver|cbn; lia]].

(** Once a replacement is recorded: no session, and no join sequence that was not
    already under way. *)
Lemma stopped_step m ev m' o : lh_stop (mb_handle m) ≠ None → step m ev = (m', o) →
  lh_stop (mb_handle m') ≠ None ∧ (∀ a c, MoSession a c ∉ o) ∧ (length (omap joined_of o) + under_way m' ≤ under_way m)%nat.
Proof.
  intros Hst. destruct (lh_stop (mb_handle m)) as [reason|] eqn:Hs; [|done]. unfold under_way, main_joining, renew_joining.
  destruct ev as [| |e lasted| |a| |a|why]; cbn [member_step]; rewrite ?Hs.
  - destruct (mb_main m) eqn:Hm; intros [= <- <-]; cbn; rewrite ?Hs, ?Hm; still.
  - destruct (mb_main m) eqn:Hm, (lh_refresh (mb_handle m)); intros [= <- <-]; cbn; rewrite ?Hs, ?Hm; still.
  - destruct (mb_main m) eqn:Hm; try (intros [= <- <-]; cbn; rewrite ?Hs, ?Hm; still).
    destruct (match e with SeNotified => _ | _ => _ end); [intros [= <- <-]; rewrite ?Hs, ?Hm; still|].
    destruct (session_error _ e); intros [= <- <-]; cbn; destruct e; cbn; rewrite ?Hs; still.
  - destruct (mb_main m) eqn:Hm; try (intros [= <- <-]; cbn; rewrite ?Hs, ?Hm; still). cbn. rewrite Hs. intros [= <- <-]. cbn. rewrite Hs. still.
  - destruct (mb_main m) eqn:Hm; try (intros [= <- <-]; rewrite Hs, Hm; still).
    destruct (join_attempt a r) as [res told]. destruct (tell_refused told m) as [m1 o1] eqn:Ht.
    destruct (told_out _ _ _ _ Ht) as (E1 & E2 & E3 & E4 & E5). destruct res as [resp|[r' wait]]; intros [= <- <-]; cbn;
      rewrite ?omap_app, ?E4, ?E1, ?Hs, ?E3; (still).
  - destruct (mb_renewal m) eqn:Hm; intros [= <- <-]; cbn; rewrite ?Hs, ?Hm; still.
  - destruct (mb_renewal m) eqn:Hm; try (intros [= <- <-]; rewrite Hs, Hm; still).
    destruct (join_attempt a r) as [res told]. destruct (tell_refused told m) as [m1 o1] eqn:Ht.
    destruct (told_out _ _ _ _ Ht) as (E1 & E2 & E3 & E4 & E5). destruct res as [resp|[r' wait]]; intros [= <- <-]; cbn;
      rewrite ?omap_app, ?E4, ?E1, ?Hs, ?E2; (still).
  - intros [= <- <-]. cbn. rewrite Hs. still.
Qed.

Lemma stopped_run m evs m' outs : lh_stop (mb_handle m) ≠ None → member_run coordinator m evs = (m', outs) →
  (∀ a c, MoSession a c ∉ outs) ∧ (length (omap joined_of outs) ≤ under_way m)%nat.
Proof.
  revert m outs. induction evs as [|ev evs IH]; intros m outs Hst Hrun; cbn in Hrun.
  { injection Hrun as <- <-. split; [set_solver|cbn; lia]. }
  destruct (step m ev) as [m1 o1] eqn:Hs. destruct (member_run coordinator m1 evs) as [m2 o2] eqn:Hr2. injection Hrun as <- <-.
  destruct (stopped_step m ev m1 o1 Hst Hs) as (Hst1 & Ho1 & Hu1). destruct (IH m1 o2 Hst1 Hr2) as [Ho2 Hu2].
  rewrite omap_app, length_app. split; [set_solver|lia].
Qed.

(** *** What the renewal task hands over *)

Lemma member_run_app m evs evs' : member_run coordinator m (evs ++ evs') =
  let '(m1, o1) := member_run coordinator m evs in let '(m2, o2) := member_run coordinator m1 evs' in (m2, o1 ++ o2).
Proof.
  revert m. induction evs as [|ev evs IH]; intros m; cbn; [by destruct (member_run _ _ _)|]. destruct (step m ev) as [m1 o1]. rewrite IH.
  destruct (member_run coordinator m1 evs) as [m2 o2]. destruct (member_run coordinator m2 evs') as [m3 o3]. by rewrite (assoc_L (++)).
Qed.

Lemma renewals_snoc m evs ev : renewals coordinator m (evs ++ [ev]) =
  renewals coordinator m evs ++ option_list (renewed ev (member_run coordinator m evs).1).
Proof.
  revert m. induction evs as [|e evs IH]; intros m; cbn; [by rewrite app_nil_r|]. rewrite IH. destruct (step m e) as [m1 o1]. cbn.
  destruct (member_run coordinator m1 evs) as [m2 o2]. cbn. by rewrite (assoc_L (++)).
Qed.

Lemma told_refresh told m m1 o : tell_refused told m = (m1, o) → lh_refresh (mb_handle m1) = lh_refresh (mb_handle m) ∧ ∀ c, MoRefresh c ∉ o.
Proof. unfold tell_refused. destruct told; intros; simplify_eq/=; split; done || set_solver. Qed.

(** The slot holds what it held, nothing, or what a renewal just brought; only what
    it held is presented. *)
Lemma refresh_step m ev m' o : step m ev = (m', o) →
  match renewed ev m with
  | Some resp => lh_refresh (mb_handle m') = Some (jp_credential resp)
  | None => lh_refresh (mb_handle m') = lh_refresh (mb_handle m) ∨ lh_refresh (mb_handle m') = None
  end ∧ ∀ c, MoRefresh c ∈ o → lh_refresh (mb_handle m) = Some c.
Proof.
  destruct ev as [| |e lasted| |a| |a|why]; cbn [member_step renewed].
  - destruct (mb_main m), (lh_stop (mb_handle m)); intros [= <- <-]; cbn; split; (by auto) || set_solver.
  - destruct (mb_main m), (lh_refresh (mb_handle m)) as [c|] eqn:E; intros [= <- <-]; cbn; rewrite ?E; split; (by auto) || set_solver.
  - destruct (mb_main m); try (intros [= <- <-]; split; (by auto) || set_solver).
    destruct (match e with SeNotified => _ | _ => _ end); [intros [= <- <-]; split; (by auto) || set_solver|].
    destruct (session_error _ e); intros [= <- <-]; destruct e; cbn; split; (by auto) || set_solver.
  - destruct (mb_main m); try (intros [= <- <-]; split; (by auto) || set_solver).
    cbn. destruct (lh_stop (mb_handle m)); intros [= <- <-]; cbn; split; (by auto) || set_solver.
  - destruct (mb_main m); try (intros [= <- <-]; split; (by auto) || set_solver). destruct (join_attempt a r) as [res told].
    destruct (tell_refused told m) as [m1 o1] eqn:Ht. apply told_refresh in Ht as [E Hn].
    destruct res as [?|[? ?]]; intros [= <- <-]; cbn; rewrite E; split; (by auto) || set_solver.
  - destruct (mb_renewal m), (lh_stop (mb_handle m)); intros [= <- <-]; cbn; split; (by auto) || set_solver.
  - destruct (mb_renewal m) as [|r|]; try (destruct a; intros [= <- <-]; split; (by auto) || set_solver).
    destruct (tell_refused (join_attempt a r).2 m) as [m1 o1] eqn:Ht. pose proof (told_refresh _ _ _ _ Ht) as [E Hn].
    destruct a as [resp|e|]; cbn [join_attempt snd] in *; rewrite Ht; try destruct (retry_failed e r) as [r' w]; intros [= <- <-]; cbn; rewrite ?E; split; (by auto) || set_solver.
  - intros [= <- <-]. cbn. split; (by auto) || set_solver.
Qed.

Lemma refresh_ran evs m outs : member_ran coordinator first evs m outs →
  let m0 := member_start coordinator (mkLinkHandle None false None false) first in
  member_run coordinator m0 evs = (m, outs) ∧
  ∀ c, lh_refresh (mb_handle m) = Some c → ∃ r, last (renewals coordinator m0 evs) = Some r ∧ jp_credential r = c.
Proof.
  cbn zeta. induction 1 as [|evs m outs ev m' o Hr [Hrun IH] Hs]; [done|]. split.
  - rewrite member_run_app, Hrun. cbn. rewrite Hs. by rewrite app_nil_r.
  - intros c Hc. rewrite renewals_snoc, Hrun. cbn [fst]. destruct (refresh_step _ _ _ _ Hs) as [Hx _].
    destruct (renewed ev m) as [resp|]; cbn; [rewrite last_snoc; rewrite Hx in Hc; simplify_eq; eauto|]. rewrite app_nil_r.
    destruct Hx as [Hx|Hx]; rewrite Hx in Hc; [by apply IH|done].
Qed.

(** *** A lost session comes back *)

(** While the loop pauses, and while it joins, only this moves it on. *)
Definition idle_pause (ev : MemberEvent) : bool := match ev with MePaused | MeReplaced _ => false | _ => true end.
Definition idle_join (ev : MemberEvent) : bool := match ev with MeJoin (Accepted _) | MeReplaced _ => false | _ => true end.

Definition no_session (o : list MemberOut) : Prop := ∀ a c, MoSession a c ∉ o.

Lemma renew_step_quiet m ev m' o : (match ev with MeRenewWake | MeRenewJoin _ | MePresent => True | _ => False end) → step m ev = (m', o) →
  mb_main m' = mb_main m ∧ lh_stop (mb_handle m') = lh_stop (mb_handle m) ∧ no_session o.
Proof.
  unfold no_session. destruct ev as [| |e lasted| |a| |a|why]; cbn [member_step]; intros Hev; try done.
  - destruct (mb_main m) eqn:Hm, (lh_refresh (mb_handle m)); intros [= <- <-]; cbn; rewrite ?Hm; split_and!; done || set_solver.
  - destruct (mb_renewal m), (lh_stop (mb_handle m)) eqn:Hs; intros [= <- <-]; cbn; rewrite ?Hs; split_and!; done || set_solver.
  - destruct (mb_renewal m); try (intros [= <- <-]; split_and!; done || set_solver). destruct (join_attempt a r) as [res told].
    destruct (tell_refused told m) as [m1 o1] eqn:Ht. destruct (told_out _ _ _ _ Ht) as (E1 & E2 & _ & _ & Hn).
    destruct res as [?|[? ?]]; intros [= <- <-]; cbn; split_and!; done || set_solver.
Qed.

Lemma pause_step m ev m' o h q : mb_main m = MPause h q → lh_stop (mb_handle m) = None → idle_pause ev = true → step m ev = (m', o) →
  mb_main m' = MPause h q ∧ lh_stop (mb_handle m') = None ∧ no_session o.
Proof.
  intros Hm Hst Hi Hs. pose proof (renew_step_quiet m ev m' o) as Hq. destruct ev as [| |e lasted| |a| |a|why]; try done;
    first [by destruct (Hq I Hs) as (-> & -> & ?)|cbn [member_step] in Hs; rewrite Hm in Hs; injection Hs as <- <-; split_and!; done || (unfold no_session; set_solver)].
Qed.

Lemma idle_join_step m ev m' o r : mb_main m = MJoin r → lh_stop (mb_handle m) = None → idle_join ev = true → step m ev = (m', o) →
  (∃ r', mb_main m' = MJoin r') ∧ lh_stop (mb_handle m') = None ∧ no_session o.
Proof.
  intros Hm Hst Hi Hs. pose proof (renew_step_quiet m ev m' o) as Hq. destruct ev as [| |e lasted| |a| |a|why]; try done;
    try (destruct (Hq I Hs) as (-> & -> & ?); by eauto);
    cbn [member_step] in Hs; rewrite Hm in Hs; try (injection Hs as <- <-; split_and!; [by eauto|done|unfold no_session; set_solver]).
  destruct (tell_refused (join_attempt a r).2 m) as [m1 o1] eqn:Ht. destruct (told_out _ _ _ _ Ht) as (E1 & E2 & _ & _ & Hn).
  destruct a as [?|e|]; [done|..]; cbn [join_attempt snd] in Hs, Ht; rewrite Ht in Hs; try destruct (retry_failed e r) as [r' w]; injection Hs as <- <-; cbn; (split_and!; [by eauto|congruence|unfold no_session; set_solver]).
Qed.

Lemma pause_run evs m h q : mb_main m = MPause h q → lh_stop (mb_handle m) = None → Forall (λ ev, idle_pause ev = true) evs →
  mb_main (member_run coordinator m evs).1 = MPause h q ∧ lh_stop (mb_handle (member_run coordinator m evs).1) = None ∧ no_session (member_run coordinator m evs).2.
Proof.
  revert m. induction evs as [|ev evs IH]; intros m Hm Hst Hf; cbn; [split_and!; done || (unfold no_session; set_solver)|].
  apply Forall_cons in Hf as [Hev Hf]. destruct (step m ev) as [m1 o1] eqn:Hs. destruct (pause_step _ _ _ _ _ _ Hm Hst Hev Hs) as (H1 & H2 & H3).
  specialize (IH m1 H1 H2 Hf). destruct (member_run coordinator m1 evs) as [m2 o2]. destruct IH as (? & ? & ?). split_and!; [done..|].
  unfold no_session in *. set_solver.
Qed.

Lemma join_run evs m r : mb_main m = MJoin r → lh_stop (mb_handle m) = None → Forall (λ ev, idle_join ev = true) evs →
  (∃ r', mb_main (member_run coordinator m evs).1 = MJoin r') ∧ lh_stop (mb_handle (member_run coordinator m evs).1) = None ∧ no_session (member_run coordinator m evs).2.
Proof.
  revert m r. induction evs as [|ev evs IH]; intros m r Hm Hst Hf; cbn; [split_and!; [by eauto|done|unfold no_session; set_solver]|].
  apply Forall_cons in Hf as [Hev Hf]. destruct (step m ev) as [m1 o1] eqn:Hs. destruct (idle_join_step _ _ _ _ _ Hm Hst Hev Hs) as ([r' H1] & H2 & H3).
  specialize (IH m1 r' H1 H2 Hf). destruct (member_run coordinator m1 evs) as [m2 o2]. destruct IH as (? & ? & ?). split_and!; [done..|].
  unfold no_session in *. set_solver.
Qed.

(** An accepted join, and the top of the loop. *)
Lemma accepted_opens m r resp : mb_main m = MJoin r → lh_stop (mb_handle m) = None →
  ∃ pre addr, (member_run coordinator m [MeJoin (Accepted resp); MeTop]).2 = pre ++ [MoJoined resp; MoSession addr (jp_credential resp)] ∧ no_session pre.
Proof.
  intros Hm Hst. cbn. rewrite Hm. cbn. destruct (tell_refused _ m) as [m1 o1] eqn:Ht. destruct (told_out _ _ _ _ Ht) as (E1 & _ & _ & _ & Hn).
  cbn. rewrite E1, Hst. cbn. rewrite <- (assoc_L (++)). cbn. eexists (MoJoinSent :: o1), _. split; [done|]. unfold no_session. set_solver.
Qed.

(** The session ends for any reason but a replacement; whatever comes between,
    unless another replacement does, the next accepted join opens the next one. *)
Lemma lost_session_back m e lasted before during resp : mb_main m = MSession → lh_stop (mb_handle m) = None →
  e ≠ SeNotified → is_replacement (MeSessionEnd e lasted) = false →
  Forall (λ ev, idle_pause ev = true) before → Forall (λ ev, idle_join ev = true) during →
  ∃ pre addr, (member_run coordinator m (MeSessionEnd e lasted :: before ++ MePaused :: during ++ [MeJoin (Accepted resp); MeTop])).2 =
    pre ++ [MoJoined resp; MoSession addr (jp_credential resp)] ∧ no_session pre.
Proof.
  intros Hm Hst He Hnr Hb Hd. assert (∃ h q m1, step m (MeSessionEnd e lasted) = (m1, []) ∧ mb_main m1 = MPause h q ∧ lh_stop (mb_handle m1) = None) as (h & q & m1 & Hs & Hm1 & Hst1).
  { cbn [member_step]. rewrite Hm. destruct e as [code reason| |]; [| |done]; cbn in Hnr |- *; [rewrite Hnr; destruct (code =? CLOSE_RECONFIGURED)|]; do 3 eexists; (split; [reflexivity|]); (split; [reflexivity|exact Hst]). }
  cbn [member_run]. rewrite Hs, member_run_app. destruct (pause_run before m1 h q Hm1 Hst1 Hb) as (Hm2 & Hst2 & Hn2).
  destruct (member_run coordinator m1 before) as [m2 o2]. cbn [fst snd] in *. cbn [member_run].
  assert (∃ m3, step m2 MePaused = (m3, []) ∧ mb_main m3 = MJoin retry_default ∧ lh_stop (mb_handle m3) = None) as (m3 & Hs3 & Hm3 & Hst3)
    by (cbn [member_step]; rewrite Hm2; cbn; rewrite Hst2; eauto).
  rewrite Hs3, member_run_app. destruct (join_run during m3 _ Hm3 Hst3 Hd) as ([r' Hm4] & Hst4 & Hn4).
  destruct (member_run coordinator m3 during) as [m4 o4]. cbn [fst snd] in *. destruct (accepted_opens m4 r' resp Hm4 Hst4) as (pre & addr & E & Hn).
  destruct (member_run coordinator m4 _) as [m5 o5]. cbn [snd] in *. subst o5. exists (o2 ++ o4 ++ pre), addr. cbn. split; [by rewrite !(assoc_L (++))|].
  unfold no_session in *. set_solver.
Qed.

Lemma session_credential m ev m' o a c : step m ev = (m', o) → MoSession a c ∈ o → c = mb_credential m.
Proof.
  destruct ev as [| |e lasted| |at_| |at_|why]; cbn [member_step].
  1: destruct (mb_main m), (lh_stop (mb_handle m)); intros [= <- <-]; set_solver.
  1: destruct (mb_main m), (lh_refresh (mb_handle m)); intros [= <- <-]; set_solver.
  1-2: repeat case_match; intros; simplify_eq; set_solver.
  2: destruct (mb_renewal m), (lh_stop (mb_handle m)); intros [= <- <-]; set_solver.
  3: intros [= <- <-]; set_solver.
  - destruct (mb_main m); try (intros [= <- <-]; set_solver). destruct (join_attempt at_ r) as [res told].
    destruct (tell_refused told m) as [m1 o1] eqn:Ht. destruct (told_out _ _ _ _ Ht) as (_ & _ & _ & _ & Hn).
    destruct res as [?|[? ?]]; intros [= <- <-]; set_solver.
  - destruct (mb_renewal m); try (intros [= <- <-]; set_solver). destruct (join_attempt at_ r) as [res told].
    destruct (tell_refused told m) as [m1 o1] eqn:Ht. destruct (told_out _ _ _ _ Ht) as (_ & _ & _ & _ & Hn).
    destruct res as [?|[? ?]]; intros [= <- <-]; set_solver.
Qed.
End member_inv.


Module MemberExample.
#[export] Instance lib : CredLib := CredExample.lib.
Definition response (credential : string) : JoinResponse :=
  mkJoinResponse credential "net" Client "u" [] 10 "alice" 1 None None None None [] None None 0 [] 1350 10 "stream" 4 4433 5.
Definition first : JoinResponse := response "c0".
Definition url : string := "https://coord.example:8443".

Lemma control_addrs : control_addr url 4433 = Ok "coord.example:4433"%string ∧
  control_addr "https://[2001:db8::1]:8443/x" 4433 = Ok "[2001:db8::1]:4433"%string ∧
  control_addr "http://coord" 1 = Err JeBadUrl ∧ parse_url "https://coord.example" = Ok ("coord.example"%string, 443).
Proof. vm_compute. done. Qed.

(** A replacement reported while a join is being retried does not stop the retries:
    the attempt after it is sent, and accepted, before the loop ends. *)
Definition start : Member := member_start url (mkLinkHandle None false None false) first.
Definition lost : list MemberEvent := [MeTop; MeSessionEnd SeLost 40; MePaused; MeJoin (Failed JeConnect)].
Lemma replaced_joins_again :
  let m := (member_run url start lost).1 in
  let '(m1, o1) := member_step url m (MeReplaced "taken over") in
  let '(m2, o2) := member_run url m1 [MeJoin (Accepted (response "c1")); MeTop] in
  o2 = [MoJoinSent; MoJoined (response "c1")] ∧ mb_main m2 = MExit "taken over".
Proof. vm_compute. done. Qed.

(** The first retry of a transient failure comes after two seconds. *)
Lemma first_wait : (retry_failed JeConnect retry_default).2 = 2.
Proof. reflexivity. Qed.

Definition after : Member := (member_run url start [MeTop]).1.
Lemma ran : member_ran url first [MeTop] after [MoSession "coord.example:4433" "c0"].
Proof. apply (mr_step url first [] start [] MeTop after); [constructor|vm_compute; reflexivity]. Qed.
End MemberExample.

#[local] Existing Instance MemberExample.lib.

