(* ===== verification/Resolver.v ===== *)
(** * The relay address cache (crates/nqvpn-client/src/client.rs, [relay_ips])

    Under route-all the relays' addresses are the hosts to keep off the tunnel,
    and name resolution is one of the things the tunnel captures. Lookups run in
    the background: [relay_ips] reads the cache and says which lookups it starts,
    [lookup_done] is the end of one. Times are seconds. *)

From S2P Require Import Prelude Ordered Ipnet.

Definition RELAY_ADDR_TTL : Z := 3600.
Definition RELAY_ADDR_RETRY_MIN : Z := 5.
Definition RELAY_ADDR_RETRY_MAX : Z := 300.

Record RelayAddr := mkRelayAddr { ra_ips : list IpAddr; ra_due : Z; ra_failures : Z; ra_in_flight : bool }.

Notation RelayCache := (gmap string RelayAddr).

Record RelayIps := mkRelayIps { ri_cache : RelayCache; ri_out : list IpAddr; ri_resolving : bool; ri_spawned : list string }.

Definition relay_entry_new (now : Z) : RelayAddr := mkRelayAddr [] now 0 false.

(** One target; without a runtime ([try_current] fails) nothing is started. *)
Definition visit_target (now : Z) (runtime : bool) (r : RelayIps) (addr : string) : RelayIps :=
  let e := default (relay_entry_new now) (ri_cache r !! addr) in
  let out := ri_out r ++ ra_ips e in
  let resolving := ri_resolving r || (bool_decide (ra_ips e = []) && (ra_failures e =? 0)) in
  if ra_in_flight e || (now <? ra_due e) || negb runtime then mkRelayIps (<[addr := e]> (ri_cache r)) out resolving (ri_spawned r)
  else mkRelayIps (<[addr := mkRelayAddr (ra_ips e) (ra_due e) (ra_failures e) true]> (ri_cache r)) out resolving (ri_spawned r ++ [addr]).

(** [targets] are the relays' addresses in the view, and the forwarder's. *)
Definition relay_ips (cache : RelayCache) (targets : list string) (now : Z) (runtime : bool) : RelayIps :=
  foldl (visit_target now runtime) (mkRelayIps (filter (λ p : string * RelayAddr, p.1 ∈ targets) cache) [] false []) targets.

(** [RETRY_MIN.saturating_mul(1 << (failures.min(16) - 1)).min(RETRY_MAX)] *)
Definition lookup_backoff (failures : Z) : Z :=
  Z.min (RELAY_ADDR_RETRY_MIN * 2 ^ Z.max 0 (Z.min failures 16 - 1)) RELAY_ADDR_RETRY_MAX.

(** [sort] and [dedup]. *)
Definition sorted_ips (ips : list IpAddr) : list IpAddr := bs_iter (list_to_set ips : gset IpAddr).

(** The cache and whether to poke the view. *)
Definition lookup_done (cache : RelayCache) (addr : string) (got : Result (list IpAddr) string) (now : Z) : RelayCache * bool :=
  match cache !! addr with
  | None => (cache, false)
  | Some e =>
      match got with
      | Ok (ip :: ips) =>
          let ips := sorted_ips (ip :: ips) in
          (<[addr := mkRelayAddr ips (now + RELAY_ADDR_TTL) 0 false]> cache, negb (bool_decide (ra_ips e = ips)))
      | _ =>
          let failures := sat_add 32 (ra_failures e) 1 in
          (<[addr := mkRelayAddr (ra_ips e) (now + lookup_backoff failures) failures false]> cache, false)
      end
  end.

(** ** What a run of the cache keeps *)

Inductive CacheOp : Type :=
| OpIps (targets : list string) (now : Z) (runtime : bool)
| OpDone (addr : string) (got : Result (list IpAddr) string) (now : Z).

Definition cache_step (cache : RelayCache) (op : CacheOp) : RelayCache :=
  match op with
  | OpIps targets now runtime => ri_cache (relay_ips cache targets now runtime)
  | OpDone addr got now => (lookup_done cache addr got now).1
  end.

(** The addresses of the last lookup of [addr] that gave any. *)
Definition last_good (addr : string) (ips : list IpAddr) (op : CacheOp) : list IpAddr :=
  match op with
  | OpDone a (Ok (ip :: l)) _ => if String.eqb a addr then sorted_ips (ip :: l) else ips
  | _ => ips
  end.

Definition still_listed (addr : string) (op : CacheOp) : Prop :=
  match op with OpIps targets _ _ => addr ∈ targets | OpDone _ _ _ => True end.

Lemma visit_entry now runtime r a addr : 
  (ra_ips <$> ri_cache (visit_target now runtime r a) !! addr) =
    if String.eqb a addr then Some (default [] (ra_ips <$> ri_cache r !! addr)) else ra_ips <$> ri_cache r !! addr.
Proof.
  unfold visit_target; cbv zeta. destruct (String.eqb_spec a addr) as [->|Hne].
  - destruct (_ || negb runtime); cbn; rewrite lookup_insert_eq; by destruct (ri_cache r !! addr).
  - destruct (_ || negb runtime); cbn; by rewrite lookup_insert_ne.
Qed.

Lemma visit_out now runtime r a : ri_out (visit_target now runtime r a) = ri_out r ++ default [] (ra_ips <$> ri_cache r !! a).
Proof. unfold visit_target; cbv zeta. destruct (_ || negb runtime); cbn; by destruct (ri_cache r !! a). Qed.

(** What the pass returns for a target is what the cache held for it. *)
Lemma visit_all now runtime targets r addr ips : ra_ips <$> ri_cache r !! addr = Some ips →
  let r' := foldl (visit_target now runtime) r targets in
  ra_ips <$> ri_cache r' !! addr = Some ips ∧ (∀ ip, ip ∈ ri_out r → ip ∈ ri_out r') ∧ (addr ∈ targets → ∀ ip, ip ∈ ips → ip ∈ ri_out r').
Proof.
  revert r. induction targets as [|a l IH]; intros r Hr; cbn; [split_and!; [done..|by intros []%not_elem_of_nil]|].
  destruct (IH (visit_target now runtime r a)) as (H1 & H2 & H3).
  { rewrite visit_entry, Hr. by destruct (String.eqb a addr). }
  rewrite visit_out in H2. setoid_rewrite elem_of_app in H2. split_and!; [done|auto|].
  intros [->|Hin]%elem_of_cons ip Hip; [|auto]. apply H2. right. by rewrite Hr.
Qed.

Lemma step_keeps cache op addr ips : still_listed addr op → ra_ips <$> cache !! addr = Some ips →
  ra_ips <$> cache_step cache op !! addr = Some (last_good addr ips op).
Proof.
  destruct op as [targets now runtime|a got now]; cbn.
  - intros Hin He. apply visit_all. cbn. apply fmap_Some in He as (e & He & ->). rewrite (map_lookup_filter_Some_2 _ _ _ e); [done|done|done].
  - intros _ He. unfold lookup_done. destruct (cache !! a) as [e|] eqn:Ea.
    2:{ assert (a ≠ addr) as Hne by (intros ->; by rewrite Ea in He). cbn. rewrite (proj2 (String.eqb_neq _ _) Hne). by destruct got as [[|ip l]|]. }
    destruct (String.eqb_spec a addr) as [->|Hne]; destruct got as [[|ip l]|]; cbn; rewrite ?lookup_insert_eq, ?lookup_insert_ne by done; try done;
      by rewrite Ea in He.
Qed.

Lemma sorted_ips_nonempty ip l : sorted_ips (ip :: l) ≠ [].
Proof. intros Hn. assert (ip ∈ sorted_ips (ip :: l)) as Hin by (apply elem_of_bs_iter, elem_of_list_to_set; by left). rewrite Hn in Hin. by apply not_elem_of_nil in Hin. Qed.

(** A relay's addresses, once resolved, are never given up while the relay is
    in the view. However reconciliations, successful, failed and empty lookups
    interleave, the cache holds the addresses of the last lookup that gave any,
    so a resolver that stops answering leaves them in place, and every
    reconciliation hands all of them out to be kept off the tunnel; a failed
    lookup is tried again after 5 to 300 seconds, a good one after an hour. *)
Theorem resolved_kept cache ops addr ips :
  ra_ips <$> cache !! addr = Some ips → Forall (still_listed addr) ops →
  let cache' := foldl cache_step cache ops in
  let held := foldl (last_good addr) ips ops in
  ra_ips <$> cache' !! addr = Some held ∧ (ips ≠ [] → held ≠ []) ∧
  (∀ targets now runtime, addr ∈ targets → ∀ ip, ip ∈ held → ip ∈ ri_out (relay_ips cache' targets now runtime)) ∧
  (∀ got now, ∃ e, (lookup_done cache' addr got now).1 !! addr = Some e ∧
     match got with
     | Ok (_ :: _) => ra_due e = now + 3600
     | _ => now + 5 ≤ ra_due e ≤ now + 300
     end).
Proof.
  intros He Ho cache' held. assert (ra_ips <$> cache' !! addr = Some held) as Hc.
  { unfold cache', held. clear cache' held. revert cache ips He. induction Ho as [|op ops Hop _ IH]; intros cache ips He; [done|]. cbn. apply IH. by apply step_keeps. }
  split; [done|]. split_and!.
  - unfold held. clear -ops. revert ips. induction ops as [|op ops IH]; intros ips Hi; [done|]. cbn. apply IH.
    destruct op as [|a [[|ip l]|]]; cbn; try done. destruct (String.eqb a addr); [apply sorted_ips_nonempty|done].
  - intros targets now runtime Hin ip Hip. eapply visit_all; [|done|exact Hip]. cbn.
    apply fmap_Some in Hc as (e & Hl & Hh). rewrite (map_lookup_filter_Some_2 _ _ _ e); [by rewrite Hh|done|done].
  - intros got now. apply fmap_Some in Hc as (e & Hl & _). unfold lookup_done. rewrite Hl.
    assert (∀ f, 5 ≤ lookup_backoff f ≤ 300) as Hb.
    { intros f. unfold lookup_backoff, RELAY_ADDR_RETRY_MIN, RELAY_ADDR_RETRY_MAX. pose proof (Z.pow_pos_nonneg 2 (Z.max 0 (Z.min f 16 - 1))). lia. }
    destruct got as [[|ip l]|]; cbn; rewrite lookup_insert_eq; eexists; (split; [done|]); cbn; try done; specialize (Hb (sat_add 32 (ra_failures e) 1)); lia.
Qed.

Module ResolverExample.
Definition relay : string := "relay.example:4433".
Definition ip (n : Z) : IpAddr := V4 (203 * 2 ^ 24 + n).
Definition cache : RelayCache := {[relay := mkRelayAddr [ip 1] 100 0 false]}.
(** A refresh that fails, one that answers, one with no addresses. *)
Definition ops : list CacheOp :=
  [OpIps [relay] 100 true; OpDone relay (Err "timed out"%string) 110; OpIps [relay; "other:1"%string] 115 true;
   OpDone relay (Ok [ip 3; ip 2; ip 3]) 116; OpDone relay (Ok []) 4000].
End ResolverExample.

Lemma resolved_kept_witness :
  ra_ips <$> foldl cache_step ResolverExample.cache ResolverExample.ops !! ResolverExample.relay = Some [ResolverExample.ip 2; ResolverExample.ip 3].
Proof.
  assert (Forall (still_listed ResolverExample.relay) ResolverExample.ops) as Ho by (repeat constructor).
  pose proof (resolved_kept ResolverExample.cache ResolverExample.ops ResolverExample.relay [ResolverExample.ip 1] eq_refl Ho) as [Hx _].
  etransitivity; [exact Hx|]. by_decide.
Defined.
