(* ===== verification/Client.v ===== *)
(** * The client (crates/nqvpn-client/src/client.rs)

    An endpoint, a relay uplink and a control link wired together: what a view
    does to peers, routes and the uplink, how a relay is chosen and kept, and how
    a join's facts are applied. The connected prefixes of the host, its resolvers,
    the probes and the dials are arguments; what the client does outside itself is
    a list of [ClientOut]s. What is only logged is left out. *)

From S2P Require Import Prelude Ordered Ipnet Text Frame Control Replay Seal Credential Config Registry Leases Directory Ipam NetState RateLimit Join.
From S2P Require Import Flow Lpm Peers Sessions Engine Pins Routes Member Resolver.

Definition CLIENT_CLOSE_EVICTED : Z := 9.
Definition CLIENT_CLOSE_STALE_LOGIN : Z := 11.

(** ** Data *)

Record Attached := mkAttached { at_relay_id : Z; at_name : string; at_addr : string; at_cert_fp : string; at_dialed : string }.

Record RelayVia := mkRelayVia { rv_relay : string; rv_addr : string }.

(** [FromStr]: [<relay>=<host:port>]. *)
Definition relay_via_parse (s : string) : Result RelayVia string :=
  match split_once 61 s with
  | None => Err "expected <relay-name>=<host:port>"%string
  | Some (relay, addr) =>
      let relay := trim relay in
      let addr := trim addr in
      if String.eqb relay "" then Err "missing the relay name before '='"%string else
      match rsplit_once 58 addr with
      | Some (host, port) =>
          if negb (String.eqb host "") && match parse_u16 port with Some _ => true | None => false end
          then Ok (mkRelayVia relay addr) else Err "is not host:port"%string
      | None => Err "is not host:port"%string
      end
  end.

(** What leaves the client: device changes, session closes, wake-ups of the
    control link and of the reconciler, lookups started, credentials presented
    to the relay. *)
Inductive ClientOut : Type :=
| CoTunMtu (mtu : Z) | CoTunAddrs (hosts : list IpNet) | CoClose (session code : Z) (why : string)
| CoKick | CoPoke | CoLookup (addr : string) | CoRefresh (session : Z) (credential : string).

Definition entry_of (r : RelayEndpoint) : RelayEntry := mkRelayEntry (re_relay_id r) (re_name r) (re_addr r) (re_cert_fp r).

Section client.
Context `{O : IpNetOps, T : TrieOps, B : Base64, N : NoiseLib} {K : Type} `{RP : RouteProgrammer K}.

Record ClientState := mkClientState {
  ct_node_id : Z;
  ct_engine : Engine;
  ct_session : option Z;
  ct_attached : option Attached;
  ct_view : Snapshot;
  ct_credential : string;
  ct_routes : RouteSet (K := K);
  ct_mine : list IpNet;
  ct_preferred_relay : option string;
  ct_relay_via : option RelayVia;
  ct_underlay : list IpAddr;
  ct_exit_chosen : gmap bool Z;
  ct_relay_addrs : gmap string RelayAddr;
  ct_route_policy : RoutePolicy;
  ct_route_all : bool;
  ct_via : option string;
  ct_stop : option string;
  ct_refused : bool;
}.

Definition with_engine (e : Engine) (c : ClientState) : ClientState :=
  mkClientState (ct_node_id c) e (ct_session c) (ct_attached c) (ct_view c) (ct_credential c) (ct_routes c) (ct_mine c) (ct_preferred_relay c)
    (ct_relay_via c) (ct_underlay c) (ct_exit_chosen c) (ct_relay_addrs c) (ct_route_policy c) (ct_route_all c) (ct_via c) (ct_stop c) (ct_refused c).
Definition with_routes (r : RouteSet (K := K)) (c : ClientState) : ClientState :=
  mkClientState (ct_node_id c) (ct_engine c) (ct_session c) (ct_attached c) (ct_view c) (ct_credential c) r (ct_mine c) (ct_preferred_relay c)
    (ct_relay_via c) (ct_underlay c) (ct_exit_chosen c) (ct_relay_addrs c) (ct_route_policy c) (ct_route_all c) (ct_via c) (ct_stop c) (ct_refused c).
Definition with_exits (x : gmap bool Z) (c : ClientState) : ClientState :=
  mkClientState (ct_node_id c) (ct_engine c) (ct_session c) (ct_attached c) (ct_view c) (ct_credential c) (ct_routes c) (ct_mine c) (ct_preferred_relay c)
    (ct_relay_via c) (ct_underlay c) x (ct_relay_addrs c) (ct_route_policy c) (ct_route_all c) (ct_via c) (ct_stop c) (ct_refused c).
Definition with_relay_addrs (m : gmap string RelayAddr) (c : ClientState) : ClientState :=
  mkClientState (ct_node_id c) (ct_engine c) (ct_session c) (ct_attached c) (ct_view c) (ct_credential c) (ct_routes c) (ct_mine c) (ct_preferred_relay c)
    (ct_relay_via c) (ct_underlay c) (ct_exit_chosen c) m (ct_route_policy c) (ct_route_all c) (ct_via c) (ct_stop c) (ct_refused c).
(** [RelayUplink::set] *)
Definition uplink_set (s : option Z) (a : option Attached) (c : ClientState) : ClientState :=
  mkClientState (ct_node_id c) (ct_engine c) s a (ct_view c) (ct_credential c) (ct_routes c) (ct_mine c) (ct_preferred_relay c)
    (ct_relay_via c) (ct_underlay c) (ct_exit_chosen c) (ct_relay_addrs c) (ct_route_policy c) (ct_route_all c) (ct_via c) (ct_stop c) (ct_refused c).
Definition with_facts (credential : string) (mine : list IpNet) (preferred : option string) (c : ClientState) : ClientState :=
  mkClientState (ct_node_id c) (ct_engine c) (ct_session c) (ct_attached c) (ct_view c) credential (ct_routes c) mine preferred
    (ct_relay_via c) (ct_underlay c) (ct_exit_chosen c) (ct_relay_addrs c) (ct_route_policy c) (ct_route_all c) (ct_via c) (ct_stop c) (ct_refused c).
Definition with_policy (p : RoutePolicy) (c : ClientState) : ClientState :=
  mkClientState (ct_node_id c) (ct_engine c) (ct_session c) (ct_attached c) (ct_view c) (ct_credential c) (ct_routes c) (ct_mine c) (ct_preferred_relay c)
    (ct_relay_via c) (ct_underlay c) (ct_exit_chosen c) (ct_relay_addrs c) p (ct_route_all c) (ct_via c) (ct_stop c) (ct_refused c).
(** [LinkHandle::stop]: recorded once. *)
Definition link_replaced (reason : string) (c : ClientState) : ClientState :=
  mkClientState (ct_node_id c) (ct_engine c) (ct_session c) (ct_attached c) (ct_view c) (ct_credential c) (ct_routes c) (ct_mine c) (ct_preferred_relay c)
    (ct_relay_via c) (ct_underlay c) (ct_exit_chosen c) (ct_relay_addrs c) (ct_route_policy c) (ct_route_all c) (ct_via c)
    (match ct_stop c with Some r => Some r | None => Some reason end) (ct_refused c).

(** [Client::new]: the hosts of the join, and a peer table that owns them. *)
Definition hosts_of (r : JoinResponse) : list IpNet :=
  match jp_ip4 r with Some ip => [Net4 ip 32] | None => [] end ++ match jp_ip6 r with Some ip => [Net6 ip 128] | None => [] end.

Definition client_new (joined : JoinResponse) (keys : StaticKeys) (k : K) (preferred_relay : option string) (route_all : bool) (via : option string) : ClientState :=
  let hosts := hosts_of joined in
  let table := set_mine hosts [] (peers_new (jp_node_id joined)) in
  let engine := engine_new (jp_node_id joined) (jp_network_uuid joined) keys table (jp_mtu joined) (Z.max (jp_lanes joined) 1) in
  mkClientState (jp_node_id joined) engine None None (mkSnapshot 0 [] [] [] (mkNetworkMtu 0 "") [] []) (jp_credential joined) (route_set_new k) hosts
    (or_else preferred_relay (jp_preferred_relay joined)) None [] ∅ ∅ policy_default route_all via None false.

(** ** The route sink *)

Definition sink_reconcile (rs : RouteSet (K := K)) (wanted mine : list IpNet) : RouteSet (K := K) * Result unit string :=
  match reconcile_via_kernel rs wanted mine with
  | (rs, Ok true) => (rs, Ok tt)
  | (rs, Ok false) => route_reconcile rs wanted mine
  | (rs, Err e) => (rs, Err e)
  end.

Definition sink_reassert (rs : RouteSet (K := K)) : RouteSet (K := K) * Result unit string :=
  match reassert_via_kernel rs with
  | (rs, Ok true) => (rs, Ok tt)
  | (rs, Ok false) => route_reassert rs
  | (rs, Err e) => (rs, Err e)
  end.

Definition sink_pin (rs : RouteSet (K := K)) (ips : list IpAddr) : RouteSet (K := K) * Result (list IpAddr) string :=
  let '(k, r) := pin_underlay (rs_programmer rs) ips in (mkRouteSet k (rs_installed rs) (rs_last rs) (rs_bound_to rs), r).

(** ** Applying a view *)

Definition apply_mtu (c : ClientState) (mtu : Z) : ClientState * list ClientOut :=
  if (mtu <? 1280) || (mtu =? en_mtu (ct_engine c)) then (c, []) else (with_engine (set_mtu mtu (ct_engine c)) c, [CoTunMtu mtu]).

Definition resolve_targets (c : ClientState) (view : Snapshot) : list string :=
  (re_addr <$> s_relays view) ++ match ct_relay_via c with Some v => [rv_addr v] | None => [] end.

Definition plan_default : RouteAllPlan := mkRouteAllPlan [] [] [].

(** What is armed: nothing as long as the first lookups run and nothing was. *)
Definition armed_plan (c : ClientState) (view : Snapshot) (underlay to_pin pinned : list IpAddr) (resolving : bool) : RouteAllPlan :=
  let plan := route_all_plan view (ct_via c) (at_relay_id <$> ct_attached c) underlay to_pin pinned in
  if resolving && bool_decide (ct_exit_chosen c = ∅) then plan_default else plan.

Definition assert_exit (t : PeerTable) (x : bool * Z) : PeerTable := set_default_exit t (default_net x.1) x.2.

Definition note_exits (chosen : gmap bool Z) (exits : list (bool * Z)) : gmap bool Z :=
  foldl (λ m (x : bool * Z), <[x.1 := x.2]> m) (filter (λ p : bool * Z, p.1 ∈ exits.*1) chosen) exits.

(** The route-all part: the client with its exits asserted, and the catch-alls. *)
Definition arm_route_all (c : ClientState) (view : Snapshot) (underlay resolvers : list IpAddr) (local : list IpNet) (resolving : bool)
    : ClientState * list IpNet :=
  let to_pin := underlay_to_pin (underlay ++ resolvers) local in
  let '(rs, r) := sink_pin (ct_routes c) to_pin in
  let pinned := match r with Ok p => p | Err _ => [] end in
  let plan := armed_plan c view underlay to_pin pinned resolving in
  let e := en_set_peers (foldl assert_exit (en_peers (ct_engine c)) (rap_exits plan)) (ct_engine c) in
  (with_exits (note_exits (ct_exit_chosen c) (rap_exits plan)) (with_engine e (with_routes rs c)), rap_nets plan).

(** Why the relay held is no longer the published one. *)
Definition uplink_stale (view : Snapshot) (a : Attached) : option string :=
  match List.find (λ r, re_relay_id r =? at_relay_id a) (s_relays view) with
  | Some r => if negb (String.eqb (re_addr r) (at_addr a)) || negb (String.eqb (re_cert_fp r) (at_cert_fp a))
              then Some "relay re-registered elsewhere"%string else None
  | None => match s_members view with [] => None | _ :: _ => Some "relay left the fleet"%string end
  end.

Definition close_stale (c : ClientState) (view : Snapshot) : list ClientOut :=
  match ct_attached c ≫= uplink_stale view, ct_session c with
  | Some why, Some s => [CoClose s CLIENT_CLOSE_EVICTED why]
  | _, _ => []
  end.

(** The routes and the uplink, once peers and MTU are applied. *)
Definition reconcile_routes (c : ClientState) (view : Snapshot) (local : list IpNet) (resolvers : list IpAddr) (now : Z) (runtime : bool)
    : ClientState * list ClientOut :=
  let wanted := wanted_routes_with view (ct_node_id c) (ct_mine c) (ct_route_policy c) in
  let ri := relay_ips (ct_relay_addrs c) (resolve_targets c view) now runtime in
  let c := with_relay_addrs (ri_cache ri) c in
  let underlay := ct_underlay c ++ ri_out ri in
  let keep := (exclude_local wanted local underlay).1 in
  let '(c, nets) := if ct_route_all c then arm_route_all c view underlay resolvers local (ri_resolving ri) else (c, []) in
  let '(rs, _) := sink_reconcile (ct_routes c) (keep ++ nets) (ct_mine c) in
  let c := with_routes rs c in
  (c, (CoLookup <$> ri_spawned ri) ++ close_stale c view).

Definition reconcile_view (c : ClientState) (view : Snapshot) (local : list IpNet) (resolvers : list IpAddr) (now : Z) (runtime : bool)
    : ClientState * list ClientOut :=
  let c := with_engine (sync_peers (ct_engine c) (s_members view)) c in
  let '(c, o1) := apply_mtu c (nm_mtu (s_mtu view)) in
  let '(c, o2) := reconcile_routes c view local resolvers now runtime in (c, o1 ++ o2).

(** ** Hooks and setters *)

Definition set_underlay (addrs : list IpAddr) (c : ClientState) : ClientState :=
  mkClientState (ct_node_id c) (ct_engine c) (ct_session c) (ct_attached c) (ct_view c) (ct_credential c) (ct_routes c) (ct_mine c) (ct_preferred_relay c)
    (ct_relay_via c) addrs (ct_exit_chosen c) (ct_relay_addrs c) (ct_route_policy c) (ct_route_all c) (ct_via c) (ct_stop c) (ct_refused c).
Definition set_relay_via (via : option RelayVia) (c : ClientState) : ClientState :=
  mkClientState (ct_node_id c) (ct_engine c) (ct_session c) (ct_attached c) (ct_view c) (ct_credential c) (ct_routes c) (ct_mine c) (ct_preferred_relay c)
    via (ct_underlay c) (ct_exit_chosen c) (ct_relay_addrs c) (ct_route_policy c) (ct_route_all c) (ct_via c) (ct_stop c) (ct_refused c).
Definition set_view (v : Snapshot) (c : ClientState) : ClientState :=
  mkClientState (ct_node_id c) (ct_engine c) (ct_session c) (ct_attached c) v (ct_credential c) (ct_routes c) (ct_mine c) (ct_preferred_relay c)
    (ct_relay_via c) (ct_underlay c) (ct_exit_chosen c) (ct_relay_addrs c) (ct_route_policy c) (ct_route_all c) (ct_via c) (ct_stop c) (ct_refused c).
(** [LinkHandle::set_refused] *)
Definition set_refused (b : bool) (c : ClientState) : ClientState :=
  mkClientState (ct_node_id c) (ct_engine c) (ct_session c) (ct_attached c) (ct_view c) (ct_credential c) (ct_routes c) (ct_mine c) (ct_preferred_relay c)
    (ct_relay_via c) (ct_underlay c) (ct_exit_chosen c) (ct_relay_addrs c) (ct_route_policy c) (ct_route_all c) (ct_via c) (ct_stop c) b.

Definition set_route_policy (p : RoutePolicy) (c : ClientState) : ClientState * list ClientOut :=
  (with_engine (en_set_peers (set_policy p (en_peers (ct_engine c))) (ct_engine c)) (with_policy p c), [CoPoke]).

(** [MemberHooks::refused] *)
Definition hook_refused (refused : bool) (c : ClientState) : ClientState * list ClientOut :=
  if refused then
    (uplink_set None None c, match ct_session c with Some s => [CoClose s CLIENT_CLOSE_EVICTED "refused by the coordinator"] | None => [] end)
  else (c, []).

(** The close a changed preference asks for: a local forwarder outranks it. *)
Definition preference_close (c : ClientState) (preferred : option string) : list ClientOut :=
  match ct_attached c, (match ct_relay_via c with Some _ => None | None => preferred end), ct_session c with
  | Some a, Some w, Some s => if String.eqb (at_name a) w then [] else [CoClose s CLIENT_CLOSE_EVICTED "preferred relay changed"]
  | _, _, _ => []
  end.

Definition apply_facts (c : ClientState) (r : JoinResponse) (local : list IpNet) (resolvers : list IpAddr) (now : Z) (runtime : bool)
    : ClientState * list ClientOut :=
  let hosts := hosts_of r in
  let changed := negb (bool_decide (ct_mine c = hosts)) in
  let '(c, o1) :=
    if changed then
      (with_facts (ct_credential c) hosts (ct_preferred_relay c)
         (with_engine (en_set_peers (set_mine hosts [] (en_peers (ct_engine c))) (ct_engine c)) c), [CoTunAddrs hosts])
    else (c, []) in
  let moved := negb (bool_decide (ct_preferred_relay c = jp_preferred_relay r)) in
  let o2 := if moved then preference_close c (jp_preferred_relay r) else [] in
  let c := with_facts (ct_credential c) (ct_mine c) (jp_preferred_relay r) c in
  let '(c, o3) := if changed then reconcile_view c (ct_view c) local resolvers now runtime else (c, []) in
  (c, o1 ++ o2 ++ o3 ++ if changed then [CoKick] else []).

(** [MemberHooks::joined] *)
Definition hook_joined (c : ClientState) (r : JoinResponse) (local : list IpNet) (resolvers : list IpAddr) (now : Z) (runtime : bool)
    : ClientState * list ClientOut :=
  let c := with_facts (jp_credential r) (ct_mine c) (ct_preferred_relay c) c in
  let o1 := match ct_session c with Some s => [CoRefresh s (jp_credential r)] | None => [] end in
  let '(c, o2) := apply_facts c r local resolvers now runtime in (c, o1 ++ o2).

(** [LocalFacts::heartbeat]; [usable] is what the channel reports. *)
Definition client_heartbeat (c : ClientState) (usable : option Z) : Heartbeat :=
  mkHeartbeat 0 0 [] [] (at_relay_id <$> ct_attached c)
    (match ct_session c with Some _ => match usable with Some m => m mod 2 ^ 16 | None => 0 end | None => 0 end) None.

(** ** Choosing a relay

    [probe] answers a single probe with a round-trip time; [completed] are the
    answers of the parallel round, in the order they came in. *)

Definition via_entry (c : ClientState) : option RelayEntry :=
  via ← ct_relay_via c;
  r ← List.find (λ r, String.eqb (re_name r) (rv_relay via)) (s_relays (ct_view c));
  Some (mkRelayEntry (re_relay_id r) (re_name r) (rv_addr via) (re_cert_fp r)).

(** [min_by_key]: the first of the least. *)
Definition least (l : list (Z * RelayEntry)) : option RelayEntry :=
  snd <$> foldl (λ best x, match best with Some b => if x.1 <? b.1 then Some x else Some b | None => Some x end) None l.

Definition answers (probe : RelayEntry → option Z) (e : RelayEntry) : bool := match probe e with Some _ => true | None => false end.

Definition choose_relay (fleet : list RelayEntry) (preferred : option string) (probe : RelayEntry → option Z) (completed : list (Z * RelayEntry)) : option RelayEntry :=
  match (name ← preferred; List.find (λ r, String.eqb (rel_name r) name) fleet) with
  | Some e => if answers probe e then Some e else least completed
  | None => least completed
  end.

Definition fleet_of (v : Snapshot) : list RelayEntry := entry_of <$> s_relays v.

Definition pick_relay (c : ClientState) (probe : RelayEntry → option Z) (completed : list (Z * RelayEntry)) : option RelayEntry :=
  match via_entry c with
  | Some e => if answers probe e then Some e else choose_relay (fleet_of (ct_view c)) (ct_preferred_relay c) probe completed
  | None => choose_relay (fleet_of (ct_view c)) (ct_preferred_relay c) probe completed
  end.

(** ** The uplink loop ([run_uplink])

    One turn up to the dial, the answer to the dial, and the end of a session. A
    dial remembers the fleet and the preferences it was made from. *)

Record Dial := mkDial { dl_entry : RelayEntry; dl_fleet : list RelayEntry; dl_via : option RelayVia; dl_preferred : option string }.

Inductive Loop : Type :=
| LoopTurn (failures : Z) (wait : Z)
| LoopDialing (d : Dial) (failures : Z)
| LoopHolding (session : Z) (entry : RelayEntry) (away : bool) (failures : Z)
| LoopStopped.

(** [has_claims]: the credential held can be read. *)
Definition uplink_turn (c : ClientState) (failures : Z) (probe : RelayEntry → option Z) (completed : list (Z * RelayEntry)) (has_claims : bool) : Loop :=
  if bool_decide (is_Some (ct_stop c)) then LoopStopped else
  if ct_refused c then LoopTurn failures 2 else
  match fleet_of (ct_view c) with
  | [] => LoopTurn failures 2
  | _ =>
      match pick_relay c probe completed with
      | None => let f := sat_add 32 failures 1 in LoopTurn f (retry_delay false f)
      | Some e => if has_claims then LoopDialing (mkDial e (fleet_of (ct_view c)) (ct_relay_via c) (ct_preferred_relay c)) failures else LoopTurn failures 2
      end
  end.

(** A dial is refused with a close code and a reason, or fails otherwise. *)
Inductive DialError : Type := DialRefused (code : Z) (reason : string) | DialFailed.

Definition published_addr (d : Dial) : string :=
  match List.find (λ r, rel_relay_id r =? rel_relay_id (dl_entry d)) (dl_fleet d) with Some r => rel_addr r | None => rel_addr (dl_entry d) end.

Definition attached_by (d : Dial) : Attached :=
  let e := dl_entry d in mkAttached (rel_relay_id e) (rel_name e) (published_addr d) (rel_cert_fp e) (rel_addr e).

Definition is_away (d : Dial) : bool :=
  match dl_via d with
  | Some _ => String.eqb (published_addr d) (rel_addr (dl_entry d))
  | None => match dl_preferred d with Some p => negb (String.eqb p (rel_name (dl_entry d))) | None => false end
  end.

Definition uplink_dialed (c : ClientState) (d : Dial) (failures : Z) (r : Result Z DialError) : ClientState * Loop * list ClientOut :=
  match r with
  | Ok s => (uplink_set (Some s) (Some (attached_by d)) c, LoopHolding s (dl_entry d) (is_away d) failures, [CoKick])
  | Err (DialRefused code reason) =>
      if code =? CLIENT_CLOSE_STALE_LOGIN then (link_replaced reason c, LoopStopped, [])
      else let f := sat_add 32 failures 1 in (c, LoopTurn f (retry_delay false f), [])
  | Err DialFailed => let f := sat_add 32 failures 1 in (c, LoopTurn f (retry_delay false f), [])
  end.

(** [closed]: the relay ended it; [held]: for how many seconds it was held. *)
Definition uplink_ended (c : ClientState) (failures held : Z) (closed : bool) (reason : option (Z * string)) : ClientState * Loop * list ClientOut :=
  let c := uplink_set None None c in
  match reason with
  | Some (code, why) =>
      if code =? CLIENT_CLOSE_STALE_LOGIN then (link_replaced why c, LoopStopped, [CoKick]) else
      let f := if 30 <=? held then 0 else sat_add 32 failures 1 in
      (c, LoopTurn f (if closed && (held <? 5) then retry_delay false f else 0), [CoKick])
  | None =>
      let f := if 30 <=? held then 0 else sat_add 32 failures 1 in
      (c, LoopTurn f (if closed && (held <? 5) then retry_delay false f else 0), [CoKick])
  end.

(** [watch_for_return], one check: the session to close, if where the client
    would rather be answers again. *)
Definition return_entry (c : ClientState) : option RelayEntry :=
  match ct_relay_via c with
  | Some _ => via_entry c
  | None => name ← ct_preferred_relay c; List.find (λ r, String.eqb (rel_name r) name) (fleet_of (ct_view c))
  end.

Definition watch_for_return (c : ClientState) (session : Z) (probe : RelayEntry → option Z) : list ClientOut :=
  match return_entry c with
  | Some e => if answers probe e then [CoClose session CLIENT_CLOSE_EVICTED "moving to the preferred relay"] else []
  | None => []
  end.
End client.

(** ** A view, applied *)

Section applied.
Context `{O : IpNetOps, OL : !IpNetLaws O, T : TrieOps, LT : !TrieLaws O T, B : Base64, N : NoiseLib} {K : Type} `{RP : RouteProgrammer K, RL : !RouteLaws K}.

Lemma sync_peers_frame e ms : en_peers (sync_peers e ms) = replace_all (en_peers e) ms ∧ en_mtu (sync_peers e ms) = en_mtu e ∧
  en_my_node_id (sync_peers e ms) = en_my_node_id e.
Proof.
  unfold sync_peers, sync_peers_view, sync_peers_sessions. by destruct (sync_view _ _).
Qed.

(** The exit of a family among those asserted; the node itself is never one. *)
Definition exit_for (me : Z) (exits : list (bool * Z)) (v6 : bool) : option Z :=
  match List.find (λ x, Bool.eqb x.1 v6) exits with Some (_, node) => if node =? me then None else Some node | None => None end.

Lemma default_net_if v6 : default_net v6 = if v6 then Net6 0 0 else Net4 0 0.
Proof. by destruct v6. Qed.

Lemma assert_exit_frame t x : pt_my_node_id (assert_exit t x) = pt_my_node_id t.
Proof. unfold assert_exit, set_default_exit. by destruct (_ =? _). Qed.

Lemma assert_exit_entries t x v6 : x.1 ≠ v6 → lpm_entries (pt_lpm (assert_exit t x)) !! default_net v6 = lpm_entries (pt_lpm t) !! default_net v6.
Proof.
  intros Hne. unfold assert_exit, set_default_exit. destruct (_ =? _); [done|]. cbn. rewrite !default_net_if.
  rewrite lpm_insert_entries by apply default_wf. destruct (default_clean (x.1)) as [_ ->].
  apply lookup_insert_ne. destruct (x.1), v6; done.
Qed.

Lemma assert_exit_wf t x : lpm_wf (pt_lpm t) → lpm_wf (pt_lpm (assert_exit t x)).
Proof.
  intros Hw. unfold assert_exit, set_default_exit. destruct (_ =? _); [done|]. cbn. rewrite default_net_if. apply lpm_insert_wf; [apply default_wf|done].
Qed.

Lemma assert_exit_owner t x ip : lpm_wf (pt_lpm t) → wf_addr ip → lpm_entries (pt_lpm t) !! default_net x.1 = None →
  owner_of (assert_exit t x) ip = match owner_of t ip with Some o => Some o | None => exit_for (pt_my_node_id t) [x] (ip_is_ipv6 ip) end.
Proof.
  intros Hw Hi Hno. unfold assert_exit, set_default_exit, exit_for. destruct x as [v6 node]. cbn in *. unfold ip_is_ipv6.
  destruct (Z.eqb_spec node (pt_my_node_id t)) as [Hme|Hme].
  { destruct (owner_of t ip); [done|]. destruct (Bool.eqb v6 _); [|done]. by rewrite Hme, Z.eqb_refl. }
  unfold owner_of. cbn. rewrite default_net_if in *. rewrite lpm_default_lookup by done. apply Z.eqb_neq in Hme.
  destruct (lpm_lookup (pt_lpm t) ip); [done|]. destruct v6, (ip_is_ipv4 ip); cbn; by rewrite ?Hme.
Qed.

Lemma assert_exits_owner l t ip : lpm_wf (pt_lpm t) → wf_addr ip → NoDup l.*1 → (∀ v6, v6 ∈ l.*1 → lpm_entries (pt_lpm t) !! default_net v6 = None) →
  owner_of (foldl assert_exit t l) ip = match owner_of t ip with Some o => Some o | None => exit_for (pt_my_node_id t) l (ip_is_ipv6 ip) end.
Proof.
  revert t. induction l as [|x l IH]; intros t Hw Hi Hn Hno; cbn; [by destruct (owner_of t ip)|].
  cbn in Hn. apply NoDup_cons in Hn as [Hx Hn]. rewrite IH; [|by apply assert_exit_wf|done|done|].
  2:{ intros v6 Hv. rewrite assert_exit_entries; [apply Hno; by right|]. by intros <-. }
  rewrite assert_exit_frame, assert_exit_owner; [|done|done|apply Hno; by left]. destruct (owner_of t ip); [done|].
  unfold exit_for. cbn. destruct x as [v6 node]. cbn. destruct (Bool.eqb_spec v6 (ip_is_ipv6 ip)) as [->|]; [|done].
  destruct (node =? pt_my_node_id t); [|done]. destruct (List.find _ l) as [[w n]|] eqn:Ef; [|done].
  apply List.find_some in Ef as [Hin Hb]. cbn in Hb. apply eqb_prop in Hb as ->. destruct Hx. apply list_elem_of_fmap. exists (ip_is_ipv6 ip, n).
  split; [done|]. by apply list_elem_of_In.
Qed.

Lemma plan_families view via attached transport to_pin pinned : NoDup (rap_exits (route_all_plan view via attached transport to_pin pinned)).*1.
Proof.
  unfold route_all_plan. cbn [foldl]. rewrite !plan_family_spec. cbn.
  set (a := family_active _ _ _ _ _ _ false). set (b := family_active _ _ _ _ _ _ true).
  destruct a, b, (exit_gateway view via attached false), (exit_gateway view via attached true); cbn; repeat constructor; set_solver.
Qed.

Definition find_exit (exits : list (bool * Z)) (v6 : bool) : option Z := snd <$> List.find (λ x, Bool.eqb x.1 v6) exits.

Lemma find_exit_fold (m : gmap bool Z) exits v6 : NoDup exits.*1 →
  foldl (λ m (x : bool * Z), <[x.1 := x.2]> m) m exits !! v6 = match find_exit exits v6 with Some n => Some n | None => m !! v6 end.
Proof.
  revert m. induction exits as [|[w n] l IH]; intros m Hn; [done|]. cbn in Hn. apply NoDup_cons in Hn as [Hw Hn].
  cbn. rewrite IH by done. unfold find_exit. cbn. destruct (Bool.eqb_spec w v6) as [->|Hne]; cbn; [|by rewrite lookup_insert_ne].
  destruct (List.find _ l) as [[v k]|] eqn:Ef; cbn; [|by rewrite lookup_insert_eq]. destruct Hw. apply List.find_some in Ef as [Hin Hb].
  cbn in Hb. apply eqb_prop in Hb as ->. apply list_elem_of_fmap. exists (v6, k). by rewrite list_elem_of_In.
Qed.

Lemma note_exits_spec chosen exits v6 : NoDup exits.*1 → note_exits chosen exits !! v6 = find_exit exits v6.
Proof.
  intros Hn. unfold note_exits. rewrite find_exit_fold by done. destruct (find_exit exits v6) as [n|] eqn:Ef; [done|].
  apply map_lookup_filter_None. right. intros n _ Hin. cbn in Hin. apply list_elem_of_fmap in Hin as ([w k] & Hw & Hin). cbn in Hw. subst w.
  unfold find_exit in Ef. apply fmap_None in Ef. eapply List.find_none in Ef; [|by apply list_elem_of_In]. cbn in Ef. by rewrite eqb_reflx in Ef.
Qed.

Section view.
Context (c : ClientState (K := K)) (view : Snapshot) (local : list IpNet) (resolvers : list IpAddr) (now : Z) (runtime : bool).

(** The pieces of a reconciliation, from the state it starts in. *)
Definition view_ips : RelayIps := relay_ips (ct_relay_addrs c) (resolve_targets c view) now runtime.
Definition view_underlay : list IpAddr := ct_underlay c ++ ri_out view_ips.
Definition view_keep : list IpNet := (exclude_local (wanted_routes_with view (ct_node_id c) (ct_mine c) (ct_route_policy c)) local view_underlay).1.
Definition view_to_pin : list IpAddr := underlay_to_pin (view_underlay ++ resolvers) local.
Definition view_pin : K * Result (list IpAddr) string := pin_underlay (rs_programmer (ct_routes c)) view_to_pin.
Definition view_plan : RouteAllPlan :=
  if ct_route_all c then
    armed_plan c view view_underlay view_to_pin (match view_pin.2 with Ok p => p | Err _ => [] end) (ri_resolving view_ips)
  else plan_default.
Definition view_programmer : K := if ct_route_all c then view_pin.1 else rs_programmer (ct_routes c).

Definition view_routes : RouteSet (K := K) :=
  mkRouteSet view_programmer (rs_installed (ct_routes c)) (rs_last (ct_routes c)) (rs_bound_to (ct_routes c)).

(** What a reconciliation leaves of the client, given what it started from. *)
Definition view_done (peers : PeerTable) (c' : ClientState (K := K)) (out : list ClientOut) : Prop :=
  en_peers (ct_engine c') = foldl assert_exit peers (rap_exits view_plan) ∧
  ct_routes c' = (sink_reconcile view_routes (view_keep ++ rap_nets view_plan) (ct_mine c)).1 ∧
  ct_exit_chosen c' = (if ct_route_all c then note_exits (ct_exit_chosen c) (rap_exits view_plan) else ct_exit_chosen c) ∧
  ct_session c' = ct_session c ∧ ct_attached c' = ct_attached c ∧ ct_stop c' = ct_stop c ∧ ct_refused c' = ct_refused c ∧
  (∀ s code why, CoClose s code why ∈ out ↔ CoClose s code why ∈ close_stale c view).

Lemma reconcile_routes_done :
  let '(c', out) := reconcile_routes c view local resolvers now runtime in view_done (en_peers (ct_engine c)) c' out.
Proof.
  unfold reconcile_routes, arm_route_all, sink_pin. fold view_ips. cbv zeta.
  assert (∀ s code why rest, CoClose s code why ∈ (CoLookup <$> ri_spawned view_ips) ++ rest ↔ CoClose s code why ∈ rest) as Hout.
  { intros s code why rest. rewrite elem_of_app. split; [|auto]. by intros [(x & ? & _)%list_elem_of_fmap|?]. }
  destruct (ct_route_all c) eqn:Er; cbn [ct_route_all with_relay_addrs ct_routes ct_underlay]; rewrite Er.
  - change (underlay_to_pin _ local) with view_to_pin. change (pin_underlay _ view_to_pin) with view_pin. destruct view_pin as [k r] eqn:Ep.
    cbn [ct_routes with_exits with_engine with_routes rs_installed]. fold view_underlay.
    destruct (sink_reconcile _ _ _) as [rs err] eqn:Es. unfold view_done, view_routes, view_plan, view_programmer, view_keep. rewrite Er, Ep. cbn [fst snd].
    cbn [ct_mine with_exits with_engine with_routes with_relay_addrs rap_nets] in Es.
    split_and!; try done. exact (eq_sym (f_equal fst Es)).
  - fold view_underlay. destruct (sink_reconcile _ _ _) as [rs err] eqn:Es. unfold view_done, view_routes, view_plan, view_programmer, view_keep. rewrite Er.
    split_and!; try done. rewrite <- (f_equal fst Es : _ = rs). cbn. by destruct (ct_routes c).
Qed.
End view.

Lemma reconcile_view_done c view local resolvers now runtime :
  let '(c', out) := reconcile_view c view local resolvers now runtime in
  view_done c view local resolvers now runtime (replace_all (en_peers (ct_engine c)) (s_members view)) c' out.
Proof.
  unfold reconcile_view, apply_mtu. destruct (sync_peers_frame (ct_engine c) (s_members view)) as (Hp & _). rewrite <- Hp.
  destruct (_ || _).
  - pose proof (reconcile_routes_done (with_engine (sync_peers (ct_engine c) (s_members view)) c) view local resolvers now runtime) as Hd.
    destruct (reconcile_routes _ _ _ _ _ _) as [c' out]. exact Hd.
  - pose proof (reconcile_routes_done (with_engine (set_mtu (nm_mtu (s_mtu view)) (sync_peers (ct_engine c) (s_members view)))
      (with_engine (sync_peers (ct_engine c) (s_members view)) c)) view local resolvers now runtime) as Hd.
    cbn [ct_engine with_engine]. destruct (reconcile_routes _ _ _ _ _ _) as [c' out]. destruct Hd as (H1 & H2 & H3 & H4 & H5 & H6 & H7 & H8).
    split_and!; try done. intros s code why. rewrite elem_of_app, list_elem_of_singleton. cbn in H8. specialize (H8 s code why). naive_solver.
Qed.

Lemma sink_kernel rs w m present : list_via_dev (rs_programmer rs) = Some present → (sink_reconcile rs w m).1 = (reconcile_via_kernel rs w m).1.
Proof.
  intros Hl. unfold sink_reconcile. destruct (reconcile_via_kernel rs w m) as [rs' r] eqn:E. destruct r as [[]|]; [done| |done].
  unfold reconcile_via_kernel in E. rewrite Hl in E. destruct (call_all add_via_tun _ _) as [k errs]. destruct errs as [|[? ?] ?]; cbn in E; congruence.
Qed.

(** C3: Applying a view, with a kernel table that can be read, makes the two routing
    tables agree. Afterwards a packet's
    owner is the one the view publishes, and an address nobody owns goes to the
    exit of its family exactly if route-all armed that family; the exits
    recorded are the armed ones; every wanted route and every catch-all of an
    armed family is in the kernel's table unless its own add failed, and nothing
    else is there but the node's own routes and what could not be removed. As
    long as the relays' first lookups run and nothing was armed before, nothing
    is armed; and the session is closed exactly when the relay it is held with
    is published elsewhere or left the fleet. *)
Theorem view_applied (c : ClientState (K := K)) view local resolvers now runtime present :
  NoDup (pi_node_id <$> s_members view) → Forall clean_peer (s_members view) →
  (∀ ips, list_via_dev (pin_underlay (rs_programmer (ct_routes c)) ips).1 = Some present) →
  list_via_dev (rs_programmer (ct_routes c)) = Some present → Forall (λ n, net_trunc n = n) present →
  let '(c', out) := reconcile_view c view local resolvers now runtime in
  let plan := view_plan c view local resolvers now runtime in
  let asked := view_keep c view local now runtime ++ rap_nets plan in
  let wanted := trunc_set asked in
  let started := view_routes c view local resolvers now runtime in
  let before := kernel (rs_programmer (ct_routes c)) in
  (∀ ip, wf_addr ip → owner_of (en_peers (ct_engine c')) ip =
     match owner_of (replace_all (en_peers (ct_engine c)) (s_members view)) ip with
     | Some o => Some o
     | None => exit_for (pt_my_node_id (en_peers (ct_engine c))) (rap_exits plan) (ip_is_ipv6 ip)
     end) ∧
  (ct_route_all c = true → ∀ v6, ct_exit_chosen c' !! v6 = find_exit (rap_exits plan) v6) ∧
  (∀ n, n ∈ wanted → n ∈ kernel (rs_programmer (ct_routes c')) ∨ add_fails started asked (ct_mine c) n) ∧
  (∀ n, n ∈ kernel (rs_programmer (ct_routes c')) → n ∈ wanted ∨ n ∈ before ∧ (n ∈ trunc_set (ct_mine c) ∨ remove_fails started asked (ct_mine c) n)) ∧
  (ri_resolving (view_ips c view now runtime) = true → ct_exit_chosen c = ∅ → rap_nets plan = [] ∧ rap_exits plan = []) ∧
  (∀ s code why, CoClose s code why ∈ out ↔
     ct_session c = Some s ∧ code = CLIENT_CLOSE_EVICTED ∧ ∃ a, ct_attached c = Some a ∧ uplink_stale view a = Some why).
Proof.
  intros Hn Hc Hpin Hdev Ht. pose proof (reconcile_view_done c view local resolvers now runtime) as Hd.
  destruct (reconcile_view c view local resolvers now runtime) as [c' out]. destruct Hd as (Dp & Dr & De & _ & _ & _ & _ & Dc).
  set (plan := view_plan c view local resolvers now runtime) in *. cbn zeta.
  assert (NoDup (rap_exits plan).*1) as Hfam.
  { unfold plan, view_plan, armed_plan. destruct (ct_route_all c); [|constructor]. destruct (_ && _); [constructor|apply plan_families]. }
  assert (list_via_dev (view_programmer c view local resolvers now runtime) = Some present ∧
    kernel (view_programmer c view local resolvers now runtime) = kernel (rs_programmer (ct_routes c))) as (Hpd & Hpk).
  { unfold view_programmer, view_pin. destruct (ct_route_all c); [|by split_and!].
    split_and!; [apply Hpin|apply kernel_pin]. }
  rewrite sink_kernel with (present := present) in Dr by done.
  match type of Dr with _ = (reconcile_via_kernel ?rs ?w ?m).1 => pose proof (kernel_after rs w m present Hpd Ht) as Hk end.
  destruct (reconcile_via_kernel _ _ _) as [rs' r]. cbn [fst] in Dr. subst rs'. destruct Hk as (K1 & _ & _ & K2 & _). cbn [rs_programmer view_routes] in K1, K2. rewrite Hpk in K2.
  split_and!.
  - intros ip Hi. rewrite Dp. rewrite assert_exits_owner; [|by apply (replace_all_no_default _ _ true)|done|done|].
    + by destruct (replace_all_frame (en_peers (ct_engine c)) (s_members view)) as (-> & _).
    + intros v6 _. rewrite default_net_if. by apply replace_all_no_default.
  - intros Hra v6. rewrite De, Hra. by apply note_exits_spec.
  - intros n Hw. destruct (K1 n Hw) as [?|[? _]]; auto.
  - intros n Hw. destruct (K2 n Hw) as [?|[[? ?]%elem_of_intersection|[? ?]]]; auto.
  - intros Hr He. unfold plan, view_plan, armed_plan. destruct (ct_route_all c); [|done]. rewrite Hr, (bool_decide_eq_true_2 _ He). done.
  - intros s code why. rewrite Dc. unfold close_stale. destruct (ct_attached c) as [a|]; cbn; [|split; [by intros []%not_elem_of_nil|by intros (_ & _ & a & ? & _)]].
    destruct (uplink_stale view a) as [w|] eqn:Es; [|split; [by intros []%not_elem_of_nil|intros (_ & _ & a' & [= <-] & ?); congruence]].
    destruct (ct_session c) as [x|]; [rewrite list_elem_of_singleton|split; [by intros []%not_elem_of_nil|by intros (? & _)]].
    split; [intros [= -> -> ->]; eauto|]. intros ([= ->] & -> & a' & [= <-] & Ha). congruence.
Qed.
End applied.

(** ** The uplink *)

Section uplink.
Context `{O : IpNetOps, OL : !IpNetLaws O, T : TrieOps, LT : !TrieLaws O T, B : Base64, N : NoiseLib} {K : Type} `{RP : RouteProgrammer K, RL : !RouteLaws K}.

Definition preferred_entry (c : ClientState (K := K)) : option RelayEntry :=
  name ← ct_preferred_relay c; List.find (λ r, String.eqb (rel_name r) name) (fleet_of (ct_view c)).

Lemma least_spec l : match least l with Some e => ∃ rtt, (rtt, e) ∈ l ∧ ∀ x, x ∈ l → rtt ≤ x.1 | None => l = [] end.
Proof.
  unfold least. set (step := λ (best : option (Z * RelayEntry)) x, _).
  assert (match foldl step None l with Some b => b ∈ l ∧ ∀ x, x ∈ l → b.1 ≤ x.1 | None => l = [] end) as Hf.
  { induction l as [|x l IH] using rev_ind; [done|]. rewrite foldl_snoc.
    assert (∀ y, y ∈ l ++ [x] ↔ y ∈ l ∨ y = x) as Ha by (intros y; by rewrite elem_of_app, list_elem_of_singleton).
    destruct (foldl step None l) as [b|]; cbn.
    - destruct IH as [Hin Hmin]. destruct (Z.ltb_spec x.1 b.1); (split; [apply Ha; auto|]); intros y [Hy| ->]%Ha; try specialize (Hmin y Hy); lia.
    - subst l. split; [apply Ha; auto|]. intros y [[]%not_elem_of_nil| ->]%Ha. lia. }
  destruct (foldl step None l) as [[rtt e]|]; cbn; [|done]. destruct Hf. eauto.
Qed.

(** Where the client attaches, by preference. *)
Definition chosen_by_rank (c : ClientState (K := K)) (probe : RelayEntry → option Z) (completed : list (Z * RelayEntry)) (e : RelayEntry) : Prop :=
  let up o := match o with Some x => answers probe x | None => false end in
  (up (via_entry c) = true → via_entry c = Some e) ∧
  (up (via_entry c) = false → up (preferred_entry c) = true → preferred_entry c = Some e) ∧
  (up (via_entry c) = false → up (preferred_entry c) = false → ∃ rtt, (rtt, e) ∈ completed ∧ ∀ x, x ∈ completed → rtt ≤ x.1).

Lemma pick_relay_rank (c : ClientState (K := K)) probe completed e : pick_relay c probe completed = Some e → chosen_by_rank c probe completed e.
Proof.
  unfold pick_relay, choose_relay, chosen_by_rank. fold (preferred_entry c). pose proof (least_spec completed) as Hl.
  destruct (via_entry c) as [v|]; [destruct (answers probe v)|].
  all: try (intros [= ->]; naive_solver).
  all: destruct (preferred_entry c) as [p|]; [destruct (answers probe p)|].
  all: try (intros [= ->]; naive_solver).
  all: intros Hx; rewrite Hx in Hl; split_and!; done || naive_solver.
Qed.

(** A relay of the view, possibly at another address. *)
Definition from_view (v : Snapshot) (e : RelayEntry) : Prop :=
  ∃ r, r ∈ s_relays v ∧ rel_relay_id e = re_relay_id r ∧ rel_name e = re_name r ∧ rel_cert_fp e = re_cert_fp r.

Lemma fleet_from_view v e : e ∈ fleet_of v → from_view v e.
Proof. unfold fleet_of. intros (r & -> & Hr)%list_elem_of_fmap. by exists r. Qed.

Lemma pick_from_view (c : ClientState (K := K)) probe completed e : (∀ x, x ∈ completed → x.2 ∈ fleet_of (ct_view c)) →
  pick_relay c probe completed = Some e → from_view (ct_view c) e.
Proof.
  intros Hc. unfold pick_relay, choose_relay. fold (preferred_entry c). pose proof (least_spec completed) as Hl.
  assert (∀ x, least completed = Some x → from_view (ct_view c) x) as Hleast.
  { intros x Hx. rewrite Hx in Hl. destruct Hl as (rtt & Hin & _). apply fleet_from_view. exact (Hc _ Hin). }
  assert (∀ x, preferred_entry c = Some x → from_view (ct_view c) x) as Hpref.
  { intros x (name & _ & [Hin _]%List.find_some)%bind_Some. by apply fleet_from_view, list_elem_of_In. }
  assert (∀ x, via_entry c = Some x → from_view (ct_view c) x) as Hvia.
  { intros x (via & _ & (r & [Hin _]%List.find_some & [= <-])%bind_Some)%bind_Some. exists r. by rewrite list_elem_of_In. }
  destruct (via_entry c) as [v|]; [destruct (answers probe v); [intros [= <-]; auto|]|];
    (destruct (preferred_entry c) as [p|]; [destruct (answers probe p); [intros [= <-]; auto|]|]; auto).
Qed.

(** The uplink goes to the best relay there is, and the attachment is current.
    A relay is dialed only while the member is neither replaced nor refused: the
    configured forwarder if it answers, else the preferred relay if it answers,
    else the relay of the least round-trip time; and once the dial succeeds,
    through a forwarder or not, the attachment is of a relay the view it was
    chosen from publishes under that name, address and certificate, so applying
    that view again does not drop it. *)
Theorem relay_attached (c : ClientState (K := K)) failures probe completed claims d f s :
  NoDup (re_relay_id <$> s_relays (ct_view c)) → (∀ x, x ∈ completed → x.2 ∈ fleet_of (ct_view c)) →
  uplink_turn c failures probe completed claims = LoopDialing d f →
  ct_stop c = None ∧ ct_refused c = false ∧ chosen_by_rank c probe completed (dl_entry d) ∧
  let '(c', l, _) := uplink_dialed c d f (Ok s) in
  ∃ a r, ct_session c' = Some s ∧ ct_attached c' = Some a ∧ r ∈ s_relays (ct_view c) ∧
    at_relay_id a = re_relay_id r ∧ at_name a = re_name r ∧ at_addr a = re_addr r ∧ at_cert_fp a = re_cert_fp r ∧ at_dialed a = rel_addr (dl_entry d) ∧
    close_stale c' (ct_view c) = [].
Proof.
  intros Hn Hc Ht. unfold uplink_turn in Ht. case_bool_decide as Hst; [done|]. apply eq_None_not_Some in Hst.
  destruct (ct_refused c) eqn:Hr; [done|]. destruct (fleet_of (ct_view c)) as [|e0 fl] eqn:Efl; [done|].
  destruct (pick_relay c probe completed) as [e|] eqn:Ep; [|done]. destruct claims; [|done]. injection Ht as <- <-.
  split; [done|]. split; [done|]. split; [by apply pick_relay_rank|]. rewrite <- Efl in *.
  destruct (pick_from_view c probe completed e Hc Ep) as (r & Hin & Hid & Hname & Hfp).
  assert (∀ r', r' ∈ s_relays (ct_view c) → re_relay_id r' = re_relay_id r → r' = r) as Huniq.
  { intros r' Hin' Heq. apply list_elem_of_lookup in Hin as [i Hi], Hin' as [j Hj].
    assert (i = j) as ->; [|congruence]. apply (NoDup_lookup _ i j (re_relay_id r) Hn); rewrite list_lookup_fmap; [by rewrite Hi|by rewrite Hj, <- Heq]. }
  assert (published_addr (mkDial e (fleet_of (ct_view c)) (ct_relay_via c) (ct_preferred_relay c)) = re_addr r) as Hpub.
  { unfold published_addr. cbn. destruct (List.find _ _) as [x|] eqn:Ef.
    - apply List.find_some in Ef as [Hx Hb]. rewrite <- list_elem_of_In in Hx. apply list_elem_of_fmap in Hx as (r' & -> & Hr'). cbn in Hb.
      apply Z.eqb_eq in Hb. cbn. rewrite (Huniq r' Hr'); [done|]. congruence.
    - pose proof (List.find_none _ _ Ef (entry_of r) (proj1 (list_elem_of_In _ _) (proj2 (list_elem_of_fmap _ _ _) (ex_intro _ r (conj eq_refl Hin))))) as Hx.
      cbn in Hx. by rewrite Hid, Z.eqb_refl in Hx. }
  cbn [uplink_dialed]. exists (attached_by (mkDial e (fleet_of (ct_view c)) (ct_relay_via c) (ct_preferred_relay c))), r.
  unfold attached_by. rewrite Hpub. cbn. split_and!; try done.
  unfold close_stale, uplink_stale. cbn. destruct (List.find _ _) as [x|] eqn:Ef.
  - apply List.find_some in Ef as [Hx Hb]. rewrite <- list_elem_of_In in Hx. apply Z.eqb_eq in Hb. rewrite (Huniq x Hx) by congruence.
    by rewrite ?Hpub, Hfp, !String.eqb_refl.
  - pose proof (List.find_none _ _ Ef r (proj1 (list_elem_of_In _ _) Hin)) as Hx. cbn in Hx. by rewrite Hid, Z.eqb_refl in Hx.
Qed.

(** ** The loop among everything else the client does *)

Implicit Types (c : ClientState (K := K)) (l : Loop).

Inductive up_step : ClientState (K := K) * Loop → list ClientOut → ClientState (K := K) * Loop → Prop :=
| us_turn c failures wait probe completed claims :
    up_step (c, LoopTurn failures wait) [] (c, uplink_turn c failures probe completed claims)
| us_dialed c d failures r c' l out :
    uplink_dialed c d failures r = (c', l, out) → up_step (c, LoopDialing d failures) out (c', l)
| us_ended c s e away failures held closed reason c' l out :
    uplink_ended c failures held closed reason = (c', l, out) → up_step (c, LoopHolding s e away failures) out (c', l)
| us_return c s e failures probe :
    up_step (c, LoopHolding s e true failures) (watch_for_return c s probe) (c, LoopHolding s e true failures)
| us_view c l v local resolvers now runtime c' out :
    reconcile_view (set_view v c) v local resolvers now runtime = (c', out) → up_step (c, l) out (c', l)
| us_joined c l r local resolvers now runtime c' out :
    hook_joined c r local resolvers now runtime = (c', out) → up_step (c, l) out (c', l)
| us_refused c l b c' out : hook_refused b (set_refused b c) = (c', out) → up_step (c, l) out (c', l)
| us_via c l via : up_step (c, l) [] (set_relay_via via c, l)
| us_policy c l p c' out : set_route_policy p c = (c', out) → up_step (c, l) out (c', l)
| us_lookup c l addr got now m changed :
    lookup_done (ct_relay_addrs c) addr got now = (m, changed) → up_step (c, l) (if changed then [CoPoke] else []) (with_relay_addrs m c, l).

(** A run of the client, with what it has put out since the loop took the session it
    holds. *)
Definition took (l l' : Loop) : bool := match l, l' with LoopDialing _ _, LoopHolding _ _ _ _ => true | _, _ => false end.

Inductive up_reach : ClientState (K := K) * Loop → list ClientOut → Prop :=
| ur_new joined keys k preferred route_all via : up_reach (client_new joined keys k preferred route_all via, LoopTurn 0 0) []
| ur_step x since out y : up_reach x since → up_step x out y → up_reach y (if took x.2 y.2 then out else since ++ out).

(** The session slot, the attachment told to the coordinator and the loop agree;
    a stopped loop was told so. *)
Definition up_inv (x : ClientState (K := K) * Loop) : Prop :=
  let '(c, l) := x in
  (ct_session c = None ↔ ct_attached c = None) ∧
  (∀ s a, ct_session c = Some s → ct_attached c = Some a →
     ∃ e away f, l = LoopHolding s e away f ∧ at_relay_id a = rel_relay_id e ∧ at_name a = rel_name e ∧ at_dialed a = rel_addr e) ∧
  (l = LoopStopped → is_Some (ct_stop c)).

Definition up_frame c c' : Prop := ct_session c' = ct_session c ∧ ct_attached c' = ct_attached c ∧ ct_stop c' = ct_stop c.
Definition closes_own c (out : list ClientOut) : Prop := ∀ s code why, CoClose s code why ∈ out → ct_session c = Some s.

Lemma up_frame_inv c c' l : up_frame c c' → up_inv (c, l) → up_inv (c', l).
Proof. intros (E1 & E2 & E3). unfold up_inv. by rewrite E1, E2, E3. Qed.

Lemma closes_app c o1 o2 : closes_own c o1 → closes_own c o2 → closes_own c (o1 ++ o2).
Proof. intros H1 H2 s code why [Hin|Hin]%elem_of_app; eauto. Qed.

Lemma closes_none c o : (∀ s code why, CoClose s code why ∉ o) → closes_own c o.
Proof. intros Hn s code why Hin. by destruct (Hn _ _ _ Hin). Qed.

Lemma closes_nil c : closes_own c [].
Proof. apply closes_none. intros s code why Hin. by apply not_elem_of_nil in Hin. Qed.

Lemma reconcile_view_frame c v local resolvers now runtime :
  let '(c', out) := reconcile_view c v local resolvers now runtime in up_frame c c' ∧ closes_own c out.
Proof.
  pose proof (reconcile_view_done c v local resolvers now runtime) as Hd. destruct (reconcile_view _ _ _ _ _ _) as [c' out].
  destruct Hd as (_ & _ & _ & E1 & E2 & E3 & _ & Hc). split; [done|]. intros s code why Hin%Hc. unfold close_stale in Hin.
  destruct (_ ≫= _); [|by apply not_elem_of_nil in Hin]. destruct (ct_session c); [|by apply not_elem_of_nil in Hin].
  apply list_elem_of_singleton in Hin. by injection Hin as ->.
Qed.

Lemma preference_close_own c p : closes_own c (preference_close c p).
Proof.
  intros s code why Hin. unfold preference_close in Hin. destruct (ct_attached c) as [a|]; [|by apply not_elem_of_nil in Hin].
  destruct (ct_relay_via c) as [v|]; [by apply not_elem_of_nil in Hin|]. destruct p as [w|]; [|by apply not_elem_of_nil in Hin].
  destruct (ct_session c); [|by apply not_elem_of_nil in Hin]. destruct (String.eqb _ _); [by apply not_elem_of_nil in Hin|].
  apply list_elem_of_singleton in Hin. by injection Hin as ->.
Qed.

Lemma apply_facts_frame c r local resolvers now runtime :
  let '(c', out) := apply_facts c r local resolvers now runtime in up_frame c c' ∧ closes_own c out.
Proof.
  unfold apply_facts. destruct (negb (bool_decide (ct_mine c = hosts_of r))).
  - set (c1 := with_facts _ _ _ (with_engine _ c)). set (c2 := with_facts _ _ _ c1).
    pose proof (reconcile_view_frame c2 (ct_view c2) local resolvers now runtime) as Hf.
    destruct (reconcile_view _ _ _ _ _ _) as [c' out]. destruct Hf as [Hf Hcl]. split; [exact Hf|].
    repeat apply closes_app; [|destruct (negb _); [exact (preference_close_own c1 _)|]|exact Hcl|]; apply closes_none; intros s code why Hin;
      rewrite ?list_elem_of_singleton, ?elem_of_nil in Hin; done.
  - split; [done|]. repeat apply closes_app; try apply closes_nil. destruct (negb _); [apply preference_close_own|apply closes_nil].
Qed.

Lemma hook_joined_frame c r local resolvers now runtime c' out : hook_joined c r local resolvers now runtime = (c', out) → up_frame c c' ∧ closes_own c out.
Proof.
  unfold hook_joined. set (c1 := with_facts _ _ _ c). pose proof (apply_facts_frame c1 r local resolvers now runtime) as Hf.
  destruct (apply_facts _ _ _ _ _ _) as [c2 o]. intros [= <- <-]. destruct Hf as [Hf Hcl]. split; [exact Hf|]. apply closes_app; [|exact Hcl].
  apply closes_none. intros s code why Hin. cbn in Hin. destruct (ct_session c); [by apply list_elem_of_singleton in Hin|by apply not_elem_of_nil in Hin].
Qed.

(** What a step does to the slot, by its kind. *)
Lemma up_step_inv c l out c' l' : up_inv (c, l) → up_step (c, l) out (c', l') →
  up_inv (c', l') ∧ ∀ s code why, CoClose s code why ∈ out → ∃ e away f, l = LoopHolding s e away f.
Proof.
  intros Hi Hs. assert (closes_own c out → ∀ s code why, CoClose s code why ∈ out → ∃ e away f, l = LoopHolding s e away f) as Hown.
  { intros Hc s code why Hin. apply Hc in Hin. destruct Hi as ([_ Ha] & Hh & _). destruct (ct_attached c) as [a|]; [|by rewrite Ha in Hin].
    destruct (Hh s a Hin eq_refl) as (e & away & f & -> & _). eauto. }
  assert (∀ o : ClientOut, o = CoKick ∨ o = CoPoke → closes_own c [o]) as Hone.
  { intros o Ho. apply closes_none. intros s code why Hin%list_elem_of_singleton. destruct Ho; congruence. }
  pose proof (closes_nil c) as Hnil.
  assert (∀ o f w, l ≠ LoopStopped → (∀ s e a f, l ≠ LoopHolding s e a f) → up_inv (c, LoopTurn f w) ∧ (closes_own c o → True)) as Hturn.
  { intros o f w _ Hnh. split; [|done]. destruct Hi as (H1 & H2 & _). split; [done|]. split; [|done]. intros s a Hse Hat.
    destruct (H2 s a Hse Hat) as (e & aw & f' & -> & _). by destruct (Hnh s e aw f'). }
  inversion Hs as [? f w ? ? ? | ? ? ? r ? ? ? E | ? ? ? ? ? ? ? reason ? ? ? E | ? ? ? ? probe | ? ? ? ? ? ? ? ? ? E | ? ? ? ? ? ? ? ? ? E | ? ? b ? ? E | | ? ? ? ? ? E | ? ? ? ? ? ? changed E ]; subst; clear Hs.
  - split; [|by apply Hown]. destruct Hi as (H1 & H2 & _). split; [done|]. split.
    + intros s a Hse Hat. by destruct (H2 s a Hse Hat) as (? & ? & ? & ? & _).
    + unfold uplink_turn. case_bool_decide as Hst; [done|]. repeat case_match; done.
  - unfold uplink_dialed in E. destruct r as [s|[code reason|]].
    + injection E as <- <- <-. split; [|apply Hown, Hone; auto]. split; [done|]. split; [|done]. intros s' a [= <-] [= <-]. by eexists _, _, _.
    + destruct (code =? _); injection E as <- <- <-; (split; [|by apply Hown]); [|by apply (Hturn [])].
      destruct Hi as (H1 & H2 & _). split; [done|]. split; [|intros _; cbn; destruct (ct_stop c); by eexists].
      intros s a Hse Hat. by destruct (H2 s a Hse Hat) as (? & ? & ? & ? & _).
    + injection E as <- <- <-. split; [|by apply Hown]. by apply (Hturn []).
  - split; [|assert (out = [CoKick]) as -> by (unfold uplink_ended in E; repeat case_match; congruence); apply Hown, Hone; auto].
    unfold uplink_ended in E. destruct reason as [[code why]|]; [destruct (code =? _)|]; injection E as <- <- <-; (split; [done|]; split; [done|]); try done.
    intros _. cbn. destruct (ct_stop c); by eexists.
  - split; [done|]. intros s' code why Hin. unfold watch_for_return in Hin. destruct (return_entry _) as [x|]; [|by apply not_elem_of_nil in Hin].
    destruct (answers _ x); [|by apply not_elem_of_nil in Hin]. apply list_elem_of_singleton in Hin. injection Hin as -> _ _. eauto.
  - match type of E with reconcile_view ?c1 ?v ?lo ?re ?n ?rt = _ => pose proof (reconcile_view_frame c1 v lo re n rt) as Hf end. rewrite E in Hf.
    destruct Hf as [Hf Hcl]. split; [by apply (up_frame_inv c)|]. by apply Hown.
  - apply hook_joined_frame in E as [Hf Hcl]. split; [by apply (up_frame_inv c)|]. by apply Hown.
  - unfold hook_refused in E. destruct b; injection E as <- <-; [|split; [by apply (up_frame_inv c)|by apply Hown]]. split.
    + split; [done|]. split; [done|]. by destruct Hi as (_ & _ & ?).
    + apply Hown. intros s code why Hin. cbn in Hin. destruct (ct_session c); [|by apply not_elem_of_nil in Hin]. apply list_elem_of_singleton in Hin. by injection Hin as ->.
  - split; [by apply (up_frame_inv c)|by apply Hown].
  - injection E as <- <-. split; [by apply (up_frame_inv c)|apply Hown, Hone; auto].
  - split; [by apply (up_frame_inv c)|]. apply Hown. destruct changed; [apply Hone; auto|done].
Qed.

Lemma up_reach_inv x since : up_reach x since → up_inv x.
Proof.
  induction 1 as [|[c l] since out [c' l'] _ IH Hs]; [done|]. by apply (up_step_inv c l out).
Qed.

(** A session the loop holds is in the slot, or a refusal has taken it out and closed it. *)
Definition up_held c l (since : list ClientOut) : Prop :=
  ∀ s e away f, l = LoopHolding s e away f →
    ct_session c = Some s ∨ (ct_session c = None ∧ CoClose s CLIENT_CLOSE_EVICTED "refused by the coordinator" ∈ since).

Lemma up_held_frame c c' l since out : ct_session c' = ct_session c → up_held c l since → up_held c' l (since ++ out).
Proof. intros E H s e away f Hl. rewrite E. destruct (H s e away f Hl) as [?|[? ?]]; [by left|]. right. split; [done|]. apply elem_of_app. by left. Qed.

Lemma took_same l : took l l = false.
Proof. by destruct l. Qed.

Lemma up_step_held c l since out c' l' : up_inv (c, l) → up_held c l since → up_step (c, l) out (c', l') →
  up_held c' l' (if took l l' then out else since ++ out).
Proof.
  intros Hi Hh Hs.
  inversion Hs as [? f w ? ? ? | ? ? ? r ? ? ? E | ? ? ? ? ? ? ? reason ? ? ? E | ? ? ? ? probe | ? ? ? ? ? ? ? ? ? E | ? ? ? ? ? ? ? ? ? E | ? ? b ? ? E | | ? ? ? ? ? E | ? ? ? ? ? ? changed E ]; subst; clear Hs;
    rewrite ?took_same; try (by apply (up_held_frame c)).
  - intros s e away f' Hl. unfold uplink_turn in Hl. by repeat case_match.
  - unfold uplink_dialed in E. destruct r as [s|[code reason|]]; [|destruct (code =? _)|]; injection E as <- <- <-; intros s' e away f Hl; try done.
    injection Hl as <- _ _ _. by left.
  - unfold uplink_ended in E. intros s' e' away' f' ->. by repeat case_match.
  - eapply up_held_frame; [reflexivity|exact Hh].
  - match type of E with reconcile_view ?c1 ?v ?lo ?re ?n ?rt = _ => pose proof (reconcile_view_frame c1 v lo re n rt) as Hf end. rewrite E in Hf.
    destruct Hf as [(E1 & _) _]. by apply (up_held_frame c).
  - apply hook_joined_frame in E as [(E1 & _) _]. by apply (up_held_frame c).
  - unfold hook_refused in E. destruct b; injection E as <- <-; [|by apply (up_held_frame c)]. intros s e away f Hl. right. split; [done|].
    apply elem_of_app. destruct (Hh s e away f Hl) as [Hse|[_ ?]]; [right|by left]. cbn. rewrite Hse. by left.
  - injection E as <- <-. by apply (up_held_frame c).
Qed.

Lemma up_reach_held c l since : up_reach (c, l) since → up_held c l since.
Proof.
  intros Hr. remember (c, l) as x eqn:Ex. revert c l Ex. induction Hr as [|[c0 l0] since out [c1 l1] Hr IH Hs]; intros c l [= <- <-]; [done|].
  eapply up_step_held; [by eapply up_reach_inv|by apply IH|exact Hs].
Qed.

End uplink.

(** ** A client under route-all *)

Module ClientExample.
#[export] Existing Instance ipnet_ref.
#[export] Existing Instance NoiseExample.noise.
#[export] Existing Instance NoiseExample.noise_static.
#[export] Existing Instance RoutesExample.Table_programmer.
#[export] Existing Instance RoutesExample.Table_laws.
#[export] Instance base64 : Base64 := {| b64_encode := bytes_str; b64_decode s := Some (str_bytes s) |}.

Definition ip (n : Z) : Z := 10 * 2 ^ 24 + n.
Definition joined : JoinResponse :=
  mkJoinResponse "cred" "net" Client "u" [] 1 "me" 0 (Some (ip 1)) None None None [] None None 0 [] 1350 15 "stream" 1 14433 5.

(** Member 3 is a relay with a LAN and the default route; 203.0.0.5 is its address. *)
Definition lan : IpNet := Net4 (192 * 2 ^ 24 + 168 * 2 ^ 16) 16.
Definition relay_addr : string := "203.0.0.5:4433".
Definition relay : RelayEndpoint := mkRelayEndpoint 3 "r1" relay_addr "fp".
Definition view : Snapshot :=
  mkSnapshot 7 [mkPeerInfo 1 "me" Client [Net4 (ip 1) 32] "k1" true 0; mkPeerInfo 3 "r1" Relay [Net4 (ip 3) 32; lan; Net4 0 0] "k3" true 0]
    [] [relay] (mkNetworkMtu 1300 "") [] [Net4 (10 * 2 ^ 24) 8].

Definition table : Table := mkTable {[lan]} ∅ ∅.
Definition start : ClientState (K := Table) := set_view view (client_new joined NoiseExample.kA table None true None).
Definition resolved (c : ClientState (K := Table)) : ClientState := with_relay_addrs {[relay_addr := mkRelayAddr [V4 (203 * 2 ^ 24 + 5)] 9000 0 false]} c.

Definition probe (e : RelayEntry) : option Z := Some 12.
Definition completed : list (Z * RelayEntry) := [(12, entry_of relay)].

Definition d : Dial := mkDial (entry_of relay) [entry_of relay] None None.
Definition dialed := uplink_dialed start d 0 (Ok 1).
Definition held : ClientState (K := Table) := dialed.1.1.

Lemma view_clean : Forall clean_peer (s_members view).
Proof. repeat constructor; by_decide. Qed.
Lemma view_ids : NoDup (pi_node_id <$> s_members view).
Proof. by_decide. Qed.
Lemma table_listed (ips : list IpAddr) : list_via_dev (pin_underlay table ips).1 = Some (bs_iter (tb_routes table)).
Proof. unfold list_via_dev, pin_underlay, RoutesExample.Table_programmer. cbn [fst]. reflexivity. Qed.
Lemma table_truncated : Forall (λ n, net_trunc n = n) (bs_iter (tb_routes table)).
Proof. by_decide. Qed.

Lemma turned : uplink_turn start 0 probe completed true = LoopDialing d 0.
Proof. vm_compute. reflexivity. Qed.

(** The view comes in, a relay is chosen, the dial succeeds. *)
Definition viewed := reconcile_view (set_view view (client_new joined NoiseExample.kA table None true None)) view [] [] 100 true.
Definition attached : ClientState (K := Table) := (uplink_dialed viewed.1 d 0 (Ok 1)).1.1.

Lemma viewed_eq : reconcile_view (set_view view (client_new joined NoiseExample.kA table None true None)) view [] [] 100 true = (viewed.1, viewed.2).
Proof. unfold viewed. apply surjective_pairing. Qed.

Lemma attached_reach : ∃ since, up_reach (attached, LoopHolding 1 (entry_of relay) false 0) since.
Proof.
  eexists. eapply ur_step; [|apply (us_dialed viewed.1 d 0 (Ok 1)); reflexivity].
  assert (uplink_turn viewed.1 0 probe completed true = LoopDialing d 0) as <- by (vm_compute; reflexivity).
  eapply ur_step; [|apply us_turn with (wait := 0)]. eapply ur_step; [apply (ur_new joined NoiseExample.kA table None true None)|].
  apply (us_view _ _ view [] [] 100 true viewed.1 viewed.2). exact viewed_eq.
Qed.

(** A forwarder given by the relay's own address: the client attaches to it as
    asked, takes itself for away from it, finds it reachable at the next check
    and closes the session to move to it, over and over. *)
Lemma own_address_flaps :
  let c := set_relay_via (Some (mkRelayVia "r1" relay_addr)) start in
  let d := mkDial (entry_of relay) [entry_of relay] (Some (mkRelayVia "r1" relay_addr)) None in
  uplink_turn c 0 probe completed true = LoopDialing d 0 ∧
  (uplink_dialed c d 0 (Ok 1)).1.2 = LoopHolding 1 (entry_of relay) true 0 ∧
  watch_for_return (uplink_dialed c d 0 (Ok 1)).1.1 1 probe = [CoClose 1 CLIENT_CLOSE_EVICTED "moving to the preferred relay"].
Proof. vm_compute. done. Qed.

(** Refused while a dial is under way: the hook finds no session to drop, and the
    dial then attaches. *)
Lemma refused_while_dialing :
  let c := (hook_refused true (set_refused true start)).1 in
  uplink_turn start 0 probe completed true = LoopDialing d 0 ∧
  ct_refused (uplink_dialed c d 0 (Ok 1)).1.1 = true ∧ ct_session (uplink_dialed c d 0 (Ok 1)).1.1 = Some 1.
Proof. vm_compute. done. Qed.
End ClientExample.

#[local] Existing Instance ipnet_ref.
#[local] Existing Instance NoiseExample.noise.
#[local] Existing Instance NoiseExample.noise_static.
#[local] Existing Instance RoutesExample.Table_programmer.
#[local] Existing Instance RoutesExample.Table_laws.
#[local] Existing Instance ClientExample.base64.

(** 8.8.8.8 goes to the exit, the LAN to its owner. *)
Lemma view_applied_witness :
  let '(c', _) := reconcile_view (ClientExample.resolved ClientExample.held) ClientExample.view [] [] 100 true in
  owner_of (en_peers (ct_engine c')) (V4 (8 * 2 ^ 24 + 8 * 2 ^ 16 + 8 * 2 ^ 8 + 8)) = Some 3 ∧ ct_exit_chosen c' !! false = Some 3.
Proof.
  pose proof (view_applied (ClientExample.resolved ClientExample.held) ClientExample.view [] [] 100 true
    (bs_iter (tb_routes ClientExample.table)) ClientExample.view_ids ClientExample.view_clean ClientExample.table_listed (ClientExample.table_listed [])
    ClientExample.table_truncated) as Hx.
  destruct (reconcile_view _ _ _ _ _ _) as [c' out]. destruct Hx as (Ho & He & _). split.
  - rewrite Ho by by_decide. vm_compute. reflexivity.
  - rewrite He by reflexivity. vm_compute. reflexivity.
Defined.

Lemma relay_attached_witness :
  ∃ a r, ct_session ClientExample.held = Some 1 ∧ ct_attached ClientExample.held = Some a ∧ r ∈ s_relays ClientExample.view ∧ at_addr a = re_addr r.
Proof.
  destruct (relay_attached ClientExample.start 0 ClientExample.probe ClientExample.completed true ClientExample.d 0 1) as (_ & _ & _ & a & r & H1 & H2 & H3 & _ & _ & H6 & _);
    [by_decide|intros x ->%list_elem_of_singleton; by left|exact ClientExample.turned|]. by exists a, r.
Defined.

