(* ===== verification/Forwarder.v ===== *)
(** * The forwarder (crates/nqvpn-forward/src/lib.rs)

    A byte-for-byte UDP forwarder to one target. Every client address is a flow
    with an upstream socket of its own; a task per flow carries what the target
    answers back to the client. The receiving loop, the flows' readers and the
    housekeeping task share the flow table, the target and each flow's time of
    last traffic. An event is what one of them does between two waits (or two
    takings of the table's lock), so that a list of events is an interleaving;
    clocks and what the system calls came to are in the events. *)

From S2P Require Import Prelude Ordered Ipnet.

Abbreviation SocketAddr := (IpAddr * Z)%type.
Abbreviation Datagram_ := (list Z).

(** [Options], durations in milliseconds. *)
Record FwdOptions := mkFwdOptions { fo_idle : Z; fo_max_flows : Z; fo_resolve_every : Z }.
Definition fwd_options_new : FwdOptions := mkFwdOptions 120000 4096 60000.

(** A flow: its upstream socket, by a number no other socket has, and the address
    that socket is connected to. The time of last traffic is a cell the table, the
    reader and the receiving loop share, so it is kept by socket. *)
Record FwdFlow := mkFwdFlow { fl_sock : nat; fl_target : SocketAddr }.

(** Where the receiving loop is: waiting; with a flow for a datagram; with a
    datagram no flow was found for; opening one towards a target; stopped. *)
Inductive RecvPhase : Type :=
| RpIdle
| RpHave (f : FwdFlow) (from : SocketAddr) (d : Datagram_)
| RpMiss (from : SocketAddr) (d : Datagram_)
| RpOpen (from : SocketAddr) (d : Datagram_) (target : SocketAddr)
| RpStopped.

(** Housekeeping: asleep until its tick, or looking the target up. *)
Inductive HousePhase : Set := HpAsleep | HpResolving.

Record Forwarder := mkForwarder {
  fw_target : SocketAddr;
  fw_flows : gmap SocketAddr FwdFlow;
  fw_last_seen : gmap nat Z;
  fw_next_sock : nat;
  fw_phase : RecvPhase;
  fw_house : HousePhase;
  fw_next_resolve : Z;
  fw_opened : Z; fw_refused : Z; fw_up : Z; fw_down : Z;
}.

(** What leaves a socket, and the flows opened, with the time. *)
Inductive FwdOut : Type :=
| FoOpened (f : FwdFlow) (client : SocketAddr) (now : Z)
| FoUp (f : FwdFlow) (client : SocketAddr) (d : Datagram_) (now : Z)
| FoDown (f : FwdFlow) (client : SocketAddr) (d : Datagram_) (now : Z).

Inductive FwdEvent : Type :=
| FeRecv (from : SocketAddr) (d : Datagram_)  (* a datagram arrives and its flow is looked up *)
| FeRoom                                      (* room for a new flow? *)
| FeConnected (ok : bool) (now : Z)           (* the upstream socket is bound and connected, or not *)
| FeForward (now : Z)                         (* the datagram goes up *)
| FeReply (sock : nat) (d : Datagram_) (now : Z) (* a datagram comes down a flow's socket *)
| FeTick (now : Z)                            (* the housekeeping timer *)
| FeResolved (r : option SocketAddr)          (* its lookup of the target *)
| FeStop.                                     (* [run] ends or is aborted *)

(** The first address a name resolves to. *)
Definition resolve_first (answer : option (list SocketAddr)) : option SocketAddr := answer ≫= head.

Section forwarder.
Context (opts : FwdOptions).

Definition fwd_bind (target : SocketAddr) (started : Z) : Forwarder :=
  mkForwarder target ∅ ∅ 0 RpIdle HpAsleep (started + fo_resolve_every opts) 0 0 0 0.

Definition fwd_set_phase (p : RecvPhase) (w : Forwarder) : Forwarder :=
  mkForwarder (fw_target w) (fw_flows w) (fw_last_seen w) (fw_next_sock w) p (fw_house w) (fw_next_resolve w)
    (fw_opened w) (fw_refused w) (fw_up w) (fw_down w).
Definition fwd_set_flows (fs : gmap SocketAddr FwdFlow) (w : Forwarder) : Forwarder :=
  mkForwarder (fw_target w) fs (fw_last_seen w) (fw_next_sock w) (fw_phase w) (fw_house w) (fw_next_resolve w)
    (fw_opened w) (fw_refused w) (fw_up w) (fw_down w).

(** ** [flow_for] *)

(** The flow there is, found under the lock. *)
Definition flow_lookup (from : SocketAddr) (d : Datagram_) (w : Forwarder) : Forwarder :=
  fwd_set_phase (match fw_flows w !! from with Some f => RpHave f from d | None => RpMiss from d end) w.

Definition flow_room (from : SocketAddr) (d : Datagram_) (w : Forwarder) : Forwarder :=
  if fo_max_flows opts <=? Z.of_nat (size (fw_flows w)) then
    mkForwarder (fw_target w) (fw_flows w) (fw_last_seen w) (fw_next_sock w) RpIdle (fw_house w) (fw_next_resolve w)
      (fw_opened w) (fw_refused w ⊕ 1) (fw_up w) (fw_down w)
  else fwd_set_phase (RpOpen from d (fw_target w)) w.

(** A flow some other datagram of the client opened meanwhile is kept. *)
Definition flow_open (from : SocketAddr) (d : Datagram_) (target : SocketAddr) (now : Z) (w : Forwarder) : Forwarder * list FwdOut :=
  match fw_flows w !! from with
  | Some f => (fwd_set_phase (RpHave f from d) w, [])
  | None =>
      let f := mkFwdFlow (fw_next_sock w) target in
      (mkForwarder (fw_target w) (<[from := f]> (fw_flows w)) (<[fl_sock f := now]> (fw_last_seen w)) (S (fw_next_sock w))
         (RpHave f from d) (fw_house w) (fw_next_resolve w) (fw_opened w ⊕ 1) (fw_refused w) (fw_up w) (fw_down w),
       [FoOpened f from now])
  end.

(** ** [run] *)
Definition forward_up (f : FwdFlow) (from : SocketAddr) (d : Datagram_) (now : Z) (w : Forwarder) : Forwarder * list FwdOut :=
  (mkForwarder (fw_target w) (fw_flows w) (<[fl_sock f := now]> (fw_last_seen w)) (fw_next_sock w) RpIdle (fw_house w) (fw_next_resolve w)
     (fw_opened w) (fw_refused w) (fw_up w ⊕ 1) (fw_down w),
   [FoUp f from d now]).

(** ** [pump_down], of the flow with this socket: it runs while the flow is in the table. *)
Definition reader_of (sock : nat) (w : Forwarder) : option (SocketAddr * FwdFlow) :=
  List.find (λ p, Nat.eqb (fl_sock p.2) sock) (map_to_list (fw_flows w)).

Definition pump_down (sock : nat) (d : Datagram_) (now : Z) (w : Forwarder) : Forwarder * list FwdOut :=
  match reader_of sock w with
  | Some (client, f) =>
      (mkForwarder (fw_target w) (fw_flows w) (<[sock := now]> (fw_last_seen w)) (fw_next_sock w) (fw_phase w) (fw_house w) (fw_next_resolve w)
         (fw_opened w) (fw_refused w) (fw_up w) (fw_down w ⊕ 1),
       [FoDown f client d now])
  | None => (w, [])
  end.

(** ** [housekeeping] *)
Definition fwd_sweep (now : Z) (w : Forwarder) : Forwarder :=
  fwd_set_flows (filter (λ p, sat_sub now (default 0 (fw_last_seen w !! fl_sock p.2)) < fo_idle opts) (fw_flows w)) w.

Definition house_tick (now : Z) (w : Forwarder) : Forwarder :=
  let w := fwd_sweep now w in
  if fw_next_resolve w <=? now then
    mkForwarder (fw_target w) (fw_flows w) (fw_last_seen w) (fw_next_sock w) (fw_phase w) HpResolving (now + fo_resolve_every opts)
      (fw_opened w) (fw_refused w) (fw_up w) (fw_down w)
  else w.

Definition house_resolved (r : option SocketAddr) (w : Forwarder) : Forwarder :=
  mkForwarder (default (fw_target w) r) (fw_flows w) (fw_last_seen w) (fw_next_sock w) (fw_phase w) HpAsleep (fw_next_resolve w)
    (fw_opened w) (fw_refused w) (fw_up w) (fw_down w).

(** [Stop::drop]: housekeeping and every reader end with the receiving loop. *)
Definition fwd_stop (w : Forwarder) : Forwarder := fwd_set_phase RpStopped (fwd_set_flows ∅ w).

Definition fwd_step (w : Forwarder) (ev : FwdEvent) : Forwarder * list FwdOut :=
  match fw_phase w, ev with
  | RpStopped, _ => (w, [])
  | RpIdle, FeRecv from d => (flow_lookup from d w, [])
  | RpMiss from d, FeRoom => (flow_room from d w, [])
  | RpOpen from d target, FeConnected ok now => if ok then flow_open from d target now w else (fwd_set_phase RpIdle w, [])
  | RpHave f from d, FeForward now => forward_up f from d now w
  | _, FeReply sock d now => pump_down sock d now w
  | _, FeTick now => match fw_house w with HpAsleep => (house_tick now w, []) | HpResolving => (w, []) end
  | _, FeResolved r => match fw_house w with HpResolving => (house_resolved r w, []) | HpAsleep => (w, []) end
  | _, FeStop => (fwd_stop w, [])
  | _, _ => (w, [])
  end.

Definition fwd_run (w : Forwarder) (evs : list FwdEvent) : Forwarder * list FwdOut :=
  foldl (λ st ev, let '(w', o) := fwd_step st.1 ev in (w', st.2 ++ o)) (w, []) evs.
End forwarder.

(** ** What a run did *)

Definition up_of (o : FwdOut) : option (SocketAddr * Datagram_) := match o with FoUp _ c d _ => Some (c, d) | _ => None end.
Definition down_of (o : FwdOut) : option (nat * Datagram_) := match o with FoDown f _ d _ => Some (fl_sock f, d) | _ => None end.
Definition recv_of (ev : FwdEvent) : option (SocketAddr * Datagram_) := match ev with FeRecv c d => Some (c, d) | _ => None end.
Definition reply_of (ev : FwdEvent) : option (nat * Datagram_) := match ev with FeReply s d _ => Some (s, d) | _ => None end.
Definition out_flow (o : FwdOut) : FwdFlow := match o with FoOpened f _ _ | FoUp f _ _ _ | FoDown f _ _ _ => f end.
Definition out_client (o : FwdOut) : SocketAddr := match o with FoOpened _ c _ | FoUp _ c _ _ | FoDown _ c _ _ => c end.
Definition out_time (o : FwdOut) : Z := match o with FoOpened _ _ t | FoUp _ _ _ t | FoDown _ _ _ t => t end.
(** When something last went through a socket, or it was opened. *)
Definition last_traffic (sock : nat) (outs : list FwdOut) : option Z :=
  out_time <$> last (List.filter (λ o, Nat.eqb (fl_sock (out_flow o)) sock) outs).

Definition phase_have (p : RecvPhase) : option (FwdFlow * SocketAddr) := match p with RpHave f c _ => Some (f, c) | _ => None end.
Definition phase_data (p : RecvPhase) : option (SocketAddr * Datagram_) :=
  match p with RpHave _ c d | RpMiss c d | RpOpen c d _ => Some (c, d) | _ => None end.
Definition phase_new (p : RecvPhase) : option SocketAddr := match p with RpMiss c _ | RpOpen c _ _ => Some c | _ => None end.

Lemma last_traffic_app sock outs o :
  last_traffic sock (outs ++ [o]) = if Nat.eqb (fl_sock (out_flow o)) sock then Some (out_time o) else last_traffic sock outs.
Proof.
  unfold last_traffic. rewrite List.filter_app. cbn. destruct (Nat.eqb _ _); [by rewrite last_snoc|by rewrite app_nil_r].
Qed.

Section invariant.
Context (opts : FwdOptions).

Record fwd_inv (w : Forwarder) (evs : list FwdEvent) (outs : list FwdOut) : Prop := {
  fi_room : Z.of_nat (size (fw_flows w)) ≤ fo_max_flows opts;
  fi_open_room : ∀ c d t, fw_phase w = RpOpen c d t → Z.of_nat (size (fw_flows w)) < fo_max_flows opts;
  fi_new : ∀ c, phase_new (fw_phase w) = Some c → fw_flows w !! c = None;
  fi_held : ∀ c f, fw_flows w !! c = Some f ∨ phase_have (fw_phase w) = Some (f, c) → ∃ t, FoOpened f c t ∈ outs;
  fi_fresh : ∀ f c t, FoOpened f c t ∈ outs → (fl_sock f < fw_next_sock w)%nat;
  fi_own : ∀ f c t f' c' t', FoOpened f c t ∈ outs → FoOpened f' c' t' ∈ outs → fl_sock f = fl_sock f' → f = f' ∧ c = c';
  fi_out : ∀ o, o ∈ outs → ∃ t, FoOpened (out_flow o) (out_client o) t ∈ outs;
  fi_seen : ∀ sock, fw_last_seen w !! sock = last_traffic sock outs;
  fi_up : omap up_of outs ++ option_list (phase_data (fw_phase w)) `sublist_of` omap recv_of evs;
  fi_down : omap down_of outs `sublist_of` omap reply_of evs;
}.

Lemma inv_bind target started : 0 ≤ fo_max_flows opts → fwd_inv (fwd_bind opts target started) [] [].
Proof.
  intros Hm. split; cbn; try set_solver; done.
Qed.

Lemma sub_skip {A B} (f : A → option B) l evs a : l `sublist_of` omap f evs → l `sublist_of` omap f (evs ++ [a]).
Proof. intros. rewrite omap_app. by apply sublist_inserts_r. Qed.

Lemma reader_of_spec w sock c f : reader_of sock w = Some (c, f) → fw_flows w !! c = Some f ∧ fl_sock f = sock.
Proof. unfold reader_of. intros [Hin Hs]%find_some. apply list_elem_of_In, elem_of_map_to_list in Hin. by apply Nat.eqb_eq in Hs. Qed.

Lemma filter_size (P : SocketAddr * FwdFlow → Prop) `{∀ x, Decision (P x)} (m : gmap SocketAddr FwdFlow) : (size (filter P m) ≤ size m)%nat.
Proof. apply map_subseteq_size, map_filter_subseteq. Qed.

(** Changes of the table that only drop flows, and of the phase to one with nothing in hand. *)
Lemma inv_shrink w w' evs outs ev :
  fwd_inv w evs outs → fw_flows w' ⊆ fw_flows w → fw_last_seen w' = fw_last_seen w → fw_next_sock w' = fw_next_sock w →
  fw_phase w' = fw_phase w ∨ phase_data (fw_phase w') = None →
  fwd_inv w' (evs ++ [ev]) outs.
Proof.
  intros [H1 H2 H3 H4 H5 H6 H7 H8 H9 H10] Hs Hl Hn Hp. pose proof (map_subseteq_size _ _ Hs).
  assert (∀ c, phase_new (fw_phase w') = Some c → phase_new (fw_phase w) = Some c) as Hp1
    by (destruct Hp as [->|Hp]; [done|]; by destruct (fw_phase w')).
  assert (∀ x, phase_have (fw_phase w') = Some x → phase_have (fw_phase w) = Some x) as Hp2
    by (destruct Hp as [->|Hp]; [done|]; by destruct (fw_phase w')).
  assert (∀ c d t, fw_phase w' = RpOpen c d t → fw_phase w = RpOpen c d t) as Hp3
    by (destruct Hp as [->|Hp]; [done|]; intros ??? E; by rewrite E in Hp).
  split; rewrite ?Hl, ?Hn; try done; try lia.
  - intros c d t E%Hp3%H2. lia.
  - intros c E%Hp1%H3. by eapply lookup_weaken_None.
  - intros c f [E|E]; apply H4; [left; by eapply lookup_weaken|right; auto].
  - apply sub_skip. destruct Hp as [->| ->]; [done|]. etrans; [|exact H9]. unfold option_list. cbn [option_rect].
    rewrite app_nil_r. by apply sublist_inserts_r.
  - by apply sub_skip.
Qed.

Lemma inv_lookup w evs outs from d : fw_phase w = RpIdle → fwd_inv w evs outs → fwd_inv (flow_lookup from d w) (evs ++ [FeRecv from d]) outs.
Proof.
  intros Hph [H1 H2 H3 H4 H5 H6 H7 H8 H9 H10]. unfold flow_lookup. rewrite Hph in H9. cbn in H9. rewrite app_nil_r in H9.
  split; cbn [fwd_set_phase fw_flows fw_phase fw_last_seen fw_next_sock]; try done.
  - intros c d' t. by case_match.
  - intros c. by case_match; intros [= <-].
  - intros c f [E|E]; apply H4; [by left|]. left. case_match; [|done]. by injection E as <- <-.
  - rewrite omap_app. apply sublist_app; [done|]. by case_match.
  - by apply sub_skip.
Qed.

Lemma inv_room w evs outs from d : fw_phase w = RpMiss from d → fwd_inv w evs outs → fwd_inv (flow_room opts from d w) (evs ++ [FeRoom]) outs.
Proof.
  intros Hph H. unfold flow_room. destruct (Z.leb_spec (fo_max_flows opts) (Z.of_nat (size (fw_flows w)))).
  - eapply inv_shrink; [exact H|done..|by right].
  - destruct H as [H1 H2 H3 H4 H5 H6 H7 H8 H9 H10]. rewrite Hph in *.
    split; cbn [fwd_set_phase fw_flows fw_phase fw_last_seen fw_next_sock]; try done.
    + by apply sub_skip.
    + by apply sub_skip.
Qed.

Lemma inv_open w evs outs from d target now : fw_phase w = RpOpen from d target → fwd_inv w evs outs →
  let r := flow_open from d target now w in fwd_inv r.1 (evs ++ [FeConnected true now]) (outs ++ r.2).
Proof.
  intros Hph [H1 H2 H3 H4 H5 H6 H7 H8 H9 H10]. rewrite Hph in *. specialize (H2 _ _ _ eq_refl). specialize (H3 _ eq_refl).
  unfold flow_open. rewrite H3. cbn zeta. set (f := mkFwdFlow (fw_next_sock w) target).
  assert (∀ g c t, FoOpened g c t ∈ outs → fl_sock g ≠ fl_sock f) as Hnew by (intros g c t E%H5; cbn; lia).
  assert (∀ g c t, FoOpened g c t ∈ outs ++ [FoOpened f from now] → FoOpened g c t ∈ outs ∨ g = f ∧ c = from) as Hcase.
  { intros g c t [E|E%list_elem_of_singleton]%elem_of_app; [by left|]. right. by injection E as -> -> ->. }
  split; cbn [fst snd fw_flows fw_phase fw_last_seen fw_next_sock].
  - rewrite map_size_insert_None by done. lia.
  - done.
  - done.
  - intros c g [E|E]; [destruct (decide (c = from)) as [->|Hc]|].
    + rewrite lookup_insert_eq in E. injection E as <-. exists now. set_solver.
    + rewrite lookup_insert_ne in E by done. destruct (H4 c g (or_introl E)) as [t ?]. exists t. set_solver.
    + injection E as <- <-. exists now. set_solver.
  - intros g c t [E%H5|[-> _]]%Hcase; cbn; lia.
  - intros g c t g' c' t' [E|[-> ->]]%Hcase [E'|[-> ->]]%Hcase Hs; [by eapply H6| | |done]; exfalso;
      [eapply Hnew; [exact E|done]|eapply Hnew; [exact E'|done]].
  - intros o [E|E%list_elem_of_singleton]%elem_of_app; [destruct (H7 _ E) as [t ?]; exists t; set_solver|].
    subst o. exists now. set_solver.
  - intros sock. rewrite last_traffic_app. cbn [out_flow out_time]. destruct (Nat.eqb_spec (fl_sock f) sock) as [<-|Hne];
      [by rewrite lookup_insert_eq|by rewrite lookup_insert_ne].
  - rewrite omap_app. cbn [omap list_omap up_of]. rewrite app_nil_r. by apply sub_skip.
  - rewrite omap_app. cbn [omap list_omap down_of]. rewrite app_nil_r. by apply sub_skip.
Qed.

(** A datagram went through a flow that was opened, up or down. *)
Lemma inv_traffic w evs outs ev o p up down :
  fwd_inv w evs outs → (∃ t, FoOpened (out_flow o) (out_client o) t ∈ outs) → (∀ f c t, o ≠ FoOpened f c t) →
  phase_have p = None ∨ p = fw_phase w → (∀ c, phase_new p = Some c → p = fw_phase w) →
  omap up_of (outs ++ [o]) ++ option_list (phase_data p) `sublist_of` omap recv_of (evs ++ [ev]) →
  omap down_of (outs ++ [o]) `sublist_of` omap reply_of (evs ++ [ev]) →
  fwd_inv (mkForwarder (fw_target w) (fw_flows w) (<[fl_sock (out_flow o) := out_time o]> (fw_last_seen w)) (fw_next_sock w) p
    (fw_house w) (fw_next_resolve w) (fw_opened w) (fw_refused w) up down) (evs ++ [ev]) (outs ++ [o]).
Proof.
  intros [H1 H2 H3 H4 H5 H6 H7 H8 H9 H10] Ho Hno Hp Hp' Hup Hdown.
  assert (∀ f c t, FoOpened f c t ∈ outs ++ [o] → FoOpened f c t ∈ outs) as Hin.
  { intros f c t [E|E%list_elem_of_singleton]%elem_of_app; [done|]. by destruct (Hno f c t). }
  split; cbn [fw_flows fw_phase fw_last_seen fw_next_sock]; try done.
  - intros c d t E. eapply H2. rewrite <- (Hp' c); [exact E|by rewrite E].
  - intros c E. apply H3. by rewrite <- (Hp' c).
  - intros c f E. destruct (H4 c f) as [t ?]; [|exists t; set_solver].
    destruct E as [E|E]; [by left|right]. destruct Hp as [Hp|<-]; [by rewrite Hp in E|done].
  - intros f c t E%Hin. by eapply H5.
  - intros f c t f' c' t' E%Hin E'%Hin. by eapply H6.
  - intros x [E|E%list_elem_of_singleton]%elem_of_app; [|subst x]; [destruct (H7 _ E) as [t ?]|destruct Ho as [t ?]]; exists t; set_solver.
  - intros sock. rewrite last_traffic_app. destruct (Nat.eqb_spec (fl_sock (out_flow o)) sock) as [<-|Hne];
      [by rewrite lookup_insert_eq|by rewrite lookup_insert_ne].
Qed.

Lemma inv_forward w evs outs f from d now : fw_phase w = RpHave f from d → fwd_inv w evs outs →
  let r := forward_up f from d now w in fwd_inv r.1 (evs ++ [FeForward now]) (outs ++ r.2).
Proof.
  intros Hph H. unfold forward_up. cbn [fst snd]. pose proof H as [_ _ _ H4 _ _ _ _ H9 H10]. rewrite Hph in *.
  apply (inv_traffic w evs outs (FeForward now) (FoUp f from d now) RpIdle); try done.
  - apply H4. by right.
  - by left.
  - rewrite omap_app. cbn [omap list_omap up_of phase_data]. unfold option_list. cbn [option_rect]. rewrite app_nil_r. by apply sub_skip.
  - rewrite omap_app. cbn [omap list_omap down_of]. rewrite app_nil_r. by apply sub_skip.
Qed.

Lemma inv_pump w evs outs sock d now : fwd_inv w evs outs →
  let r := pump_down sock d now w in fwd_inv r.1 (evs ++ [FeReply sock d now]) (outs ++ r.2).
Proof.
  intros H. unfold pump_down. destruct (reader_of sock w) as [[c f]|] eqn:Hr; cbn [fst snd].
  - apply reader_of_spec in Hr as [Hf <-]. pose proof H as [_ _ _ H4 _ _ _ _ H9 H10].
    apply (inv_traffic w evs outs _ (FoDown f c d now) (fw_phase w)); try done; [apply H4; by left|by right| |].
    + rewrite omap_app. cbn [omap list_omap up_of]. rewrite app_nil_r. by apply sub_skip.
    + rewrite !omap_app. by apply sublist_app.
  - rewrite app_nil_r. eapply inv_shrink; [exact H|done..|by left].
Qed.

Lemma inv_fwd_step w evs outs ev : fwd_inv w evs outs →
  let r := fwd_step opts w ev in fwd_inv r.1 (evs ++ [ev]) (outs ++ r.2).
Proof.
  intros H. cbn zeta.
  assert (fwd_inv w (evs ++ [ev]) (outs ++ [])) as Hsame by (rewrite app_nil_r; eapply inv_shrink; [exact H|done..|by left]).
  assert (∀ now, ev = FeTick now → fwd_inv (house_tick opts now w) (evs ++ [ev]) (outs ++ [])) as Htick.
  { intros now ->. rewrite app_nil_r. eapply inv_shrink; [exact H|..]; unfold house_tick; cbn zeta; case_match; try done; try (by left); apply map_filter_subseteq. }
  assert (∀ r, fwd_inv (house_resolved r w) (evs ++ [ev]) (outs ++ [])) as Hres by (intros r; rewrite app_nil_r; eapply inv_shrink; [exact H|done..|by left]).
  assert (fwd_inv (fwd_stop w) (evs ++ [ev]) (outs ++ [])) as Hstop.
  { rewrite app_nil_r. eapply inv_shrink; [exact H|apply map_empty_subseteq|done..|by right]. }
  unfold fwd_step. destruct (fw_phase w) eqn:Hph, ev; try done; try (by apply inv_pump); try (destruct (fw_house w); [exact Hsame|apply Hres]);
    try (destruct (fw_house w); [by apply Htick|exact Hsame]); cbn [fst snd].
  - rewrite app_nil_r. by apply inv_lookup.
  - by apply inv_forward.
  - rewrite app_nil_r. by apply inv_room.
  - destruct ok; [by apply inv_open|]. cbn [fst snd]. rewrite app_nil_r. eapply inv_shrink; [exact H|done..|by right].
Qed.

Lemma fwd_run_snoc w evs ev :
  fwd_run opts w (evs ++ [ev]) = let '(w1, o1) := fwd_run opts w evs in let '(w2, o2) := fwd_step opts w1 ev in (w2, o1 ++ o2).
Proof. unfold fwd_run. rewrite foldl_app. cbn. destruct (foldl _ _ evs) as [w1 o1]. cbn. by destruct (fwd_step opts w1 ev). Qed.

Lemma fwd_run_inv target started evs w outs : 0 ≤ fo_max_flows opts →
  fwd_run opts (fwd_bind opts target started) evs = (w, outs) → fwd_inv w evs outs.
Proof.
  intros Hm. revert w outs. induction evs as [|ev evs IH] using rev_ind; intros w outs.
  - cbn. intros [= <- <-]. by apply inv_bind.
  - rewrite fwd_run_snoc. destruct (fwd_run _ _ evs) as [w1 o1]. destruct (fwd_step opts w1 ev) as [w2 o2] eqn:Hs. intros [= <- <-].
    pose proof (inv_fwd_step w1 evs o1 ev (IH _ _ eq_refl)) as Hi. by rewrite Hs in Hi.
Qed.
End invariant.

Section sweeping.
Context (opts : FwdOptions).

Lemma swept w now c : fw_flows (house_tick opts now w) !! c =
  f ← fw_flows w !! c; if decide (sat_sub now (default 0 (fw_last_seen w !! fl_sock f)) < fo_idle opts) then Some f else None.
Proof.
  assert (fw_flows (house_tick opts now w) = fw_flows (fwd_sweep opts now w)) as -> by (unfold house_tick; cbn zeta; by case_match).
  unfold fwd_sweep, fwd_set_flows. cbn [fw_flows]. destruct (fw_flows w !! c) as [f|] eqn:Hf; cbn [mbind option_bind].
  - case_decide; [by apply map_lookup_filter_Some|]. apply map_lookup_filter_None. right. naive_solver.
  - apply map_lookup_filter_None. by left.
Qed.

Lemma step_keeps_flow w ev c f : fw_flows w !! c = Some f → (∀ now, ev ≠ FeTick now) → ev ≠ FeStop →
  fw_flows (fwd_step opts w ev).1 !! c = Some f.
Proof.
  intros Hf Ht Hs. unfold fwd_step. destruct (fw_phase w), ev; cbn [fst]; try done;
    try (by destruct (Ht now)); try (destruct (fw_house w); done); try (unfold pump_down; by destruct (reader_of _ _) as [[]|]).
  - unfold flow_room. by case_match.
  - destruct ok; [|done]. unfold flow_open. destruct (fw_flows w !! from) as [g|] eqn:Hg; [done|]. cbn.
    rewrite lookup_insert_ne; [done|congruence].
Qed.
End sweeping.

Lemma reader_found opts w evs outs c f : fwd_inv opts w evs outs → fw_flows w !! c = Some f → reader_of (fl_sock f) w = Some (c, f).
Proof.
  intros H Hf. destruct (reader_of (fl_sock f) w) as [[c' f']|] eqn:Hr.
  - apply reader_of_spec in Hr as [Hf' Hs]. destruct (fi_held _ _ _ _ H c f (or_introl Hf)) as [t Ht].
    destruct (fi_held _ _ _ _ H c' f' (or_introl Hf')) as [t' Ht']. by destruct (fi_own _ _ _ _ H _ _ _ _ _ _ Ht Ht' (eq_sym Hs)) as [-> ->].
  - apply elem_of_map_to_list, list_elem_of_In in Hf. unfold reader_of in Hr. eapply find_none in Hr; [|exact Hf].
    cbn in Hr. by rewrite Nat.eqb_refl in Hr.
Qed.

(** C31: Every client has a flow of its own. Over every interleaving of datagrams,
    answers, idle sweeps, lookups of the target and the stop: a socket towards the
    target is opened for one client and used for no other; what goes up is, in
    order and at most once, what clients sent, unchanged, each on its own socket;
    what comes down is what arrived on a socket, in order and at most once, to that
    socket's client. The table never outgrows its limit, and no event closes a flow
    but the stop and a sweep that finds nothing went through it for the idle time;
    such a sweep closes it. A client with a flow is served by it however full the
    table is; a new one is given a flow to the present target while there is room,
    and costs nothing but a count when there is none. *)
Theorem forwarder_isolates opts target started evs w outs
    (Hm : 0 ≤ fo_max_flows opts) (Hr : fwd_run opts (fwd_bind opts target started) evs = (w, outs)) :
  (∀ f c t f' c' t', FoOpened f c t ∈ outs → FoOpened f' c' t' ∈ outs → fl_sock f = fl_sock f' → f = f' ∧ c = c') ∧
  (∀ o, o ∈ outs → ∃ t, FoOpened (out_flow o) (out_client o) t ∈ outs) ∧
  omap up_of outs `sublist_of` omap recv_of evs ∧ omap down_of outs `sublist_of` omap reply_of evs ∧
  Z.of_nat (size (fw_flows w)) ≤ fo_max_flows opts ∧
  (∀ ev c f, fw_flows w !! c = Some f → (∀ now, ev ≠ FeTick now) → ev ≠ FeStop → fw_flows (fwd_step opts w ev).1 !! c = Some f) ∧
  (∀ now c f, fw_flows w !! c = Some f → fw_house w = HpAsleep → fw_phase w ≠ RpStopped →
     ∃ t, last_traffic (fl_sock f) outs = Some t ∧
       fw_flows (fwd_step opts w (FeTick now)).1 !! c = if decide (sat_sub now t < fo_idle opts) then Some f else None) ∧
  (∀ c f d now, fw_flows w !! c = Some f → fw_phase w ≠ RpStopped → (fwd_step opts w (FeReply (fl_sock f) d now)).2 = [FoDown f c d now]) ∧
  (fw_phase w = RpIdle → ∀ from d now,
     match fw_flows w !! from with
     | Some f => (fwd_run opts w [FeRecv from d; FeForward now]).2 = [FoUp f from d now]
     | None =>
         if decide (Z.of_nat (size (fw_flows w)) < fo_max_flows opts) then
           let f := mkFwdFlow (fw_next_sock w) (fw_target w) in
           (fwd_run opts w [FeRecv from d; FeRoom; FeConnected true now; FeForward now]).2 = [FoOpened f from now; FoUp f from d now]
         else
           let '(w', o) := fwd_run opts w [FeRecv from d; FeRoom] in
           o = [] ∧ fw_phase w' = RpIdle ∧ fw_flows w' = fw_flows w ∧ fw_last_seen w' = fw_last_seen w ∧ fw_refused w' = fw_refused w ⊕ 1
     end).
Proof.
  apply fwd_run_inv in Hr as H; [|done]. split_and!; try apply H.
  - etrans; [|apply H]. by apply sublist_inserts_r.
  - intros. by apply step_keeps_flow.
  - intros now c f Hf Hh Hp. destruct (fi_held _ _ _ _ H c f (or_introl Hf)) as [t0 Ho].
    destruct (last_traffic (fl_sock f) outs) as [t|] eqn:Ht.
    + exists t. split; [done|].
      assert (fwd_step opts w (FeTick now) = (house_tick opts now w, [])) as -> by (unfold fwd_step; destruct (fw_phase w); [..|done]; by rewrite Hh).
      cbn [fst]. rewrite swept, Hf. cbn [mbind option_bind]. by rewrite (fi_seen _ _ _ _ H), Ht.
    + exfalso. unfold last_traffic in Ht. apply fmap_None, last_None in Ht.
      assert (FoOpened f c t0 ∈ List.filter (λ o, Nat.eqb (fl_sock (out_flow o)) (fl_sock f)) outs) as Hin
        by (apply elem_of_filter_b; by rewrite Nat.eqb_refl).
      rewrite Ht in Hin. by apply not_elem_of_nil in Hin.
  - intros c f d now Hf Hp. unfold fwd_step, pump_down. rewrite (reader_found _ _ _ _ c f H Hf). by destruct (fw_phase w).
  - intros Hp from d now. assert (fwd_step opts w (FeRecv from d) = (flow_lookup from d w, [])) as Hs by (unfold fwd_step; by rewrite Hp).
    unfold fwd_run. cbn [foldl fst snd]. rewrite Hs. unfold flow_lookup. destruct (fw_flows w !! from) as [f|] eqn:Hf; [done|].
    cbn. unfold flow_room. cbn [fw_flows fwd_set_phase].
    destruct (Z.leb_spec (fo_max_flows opts) (Z.of_nat (size (fw_flows w)))); [by rewrite decide_False by lia|rewrite decide_True by lia].
    cbn. unfold flow_open. cbn. by rewrite Hf.
Qed.

Module ForwarderExample.
Definition addr (n : Z) : SocketAddr := (V4 n, 4000).
Definition opts : FwdOptions := mkFwdOptions 300 1 1000.
(** Two clients and room for one; the first idles out, and the second gets in. *)
Definition evs : list FwdEvent :=
  [FeRecv (addr 1) [7]; FeRoom; FeConnected true 10; FeForward 10; FeReply 0 [8] 50; FeRecv (addr 2) [9]; FeRoom;
   FeTick 349; FeRecv (addr 1) [7]; FeTick 350; FeForward 351; FeRecv (addr 2) [9]; FeRoom; FeConnected true 360].
Definition ran := fwd_run opts (fwd_bind opts (addr 0) 0) evs.
Lemma ran_outs : ran.2 = [FoOpened (mkFwdFlow 0 (addr 0)) (addr 1) 10; FoUp (mkFwdFlow 0 (addr 0)) (addr 1) [7] 10;
  FoDown (mkFwdFlow 0 (addr 0)) (addr 1) [8] 50; FoUp (mkFwdFlow 0 (addr 0)) (addr 1) [7] 351; FoOpened (mkFwdFlow 1 (addr 0)) (addr 2) 360].
Proof. vm_compute. reflexivity. Qed.
Lemma ran_eq : fwd_run opts (fwd_bind opts (addr 0) 0) evs = (ran.1, ran.2).
Proof. unfold ran. apply surjective_pairing. Qed.
End ForwarderExample.

Lemma forwarder_isolates_witness :
  Z.of_nat (size (fw_flows (ForwarderExample.ran).1)) ≤ 1 ∧
  (fwd_step ForwarderExample.opts (ForwarderExample.ran).1 (FeReply 1 [5] 400)).2 =
    [FoDown (mkFwdFlow 1 (ForwarderExample.addr 0)) (ForwarderExample.addr 2) [5] 400].
Proof.
  destruct (forwarder_isolates ForwarderExample.opts (ForwarderExample.addr 0) 0 ForwarderExample.evs (ForwarderExample.ran).1 (ForwarderExample.ran).2
    ltac:(by_decide) ForwarderExample.ran_eq) as (_ & _ & _ & _ & Hs & _ & _ & Hrep & _).
  split; [exact Hs|]. apply (Hrep (ForwarderExample.addr 2) (mkFwdFlow 1 (ForwarderExample.addr 0))); [vm_compute; reflexivity|vm_compute; discriminate].
Defined.
