(* ===== verification/Http.v ===== *)
(** * The blocking HTTPS clients (crates/nqvpn-proto/src/joinapi.rs, crates/nqvpn-update/src/lib.rs)

    Two small HTTP/1.1 clients, one for joins and one for updates, each of which
    reads a response to its end and takes it apart. Text is its bytes. *)

From S2P Require Import Rpc.
From S2P Require Import Prelude Text Credential Join Token Member.

(** ** What the clients use of [str] *)

(** [String::from_utf8_lossy]: each maximal piece of a character that is not one
    becomes U+FFFD. *)
Definition utf8_invalid (l : list Z) : nat :=
  match l with
  | b :: b2 :: r =>
      if (224 <=? b) && (b <=? 239) && utf8_second3 b b2 then 2%nat else
      if (240 <=? b) && (b <=? 244) && utf8_second4 b b2 then
        match r with b3 :: _ => if utf8_cont b3 then 3%nat else 2%nat | [] => 2%nat end
      else 1%nat
  | _ => 1%nat
  end.

Fixpoint utf8_lossy_run (fuel : nat) (l : list Z) : list Z :=
  match l, fuel with
  | [], _ | _, O => []
  | _, S n =>
      match utf8_char l with
      | Some r => take (length l - length r) l ++ utf8_lossy_run n r
      | None => [239; 191; 189] ++ utf8_lossy_run n (drop (utf8_invalid l) l)
      end
  end.
Definition from_utf8_lossy (l : list Z) : list Z := utf8_lossy_run (length l) l.

(** [split_once] at a string; the first place it occurs. *)
Fixpoint split_at (p s : list Z) : option (list Z * list Z) :=
  match strip_bytes p s with
  | Some r => Some ([], r)
  | None => match s with [] => None | b :: s' => (λ x : list Z * list Z, (b :: x.1, x.2)) <$> split_at p s' end
  end.
Definition contains (p s : list Z) : bool := match split_at p s with Some _ => true | None => false end.

(** [lines]: cut at newlines, with a carriage return before one taken off; a last
    line that is empty does not count. *)
Definition chomp (l : list Z) : list Z := match rev l with 13 :: r => rev r | _ => l end.
Fixpoint lines_run (cur s : list Z) : list (list Z) :=
  match s with
  | [] => match cur with [] => [] | _ => [rev cur] end
  | b :: s' => if b =? 10 then chomp (rev cur) :: lines_run [] s' else lines_run (b :: cur) s'
  end.
Definition str_lines (s : list Z) : list (list Z) := lines_run [] s.

(** [split_whitespace]: every turn takes a byte or more. *)
Fixpoint words_run (fuel : nat) (cur s : list Z) : list (list Z) :=
  let word := match cur with [] => [] | _ => [rev cur] end in
  match s, fuel with
  | [], _ | _, O => word
  | b :: s', S n =>
      match strip_any white_space s with
      | Some r => word ++ words_run n [] r
      | None => words_run n (b :: cur) s'
      end
  end.
Definition split_whitespace (s : list Z) : list (list Z) := words_run (length s) [] s.

Definition ascii_lower (b : Z) : Z := if (65 <=? b) && (b <=? 90) then b + 32 else b.
Definition to_ascii_lowercase (s : list Z) : list Z := ascii_lower <$> s.

Definition trim_text (s : list Z) : list Z :=
  let b := trim_bytes (length s) white_space s in
  rev (trim_bytes (length b) ((@rev Z) <$> white_space) (rev b)).

(** [from_str_radix]: a sign is accepted; out of range is an error. *)
Fixpoint digits_in (radix max acc : Z) (s : list Z) : option Z :=
  match s with
  | [] => Some acc
  | b :: s' => d ← to_digit radix b; if acc * radix + d <=? max then digits_in radix max (acc * radix + d) s' else None
  end.
Definition parse_uint (radix max : Z) (s : list Z) : option Z :=
  match match s with 43 :: r => r | r => r end with [] => None | r => digits_in radix max 0 r end.

Definition CRLF : list Z := [13; 10].
Definition CRLF2 : list Z := [13; 10; 13; 10].
Definition first_piece (c : Z) (s : list Z) : list Z := match split_bytes c s with Some (a, _) => a | None => s end.

(** The size a chunk's first line gives: what precedes an extension. *)
Definition chunk_size (line : list Z) : option Z := parse_uint 16 u64_max (trim_text (first_piece 59 line)).

Definition status_of (first : option (list Z)) : option Z := l ← first; s ← split_whitespace l !! 1%nat; parse_uint 10 65535 s.

(** ** The update client *)

Record HttpResponse := mkHttpResponse { hr_status : Z; hr_location : option (list Z); hr_body : list Z }.
Inductive HttpError : Set := HeMalformed | HeStatusLine | HeChunks | HeTruncated | HeNotHttps | HePort | HeNoHost | HeNetwork | HeTooLarge
  | HeNoLocation | HeStatus (code : Z) | HeRedirects.

(** Every chunk takes its size line, so the length is enough fuel. *)
Fixpoint dechunk_run (fuel : nat) (out rest : list Z) : option (list Z) :=
  match fuel with
  | O => None
  | S n =>
      p ← split_at CRLF rest;
      _ ← (if utf8_valid p.1 then Some tt else None);
      size ← chunk_size p.1;
      if size =? 0 then Some out else
      let k := Z.to_nat size in
      if Z.of_nat (length p.2) <? size then None else
      if (length p.2 <? k + 2)%nat then None else dechunk_run n (out ++ take k p.2) (drop (k + 2) p.2)
  end.
Definition dechunk (rest : list Z) : option (list Z) := dechunk_run (S (length rest)) [] rest.

Definition header_line (st : option (list Z) * bool * option Z) (line : list Z) : option (list Z) * bool * option Z :=
  match split_bytes 58 line with
  | None => st
  | Some (k, v) =>
      let k := to_ascii_lowercase (trim_text k) in let v := trim_text v in
      let '(location, chunked, len) := st in
      if bool_decide (k = str_bytes "location") then (Some v, chunked, len) else
      if bool_decide (k = str_bytes "transfer-encoding") then (location, contains (str_bytes "chunked") (to_ascii_lowercase v), len) else
      if bool_decide (k = str_bytes "content-length") then (location, chunked, parse_uint 10 u64_max v) else st
  end.

Definition update_parse_response (raw : list Z) : Result HttpResponse HttpError :=
  match split_at CRLF2 raw with
  | None => Err HeMalformed
  | Some (head, body) =>
      let ls := str_lines (from_utf8_lossy head) in
      match status_of (List.head ls) with
      | None => Err HeStatusLine
      | Some status =>
          let '(location, chunked, len) := foldl header_line (None, false, None) (tail ls) in
          if chunked then match dechunk body with Some b => Ok (mkHttpResponse status location b) | None => Err HeChunks end else
          match len with
          | Some n =>
              if Z.of_nat (length body) <? n then Err HeTruncated
              else Ok (mkHttpResponse status location (take (Z.to_nat n) body))
          | None => Ok (mkHttpResponse status location body)
          end
      end
  end.

(** [parse_url] of the update client: host, port, path. *)
Definition update_parse_url (url : list Z) : Result (list Z * Z * list Z) HttpError :=
  match strip_bytes (str_bytes "https://") url with
  | None => Err HeNotHttps
  | Some rest =>
      let '(authority, path) := match split_bytes 47 rest with Some (a, p) => (a, 47 :: p) | None => (rest, [47]) end in
      let? hp := match rsplit_bytes 58 authority with
        | Some (h, p) => match parse_uint 10 65535 p with Some port => Ok (h, port) | None => Err HePort end
        | None => Ok (authority, 443)
        end in
      match hp.1 with [] => Err HeNoHost | _ => Ok (hp, path) end
  end.

(** ** The join client *)

(** [str::is_char_boundary] and [str::get] at one. *)
Definition is_char_boundary (s : list Z) (i : nat) : bool :=
  (i =? 0)%nat || (i =? length s)%nat || match s !! i with Some b => negb (utf8_cont b) | None => false end.
Definition str_get_to (s : list Z) (i : nat) : option (list Z) := if is_char_boundary s i then Some (take i s) else None.
Definition str_get_from (s : list Z) (i : nat) : option (list Z) := if is_char_boundary s i then Some (drop i s) else None.

Fixpoint join_dechunk_run (fuel : nat) (out rest : list Z) : option (list Z) :=
  match fuel with
  | O => None
  | S n =>
      p ← split_at CRLF rest;
      size ← chunk_size p.1;
      if size =? 0 then Some out else
      if Z.of_nat (length p.2) <? size then None else
      let k := Z.to_nat size in
      piece ← str_get_to p.2 k;
      rest' ← str_get_from p.2 (k + 2);
      join_dechunk_run n (out ++ piece) rest'
  end.
Definition join_dechunk (body : list Z) : option (list Z) := join_dechunk_run (S (length body)) [] body.

Definition is_chunked_line (l : list Z) : bool :=
  bool_decide (is_Some (strip_bytes (str_bytes "transfer-encoding:") (to_ascii_lowercase l))) && contains (str_bytes "chunked") (to_ascii_lowercase l).

(** serde_json, for the two bodies the coordinator sends. *)
Class JoinJson := { error_code_of : list Z → option string; join_response_of : list Z → option JoinResponse }.

Definition join_parse_response `{J : JoinJson} (raw : list Z) : Result JoinResponse JoinError :=
  match split_at CRLF2 (from_utf8_lossy raw) with
  | None => Err JeMalformed
  | Some (head, payload) =>
      match status_of (List.head (str_lines head)) with
      | None => Err JeMalformed
      | Some status =>
          match (if existsb is_chunked_line (str_lines head) then join_dechunk payload else Some payload) with
          | None => Err JeMalformed
          | Some payload =>
              if negb (status =? 200) then
                Err (JeRejected status match error_code_of payload with
                  | Some code => code_parse code
                  | None => UnknownCode ("http_" +:+ bytes_str (fmt_digits 5 10 status))
                  end)
              else match join_response_of payload with Some r => Ok r | None => Err JeJson end
          end
      end
  end.

(** ** Reading what was written *)

Definition graphic (b : Z) : Prop := 33 ≤ b ≤ 126.
Definition printable (b : Z) : Prop := 32 ≤ b ≤ 126.

Lemma split_at_skip p c l s : head p = Some c → Forall (λ b, b ≠ c) l →
  split_at p (l ++ s) = (λ x : list Z * list Z, (l ++ x.1, x.2)) <$> split_at p s.
Proof.
  intros Hp. induction l as [|b l IH]; intros Hl; cbn [app].
  - destruct (split_at p s) as [[]|]; done.
  - apply Forall_cons in Hl as [Hb Hl]. destruct p as [|c' p]; [done|]. injection Hp as ->. cbn [split_at strip_bytes].
    destruct (Z.eqb_spec c b); [congruence|]. rewrite (IH Hl). by destruct (split_at (c :: p) s).
Qed.

Lemma split_at_step p b s : strip_bytes p (b :: s) = None → split_at p (b :: s) = (λ x : list Z * list Z, (b :: x.1, x.2)) <$> split_at p s.
Proof. intros H. cbn [split_at]. by rewrite H. Qed.

Lemma split_at_here p s : split_at p (p ++ s) = Some ([], s).
Proof. destruct (p ++ s) eqn:E; cbn; rewrite <- E; by rewrite (proj2 (strip_bytes_some _ _ _) eq_refl). Qed.

Lemma split_at_first p c l s : head p = Some c → Forall (λ b, b ≠ c) l → split_at p (l ++ p ++ s) = Some (l, s).
Proof. intros Hp Hl. rewrite (split_at_skip p c) by done. rewrite split_at_here. cbn. by rewrite app_nil_r. Qed.

Definition line_ok (l : list Z) : Prop := l ≠ [] ∧ Forall printable l.

Lemma printable_not c l : Forall printable l → c < 32 → Forall (λ b, b ≠ c) l.
Proof. intros H Hc. eapply Forall_impl; [exact H|]. unfold printable. cbn. lia. Qed.

(** The blank line is the first one there is. *)
Lemma split_head ls s : ls ≠ [] → Forall line_ok ls → split_at CRLF2 (join_with CRLF ls ++ CRLF2 ++ s) = Some (join_with CRLF ls, s).
Proof.
  induction ls as [|l ls IH]; intros Hne Hl; [done|]. apply Forall_cons in Hl as [[Hl0 Hl] Hls]. destruct ls as [|l' ls].
  - cbn [join_with]. apply (split_at_first CRLF2 13); [done|]. by apply printable_not.
  - assert (join_with CRLF (l :: l' :: ls) = l ++ CRLF ++ join_with CRLF (l' :: ls)) as -> by done. rewrite <- !app_assoc.
    rewrite (split_at_skip CRLF2 13) by (done || by apply printable_not).
    specialize (IH ltac:(done) Hls). set (rest := join_with CRLF (l' :: ls) ++ CRLF2 ++ s) in *.
    assert (∃ b r, rest = b :: r ∧ b ≠ 13) as (b & r & Hr & Hb).
    { apply Forall_cons in Hls as [[H1 H2] _]. destruct l' as [|b l']; [done|]. apply Forall_cons in H2 as [H2 _]. unfold printable in H2.
      unfold rest. destruct ls; cbn; eexists b, _; (split; [done|lia]). }
    assert (split_at CRLF2 (CRLF ++ rest) = (λ x : list Z * list Z, (CRLF ++ x.1, x.2)) <$> split_at CRLF2 rest) as ->.
    { cbn [app CRLF]. rewrite !split_at_step; [by destruct (split_at CRLF2 rest) as [[]|]|done|].
      rewrite Hr. cbn. by destruct b as [|q|]; try done; destruct (Pos.eqb_spec 13 q); [subst|]. }
    rewrite IH. done.
Qed.

Lemma chomp_snoc l : chomp (l ++ [13]) = l.
Proof. unfold chomp. rewrite rev_app_distr. cbn. apply rev_involutive. Qed.

Lemma lines_run_line cur l s : Forall printable l → lines_run cur (l ++ s) = lines_run (rev l ++ cur) s.
Proof.
  revert cur. induction l as [|b l IH]; intros cur Hl; cbn [app]; [done|]. apply Forall_cons in Hl as [Hb Hl]. cbn [lines_run].
  unfold printable in Hb. destruct (Z.eqb_spec b 10); [lia|]. rewrite IH by done. cbn [rev]. by rewrite <- app_assoc.
Qed.

Lemma str_lines_join ls : Forall line_ok ls → str_lines (join_with CRLF ls) = ls.
Proof.
  unfold str_lines. induction ls as [|l ls IH]; intros Hl; [done|]. apply Forall_cons in Hl as [[Hl0 Hl] Hls]. destruct ls as [|l' ls].
  - cbn [join_with]. rewrite <- (app_nil_r l) at 1. rewrite lines_run_line by done. cbn. rewrite app_nil_r, rev_involutive.
    destruct (rev l) as [|x r] eqn:E; [|done]. destruct Hl0. rewrite <- (rev_involutive l), E. done.
  - assert (join_with CRLF (l :: l' :: ls) = l ++ 13 :: 10 :: join_with CRLF (l' :: ls)) as -> by done.
    rewrite lines_run_line by done. cbn [lines_run Z.eqb Pos.eqb]. rewrite app_nil_r. cbn [rev]. rewrite rev_involutive, chomp_snoc.
    by rewrite IH.
Qed.

(** ** Lossy decoding keeps what is valid *)

Lemma utf8_char_suffix l r : utf8_char l = Some r → ∃ c, l = c ++ r ∧ c ≠ [].
Proof.
  unfold utf8_char. intros H. repeat case_match; simplify_eq; try done.
  all: match goal with |- ∃ c, ?a :: ?b :: ?x :: ?y :: ?r = c ++ ?r ∧ _ => exists [a; b; x; y] | |- ∃ c, ?a :: ?b :: ?x :: ?r = c ++ ?r ∧ _ => exists [a; b; x]
    | |- ∃ c, ?a :: ?b :: ?r = c ++ ?r ∧ _ => exists [a; b] | |- ∃ c, ?a :: ?r = c ++ ?r ∧ _ => exists [a] end; done.
Qed.

Lemma lossy_valid l : utf8_valid l = true → from_utf8_lossy l = l.
Proof.
  unfold utf8_valid, from_utf8_lossy. generalize (length l) as n. intros n. revert l. induction n as [|n IH]; intros [|b l]; try done.
  cbn [utf8_run utf8_lossy_run]. destruct (utf8_char (b :: l)) as [r|] eqn:E; [|done]. intros H%IH. rewrite H.
  apply utf8_char_suffix in E as (c & -> & _). rewrite length_app, Nat.add_sub. by rewrite take_app_length.
Qed.

(** ** Words, numbers and trimming *)

Lemma words_run_word n cur w s : Forall graphic w → words_run (length w + n) cur (w ++ s) = words_run n (rev w ++ cur) s.
Proof.
  revert cur. induction w as [|b w IH]; intros cur Hw; [done|]. apply Forall_cons in Hw as [Hb Hw]. cbn [length Nat.add app words_run].
  assert (strip_any white_space (b :: w ++ s) = None) as ->.
  { apply strip_any_none. intros p s' Hp E.
    assert (match p with x :: _ => (x <? 33) || (126 <? x) | [] => false end = true) as H.
    { revert p Hp E. assert (Forall (λ p, match p with x :: _ => (x <? 33) || (126 <? x) | [] => false end = true) white_space) as H by by_decide.
      rewrite Forall_forall in H. intros p Hp _. by apply H. }
    destruct p as [|x p]; [done|]. injection E as -> _. unfold graphic in Hb. apply orb_true_iff in H as [?%Z.ltb_lt|?%Z.ltb_lt]; lia. }
  rewrite IH by done. cbn [rev]. by rewrite <- app_assoc.
Qed.

Lemma words_run_space n cur s : words_run (S n) cur (32 :: s) = match cur with [] => [] | _ => [rev cur] end ++ words_run n [] s.
Proof. done. Qed.


Lemma digits_in_app radix max acc l l' :
  digits_in radix max acc (l ++ l') = v ← digits_in radix max acc l; digits_in radix max v l'.
Proof.
  revert acc. induction l as [|b l IH]; intros acc; cbn; [done|]. destruct (to_digit radix b) as [d|]; cbn; [|done].
  case_match; [apply IH|done].
Qed.

Definition radix_ok (radix : Z) : Prop := radix = 10 ∨ radix = 16.
Definition digit_char (d : Z) : Z := if d <? 10 then 48 + d else 87 + d.

Lemma to_digit_char radix d : radix_ok radix → 0 ≤ d < radix → to_digit radix (digit_char d) = Some d ∧ graphic (digit_char d) ∧
  digit_char d ≠ 43 ∧ digit_char d ≠ 59.
Proof.
  intros Hr Hd. assert (d ∈ seqZ 0 16) as Hin by (apply elem_of_seqZ; unfold radix_ok in Hr; lia).
  assert (Forall (λ d, d < 10 → to_digit 10 (digit_char d) = Some d) (seqZ 0 16)) as H10 by (vm_compute; repeat constructor; try done; intros; lia).
  assert (Forall (λ d, to_digit 16 (digit_char d) = Some d ∧ graphic (digit_char d) ∧ digit_char d ≠ 43 ∧ digit_char d ≠ 59) (seqZ 0 16)) as H16
    by (unfold graphic; vm_compute; repeat constructor; done).
  rewrite Forall_forall in H10, H16. destruct (H16 d Hin) as (H1 & H2 & H3 & H4). split_and!; try done.
  destruct Hr as [->| ->]; [|done]. apply H10; [done|lia].
Qed.

Lemma fmt_digits_S n radix x : fmt_digits (S n) radix x = (if x <? radix then [] else fmt_digits n radix (x / radix)) ++ [digit_char (x mod radix)].
Proof. done. Qed.

Lemma fmt_digits_read n radix max x : radix_ok radix → 0 ≤ x ≤ max → x < radix ^ Z.of_nat n → digits_in radix max 0 (fmt_digits n radix x) = Some x.
Proof.
  intros Hr. assert (1 < radix) as H1 by (unfold radix_ok in Hr; lia). revert x. induction n as [|n IH]; intros x Hx Hp; [cbn in Hp; cbn; f_equal; lia|].
  rewrite fmt_digits_S, digits_in_app. pose proof (Z.mod_pos_bound x radix ltac:(lia)) as Hm. pose proof (Z.div_mod x radix ltac:(lia)) as Hd.
  assert ((if x <? radix then [] else fmt_digits n radix (x / radix)) = [] ∧ x / radix = 0 ∨
    digits_in radix max 0 (if x <? radix then [] else fmt_digits n radix (x / radix)) = Some (x / radix)) as Hpre.
  { destruct (Z.ltb_spec x radix); [left; split; [done|apply Z.div_small; lia]|right].
    rewrite Nat2Z.inj_succ, Z.pow_succ_r in Hp by lia. apply IH; [|apply Z.div_lt_upper_bound; lia].
    split; [apply Z.div_pos; lia|]. etrans; [apply Z.div_le_upper_bound with (q := x); nia|lia]. }
  assert (digits_in radix max 0 (if x <? radix then [] else fmt_digits n radix (x / radix)) = Some (x / radix)) as ->
    by (destruct Hpre as [[-> ->]|]; done).
  cbn [mbind option_bind digits_in]. rewrite (proj1 (to_digit_char radix _ Hr Hm)). cbn [mbind option_bind].
  replace (x / radix * radix + x mod radix) with x by lia. destruct (Z.leb_spec x max); [done|lia].
Qed.

Lemma fmt_digits_chars n radix x : radix_ok radix → 0 ≤ x → Forall (λ b, graphic b ∧ b ≠ 43 ∧ b ≠ 59) (fmt_digits n radix x).
Proof.
  intros Hr. assert (1 < radix) as H1 by (unfold radix_ok in Hr; lia). revert x. induction n as [|n IH]; intros x Hx; [constructor|].
  rewrite fmt_digits_S. apply Forall_app. split; [case_match; [constructor|apply IH, Z.div_pos; lia]|].
  constructor; [|done]. apply (to_digit_char radix); [done|]. apply Z.mod_pos_bound. lia.
Qed.

Lemma fmt_digits_nonempty n radix x : fmt_digits (S n) radix x ≠ [].
Proof. rewrite fmt_digits_S. intros [_ ?]%app_eq_nil. done. Qed.

Lemma parse_fmt n radix max x : radix_ok radix → 0 ≤ x ≤ max → x < radix ^ Z.of_nat (S n) → parse_uint radix max (fmt_digits (S n) radix x) = Some x.
Proof.
  intros Hr Hx Hp. pose proof (fmt_digits_read (S n) radix max x Hr Hx Hp) as Hd. pose proof (fmt_digits_nonempty n radix x) as Hne.
  pose proof (fmt_digits_chars (S n) radix x Hr ltac:(lia)) as Hc. destruct (fmt_digits (S n) radix x) as [|b l]; [done|].
  apply Forall_cons in Hc as [(_ & Hb & _) _]. unfold parse_uint.
  destruct b as [|b|]; try exact Hd. do 6 (destruct b as [b|b|]; try exact Hd). done.
Qed.

Lemma trim_text_graphic l : Forall graphic l → trim_text l = l.
Proof.
  intros H. unfold trim_text. rewrite (trim_bytes_stop _ white_space l (proj1 (graphic_no_space _ H))).
  rewrite (trim_bytes_stop _ _ (rev l) (proj2 (graphic_no_space _ (List.Forall_rev H)))). apply rev_involutive.
Qed.

Lemma trim_text_space v : trim_text (32 :: v) = trim_text v.
Proof. done. Qed.

Lemma split_bytes_first c k v : Forall (λ b, b ≠ c) k → split_bytes c (k ++ c :: v) = Some (k, v).
Proof.
  induction k as [|x k IH]; intros Hk; cbn [app split_bytes]; [by rewrite Z.eqb_refl|]. apply Forall_cons in Hk as [Hx Hk].
  destruct (Z.eqb_spec x c); [done|]. by rewrite IH.
Qed.

Lemma split_bytes_none c k : Forall (λ b, b ≠ c) k → split_bytes c k = None.
Proof.
  induction k as [|x k IH]; intros Hk; [done|]. apply Forall_cons in Hk as [Hx Hk]. cbn. destruct (Z.eqb_spec x c); [done|]. by rewrite IH.
Qed.

(** ** A server's responses *)

Record Chunk := mkChunk { ck_data : list Z; ck_ext : option (list Z) }.
Inductive Framing : Type :=
| ByLength (body extra : list Z)
| ByChunks (chunks : list Chunk) (trailer : list Z)
| ByClose (body : list Z).

Definition chunk_line (c : Chunk) : list Z :=
  fmt_digits 16 16 (Z.of_nat (length (ck_data c))) ++ match ck_ext c with Some e => 59 :: e | None => [] end.
Definition chunk_bytes (c : Chunk) : list Z := chunk_line c ++ CRLF ++ ck_data c ++ CRLF.
Definition chunks_bytes (cs : list Chunk) (trailer : list Z) : list Z := mjoin (chunk_bytes <$> cs) ++ 48 :: CRLF ++ trailer.

Definition framing_headers (f : Framing) : list (list Z * list Z) :=
  match f with
  | ByLength body _ => [(str_bytes "Content-Length", fmt_digits 20 10 (Z.of_nat (length body)))]
  | ByChunks _ _ => [(str_bytes "Transfer-Encoding", str_bytes "chunked")]
  | ByClose _ => []
  end.
Definition framing_bytes (f : Framing) : list Z :=
  match f with ByLength body extra => body ++ extra | ByChunks cs trailer => chunks_bytes cs trailer | ByClose body => body end.
Definition framing_body (f : Framing) : list Z :=
  match f with ByLength body _ => body | ByChunks cs _ => mjoin (ck_data <$> cs) | ByClose body => body end.

Definition status_line (status : Z) (reason : list Z) : list Z := str_bytes "HTTP/1.1" ++ 32 :: fmt_digits 3 10 status ++ 32 :: reason.
Definition header_bytes (h : list Z * list Z) : list Z := h.1 ++ 58 :: 32 :: h.2.
Definition head_lines (status : Z) (reason : list Z) (headers : list (list Z * list Z)) (f : Framing) : list (list Z) :=
  status_line status reason :: (header_bytes <$> headers ++ framing_headers f).
Definition http_message (status : Z) (reason : list Z) (headers : list (list Z * list Z)) (f : Framing) : list Z :=
  join_with CRLF (head_lines status reason headers f) ++ CRLF2 ++ framing_bytes f.

(** A header that says nothing of how the body is framed. *)
Definition header_ok (h : list Z * list Z) : Prop :=
  Forall (λ b, graphic b ∧ b ≠ 58) h.1 ∧ Forall printable h.2 ∧ trim_text h.2 = h.2 ∧
  to_ascii_lowercase h.1 ≠ str_bytes "transfer-encoding" ∧ to_ascii_lowercase h.1 ≠ str_bytes "content-length".
Definition chunk_ok (c : Chunk) : Prop :=
  ck_data c ≠ [] ∧ Z.of_nat (length (ck_data c)) < 2 ^ 64 ∧ match ck_ext c with Some e => Forall printable e | None => True end.
Definition framing_ok (f : Framing) : Prop :=
  match f with ByLength body _ => Z.of_nat (length body) < 2 ^ 64 | ByChunks cs _ => Forall chunk_ok cs | ByClose _ => True end.

Definition location_of (headers : list (list Z * list Z)) : option (list Z) :=
  foldl (λ loc h, if bool_decide (to_ascii_lowercase h.1 = str_bytes "location") then Some h.2 else loc) None headers.

Lemma digits_printable n radix x : radix_ok radix → 0 ≤ x → Forall graphic (fmt_digits n radix x).
Proof. intros Hr Hx. eapply Forall_impl; [by apply fmt_digits_chars|]. by intros ? []. Qed.

Lemma graphic_printable l : Forall graphic l → Forall printable l.
Proof. intros H. eapply Forall_impl; [exact H|]. unfold graphic, printable. cbn. lia. Qed.

Lemma chunk_line_ok c : chunk_ok c → Forall printable (chunk_line c) ∧ chunk_size (chunk_line c) = Some (Z.of_nat (length (ck_data c))).
Proof.
  intros (Hd & Hl & He). pose proof (fmt_digits_chars 16 16 (Z.of_nat (length (ck_data c))) ltac:(by right) ltac:(lia)) as Hc.
  pose proof (digits_printable 16 16 (Z.of_nat (length (ck_data c))) ltac:(by right) ltac:(lia)) as Hg. unfold chunk_line. split.
  - apply Forall_app. split; [by apply graphic_printable|]. destruct (ck_ext c); [|constructor]. constructor; [unfold printable; lia|done].
  - unfold chunk_size, first_piece.
    assert (Forall (λ b, b ≠ 59) (fmt_digits 16 16 (Z.of_nat (length (ck_data c))))) as H59 by (eapply Forall_impl; [exact Hc|]; by intros ? (_ & _ & ?)).
    assert (match split_bytes 59 (fmt_digits 16 16 (Z.of_nat (length (ck_data c))) ++ match ck_ext c with Some e => 59 :: e | None => [] end) with
      | Some (a, _) => a | None => fmt_digits 16 16 (Z.of_nat (length (ck_data c))) ++ match ck_ext c with Some e => 59 :: e | None => [] end end
      = fmt_digits 16 16 (Z.of_nat (length (ck_data c)))) as ->.
    { destruct (ck_ext c); [by rewrite split_bytes_first|]. rewrite app_nil_r. by rewrite split_bytes_none. }
    rewrite trim_text_graphic by done. apply parse_fmt; [by right|unfold u64_max; lia|done].
Qed.

Lemma valid_ascii l : Forall printable l → utf8_valid l = true.
Proof. intros H. apply utf8_ascii. eapply Forall_impl; [exact H|]. unfold printable. lia. Qed.

(** Fuel beyond the length changes nothing, so one chunk can be taken off. *)
Lemma dechunk_chunk n out c rest : chunk_ok c → dechunk_run (S n) out (chunk_bytes c ++ rest) = dechunk_run n (out ++ ck_data c) rest.
Proof.
  intros Hc. destruct (chunk_line_ok c Hc) as [Hp Hs]. destruct Hc as (Hd & Hl & _). cbn [dechunk_run]. unfold chunk_bytes. rewrite <- !app_assoc.
  rewrite (split_at_first CRLF 13) by (done || by apply printable_not). cbn [mbind option_bind fst snd].
  rewrite (valid_ascii _ Hp). cbn [mbind option_bind]. rewrite Hs. cbn [mbind option_bind].
  destruct (Z.eqb_spec (Z.of_nat (length (ck_data c))) 0); [destruct (ck_data c); [done|cbn in *; lia]|].
  rewrite !length_app, Nat2Z.id. cbn [length CRLF]. destruct (Z.ltb_spec (Z.of_nat (length (ck_data c) + (2 + length rest))) (Z.of_nat (length (ck_data c)))); [lia|].
  destruct (Nat.ltb_spec (length (ck_data c) + (2 + length rest)) (length (ck_data c) + 2)); [lia|].
  rewrite take_app_length, app_assoc. rewrite (drop_app_length' (ck_data c ++ CRLF)) by (by rewrite length_app). done.
Qed.

Lemma dechunk_end n out trailer : dechunk_run (S n) out (48 :: CRLF ++ trailer) = Some out.
Proof. done. Qed.

Lemma chunk_bytes_long c : (1 ≤ length (chunk_bytes c))%nat.
Proof. unfold chunk_bytes. rewrite !length_app. cbn. lia. Qed.

Lemma dechunk_chunks cs trailer : Forall chunk_ok cs → dechunk (chunks_bytes cs trailer) = Some (mjoin (ck_data <$> cs)).
Proof.
  intros Hc. unfold dechunk. assert (∀ n out, (length (chunks_bytes cs trailer) < n)%nat →
    dechunk_run n out (chunks_bytes cs trailer) = Some (out ++ mjoin (ck_data <$> cs))) as H.
  { induction cs as [|c cs IH]; intros n out Hn.
    - destruct n; [cbn in Hn; lia|]. cbn [fmap list_fmap mjoin list_join]. rewrite app_nil_r. apply dechunk_end.
    - apply Forall_cons in Hc as [Hc Hcs].
      assert (chunks_bytes (c :: cs) trailer = chunk_bytes c ++ chunks_bytes cs trailer) as E by (unfold chunks_bytes; cbn; by rewrite <- app_assoc).
      rewrite E in *. rewrite length_app in Hn. pose proof (chunk_bytes_long c). destruct n as [|n]; [lia|].
      rewrite dechunk_chunk by done. rewrite IH by (done || lia). cbn. by rewrite <- app_assoc. }
  rewrite H by lia. done.
Qed.

(** The join client counts bytes in decoded text: a chunk ends before the next
    line, which starts with a digit. *)
Lemma boundary_at a b s : utf8_cont b = false → is_char_boundary (a ++ b :: s) (length a) = true.
Proof. intros Hb. unfold is_char_boundary. rewrite list_lookup_middle by done. rewrite Hb. by rewrite !orb_true_r. Qed.

Lemma join_dechunk_chunk n out c b rest : chunk_ok c → utf8_cont b = false →
  join_dechunk_run (S n) out (chunk_bytes c ++ b :: rest) = join_dechunk_run n (out ++ ck_data c) (b :: rest).
Proof.
  intros Hc Hb. destruct (chunk_line_ok c Hc) as [Hp Hs]. destruct Hc as (Hd & Hl & _). cbn [join_dechunk_run]. unfold chunk_bytes. rewrite <- !app_assoc.
  rewrite (split_at_first CRLF 13) by (done || by apply printable_not). cbn [mbind option_bind fst snd]. rewrite Hs. cbn [mbind option_bind].
  destruct (Z.eqb_spec (Z.of_nat (length (ck_data c))) 0); [destruct (ck_data c); [done|cbn in *; lia]|].
  rewrite !length_app, Nat2Z.id. cbn [length CRLF]. destruct (Z.ltb_spec (Z.of_nat (length (ck_data c) + (2 + S (length rest)))) (Z.of_nat (length (ck_data c)))); [lia|].
  unfold str_get_to, str_get_from. change (CRLF ++ b :: rest) with (13 :: 10 :: b :: rest). rewrite boundary_at by done. cbn [mbind option_bind].
  replace (ck_data c ++ 13 :: 10 :: b :: rest) with ((ck_data c ++ CRLF) ++ b :: rest) by (by rewrite <- app_assoc).
  replace (length (ck_data c) + 2)%nat with (length (ck_data c ++ CRLF)) by (by rewrite length_app).
  rewrite boundary_at by done. cbn [mbind option_bind]. rewrite drop_app_length. rewrite <- app_assoc. by rewrite take_app_length.
Qed.

Lemma chunks_head cs trailer : ∃ b r, chunks_bytes cs trailer = b :: r ∧ utf8_cont b = false.
Proof.
  destruct cs as [|c cs]; [by eexists _, _|]. unfold chunks_bytes. cbn [fmap list_fmap mjoin list_join]. unfold chunk_bytes, chunk_line. rewrite <- !app_assoc.
  pose proof (fmt_digits_chars 16 16 (Z.of_nat (length (ck_data c))) ltac:(by right) ltac:(lia)) as H.
  pose proof (fmt_digits_nonempty 15 16 (Z.of_nat (length (ck_data c)))). destruct (fmt_digits 16 16 _) as [|b l]; [done|].
  apply Forall_cons in H as [[Hg _] _]. eexists b, _. split; [done|]. unfold graphic in Hg. unfold utf8_cont. lia.
Qed.

Lemma join_dechunk_chunks cs trailer : Forall chunk_ok cs → join_dechunk (chunks_bytes cs trailer) = Some (mjoin (ck_data <$> cs)).
Proof.
  intros Hc. unfold join_dechunk. assert (∀ n out, (length (chunks_bytes cs trailer) < n)%nat →
    join_dechunk_run n out (chunks_bytes cs trailer) = Some (out ++ mjoin (ck_data <$> cs))) as H.
  { induction cs as [|c cs IH]; intros n out Hn.
    - destruct n; [cbn in Hn; lia|]. cbn [fmap list_fmap mjoin list_join]. by rewrite app_nil_r.
    - apply Forall_cons in Hc as [Hc Hcs].
      assert (chunks_bytes (c :: cs) trailer = chunk_bytes c ++ chunks_bytes cs trailer) as E by (unfold chunks_bytes; cbn; by rewrite <- app_assoc).
      rewrite E in *. rewrite length_app in Hn. pose proof (chunk_bytes_long c). destruct n as [|n]; [lia|]. specialize (IH Hcs n (out ++ ck_data c) ltac:(lia)).
      destruct (chunks_head cs trailer) as (b & r & Hb & Hu). rewrite Hb in *. rewrite join_dechunk_chunk by done. rewrite IH. cbn. by rewrite <- app_assoc. }
  rewrite H by lia. done.
Qed.

(** ** The head *)

Lemma str_bytes_printable s : bool_decide (Forall (λ b, 33 ≤ b ≤ 126) (str_bytes s)) = true → Forall graphic (str_bytes s).
Proof. by intros ?%bool_decide_eq_true. Qed.

Lemma header_line_ok h : header_ok h → line_ok (header_bytes h).
Proof.
  intros (Hk & Hv & _). unfold header_bytes. split; [intros [_ ?]%app_eq_nil; done|]. apply Forall_app. split.
  - eapply Forall_impl; [exact Hk|]. unfold graphic, printable. cbn. lia.
  - repeat constructor; [unfold printable; lia..|done].
Qed.

Lemma status_line_ok status reason : 100 ≤ status ≤ 999 → Forall printable reason → line_ok (status_line status reason) ∧
  status_of (Some (status_line status reason)) = Some status.
Proof.
  intros Hs Hr. pose proof (digits_printable 3 10 status ltac:(by left) ltac:(lia)) as Hd.
  pose proof (str_bytes_printable "HTTP/1.1" eq_refl) as Hh. unfold status_line. split.
  - split; [done|]. apply Forall_app. split; [by apply graphic_printable|]. constructor; [unfold printable; lia|].
    apply Forall_app. split; [by apply graphic_printable|]. constructor; [unfold printable; lia|done].
  - unfold status_of. cbn [mbind option_bind]. unfold split_whitespace. rewrite length_app, words_run_word by done. cbn [length].
    rewrite words_run_space, length_app, words_run_word by done. cbn [length]. rewrite words_run_space.
    rewrite !app_nil_r, !rev_involutive. pose proof (fmt_digits_nonempty 2 10 status).
    destruct (rev (str_bytes "HTTP/1.1")) eqn:E1; [done|].
    destruct (rev (fmt_digits 3 10 status)) as [|x l'] eqn:E2; [by apply (f_equal (@rev Z)) in E2; rewrite rev_involutive in E2|].
    cbn [app lookup list_lookup mbind option_bind]. apply parse_fmt; [by left|lia|cbn; lia].
Qed.

Lemma framing_header_line f : framing_ok f → Forall (λ h, Forall (λ b, graphic b ∧ b ≠ 58) h.1 ∧ Forall graphic h.2) (framing_headers f).
Proof.
  intros Hf. destruct f; cbn [framing_headers]; [| |constructor]; (constructor; [|constructor]); cbn [fst snd]; split;
    try (unfold graphic; by_decide). apply digits_printable; [by left|lia].
Qed.

Lemma head_ok status reason headers f : 100 ≤ status ≤ 999 → Forall printable reason → Forall header_ok headers → framing_ok f →
  Forall line_ok (head_lines status reason headers f).
Proof.
  intros Hs Hr Hh Hf. constructor; [by apply status_line_ok|]. rewrite fmap_app. apply Forall_app. split; apply Forall_fmap.
  - eapply Forall_impl; [exact Hh|]. apply header_line_ok.
  - eapply Forall_impl; [by apply framing_header_line|]. intros h [Hk Hv]. unfold header_bytes. split; [intros [_ ?]%app_eq_nil; done|].
    apply Forall_app. split; [eapply Forall_impl; [exact Hk|]; unfold graphic, printable; cbn; lia|].
    repeat constructor; [unfold printable; lia..|by apply graphic_printable].
Qed.

Lemma name_read k v st : Forall (λ b, graphic b ∧ b ≠ 58) k →
  header_line st (header_bytes (k, v)) =
    (let k := to_ascii_lowercase k in let v := trim_text v in let '(location, chunked, len) := st in
      if bool_decide (k = str_bytes "location") then (Some v, chunked, len) else
      if bool_decide (k = str_bytes "transfer-encoding") then (location, contains (str_bytes "chunked") (to_ascii_lowercase v), len) else
      if bool_decide (k = str_bytes "content-length") then (location, chunked, parse_uint 10 u64_max v) else st).
Proof.
  intros Hk. unfold header_line, header_bytes. cbn [fst snd].
  rewrite split_bytes_first by (eapply Forall_impl; [exact Hk|]; by intros ? []). rewrite trim_text_space.
  by rewrite (trim_text_graphic k) by (eapply Forall_impl; [exact Hk|]; by intros ? []).
Qed.

Lemma headers_read headers loc ch len : Forall header_ok headers →
  foldl header_line (loc, ch, len) (header_bytes <$> headers) =
    (foldl (λ loc h, if bool_decide (to_ascii_lowercase h.1 = str_bytes "location") then Some h.2 else loc) loc headers, ch, len).
Proof.
  revert loc. induction headers as [|[k v] hs IH]; intros loc Hh; [done|]. apply Forall_cons in Hh as [(Hk & _ & Hv & Ht & Hc) Hh]. cbn [fst snd] in *.
  cbn [fmap list_fmap foldl]. rewrite (name_read k v _ Hk). cbn zeta. rewrite Hv. cbn [fst snd].
  rewrite (bool_decide_eq_false_2 _ Ht), (bool_decide_eq_false_2 _ Hc). case_bool_decide; by rewrite IH.
Qed.

Definition read_framing (f : Framing) (st : option (list Z)) : option (list Z) * bool * option Z :=
  match f with
  | ByLength body _ => (st, false, Some (Z.of_nat (length body)))
  | ByChunks _ _ => (st, true, None)
  | ByClose _ => (st, false, None)
  end.

Lemma framing_read f loc : framing_ok f → foldl header_line (loc, false, None) (header_bytes <$> framing_headers f) = read_framing f loc.
Proof.
  intros Hf. destruct f as [body extra|cs t|body]; [|done|done]. cbn [framing_headers fmap list_fmap foldl].
  rewrite name_read by (unfold graphic; by_decide). cbn zeta. rewrite trim_text_graphic by (apply digits_printable; [by left|lia]).
  rewrite (bool_decide_eq_false_2 (to_ascii_lowercase _ = str_bytes "location")), (bool_decide_eq_false_2 (to_ascii_lowercase _ = str_bytes "transfer-encoding")),
    (bool_decide_eq_true_2 (to_ascii_lowercase _ = str_bytes "content-length")) by (vm_compute; done).
  rewrite parse_fmt; [done|by left|cbn in Hf; unfold u64_max; lia|]. cbn in Hf. etrans; [exact Hf|]. done.
Qed.

Lemma head_ascii ls : Forall line_ok ls → utf8_valid (join_with CRLF ls) = true.
Proof.
  intros Hl. apply utf8_ascii. induction Hl as [|l ls [_ Hl] Hls IH]; [constructor|]. assert (Forall (λ b, b < 128) l) as Hl'.
  { eapply Forall_impl; [exact Hl|]. unfold printable. cbn. lia. }
  destruct ls; [done|]. cbn [join_with]. apply Forall_app. split; [done|]. apply Forall_app. split; [repeat constructor; lia|done].
Qed.

(** What the update client makes of a well-formed head, whatever follows it. *)
Lemma update_after_head status reason headers f rest : 100 ≤ status ≤ 999 → Forall printable reason → Forall header_ok headers → framing_ok f →
  update_parse_response (join_with CRLF (head_lines status reason headers f) ++ CRLF2 ++ rest) =
    let loc := location_of headers in
    match f with
    | ByLength body _ => if Z.of_nat (length rest) <? Z.of_nat (length body) then Err HeTruncated else Ok (mkHttpResponse status loc (take (length body) rest))
    | ByChunks _ _ => match dechunk rest with Some b => Ok (mkHttpResponse status loc b) | None => Err HeChunks end
    | ByClose _ => Ok (mkHttpResponse status loc rest)
    end.
Proof.
  intros Hs Hr Hh Hf. pose proof (head_ok status reason headers f Hs Hr Hh Hf) as Hl. unfold update_parse_response.
  rewrite split_head by done.
  assert (utf8_valid (join_with CRLF (head_lines status reason headers f)) = true) as Hu by (by apply head_ascii).
  rewrite lossy_valid, str_lines_join by done. cbn [head_lines List.head tail]. rewrite (proj2 (status_line_ok _ _ Hs Hr)).
  rewrite fmap_app, foldl_app, headers_read, framing_read by done. fold (location_of headers). destruct f; cbn [read_framing]; try done.
  case_match; [done|]. by rewrite Nat2Z.id.
Qed.

(** ** Bodies cut short *)

Lemma split_at_absent p c l : Forall (λ b, b ≠ c) l → c ∈ p → split_at p l = None.
Proof.
  intros Hl Hc. induction l as [|b l IH].
  - destruct p; [by apply not_elem_of_nil in Hc|done].
  - cbn [split_at]. destruct (strip_bytes p (b :: l)) as [r|] eqn:E.
    + apply strip_bytes_some in E. rewrite E in Hl. apply Forall_app in Hl as [Hp _]. rewrite Forall_forall in Hp. by destruct (Hp c Hc).
    + apply Forall_cons in Hl as [_ Hl]. by rewrite IH.
Qed.

Lemma dechunk_cut_chunk n out c k : chunk_ok c → (k < length (chunk_bytes c))%nat → dechunk_run n out (take k (chunk_bytes c)) = None.
Proof.
  intros Hc Hk. destruct n as [|n]; [done|]. destruct (chunk_line_ok c Hc) as [Hp Hs]. destruct Hc as (Hd & Hl & _).
  unfold chunk_bytes in *. rewrite !length_app in Hk. cbn [length CRLF] in Hk. cbn [dechunk_run].
  destruct (decide (k < length (chunk_line c) + 2)%nat) as [Hsmall|Hbig].
  - rewrite (split_at_absent CRLF 10); [done| |set_solver].
    replace (chunk_line c ++ CRLF ++ ck_data c ++ CRLF) with ((chunk_line c ++ [13]) ++ 10 :: ck_data c ++ CRLF) by (by rewrite <- app_assoc).
    rewrite take_app_le by (rewrite length_app; cbn [length CRLF]; lia). apply Forall_take, Forall_app. split; [by apply printable_not|repeat constructor; done].
  - replace k with (length (chunk_line c ++ CRLF) + (k - (length (chunk_line c) + 2)))%nat by (rewrite length_app; cbn [length CRLF]; lia).
    rewrite (app_assoc (chunk_line c)), take_app_add. rewrite <- app_assoc.
    rewrite (split_at_first CRLF 13) by (done || by apply printable_not). cbn [mbind option_bind fst snd].
    rewrite (valid_ascii _ Hp). cbn [mbind option_bind]. rewrite Hs. cbn [mbind option_bind].
    destruct (Z.eqb_spec (Z.of_nat (length (ck_data c))) 0); [destruct (ck_data c); [done|cbn in *; lia]|].
    case_match; [done|]. rewrite Nat2Z.id, length_take, length_app. cbn [length CRLF].
    destruct (Nat.ltb_spec ((k - (length (chunk_line c) + 2)) `min` (length (ck_data c) + 2)) (length (ck_data c) + 2)); [done|lia].
Qed.

Definition framing_core (f : Framing) : list Z :=
  match f with ByLength body _ => body | ByChunks cs _ => mjoin (chunk_bytes <$> cs) ++ 48 :: CRLF | ByClose _ => [] end.

Lemma dechunk_cut cs trailer k n out : Forall chunk_ok cs → (k < length (framing_core (ByChunks cs trailer)))%nat →
  dechunk_run n out (take k (chunks_bytes cs trailer)) = None.
Proof.
  revert k n out. induction cs as [|c cs IH]; intros k n out Hc Hk.
  - destruct n as [|n]; [done|]. change (k < 3)%nat in Hk. by destruct k as [|[|[|k]]]; [..|lia].
  - apply Forall_cons in Hc as [Hc Hcs].
    assert (chunks_bytes (c :: cs) trailer = chunk_bytes c ++ chunks_bytes cs trailer) as -> by (unfold chunks_bytes; cbn; by rewrite <- app_assoc).
    assert (framing_core (ByChunks (c :: cs) trailer) = chunk_bytes c ++ framing_core (ByChunks cs trailer)) as E by (cbn; by rewrite <- app_assoc).
    rewrite E, length_app in Hk.
    destruct (decide (k < length (chunk_bytes c))%nat) as [Hin|Hout].
    + rewrite take_app_le by lia. by apply dechunk_cut_chunk.
    + replace k with (length (chunk_bytes c) + (k - length (chunk_bytes c)))%nat by lia. rewrite take_app_add. destruct n as [|n]; [done|].
      rewrite dechunk_chunk by done. apply IH; [done|lia].
Qed.

(** ** The join client on the same messages *)

Lemma lower_colon k : Forall (λ b, graphic b ∧ b ≠ 58) k → Forall (λ b, b ≠ 58) (to_ascii_lowercase k).
Proof.
  intros H. unfold to_ascii_lowercase. apply Forall_fmap. eapply Forall_impl; [exact H|]. intros b [Hg Hb]. unfold ascii_lower, graphic in *. cbn. case_match; lia.
Qed.

Lemma chunked_line_name k v : Forall (λ b, graphic b ∧ b ≠ 58) k → to_ascii_lowercase k ≠ str_bytes "transfer-encoding" → is_chunked_line (header_bytes (k, v)) = false.
Proof.
  intros Hk Hne. unfold is_chunked_line. rewrite bool_decide_eq_false_2; [done|]. intros [r Hr]. apply strip_bytes_some in Hr. apply Hne.
  unfold header_bytes in Hr. cbn [fst snd] in Hr. unfold to_ascii_lowercase in Hr. rewrite fmap_app in Hr. fold (to_ascii_lowercase k) in Hr.
  change (ascii_lower <$> 58 :: 32 :: v) with (58 :: 32 :: to_ascii_lowercase v) in Hr.
  change (str_bytes "transfer-encoding:" ++ r) with (str_bytes "transfer-encoding" ++ 58 :: r) in Hr.
  pose proof (split_bytes_first 58 _ (32 :: to_ascii_lowercase v) (lower_colon k Hk)) as H1. rewrite Hr in H1.
  rewrite split_bytes_first in H1 by by_decide. congruence.
Qed.

Lemma chunked_read status reason headers f : 100 ≤ status ≤ 999 → Forall header_ok headers → framing_ok f →
  existsb is_chunked_line (head_lines status reason headers f) = match f with ByChunks _ _ => true | _ => false end.
Proof.
  intros Hs Hh Hf. unfold head_lines. cbn [existsb]. assert (is_chunked_line (status_line status reason) = false) as -> by done. cbn [orb].
  rewrite fmap_app, existsb_app. assert (existsb is_chunked_line (header_bytes <$> headers) = false) as ->.
  { apply not_true_iff_false. rewrite existsb_exists. intros (l & Hl%list_elem_of_In & Hc). apply list_elem_of_fmap in Hl as ([k v] & -> & Hin).
    rewrite Forall_forall in Hh. destruct (Hh _ Hin) as (Hk & _ & _ & Ht & _). by rewrite chunked_line_name in Hc. }
  destruct f; cbn [orb framing_headers fmap list_fmap existsb]; [|done|done]. rewrite chunked_line_name; [done|unfold graphic; by_decide|by vm_compute].
Qed.

Definition framing_text (f : Framing) : Prop :=
  match f with
  | ByLength body extra => utf8_valid body = true ∧ extra = []
  | ByChunks cs trailer => Forall (λ c, utf8_valid (ck_data c) = true) cs ∧ utf8_valid trailer = true
  | ByClose body => utf8_valid body = true
  end.

Lemma framing_valid f : framing_ok f → framing_text f → utf8_valid (framing_bytes f) = true.
Proof.
  destruct f as [body extra|cs t|body]; cbn; [intros _ [? ->]; by rewrite app_nil_r| |done]. intros Hc [Ht Htr]. unfold chunks_bytes.
  apply utf8_app; [|change (utf8_valid ((48 :: CRLF) ++ t) = true); by apply utf8_app].
  induction cs as [|c cs IH]; [done|]. apply Forall_cons in Hc as [Hc Hcs], Ht as [Ht Hts]. cbn. apply utf8_app; [|by apply IH].
  destruct (chunk_line_ok c Hc) as [Hp _]. exact (utf8_app _ _ (valid_ascii _ Hp) (utf8_app CRLF _ eq_refl (utf8_app _ CRLF Ht eq_refl))).
Qed.

Definition join_verdict `{JoinJson} (status : Z) (payload : list Z) : Result JoinResponse JoinError :=
  if status =? 200 then match join_response_of payload with Some r => Ok r | None => Err JeJson end
  else Err (JeRejected status match error_code_of payload with
    | Some code => code_parse code | None => UnknownCode ("http_" +:+ bytes_str (fmt_digits 5 10 status)) end).

(** Both HTTPS clients read a response as the server meant it, whether its body
    is framed by a length, by chunks (with extensions and trailers, cut wherever the
    server or a proxy cut them) or by the end of the connection, and whatever other
    headers there are: the status, the last Location, and exactly the body. A
    response that ends before its length or its last chunk is refused by the update
    client. The join client, which decodes before it takes chunks apart, needs each
    chunk to be whole characters; it then takes the coordinator's word: the
    response of a 200, and otherwise the error code. *)
Theorem responses_read_back `{J : JoinJson} status reason headers f
    (Hs : 100 ≤ status ≤ 999) (Hr : Forall printable reason) (Hh : Forall header_ok headers) (Hf : framing_ok f) :
  update_parse_response (http_message status reason headers f) = Ok (mkHttpResponse status (location_of headers) (framing_body f)) ∧
  (∀ k, (k < length (framing_core f))%nat →
     is_ok (update_parse_response (join_with CRLF (head_lines status reason headers f) ++ CRLF2 ++ take k (framing_bytes f))) = false) ∧
  (framing_text f → join_parse_response (http_message status reason headers f) = join_verdict status (framing_body f)).
Proof.
  unfold http_message. split_and!.
  - rewrite update_after_head by done. destruct f as [body extra|cs t|body]; cbn [framing_bytes framing_body]; [| |done].
    + rewrite length_app. destruct (Z.ltb_spec (Z.of_nat (length body + length extra)) (Z.of_nat (length body))); [lia|]. by rewrite take_app_length.
    + by rewrite dechunk_chunks.
  - intros k Hk. rewrite update_after_head by done. destruct f as [body extra|cs t|body]; cbn [framing_bytes]; [| |cbn in Hk; lia].
    + cbn in Hk. rewrite length_take, length_app. destruct (Z.ltb_spec (Z.of_nat (k `min` (length body + length extra))) (Z.of_nat (length body))); [done|lia].
    + unfold dechunk. by rewrite dechunk_cut.
  - intros Ht. pose proof (head_ok status reason headers f Hs Hr Hh Hf) as Hl. unfold join_parse_response.
    rewrite lossy_valid by (exact (utf8_app _ _ (head_ascii _ Hl) (utf8_app CRLF2 _ eq_refl (framing_valid f Hf Ht)))).
    rewrite split_head, str_lines_join by done. cbn [head_lines List.head]. rewrite (proj2 (status_line_ok _ _ Hs Hr)).
    fold (head_lines status reason headers f). rewrite chunked_read by done.
    unfold join_verdict. destruct f as [body extra|cs t|body]; cbn [framing_bytes framing_body].
    + destruct Ht as [_ ->]. rewrite app_nil_r. by destruct (status =? 200).
    + rewrite join_dechunk_chunks by done. by destruct (status =? 200).
    + by destruct (status =? 200).
Qed.

Module HttpExample.
#[export] Instance json : JoinJson :=
  {| error_code_of b := if bool_decide (b = str_bytes "bad") then Some "bad_credentials"%string else None; join_response_of _ := None |}.
Definition framing : Framing := ByChunks [mkChunk (str_bytes "ba") None; mkChunk (str_bytes "d") (Some (str_bytes "x=y"))] CRLF.
Definition headers : list (list Z * list Z) := [(str_bytes "LOCATION", str_bytes "https://objects.example/x"); (str_bytes "server", str_bytes "a b: c")].

(** A proxy that cuts a chunk inside a character: the update client does not care,
    the join client takes the response for malformed. *)
Definition split_character : list Z :=
  http_message 200 (str_bytes "OK") [] (ByChunks [mkChunk [123; 195] None; mkChunk [169; 125] None] CRLF).
Lemma split_character_refused :
  update_parse_response split_character = Ok (mkHttpResponse 200 None [123; 195; 169; 125]) ∧
  join_parse_response split_character = Err JeMalformed.
Proof. vm_compute. done. Qed.
End HttpExample.

Lemma responses_read_back_witness :
  update_parse_response (http_message 401 (str_bytes "Not So") HttpExample.headers HttpExample.framing) =
    Ok (mkHttpResponse 401 (Some (str_bytes "https://objects.example/x")) (str_bytes "bad")) ∧
  join_parse_response (J := HttpExample.json) (http_message 401 (str_bytes "Not So") HttpExample.headers HttpExample.framing) = Err (JeRejected 401 BadCredentials).
Proof.
  destruct (responses_read_back (J := HttpExample.json) 401 (str_bytes "Not So") HttpExample.headers HttpExample.framing) as (H1 & _ & H2).
  - lia.
  - unfold printable. by_decide.
  - unfold HttpExample.headers, header_ok, graphic, printable. repeat constructor; cbn [fst snd]; try by_decide; try (vm_compute; done).
  - unfold HttpExample.framing, framing_ok, chunk_ok, printable. repeat constructor; cbn; try done; try by_decide.
  - split; [exact H1|]. rewrite H2 by (unfold framing_text; repeat constructor; reflexivity). vm_compute. reflexivity.
Defined.
