(* ===== verification/Updater.v ===== *)
(** * The updater (crates/nqvpn-update/src/lib.rs)

    [--self-update]: find the latest release, compare versions, download the
    archive and its checksum, take the binary out, prove that it runs, and put it
    in the place of the executable. The directory of the executable is a map from
    names to inodes, which hard links share; every change of it is a point at which
    the process may die. What the network, the random source and each system call
    come to is in the environment. *)

From S2P Require Import Prelude Crash Text Token Http.

(** ** Versions *)

(** [split('.')], a list of all pieces. *)
Fixpoint split_all (c : Z) (cur s : list Z) : list (list Z) :=
  match s with
  | [] => [rev cur]
  | b :: s' => if b =? c then rev cur :: split_all c [] s' else split_all c (b :: cur) s'
  end.

Fixpoint until_suffix (s : list Z) : list Z :=
  match s with [] => [] | b :: s' => if (b =? 45) || (b =? 43) then [] else b :: until_suffix s' end.

Definition version_parts (v : list Z) : option (list Z) := mapM (parse_uint 10 u64_max) (split_all 46 [] (until_suffix v)).

(** [Vec::resize] with zeros, then the lexicographic order. *)
Definition pad_to (n : nat) (x : list Z) : list Z := x ++ replicate (n - length x) 0.
Fixpoint lex_compare (x y : list Z) : comparison :=
  match x, y with
  | [], [] => Eq
  | [], _ :: _ => Lt
  | _ :: _, [] => Gt
  | a :: x', b :: y' => match (a ?= b) with Eq => lex_compare x' y' | c => c end
  end.

Definition compare_versions (a b : list Z) : option comparison :=
  x ← version_parts a; y ← version_parts b;
  let n := Nat.max (length x) (length y) in Some (lex_compare (pad_to n x) (pad_to n y)).

(** ** Releases *)

Record Asset := mkAsset { as_name : list Z; as_url : list Z }.
Record Release := mkRelease { rl_tag : list Z; rl_assets : list Asset }.

Definition release_version (r : Release) : list Z := default (rl_tag r) (strip_bytes [118] (rl_tag r)).
Definition release_asset (r : Release) (name : list Z) : option Asset := List.find (λ a, bool_decide (as_name a = name)) (rl_assets r).

Definition platform (os arch : list Z) : option (list Z * list Z) :=
  if negb (existsb (λ o, bool_decide (os = str_bytes o)) ["linux"; "macos"; "freebsd"]%string) then None else
  if bool_decide (arch = str_bytes "x86_64") then Some (os, str_bytes "amd64") else
  if bool_decide (arch = str_bytes "aarch64") then Some (os, str_bytes "arm64") else None.

Definition asset_name (version os arch : list Z) : list Z :=
  str_bytes "nqvpn-" ++ version ++ [45] ++ os ++ [45] ++ arch ++ str_bytes ".tar.gz".

(** ** Downloads *)

Inductive UpdateError : Set :=
| UePlatform | UeNet (e : HttpError) | UeRelease | UeVersion | UeExe | UeNoBuild | UeNoChecksum | UeMalformedSum | UeMismatch
| UeArchive | UeNoBinary | UeNoName | UeRandom | UeDenied | UeDoesNotRun.

Definition MAX_API_BYTES : Z := 2 ^ 20.
Definition MAX_ASSET_BYTES : Z := 128 * 2 ^ 20.
Definition MAX_REDIRECTS : nat := 5.

(** The crates and the machine: serde_json for a release, SHA-256 in hex, the
    entries of a [.tar.gz] (their file names and contents, up to the first error),
    what a file says when it is run with [--version] (did it succeed, and its
    output), and the answer to the [n]th request. *)
Class UpdateWorld := {
  release_of : list Z → option Release;
  sha256_hex : list Z → list Z;
  tar_entries : list Z → list (option (list Z * list Z));
  run_version : list Z → option (bool * list Z);
  net_answer : nat → list Z → option (list Z);
}.

Section update.
Context `{E : UpdateWorld}.

(** Connecting, sending and reading to the end are [net_answer]. *)
Definition get_once (t : nat) (url : list Z) (limit : Z) : Result HttpResponse HttpError :=
  let? _ := update_parse_url url in
  match net_answer t url with
  | None => Err HeNetwork
  | Some raw => if limit + 64 * 1024 <? Z.of_nat (length raw) then Err HeTooLarge else update_parse_response raw
  end.

Definition is_redirect (s : Z) : bool := existsb (Z.eqb s) [301; 302; 303; 307; 308].

(** [get], with the number of requests made so far. *)
Fixpoint get_run (budget : nat) (t : nat) (url : list Z) (limit : Z) : nat * Result (list Z) HttpError :=
  match budget with
  | O => (t, Err HeRedirects)
  | S budget =>
      match get_once t url limit with
      | Err e => (S t, Err e)
      | Ok resp =>
          if hr_status resp =? 200 then (S t, Ok (hr_body resp)) else
          if is_redirect (hr_status resp) then
            match hr_location resp with
            | None => (S t, Err HeNoLocation)
            | Some url => get_run budget (S t) url limit
            end
          else (S t, Err (HeStatus (hr_status resp)))
      end
  end.
Definition http_get (t : nat) (url : list Z) (limit : Z) : nat * Result (list Z) HttpError := get_run (S MAX_REDIRECTS) t url limit.

Definition verify_sha256 (bytes sums : list Z) : Result unit UpdateError :=
  let expected := to_ascii_lowercase (default [] (head (split_whitespace sums))) in
  if negb ((length expected =? 64)%nat && forallb is_ascii_hexdigit expected) then Err UeMalformedSum else
  if bool_decide (sha256_hex bytes = expected) then Ok tt else Err UeMismatch.

(** The first entry of that file name; an unreadable entry before it is an error. *)
Fixpoint extract_entry (entries : list (option (list Z * list Z))) (bin : list Z) : Result (list Z) UpdateError :=
  match entries with
  | [] => Err UeNoBinary
  | None :: _ => Err UeArchive
  | Some (name, data) :: rest => if bool_decide (name = bin) then Ok data else extract_entry rest bin
  end.
Definition extract (targz bin : list Z) : Result (list Z) UpdateError := extract_entry (tar_entries targz) bin.

(** ** The directory *)

Record Inode := mkInode { in_data : list Z; in_mode : Z }.
Record Dir := mkDir { dr_names : gmap (list Z) nat; dr_inodes : gmap nat Inode; dr_next : nat }.

Definition file_at (w : Dir) (name : list Z) : option Inode := i ← dr_names w !! name; dr_inodes w !! i.
Definition set_inode (i : nat) (ino : Inode) (w : Dir) : Dir := mkDir (dr_names w) (<[i := ino]> (dr_inodes w)) (dr_next w).
(** A new file. *)
Definition create_file (name : list Z) (ino : Inode) (w : Dir) : Dir :=
  mkDir (<[name := dr_next w]> (dr_names w)) (<[dr_next w := ino]> (dr_inodes w)) (S (dr_next w)).
Definition unlink (name : list Z) (w : Dir) : Dir := mkDir (delete name (dr_names w)) (dr_inodes w) (dr_next w).
Definition name_inode (name : list Z) (i : nat) (w : Dir) : Dir := mkDir (<[name := i]> (dr_names w)) (dr_inodes w) (dr_next w).
Definition rename_file (from to : list Z) (w : Dir) : Dir :=
  match dr_names w !! from with Some i => name_inode to i (unlink from w) | None => w end.

(** How each call of one installation goes. [sw_written]: all bytes are written, or
    that many and then an error; the same for the copy. *)
Record SwapEnv := mkSwapEnv {
  sw_nonce : option (list Z);
  sw_umask : Z; sw_open : bool; sw_written : option nat; sw_chmod : bool; sw_sync : bool;
  sw_unlink_staged : bool; sw_unlink_old : bool; sw_link : bool; sw_open_copy : bool; sw_copied : option nat; sw_rename : bool;
}.

Definition cut {A} (n : option nat) (l : list A) : list A := match n with Some k => take k l | None => l end.
Definition prefixes {A} (l : list A) : list (list A) := (λ k, take k l) <$> seq 0 (length l).

(** [create_new]: an error if anything has the name. *)
Definition open_new (ev : SwapEnv) (name : list Z) : Run Dir bool :=
  run_act (λ w, if sw_open ev && bool_decide (dr_names w !! name = None)
                then (true, create_file name (mkInode [] (Z.land 448 (Z.lnot (sw_umask ev)))) w) else (false, w)).

(** [write_all], through every prefix. *)
Definition write_file (name data : list Z) : Run Dir unit :=
  let put w d := match dr_names w !! name with
    | Some i => match dr_inodes w !! i with Some ino => set_inode i (mkInode d (in_mode ino)) w | None => w end
    | None => w end in
  run_slow (λ w, put w <$> prefixes data) (λ w, (tt, put w data)).

Definition chmod (name : list Z) (mode : Z) : Run Dir unit :=
  run_act (λ w, (tt, match dr_names w !! name with
    | Some i => match dr_inodes w !! i with Some ino => set_inode i (mkInode (in_data ino) mode) w | None => w end
    | None => w end)).

Definition remove_file (name : list Z) (ok : bool) : Run Dir unit := run_act (λ w, (tt, if ok then unlink name w else w)).

(** An error if the new name is taken. *)
Definition hard_link (ev : SwapEnv) (from to : list Z) : Run Dir bool :=
  run_act (λ w, match dr_names w !! from with
    | Some i => if sw_link ev && bool_decide (dr_names w !! to = None) then (true, name_inode to i w) else (false, w)
    | None => (false, w) end).

(** [fs::copy]: the target is created, or emptied if it is there, given the mode of
    the source, and then written from it; each of these is a point of its own. *)
Definition copy_file (ev : SwapEnv) (from to : list Z) : Run Dir bool :=
  mode <-- run_read (λ w, match file_at w from with Some ino => Some (in_mode ino) | None => None end);
  match mode with
  | None => run_ret false
  | Some mode =>
      if negb (sw_open_copy ev) then run_ret false else
      run_act (λ w, (tt, match dr_names w !! to with
        | Some i => match dr_inodes w !! i with Some ino => set_inode i (mkInode [] (in_mode ino)) w | None => w end
        | None => create_file to (mkInode [] (Z.land mode (Z.lnot (sw_umask ev)))) w end));;
      chmod to mode;;
      data <-- run_read (λ w, match file_at w from with Some ino => in_data ino | None => [] end);
      write_file to (cut (sw_copied ev) data);;
      run_ret (match sw_copied ev with Some _ => false | None => true end)
  end.

(** ** Installing *)

Definition staged_name (name nonce : list Z) : list Z := [46] ++ name ++ str_bytes ".new-" ++ nonce.
Definition old_name (name : list Z) : list Z := name ++ str_bytes ".old".

(** A binary that runs here and says it is that version. *)
Definition runs_as (data version : list Z) : bool :=
  match run_version data with
  | Some (success, out) => success && existsb (λ w, bool_decide (w = version)) (split_whitespace (from_utf8_lossy out))
  | None => false
  end.

Definition write_staged (ev : SwapEnv) (staged new : list Z) : Run Dir bool :=
  write_file staged (cut (sw_written ev) new);;
  match sw_written ev with
  | Some _ => run_ret false
  | None => if negb (sw_chmod ev) then run_ret false else chmod staged 493;; run_ret (sw_sync ev)
  end.

Definition swap_in (ev : SwapEnv) (name staged old : list Z) : Run Dir bool :=
  remove_file old (sw_unlink_old ev);;
  linked <-- hard_link ev name old;
  kept <-- (if linked then run_ret true else copy_file ev name old);
  if negb kept then run_ret false else
  if sw_rename ev then run_act (λ w, (true, rename_file staged name w)) else run_ret false.

Definition replace_binary (ev : SwapEnv) (name : option (list Z)) (new version : list Z) : Run Dir (Result (list Z) UpdateError) :=
  match name, sw_nonce ev with
  | None, _ => run_ret (Err UeNoName)
  | _, None => run_ret (Err UeRandom)
  | Some name, Some nonce =>
      let staged := staged_name name nonce in let old := old_name name in
      opened <-- open_new ev staged;
      if negb opened then run_ret (Err UeDenied) else
      written <-- write_staged ev staged new;
      if negb written then remove_file staged (sw_unlink_staged ev);; run_ret (Err UeDenied) else
      ran <-- run_read (λ w, match file_at w staged with Some ino => runs_as (in_data ino) version | None => false end);
      if negb ran then remove_file staged (sw_unlink_staged ev);; run_ret (Err UeDoesNotRun) else
      swapped <-- swap_in ev name staged old;
      if negb swapped then remove_file staged (sw_unlink_staged ev);; run_ret (Err UeDenied) else
      run_ret (Ok old)
  end.

(** ** [run]

    [exe]: the file name of the executable, unless it is not Unicode or the executable
    cannot be found. *)

Inductive UpdateAction : Set := CheckUpdate | SelfUpdate.
Inductive Updated : Type := Available (v : list Z) | UpToDate (v : list Z) | Installed (v old : list Z).

(** The release, and whether it is newer. *)
Definition find_release (os arch current : list Z) : nat * Result (Release * bool * (list Z * list Z)) UpdateError :=
  match platform os arch with
  | None => (0%nat, Err UePlatform)
  | Some oa =>
      let '(t, r) := http_get 0 (str_bytes "https://api.github.com/repos/wushilin/nqvpn/releases/latest") MAX_API_BYTES in
      (t, match r with
          | Err e => Err (UeNet e)
          | Ok body =>
              match release_of body with
              | None => Err UeRelease
              | Some release =>
                  match compare_versions (release_version release) current with
                  | None => Err UeVersion
                  | Some c => Ok (release, bool_decide (c = Gt), oa)
                  end
              end
          end)
  end.

(** The binary of a release, checked. *)
Definition download (t : nat) (release : Release) (bin os arch : list Z) : Result (list Z) UpdateError :=
  let archive_name := asset_name (release_version release) os arch in
  match release_asset release archive_name with
  | None => Err UeNoBuild
  | Some archive =>
      match release_asset release (archive_name ++ str_bytes ".sha256") with
      | None => Err UeNoChecksum
      | Some checksum =>
          let '(t, r) := http_get t (as_url archive) MAX_ASSET_BYTES in
          match r with
          | Err e => Err (UeNet e)
          | Ok bytes =>
              match (http_get t (as_url checksum) MAX_API_BYTES).2 with
              | Err e => Err (UeNet e)
              | Ok sums =>
                  let? _ := verify_sha256 bytes (from_utf8_lossy sums) in
                  extract bytes bin
              end
          end
      end
  end.

Definition update_run (action : UpdateAction) (os arch bin current : list Z) (exe : option (option (list Z))) (ev : SwapEnv)
    : Run Dir (Result Updated UpdateError) :=
  match find_release os arch current with
  | (_, Err e) => run_ret (Err e)
  | (t, Ok (release, newer, (os, arch))) =>
      let latest := release_version release in
      match action with
      | CheckUpdate => run_ret (Ok (if newer then Available latest else UpToDate latest))
      | SelfUpdate =>
          if negb newer then run_ret (Ok (UpToDate latest)) else
          match exe with
          | None => run_ret (Err UeExe)
          | Some name =>
              match download t release bin os arch with
              | Err e => run_ret (Err e)
              | Ok binary =>
                  r <-- replace_binary ev name binary latest;
                  run_ret (match r with Ok old => Ok (Installed latest old) | Err e => Err e end)
              end
          end
      end
  end.
End update.

(** ** Names *)

Lemma names_apart name nonce : staged_name name nonce ≠ name ∧ old_name name ≠ name ∧ staged_name name nonce ≠ old_name name.
Proof.
  unfold staged_name, old_name. split_and!; intros H%(f_equal length); rewrite !length_app in H; cbn [length] in H;
    change (length (str_bytes ".new-")) with 5%nat in H; change (length (str_bytes ".old")) with 4%nat in H; lia.
Qed.

(** ** What an installation may do at any point *)

Definition dir_wf (w : Dir) : Prop :=
  (∀ n i, dr_names w !! n = Some i → is_Some (dr_inodes w !! i)) ∧ (∀ i ino, dr_inodes w !! i = Some ino → (i < dr_next w)%nat).

Section install.
Context `{E : UpdateWorld}.
Context (ev : SwapEnv) (w0 : Dir) (name new version nonce : list Z) (i0 : nat) (ino0 : Inode).
Context (Hwf : dir_wf w0) (Hname : dr_names w0 !! name = Some i0) (Hino : dr_inodes w0 !! i0 = Some ino0).
(** The old copy, if it is there and cannot be removed, is not the executable itself. *)
Context (Hold : sw_unlink_old ev = true ∨ dr_names w0 !! old_name name ≠ Some i0).

#[local] Abbreviation staged := (staged_name name nonce).
#[local] Abbreviation old := (old_name name).
#[local] Abbreviation s0 := (dr_next w0).

(** Inodes that are left alone: all there were, but that of an old copy that cannot be removed. *)
Definition kept (i : nat) : Prop := sw_unlink_old ev = true ∨ dr_names w0 !! old ≠ Some i.

Definition apart (w : Dir) : Prop :=
  (∀ n, n ≠ name → n ≠ old → n ≠ staged → dr_names w !! n = dr_names w0 !! n) ∧
  (∀ i ino, dr_inodes w0 !! i = Some ino → kept i → dr_inodes w !! i = Some ino).
Definition base (w : Dir) : Prop := apart w ∧ dr_names w !! name = Some i0.
Definition installed (w : Dir) : Prop := apart w ∧ file_at w name = Some (mkInode new 493) ∧ runs_as new version = true.
Definition safe (w : Dir) : Prop := base w ∨ installed w.

(** The staged file, with this in it. *)
Definition has_staged (d : list Z) (m : Z) (w : Dir) : Prop :=
  base w ∧ dr_names w !! staged = Some s0 ∧ dr_inodes w !! s0 = Some (mkInode d m) ∧ (s0 < dr_next w)%nat.
Definition old_is (o : option nat) (w : Dir) : Prop := dr_names w !! old = o ∧ ∀ j, o = Some j → is_Some (dr_inodes w !! j).
Definition old_left : option nat := if sw_unlink_old ev then None else dr_names w0 !! old.

(** Nothing stands in the way. *)
Definition all_ok : Prop :=
  sw_open ev = true ∧ dr_names w0 !! staged = None ∧ sw_written ev = None ∧ sw_chmod ev = true ∧ sw_sync ev = true ∧
  sw_unlink_old ev = true ∧ sw_link ev = true ∧ sw_rename ev = true ∧ runs_as new version = true.

Lemma kept_exe : kept i0.
Proof. exact Hold. Qed.

Lemma exe_kept w : apart w → dr_inodes w !! i0 = Some ino0.
Proof. intros [_ H]. apply H; [done|apply kept_exe]. Qed.

(** Writing in an inode that is not one of those. *)
Lemma base_set j ino w : (∀ ino', dr_inodes w0 !! j = Some ino' → ¬ kept j) → base w → base (set_inode j ino w).
Proof.
  intros Hj [[H1 H2] H3]. split; [split|]; [done| |done]. intros i ino' Hi Hk. cbn. rewrite lookup_insert_ne; [by apply H2|].
  intros ->. by apply (Hj ino' Hi).
Qed.

Lemma staged_free ino' : dr_inodes w0 !! s0 = Some ino' → ¬ kept s0.
Proof. intros H%(proj2 Hwf). lia. Qed.

Lemma staged_set d m d' m' w : has_staged d m w → has_staged d' m' (set_inode s0 (mkInode d' m') w).
Proof.
  intros (Hb & Hn & Hi & Hs). split; [apply base_set; [apply staged_free|done]|]. split_and!; [done|apply lookup_insert_eq|done].
Qed.

Lemma old_set o j ino w : old_is o w → old_is o (set_inode j ino w).
Proof. intros [H1 H2]. split; [done|]. intros k Hk. apply lookup_insert_is_Some'. right. by apply H2. Qed.

(** Another file's inode is not the staged one. *)
Lemma staged_other d m j ino w : (∀ ino', dr_inodes w0 !! j = Some ino' → ¬ kept j) → j ≠ s0 → has_staged d m w → has_staged d m (set_inode j ino w).
Proof. intros Hj Hne (Hb & Hn & Hi & Hs). split; [by apply base_set|]. split_and!; [done|cbn; by rewrite lookup_insert_ne|done]. Qed.

Lemma t_open : triple safe (λ w, w = w0) (open_new ev staged)
  (λ b w, if b : bool then (∃ m, has_staged [] m w) ∧ old_is (dr_names w0 !! old) w ∧ dr_names w0 !! staged = None else w = w0 ∧ ¬ all_ok).
Proof.
  destruct (names_apart name nonce) as (Hsn & Hon & Hso).
  assert (base w0) as Hb by (split; [split|]; done).
  apply t_act. intros w ->. destruct (sw_open ev && bool_decide (dr_names w0 !! staged = None)) eqn:Ho; cbn [fst snd];
    [|split; [by left|split; [done|]; intros (H1 & H2 & _); by rewrite H1, (bool_decide_eq_true_2 _ H2) in Ho]].
  apply andb_true_iff in Ho as [_ Ho%bool_decide_eq_true]. set (ino := mkInode [] _).
  assert (has_staged [] (in_mode ino) (create_file staged ino w0)) as Hs.
  { split; [split; [split|]|split_and!]; cbn [create_file dr_names dr_inodes dr_next].
    - intros n H1 H2 H3. by rewrite lookup_insert_ne.
    - intros i x Hi _. rewrite lookup_insert_ne; [done|]. apply Hwf in Hi. lia.
    - by rewrite lookup_insert_ne.
    - by rewrite lookup_insert_eq.
    - by rewrite lookup_insert_eq.
    - lia. }
  split; [left; apply Hs|]. split; [eauto|]. split; [|done]. split; cbn; [by rewrite lookup_insert_ne|].
  intros j Hj. apply lookup_insert_is_Some'. right. by apply Hwf in Hj.
Qed.

Definition put (n : list Z) (w : Dir) (d : list Z) : Dir :=
  match dr_names w !! n with
  | Some i => match dr_inodes w !! i with Some ino => set_inode i (mkInode d (in_mode ino)) w | None => w end
  | None => w end.

Lemma t_put n d pre post : (∀ w d', pre w → safe (put n w d')) → (∀ w, pre w → post tt (put n w d)) → triple safe pre (write_file n d) post.
Proof.
  intros Hs Hp. apply t_slow. intros w Hw. split_and!; [|by apply Hs|by apply Hp]. apply Forall_forall. intros w' Hin.
  apply list_elem_of_fmap in Hin as (d' & -> & _). by apply Hs.
Qed.

Lemma put_staged d m d' w : has_staged d m w → put staged w d' = set_inode s0 (mkInode d' m) w.
Proof. intros (_ & Hn & Hi & _). unfold put. by rewrite Hn, Hi. Qed.

Lemma t_write_staged o : triple safe (λ w, (∃ m, has_staged [] m w) ∧ old_is o w) (write_staged ev staged new)
  (λ b w, old_is o w ∧ if b : bool then has_staged new 493 w else (∃ d m, has_staged d m w) ∧ ¬ all_ok).
Proof.
  unfold write_staged. eapply t_bind with (mid := λ _ w, (∃ m, has_staged (cut (sw_written ev) new) m w) ∧ old_is o w).
  - apply t_put.
    + intros w d' [(m & H) _]. rewrite (put_staged _ _ _ _ H). left. by eapply staged_set.
    + intros w [(m & H) Ho]. rewrite (put_staged _ _ _ _ H). split; [exists m; by eapply staged_set|by apply old_set].
  - intros _. destruct (sw_written ev) eqn:Ew; [apply t_ret; intros w [[m H] Ho]; split; [done|]; split; [eauto|]; intros (_ & _ & Hx & _); congruence|].
    destruct (sw_chmod ev) eqn:Ec; cbn [negb]; [|apply t_ret; intros w [[m H] Ho]; split; [done|]; split; [eauto|]; intros (_ & _ & _ & Hx & _); congruence].
    eapply t_bind with (mid := λ _ w, has_staged new 493 w ∧ old_is o w).
    + apply t_act. intros w [(m & H) Ho]. destruct H as (Hb & Hn & Hi & Hs). rewrite Hn, Hi. cbn [fst snd cut in_data].
      assert (has_staged new 493 (set_inode s0 (mkInode new 493) w)) by (eapply staged_set; done). split; [left; by apply H|]. split; [done|by apply old_set].
    + intros _. apply t_ret. intros w [H Ho]. split; [done|]. destruct (sw_sync ev) eqn:Es; [done|].
      split; [eauto|]. intros (_ & _ & _ & _ & Hx & _). congruence.
Qed.

Lemma base_unlink n w : n ≠ name → (n = old ∨ n = staged) → base w → base (unlink n w).
Proof.
  intros Hn Hc [[H1 H2] H3]. split; [split|]; cbn [unlink dr_names dr_inodes]; [|done|by rewrite lookup_delete_ne].
  intros x X1 X2 X3. rewrite lookup_delete_ne; [by apply H1|naive_solver].
Qed.

Lemma t_clean {A} (r : A) (P : Dir → Prop) : (∀ w, P w → base w) →
  triple safe P (remove_file staged (sw_unlink_staged ev);; run_ret r)
    (λ a w, a = r ∧ base w ∧ (sw_unlink_staged ev = true → dr_names w !! staged = None)).
Proof.
  intros HP. destruct (names_apart name nonce) as (Hsn & _). eapply t_bind with (mid := λ _ w, base w ∧ (sw_unlink_staged ev = true → dr_names w !! staged = None)).
  - apply t_act. intros w Hb%HP. cbn [fst snd]. destruct (sw_unlink_staged ev).
    + assert (base (unlink staged w)) by (apply base_unlink; auto). split; [by left|]. split; [done|]. intros _. cbn. apply lookup_delete_eq.
    + split; [by left|]. done.
  - intros _. apply t_ret. naive_solver.
Qed.

Lemma base_exe w : base w → file_at w name = Some ino0.
Proof. intros [Ha Hn]. unfold file_at. rewrite Hn. cbn. by apply exe_kept. Qed.

(** The copy being made: an inode of its own. *)
Definition copying (j : nat) (w : Dir) : Prop :=
  has_staged new 493 w ∧ dr_names w !! old = Some j ∧ (∀ ino, dr_inodes w0 !! j = Some ino → ¬ kept j) ∧ j ≠ s0.

Lemma copying_set j ino w : copying j w → copying j (set_inode j ino w).
Proof. intros (Hs & Ho & Hf & Hj). split; [by apply staged_other|done]. Qed.

Lemma copy_opened w m : has_staged new 493 w → old_is old_left w →
  let w' := match dr_names w !! old with
    | Some i => match dr_inodes w !! i with Some ino => set_inode i (mkInode [] (in_mode ino)) w | None => w end
    | None => create_file old (mkInode [] m) w end in
  ∃ j, copying j w' ∧ is_Some (dr_inodes w' !! j).
Proof.
  intros Hs [Ho Hi]. destruct (names_apart name nonce) as (Hsn & Hon & Hso). cbn zeta. rewrite Ho. destruct old_left as [j|] eqn:El.
  - destruct (Hi j eq_refl) as [ino Hj]. rewrite Hj. unfold old_left in El. destruct (sw_unlink_old ev) eqn:Eu; [done|]. exists j.
    assert (copying j w) as Hc.
    { split; [done|]. split; [done|]. split; [intros x _ [Hk|Hk]; congruence|]. destruct (proj1 Hwf _ _ El) as [x Hx%(proj2 Hwf)]. lia. }
    split; [by apply copying_set|]. cbn. rewrite lookup_insert_eq. eauto.
  - exists (dr_next w). destruct Hs as ([[H1 H2] H3] & Hn & Hf & Hlt). split; [|cbn; rewrite lookup_insert_eq; eauto]. split_and!.
    + split; [split; [split|]|split_and!]; cbn [create_file dr_names dr_inodes dr_next].
      * intros n X1 X2 X3. rewrite lookup_insert_ne by done. by apply H1.
      * intros i x Hx Hk. rewrite lookup_insert_ne; [by apply H2|]. apply Hwf in Hx. lia.
      * by rewrite lookup_insert_ne.
      * by rewrite lookup_insert_ne.
      * rewrite lookup_insert_ne by lia. done.
      * lia.
    + cbn. apply lookup_insert_eq.
    + intros x Hx%(proj2 Hwf). lia.
    + lia.
Qed.

Lemma t_copy : triple safe (λ w, has_staged new 493 w ∧ old_is old_left w) (copy_file ev name old)
  (λ b w, has_staged new 493 w ∧ (b = true → file_at w old = Some ino0)).
Proof.
  unfold copy_file. apply t_read_bind with (v := Some (in_mode ino0)); [intros w [[Hb _] _]; by rewrite base_exe|].
  destruct (sw_open_copy ev); cbn [negb]; [|apply t_ret; naive_solver].
  assert (∀ j w, copying j w → safe w) as Hsafe by (intros j w [[Hb _] _]; by left).
  eapply t_bind with (mid := λ _ w, ∃ j, copying j w ∧ is_Some (dr_inodes w !! j)).
  { apply t_act. intros w [Hs Ho]. cbn [fst snd]. destruct (copy_opened w (Z.land (in_mode ino0) (Z.lnot (sw_umask ev))) Hs Ho) as (j & Hc & Hi). eauto. }
  intros _. eapply t_bind with (mid := λ _ w, ∃ j ino, copying j w ∧ dr_inodes w !! j = Some ino ∧ in_mode ino = in_mode ino0).
  { apply t_act. intros w (j & Hc & [ino Hi]). pose proof Hc as (_ & Ho & _). rewrite Ho, Hi. cbn [fst snd].
    pose proof (copying_set j (mkInode (in_data ino) (in_mode ino0)) w Hc) as Hc'. split; [eauto|]. eexists j, _. split; [done|]. cbn. by rewrite lookup_insert_eq. }
  intros _. apply t_read_bind with (v := in_data ino0); [intros w (j & ino & ([Hb _] & _) & _); by rewrite base_exe|].
  eapply t_bind with (mid := λ _ w, has_staged new 493 w ∧ (sw_copied ev = None → file_at w old = Some ino0)).
  - assert (∀ w d j ino, copying j w → dr_inodes w !! j = Some ino → put old w d = set_inode j (mkInode d (in_mode ino)) w) as Hput.
    { intros w d j ino (_ & Ho & _) Hi. unfold put. by rewrite Ho, Hi. }
    apply t_put; intros w; [intros d'|]; intros (j & ino & Hc & Hi & Hm); rewrite (Hput _ _ _ _ Hc Hi); [eapply Hsafe, copying_set, Hc|].
    pose proof (copying_set j (mkInode (cut (sw_copied ev) (in_data ino0)) (in_mode ino)) w Hc) as Hc'. split; [apply Hc'|].
    intros ->. cbn [cut]. rewrite Hm. unfold file_at. cbn. destruct Hc as (_ & -> & _). cbn. rewrite lookup_insert_eq. by destruct ino0.
  - intros _. apply t_ret. intros w [Hs Ho]. split; [done|]. destruct (sw_copied ev); [done|auto].
Qed.

Lemma t_swap : runs_as new version = true → triple safe (λ w, has_staged new 493 w ∧ old_is (dr_names w0 !! old) w) (swap_in ev name staged old)
  (λ b w, if b : bool then installed w ∧ file_at w old = Some ino0 ∧ dr_names w !! staged = None else base w ∧ ¬ all_ok).
Proof.
  intros Hrun. destruct (names_apart name nonce) as (Hsn & Hon & Hso). unfold swap_in.
  eapply t_bind with (mid := λ _ w, has_staged new 493 w ∧ old_is old_left w).
  { apply t_act. intros w [Hs Ho]. cbn [fst snd]. unfold old_left. destruct (sw_unlink_old ev); [|split; [left; apply Hs|done]].
    assert (has_staged new 493 (unlink old w)) as Hs'.
    { destruct Hs as (Hb & Hn & Hi & Hlt). split; [apply base_unlink; auto|]. split_and!; [cbn; by rewrite lookup_delete_ne|done|done]. }
    split; [left; apply Hs'|]. split; [done|]. split; [cbn; apply lookup_delete_eq|done]. }
  intros _. eapply t_bind with (mid := λ b w, has_staged new 493 w ∧ if b : bool then dr_names w !! old = Some i0 else old_is old_left w ∧ ¬ all_ok).
  { apply t_act. intros w [Hs Ho]. pose proof Hs as [[Ha Hn] (Hst & Hf & Hlt)]. rewrite Hn. destruct (sw_link ev && _) eqn:El; cbn [fst snd].
    2: { split; [left; apply Hs|]. split; [done|]. split; [done|]. intros (_ & _ & _ & _ & _ & Hu & Hl & _). destruct Ho as [Ho _].
      unfold old_left in Ho. rewrite Hu in Ho. by rewrite Hl, (bool_decide_eq_true_2 _ Ho) in El. }
    assert (has_staged new 493 (name_inode old i0 w)) as Hs'.
    { destruct Ha as [H1 H2]. split; [split; [split|]|split_and!]; cbn [name_inode dr_names dr_inodes dr_next]; try done; try (by rewrite lookup_insert_ne).
      intros n X1 X2 X3. rewrite lookup_insert_ne by done. by apply H1. }
    split; [left; apply Hs'|]. split; [done|]. cbn. apply lookup_insert_eq. }
  intros linked. eapply t_bind with (mid := λ b w, has_staged new 493 w ∧ if b : bool then file_at w old = Some ino0 else ¬ all_ok).
  { destruct linked.
    - apply t_ret. intros w [Hs Ho]. split; [done|]. unfold file_at. rewrite Ho. cbn. apply exe_kept, Hs.
    - eapply t_weaken with (pre := λ w, (has_staged new 493 w ∧ old_is old_left w) ∧ ¬ all_ok); [|by intros w (? & ? & ?)|intros b w H; exact H].
      apply t_pure. intros Hno. eapply t_weaken; [apply t_copy|done|]. intros [] w [Hs Ho]; split; auto. }
  intros []; cbn [negb]; [|apply t_ret; intros w [Hs ?]; split; [apply Hs|done]].
  destruct (sw_rename ev) eqn:Er; [|apply t_ret; intros w [Hs _]; split; [apply Hs|]; intros (_ & _ & _ & _ & _ & _ & _ & Hx & _); congruence].
  apply t_act. intros w [Hs Ho]. cbn [fst snd]. destruct Hs as ([[H1 H2] H3] & Hst & Hf & Hlt).
  unfold rename_file. rewrite Hst.
  assert (installed (name_inode name s0 (unlink staged w))) as Hi.
  { split; [split|split; [|done]]; cbn [name_inode unlink dr_names dr_inodes].
    - intros n X1 X2 X3. rewrite lookup_insert_ne, lookup_delete_ne by done. by apply H1.
    - done.
    - unfold file_at. cbn. by rewrite lookup_insert_eq. }
  split; [by right|]. split; [done|]. unfold file_at in *. cbn. rewrite lookup_insert_ne, lookup_delete_ne by done. split; [done|].
  rewrite lookup_insert_ne by done. apply lookup_delete_eq.
Qed.

(** How an installation ends. *)
Definition replaced_as (r : Result (list Z) UpdateError) (w : Dir) : Prop :=
  match r with
  | Ok o => o = old ∧ installed w ∧ file_at w old = Some ino0 ∧ dr_names w !! staged = None
  | Err _ => base w ∧ (sw_unlink_staged ev = true → dr_names w !! staged = dr_names w0 !! staged) ∧ ¬ all_ok
  end.

Lemma t_give_up e P : dr_names w0 !! staged = None → (∀ w, P w → base w) → (∀ w, P w → ¬ all_ok) →
  triple safe P (remove_file staged (sw_unlink_staged ev);; run_ret (Err e)) replaced_as.
Proof.
  intros Hfree HP Hno w Hw. pose proof (t_clean (Err (T := list Z) e) P HP w Hw) as Ht. destruct (run_bind _ _ w) as [[r w'] tr].
  destruct Ht as (Htr & -> & Hb & Hs). split; [done|]. split; [done|]. split; [by rewrite Hfree|by eapply Hno].
Qed.

Lemma t_replace : sw_nonce ev = Some nonce → triple safe (λ w, w = w0) (replace_binary ev (Some name) new version) replaced_as.
Proof.
  intros Hn. unfold replace_binary. rewrite Hn. cbn zeta. eapply t_bind; [apply t_open|]. intros []; cbn [negb].
  2: { apply t_ret. intros w [-> ?]. split; [|done]. split; [split|]; done. }
  eapply t_weaken with (pre := λ w, ((∃ m, has_staged [] m w) ∧ old_is (dr_names w0 !! old) w) ∧ dr_names w0 !! staged = None);
    [|by intros w (? & ? & ?)|by intros]. apply t_pure. intros Hfree.
  eapply t_bind; [apply t_write_staged|]. intros []; cbn [negb].
  2: { apply t_give_up; [done|intros w (_ & (d & m & Hs) & _); apply Hs|by intros w (_ & _ & ?)]. }
  apply t_read_bind with (v := runs_as new version).
  { intros w (_ & _ & Hst & Hf & _). unfold file_at. rewrite Hst. cbn. by rewrite Hf. }
  destruct (runs_as new version) eqn:Hr; cbn [negb].
  2: { apply t_give_up; [done|intros w [_ Hs]; apply Hs|]. intros w _ (_ & _ & _ & _ & _ & _ & _ & _ & Hx). congruence. }
  eapply t_bind; [eapply t_weaken; [by apply t_swap| |]; [intros w [Ho Hs]; exact (conj Hs Ho)|intros b w H; exact H]|].
  intros []; cbn [negb]; [|by apply t_give_up; [|intros w []..]]. apply t_ret. intros w (Hi & Ho & Hs). done.
Qed.
End install.

(** ** Versions are ordered *)

Lemma lex_compare_opp x y : lex_compare y x = CompOpp (lex_compare x y).
Proof.
  revert y. induction x as [|a x IH]; intros [|b y]; cbn; try done. rewrite (Z.compare_antisym a b). destruct (a ?= b); cbn; auto.
Qed.

Lemma compare_versions_opp a b : compare_versions b a = CompOpp <$> compare_versions a b.
Proof.
  unfold compare_versions. destruct (version_parts a) as [x|], (version_parts b) as [y|]; cbn; try done.
  by rewrite Nat.max_comm, lex_compare_opp.
Qed.

Lemma compare_versions_same a b : compare_versions a b ≠ None → compare_versions a a = Some Eq.
Proof.
  unfold compare_versions. destruct (version_parts a) as [x|]; cbn; [|done]. intros _. rewrite Nat.max_id. f_equal. generalize (pad_to (length x) x) as l.
  induction l as [|z l IH]; cbn; [done|]. by rewrite Z.compare_refl.
Qed.

(** ** What is installed *)

(** Version [v] of the latest release is newer, and [binary] is what the release's
    archive for this platform holds under the name of this program, the archive having
    the checksum in the file that the release publishes beside it. *)
Definition genuine `{UpdateWorld} (os arch bin current v binary : list Z) : Prop :=
  ∃ t release os' arch' archive checksum t' bytes sums,
    find_release os arch current = (t, Ok (release, true, (os', arch'))) ∧ v = release_version release ∧ compare_versions v current = Some Gt ∧
    archive ∈ rl_assets release ∧ as_name archive = asset_name v os' arch' ∧
    checksum ∈ rl_assets release ∧ as_name checksum = asset_name v os' arch' ++ str_bytes ".sha256" ∧
    http_get t (as_url archive) MAX_ASSET_BYTES = (t', Ok bytes) ∧ (http_get t' (as_url checksum) MAX_API_BYTES).2 = Ok sums ∧
    sha256_hex bytes = to_ascii_lowercase (default [] (head (split_whitespace (from_utf8_lossy sums)))) ∧ extract bytes bin = Ok binary.

Lemma release_asset_some r name a : release_asset r name = Some a → a ∈ rl_assets r ∧ as_name a = name.
Proof. unfold release_asset. intros [Hin Hn%bool_decide_eq_true]%List.find_some. by rewrite list_elem_of_In. Qed.

Lemma find_release_newer `{UpdateWorld} os arch current t release newer oa :
  find_release os arch current = (t, Ok (release, newer, oa)) → ∃ c, compare_versions (release_version release) current = Some c ∧ newer = bool_decide (c = Gt).
Proof.
  unfold find_release. destruct (platform os arch) as [p|]; [|done]. destruct (http_get _ _ _) as [t' [body|e]]; [|done].
  destruct (release_of body) as [rel|]; [|done]. destruct (compare_versions (release_version rel) current) as [c|] eqn:Hc; [|done].
  intros [= <- <- <- <-]. eauto.
Qed.

Lemma download_genuine `{UpdateWorld} os arch current t release bin os' arch' binary :
  find_release os arch current = (t, Ok (release, true, (os', arch'))) → compare_versions (release_version release) current = Some Gt →
  download t release bin os' arch' = Ok binary → genuine os arch bin current (release_version release) binary.
Proof.
  intros Hf Hc. unfold download. destruct (release_asset release (asset_name _ _ _)) as [a|] eqn:Ea; [|done].
  destruct (release_asset release (_ ++ _)) as [b|] eqn:Eb; [|done].
  apply release_asset_some in Ea as [Ha Hna]. apply release_asset_some in Eb as [Hb Hnb].
  destruct (http_get t (as_url a) _) as [t' [bytes|e]] eqn:Eg; [|done]. destruct (http_get t' _ _).2 as [sums|e] eqn:Es; [|done].
  destruct (verify_sha256 bytes (from_utf8_lossy sums)) as [u|e] eqn:Hv; [|done]. cbn. intros Hx.
  exists t, release, os', arch', a, b, t', bytes, sums. split_and!; try done.
  unfold verify_sha256 in Hv. destruct (negb _); [done|]. by case_bool_decide.
Qed.

(** The executable is the one there was, untouched, or a genuine newer one. *)
Definition runnable `{UpdateWorld} (os arch bin current name : list Z) (w0 : Dir) (i0 : nat) (ino0 : Inode) (nonce : option (list Z)) (w : Dir) : Prop :=
  dr_inodes w !! i0 = Some ino0 ∧
  (dr_names w !! name = Some i0 ∨
   ∃ v binary, genuine os arch bin current v binary ∧ runs_as binary v = true ∧ file_at w name = Some (mkInode binary 493)) ∧
  (∀ n, n ≠ name → n ≠ old_name name → (∀ x, nonce = Some x → n ≠ staged_name name x) → dr_names w !! n = dr_names w0 !! n).

(** C32: An update never leaves a machine without a working program. Whatever the
    network answers and whichever system call fails, at every point at which the
    process may die the executable's name is that of the running binary, whose inode
    is never written, or of the new one, complete and executable; and a new binary is
    put there only if it is of the newer version of the latest release, comes from the
    archive that release publishes for this platform, with the checksum it publishes
    for that archive, and has been run and has reported that version. No other
    file of the directory is renamed or removed, apart from the old copy and the
    staged file, which does not stay behind. When an update is reported installed the
    previous binary is kept beside it and the next update finds nothing to do; when
    it is refused the executable is the running one; and it is not refused when there
    is a newer genuine binary that runs and no system call fails. An old copy that
    cannot be removed is supposed not to be the executable itself under a second name. *)
Theorem update_safe `{E : UpdateWorld} action os arch bin current ev w0 name i0 ino0
    (Hwf : dir_wf w0) (Hname : dr_names w0 !! name = Some i0) (Hino : dr_inodes w0 !! i0 = Some ino0)
    (Hold : sw_unlink_old ev = true ∨ dr_names w0 !! old_name name ≠ Some i0) :
  let '(r, w', tr) := update_run action os arch bin current (Some (Some name)) ev w0 in
  Forall (runnable os arch bin current name w0 i0 ino0 (sw_nonce ev)) (tr ++ [w']) ∧
  match r with
  | Ok (Installed v old) =>
      action = SelfUpdate ∧ old = old_name name ∧ file_at w' old = Some ino0 ∧
      (∃ binary, genuine os arch bin current v binary ∧ runs_as binary v = true ∧ file_at w' name = Some (mkInode binary 493)) ∧
      (∀ x, sw_nonce ev = Some x → dr_names w' !! staged_name name x = None) ∧
      compare_versions current v = Some Lt ∧ compare_versions v v = Some Eq
  | Ok (Available v) => action = CheckUpdate ∧ compare_versions v current = Some Gt ∧ w' = w0 ∧ tr = []
  | Ok (UpToDate v) => (∃ c, compare_versions v current = Some c ∧ c ≠ Gt) ∧ w' = w0 ∧ tr = []
  | Err _ => dr_names w' !! name = Some i0 ∧
      (∀ x, sw_nonce ev = Some x → sw_unlink_staged ev = true → dr_names w' !! staged_name name x = dr_names w0 !! staged_name name x) ∧
      (∀ t release os' arch' binary x, action = SelfUpdate → find_release os arch current = (t, Ok (release, true, (os', arch'))) →
         download t release bin os' arch' = Ok binary → sw_nonce ev = Some x →
         ¬ all_ok ev w0 name binary (release_version release) x)
  end.
Proof.
  assert (runnable os arch bin current name w0 i0 ino0 (sw_nonce ev) w0) as H0 by (split; [done|]; split; [by left|done]).
  assert (∀ w, w = w0 → Forall (runnable os arch bin current name w0 i0 ino0 (sw_nonce ev)) ([] ++ [w])) as Hquiet by (intros w ->; by repeat constructor).
  unfold update_run. destruct (find_release os arch current) as [t [[[release newer] [os' arch']]|e]] eqn:Hf; cbn [run_ret].
  2: { split; [by apply Hquiet|]. split; [done|]. split; [done|]. intros; simplify_eq; congruence. }
  pose proof (find_release_newer _ _ _ _ _ _ _ Hf) as (c & Hc & Hn). destruct action; cbn [run_ret].
  { split; [destruct newer; by apply Hquiet|]. destruct newer; symmetry in Hn; [apply bool_decide_eq_true in Hn as ->; done|].
    apply bool_decide_eq_false in Hn. split; [by exists c|done]. }
  destruct newer; cbn [negb run_ret].
  2: { symmetry in Hn. apply bool_decide_eq_false in Hn. split; [by apply Hquiet|]. split; [by exists c|done]. }
  symmetry in Hn. apply bool_decide_eq_true in Hn as ->.
  destruct (download t release bin os' arch') as [binary|e] eqn:Hd; cbn [run_ret].
  2: { split; [by apply Hquiet|]. split; [done|]. split; [done|]. intros; simplify_eq; congruence. }
  assert (genuine os arch bin current (release_version release) binary) as Hg by by eapply download_genuine.
  destruct (sw_nonce ev) as [nonce|] eqn:Hnonce.
  2: { unfold replace_binary, run_bind. rewrite Hnonce. cbn. split; [by apply Hquiet|]. split; [done|]. split; [done|]. intros; simplify_eq; congruence. }
  pose proof (t_replace ev w0 name binary (release_version release) nonce i0 ino0 Hwf Hname Hino Hold Hnonce w0 eq_refl) as Ht.
  unfold run_bind. destruct (replace_binary ev (Some name) binary (release_version release) w0) as [[r w'] tr]. cbn [run_ret].
  destruct Ht as [Htr Hend]. rewrite app_nil_r.
  assert (∀ w, safe ev w0 name binary (release_version release) nonce i0 w → runnable os arch bin current name w0 i0 ino0 (Some nonce) w) as Hsafe.
  { intros w [[Ha Hw]|(Ha & Hw & Hr)]; (split; [by eapply exe_kept|]); (split; [|intros n N1 N2 N3; apply Ha; auto]); [by left|right; eauto]. }
  assert (safe ev w0 name binary (release_version release) nonce i0 w') as Hw' by (destruct r; [right|left]; apply Hend).
  split; [apply Forall_app; split; [eapply Forall_impl; [exact Htr|done]|constructor; [by apply Hsafe|done]]|].
  destruct r as [o|e]; cbn [replaced_as] in Hend.
  - destruct Hend as (-> & (_ & Hw & Hr) & Ho & Hs). split_and!; try done; [by exists binary|by intros x [= <-]| |].
    + rewrite compare_versions_opp, Hc. done.
    + eapply compare_versions_same. rewrite Hc. done.
  - destruct Hend as ([_ Hw] & Hs & Hno). split_and!; [done|by intros x [= <-]|]. intros t' rel' o' a' b' x _ [= <- <- <- <-] Hd' [= <-].
    rewrite Hd in Hd'. by injection Hd' as <-.
Qed.

Module UpdateExample.
(** One release, 0.10.0 for linux on amd64; files are shell scripts that print a version. *)
Definition latest : list Z := str_bytes "0.10.0".
Definition script : list Z := str_bytes "echo relay 0.10.0".
Definition archive_name : list Z := asset_name latest (str_bytes "linux") (str_bytes "amd64").
Definition hex_sum : list Z := str_bytes "00112233445566778899aabbccddeeff00112233445566778899aabbccddeeff".
Definition url (n : Z) : list Z := str_bytes "https://x/" ++ [n].
Definition ok (body : list Z) : list Z := http_message 200 (str_bytes "OK") [] (ByLength body []).

#[export] Instance world : UpdateWorld := {|
  release_of b := if bool_decide (b = str_bytes "{}")
    then Some (mkRelease (str_bytes "v0.10.0") [mkAsset archive_name (url 49); mkAsset (archive_name ++ str_bytes ".sha256") (url 50)]) else None;
  sha256_hex _ := hex_sum;
  tar_entries _ := [Some (str_bytes "nqvpn-coord", []); Some (str_bytes "nqvpn-relay", script)];
  run_version d := Some (true, drop 5 d);
  net_answer t u := if bool_decide (u = url 49) then Some (http_message 302 [] [(str_bytes "Location", url 51)] (ByClose [])) else
    if bool_decide (u = url 50) then Some (ok (hex_sum ++ str_bytes "  x")) else
    if bool_decide (u = url 51) then Some (ok [1; 2]) else Some (ok (str_bytes "{}"));
|}.

Definition name : list Z := str_bytes "nqvpn-relay".
Definition before : Inode := mkInode (str_bytes "echo relay 0.9.3") 493.
Definition dir : Dir := mkDir {[name := 0%nat]} {[0%nat := before]} 1.
Definition fine : SwapEnv := mkSwapEnv (Some [48; 49]) 18 true None true true true true true true None true.
Definition updated := update_run SelfUpdate (str_bytes "linux") (str_bytes "x86_64") name (str_bytes "0.9.3") (Some (Some name)) fine dir.

Lemma dir_ok : dir_wf dir.
Proof. split; cbn [dir dr_names dr_inodes dr_next]; intros ?? [<- <-]%lookup_singleton_Some; [by rewrite lookup_singleton_eq|lia]. Qed.
Lemma updated_ok : updated.1.1 = Ok (Installed latest (old_name name)).
Proof. vm_compute. reflexivity. Qed.
Lemma updated_eq : update_run SelfUpdate (str_bytes "linux") (str_bytes "x86_64") name (str_bytes "0.9.3") (Some (Some name)) fine dir =
  (Ok (Installed latest (old_name name)), updated.1.2, updated.2).
Proof. rewrite <- updated_ok. unfold updated. by destruct (update_run _ _ _ _ _ _ _ _) as [[]]. Qed.
End UpdateExample.

Lemma update_safe_witness :
  file_at (UpdateExample.updated).1.2 (old_name UpdateExample.name) = Some UpdateExample.before ∧
  Forall (λ w, dr_inodes w !! 0%nat = Some UpdateExample.before) (UpdateExample.updated).2 ∧
  ∃ binary, genuine (H := UpdateExample.world) (str_bytes "linux") (str_bytes "x86_64") UpdateExample.name (str_bytes "0.9.3") UpdateExample.latest binary.
Proof.
  pose proof (update_safe (E := UpdateExample.world) SelfUpdate (str_bytes "linux") (str_bytes "x86_64") UpdateExample.name (str_bytes "0.9.3") UpdateExample.fine
    UpdateExample.dir UpdateExample.name 0 UpdateExample.before UpdateExample.dir_ok eq_refl eq_refl (or_introl eq_refl)) as H.
  rewrite UpdateExample.updated_eq in H. destruct H as [Ht (_ & _ & Ho & (binary & Hg & _) & _)].
  split; [exact Ho|]. split; [|by exists binary]. apply Forall_app in Ht as [Ht _]. eapply Forall_impl; [exact Ht|]. by intros w [H _].
Defined.
