(* ===== verification/RelayHost.v ===== *)
(** * A relay's endpoint (crates/nqvpn-relay/src/endpoint.rs)

    A relay that has an address or fronts a LAN terminates frames for its own node
    id with the client's engine and sends its own through its own forwarding table.
    [LocalEndpoint] is that engine with the route set, the device's addresses and
    the cache of the relays' underlay addresses; names are looked up in the
    background, so a lookup is started by one event and answered by another. Times
    are seconds. *)

From S2P Require Import Prelude Ordered Ipnet Text Frame Control Tables Credential RelayNet Replay Seal.
From S2P Require Import Flow Lpm Peers Sessions Engine Endpoint Routes.

(** ** Socket addresses: the parser of [core::net] *)

Definition read_port : reader Z := λ s,
  match read_given_char 58 s with Some (_, s') => read_number 10 (length s') 65535 true s' | None => None end.
Definition read_scope : reader unit := λ s,
  match read_given_char 37 s with
  | Some (_, s') => match read_number 10 (length s') (2 ^ 32 - 1) true s' with Some (_, s'') => Some (tt, s'') | None => Some (tt, s) end
  | None => Some (tt, s)
  end.

(** [SocketAddr::from_str], as far as the address. *)
Definition socket_ip (text : string) : option IpAddr :=
  let s := str_bytes text in
  match (r ← read_ipv4_addr s; p ← read_port r.2; match p.2 with [] => Some (V4 r.1) | _ => None end) with
  | Some ip => Some ip
  | None =>
      a ← read_given_char 91 s; r ← read_ipv6_addr a.2; z ← read_scope r.2; b ← read_given_char 93 z.2; p ← read_port b.2;
      match p.2 with [] => Some (V6 r.1) | _ => None end
  end.

(** ** The relays' addresses *)

Definition UNDERLAY_TTL : Z := 300.
Definition UNDERLAY_RETRY : Z := 30.

Record Resolved := mkResolved { rv_ips : list IpAddr; rv_until : option Z; rv_pending : bool }.
Definition resolved_default : Resolved := mkResolved [] None false.

Abbreviation UnderlayCache := (gmap string Resolved).
(** The walk over the relays: the cache, the addresses, whether they are complete, the lookups started. *)
Record UnderlayWalk := mkUnderlayWalk { uw_cache : UnderlayCache; uw_out : list IpAddr; uw_complete : bool; uw_spawned : list string }.

(** [runtime]: does [spawn_lookup] find a runtime. *)
Definition underlay_visit (now : Z) (runtime : bool) (u : UnderlayWalk) (addr : string) : UnderlayWalk :=
  match socket_ip addr with
  | Some ip => mkUnderlayWalk (uw_cache u) (uw_out u ++ [ip]) (uw_complete u) (uw_spawned u)
  | None =>
      let e := default resolved_default (uw_cache u !! addr) in
      let due := negb (rv_pending e) && match rv_until e with Some t => t <=? now | None => true end in
      let spawned := due && runtime in
      let e := if spawned then mkResolved (rv_ips e) (rv_until e) true else
               if due then mkResolved (rv_ips e) (Some (now + UNDERLAY_RETRY)) (rv_pending e) else e in
      let complete := uw_complete u && negb (rv_pending e && bool_decide (rv_until e = None)) in
      mkUnderlayWalk (<[addr := e]> (uw_cache u)) (uw_out u ++ rv_ips e) complete (uw_spawned u ++ if spawned then [addr] else [])
  end.

Definition underlay_addrs (cache : UnderlayCache) (relays : list string) (now : Z) (runtime : bool) : UnderlayWalk :=
  foldl (underlay_visit now runtime) (mkUnderlayWalk (filter (λ p : string * Resolved, p.1 ∈ relays) cache) [] true []) relays.

(** The end of a lookup; no addresses when it failed or timed out. *)
Definition lookup_answered (cache : UnderlayCache) (addr : string) (answer : list IpAddr) (now : Z) : UnderlayCache :=
  match cache !! addr with
  | None => cache
  | Some e =>
      <[addr := match answer with
                | [] => mkResolved (rv_ips e) (Some (now + UNDERLAY_RETRY)) false
                | _ => mkResolved answer (Some (now + UNDERLAY_TTL)) false
                end]> cache
  end.

(** ** The endpoint *)

Section local_endpoint.
Context `{O : IpNetOps, T : TrieOps, B : Base64, N : NoiseLib} {K : Type} `{RP : RouteProgrammer K}.

Record LocalEndpoint := mkLocalEndpoint {
  le_engine : Engine;
  le_bound : bool;
  le_routes : RouteSet (K := K);
  le_mine : list IpNet;
  le_underlay : UnderlayCache;
}.

Definition local_new (my_node_id : Z) (network_uuid : string) (keys : StaticKeys) (hosts nets : list IpNet) (mtu lanes : Z) (k : K) : LocalEndpoint :=
  mkLocalEndpoint (engine_new my_node_id network_uuid keys (set_mine hosts nets (peers_new my_node_id)) mtu lanes) false (route_set_new k) (hosts ++ nets) ∅.

Definition set_facts (hosts nets : list IpNet) (l : LocalEndpoint) : LocalEndpoint :=
  mkLocalEndpoint (en_set_peers (set_mine hosts nets (en_peers (le_engine l))) (le_engine l)) (le_bound l) (le_routes l) (hosts ++ nets) (le_underlay l).

Definition local_bind (l : LocalEndpoint) : LocalEndpoint := mkLocalEndpoint (le_engine l) true (le_routes l) (le_mine l) (le_underlay l).

Definition relay_sink_reconcile (rs : RouteSet (K := K)) (wanted mine : list IpNet) : RouteSet (K := K) * Result unit string :=
  match reconcile_via_kernel rs wanted mine with
  | (rs, Ok true) => (rs, Ok tt)
  | (rs, Ok false) => route_reconcile rs wanted mine
  | (rs, Err e) => (rs, Err e)
  end.

(** [local]: the prefixes of the host's other interfaces. The lookups started are returned. *)
Definition local_sync (l : LocalEndpoint) (view : Snapshot) (local : list IpNet) (now : Z) (runtime : bool) : LocalEndpoint * list string :=
  let e := en_set_peers (replace_all (en_peers (le_engine l)) (s_members view)) (le_engine l) in
  let u := underlay_addrs (le_underlay l) (re_addr <$> s_relays view) now runtime in
  if uw_complete u then
    let wanted := wanted_routes view (en_my_node_id e) (le_mine l) in
    let keep := (exclude_local wanted local (uw_out u)).1 in
    let rs := (relay_sink_reconcile (le_routes l) keep (le_mine l)).1 in
    (mkLocalEndpoint e (le_bound l) rs (le_mine l) (uw_cache u), uw_spawned u)
  else (mkLocalEndpoint e (le_bound l) (le_routes l) (le_mine l) (uw_cache u), uw_spawned u).

Definition local_answered (l : LocalEndpoint) (addr : string) (answer : list IpAddr) (now : Z) : LocalEndpoint :=
  mkLocalEndpoint (le_engine l) (le_bound l) (le_routes l) (le_mine l) (lookup_answered (le_underlay l) addr answer now).

(** [SelfUplink::send]: what it answers. *)
Definition self_accepts (bound : bool) (datagram : list Z) (lane : Z) : bool := bound && bool_decide (header_parse datagram ≠ None).
Definition local_deliver (l : LocalEndpoint) (datagram : list Z) (now now' : Z) : LocalEndpoint * list Out :=
  let '(e, outs) := inbound (le_engine l) datagram (self_accepts (le_bound l)) now now' in
  (mkLocalEndpoint e (le_bound l) (le_routes l) (le_mine l) (le_underlay l), outs).

(** The watch over the sessions and over the routes. *)
Definition local_expire (l : LocalEndpoint) (now : Z) : LocalEndpoint :=
  mkLocalEndpoint (expire_sessions (le_engine l) now) (le_bound l) (le_routes l) (le_mine l) (le_underlay l).
Definition relay_sink_reassert (rs : RouteSet (K := K)) : RouteSet (K := K) * Result unit string :=
  match reassert_via_kernel rs with
  | (rs, Ok true) => (rs, Ok tt)
  | (rs, Ok false) => route_reassert rs
  | (rs, Err e) => (rs, Err e)
  end.
Definition local_reassert (l : LocalEndpoint) : LocalEndpoint :=
  mkLocalEndpoint (le_engine l) (le_bound l) (relay_sink_reassert (le_routes l)).1 (le_mine l) (le_underlay l).

(** A packet from the device. *)
Definition local_packet (l : LocalEndpoint) (packet : list Z) (now : Z) (clock : Tai64n) : LocalEndpoint * list Out :=
  let '(e, outs) := outbound (le_engine l) packet (self_accepts (le_bound l)) now clock in
  (mkLocalEndpoint e (le_bound l) (le_routes l) (le_mine l) (le_underlay l), outs).
End local_endpoint.

(** ... and what it does: the frame goes through the relay's own table, as a client's. *)
Definition self_send `{L : CredLib} (n : RelayNet) (bound : bool) (sent : bool) (datagram : list Z) (lane : Z) : RelayNet * list Effect :=
  if self_accepts bound datagram lane then forward n (OClient (rn_my_node_id n)) None sent datagram lane else (n, []).

(** ** What the cache knows *)

Definition entry (c : UnderlayCache) (a : string) : Resolved := default resolved_default (c !! a).

Record walked (c0 : UnderlayCache) (seen : list string) (u : UnderlayWalk) : Prop := {
  wk_dom : ∀ a, is_Some (uw_cache u !! a) ↔ is_Some (c0 !! a) ∨ (a ∈ seen ∧ socket_ip a = None);
  wk_same : ∀ a, rv_ips (entry (uw_cache u) a) = rv_ips (entry c0 a) ∧ rv_until (entry (uw_cache u) a) = rv_until (entry c0 a);
  wk_pending : ∀ a, a ∈ seen → socket_ip a = None → rv_until (entry c0 a) = None → rv_pending (entry (uw_cache u) a) = true;
  wk_keep : ∀ a, rv_pending (entry c0 a) = true → rv_pending (entry (uw_cache u) a) = true;
  wk_complete : uw_complete u = true ↔ ∀ a, a ∈ seen → socket_ip a = None → rv_until (entry c0 a) ≠ None;
  wk_out : ∀ ip, ip ∈ uw_out u ↔ ∃ a, a ∈ seen ∧ (socket_ip a = Some ip ∨ socket_ip a = None ∧ ip ∈ rv_ips (entry c0 a));
  wk_spawned : NoDup (uw_spawned u) ∧ ∀ a, a ∈ uw_spawned u → a ∈ seen ∧ socket_ip a = None ∧ rv_pending (entry c0 a) = false ∧ rv_pending (entry (uw_cache u) a) = true;
}.

Lemma entry_insert c a e a' : entry (<[a := e]> c) a' = if decide (a' = a) then e else entry c a'.
Proof. unfold entry. case_decide as H; [subst; by rewrite lookup_insert_eq|by rewrite lookup_insert_ne]. Qed.

Lemma seen_snoc (seen : list string) addr a : a ∈ seen ++ [addr] ↔ a ∈ seen ∨ a = addr.
Proof. by rewrite elem_of_app, list_elem_of_singleton. Qed.

Lemma some_snoc (P : string → Prop) seen addr : (∃ a, a ∈ seen ++ [addr] ∧ P a) ↔ (∃ a, a ∈ seen ∧ P a) ∨ P addr.
Proof. setoid_rewrite seen_snoc. naive_solver. Qed.
Lemma all_snoc (P : string → Prop) seen addr : (∀ a, a ∈ seen ++ [addr] → P a) ↔ (∀ a, a ∈ seen → P a) ∧ P addr.
Proof. setoid_rewrite seen_snoc. naive_solver. Qed.

Lemma spawned_snoc P Q seen addr (a : string) : a ∈ seen ∧ P ∧ Q → a ∈ seen ++ [addr] ∧ P ∧ Q.
Proof. rewrite seen_snoc. tauto. Qed.

Lemma walk_visit c0 seen u now addr : walked c0 seen u → walked c0 (seen ++ [addr]) (underlay_visit now true u addr).
Proof.
  intros [H1 H2 H3 H4 H5 H6 H7]. unfold underlay_visit.
  destruct (socket_ip addr) as [ip|] eqn:Es.
  - split; cbn [uw_cache uw_out uw_complete uw_spawned]; try done.
    + intros a. rewrite H1, seen_snoc. split; [intros [?|[??]]; auto|intros [?|[[?| ->] ?]]; auto; congruence].
    + intros a [?| ->]%seen_snoc; [by apply H3|congruence].
    + rewrite H5. split; [intros H a [?| ->]%seen_snoc; [auto|congruence]|intros H a Ha; apply H, seen_snoc; auto].
    + intros x. rewrite elem_of_app, H6, list_elem_of_singleton, some_snoc, Es. apply or_iff_compat_l. split; [intros ->; auto|intros [?|[? ?]]; congruence].
    + destruct H7 as [Hd H7]. split; [done|]. intros a Ha. by apply spawned_snoc, H7.
  - fold (entry (uw_cache u) addr). destruct (H2 addr) as [Hi Hu]. specialize (H4 addr) as H4a. set (e := entry (uw_cache u) addr) in *.
    rewrite andb_true_r. set (due := negb (rv_pending e) && _).
    set (e' := if due then mkResolved (rv_ips e) (rv_until e) true else if due then _ else e).
    assert (rv_ips e' = rv_ips e ∧ rv_until e' = rv_until e ∧ (rv_until e = None → rv_pending e' = true) ∧ (rv_pending e = true → rv_pending e' = true) ∧
      (due = true → rv_pending e = false ∧ rv_pending e' = true)) as (E1 & E2 & E3 & E4 & E5).
    { unfold e', due. destruct (rv_pending e) eqn:Ep; cbn; [done|]. destruct (rv_until e) as [t|] eqn:Et; [destruct (t <=? now)|]; done. }
    split; cbn [uw_cache uw_out uw_complete uw_spawned].
    + intros a. rewrite lookup_insert_is_Some', H1, seen_snoc. split; [intros [<-|[?|[??]]]; auto|intros [?|[[?| ->] ?]]; auto].
    + intros a. rewrite entry_insert. case_decide as Ha; [subst a; split; congruence|apply H2].
    + intros a. rewrite entry_insert. case_decide as Ha; [subst a; intros _ _ Hn; apply E3; congruence|]. intros [Hin|?]%seen_snoc ? ?; [by apply H3|done].
    + intros a Ha. rewrite entry_insert. case_decide as Hx; [subst a; auto|auto].
    + assert (rv_pending e' && bool_decide (rv_until e' = None) = true ↔ rv_until (entry c0 addr) = None) as Hc.
      { rewrite andb_true_iff, bool_decide_eq_true, E2, Hu. split; [by intros []|]. intros Hn. split; [|done]. apply E3. by rewrite Hu. }
      rewrite andb_true_iff, negb_true_iff, H5, <- not_true_iff_false, Hc, all_snoc. split; [intros [? ?]; auto|intros [? H]; auto].
    + intros x. rewrite elem_of_app, H6, E1, Hi, some_snoc, Es. apply or_iff_compat_l. split; [auto|intros [?|[? ?]]; congruence].
    + destruct H7 as [Hd H7]. destruct due eqn:Hdue.
      * destruct (E5 eq_refl) as [E5a E5b]. split.
        { apply NoDup_app. split_and!; [done|intros x Hx ->%list_elem_of_singleton|apply NoDup_singleton]. destruct (H7 _ Hx) as (_ & _ & _ & Hp).
          fold e in Hp. congruence. }
        intros a [Ha| ->%list_elem_of_singleton]%elem_of_app.
        -- destruct (H7 a Ha) as (? & ? & ? & Hp). rewrite entry_insert, seen_snoc. case_decide; [subst; auto|auto].
        -- rewrite entry_insert, decide_True, seen_snoc by done. split_and!; auto. apply not_true_iff_false. intros Hp%H4a. congruence.
      * rewrite app_nil_r. split; [done|]. intros a Ha. destruct (H7 a Ha) as (? & ? & ? & Hp). rewrite entry_insert, seen_snoc. case_decide; [subst; auto|auto].
Qed.

Lemma walk_all cache relays now : let c0 := filter (λ p : string * Resolved, p.1 ∈ relays) cache in walked c0 relays (underlay_addrs cache relays now true).
Proof.
  cbn zeta. unfold underlay_addrs. set (c0 := filter _ cache). clearbody c0. induction relays as [|a l IH] using rev_ind.
  - split; cbn [uw_cache uw_out uw_complete uw_spawned foldl]; try done.
    + intros a. split; [auto|intros [?|[?%not_elem_of_nil _]]; done].
    + intros a ?%not_elem_of_nil. done.
    + split; [intros _ a ?%not_elem_of_nil|]; done.
    + intros x. split; [intros ?%not_elem_of_nil|intros (a & ?%not_elem_of_nil & _)]; done.
    + split; [constructor|intros a ?%not_elem_of_nil; done].
  - rewrite foldl_snoc. by apply walk_visit.
Qed.

Lemma walk_named (cache : UnderlayCache) (relays : list string) : ∀ a, a ∈ relays →
  entry (filter (λ p : string * Resolved, p.1 ∈ relays) cache) a = entry cache a.
Proof.
  intros a Ha. unfold entry. destruct (cache !! a) as [e|] eqn:E.
  - by rewrite (proj2 (map_lookup_filter_Some _ _ _ _) (conj E Ha)).
  - rewrite (proj2 (map_lookup_filter_None _ _ _)); [done|auto].
Qed.

Lemma answered_entry cache addr answer now a :
  is_Some (lookup_answered cache addr answer now !! a) ↔ is_Some (cache !! a).
Proof.
  unfold lookup_answered. destruct (cache !! addr) as [e|] eqn:E; [|done]. rewrite lookup_insert_is_Some'. split; [intros [<-|?]; eauto|auto].
Qed.

Lemma answered_until cache addr answer now a :
  rv_until (entry cache a) ≠ None ∨ a = addr ∧ is_Some (cache !! a) → rv_until (entry (lookup_answered cache addr answer now) a) ≠ None.
Proof.
  unfold lookup_answered. intros H. destruct (cache !! addr) as [e|] eqn:E.
  - rewrite entry_insert. case_decide as Ha; [by destruct answer|]. destruct H as [?|[? _]]; done.
  - destruct H as [?|[-> [e' He]]]; [done|congruence].
Qed.

Lemma answers_until t answers cache a :
  rv_until (entry cache a) ≠ None ∨ a ∈ answers.*1 ∧ is_Some (cache !! a) →
  let c := foldl (λ c p, lookup_answered c p.1 p.2 t) cache answers in rv_until (entry c a) ≠ None.
Proof.
  cbn zeta. revert cache. induction answers as [|[b ans] l IH]; intros cache H; cbn.
  - destruct H as [?|[[]%not_elem_of_nil _]]; done.
  - apply IH. rewrite answered_entry. destruct H as [?|[[->|?]%elem_of_cons Hs]]; [left; apply answered_until; auto|left; apply answered_until; auto|auto].
Qed.

(** ** Routes that capture no known relay *)

Section guarded.
Context `{O : IpNetOps, OL : !IpNetLaws O, T : TrieOps, B : Base64, N : NoiseLib} {K : Type} `{RP : RouteProgrammer K, RL : !RouteLaws K}.

Lemma relay_sink_kernel rs w m present : list_via_dev (rs_programmer rs) = Some present →
  (relay_sink_reconcile rs w m).1 = (reconcile_via_kernel rs w m).1.
Proof.
  intros Hl. unfold relay_sink_reconcile. destruct (reconcile_via_kernel rs w m) as [rs' r] eqn:E. destruct r as [[]|]; [done| |done].
  unfold reconcile_via_kernel in E. rewrite Hl in E. destruct (call_all add_via_tun _ _) as [k errs]. destruct errs as [|[? ?] ?]; cbn in E; congruence.
Qed.

(** A relay whose name was never answered, and the addresses the relay knows of. *)
Definition unanswered (cache : UnderlayCache) (view : Snapshot) (a : string) : Prop :=
  a ∈ re_addr <$> s_relays view ∧ socket_ip a = None ∧ rv_until (entry cache a) = None.
Definition relay_known (cache : UnderlayCache) (view : Snapshot) (ip : IpAddr) : Prop :=
  ∃ a, a ∈ re_addr <$> s_relays view ∧ (socket_ip a = Some ip ∨ socket_ip a = None ∧ ip ∈ rv_ips (entry cache a)).
(** A prefix that stays out of the host's networks and captures none of those addresses. *)
Definition spares (cache : UnderlayCache) (view : Snapshot) (local : list IpNet) (w : IpNet) : Prop :=
  (∀ l, l ∈ local → net_contains_net l w = false) ∧
  ∀ u, relay_known cache view u → net_contains w u = true → ∃ l, l ∈ local ∧ net_contains l u = true ∧ net_prefix_len w < net_prefix_len l.

Context (l : LocalEndpoint (K := K)) (view : Snapshot) (local : list IpNet) (now : Z).
#[local] Abbreviation relays := (re_addr <$> s_relays view).
#[local] Abbreviation cache := (le_underlay l).
#[local] Abbreviation walk := (underlay_addrs cache relays now true).
#[local] Abbreviation wants := (wanted_routes view (en_my_node_id (le_engine l)) (le_mine l)).

Lemma walk_incomplete : uw_complete walk = false ↔ ∃ a, unanswered cache view a.
Proof.
  destruct (walk_all cache relays now) as [_ _ _ _ Hc _ _]. destruct (uw_complete walk); split; try done.
  - intros (a & Ha & Hs & Hu). destruct (proj1 Hc eq_refl a Ha Hs). by rewrite walk_named.
  - intros _. destruct (decide (Exists (λ a, socket_ip a = None ∧ rv_until (entry cache a) = None) relays)) as [He|Hn].
    { apply Exists_exists in He as (a & ? & ? & ?). by exists a. }
    exfalso. assert (false = true) as [=]. apply Hc. intros a Ha Hs Hu. rewrite walk_named in Hu by done. apply Hn, Exists_exists. eauto.
Qed.

Lemma walk_known ip : ip ∈ uw_out walk ↔ relay_known cache view ip.
Proof.
  destruct (walk_all cache relays now) as [_ _ _ _ _ Ho _]. rewrite Ho. unfold relay_known. split; intros (a & Ha & H); exists a; (split; [done|]).
  - by rewrite walk_named in H by done.
  - by rewrite walk_named by done.
Qed.

Lemma kept_spares w : w ∈ (exclude_local wants local (uw_out walk)).1 ↔ w ∈ wants ∧ spares cache view local w.
Proof.
  pose proof (exclude_local_spec wants local (uw_out walk)) as Hx. destruct (exclude_local _ _ _) as [keep out]. destruct Hx as [-> _]. cbn.
  rewrite list_elem_of_In, List.filter_In, <- list_elem_of_In, bool_decide_eq_true, exclusion_none. unfold harmless, spares.
  by setoid_rewrite walk_known.
Qed.

Lemma walk_spawned : NoDup (uw_spawned walk) ∧
  ∀ a, a ∈ uw_spawned walk → a ∈ relays ∧ socket_ip a = None ∧ rv_pending (entry cache a) = false.
Proof.
  destruct (walk_all cache relays now) as [_ _ _ _ _ _ [Hd Hs]]. split; [done|]. intros a Ha. destruct (Hs a Ha) as (Hr & Hn & Hp & _).
  by rewrite walk_named in Hp.
Qed.

Lemma walk_in_flight a : unanswered cache view a → rv_pending (entry (uw_cache walk) a) = true.
Proof. destruct (walk_all cache relays now) as [_ _ Hp _ _ _ _]. intros (Ha & Hn & Hu). apply Hp; [done..|by rewrite walk_named]. Qed.

(** Once every name that was waited for is answered, with addresses or not, nothing waits. *)
Lemma answers_complete answers t now' : (∀ a, unanswered cache view a → a ∈ answers.*1) →
  uw_complete (underlay_addrs (foldl (λ c p, lookup_answered c p.1 p.2 t) (uw_cache walk) answers) relays now' true) = true.
Proof.
  intros Hall. set (c := foldl _ _ _). destruct (walk_all c relays now') as [_ _ _ _ -> _ _]. intros a Ha Hn. rewrite walk_named by done.
  apply answers_until. destruct (walk_all cache relays now) as [Hdom Hsame _ _ _ _ _]. rewrite (proj2 (Hsame a)), walk_named by done.
  destruct (decide (rv_until (entry cache a) = None)) as [Hu|]; [right|by left]. split; [by apply Hall|]. apply Hdom. auto.
Qed.

Lemma answered_all answers t (l' : LocalEndpoint (K := K)) :
  le_underlay (foldl (λ l p, local_answered l p.1 p.2 t) l' answers) = foldl (λ c p, lookup_answered c p.1 p.2 t) (le_underlay l') answers.
Proof. revert l'. induction answers as [|[a ans] as_ IH]; intros l'; cbn; [done|]. by rewrite IH. Qed.

End guarded.

(** ** A relay with a session *)

Module RelayHostExample.
#[export] Existing Instance ipnet_ref.
#[export] Existing Instance NoiseExample.noise.
#[export] Existing Instance NoiseExample.noise_static.
#[export] Existing Instance EndpointExample.base64.
#[export] Existing Instance RoutesExample.Table_programmer.
#[export] Existing Instance RoutesExample.Table_laws.

(** A LAN of a member, and two relays inside it: one by its address, one by its name. *)
Definition lan : IpNet := Net4 (10 * 2 ^ 24 + 5 * 2 ^ 16) 16.
Definition far : IpNet := Net4 (10 * 2 ^ 24 + 6 * 2 ^ 16) 16.
Definition lan_member : PeerInfo := mkPeerInfo 1 "n" Client [Net4 (EndpointExample.addr 1) 32; lan; far] (b64_encode (sk_public NoiseExample.kA)) true 0.
Definition view : Snapshot := mkSnapshot 3 [lan_member; EndpointExample.info 2 NoiseExample.kB] []
  [mkRelayEndpoint 7 "r7" "10.5.0.1:7800" "f"; mkRelayEndpoint 8 "r8" "r8.example:7800" "f"] (mkNetworkMtu 1350 "config") [] [].
Definition host (cache : UnderlayCache) : LocalEndpoint (K := Table) :=
  mkLocalEndpoint EndpointExample.b2.1 true RoutesExample.rs [RoutesExample.own] cache.

(** Member 1's key is replaced in the next view. Its next frame, sealed under the
    old key's session, still reaches the device; an endpoint that applies the view
    with [sync_peers], as the client does, drops it. *)
Definition a3 := outbound EndpointExample.a2.1 EndpointExample.packet EndpointExample.up 1004 EndpointExample.clock.
Definition rekeyed : Snapshot :=
  mkSnapshot 4 [EndpointExample.info 1 (mkStaticKeys [9; 9; 9] [9; 9; 9]); EndpointExample.info 2 NoiseExample.kB] [] [] (mkNetworkMtu 1350 "config") [] [].

Lemma relay_keeps_replaced_session :
  (local_deliver (local_sync (host ∅) rekeyed [] 1004 true).1 (EndpointExample.frame_of a3) 1005 1005).2 = [OutTun EndpointExample.packet] ∧
  (inbound (sync_peers EndpointExample.b2.1 (s_members rekeyed)) (EndpointExample.frame_of a3) EndpointExample.up 1005 1005).2 = [].
Proof. vm_compute. done. Qed.

(** The name known, and the lookup that was started answered without addresses. *)
Definition named : UnderlayCache := {["r8.example:7800"%string := mkResolved [V4 1] (Some 2000) false]}.
Definition failed : LocalEndpoint := local_answered (local_sync (host ∅) view [] 1004 true).1 "r8.example:7800" [] 1010.

(** r8 is at 10.6.0.9, behind [far], but its first lookup failed: the next view routes
    [far], and with it the way to r8, into the tunnel. *)
Lemma unresolved_relay_captured :
  far ∈ kernel (rs_programmer (le_routes (local_sync failed view [] 1011 true).1)) ∧ net_contains far (V4 (10 * 2 ^ 24 + 6 * 2 ^ 16 + 9)) = true ∧
  far ∉ kernel (rs_programmer (le_routes (local_sync (local_answered (local_sync (host ∅) view [] 1004 true).1 "r8.example:7800"
    [V4 (10 * 2 ^ 24 + 6 * 2 ^ 16 + 9)] 1010) view [] 1011 true).1)).
Proof. split_and!; by_decide. Qed.

(** The view reaches the engine by the relay's step of an endpoint. *)
Lemma local_sync_step {K} `{O : IpNetOps, T : TrieOps, B : Base64, N : NoiseLib, RP : RouteProgrammer K} (l : LocalEndpoint (K := K)) v local now runtime :
  ep_step RelayEnd (le_engine l, None) (le_engine (local_sync l v local now runtime).1, None).
Proof. unfold local_sync. cbv zeta. case_match; by apply ep_replace. Qed.
End RelayHostExample.

#[local] Existing Instance ipnet_ref.
#[local] Existing Instance NoiseExample.noise.
#[local] Existing Instance NoiseExample.noise_static.
#[local] Existing Instance EndpointExample.base64.
#[local] Existing Instance RoutesExample.Table_programmer.
#[local] Existing Instance RoutesExample.Table_laws.

