(* ===== verification/KernelRoutes.v ===== *)
(** * The programmer of the kernel's routes (crates/nqvpn-endpoint/src/routes.rs, [NetRouteProgrammer])

    [RouteSet] and [reconcile_pins] work against interfaces ([RouteProgrammer],
    [HostRouteTable]); this file models what implements them on Linux: the
    operating system's routing table, read and changed through the
    [route_manager] crate, with the routes of the tunnel's device told from the
    host's. The crate and the kernel behind it are a parameter ([RouteManager])
    with laws ([ManagerLaws]); the programmer's [RouteLaws] are proved from them. *)

From S2P Require Import Prelude Ordered Ipnet Text Crash Pins Routes.

(** ** The operating system's table *)

(** A route as the table lists it, and as a request names one. *)
Record OsRoute := mkOsRoute {
  ro_destination : IpAddr; ro_prefix : Z; ro_gateway : option IpAddr;
  ro_if_index : option Z; ro_if_name : option string; ro_table : Z; ro_metric : option Z;
}.
Record RouteRequest := mkRouteRequest {
  rq_destination : IpAddr; rq_prefix : Z; rq_gateway : option IpAddr; rq_if_index : option Z; rq_if_name : option string;
}.

#[export] Instance OsRoute_eq_dec : EqDecision OsRoute.
Proof. solve_decision. Defined.

Inductive IoErrorKind := AlreadyExists | OtherError.

Class RouteManager (M : Type) := {
  rm_list : M → option (list OsRoute);
  rm_add : M → RouteRequest → M * Result unit IoErrorKind;
  rm_delete : M → RouteRequest → M * Result unit IoErrorKind;
  (** [libc::if_nametoindex]: 0 for no such interface *)
  if_nametoindex : M → string → Z;
}.

Definition RT_TABLE_MAIN : Z := 254.
Definition in_main_table (r : OsRoute) : bool := ro_table r =? RT_TABLE_MAIN.

Definition named_by (given : option Z) (x : option Z) : Prop := match given with Some i => x = Some i | None => True end.
Definition named_by_name (given : option string) (x : option string) : Prop := match given with Some i => x = Some i | None => True end.
(** The route a request makes, and the routes a request may delete. *)
Definition made_by (q : RouteRequest) (r : OsRoute) : Prop :=
  ro_destination r = rq_destination q ∧ ro_prefix r = rq_prefix q ∧ ro_gateway r = rq_gateway q ∧
  named_by (rq_if_index q) (ro_if_index r) ∧ named_by_name (rq_if_name q) (ro_if_name r) ∧ in_main_table r = true.
Definition deleted_by (q : RouteRequest) (r : OsRoute) : Prop :=
  ro_destination r = rq_destination q ∧ ro_prefix r = rq_prefix q ∧
  match rq_gateway q with Some g => ro_gateway r = Some g | None => True end ∧
  named_by (rq_if_index q) (ro_if_index r) ∧ named_by_name (rq_if_name q) (ro_if_name r) ∧ in_main_table r = true.

Class ManagerLaws (M : Type) `{RouteManager M} := {
  rm_routes : M → list OsRoute;
  rm_list_routes m l : rm_list m = Some l → ∀ r, r ∈ l ↔ r ∈ rm_routes m;
  rm_add_ok m q : (rm_add m q).2 = Ok tt → ∃ r, made_by q r ∧ ∀ x, x ∈ rm_routes (rm_add m q).1 ↔ x = r ∨ x ∈ rm_routes m;
  rm_add_err m q e : (rm_add m q).2 = Err e → ∀ x, x ∈ rm_routes (rm_add m q).1 ↔ x ∈ rm_routes m;
  (* EEXIST: the table has a route to that prefix *)
  rm_add_exists m q : (rm_add m q).2 = Err AlreadyExists →
    ∃ x, x ∈ rm_routes m ∧ ro_destination x = rq_destination q ∧ ro_prefix x = rq_prefix q ∧ in_main_table x = true;
  rm_delete_only m q x : x ∈ rm_routes m → x ∈ rm_routes (rm_delete m q).1 ∨ deleted_by q x;
  rm_delete_back m q x : x ∈ rm_routes (rm_delete m q).1 → x ∈ rm_routes m;
  rm_add_index m q d : if_nametoindex (rm_add m q).1 d = if_nametoindex m d;
  rm_delete_index m q d : if_nametoindex (rm_delete m q).1 d = if_nametoindex m d;
}.

(** Multicast and IPv6 link-local routes, which the kernel keeps itself. *)
Definition is_multicast (ip : IpAddr) : bool := match ip with V4 a => a / 2 ^ 28 =? 14 | V6 a => a / 2 ^ 120 =? 255 end.
Definition v6_link_local (a : Z) : bool := Z.land (segment a 0) 65472 =? 65152.
Definition kernel_housekeeping (n : IpNet) : bool :=
  match net_addr n with V4 a => is_multicast (V4 a) | V6 a => is_multicast (V6 a) || v6_link_local a end.

(** [IpNet::new]: the prefix must fit. *)
Definition ipnet_new (ip : IpAddr) (len : Z) : option IpNet :=
  match ip with
  | V4 a => if (0 <=? len) && (len <=? 32) then Some (Net4 a len) else None
  | V6 a => if (0 <=? len) && (len <=? 128) then Some (Net6 a len) else None
  end.

(** ** The programmer *)

Section programmer.
Context `{O : IpNetOps} {M : Type} `{RM : RouteManager M}.

(** The device (empty until it is set) and the table; the pins are in [PinWorld]. *)
Record RouteHost := mkRouteHost { ph_device : string; ph_mgr : M }.
Definition set_mgr (m : M) (h : RouteHost) : RouteHost := mkRouteHost (ph_device h) m.
Definition set_device (d : string) (h : RouteHost) : RouteHost := mkRouteHost d (ph_mgr h).

(** A name with a zero byte is no C string. *)
Definition ph_ifindex (h : RouteHost) : option Z :=
  if String.eqb (ph_device h) "" then None else
  if existsb (Z.eqb 0) (str_bytes (ph_device h)) then None else
  let idx := if_nametoindex (ph_mgr h) (ph_device h) in if idx =? 0 then None else Some idx.

Definition tun_route (h : RouteHost) (net : IpNet) : RouteRequest :=
  match ph_ifindex h with
  | Some i => mkRouteRequest (net_addr net) (net_prefix_len net) None (Some i) None
  | None => mkRouteRequest (net_addr net) (net_prefix_len net) None None (Some (ph_device h))
  end.

Definition route_ours (h : RouteHost) (r : OsRoute) (idx : option Z) : bool :=
  (negb (String.eqb (ph_device h) "") && bool_decide (ro_if_name r = Some (ph_device h))) ||
  (negb (is_none idx) && bool_decide (ro_if_index r = idx)).

Definition host_add_via_tun (h : RouteHost) (net : IpNet) : RouteHost * Result unit string :=
  let '(m, r) := rm_add (ph_mgr h) (tun_route h (net_trunc net)) in
  (set_mgr m h, match r with Ok _ => Ok tt | Err AlreadyExists => Ok tt | Err OtherError => Err "adding route" end).

Definition host_remove (h : RouteHost) (net : IpNet) : RouteHost * Result unit string :=
  (set_mgr (rm_delete (ph_mgr h) (tun_route h (net_trunc net))).1 h, Ok tt).

(** What one listed route is to [list_via_dev]. *)
Definition dev_net (h : RouteHost) (r : OsRoute) : option IpNet :=
  if route_ours h r (ph_ifindex h) && is_none (ro_gateway r) && in_main_table r then
    n ← ipnet_new (ro_destination r) (ro_prefix r); if kernel_housekeeping (net_trunc n) then None else Some (net_trunc n)
  else None.
Definition host_list_via_dev (h : RouteHost) : option (list IpNet) := option_map (λ l : list OsRoute, omap (dev_net h) l) (rm_list (ph_mgr h)).

(** [min_by_key]: the first of the least. *)
Definition min_metric (l : list OsRoute) : option OsRoute :=
  let key r := default 0 (ro_metric r) in
  foldl (λ best r, match best with Some b => if key r <? key b then Some r else Some b | None => Some r end) None l.

Definition current_default_gateway (h : RouteHost) (v6 : bool) : option Gateway :=
  l ← (rm_list (ph_mgr h) : option (list OsRoute));
  let candidates := List.filter (λ r, (ro_prefix r =? 0) && Bool.eqb (ip_is_ipv6 (ro_destination r)) v6 && negb (is_none (ro_gateway r)) &&
                                      in_main_table r && negb (route_ours h r (ph_ifindex h))) l in
  r ← min_metric candidates; a ← ro_gateway r; Some (mkGateway a (ro_if_index r)).

Definition host_bits (ip : IpAddr) : Z := if ip_is_ipv6 ip then 128 else 32.
Definition host_route (ip : IpAddr) (gw : Gateway) : RouteRequest :=
  mkRouteRequest ip (host_bits ip) (Some (gw_addr gw)) (gw_ifindex gw) None.

Definition has_host_route (h : RouteHost) (ip : IpAddr) (gw : Gateway) : option bool :=
  option_map (existsb (λ r, bool_decide (ro_destination r = ip) && (ro_prefix r =? host_bits ip) && bool_decide (ro_gateway r = Some (gw_addr gw)) &&
                      (is_none (gw_ifindex gw) || bool_decide (ro_if_index r = gw_ifindex gw)))) (rm_list (ph_mgr h)).

#[export] Instance RouteHost_table : HostRouteTable RouteHost := {
  default_gateway := current_default_gateway;
  add_host_route h ip gw :=
    let '(m, r) := rm_add (ph_mgr h) (host_route ip gw) in
    (set_mgr m h, match r with Ok _ => Ok true | Err AlreadyExists => Ok false | Err OtherError => Err "add" end);
  del_host_route h ip gw :=
    if bool_decide (has_host_route h ip gw = Some false) then h else set_mgr (rm_delete (ph_mgr h) (host_route ip gw)).1 h;
}.

Context (disk_ok : gmap IpAddr Gateway → bool).
(** The programmer: the table and the device, the pins and their journal. *)
Definition NetRouteProgrammer : Type := PinWorld (H := RouteHost).

Definition programmer_pin (k : NetRouteProgrammer) (ips : list IpAddr) : NetRouteProgrammer * list IpAddr :=
  let '(pinned, k', _) := reconcile_pins disk_ok ips k in (k', pinned).

(** Open the table: pins a dead predecessor left are removed before anything else. *)
Definition programmer_open (m : M) (journal : PinJournal) (file : option (gmap IpAddr Gateway)) : NetRouteProgrammer :=
  let k := mkPinWorld (mkRouteHost "" m) journal file in
  if decide (pj_map journal = ∅) then k else (programmer_pin k []).1.
Definition programmer_set_device (d : string) (k : NetRouteProgrammer) : NetRouteProgrammer := set_host (set_device d (pw_host k)) k.
Definition programmer_new (m : M) (device : string) : NetRouteProgrammer := programmer_set_device device (programmer_open m in_memory None).
(** Teardown. *)
Definition programmer_drop (k : NetRouteProgrammer) : NetRouteProgrammer :=
  if decide (pj_map (pw_pins k) = ∅) then k else (programmer_pin k []).1.

#[export] Instance NetRouteProgrammer_ops : RouteProgrammer NetRouteProgrammer := {
  add_via_tun k net := let '(h, r) := host_add_via_tun (pw_host k) net in (set_host h k, r);
  prog_remove k net := let '(h, r) := host_remove (pw_host k) net in (set_host h k, r);
  list_via_dev k := host_list_via_dev (pw_host k);
  pin_underlay k ips := let '(k', pinned) := programmer_pin k ips in (k', Ok pinned);
}.
End programmer.

(** ** The routes through the device *)

Create HintDb kept.

Section device.
Context `{O : IpNetOps, OL : !IpNetLaws O} {M : Type} `{RM : RouteManager M, ML : !ManagerLaws M}.
Implicit Types (h : RouteHost (M := M)).

Definition same_index (m m' : M) : Prop := ∀ d, if_nametoindex m' d = if_nametoindex m d.

Lemma ifindex_set m h : same_index (ph_mgr h) m → ph_ifindex (set_mgr m h) = ph_ifindex h.
Proof. intros Hi. unfold ph_ifindex. cbn. by rewrite Hi. Qed.

Lemma dev_net_set m h r : same_index (ph_mgr h) m → dev_net (set_mgr m h) r = dev_net h r.
Proof. intros Hi. unfold dev_net. by rewrite ifindex_set. Qed.

Definition dev_routes h : gset IpNet := list_to_set (omap (dev_net h) (rm_routes (ph_mgr h))).

Lemma elem_of_dev_routes h n : n ∈ dev_routes h ↔ ∃ r, r ∈ rm_routes (ph_mgr h) ∧ dev_net h r = Some n.
Proof. unfold dev_routes. by rewrite elem_of_list_to_set, list_elem_of_omap. Qed.

(** The table changed at most in routes that are no device routes but [allowed]. *)
Lemma dev_routes_sub h m (allowed : IpNet → Prop) : same_index (ph_mgr h) m →
  (∀ r, r ∈ rm_routes m → r ∈ rm_routes (ph_mgr h) ∨ ∀ x, dev_net h r = Some x → allowed x) →
  ∀ n, n ∈ dev_routes (set_mgr m h) → n ∈ dev_routes h ∨ allowed n.
Proof.
  intros Hi Hr n (r & Hin & Hn)%elem_of_dev_routes. rewrite dev_net_set in Hn by done. destruct (Hr r Hin) as [?|Ha]; [left|right; auto].
  apply elem_of_dev_routes. eauto.
Qed.

Lemma dev_routes_sup h m (allowed : IpNet → Prop) : same_index (ph_mgr h) m →
  (∀ r, r ∈ rm_routes (ph_mgr h) → r ∈ rm_routes m ∨ ∀ x, dev_net h r = Some x → allowed x) →
  ∀ n, n ∈ dev_routes h → n ∈ dev_routes (set_mgr m h) ∨ allowed n.
Proof.
  intros Hi Hr n (r & Hin & Hn)%elem_of_dev_routes. destruct (Hr r Hin) as [?|Ha]; [left|right; auto].
  apply elem_of_dev_routes. exists r. by rewrite dev_net_set.
Qed.

Lemma net_new_parts ip len n : ipnet_new ip len = Some n → net_addr n = ip ∧ net_prefix_len n = len.
Proof. unfold ipnet_new. destruct ip; case_match; intros [= <-]; done. Qed.
Lemma net_parts_inj n n' : net_addr n = net_addr n' → net_prefix_len n = net_prefix_len n' → n = n'.
Proof. destruct n, n'; cbn; congruence. Qed.

Lemma dev_net_named h q n r x : rq_destination q = net_addr n → rq_prefix q = net_prefix_len n →
  ro_destination r = rq_destination q → ro_prefix r = rq_prefix q → dev_net h r = Some x → x = net_trunc n.
Proof.
  intros Hd Hp Hrd Hrp. unfold dev_net. destruct (_ && _); [|done]. destruct (ipnet_new _ _) as [n'|] eqn:E; [|done]. cbn.
  destruct (kernel_housekeeping _); [done|]. intros [= <-]. apply net_new_parts in E as [? ?]. f_equal. apply net_parts_inj; congruence.
Qed.

Lemma tun_route_parts h n : rq_destination (tun_route h n) = net_addr n ∧ rq_prefix (tun_route h n) = net_prefix_len n ∧ rq_gateway (tun_route h n) = None.
Proof. unfold tun_route. by destruct (ph_ifindex h). Qed.

Lemma gateway_no_dev h r g : ro_gateway r = Some g → dev_net h r = None.
Proof. intros Hg. unfold dev_net. rewrite Hg. cbn. by rewrite andb_false_r. Qed.

Lemma add_index m q : same_index m (rm_add m q).1.
Proof. intros d. apply rm_add_index. Qed.
Lemma delete_index m q : same_index m (rm_delete m q).1.
Proof. intros d. apply rm_delete_index. Qed.
Hint Resolve add_index delete_index : core.

(** What an add and a delete do to the table. *)
Lemma added m q r : r ∈ rm_routes (rm_add m q).1 → r ∈ rm_routes m ∨ made_by q r.
Proof.
  destruct (rm_add m q).2 as [[]|e] eqn:E; intros Hr; [|left; by eapply rm_add_err].
  destruct (rm_add_ok m q E) as (r' & Hm & Hi). destruct (proj1 (Hi r) Hr) as [?|?]; [subst r|]; auto.
Qed.
Lemma add_keeps m q r : r ∈ rm_routes m → r ∈ rm_routes (rm_add m q).1.
Proof.
  destruct (rm_add m q).2 as [[]|e] eqn:E; intros Hr; [|by eapply rm_add_err].
  destruct (rm_add_ok m q E) as (r' & _ & Hi). apply Hi. auto.
Qed.

Lemma made_named h n r x : made_by (tun_route h n) r → dev_net h r = Some x → x = net_trunc n.
Proof. destruct (tun_route_parts h n) as (? & ? & _). intros (? & ? & _). by eapply dev_net_named. Qed.
Lemma deleted_named h n r x : deleted_by (tun_route h n) r → dev_net h r = Some x → x = net_trunc n.
Proof. destruct (tun_route_parts h n) as (? & ? & _). intros (? & ? & _). by eapply dev_net_named. Qed.

(** Pins are no device routes. *)
Lemma pin_add_dev h ip gw : dev_routes (add_host_route h ip gw).1 = dev_routes h.
Proof.
  cbn. pose proof (added (ph_mgr h) (host_route ip gw)) as Ha. pose proof (add_keeps (ph_mgr h) (host_route ip gw)) as Hk.
  pose proof (add_index (ph_mgr h) (host_route ip gw)) as Hi. destruct (rm_add _ _) as [m r]. cbn in *. apply leibniz_equiv. intros n. split; intros Hn.
  - edestruct (dev_routes_sub h m (λ _, False) Hi); [|exact Hn|done|done]. intros x Hx. destruct (Ha x Hx) as [?|Hm]; [auto|right].
    intros y. by rewrite (gateway_no_dev h x (gw_addr gw)) by apply Hm.
  - edestruct (dev_routes_sup h m (λ _, False) Hi); [|exact Hn|done|done]. auto.
Qed.
Lemma pin_del_dev h ip gw : dev_routes (del_host_route h ip gw) = dev_routes h.
Proof.
  cbn. case_bool_decide; [done|]. set (q := host_route ip gw). set (m := (rm_delete (ph_mgr h) q).1).
  apply leibniz_equiv. intros n. split; intros Hn.
  - edestruct (dev_routes_sub h m (λ _, False)); [by apply delete_index| |exact Hn|done|done]. intros x Hx%rm_delete_back. auto.
  - edestruct (dev_routes_sup h m (λ _, False)); [by apply delete_index| |exact Hn|done|done].
    intros x Hx. destruct (rm_delete_only _ q x Hx) as [?|(_ & _ & Hg & _)]; [auto|right]. intros y. by rewrite (gateway_no_dev h x (gw_addr gw)).
Qed.

(** Something about the table that single pins keep, a whole run of pins keeps. *)
Section pins_keep.
Context (disk_ok : gmap IpAddr Gateway → bool) (P : RouteHost (M := M) → Prop).
Context (Hadd : ∀ h ip gw, P h → P (add_host_route h ip gw).1) (Hdel : ∀ h ip gw, P h → P (del_host_route h ip gw)).
#[local] Abbreviation keeps := (λ w : PinWorld (H := RouteHost (M := M)), P (pw_host w)).
Definition kept {A} (m : Run (PinWorld (H := RouteHost (M := M))) A) : Prop := triple (λ _, True) keeps m (λ _, keeps).

Lemma kept_ret {A} (a : A) : kept (run_ret a).
Proof. by apply t_ret. Qed.
Lemma kept_read {A} (f : _ → A) : kept (run_read f).
Proof. by apply t_read. Qed.
Lemma kept_bind {A B} (m : Run _ A) (f : A → Run _ B) : kept m → (∀ a, kept (f a)) → kept (run_bind m f).
Proof. intros Hm Hf. eapply t_bind; [apply Hm|apply Hf]. Qed.
Lemma kept_each {A B} (f : A → Run _ B) l : (∀ a, kept (f a)) → kept (run_each f l).
Proof. intros Hf. induction l as [|a l IH]; cbn; [apply kept_ret|]. repeat (apply kept_bind; [done|intros]). apply kept_ret. Qed.

Lemma persist_keeps m w : keeps w → keeps (persist disk_ok (set_pins m w)).
Proof. unfold persist. intros Hp. cbn. destruct (pj_path _); [|done]. by destruct (disk_ok _). Qed.
Lemma record_keeps ip gw : kept (pin_record disk_ok ip gw).
Proof. apply t_act. intros w Hw. split; [done|]. by apply persist_keeps. Qed.
Lemma forget_keeps ip : kept (pin_forget disk_ok ip).
Proof. apply t_act. intros w Hw. split; [done|]. by apply persist_keeps. Qed.
Lemma del_keeps ip gw : kept (del_route ip gw).
Proof. apply t_act. intros w Hw. split; [done|]. by apply Hdel. Qed.
Lemma add_route_keeps ip gw : kept (add_route_to ip gw).
Proof. apply t_act. intros w Hw. split; [done|]. specialize (Hadd (pw_host w) ip gw Hw). by destruct (add_host_route (pw_host w) ip gw). Qed.
#[local] Hint Resolve kept_ret kept_read kept_bind record_keeps forget_keeps del_keeps add_route_keeps : kept.

Lemma pin_new_keeps ip gw : kept (pin_new disk_ok ip gw).
Proof. unfold pin_new. apply kept_bind; [auto with kept|intros _]. apply kept_bind; [auto with kept|intros [[]|]]; auto with kept. Qed.
Lemma unpin_keeps ip : kept (unpin disk_ok ip).
Proof. unfold unpin. apply kept_bind; [auto with kept|intros [gw|]]; auto with kept. Qed.
Lemma pin_host_keeps ip : kept (pin_host disk_ok ip).
Proof.
  unfold pin_host. pose proof pin_new_keeps. apply kept_bind; [auto with kept|intros [gw|]]; [|auto with kept].
  apply kept_bind; [auto with kept|intros [had|]]; [|done]. case_decide; auto with kept.
Qed.
Lemma pins_keep ips w : keeps w → keeps (programmer_pin disk_ok w ips).1.
Proof.
  intros Hw. unfold programmer_pin. assert (kept (reconcile_pins disk_ok ips)) as Ht.
  { unfold reconcile_pins. apply kept_bind; [auto with kept|intros stale]. apply kept_bind; [apply kept_each, unpin_keeps|intros _].
    apply kept_bind; [apply kept_each, pin_host_keeps|auto with kept]. }
  specialize (Ht w Hw). destruct (reconcile_pins disk_ok ips w) as [[r w'] tr]. by destruct Ht.
Qed.
End pins_keep.

(** ** The programmer keeps its promises *)

Context (disk_ok : gmap IpAddr Gateway → bool).
#[local] Instance programmer_ops : RouteProgrammer NetRouteProgrammer := NetRouteProgrammer_ops disk_ok.
Implicit Types (k : NetRouteProgrammer (M := M)).

Lemma dev_add k n : net_trunc n = n → let h' := pw_host (add_via_tun k n).1 in
  (∀ x, x ∈ dev_routes h' → x ∈ dev_routes (pw_host k) ∨ x = n) ∧ (∀ x, x ∈ dev_routes (pw_host k) → x ∈ dev_routes h').
Proof.
  intros Hn. cbn. unfold host_add_via_tun. rewrite Hn. set (h := pw_host k). set (q := tun_route h n).
  pose proof (added (ph_mgr h) q) as Ha. pose proof (add_keeps (ph_mgr h) q) as Hk. pose proof (add_index (ph_mgr h) q) as Hi.
  destruct (rm_add (ph_mgr h) q) as [m r]. cbn in *. split; intros x Hx.
  - apply (dev_routes_sub h m (λ x, x = n) Hi); [|done]. intros y Hy. destruct (Ha y Hy) as [?|Hm]; [auto|right]. intros z Hz. rewrite <- Hn. by eapply made_named.
  - edestruct (dev_routes_sup h m (λ _, False) Hi); [|exact Hx|done|done]. auto.
Qed.

Lemma dev_remove k n : net_trunc n = n → let h' := pw_host (prog_remove k n).1 in
  (∀ x, x ∈ dev_routes h' → x ∈ dev_routes (pw_host k)) ∧ (∀ x, x ∈ dev_routes (pw_host k) → x ∈ dev_routes h' ∨ x = n).
Proof.
  intros Hn. cbn. rewrite Hn. set (h := pw_host k). set (q := tun_route h n). split; intros x Hx.
  - edestruct (dev_routes_sub h (rm_delete (ph_mgr h) q).1 (λ _, False)); [apply delete_index| |exact Hx|done|done]. intros y Hy%rm_delete_back. auto.
  - apply (dev_routes_sup h (rm_delete (ph_mgr h) q).1 (λ x, x = n)); [apply delete_index| |done].
    intros y Hy. destruct (rm_delete_only (ph_mgr h) q y Hy) as [?|Hd]; [auto|right]. intros z Hz. rewrite <- Hn. by eapply deleted_named.
Qed.

(** The interface [RouteSet] is proved against. *)
#[export] Program Instance NetRouteProgrammer_laws : RouteLaws NetRouteProgrammer := { kernel k := dev_routes (pw_host k) }.
Next Obligation.
  intros k l. cbn. unfold host_list_via_dev. destruct (rm_list (ph_mgr (pw_host k))) as [rl|] eqn:E; [|done]. intros [= <-] n.
  rewrite elem_of_dev_routes, list_elem_of_omap. by setoid_rewrite (rm_list_routes _ _ E).
Qed.
Next Obligation. intros k n x Hn. by apply dev_add. Qed.
Next Obligation. intros k n x Hn. by apply dev_add. Qed.
Next Obligation. intros k n x Hn. by apply dev_remove. Qed.
Next Obligation. intros k n x Hn Hx Hne. by destruct (proj2 (dev_remove k n Hn) x Hx). Qed.
Next Obligation.
  intros k ips. cbn. pose proof (pins_keep disk_ok (λ h, dev_routes h = dev_routes (pw_host k))) as Hp. specialize (Hp ltac:(intros ? ? ? <-; apply pin_add_dev) ltac:(intros ? ? ? <-; apply pin_del_dev) ips k eq_refl).
  by destruct (programmer_pin disk_ok k ips).
Qed.

(** ** What a reconciliation does to the host's table *)

Definition same_dev (h h' : RouteHost (M := M)) : Prop := ph_device h' = ph_device h ∧ same_index (ph_mgr h) (ph_mgr h').
Lemma same_dev_refl h : same_dev h h.
Proof. done. Qed.
Lemma same_dev_trans h h' h'' : same_dev h h' → same_dev h' h'' → same_dev h h''.
Proof. intros [H1 H2] [H3 H4]. split; [congruence|]. intros d. by rewrite H4, H2. Qed.
Lemma same_dev_ifindex h h' : same_dev h h' → ph_ifindex h' = ph_ifindex h.
Proof. intros [H1 H2]. unfold ph_ifindex. by rewrite H1, H2. Qed.
Lemma same_dev_route h h' n : same_dev h h' → tun_route h' n = tun_route h n.
Proof. intros Hs. unfold tun_route. rewrite (same_dev_ifindex h h') by done. destruct Hs as [-> _]. done. Qed.
Lemma same_dev_ours h h' r i : same_dev h h' → route_ours h' r i = route_ours h r i.
Proof. intros [Hd _]. unfold route_ours. by rewrite Hd. Qed.

Lemma add_same_dev k n : same_dev (pw_host k) (pw_host (add_via_tun k n).1).
Proof.
  cbn. unfold host_add_via_tun. pose proof (add_index (ph_mgr (pw_host k)) (tun_route (pw_host k) (net_trunc n))) as Hi. destruct (rm_add _ _). by split.
Qed.
Lemma remove_same_dev k n : same_dev (pw_host k) (pw_host (prog_remove k n).1).
Proof. cbn. split; [done|apply delete_index]. Qed.
Lemma pin_same_dev k ips : same_dev (pw_host k) (pw_host (pin_underlay k ips).1).
Proof.
  cbn. pose proof (pins_keep disk_ok (same_dev (pw_host k))) as Hp.
  assert (same_dev (pw_host k) (pw_host (programmer_pin disk_ok k ips).1)) as H; [|by destruct (programmer_pin disk_ok k ips)]. apply Hp; [| |apply same_dev_refl].
  - intros h ip gw Hs. eapply same_dev_trans; [done|]. cbn. pose proof (add_index (ph_mgr h) (host_route ip gw)). destruct (rm_add _ _). by split.
  - intros h ip gw Hs. eapply same_dev_trans; [done|]. cbn. case_bool_decide; [apply same_dev_refl|]. split; [done|apply delete_index].
Qed.
(** A request for the device names only routes of the device. *)
Lemma made_ours h n r : ph_device h ≠ ""%string → made_by (tun_route h n) r → route_ours h r (ph_ifindex h) = true ∧ ro_gateway r = None.
Proof.
  intros Hd. unfold tun_route, made_by, route_ours. apply String.eqb_neq in Hd. rewrite Hd. destruct (ph_ifindex h) as [i|]; cbn; intros (_ & _ & Hg & Hi & Hn & _).
  - rewrite (bool_decide_eq_true_2 (ro_if_index r = Some i) Hi). by rewrite orb_true_r.
  - by rewrite (bool_decide_eq_true_2 (ro_if_name r = Some (ph_device h)) Hn).
Qed.
Lemma deleted_ours h n r : ph_device h ≠ ""%string → deleted_by (tun_route h n) r → route_ours h r (ph_ifindex h) = true.
Proof.
  intros Hd. unfold tun_route, deleted_by, route_ours. apply String.eqb_neq in Hd. rewrite Hd. destruct (ph_ifindex h) as [i|]; cbn; intros (_ & _ & _ & Hi & Hn & _).
  - by rewrite (bool_decide_eq_true_2 (ro_if_index r = Some i) Hi), orb_true_r.
  - by rewrite (bool_decide_eq_true_2 (ro_if_name r = Some (ph_device h)) Hn).
Qed.

(** From the table of [k] to that of [k'] nothing that is not the device's is
    lost, and what is new is a plain route of the device to a prefix of [l]. *)
Definition device_only (k k' : NetRouteProgrammer (M := M)) (l : list IpNet) : Prop :=
  let h := pw_host k in
  (∀ r, r ∈ rm_routes (ph_mgr h) → route_ours h r (ph_ifindex h) = false → r ∈ rm_routes (ph_mgr (pw_host k'))) ∧
  (∀ r, r ∈ rm_routes (ph_mgr (pw_host k')) → r ∈ rm_routes (ph_mgr h) ∨
     route_ours h r (ph_ifindex h) = true ∧ ro_gateway r = None ∧ ∃ n, n ∈ l ∧ ro_destination r = net_addr (net_trunc n) ∧ ro_prefix r = net_prefix_len (net_trunc n)).

Lemma device_only_refl k l : device_only k k l.
Proof. split; auto. Qed.

Lemma device_only_trans k k' k'' l l' : same_dev (pw_host k) (pw_host k') →
  device_only k k' l → device_only k' k'' l' → device_only k k'' (l ++ l').
Proof.
  intros Hs [A1 A2] [B1 B2]. pose proof (same_dev_ifindex _ _ Hs) as Hi.
  assert (∀ r, route_ours (pw_host k') r (ph_ifindex (pw_host k')) = route_ours (pw_host k) r (ph_ifindex (pw_host k))) as Ho.
  { intros r. rewrite Hi. by apply same_dev_ours. }
  split.
  - intros r Hr Hf. apply B1; [by apply A1|by rewrite Ho].
  - intros r Hr. destruct (B2 r Hr) as [Hr'|(H1 & H2 & n & Hn & H3)].
    + destruct (A2 r Hr') as [?|(H1 & H2 & n & Hn & H3)]; [auto|right]. split_and!; [done..|]. exists n. rewrite elem_of_app. auto.
    + right. split_and!; [by rewrite <- Ho|done|]. exists n. rewrite elem_of_app. auto.
Qed.

Lemma add_device_only k n : ph_device (pw_host k) ≠ ""%string → device_only k (add_via_tun k n).1 [n].
Proof.
  intros Hd. cbn. unfold host_add_via_tun. set (h := pw_host k). set (q := tun_route h (net_trunc n)).
  pose proof (added (ph_mgr h) q) as Ha. pose proof (add_keeps (ph_mgr h) q) as Hk. destruct (rm_add (ph_mgr h) q) as [m r]. cbn in *. split; cbn; [auto|].
  intros x Hx. destruct (Ha x Hx) as [?|Hm]; [auto|right]. destruct (made_ours _ _ _ Hd Hm) as [? ?]. destruct (tun_route_parts h (net_trunc n)) as (H1 & H2 & _).
  split_and!; [done..|]. exists n. destruct Hm as (-> & -> & _). split; [by left|done].
Qed.
Lemma remove_device_only k n : ph_device (pw_host k) ≠ ""%string → device_only k (prog_remove k n).1 [].
Proof.
  intros Hd. cbn. set (h := pw_host k). split; cbn.
  - intros r Hr Hf. destruct (rm_delete_only (ph_mgr h) (tun_route h (net_trunc n)) r Hr) as [?|Hx]; [done|].
    apply deleted_ours in Hx; [|done]. unfold h in Hx. congruence.
  - intros r Hr%rm_delete_back. auto.
Qed.

Lemma calls_device_only f k l (give : IpNet → list IpNet) :
  (∀ k n, ph_device (pw_host k) ≠ ""%string → device_only k (f k n).1 (give n)) → (∀ k n, same_dev (pw_host k) (pw_host (f k n).1)) →
  ph_device (pw_host k) ≠ ""%string → device_only k (call_all f k l).1 (l ≫= give) ∧ same_dev (pw_host k) (pw_host (call_all f k l).1).
Proof.
  intros Hf Hs. revert k. induction l as [|n l IH]; intros k Hd; cbn; [split; [apply device_only_refl|done]|].
  pose proof (Hf k n Hd) as H1. pose proof (Hs k n) as H2. destruct (f k n) as [k1 r]. cbn in H1, H2.
  destruct (IH k1) as [H3 H4]; [destruct H2 as [-> _]; done|]. destruct (call_all f k1 l) as [k2 errs]. cbn in *.
  split; [by eapply device_only_trans|by eapply same_dev_trans].
Qed.

Lemma bind_nil {A B} (l : list A) : (l ≫= λ _, []) = @nil B.
Proof. by induction l. Qed.
Lemma bind_singleton {A} (l : list A) : (l ≫= λ x, [x]) = l.
Proof. induction l as [|a l IH]; [done|]. cbn. by rewrite IH. Qed.

Lemma pass_device_only k away missing : ph_device (pw_host k) ≠ ""%string →
  let k1 := (call_all prog_remove k away).1 in
  let k2 := (call_all add_via_tun k1 missing).1 in device_only k k2 missing ∧ same_dev (pw_host k) (pw_host k2).
Proof.
  intros Hd. cbn zeta. destruct (calls_device_only prog_remove k away (λ _, []) remove_device_only remove_same_dev Hd) as [H1 H2]. rewrite bind_nil in H1.
  set (k1 := (call_all prog_remove k away).1) in *. assert (ph_device (pw_host k1) ≠ ""%string) as Hd1 by (destruct H2 as [-> _]; done).
  destruct (calls_device_only add_via_tun k1 missing (λ n, [n]) add_device_only add_same_dev Hd1) as [H3 H4]. rewrite bind_singleton in H3.
  split; [exact (device_only_trans _ _ _ _ _ H2 H1 H3)|by eapply same_dev_trans].
Qed.

Lemma net_new_self n : wf_net n → ipnet_new (net_addr n) (net_prefix_len n) = Some n.
Proof.
  intros [_ Hl]. destruct n as [a l|a l]; unfold net_width in Hl; cbn in *;
    by rewrite (proj2 (Z.leb_le 0 l)), (proj2 (Z.leb_le l _)) by lia.
Qed.

(** An add the table took is an add of a device route. *)
Lemma taken_listed k n : ph_device (pw_host k) ≠ ""%string → wf_net n → net_trunc n = n → kernel_housekeeping n = false →
  (rm_add (ph_mgr (pw_host k)) (tun_route (pw_host k) n)).2 = Ok tt → n ∈ kernel (add_via_tun k n).1.
Proof.
  intros Hd Hw Ht Hh Ho. cbn. unfold host_add_via_tun. rewrite Ht. set (h := pw_host k) in *. set (q := tun_route h n) in *.
  destruct (rm_add_ok _ _ Ho) as (r & Hm & Hr). pose proof (add_index (ph_mgr h) q) as Hi. destruct (rm_add (ph_mgr h) q) as [m x]. cbn in *.
  apply elem_of_dev_routes. exists r. split; [apply Hr; auto|]. rewrite dev_net_set by done. unfold dev_net. destruct (made_ours _ _ _ Hd Hm) as [-> ->].
  destruct Hm as (-> & -> & _ & _ & _ & ->). unfold q. destruct (tun_route_parts h n) as (-> & -> & _). cbn. rewrite net_new_self by done. cbn. by rewrite Ht, Hh.
Qed.

(** An add that leaves the route out: the table has another route to that prefix,
    which is not one of the device's plain routes, or it reports an error. *)
Lemma left_out_why k n : ph_device (pw_host k) ≠ ""%string → wf_net n → net_trunc n = n → kernel_housekeeping n = false → n ∉ kernel (add_via_tun k n).1 →
  (∃ x, x ∈ rm_routes (ph_mgr (pw_host k)) ∧ ro_destination x = net_addr n ∧ ro_prefix x = net_prefix_len n ∧
     (route_ours (pw_host k) x (ph_ifindex (pw_host k)) = false ∨ ro_gateway x ≠ None)) ∨
  ∃ e, (add_via_tun k n).2 = Err e.
Proof.
  intros Hd Hw Ht Hh Hno. pose proof (taken_listed k n Hd Hw Ht Hh) as Hok. pose proof (proj2 (dev_add k n Ht)) as Hkeep.
  destruct (rm_add (ph_mgr (pw_host k)) (tun_route (pw_host k) n)).2 as [[]|[|]] eqn:Hr; [by destruct (Hno (Hok eq_refl))|left|right].
  - destruct (rm_add_exists _ _ Hr) as (x & Hx & Hxd & Hxp & Hxt). destruct (tun_route_parts (pw_host k) n) as (E1 & E2 & _). rewrite E1 in Hxd. rewrite E2 in Hxp.
    exists x. split_and!; [done..|]. destruct (route_ours (pw_host k) x (ph_ifindex (pw_host k))) eqn:Ho; [right|by left]. intros Hg.
    apply Hno, Hkeep, elem_of_dev_routes. exists x. split; [done|]. unfold dev_net. rewrite Ho, Hg, Hxt, Hxd, Hxp, net_new_self by done. cbn. by rewrite Ht, Hh.
  - cbn. unfold host_add_via_tun. rewrite Ht. destruct (rm_add _ _) as [m r]. cbn in Hr. subst r. cbn. by eexists.
Qed.

(** What an add finds in the table is there at the end of the adds. *)
Lemma adds_keep k l k' n x : (k', n) ∈ calls_of add_via_tun k l → x ∈ rm_routes (ph_mgr (pw_host k')) →
  x ∈ rm_routes (ph_mgr (pw_host (call_all add_via_tun k l).1)).
Proof.
  intros Hin. apply (calls_of_after add_via_tun k l k' n (λ a b, x ∈ rm_routes (ph_mgr (pw_host a)) → x ∈ rm_routes (ph_mgr (pw_host b)))); [auto..| |done].
  intros a y. cbn. unfold host_add_via_tun. pose proof (add_keeps (ph_mgr (pw_host a)) (tun_route (pw_host a) (net_trunc y)) x) as Hk.
  by destruct (rm_add _ _).
Qed.

End device.

(** ** A host *)

(** A table as Linux keeps it: a prefix is there once per metric, whatever the
    interface; a delete takes the first route that fits. *)
Module KernelRoutesExample.
#[export] Existing Instance ipnet_ref.

Record Linux := mkLinux { lx_routes : list OsRoute; lx_interfaces : list (string * Z) }.

Definition index_of (t : Linux) (d : string) : Z := default 0 (snd <$> List.find (λ p, String.eqb p.1 d) (lx_interfaces t)).
Definition name_of (t : Linux) (i : Z) : option string := fst <$> List.find (λ p, p.2 =? i) (lx_interfaces t).
Definition made (t : Linux) (q : RouteRequest) : OsRoute :=
  let idx := or_else (rq_if_index q) (index_of t <$> rq_if_name q) in
  mkOsRoute (rq_destination q) (rq_prefix q) (rq_gateway q) idx (or_else (rq_if_name q) (i ← idx; name_of t i)) RT_TABLE_MAIN None.
Definition there (q : RouteRequest) (r : OsRoute) : bool :=
  bool_decide (ro_destination r = rq_destination q) && (ro_prefix r =? rq_prefix q) && (ro_table r =? RT_TABLE_MAIN) && is_none (ro_metric r).
Definition fits (q : RouteRequest) (r : OsRoute) : bool :=
  bool_decide (ro_destination r = rq_destination q) && (ro_prefix r =? rq_prefix q) &&
  match rq_gateway q with Some g => bool_decide (ro_gateway r = Some g) | None => true end &&
  match rq_if_index q with Some i => bool_decide (ro_if_index r = Some i) | None => true end &&
  match rq_if_name q with Some i => bool_decide (ro_if_name r = Some i) | None => true end && in_main_table r.
Fixpoint drop_first (p : OsRoute → bool) (l : list OsRoute) : list OsRoute :=
  match l with [] => [] | r :: l' => if p r then l' else r :: drop_first p l' end.

#[export] Instance Linux_manager : RouteManager Linux := {
  rm_list t := Some (lx_routes t);
  rm_add t q := if existsb (there q) (lx_routes t) then (t, Err AlreadyExists) else (mkLinux (lx_routes t ++ [made t q]) (lx_interfaces t), Ok tt);
  rm_delete t q :=
    if existsb (fits q) (lx_routes t) then (mkLinux (drop_first (fits q) (lx_routes t)) (lx_interfaces t), Ok tt) else (t, Err OtherError);
  if_nametoindex := index_of;
}.

Lemma fits_deleted q r : fits q r = true → deleted_by q r.
Proof.
  unfold fits, deleted_by, named_by, named_by_name. rewrite !andb_true_iff, bool_decide_eq_true, Z.eqb_eq. intros [[[[[? ?] ?] ?] ?] ?].
  destruct (rq_gateway q), (rq_if_index q), (rq_if_name q); rewrite ?bool_decide_eq_true in *; done.
Qed.
Lemma drop_first_only p l (x : OsRoute) : x ∈ l → x ∈ drop_first p l ∨ p x = true.
Proof.
  induction l as [|r l IH]; cbn; [by intros []%not_elem_of_nil|]. intros [->|Hx]%elem_of_cons.
  - destruct (p r) eqn:Ep; [auto|]. left. by left.
  - destruct (p r) eqn:Ep; [auto|]. destruct (IH Hx); [left; by right|auto].
Qed.
Lemma drop_first_back p l (x : OsRoute) : x ∈ drop_first p l → x ∈ l.
Proof. induction l as [|r l IH]; cbn; [done|]. destruct (p r); rewrite !elem_of_cons; [auto|]. intros [->|?]; auto. Qed.

#[export] Program Instance Linux_laws : ManagerLaws Linux := { rm_routes := lx_routes }.
Next Obligation. intros t l [= <-] r. done. Qed.
Next Obligation.
  intros t q. cbn. destruct (existsb _ _); [done|]. intros _. exists (made t q). split.
  - unfold made_by, made, named_by, named_by_name. cbn. destruct (rq_if_index q), (rq_if_name q); cbn; split_and!; done.
  - intros x. cbn. rewrite elem_of_app, list_elem_of_singleton. tauto.
Qed.
Next Obligation. intros t q e. cbn. by destruct (existsb _ _). Qed.
Next Obligation.
  intros t q. cbn. destruct (existsb _ _) eqn:E; [|done]. intros _. apply existsb_exists in E as (x & Hx & Ht). exists x. rewrite list_elem_of_In.
  unfold there in Ht. rewrite !andb_true_iff, bool_decide_eq_true, Z.eqb_eq in Ht. by destruct Ht as [[[? ?] ?] _].
Qed.
Next Obligation.
  intros t q x Hx. cbn. destruct (existsb _ _); cbn; [|auto]. destruct (drop_first_only (fits q) _ _ Hx) as [?|?%fits_deleted]; auto.
Qed.
Next Obligation. intros t q x. cbn. destruct (existsb _ _); cbn; [apply drop_first_back|done]. Qed.
Next Obligation. intros t q d. cbn. by destruct (existsb _ _). Qed.
Next Obligation. intros t q d. cbn. by destruct (existsb _ _). Qed.

Definition lan (b : Z) : IpNet := RoutesExample.lan b.
Definition eth (ip : IpAddr) (len : Z) (gw : option IpAddr) : OsRoute := mkOsRoute ip len gw (Some 2) (Some "eth0") RT_TABLE_MAIN None.
Definition tun (n : IpNet) : OsRoute := mkOsRoute (net_addr n) (net_prefix_len n) None (Some 7) (Some "tun0") RT_TABLE_MAIN None.
Definition router : IpAddr := V4 (192 * 2 ^ 24 + 168 * 2 ^ 16 + 1).
(** The host reaches 10.5.0.0/16 through its router, and has a stale route into the tunnel. *)
Definition linux : Linux :=
  mkLinux [eth (V4 0) 0 (Some router); eth (net_addr (lan 5)) 16 (Some router); tun (lan 1); tun RoutesExample.own] [("eth0", 2); ("tun0", 7)]%string.
Definition disk (m : gmap IpAddr Gateway) : bool := true.
#[export] Instance linux_ops : RouteProgrammer NetRouteProgrammer := NetRouteProgrammer_ops disk.
Definition programmer : NetRouteProgrammer := programmer_new disk linux "tun0".
Definition start : RouteSet (K := NetRouteProgrammer) := route_set_new programmer.
Definition asked : list IpNet := [lan 5; lan 6].

(** The route that is not made is reported as made: 10.5.0.0/16 stays with the router. *)
Lemma taken_prefix_reported_done :
  let '(rs, r) := reconcile_via_kernel start asked [RoutesExample.own] in
  r = Ok true ∧ list_via_dev (rs_programmer rs) = Some [RoutesExample.own; lan 6].
Proof. vm_compute. done. Qed.

Lemma reconciled_ok : (reconcile_via_kernel start asked [RoutesExample.own]).2 = Ok true.
Proof. vm_compute. reflexivity. Qed.

Lemma asked_wf : Forall wf_net asked.
Proof. repeat constructor; by_decide. Qed.
End KernelRoutesExample.

#[local] Existing Instance ipnet_ref.
#[local] Existing Instance KernelRoutesExample.Linux_manager.
#[local] Existing Instance KernelRoutesExample.Linux_laws.
#[local] Existing Instance KernelRoutesExample.linux_ops.

