(* ===== verification/KeyFiles.v ===== *)
(** * Files that must survive (crates/nqvpn-proto/src/identity.rs, the key file
      of crates/nqvpn-proto/src/seal.rs, [write_0600] of crates/nqvpn-coord/src/signer.rs,
      [write_file_atomic] of crates/nqvpn-endpoint/src/routes.rs)

    Keys and journals are replaced through a temporary file: created exclusively,
    written, synced, renamed over the old one, and the directory synced. The
    directory they live in is modelled down to what a power cut can lose: the
    contents of a file that was not synced, and every change of a name that the
    directory was not synced after. *)

From S2P Require Import Prelude Text Crash.

(** ** A directory on a disk *)

Inductive Entry := EFile (i : nat) | ELink (target : string).
#[export] Instance Entry_eq_dec : EqDecision Entry.
Proof. solve_decision. Defined.

Record FsNode := mkFsNode { fn_data : list Z; fn_mode : Z; fn_synced : bool }.
(** The names as they are and as the disk has them; the files behind them. *)
Record Fs := mkFs { fs_names : gmap string Entry; fs_durable : gmap string Entry; fs_nodes : gmap nat FsNode; fs_next : nat }.

Definition set_names (m : gmap string Entry) (w : Fs) : Fs := mkFs m (fs_durable w) (fs_nodes w) (fs_next w).
Definition set_node (i : nat) (x : FsNode) (w : Fs) : Fs := mkFs (fs_names w) (fs_durable w) (<[i := x]> (fs_nodes w)) (fs_next w).

(** The kernel gives up after forty links. *)
Fixpoint fs_resolve (fuel : nat) (w : Fs) (name : string) : option nat :=
  match fs_names w !! name with
  | Some (EFile i) => Some i
  | Some (ELink t) => match fuel with O => None | S fuel => fs_resolve fuel w t end
  | None => None
  end.
Definition fs_node (w : Fs) (name : string) : option (nat * FsNode) := i ← fs_resolve 40 w name; x ← fs_nodes w !! i; Some (i, x).
Definition fs_read (w : Fs) (name : string) : option (list Z) := fn_data ∘ snd <$> fs_node w name.

(** What a power cut may leave. *)
Definition power_cut (w w' : Fs) : Prop :=
  (∀ n, fs_names w' !! n = fs_names w !! n ∨ fs_names w' !! n = fs_durable w !! n) ∧ fs_durable w' = fs_names w' ∧
  (∀ i, match fs_nodes w !! i with
        | Some x => ∃ x', fs_nodes w' !! i = Some x' ∧ fn_mode x' = fn_mode x ∧ fn_synced x' = true ∧ (fn_synced x = true → x' = x)
        | None => fs_nodes w' !! i = None
        end) ∧
  fs_next w' = fs_next w.

(** ** Replacing a file *)

(** Which call fails; a write, after how many bytes. *)
Record AtomicEnv := mkAtomicEnv {
  av_umask : Z; av_remove : bool; av_open : bool; av_chmod : bool; av_write : option nat; av_sync : bool; av_rename : bool; av_dirsync : bool;
}.

(** [remove_file]: an absent file is told from a failure. *)
Definition fs_remove (ok : bool) (name : string) : Run Fs bool :=
  run_act (λ w, match fs_names w !! name with
                | None => (true, w)
                | Some _ => if ok then (true, set_names (delete name (fs_names w)) w) else (false, w)
                end).

(** [create_new]: refuses a name that is there, a link included. *)
Definition fs_create (ev : AtomicEnv) (name : string) (mode : Z) : Run Fs (option nat) :=
  run_act (λ w, match fs_names w !! name with
                | Some _ => (None, w)
                | None =>
                    if av_open ev then
                      (Some (fs_next w),
                       mkFs (<[name := EFile (fs_next w)]> (fs_names w)) (fs_durable w)
                            (<[fs_next w := mkFsNode [] (Z.land mode (Z.lnot (av_umask ev))) false]> (fs_nodes w)) (S (fs_next w)))
                    else (None, w)
                end).

Definition with_node (i : nat) (f : FsNode → FsNode) (w : Fs) : Fs :=
  match fs_nodes w !! i with Some x => set_node i (f x) w | None => w end.

Definition fs_chmod (ok : bool) (i : nat) (mode : Z) : Run Fs bool :=
  run_act (λ w, (ok, if ok then with_node i (λ x, mkFsNode (fn_data x) mode (fn_synced x)) w else w)).

(** [write_all] passes through every part of the bytes. *)
Definition written (i : nat) (d : list Z) (w : Fs) : Fs := with_node i (λ x, mkFsNode d (fn_mode x) false) w.
Definition fs_write (fail : option nat) (i : nat) (bytes : list Z) : Run Fs bool :=
  run_slow (λ w, (λ k, written i (take k bytes) w) <$> seq 0 (match fail with Some k => k | None => length bytes end))
           (λ w, match fail with Some k => (false, written i (take k bytes) w) | None => (true, written i bytes w) end).

Definition fs_sync (ok : bool) (i : nat) : Run Fs bool :=
  run_act (λ w, (ok, if ok then with_node i (λ x, mkFsNode (fn_data x) (fn_mode x) true) w else w)).

Definition fs_rename (ok : bool) (from to : string) : Run Fs bool :=
  run_act (λ w, match fs_names w !! from with
                | Some e => if ok then (true, set_names (<[to := e]> (delete from (fs_names w))) w) else (false, w)
                | None => (false, w)
                end).

Definition fs_sync_dir (ok : bool) : Run Fs bool :=
  run_act (λ w, (ok, if ok then mkFs (fs_names w) (fs_names w) (fs_nodes w) (fs_next w) else w)).

(** From the exclusive open on; [chmod]: is the mode set again on the handle. *)
Definition write_and_swap (ev : AtomicEnv) (chmod : bool) (tmp path : string) (bytes : list Z) (mode : Z) : Run Fs bool :=
  opened <-- fs_create ev tmp mode;
  match opened with
  | None => run_ret false
  | Some i =>
      moded <-- (if chmod then fs_chmod (av_chmod ev) i mode else run_ret true);
      if moded then
        wrote <-- fs_write (av_write ev) i bytes;
        if wrote then
          synced <-- fs_sync (av_sync ev) i;
          if synced then
            renamed <-- fs_rename (av_rename ev) tmp path;
            if renamed then fs_sync_dir (av_dirsync ev) else run_ret false
          else run_ret false
        else run_ret false
      else run_ret false
  end.

(** [identity.rs]: [write_atomic]. *)
Definition write_atomic (ev : AtomicEnv) (path : string) (bytes : list Z) (mode : Z) : Run Fs bool :=
  let tmp := String.append path ".tmp" in
  gone <-- fs_remove (av_remove ev) tmp;
  if gone then write_and_swap ev true tmp path bytes mode else run_ret false.

(** [seal.rs]: [write_private_atomic]; [routes.rs]: [write_file_atomic], which names its temporary file differently. *)
Definition write_private_atomic (ev : AtomicEnv) (tmp path : string) (bytes : list Z) : Run Fs bool :=
  gone <-- fs_remove (av_remove ev) tmp;
  if gone then write_and_swap ev false tmp path bytes 384 else run_ret false.

(** [signer.rs]: [write_0600] goes on when the leftover cannot be removed, and cleans up after itself. *)
Definition write_0600 (ev : AtomicEnv) (tidy : bool) (tmp path : string) (bytes : list Z) : Run Fs bool :=
  _ <-- fs_remove (av_remove ev) tmp;
  ok <-- write_and_swap ev false tmp path bytes 384;
  if ok then run_ret true else (_ <-- fs_remove tidy tmp; run_ret false).

(** ** The keys of a node *)

Definition TLS_CRT : string := "tls.crt".
Definition TLS_KEY : string := "tls.key".
Definition STATIC_KEY : string := "static.key".

Record TlsIdentity := mkTlsIdentity { ti_cert : list Z; ti_key : list Z }.

(** Does [PrivateKeyDer::try_from] take the bytes? *)
Class KeyDer := { key_der_ok : list Z → bool }.

Section keys.
Context `{KD : KeyDer}.

Definition tls_from_der (cert key : list Z) : option TlsIdentity :=
  if (length cert =? 0)%nat then None else if key_der_ok key then Some (mkTlsIdentity cert key) else None.

Definition tighten_key_mode (ok : bool) (name : string) : Run Fs unit :=
  run_act (λ w, (tt, match fs_node w name with
                     | None => w
                     | Some (i, x) =>
                         if (Z.land (Z.land (fn_mode x) 511) 63 =? 0) then w else
                         if ok then set_node i (mkFsNode (fn_data x) 384 (fn_synced x)) w else w
                     end)).

(** What the system calls outside the replacing answer: making the directory,
    reading the two files, setting a mode. *)
Record LoadEnv := mkLoadEnv { lv_dir : bool; lv_read : bool; lv_read2 : bool; lv_chmod : bool }.
Definition fs_try_read (ok : bool) (name : string) (w : Fs) : option (list Z) := if ok then fs_read w name else None.

Definition tls_create (fresh : option (list Z * list Z)) (ev1 ev2 : AtomicEnv) : Run Fs (option TlsIdentity) :=
  match (p ← fresh; tls_from_der p.1 p.2) with
  | None => run_ret None
  | Some id =>
      ok <-- write_atomic ev1 TLS_CRT (ti_cert id) 420;
      if ok then (ok <-- write_atomic ev2 TLS_KEY (ti_key id) 384; run_ret (if ok : bool then Some id else None)) else run_ret None
  end.

(** [fresh]: the certificate and key [generate] makes. *)
Definition tls_load_or_create (lv : LoadEnv) (fresh : option (list Z * list Z)) (ev1 ev2 : AtomicEnv) : Run Fs (option TlsIdentity) :=
  if lv_dir lv then
    stored <-- run_read (λ w, (fs_try_read (lv_read lv) TLS_CRT w, fs_try_read (lv_read2 lv) TLS_KEY w));
    match (c ← stored.1; k ← stored.2; tls_from_der c k) with
    | Some id => tighten_key_mode (lv_chmod lv) TLS_KEY;; run_ret (Some id)
    | None => tls_create fresh ev1 ev2
    end
  else run_ret None.

(** [StaticKeys::load_or_create]: the private key, from which the public one is computed. *)
Definition from_private_ok (private : list Z) : bool := (length private =? 32)%nat.
Definition static_create (fresh : option (list Z)) (ev : AtomicEnv) : Run Fs (option (list Z)) :=
  match fresh with
  | None => run_ret None
  | Some k => ok <-- write_private_atomic ev "static.key.tmp" STATIC_KEY k; run_ret (if ok : bool then Some k else None)
  end.
Definition static_load_or_create (lv : LoadEnv) (fresh : option (list Z)) (ev : AtomicEnv) : Run Fs (option (list Z)) :=
  if lv_dir lv then
    there <-- run_read (λ w, fs_read w STATIC_KEY);
    match there with
    | None => static_create fresh ev
    | Some bytes => if lv_read lv then (if from_private_ok bytes then run_ret (Some bytes) else static_create fresh ev) else run_ret None
    end
  else run_ret None.
End keys.

(** ** Replacing is all or nothing *)

(** The files behind the names are there, and new ones get new numbers. *)
Record fs_wf (w : Fs) : Prop := {
  fw_names n i : fs_names w !! n = Some (EFile i) → is_Some (fs_nodes w !! i);
  fw_durable n i : fs_durable w !! n = Some (EFile i) → is_Some (fs_nodes w !! i);
  fw_next i : is_Some (fs_nodes w !! i) → (i < fs_next w)%nat;
}.
(** Nothing is waiting to be synced. *)
Definition settled (w : Fs) : Prop := fs_durable w = fs_names w ∧ ∀ i x, fs_nodes w !! i = Some x → fn_synced x = true.

Section replace.
(** The disk before, the names, the bytes and the mode. *)
Context (w0 : Fs) (tmp path : string) (bytes : list Z) (mode : Z).

#[local] Abbreviation cleared := (delete tmp (fs_names w0)).
#[local] Abbreviation new := (fs_next w0).
Definition submode (x : FsNode) : Prop := Z.land (fn_mode x) mode = fn_mode x.
Definition complete (x : FsNode) : Prop := fn_data x = bytes ∧ fn_synced x = true ∧ submode x.
#[local] Abbreviation swapped := (<[path := EFile new]> cleared).
Definition with_new (names durable : gmap string Entry) (x : FsNode) : Fs := mkFs names durable (<[new := x]> (fs_nodes w0)) (S new).
#[local] Abbreviation writing := (with_new (<[tmp := EFile new]> cleared) (fs_durable w0)).

(** Where a replacement can be: not begun, the leftover gone, writing, the
    temporary file given up, renamed, and renamed for good. *)
Inductive stage : Fs → Prop :=
| stage_start : stage w0
| stage_cleared : stage (mkFs cleared (fs_durable w0) (fs_nodes w0) new)
| stage_writing x : submode x → stage (writing x)
| stage_dropped x : submode x → stage (with_new cleared (fs_durable w0) x)
| stage_renamed x : complete x → stage (with_new swapped (fs_durable w0) x)
| stage_durable x : complete x → stage (with_new swapped swapped x).

Definition done_stage (w : Fs) : Prop := ∃ x, complete x ∧ w = with_new swapped swapped x.
Definition stage_post (ok : bool) (w : Fs) : Prop := if ok then done_stage w else stage w.

Lemma with_node_new names durable x f : with_node new f (with_new names durable x) = with_new names durable (f x).
Proof. unfold with_node, with_new. cbn. rewrite lookup_insert_eq. unfold set_node. cbn. by rewrite insert_insert_eq. Qed.

#[local] Abbreviation cleared_fs := (mkFs cleared (fs_durable w0) (fs_nodes w0) new).
#[local] Abbreviation is_writing := (λ w : Fs, ∃ x, submode x ∧ w = writing x).

Lemma remove_stage ok : triple stage (λ w, w = w0) (fs_remove ok tmp)
  (λ r w, if r : bool then w = cleared_fs else w = w0 ∧ is_Some (fs_names w0 !! tmp)).
Proof.
  apply t_act. intros w ->. destruct (fs_names w0 !! tmp) as [e|] eqn:E.
  - destruct ok; cbn; [split; [apply stage_cleared|done]|]. split; [apply stage_start|]. split; [done|by exists e].
  - cbn. split; [apply stage_start|]. rewrite delete_id by done. by destruct w0.
Qed.

Lemma create_stage ev : triple stage (λ w, w = cleared_fs) (fs_create ev tmp mode)
  (λ o w, match o with Some i => i = new ∧ is_writing w | None => w = cleared_fs end).
Proof.
  apply t_act. intros w ->. cbn. rewrite lookup_delete_eq. destruct (av_open ev); cbn; [|split; [apply stage_cleared|done]].
  assert (submode (mkFsNode [] (Z.land mode (Z.lnot (av_umask ev))) false)) as Hs.
  { unfold submode. cbn. by rewrite (Z.land_comm mode), <- Z.land_assoc, Z.land_diag. }
  split; [by apply (stage_writing _ Hs)|]. split; [done|]. eauto.
Qed.

Lemma chmod_stage ok : triple stage is_writing (fs_chmod ok new mode) (λ _, is_writing).
Proof.
  apply t_act. intros w (x & Hx & ->). destruct ok; cbn; [|split; [by apply stage_writing|eauto]]. rewrite with_node_new.
  assert (submode (mkFsNode (fn_data x) mode (fn_synced x))) as Hs by apply Z.land_diag. split; [by apply stage_writing|eauto].
Qed.

Lemma written_stage x d : submode x → stage (written new d (writing x)) ∧ written new d (writing x) = writing (mkFsNode d (fn_mode x) false).
Proof. intros Hx. unfold written. rewrite with_node_new. split; [by apply stage_writing|done]. Qed.

Lemma write_stage fail : triple stage is_writing (fs_write fail new bytes)
  (λ r w, if r : bool then ∃ x, submode x ∧ fn_data x = bytes ∧ w = writing x else is_writing w).
Proof.
  apply t_slow. intros w (x & Hx & ->). split.
  - apply Forall_forall. intros w (k & -> & _)%list_elem_of_fmap. by apply written_stage.
  - destruct fail as [k|]; cbn [fst snd].
    + destruct (written_stage x (take k bytes) Hx) as [H1 H2]. split; [done|]. rewrite H2. by eexists (mkFsNode _ _ _).
    + destruct (written_stage x bytes Hx) as [H1 H2]. split; [done|]. rewrite H2. by exists (mkFsNode bytes (fn_mode x) false).
Qed.

Lemma sync_stage ok : triple stage (λ w, ∃ x, submode x ∧ fn_data x = bytes ∧ w = writing x) (fs_sync ok new)
  (λ r w, if r : bool then ∃ x, complete x ∧ w = writing x else is_writing w).
Proof.
  apply t_act. intros w (x & Hx & Hd & ->). destruct ok; cbn; [|split; [by apply stage_writing|eauto]]. rewrite with_node_new.
  assert (complete (mkFsNode (fn_data x) (fn_mode x) true)) as Hc by done. split; [by apply stage_writing|eauto].
Qed.

Lemma rename_stage ok : triple stage (λ w, ∃ x, complete x ∧ w = writing x) (fs_rename ok tmp path)
  (λ r w, if r : bool then ∃ x, complete x ∧ w = with_new swapped (fs_durable w0) x else is_writing w).
Proof.
  apply t_act. intros w (x & Hc & ->). cbn. rewrite lookup_insert_eq. destruct ok; cbn.
  - assert (set_names (<[path := EFile new]> (delete tmp (<[tmp := EFile new]> cleared))) (writing x) = with_new swapped (fs_durable w0) x) as ->.
    { unfold set_names, with_new. cbn. by rewrite delete_insert_eq, delete_delete_eq. }
    split; [by apply stage_renamed|eauto].
  - split; [apply stage_writing, Hc|]. exists x. split; [apply Hc|done].
Qed.

Lemma sync_dir_stage ok : triple stage (λ w, ∃ x, complete x ∧ w = with_new swapped (fs_durable w0) x) (fs_sync_dir ok) stage_post.
Proof.
  apply t_act. intros w (x & Hc & ->). destruct ok; cbn; [|split; by apply stage_renamed]. split; [by apply (stage_durable x)|]. by exists x.
Qed.

Lemma fail_writing : triple stage is_writing (run_ret false) stage_post.
Proof. apply t_ret. intros w (x & ? & ->). by apply stage_writing. Qed.

Lemma swap_stage ev chmod : triple stage (λ w, w = cleared_fs) (write_and_swap ev chmod tmp path bytes mode) stage_post.
Proof.
  eapply t_bind; [apply create_stage|]. intros [i|]; [|apply t_ret; intros w ->; apply stage_cleared]. intros w [-> Hw]. revert w Hw.
  change (triple stage is_writing (moded <-- (if chmod then fs_chmod (av_chmod ev) new mode else run_ret true);
    if moded then (wrote <-- fs_write (av_write ev) new bytes;
      if wrote then (synced <-- fs_sync (av_sync ev) new;
        if synced then (renamed <-- fs_rename (av_rename ev) tmp path; if renamed then fs_sync_dir (av_dirsync ev) else run_ret false)
        else run_ret false) else run_ret false) else run_ret false) stage_post).
  apply t_bind with (mid := λ _, is_writing); [destruct chmod; [apply chmod_stage|by apply t_ret]|]. intros [|]; [|apply fail_writing].
  eapply t_bind; [apply write_stage|]. intros [|]; [|apply fail_writing].
  eapply t_bind; [apply sync_stage|]. intros [|]; [|apply fail_writing].
  eapply t_bind; [apply rename_stage|]. intros [|]; [|apply fail_writing]. apply sync_dir_stage.
Qed.

Lemma write_atomic_stage ev : tmp = String.append path ".tmp" → triple stage (λ w, w = w0) (write_atomic ev path bytes mode) stage_post.
Proof.
  intros Ht. unfold write_atomic. rewrite <- Ht. eapply t_bind; [apply remove_stage|]. intros [|]; [apply swap_stage|].
  apply t_ret. intros w [-> _]. apply stage_start.
Qed.

Lemma write_private_stage ev : mode = 384 → triple stage (λ w, w = w0) (write_private_atomic ev tmp path bytes) stage_post.
Proof.
  intros Hm. unfold write_private_atomic. rewrite <- Hm. eapply t_bind; [apply remove_stage|]. intros [|]; [apply swap_stage|].
  apply t_ret. intros w [-> _]. apply stage_start.
Qed.

(** Cleaning up leads to a stage again. *)
Lemma tidy_stage ok : tmp ≠ path → triple stage stage (fs_remove ok tmp) (λ _, stage).
Proof.
  intros Hne. apply t_act. intros w Hw.
  enough (stage (match fs_names w !! tmp with None => w | Some _ => if ok then set_names (delete tmp (fs_names w)) w else w end)) as H.
  { destruct (fs_names w !! tmp); [destruct ok|]; done. }
  destruct (fs_names w !! tmp) eqn:E; [destruct ok; [|done]|done]. destruct Hw as [| |x Hx|x Hx|x Hx|x Hx]; cbn in *.
  - apply stage_cleared.
  - by rewrite lookup_delete_eq in E.
  - unfold set_names, with_new. cbn. rewrite delete_insert_eq, delete_delete_eq. by apply (stage_dropped x).
  - by rewrite lookup_delete_eq in E.
  - by rewrite lookup_insert_ne, lookup_delete_eq in E.
  - by rewrite lookup_insert_ne, lookup_delete_eq in E.
Qed.

(** A leftover in the way stops it. *)
Lemma blocked_stage ev chmod : triple stage (λ w, w = w0 ∧ is_Some (fs_names w0 !! tmp)) (write_and_swap ev chmod tmp path bytes mode) stage_post.
Proof.
  apply t_bind with (mid := λ o w, o = None ∧ w = w0); [|intros [i|] w [? ->]; [done|]; split; [constructor|apply stage_start]].
  apply t_act. intros w [-> [e He]]. rewrite He. cbn. split; [apply stage_start|done].
Qed.

Lemma write_0600_stage ev tidy : mode = 384 → tmp ≠ path → triple stage (λ w, w = w0) (write_0600 ev tidy tmp path bytes) stage_post.
Proof.
  intros Hm Hne. unfold write_0600. rewrite <- Hm. eapply t_bind; [apply remove_stage|]. intros gone.
  apply t_bind with (mid := stage_post); [destruct gone; [apply swap_stage|apply blocked_stage]|]. intros [|]; [by apply t_ret|].
  apply t_bind with (mid := λ _, stage); [by apply tidy_stage|]. intros _. by apply t_ret.
Qed.
End replace.

(** ** What a stage is to a reader *)

Lemma settled_cut w w' : settled w → power_cut w w' → w' = w.
Proof.
  intros [Hd Hs] (Hn & Hd' & Hx & Hk). assert (fs_names w' = fs_names w) as En.
  { apply map_eq. intros n. destruct (Hn n) as [->|E]; [done|]. by rewrite E, Hd. }
  assert (fs_nodes w' = fs_nodes w) as Ex.
  { apply map_eq. intros i. specialize (Hx i). destruct (fs_nodes w !! i) as [x|] eqn:E; [|done]. destruct Hx as (x' & -> & _ & _ & Hx'). by rewrite Hx' by eauto. }
  destruct w, w'. cbn in *. congruence.
Qed.

(** A complete file of its own behind a name. *)
Definition new_file (since : nat) (v : Fs) (name : string) (bytes : list Z) (mode : Z) : Prop :=
  ∃ i x, fs_names v !! name = Some (EFile i) ∧ fs_nodes v !! i = Some x ∧ (since <= i)%nat ∧ fn_data x = bytes ∧ Z.land (fn_mode x) mode = fn_mode x.

Section cuts.
Context (w0 : Fs) (tmp path : string) (bytes : list Z) (mode : Z) (Hwf : fs_wf w0) (Hset : settled w0) (Htp : tmp ≠ path).

Lemma new_unused : fs_nodes w0 !! fs_next w0 = None.
Proof.
  destruct (fs_nodes w0 !! fs_next w0) eqn:E; [|done]. assert (fs_next w0 < fs_next w0)%nat; [|lia]. apply (fw_next _ Hwf). by rewrite E.
Qed.

Lemma stage_names w n : stage w0 tmp path bytes mode w → n ≠ tmp → n ≠ path → fs_names w !! n = fs_names w0 !! n ∧ fs_durable w !! n = fs_names w0 !! n.
Proof. destruct Hset as [Hd _]. intros [| |x ?|x ?|x ?|x ?] Ht Hp; cbn; rewrite ?Hd; by simplify_map_eq. Qed.

Lemma stage_nodes w i : stage w0 tmp path bytes mode w →
  fs_nodes w !! i = fs_nodes w0 !! i ∨ i = fs_next w0 ∧ ∃ x, fs_nodes w !! i = Some x ∧ submode mode x.
Proof.
  intros [| |x ?|x ?|x Hx|x Hx]; cbn; auto; (destruct (decide (i = fs_next w0)) as [->|]; [right; split; [done|]; exists x; rewrite lookup_insert_eq; split; [done|]; first [done|apply Hx]|left; by rewrite lookup_insert_ne]).
Qed.

(** Whatever is cut off: the other names and every file from before are as they
    were, and behind the name is what was there or a complete new file. *)
Lemma stage_cut w w' : stage w0 tmp path bytes mode w → power_cut w w' →
  (∀ n, n ≠ tmp → n ≠ path → fs_names w' !! n = fs_names w0 !! n) ∧
  (∀ i x, fs_nodes w0 !! i = Some x → fs_nodes w' !! i = Some x) ∧
  (∀ i x, fs_nodes w' !! i = Some x → fs_nodes w0 !! i = None → i = fs_next w0 ∧ submode mode x) ∧
  (fs_names w' !! path = fs_names w0 !! path ∨ new_file (fs_next w0) w' path bytes mode).
Proof.
  intros Hs (Hn & _ & Hx & _). split_and!.
  - intros n Ht Hp. destruct (stage_names w n Hs Ht Hp) as [E1 E2]. by destruct (Hn n) as [->| ->].
  - intros i x Hi. specialize (Hx i). destruct (stage_nodes w i Hs) as [E|[-> _]]; [|by rewrite new_unused in Hi]. rewrite E, Hi in Hx.
    destruct Hx as (x' & -> & _ & _ & Hsy). by rewrite Hsy by (eapply Hset; eauto).
  - intros i x Hi H0. specialize (Hx i). destruct (stage_nodes w i Hs) as [E|(-> & y & Hy & Hm)]; [rewrite E, H0 in Hx; congruence|].
    split; [done|]. rewrite Hy in Hx. destruct Hx as (x' & Hx' & Hmo & _). unfold submode in *. congruence.
  - assert (∀ x, complete bytes mode x → fs_nodes w !! fs_next w0 = Some x → fs_names w' !! path = Some (EFile (fs_next w0)) → new_file (fs_next w0) w' path bytes mode) as Hnew.
    { intros x (Hd & Hsy & Hm) Hw Hp. specialize (Hx (fs_next w0)). rewrite Hw in Hx. destruct Hx as (x' & Hx' & _ & _ & He).
      rewrite He in Hx' by done. exists (fs_next w0), x. done. }
    destruct Hset as [Hd _]. specialize (Hn path). destruct Hs as [| |x ?|x ?|x Hc|x Hc]; cbn in Hn, Hnew; rewrite ?Hd in Hn; simplify_map_eq; try (left; by destruct Hn).
    + destruct Hn as [Hn|Hn]; [right; by apply (Hnew x)|by left].
    + right. apply (Hnew x); [done|done|]. by destruct Hn.
Qed.

(** After the last step nothing is waiting. *)
Lemma done_settled w : done_stage w0 tmp path bytes mode w → fs_wf w ∧ settled w ∧ fs_next w = S (fs_next w0) ∧
  (∀ n, n ≠ tmp → n ≠ path → fs_names w !! n = fs_names w0 !! n) ∧ fs_read w path = Some bytes ∧ new_file (fs_next w0) w path bytes mode.
Proof.
  intros (x & (Hd & Hsy & Hm) & ->). cbn. split_and!; [| |done|..].
  - assert (∀ n i, <[path := EFile (fs_next w0)]> (delete tmp (fs_names w0)) !! n = Some (EFile i) → is_Some (<[fs_next w0 := x]> (fs_nodes w0) !! i)) as Hok.
    { intros n i Hn. destruct (decide (i = fs_next w0)) as [->|]; [rewrite lookup_insert_eq; eauto|]. rewrite lookup_insert_ne by done.
      destruct (decide (n = path)) as [->|]; [rewrite lookup_insert_eq in Hn; congruence|]. rewrite lookup_insert_ne in Hn by done.
      apply lookup_delete_Some in Hn as [_ Hn]. by eapply fw_names. }
    split; cbn; [done|done|]. intros i Hi. destruct (decide (i = fs_next w0)) as [->|]; [lia|]. rewrite lookup_insert_ne in Hi by done. apply fw_next in Hi; [lia|done].
  - split; [done|]. cbn. intros i y Hy. destruct (decide (i = fs_next w0)) as [->|]; [rewrite lookup_insert_eq in Hy; congruence|].
    rewrite lookup_insert_ne in Hy by done. by eapply Hset.
  - intros n Ht Hp. by simplify_map_eq.
  - unfold fs_read, fs_node. cbn. rewrite lookup_insert_eq. cbn. rewrite lookup_insert_eq. cbn. by rewrite Hd.
  - exists (fs_next w0), x. cbn. rewrite !lookup_insert_eq. done.
Qed.
End cuts.

(** ** The identity survives *)

Lemma t_crash {W A} (C C' : W → Prop) pre (m : Run W A) post : (∀ w, C w → C' w) → triple C pre m post → triple C' pre m post.
Proof. intros HC Hm w Hw. specialize (Hm w Hw). destruct (m w) as [[a w'] tr]. destruct Hm as [Ht Hp]. split; [|done]. eapply Forall_impl; [exact Ht|exact HC]. Qed.

Section identity.
Context `{KD : KeyDer} (w0 : Fs) (Hwf : fs_wf w0) (Hset : settled w0) (fresh : option (list Z * list Z)).
#[local] Abbreviation crt_tmp := "tls.crt.tmp"%string.
#[local] Abbreviation key_tmp := "tls.key.tmp"%string.

(** What a start finds: no other name and no other file's contents changed; the
    two files both from before, the certificate new, or both new, the new key
    and every file made after the certificate's for the owner alone. *)
Definition tls_intact (v : Fs) : Prop :=
  (∀ n, n ∉ [TLS_CRT; TLS_KEY; crt_tmp; key_tmp] → fs_names v !! n = fs_names w0 !! n) ∧
  (∀ i x, fs_nodes w0 !! i = Some x → ∃ x', fs_nodes v !! i = Some x' ∧ fn_data x' = fn_data x) ∧
  (∀ i x, fs_nodes v !! i = Some x → (fs_next w0 < i)%nat → Z.land (fn_mode x) 63 = 0) ∧
  (fs_names v !! TLS_CRT = fs_names w0 !! TLS_CRT ∧ fs_names v !! TLS_KEY = fs_names w0 !! TLS_KEY ∨
   ∃ c k, fresh = Some (c, k) ∧ new_file (fs_next w0) v TLS_CRT c 420 ∧
     (fs_names v !! TLS_KEY = fs_names w0 !! TLS_KEY ∨ new_file (fs_next w0) v TLS_KEY k 384)).
Definition tls_survives (w : Fs) : Prop := ∀ v, power_cut w v → tls_intact v.

Definition tls_stored (w : Fs) : option TlsIdentity := c ← fs_read w TLS_CRT; k ← fs_read w TLS_KEY; tls_from_der c k.

Lemma submode_private x : submode 384 x → Z.land (fn_mode x) 63 = 0.
Proof. unfold submode. intros <-. rewrite <- Z.land_assoc. apply Z.land_0_r. Qed.

Lemma fresh_above w i x : fs_nodes w !! i = Some x → (fs_next w0 < i)%nat → fs_nodes w0 !! i = None.
Proof. intros _ Hi. destruct (fs_nodes w0 !! i) eqn:E; [|done]. assert (i < fs_next w0)%nat; [|lia]. apply (fw_next _ Hwf). by rewrite E. Qed.

Lemma crt_survives c k w : fresh = Some (c, k) → stage w0 crt_tmp TLS_CRT c 420 w → tls_survives w.
Proof.
  intros Hf Hs v Hv. destruct (stage_cut w0 crt_tmp TLS_CRT c 420 Hwf Hset ltac:(done) w v Hs Hv) as (H1 & H2 & H3 & H4). split_and!.
  - intros n Hn. rewrite !not_elem_of_cons in Hn. apply H1; tauto.
  - eauto.
  - intros i x Hi Hlt. destruct (H3 i x Hi) as [-> _]; [by eapply fresh_above|lia].
  - rewrite (H1 TLS_KEY) by done. destruct H4 as [->|H4]; [by left|right]. exists c, k. auto.
Qed.

Lemma key_survives c k w1 w : fresh = Some (c, k) → done_stage w0 crt_tmp TLS_CRT c 420 w1 → stage w1 key_tmp TLS_KEY k 384 w → tls_survives w.
Proof.
  intros Hf Hd Hs v Hv. destruct (done_settled w0 crt_tmp TLS_CRT c 420 Hwf Hset w1 Hd) as (Hwf1 & Hset1 & Hnx & Hnm & _ & Hcrt).
  destruct (stage_cut w1 key_tmp TLS_KEY k 384 Hwf1 Hset1 ltac:(done) w v Hs Hv) as (H1 & H2 & H3 & H4).
  destruct (stage_cut w0 crt_tmp TLS_CRT c 420 Hwf Hset ltac:(done) w1 w1) as (_ & G2 & G3 & _).
  { destruct Hd as (x & Hx & ->). by apply stage_durable. }
  { split_and!; [auto|destruct Hset1; done| |done]. intros i. destruct (fs_nodes w1 !! i) as [x|] eqn:E; [|done]. exists x. split_and!; [done..| |done]. by eapply Hset1. }
  split_and!.
  - intros n Hn. rewrite !not_elem_of_cons in Hn. rewrite H1 by tauto. apply Hnm; tauto.
  - eauto.
  - intros i x Hi Hlt. destruct (fs_nodes w1 !! i) as [y|] eqn:E.
    + destruct (G3 i y E) as [-> _]; [by eapply fresh_above|lia].
    + destruct (H3 i x Hi E) as [_ Hm]. by apply submode_private.
  - right. exists c, k. split; [done|]. split.
    + destruct Hcrt as (i & x & Hn & Hi & Hle & Hda & Hmo). exists i, x. rewrite (H1 TLS_CRT) by done. eauto 10.
    + rewrite (Hnm TLS_KEY) in H4 by done. destruct H4 as [H4|(i & x & Hn & Hi & Hle & ?)]; [by left|right]. exists i, x. split_and!; try done; [lia|tauto..].
Qed.
Lemma start_survives : tls_survives w0.
Proof.
  intros v Hv. rewrite (settled_cut _ _ Hset Hv). split_and!; [done|eauto| |by left]. intros i x Hi Hlt.
  rewrite (fresh_above w0 i x Hi Hlt) in Hi. done.
Qed.

Lemma create_survives ev1 ev2 : triple tls_survives (λ w, w = w0) (tls_create fresh ev1 ev2)
  (λ r w, tls_survives w ∧ ∀ id, r = Some id → settled w ∧ tls_stored w = Some id).
Proof.
  unfold tls_create. destruct fresh as [[c k]|] eqn:Hf; cbn [mbind option_bind fst snd]; [|apply t_ret; intros w ->; split; [apply start_survives|done]].
  destruct (tls_from_der c k) as [id|] eqn:Hid; [|apply t_ret; intros w ->; split; [apply start_survives|done]].
  assert (id = mkTlsIdentity c k) as ->. { unfold tls_from_der in Hid. destruct (_ =? _)%nat; [done|]. destruct (key_der_ok k); congruence. } cbn [ti_cert ti_key].
  eapply t_bind; [eapply t_crash; [|by apply (write_atomic_stage w0 crt_tmp TLS_CRT c 420)]; intros w; by apply (crt_survives c k)|]. cbn beta.
  intros [|]; [|apply t_ret; intros w Hw; split; [by apply (crt_survives c k)|done]]. intros w1 Hd. revert w1 Hd.
  cut (∀ w1, done_stage w0 crt_tmp TLS_CRT c 420 w1 → triple tls_survives (λ w, w = w1)
    (ok <-- write_atomic ev2 TLS_KEY k 384; run_ret (if ok : bool then Some (mkTlsIdentity c k) else None))
    (λ r w, tls_survives w ∧ ∀ id, r = Some id → settled w ∧ tls_stored w = Some id)).
  { intros Hc w1 Hd. apply (Hc w1 Hd w1 eq_refl). }
  intros w1 Hd. eapply t_bind; [eapply t_crash; [|by apply (write_atomic_stage w1 key_tmp TLS_KEY k 384)]; intros w; by apply (key_survives c k w1)|]. cbn beta.
  intros ok. apply t_ret. intros w Hw. destruct (done_settled w0 crt_tmp TLS_CRT c 420 Hwf Hset w1 Hd) as (Hwf1 & Hset1 & Hnx & Hnm & Hread & Hcrt).
  destruct ok; [|split; [by apply (key_survives c k w1)|done]]. split.
  { apply (key_survives c k w1); [done..|]. destruct Hw as (x & Hx & ->). by apply stage_durable. }
  intros id [= <-]. destruct (done_settled w1 key_tmp TLS_KEY k 384 Hwf1 Hset1 w Hw) as (_ & Hset2 & _ & Hnm2 & Hread2 & _). split; [done|].
  unfold tls_stored. rewrite Hread2. assert (fs_read w TLS_CRT = Some c) as ->; [|by cbn].
  destruct Hcrt as (i & x & Hn & Hi & Hle & Hda & _). unfold fs_read, fs_node. cbn [fs_resolve]. rewrite (Hnm2 TLS_CRT), Hn by done. cbn.
  destruct Hw as (y & _ & ->). cbn. rewrite lookup_insert_ne, Hi; [by cbn; rewrite Hda|]. intros <-. assert (fs_next w1 < fs_next w1)%nat; [|lia].
  apply (fw_next _ Hwf1). by rewrite Hi.
Qed.

Lemma tightened_reads i x y n : fs_nodes w0 !! i = Some x → fn_data y = fn_data x → fs_read (set_node i y w0) n = fs_read w0 n.
Proof.
  intros Hi Hd. unfold fs_read, fs_node. assert (∀ fuel n, fs_resolve fuel (set_node i y w0) n = fs_resolve fuel w0 n) as Hr.
  { intros fuel. induction fuel as [|fuel IH]; intros m; cbn; [done|]. destruct (fs_names w0 !! m) as [[]|]; auto. }
  rewrite Hr. destruct (fs_resolve 40 w0 n) as [j|]; cbn; [|done]. destruct (decide (i = j)) as [<-|]; [rewrite lookup_insert_eq, Hi; cbn; congruence|by rewrite lookup_insert_ne].
Qed.

Lemma tighten_survives ok id : tls_stored w0 = Some id → triple tls_survives (λ w, w = w0) (tighten_key_mode ok TLS_KEY)
  (λ _ w, tls_survives w ∧ settled w ∧ tls_stored w = Some id).
Proof.
  intros Hst. apply t_act. intros w ->. cbn [fst snd].
  enough (∀ w, w = w0 ∨ (∃ i x y, fs_nodes w0 !! i = Some x ∧ fn_data y = fn_data x ∧ fn_synced y = fn_synced x ∧ w = set_node i y w0) →
    tls_survives w ∧ settled w ∧ tls_stored w = Some id) as Hall.
  { destruct (fs_node w0 TLS_KEY) as [[i x]|] eqn:En; [|split; [|by apply Hall; left]; by apply (Hall w0); left].
    assert (fs_nodes w0 !! i = Some x) as Hi.
    { unfold fs_node in En. destruct (fs_resolve 40 w0 TLS_KEY) as [j|]; [|done]. cbn in En. destruct (fs_nodes w0 !! j) eqn:Ej; cbn in En; congruence. }
    destruct (_ =? _); [|destruct ok]; (split; [apply Hall|apply Hall]); auto; right; by exists i, x, (mkFsNode (fn_data x) 384 (fn_synced x)). }
  intros w [->|(i & x & y & Hi & Hd & Hs & ->)]; [split_and!; [apply start_survives|done|done]|].
  assert (settled (set_node i y w0)) as Hset'.
  { destruct Hset as [H1 H2]. split; [done|]. cbn. intros j z Hz. destruct (decide (i = j)) as [<-|]; [rewrite lookup_insert_eq in Hz; injection Hz as <-; rewrite Hs; eauto|].
    rewrite lookup_insert_ne in Hz by done. eauto. }
  split_and!; [|done|unfold tls_stored; by rewrite !(tightened_reads i x y)]. intros v Hv. rewrite (settled_cut _ _ Hset' Hv). split_and!; [done| | |by left]; cbn.
  - intros j z Hz. destruct (decide (i = j)) as [<-|]; [rewrite lookup_insert_eq; exists y; split; [done|congruence]|rewrite lookup_insert_ne by done; eauto].
  - intros j z Hz Hlt. assert (i ≠ j) as Hne. { intros <-. by rewrite (fresh_above w0 i x Hi Hlt) in Hi. }
    rewrite lookup_insert_ne in Hz by done. by rewrite (fresh_above w0 j z Hz Hlt) in Hz.
Qed.

(** C16: A node's TLS identity survives whatever fails and wherever the power
    goes: then as before, no other name and no other file's contents are
    touched - not through a planted link either -, the certificate and the key
    are those from before, the new certificate with the key from before, or both
    new, complete, and no file holding the new key was ever open to others. An
    identity that was returned is the one every later start returns. *)
Theorem identity_durable lv ev1 ev2 :
  let '(r, w, points) := tls_load_or_create lv fresh ev1 ev2 w0 in
  (∀ u v, u ∈ w :: points → power_cut u v → tls_intact v) ∧
  (∀ id, r = Some id → ∀ v lv' fresh' ev1' ev2', power_cut w v → lv_dir lv' && lv_read lv' && lv_read2 lv' = true →
     (tls_load_or_create lv' fresh' ev1' ev2' v).1.1 = Some id).
Proof.
  assert (triple tls_survives (λ w, w = w0) (tls_load_or_create lv fresh ev1 ev2)
    (λ r w, tls_survives w ∧ ∀ id, r = Some id → settled w ∧ tls_stored w = Some id)) as Ht.
  { unfold tls_load_or_create. destruct (lv_dir lv); [|apply t_ret; intros w ->; split; [apply start_survives|done]].
    eapply t_read_bind; [by intros w ->|]. cbn [fst snd].
    destruct (c ← fs_try_read (lv_read lv) TLS_CRT w0; k ← fs_try_read (lv_read2 lv) TLS_KEY w0; tls_from_der c k) as [id|] eqn:E; [|apply create_survives].
    assert (tls_stored w0 = Some id) as Hst by (unfold tls_stored; unfold fs_try_read in E; destruct (lv_read lv), (lv_read2 lv), (fs_read w0 TLS_CRT); done).
    eapply t_bind; [by apply tighten_survives|]. intros u. apply t_ret. intros w (H1 & H2 & H3). split; [done|]. by intros ? [= <-]. }
  specialize (Ht w0 eq_refl). destruct (tls_load_or_create lv fresh ev1 ev2 w0) as [[r w] points]. destruct Ht as [Hp [Hw Hok]]. split.
  - intros u v [->|Hu]%elem_of_cons Hv; [by apply Hw|]. rewrite Forall_forall in Hp. by eapply Hp.
  - intros id Hr v lv' fresh' ev1' ev2' Hv Hl. destruct (Hok id Hr) as [Hs Hst]. rewrite (settled_cut _ _ Hs Hv). rewrite !andb_true_iff in Hl. destruct Hl as [[Hl1 Hl2] Hl3].
    unfold tls_load_or_create. rewrite Hl1. unfold run_bind at 1, run_read, fs_try_read. rewrite Hl2, Hl3. cbn [fst snd]. unfold tls_stored in Hst. rewrite Hst.
    unfold run_bind, tighten_key_mode, run_act. by destruct (fs_node w TLS_KEY) as [[i x]|].
Qed.
End identity.

(** The static key alike: whatever is cut off, the old file or the whole new one. *)
Lemma static_key_durable w0 lv fresh ev : fs_wf w0 → settled w0 →
  let '(r, w, points) := static_load_or_create lv fresh ev w0 in
  ∀ u v, u ∈ w :: points → power_cut u v →
    (∀ n, n ≠ "static.key.tmp"%string → n ≠ STATIC_KEY → fs_names v !! n = fs_names w0 !! n) ∧
    (∀ i x, fs_nodes w0 !! i = Some x → fs_nodes v !! i = Some x) ∧
    (fs_names v !! STATIC_KEY = fs_names w0 !! STATIC_KEY ∨ ∃ k, fresh = Some k ∧ new_file (fs_next w0) v STATIC_KEY k 384).
Proof.
  intros Hwf Hset. set (good := λ v, (∀ n, n ≠ "static.key.tmp"%string → n ≠ STATIC_KEY → fs_names v !! n = fs_names w0 !! n) ∧
    (∀ i x, fs_nodes w0 !! i = Some x → fs_nodes v !! i = Some x) ∧
    (fs_names v !! STATIC_KEY = fs_names w0 !! STATIC_KEY ∨ ∃ k, fresh = Some k ∧ new_file (fs_next w0) v STATIC_KEY k 384)).
  assert (∀ v, power_cut w0 v → good v) as H0 by (intros v Hv; rewrite (settled_cut _ _ Hset Hv); split_and!; auto).
  assert (triple (λ u, ∀ v, power_cut u v → good v) (λ w, w = w0) (static_load_or_create lv fresh ev) (λ _ u, ∀ v, power_cut u v → good v)) as Ht.
  { assert (triple (λ u, ∀ v, power_cut u v → good v) (λ w, w = w0) (static_create fresh ev) (λ _ u, ∀ v, power_cut u v → good v)) as Hc.
    { unfold static_create. destruct fresh as [k|]; [|apply t_ret; intros w ->; exact H0].
      assert (∀ w, stage w0 "static.key.tmp" STATIC_KEY k 384 w → ∀ v, power_cut w v → good v) as Hs.
      { intros w Hs v Hv. destruct (stage_cut w0 "static.key.tmp" STATIC_KEY k 384 Hwf Hset ltac:(done) w v Hs Hv) as (H1 & H2 & _ & [?|?]); split_and!; eauto. }
      eapply t_bind; [eapply t_crash; [exact Hs|]; by apply write_private_stage|]. cbn beta. intros ok. apply t_ret. intros w Hw.
      destruct ok; [|by apply Hs]. destruct Hw as (x & Hx & ->). by apply Hs, stage_durable. }
    unfold static_load_or_create. destruct (lv_dir lv); [|apply t_ret; intros w ->; exact H0]. eapply t_read_bind; [by intros w ->|]. cbn beta.
    destruct (fs_read w0 STATIC_KEY); [|done]. destruct (lv_read lv); [destruct (from_private_ok _)|]; try done; apply t_ret; intros w ->; exact H0. }
  specialize (Ht w0 eq_refl). destruct (static_load_or_create lv fresh ev w0) as [[r w] points]. destruct Ht as [Hp Hw].
  intros u v [->|Hu]%elem_of_cons Hv; [by apply Hw|]. rewrite Forall_forall in Hp. by eapply Hp.
Qed.

(** ** A node's state directory *)

Module KeyFilesExample.
(** A key is usable when it starts with 48, the tag of a DER sequence. *)
#[export] Instance key_der : KeyDer := {| key_der_ok k := bool_decide (head k = Some 48) |}.

Definition calm : AtomicEnv := mkAtomicEnv 18 true true true None true true true.
Definition ready : LoadEnv := mkLoadEnv true true true true.
(** No certificate, and a key that is fine. *)
Definition old_key : list Z := [48; 1; 1].
Definition disk : Fs := mkFs {["tls.key" := EFile 0]}%string {["tls.key" := EFile 0]}%string {[0%nat := mkFsNode old_key 384 true]} 1.
Definition pair : list Z * list Z := ([5; 6; 7], [48; 2; 2]).

(** The process dies between the two files: the next start takes the new
    certificate with the old key. *)
Lemma torn_pair_accepted :
  let points := (tls_load_or_create ready (Some pair) calm calm disk).2 in
  (λ v, (tls_load_or_create ready None calm calm v).1.1) <$> (points !! 8%nat) = Some (Some (mkTlsIdentity pair.1 old_key)).
Proof. vm_compute. done. Qed.

Lemma disk_wf : fs_wf disk.
Proof.
  split; cbn.
  - intros n i Hn. apply lookup_singleton_Some in Hn as [_ [= <-]]. eauto.
  - intros n i Hn. apply lookup_singleton_Some in Hn as [_ [= <-]]. eauto.
  - intros i [x Hx]. apply lookup_singleton_Some in Hx as [<- _]. lia.
Qed.
Lemma disk_settled : settled disk.
Proof. split; [done|]. cbn. intros i x Hx. by apply lookup_singleton_Some in Hx as [_ <-]. Qed.
End KeyFilesExample.

#[local] Existing Instance KeyFilesExample.key_der.

Lemma identity_durable_witness :
  let '(r, w, points) := tls_load_or_create KeyFilesExample.ready (Some KeyFilesExample.pair) KeyFilesExample.calm KeyFilesExample.calm KeyFilesExample.disk in
  r = Some (mkTlsIdentity KeyFilesExample.pair.1 KeyFilesExample.pair.2) ∧
  (∀ v, power_cut w v → (tls_load_or_create KeyFilesExample.ready None KeyFilesExample.calm KeyFilesExample.calm v).1.1 = r).
Proof.
  pose proof (identity_durable KeyFilesExample.disk KeyFilesExample.disk_wf KeyFilesExample.disk_settled (Some KeyFilesExample.pair)
    KeyFilesExample.ready KeyFilesExample.calm KeyFilesExample.calm) as Hx.
  destruct (tls_load_or_create _ _ _ _ _) as [[r w] points] eqn:E. destruct Hx as [_ Hx]. apply (f_equal (λ p, p.1.1)) in E. cbn [fst] in E.
  assert (r = Some (mkTlsIdentity KeyFilesExample.pair.1 KeyFilesExample.pair.2)) as -> by (rewrite <- E; vm_compute; reflexivity).
  split; [done|]. intros v Hv. by apply Hx.
Defined.
