(* ===== verification/Store.v ===== *)
(** * The coordinator's database (crates/nqvpn-coord/src/db.rs)

    One row of JSON per network configuration and one per registry. What SQLite
    makes of the statements is a parameter ([SqliteOps]) with the documented
    behaviour of its transactions as laws, and so is serde_json ([StoreCodec]); the
    statements, the stored form of a configuration (crates/nqvpn-coord/src/config.rs)
    and what each operation does with an error are the program's. The whole refines
    a map from network ids to the configuration and registry last saved, and a
    coordinator that starts from it serves what the previous one did. *)

From S2P Require Import Prelude Ordered Ipnet Text Control Replay Seal Credential Config Registry Leases Directory Ipam NetState RateLimit Join Validate.
From S2P Require Import Frame Tables RelayNet Admin Coordinator.

(** ** A configuration as it is stored *)

(** What [Serialize] writes: one prefix per address family, members without the
    legacy pool. *)
Record ConfigOut := mkConfigOut {
  cw_network_id : string;
  cw_ipv4_cidr : IpNet;
  cw_ipv6_cidr : option IpNet;
  cw_settings : SettingsCfg;
  cw_relays : gmap string MemberCfg;
  cw_clients : gmap string MemberCfg;
}.

(** What [Deserialize] accepts: the older form with a list of prefixes as well. *)
Record NetworkConfigWire := mkNetworkConfigWire {
  ncw_network_id : string;
  ncw_ipv4_cidr : option IpNet;
  ncw_ipv6_cidr : option IpNet;
  ncw_cidrs : list IpNet;
  ncw_legacy_pools : gmap string IpNet;
  ncw_settings : SettingsCfg;
  ncw_relays : gmap string MemberCfg;
  ncw_clients : gmap string MemberCfg;
}.

(** [skip_serializing] on the legacy pool of a member. *)
Definition drop_pool (m : MemberCfg) : MemberCfg :=
  mkMemberCfg (mc_secret m) (mc_relay_addr m) (mc_local_cidrs m) (mc_internet_gateway m) (mc_preferred_ip4 m) (mc_preferred_ip6 m)
    None (mc_want_vpn_ip m) (mc_max_session_mbps m) (mc_preferred_relay m).

(** [None]: [ipv4_cidr] panics. *)
Definition config_to_wire (cfg : NetworkConfig) : option ConfigOut :=
  v4 ← ipv4_cidr cfg;
  Some (mkConfigOut (nc_network_id cfg) v4 (ipv6_cidr cfg) (nc_settings cfg) (drop_pool <$> nc_relays cfg) (drop_pool <$> nc_clients cfg)).

Definition config_from_wire (w : NetworkConfigWire) : option NetworkConfig :=
  let families := opt_some (ncw_ipv4_cidr w) || opt_some (ncw_ipv6_cidr w) in
  if negb (bool_decide (ncw_cidrs w = [])) && families then None else
  let cidrs := if families then opt_list (ncw_ipv4_cidr w) ++ opt_list (ncw_ipv6_cidr w) else ncw_cidrs w in
  Some (mkNetworkConfig (ncw_network_id w) cidrs (ncw_settings w) (ncw_relays w) (ncw_clients w)).

(** A field that is not written takes its default when it is read. *)
Definition wire_read (o : ConfigOut) : NetworkConfigWire :=
  mkNetworkConfigWire (cw_network_id o) (Some (cw_ipv4_cidr o)) (cw_ipv6_cidr o) [] ∅ (cw_settings o) (cw_relays o) (cw_clients o).

(** What a stored configuration is when it comes back. *)
Definition stored_form (cfg : NetworkConfig) : NetworkConfig :=
  mkNetworkConfig (nc_network_id cfg) (opt_list (ipv4_cidr cfg) ++ opt_list (ipv6_cidr cfg)) (nc_settings cfg)
    (drop_pool <$> nc_relays cfg) (drop_pool <$> nc_clients cfg).

Class StoreCodec := {
  Json : Type;
  json_config : ConfigOut → Json;
  parse_config : Json → option NetworkConfigWire;
  json_registry : Registry → Json;
  parse_registry : Json → option Registry;
}.

Class StoreCodecLaws `{StoreCodec} := {
  parse_json_config o : parse_config (json_config o) = Some (wire_read o);
  parse_json_registry r : parse_registry (json_registry r) = Some r;
}.

(** ** The tables, and the statements on them *)

Section tables.
Context `{J : StoreCodec}.

Record DbTables := mkDbTables { tb_networks : gmap string (Json * Z); tb_registries : gmap string (Json * Z) }.

Inductive Stmt :=
| UpsertNetwork (id : string) (config : Json) (now : Z)
| UpsertRegistry (id : string) (data : Json) (now : Z)
| DeleteNetwork (id : string).

(** The tables after a statement, and how many rows it changed; [None] where the
    foreign key forbids it. The deletion cascades. *)
Definition stmt_effect (st : Stmt) (t : DbTables) : option (DbTables * Z) :=
  match st with
  | UpsertNetwork id config now => Some (mkDbTables (<[id := (config, now)]> (tb_networks t)) (tb_registries t), 1)
  | UpsertRegistry id data now =>
      if bool_decide (is_Some (tb_networks t !! id))
      then Some (mkDbTables (tb_networks t) (<[id := (data, now)]> (tb_registries t)), 1) else None
  | DeleteNetwork id =>
      Some (mkDbTables (delete id (tb_networks t)) (delete id (tb_registries t)), if opt_some (tb_networks t !! id) then 1 else 0)
  end.

(** The query of [load_all]. *)
Definition join_rows (t : DbTables) : list (string * Json * option Json) :=
  (λ p : string * (Json * Z), (p.1, p.2.1, fst <$> tb_registries t !! p.1)) <$> bt_iter (tb_networks t).
End tables.

(** A connection: any call may fail. *)
Class SqliteOps `{J : StoreCodec} := {
  Conn : Type;
  sq_begin : Conn → Conn * bool;
  sq_execute : Stmt → Conn → Conn * option Z;
  sq_commit : Conn → Conn * bool;
  sq_rollback : Conn → Conn;
  sq_select_all : Conn → option (list (string * Json * option Json));
  sq_select_registry : string → Conn → option (option Json);
  (* the process ends, by itself or not, and another one opens the file *)
  sq_reopen : Conn → Conn;
}.

(** What SQLite documents: statements outside a transaction commit by
    themselves, those inside at its commit or not at all, an error leaves what is
    committed alone, and (synchronous = FULL) what is committed survives. *)
Class SqliteLaws `{D : SqliteOps} := {
  sq_durable : Conn → DbTables;
  sq_view : Conn → DbTables;
  sq_in_tx : Conn → Prop;
  begin_law c : match sq_begin c with
    | (c', true) => sq_in_tx c' ∧ sq_view c' = sq_view c ∧ sq_durable c' = sq_durable c
    | (c', false) => ¬ sq_in_tx c → ¬ sq_in_tx c' ∧ sq_view c' = sq_view c ∧ sq_durable c' = sq_durable c end;
  execute_auto st c : ¬ sq_in_tx c → sq_view c = sq_durable c → match sq_execute st c with
    | (c', Some k) => ¬ sq_in_tx c' ∧ sq_view c' = sq_durable c' ∧ stmt_effect st (sq_durable c) = Some (sq_durable c', k)
    | (c', None) => ¬ sq_in_tx c' ∧ sq_view c' = sq_durable c' ∧ sq_durable c' = sq_durable c end;
  execute_tx st c : sq_in_tx c → match sq_execute st c with
    | (c', Some k) => sq_in_tx c' ∧ sq_durable c' = sq_durable c ∧ stmt_effect st (sq_view c) = Some (sq_view c', k)
    | (c', None) => sq_durable c' = sq_durable c end;
  commit_law c : sq_in_tx c → match sq_commit c with
    | (c', true) => ¬ sq_in_tx c' ∧ sq_view c' = sq_view c ∧ sq_durable c' = sq_view c
    | (c', false) => sq_durable c' = sq_durable c end;
  rollback_law c : let c' := sq_rollback c in ¬ sq_in_tx c' ∧ sq_view c' = sq_durable c' ∧ sq_durable c' = sq_durable c;
  select_all_law c rows : sq_select_all c = Some rows → rows = join_rows (sq_view c);
  select_registry_law c id j : sq_select_registry id c = Some j → j = fst <$> tb_registries (sq_view c) !! id;
  reopen_law c : let c' := sq_reopen c in ¬ sq_in_tx c' ∧ sq_view c' = sq_durable c' ∧ sq_durable c' = sq_durable c;
}.

(** ** Operations *)

Inductive Answer (A : Type) := Done (a : A) | Failed | Unwound.
Arguments Done {A} _.
Arguments Failed {A}.
Arguments Unwound {A}.

Section db.
Context `{D : SqliteOps}.

Definition config_row (cfg : NetworkConfig) : option Json := json_config <$> config_to_wire cfg.

(** The clock is [now]. *)
Definition db_save_network (cfg : NetworkConfig) (now : Z) (c : Conn) : Conn * Answer unit :=
  match config_row cfg with
  | None => (c, Unwound)
  | Some json =>
      match sq_execute (UpsertNetwork (nc_network_id cfg) json now) c with
      | (c, Some _) => (c, Done tt)
      | (c, None) => (c, Failed)
      end
  end.

Definition db_save_registry (id : string) (reg : Registry) (now : Z) (c : Conn) : Conn * Answer unit :=
  match sq_execute (UpsertRegistry id (json_registry reg) now) c with
  | (c, Some _) => (c, Done tt)
  | (c, None) => (c, Failed)
  end.

(** The rows of [save_networks]; [None] where one panics. *)
Fixpoint network_rows (nets : list (NetworkConfig * Registry)) : option (list (string * Json * Json)) :=
  match nets with
  | [] => Some []
  | (cfg, reg) :: nets =>
      json ← config_row cfg; rows ← network_rows nets; Some ((nc_network_id cfg, json, json_registry reg) :: rows)
  end.

(** The loop inside the transaction: the first error ends it. *)
Fixpoint execute_rows (rows : list (string * Json * Json)) (now : Z) (c : Conn) : Conn * bool :=
  match rows with
  | [] => (c, true)
  | (id, cfg_json, reg_json) :: rows =>
      match sq_execute (UpsertNetwork id cfg_json now) c with
      | (c, None) => (c, false)
      | (c, Some _) =>
          match sq_execute (UpsertRegistry id reg_json now) c with
          | (c, None) => (c, false)
          | (c, Some _) => execute_rows rows now c
          end
      end
  end.

(** A transaction that is dropped before it is committed is rolled back. *)
Definition db_save_networks (nets : list (NetworkConfig * Registry)) (now : Z) (c : Conn) : Conn * Answer unit :=
  match network_rows nets with
  | None => (c, Unwound)
  | Some rows =>
      match sq_begin c with
      | (c, false) => (c, Failed)
      | (c, true) =>
          match execute_rows rows now c with
          | (c, false) => (sq_rollback c, Failed)
          | (c, true) =>
              match sq_commit c with
              | (c, false) => (sq_rollback c, Failed)
              | (c, true) => (c, Done tt)
              end
          end
      end
  end.

Definition db_save_network_and_registry (cfg : NetworkConfig) (reg : Registry) (now : Z) (c : Conn) : Conn * Answer unit :=
  db_save_networks [(cfg, reg)] now c.

Definition db_delete_network (id : string) (c : Conn) : Conn * Answer bool :=
  match sq_execute (DeleteNetwork id) c with
  | (c, Some k) => (c, Done (0 <? k))
  | (c, None) => (c, Failed)
  end.

(** [None]: an error. *)
Definition db_load_registry (id : string) (c : Conn) : option (option Registry) :=
  match sq_select_registry id c with
  | None => None
  | Some None => Some None
  | Some (Some j) => Some <$> parse_registry j
  end.

(** [uuid] is what [Registry::new] draws for a network without a registry. *)
Definition load_row (uuid : string → string) (r : string * Json * option Json) : option (NetworkConfig * Registry) :=
  w ← parse_config r.1.2;
  cfg ← config_from_wire w;
  reg ← match r.2 with Some j => parse_registry j | None => Some (registry_new (uuid r.1.1)) end;
  Some (cfg, reg).

Fixpoint load_rows (uuid : string → string) (rows : list (string * Json * option Json)) : option (list (NetworkConfig * Registry)) :=
  match rows with
  | [] => Some []
  | r :: rows => p ← load_row uuid r; out ← load_rows uuid rows; Some (p :: out)
  end.

Definition db_load_all (uuid : string → string) (c : Conn) : option (list (NetworkConfig * Registry)) :=
  rows ← sq_select_all c; load_rows uuid rows.

(** ** Sequences of operations *)

Inductive DbOp :=
| OpSaveNetwork (cfg : NetworkConfig) (now : Z)
| OpSaveRegistry (id : string) (reg : Registry) (now : Z)
| OpSaveNetworks (nets : list (NetworkConfig * Registry)) (now : Z)
| OpDelete (id : string)
| OpReopen.

(** The answer: what a deletion says, [true] for the others. *)
Definition db_run (op : DbOp) (c : Conn) : Conn * Answer bool :=
  let done (r : Conn * Answer unit) := (r.1, match r.2 with Done _ => Done true | Failed => Failed | Unwound => Unwound end) in
  match op with
  | OpSaveNetwork cfg now => done (db_save_network cfg now c)
  | OpSaveRegistry id reg now => done (db_save_registry id reg now c)
  | OpSaveNetworks nets now => done (db_save_networks nets now c)
  | OpDelete id => db_delete_network id c
  | OpReopen => (sq_reopen c, Done true)
  end.

Fixpoint db_runs (ops : list DbOp) (c : Conn) : Conn * list (Answer bool) :=
  match ops with
  | [] => (c, [])
  | op :: ops => let '(c, a) := db_run op c in let '(c, r) := db_runs ops c in (c, a :: r)
  end.
End db.

(** ** The contract *)

(** Per network: the configuration last saved, and the registry if one was. *)
Abbreviation Store := (gmap string (NetworkConfig * option Registry)).

Definition store_network (cfg : NetworkConfig) (s : Store) : Store :=
  <[nc_network_id cfg := (stored_form cfg, s !! nc_network_id cfg ≫= snd)]> s.
Definition store_registry (id : string) (reg : Registry) (s : Store) : Store := alter (λ p, (p.1, Some reg)) id s.
Definition store_both (s : Store) (p : NetworkConfig * Registry) : Store :=
  <[nc_network_id p.1 := (stored_form p.1, Some p.2)]> s.

(** What an operation that answered does; one that did not, nothing. *)
Definition store_op (op : DbOp) (s : Store) : Store :=
  match op with
  | OpSaveNetwork cfg _ => store_network cfg s
  | OpSaveRegistry id reg _ => store_registry id reg s
  | OpSaveNetworks nets _ => foldl store_both s nets
  | OpDelete id => delete id s
  | OpReopen => s
  end.

(** The store after the operations, given their answers, which must be what the
    contract allows. *)
Fixpoint store_runs (ops : list DbOp) (answers : list (Answer bool)) (s : Store) : Store :=
  match ops, answers with
  | op :: ops, Done _ :: answers => store_runs ops answers (store_op op s)
  | _ :: ops, _ :: answers => store_runs ops answers s
  | _, _ => s
  end.

(** The answer [op] may give: a deletion says whether there was such a network, a
    registry is saved only for a network there is, and a configuration without an
    IPv4 prefix cannot be written. *)
Definition answer_allowed (op : DbOp) (s : Store) (a : Answer bool) : Prop :=
  match a with
  | Done b =>
      match op with
      | OpDelete id => b = opt_some (s !! id)
      | OpSaveRegistry id _ _ => is_Some (s !! id)
      | _ => b = true
      end
  | Failed => True
  | Unwound =>
      match op with
      | OpSaveNetwork cfg _ => ipv4_cidr cfg = None
      | OpSaveNetworks nets _ => ∃ p, p ∈ nets ∧ ipv4_cidr p.1 = None
      | _ => False
      end
  end.

Fixpoint answers_allowed (ops : list DbOp) (answers : list (Answer bool)) (s : Store) : Prop :=
  match ops, answers with
  | [], [] => True
  | op :: ops', a :: answers' => answer_allowed op s a ∧ answers_allowed ops' answers' (store_runs [op] [a] s)
  | _, _ => False
  end.

Definition store_all (uuid : string → string) (s : Store) : list (NetworkConfig * Registry) :=
  (λ p : string * (NetworkConfig * option Registry), (p.2.1, default (registry_new (uuid p.1)) p.2.2)) <$> bt_iter s.

(** ** The database keeps the contract *)

Lemma wire_back cfg o : config_to_wire cfg = Some o → config_from_wire (wire_read o) = Some (stored_form cfg).
Proof.
  unfold config_to_wire, stored_form. destruct (ipv4_cidr cfg) as [v4|]; [|done]. by intros [= <-].
Qed.

Lemma config_to_wire_none cfg : config_to_wire cfg = None ↔ ipv4_cidr cfg = None.
Proof. unfold config_to_wire. by destruct (ipv4_cidr cfg). Qed.

Lemma Forall2_both {A B} (R : A → B → Prop) (P : A → Prop) (Q : B → Prop) l k :
  Forall2 R l k → Forall P l → Forall Q k → Forall2 (λ x y, R x y ∧ P x ∧ Q y) l k.
Proof. induction 1; intros HP HQ; inv HP; inv HQ; constructor; auto. Qed.

Lemma sorted_keys {A} (l : list (string * A)) : StronglySorted (lt_key fst) l → StronglySorted (lt_key id) l.*1.
Proof. induction 1 as [|x l _ IH Hx]; cbn; constructor; [done|]. by apply Forall_fmap. Qed.

(** Two maps with the same keys list them in the same order. *)
Lemma bt_iter_zip {A B} (m1 : gmap string A) (m2 : gmap string B) : (∀ k, is_Some (m1 !! k) ↔ is_Some (m2 !! k)) →
  Forall2 (λ p q, p.1 = q.1 ∧ m1 !! p.1 = Some p.2 ∧ m2 !! q.1 = Some q.2) (bt_iter m1) (bt_iter m2).
Proof.
  intros H. apply Forall2_both.
  - apply (Forall2_fmap_1 fst fst eq), list_eq_Forall2.
    apply (lt_sorted_ext id); [apply sorted_keys, bt_iter_sorted..|]. intros k. fold (bt_keys m1) (bt_keys m2). by rewrite !elem_of_bt_keys.
  - apply Forall_forall. intros [k v] Hp. by apply elem_of_bt_iter in Hp.
  - apply Forall_forall. intros [k v] Hp. by apply elem_of_bt_iter in Hp.
Qed.

Section refinement.
Context `{D : SqliteOps, C : !StoreCodecLaws, W : !SqliteLaws}.

Definition row_holds (n r : option (Json * Z)) (o : option (NetworkConfig * option Registry)) : Prop :=
  match o with
  | None => n = None ∧ r = None
  | Some (cfg, reg) =>
      (∃ out now, n = Some (json_config out, now) ∧ config_from_wire (wire_read out) = Some cfg) ∧
      match reg with None => r = None | Some g => ∃ now, r = Some (json_registry g, now) end
  end.

(** The tables hold the store. *)
Definition holds_store (t : DbTables) (s : Store) : Prop := ∀ id, row_holds (tb_networks t !! id) (tb_registries t !! id) (s !! id).

Lemma holds_network t s id : holds_store t s → is_Some (tb_networks t !! id) ↔ is_Some (s !! id).
Proof.
  intros H. specialize (H id). unfold row_holds in H. destruct (s !! id) as [[cfg reg]|].
  - destruct H as [(out & now & -> & _) _]. split; eauto.
  - destruct H as [-> _]. split; by intros [? ?].
Qed.

Lemma holds_upsert_network t s cfg out now : holds_store t s → config_to_wire cfg = Some out →
  holds_store (mkDbTables (<[nc_network_id cfg := (json_config out, now)]> (tb_networks t)) (tb_registries t)) (store_network cfg s).
Proof.
  intros H Ho id. specialize (H id) as Hid. unfold store_network. cbn [tb_networks tb_registries].
  destruct (decide (id = nc_network_id cfg)) as [->|Hne]; [|by rewrite !lookup_insert_ne].
  rewrite !lookup_insert_eq. split; [exists out, now; split; [done|by apply wire_back]|].
  destruct (s !! nc_network_id cfg) as [[cfg0 reg]|]; cbn in *; [exact (proj2 Hid)|exact (proj2 Hid)].
Qed.

Lemma holds_upsert_registry t s id reg now : holds_store t s → is_Some (tb_networks t !! id) →
  holds_store (mkDbTables (tb_networks t) (<[id := (json_registry reg, now)]> (tb_registries t))) (store_registry id reg s).
Proof.
  intros H Hn i. specialize (H i) as Hi. unfold store_registry. cbn [tb_networks tb_registries].
  destruct (decide (i = id)) as [->|Hne]; [|by rewrite lookup_insert_ne, lookup_alter_ne].
  rewrite lookup_insert_eq, lookup_alter_eq. destruct (proj1 (holds_network _ _ _ H) Hn) as [[cfg0 r0] Hs]. rewrite Hs in Hi |- *.
  split; [exact (proj1 Hi)|]. cbn. by exists now.
Qed.

Lemma holds_delete t s id : holds_store t s → holds_store (mkDbTables (delete id (tb_networks t)) (delete id (tb_registries t))) (delete id s).
Proof.
  intros H i. cbn [tb_networks tb_registries].
  destruct (decide (i = id)) as [->|Hne]; [by rewrite !lookup_delete_eq|]. rewrite !lookup_delete_ne by done. apply H.
Qed.

Lemma store_both_split s cfg reg : store_both s (cfg, reg) = store_registry (nc_network_id cfg) reg (store_network cfg s).
Proof.
  unfold store_both, store_registry, store_network. cbn. apply map_eq. intros i.
  destruct (decide (i = nc_network_id cfg)) as [->|]; [by rewrite lookup_insert_eq, lookup_alter_eq, lookup_insert_eq|].
  by rewrite lookup_alter_ne, !lookup_insert_ne.
Qed.

Lemma network_rows_some nets rows : network_rows nets = Some rows →
  Forall2 (λ p r, ∃ out, config_to_wire p.1 = Some out ∧ r = (nc_network_id p.1, json_config out, json_registry p.2)) nets rows.
Proof.
  revert rows. induction nets as [|[cfg reg] nets IH]; intros rows; cbn; [by intros [= <-]|].
  unfold config_row. destruct (config_to_wire cfg) as [out|] eqn:Ho; [|done]. cbn. destruct (network_rows nets) as [rs|]; [|done].
  intros [= <-]. constructor; [|by apply IH]. cbn. eauto.
Qed.

Lemma network_rows_none nets : network_rows nets = None → ∃ p, p ∈ nets ∧ ipv4_cidr p.1 = None.
Proof.
  induction nets as [|[cfg reg] nets IH]; cbn; [done|]. unfold config_row. destruct (config_to_wire cfg) as [out|] eqn:Ho; cbn.
  - destruct (network_rows nets); [done|]. intros _. destruct IH as (p & Hp & Hv); [done|]. exists p. split; [by right|done].
  - intros _. apply config_to_wire_none in Ho. exists (cfg, reg). split; [by left|done].
Qed.

(** Inside a transaction: all rows, in order, or an error with nothing durable. *)
Lemma execute_rows_tx nets rows now c s c' ok : sq_in_tx c → holds_store (sq_view c) s → network_rows nets = Some rows →
  execute_rows rows now c = (c', ok) →
  sq_durable c' = sq_durable c ∧ (ok = true → sq_in_tx c' ∧ holds_store (sq_view c') (foldl store_both s nets)).
Proof.
  intros Ht Hs Hr%network_rows_some. revert c s Ht Hs.
  induction Hr as [|[cfg reg] r nets rows (out & Ho & ->) _ IH]; intros c s Ht Hs; cbn [execute_rows foldl]; [by intros [= <- <-]|].
  pose proof (execute_tx (UpsertNetwork (nc_network_id cfg) (json_config out) now) c Ht) as H1. cbn [fst snd].
  destruct (sq_execute _ c) as [c1 [k1|]]; [|intros [= <- <-]; by split]. destruct H1 as (Ht1 & Hd1 & [= Hv1 _]).
  pose proof (execute_tx (UpsertRegistry (nc_network_id cfg) (json_registry reg) now) c1 Ht1) as H2.
  destruct (sq_execute _ c1) as [c2 [k2|]]; [|intros [= <- <-]; split; [congruence|done]]. destruct H2 as (Ht2 & Hd2 & Hv2).
  cbn in Hv2. case_bool_decide as Hn; [|done]. injection Hv2 as Hv2 _. intros He. apply (IH c2 (store_both s (cfg, reg))) in He as [Hd He].
  - split; [congruence|done].
  - done.
  - rewrite store_both_split, <- Hv2. apply holds_upsert_registry; [|done]. rewrite <- Hv1. by apply holds_upsert_network.
Qed.

(** Between operations nothing is pending. *)
Definition settled (c : Conn) (s : Store) : Prop := ¬ sq_in_tx c ∧ sq_view c = sq_durable c ∧ holds_store (sq_durable c) s.

Lemma save_networks_refines nets now c s c' a : settled c s → db_save_networks nets now c = (c', a) →
  match a with
  | Done _ => settled c' (foldl store_both s nets)
  | Failed => settled c' s
  | Unwound => settled c' s ∧ ∃ p, p ∈ nets ∧ ipv4_cidr p.1 = None
  end.
Proof.
  intros (Ht & Hv & Hs). unfold db_save_networks. destruct (network_rows nets) as [rows|] eqn:Hr;
    [|intros [= <- <-]; split; [by split_and!|by apply network_rows_none]].
  pose proof (begin_law c) as Hb. destruct (sq_begin c) as [c1 []]; [|intros [= <- <-]; destruct (Hb Ht) as (? & Hv1 & Hd1); unfold settled; rewrite Hv1, Hd1; by split_and!].
  destruct Hb as (Ht1 & Hv1 & Hd1). destruct (execute_rows rows now c1) as [c2 ok] eqn:He.
  assert (holds_store (sq_view c1) s) as Hs1 by by rewrite Hv1, Hv.
  destruct (execute_rows_tx _ _ _ _ _ _ _ Ht1 Hs1 Hr He) as [Hd2 Hok].
  assert (∀ x, sq_durable x = sq_durable c → settled (sq_rollback x) s) as Hback.
  { intros x Hx. destruct (rollback_law x) as (? & ? & Hy). unfold settled. split_and!; [done|done|]. by rewrite Hy, Hx. }
  destruct ok; [|intros [= <- <-]; apply Hback; congruence]. destruct (Hok eq_refl) as [Ht2 Hs2].
  pose proof (commit_law c2 Ht2) as Hc. destruct (sq_commit c2) as [c3 []]; [|intros [= <- <-]; apply Hback; congruence].
  intros [= <- <-]. destruct Hc as (? & Hv3 & Hd3). unfold settled. rewrite Hv3, Hd3. by split_and!.
Qed.

Lemma db_run_refines op c s c' a : settled c s → db_run op c = (c', a) → settled c' (store_runs [op] [a] s) ∧ answer_allowed op s a.
Proof.
  intros Hset. pose proof Hset as (Ht & Hv & Hs). destruct op as [cfg now|id reg now|nets now|id|]; cbn [db_run].
  - unfold db_save_network, config_row. destruct (config_to_wire cfg) as [out|] eqn:Ho; cbn.
    + pose proof (execute_auto (UpsertNetwork (nc_network_id cfg) (json_config out) now) c Ht Hv) as H.
      destruct (sq_execute _ c) as [c1 [k|]]; destruct H as (Ht1 & Hv1 & He); intros [= <- <-]; cbn.
      * injection He as He _. split; [|done]. split_and!; [done|done|]. rewrite <- He. by apply holds_upsert_network.
      * split; [|done]. split_and!; [done|done|by rewrite He].
    + intros [= <- <-]. split; [done|]. by apply config_to_wire_none.
  - unfold db_save_registry. pose proof (execute_auto (UpsertRegistry id (json_registry reg) now) c Ht Hv) as H.
    destruct (sq_execute _ c) as [c1 [k|]]; destruct H as (Ht1 & Hv1 & He); intros [= <- <-]; cbn.
    + cbn in He. case_bool_decide as Hn; [|done]. injection He as He _. split; [|by apply (holds_network _ _ _ Hs)].
      split_and!; [done|done|]. rewrite <- He. by apply holds_upsert_registry.
    + split; [|done]. split_and!; [done|done|by rewrite He].
  - destruct (db_save_networks nets now c) as [c1 a1] eqn:Hd. apply (save_networks_refines _ _ _ s) in Hd; [|done].
    destruct a1; intros [= <- <-]; cbn; [by split|by split|exact Hd].
  - unfold db_delete_network. pose proof (execute_auto (DeleteNetwork id) c Ht Hv) as H.
    destruct (sq_execute _ c) as [c1 [k|]]; destruct H as (Ht1 & Hv1 & He); intros [= <- <-]; cbn.
    + injection He as He Hk. split; [split_and!; [done|done|rewrite <- He; by apply holds_delete]|].
      pose proof (holds_network _ _ id Hs) as Hn. rewrite <- Hk.
      destruct (tb_networks _ !! id), (s !! id); try done; exfalso; [destruct (proj1 Hn)|destruct (proj2 Hn)]; eauto; done.
    + split; [|done]. split_and!; [done|done|by rewrite He].
  - intros [= <- <-]. destruct (reopen_law c) as (? & ? & Hd). split; [|done]. cbn. unfold settled. split_and!; [done|done|]. by rewrite Hd.
Qed.

Lemma db_runs_refines ops c s c' answers : settled c s → db_runs ops c = (c', answers) →
  settled c' (store_runs ops answers s) ∧ answers_allowed ops answers s.
Proof.
  revert c s c' answers. induction ops as [|op ops IH]; intros c s c' answers Hs; cbn [db_runs]; [by intros [= <- <-]|].
  destruct (db_run op c) as [c1 a] eqn:Ho. destruct (db_runs ops c1) as [c2 r] eqn:Hr. intros [= <- <-].
  apply (db_run_refines _ _ s) in Ho as [Hs1 Ha]; [|done]. apply (IH _ _ _ _ Hs1) in Hr as [Hs2 Har].
  split; [|by split]. by destruct a.
Qed.

(** ** Reading back *)

Lemma load_rows_all uuid rows out : Forall2 (λ r p, load_row uuid r = Some p) rows out → load_rows uuid rows = Some out.
Proof. induction 1 as [|r p rows out Hr _ IH]; cbn; [done|]. by rewrite Hr, IH. Qed.

Lemma row_loads uuid t s id j cfg reg : holds_store t s → s !! id = Some (cfg, reg) → fst <$> tb_networks t !! id = Some j →
  load_row uuid (id, j, fst <$> tb_registries t !! id) = Some (cfg, default (registry_new (uuid id)) reg).
Proof.
  intros H Hs Hj. specialize (H id). rewrite Hs in H. destruct H as [(out & now & Hn & Hw) Hr]. rewrite Hn in Hj. injection Hj as <-.
  unfold load_row. cbn [fst snd]. rewrite parse_json_config. cbn [mbind option_bind]. rewrite Hw. cbn [mbind option_bind].
  destruct reg as [g|]; [destruct Hr as (now' & ->); cbn; by rewrite parse_json_registry|by rewrite Hr].
Qed.

Lemma load_all_rows uuid c s : settled c s → db_load_all uuid c = (λ _, store_all uuid s) <$> sq_select_all c.
Proof.
  intros (_ & Hv & Hs). unfold db_load_all. destruct (sq_select_all c) as [rows|] eqn:Hr; [|done]. apply select_all_law in Hr as ->. cbn.
  apply load_rows_all. unfold join_rows, store_all. apply Forall2_fmap. eapply Forall2_impl; [apply bt_iter_zip|].
  - intros k. rewrite Hv. by apply holds_network.
  - intros [k [j now]] [k' [cfg reg]] (He & Hj & Hk). cbn in *. subst k'. apply (row_loads _ _ s); [by rewrite Hv|done|by rewrite Hj].
Qed.

Lemma load_registry_row id c s : settled c s → db_load_registry id c = (λ _, s !! id ≫= snd) <$> sq_select_registry id c.
Proof.
  intros (_ & Hv & Hs). unfold db_load_registry. destruct (sq_select_registry id c) as [j|] eqn:Hj; [|done].
  apply select_registry_law in Hj as ->. rewrite Hv. specialize (Hs id). unfold row_holds in Hs. destruct (s !! id) as [[cfg reg]|]; cbn.
  - destruct reg as [g|]; [destruct Hs as [_ (now & ->)]; cbn; by rewrite parse_json_registry|by destruct Hs as [_ ->]].
  - by destruct Hs as [_ ->].
Qed.
End refinement.

(** C11: The database is the map it is meant to be. Through any sequence of
    operations from a database that holds a store, each of which may fail, and any
    number of restarts and crashes between them, the answers are those the contract
    allows, and what is read afterwards is exactly what the operations that
    answered made of the store: each configuration as last saved (in its stored
    form), its registry as last saved or a new one, in the order of the ids; an
    operation that failed or panicked, an import of several networks included, has
    done nothing. A read fails only where SQLite does. *)
Theorem store_refines `{D : SqliteOps, C : !StoreCodecLaws, W : !SqliteLaws} ops c s c' answers (Hs : settled c s)
    (Hr : db_runs ops c = (c', answers)) :
  let s' := store_runs ops answers s in
  answers_allowed ops answers s ∧
  (∀ uuid, db_load_all uuid c' = (λ _, store_all uuid s') <$> sq_select_all c') ∧
  (∀ id, db_load_registry id c' = (λ _, s' !! id ≫= snd) <$> sq_select_registry id c').
Proof.
  cbn zeta. destruct (db_runs_refines _ _ _ _ _ Hs Hr) as [Hs' Ha]. split_and!; [done|intros; by apply load_all_rows|intros; by apply load_registry_row].
Qed.

(** ** A reference database *)

Module StoreExample.
Definition codec : StoreCodec := {|
  Json := (ConfigOut + Registry)%type;
  json_config := inl;
  parse_config j := match j with inl o => Some (wire_read o) | inr _ => None end;
  json_registry := inr;
  parse_registry j := match j with inl _ => None | inr r => Some r end;
|}.
#[export] Existing Instance codec.

Lemma codec_laws : StoreCodecLaws.
Proof. by split. Qed.
#[export] Existing Instance codec_laws.

(** A file, what the open transaction sees, and which of the next calls fail. *)
Record RefConn := mkRefConn { rc_durable : DbTables; rc_view : DbTables; rc_tx : bool; rc_faults : list bool }.

Definition faulty (c : RefConn) : bool := default false (head (rc_faults c)).
Definition called (durable view : DbTables) (tx : bool) (c : RefConn) : RefConn := mkRefConn durable view tx (tail (rc_faults c)).
Definition called_off (c : RefConn) : RefConn := called (rc_durable c) (rc_view c) (rc_tx c) c.

Definition sqlite : SqliteOps := {|
  Conn := RefConn;
  sq_begin c := if faulty c || rc_tx c then (called_off c, false) else (called (rc_durable c) (rc_view c) true c, true);
  sq_execute st c :=
    if faulty c then (called_off c, None) else
    match stmt_effect st (rc_view c) with
    | None => (called_off c, None)
    | Some (t, k) => (called (if rc_tx c then rc_durable c else t) t (rc_tx c) c, Some k)
    end;
  sq_commit c := if faulty c then (called_off c, false) else (called (rc_view c) (rc_view c) false c, true);
  sq_rollback c := mkRefConn (rc_durable c) (rc_durable c) false (rc_faults c);
  sq_select_all c := if faulty c then None else Some (join_rows (rc_view c));
  sq_select_registry id c := if faulty c then None else Some (fst <$> tb_registries (rc_view c) !! id);
  sq_reopen c := mkRefConn (rc_durable c) (rc_durable c) false (rc_faults c);
|}.
#[export] Existing Instance sqlite.

#[program] Definition sqlite_laws : SqliteLaws := {|
  sq_durable := rc_durable; sq_view := rc_view; sq_in_tx c := rc_tx c = true;
|}.
Next Obligation. intros [d v [] [|[] f]]; cbn; first [by split_and!|intros Hn; first [by destruct Hn|by split_and!]]. Qed.
Next Obligation. intros st [d v [] f]; cbn; [done|]. intros _ ->. destruct (faulty _); [by split_and!|]. by destruct (stmt_effect st d) as [[t k]|]. Qed.
Next Obligation. intros st [d v [] f]; cbn; [|done]. intros _. destruct (faulty _); [done|]. by destruct (stmt_effect st v) as [[t k]|]. Qed.
Next Obligation. intros [d v [] f]; cbn; [|done]. intros _. destruct (faulty _); [done|]. by split_and!. Qed.
Next Obligation. intros [d v tx f]; cbn. by split_and!. Qed.
Next Obligation. intros c rows. cbn. destruct (faulty c); [done|]. by intros [= <-]. Qed.
Next Obligation. intros c id j. cbn. destruct (faulty c); [done|]. by intros [= <-]. Qed.
Next Obligation. intros [d v tx f]; cbn. by split_and!. Qed.
#[export] Existing Instance sqlite_laws.

Definition empty : RefConn := mkRefConn (mkDbTables ∅ ∅) (mkDbTables ∅ ∅) false [].
(** The fourth call, inside an import of two networks, fails. *)
Definition shaky : RefConn := mkRefConn (mkDbTables ∅ ∅) (mkDbTables ∅ ∅) false [false; false; false; true].
Definition net (id : string) : NetworkConfig :=
  mkNetworkConfig id [Net6 (2 ^ 120) 64; Net4 (10 * 2 ^ 24) 16] settings_default ∅
    {["c"%string := mkMemberCfg (Some "s"%string) None [] None None None (Some "old"%string) None None None]}.
Definition reg (u : string) : Registry := registry_new u.
Definition ops : list DbOp :=
  [OpSaveNetworks [(net "b", reg "ub"); (net "a", reg "ua")] 5; OpSaveNetworks [(net "b", reg "ub")] 6; OpSaveNetwork (net "a") 7;
   OpSaveRegistry "z" (reg "uz") 8; OpReopen; OpDelete "b"; OpDelete "b"].

Lemma empty_settled f : settled (mkRefConn (mkDbTables ∅ ∅) (mkDbTables ∅ ∅) false f) ∅.
Proof. split_and!; [done|done|]. intros id. by rewrite !lookup_empty. Qed.
End StoreExample.

(** An import fails half way through its transaction: nothing of it is there; then
    each operation answers, the registry without a network apart. *)
Lemma store_refines_witness :
  (db_runs (D := StoreExample.sqlite) StoreExample.ops StoreExample.shaky).2 = [Failed; Done true; Done true; Failed; Done true; Done true; Done false] ∧
  db_load_all (D := StoreExample.sqlite) (λ _, "fresh"%string) (db_runs (D := StoreExample.sqlite) StoreExample.ops StoreExample.shaky).1 =
    Some [(stored_form (StoreExample.net "a"), registry_new "fresh")].
Proof.
  split; [vm_compute; reflexivity|].
  destruct (store_refines (D := StoreExample.sqlite) (C := StoreExample.codec_laws) (W := StoreExample.sqlite_laws) StoreExample.ops StoreExample.shaky ∅ _ _ (StoreExample.empty_settled _) (surjective_pairing _)) as (_ & Hl & _).
  rewrite Hl. vm_compute. reflexivity.
Defined.
