(* ===== verification/Restart.v ===== *)
(** * A coordinator that starts again (crates/nqvpn-coord/src/main.rs)

    What the next process makes of the database the previous one left: [run] loads
    every network and serves it with [AppState::add_network]. The previous one is a
    run of operations beside its database: each operation on a network is what it
    does under the network's lock, and the answers it was given are those the
    database gave to the calls it made, in their order. An operation that found its
    network before the network was deleted, and got its lock after, is a step of
    its own. *)

From S2P Require Import Prelude Ordered Ipnet Text Control Replay Seal Credential Config Registry Leases Directory Ipam NetState RateLimit Join Validate.
From S2P Require Import Frame Tables RelayNet Admin Coordinator Store.

Section restart.
Context `{O : IpNetOps, Q : MpscOps, L : CredLib, B : Base64, !JoinLib L}.
Context (enc : Snapshot → list Z) (resolve_host : string → Z → list IpAddr).

(** [NetState::new] reads the clocks, per network. *)
Definition add_network (clock : string → Z * Z) (a : AppState) (p : NetworkConfig * Registry) : AppState :=
  let id := nc_network_id p.1 in
  as_set_net id (ns_announce (ns_new enc p.1 p.2 (clock id).1 (clock id).2)) a.

(** The loop of [run]. *)
Definition serve_loaded (clock : string → Z * Z) (pairs : list (NetworkConfig * Registry)) (a : AppState) : AppState :=
  foldl (add_network clock) a pairs.

(** ** The calls an operation makes to the database

    In order, each with the answer the operation was given: whether it was done. *)

Abbreviation Saves := (list (DbOp * bool)).

(** [NetState::commit] *)
Definition commit_saves (n : NetState) (now : Z) (ok : bool) : Saves :=
  [(OpSaveRegistry (nc_network_id (ns_cfg n)) (ns_registry n) now, ok)].

(** [NetState::publish]: the generation mark, when it moves. *)
Definition publish_saves (keys : list KeyInfo) (now now_ms : Z) (ok : bool) (n : NetState) : Saves :=
  match recompute enc (ns_directory n) (ns_cfg n) (ns_registry n) (ns_leases n) keys now now_ms with
  | (_, None) => []
  | (d, Some _) =>
      let '(reg, save) := note_gen (ns_registry n) (dir_gen d) in
      if save then [(OpSaveRegistry (nc_network_id (ns_cfg n)) reg now, ok)] else []
  end.

Definition admin_publish_saves (keys : list KeyInfo) (e : AdminEnv) (n : NetState) : Saves :=
  publish_saves keys (ae_now e) (ae_now_ms e) (ae_mark_ok e) n.

(** [save_config], and what follows if it was done. *)
Definition config_saves (n : NetState) (e : AdminEnv) (rest : Saves) : Saves :=
  (OpSaveNetwork (ns_cfg n) (ae_now e), ae_cfg_ok e) :: if ae_cfg_ok e then rest else [].

(** [commit], and what follows if it was done. *)
Definition commit_then (n : NetState) (now : Z) (ok : bool) (rest : Saves) : Saves := commit_saves n now ok ++ if ok then rest else [].

Definition update_network_saves (keys : list KeyInfo) (n : NetState) (hosts : HostCache) (spec : NetworkSpec) (e : AdminEnv) : Saves :=
  match check_change resolve_host (cfg_set_space (spec_cidrs spec) (nsp_settings spec) (ns_cfg n)) hosts (ns_registry n) with
  | Err _ => []
  | Ok cfg =>
      let everyone := everyone_must_rejoin (ns_cfg n) cfg in
      let n := ns_set_cfg cfg n in
      config_saves n e
        (let n := ns_set_directory (dir_set_hold_down (sc_hold_down_secs (nc_settings cfg)) (ns_directory n)) n in
         admin_publish_saves keys e (if everyone then (reconfigure_all n "network settings changed").1 else n))
  end.

Definition create_member_saves (n : NetState) (hosts : HostCache) (name : string) (role : Role) (spec : MemberSpec) (secret : string)
    (e : AdminEnv) : Saves :=
  match member_by_name (ns_cfg n) name with
  | Some _ => []
  | None =>
      match check_change resolve_host (insert_member name role (set_secret secret (spec_apply spec member_cfg_default)) (ns_cfg n)) hosts (ns_registry n) with
      | Err _ => []
      | Ok cfg => config_saves (ns_set_cfg cfg n) e []
      end
  end.

Definition update_member_saves (keys : list KeyInfo) (n : NetState) (hosts : HostCache) (name : string) (spec : MemberSpec) (e : AdminEnv) : Saves :=
  match member_by_name (ns_cfg n) name with
  | None => []
  | Some _ =>
      match check_change resolve_host (alter_member (spec_apply spec) name (ns_cfg n)) hosts (ns_registry n) with
      | Err _ => []
      | Ok cfg =>
          let changed := changed_members (ns_cfg n) cfg in
          let n := ns_set_cfg cfg n in
          config_saves n e (admin_publish_saves keys e (foldl (reconfigure_named "configuration changed") n changed))
      end
  end.

Definition rotate_member_saves (keys : list KeyInfo) (n : NetState) (name secret : string) (e : AdminEnv) : Saves :=
  match member_by_name (ns_cfg n) name with
  | None => []
  | Some _ =>
      let n := ns_set_cfg (alter_member (set_secret secret) name (ns_cfg n)) n in
      config_saves n e
        match id_of (ns_registry n) name with
        | None => []
        | Some node =>
            let reg := set_members (alter (retire_record (ae_now e) "secret rotated") node (rg_members (ns_registry n))) (ns_registry n) in
            let n := ns_set_registry reg (ns_disk n) n in
            commit_then n (ae_now e) (ae_save_ok e)
              (admin_publish_saves keys e (close_session (commit_registry n true true).1 node "secret rotated"))
        end
  end.

Definition forget_member_saves (keys : list KeyInfo) (n : NetState) (name : string) (e : AdminEnv) : Saves :=
  let '(cfg, in_cfg) := remove_member name (ns_cfg n) in
  let n := ns_set_cfg cfg n in
  let node := id_of (ns_registry n) name in
  if negb in_cfg && negb (opt_some node) then [] else
  config_saves n e
    match node with
    | None => admin_publish_saves keys e n
    | Some node =>
        let n := ns_set_registry (delete_member node (ns_registry n)) (ns_disk n) n in
        commit_then n (ae_now e) (ae_save_ok e)
          (let n := close_session (commit_registry n true true).1 node "member deleted" in
           let n := ns_set_leases (remove_relay (ns_leases n) node) n in
           let d := ns_directory n in
           admin_publish_saves keys e
             (ns_set_directory (dir_set_mtu (delete node (dir_reported_mtu d)) (dir_set_traffic (delete node (dir_traffic d)) d)) n))
    end.

Definition set_disabled_saves (keys : list KeyInfo) (n : NetState) (name : string) (disabled : bool) (e : AdminEnv) : Saves :=
  match id_of (ns_registry n) name with
  | None => []
  | Some node =>
      match rg_members (ns_registry n) !! node with
      | None => []
      | Some rec =>
          let reg := set_members (<[node := set_record_disabled disabled rec]> (rg_members (ns_registry n))) (ns_registry n) in
          let n := ns_set_registry reg (ns_disk n) n in
          commit_then n (ae_now e) (ae_save_ok e)
            (let n := (commit_registry n true true).1 in
             admin_publish_saves keys e
               (if disabled
                then let n := close_session n node "member disabled" in
                     ns_set_leases (match mr_role rec with Relay => remove_relay | Client => remove end (ns_leases n) node) n
                else n))
      end
  end.

(** A join, under the network's lock. *)
Definition join_saves (n : NetState) (k : Keyring) (name : string) (req : JoinRequest) (peer_ip : string) (e : JoinEnv) : Saves :=
  match join_check n name req peer_ip with
  | Err _ => []
  | Ok (m, role, relay_addr) =>
      match join_addresses n m name e with
      | (_, Err _) => []
      | (reg, Ok g) =>
          let replaced := is_replaced (by_name (ns_registry n) name) req in
          let '(reg, rec) := join_update n reg name m role relay_addr g req peer_ip (je_now e) in
          commit_then (ns_set_registry reg (ns_disk n) n) (je_now e) (je_save_ok e)
            (publish_saves (key_infos k) (je_now e) (je_now_ms e) (je_mark_ok e) (join_committed n reg rec replaced peer_ip))
      end
  end.

Definition create_network_saves (c : Coord) (spec : NetworkSpec) (uuid : string) (e : AdminEnv) : Saves :=
  match valid_name (nsp_network_id spec) with
  | Err _ => []
  | Ok _ =>
      match validate_network resolve_host (mkNetworkConfig (nsp_network_id spec) (spec_cidrs spec) (nsp_settings spec) ∅ ∅) with
      | (_, Err _) => []
      | (cfg, Ok _) =>
          if bool_decide (is_Some (as_networks (co_app c) !! nsp_network_id spec)) then [] else
          [(OpSaveNetworks [(cfg, registry_new uuid)] (ae_now e), ae_cfg_ok e)]
      end
  end.

Definition delete_network_saves (c : Coord) (id : string) (e : AdminEnv) : Saves :=
  match as_networks (co_app c) !! id with None => [] | Some _ => [(OpDelete id, ae_cfg_ok e)] end.

(** A running network as an import leaves it, before it is published. *)
Definition import_ready (p : NetworkConfig * Registry) (n : NetState) : NetState :=
  let '(cfg, reg) := p in
  let retire := omap (import_retired n cfg) (bt_values (rg_members reg)) in
  let n1 := ns_set_registry reg reg (ns_set_cfg cfg n) in
  let n1 := ns_set_directory (dir_set_hold_down (sc_hold_down_secs (nc_settings cfg)) (ns_directory n1)) n1 in
  let n1 := foldl (λ n p, close_session n p.1 p.2) n1 retire in
  if everyone_must_rejoin (ns_cfg n) cfg then (reconfigure_all n1 "configuration imported").1
  else foldl (reconfigure_named "configuration imported") n1 (changed_members (ns_cfg n) cfg).

Definition import_publishes (c : Coord) (e : AdminEnv) (p : NetworkConfig * Registry) : Saves :=
  match as_networks (co_app c) !! nc_network_id p.1 with
  | Some n => admin_publish_saves (co_keys c) e (import_ready p n)
  | None => []
  end.

Definition import_saves (c : Coord) (cfgs : list NetworkConfig) (ie : ImportEnv) (e : AdminEnv) : Saves :=
  match import_check resolve_host ∅ cfgs with
  | Err _ => []
  | Ok cfgs =>
      let cfgs := sort_by_key nc_network_id cfgs in
      if negb (claim_all ∅ (import_secrets (as_networks (co_app c)) cfgs)) then [] else
      match import_registries (as_networks (co_app c)) ie (ae_now e) cfgs with
      | Err _ => []
      | Ok pairs => (OpSaveNetworks pairs (ae_now e), ae_save_ok e) :: if ae_save_ok e then pairs ≫= import_publishes c e else []
      end
  end.

(** ** Operations under a network's lock *)

(** What an operation holds when it gets the lock; [hosts] was resolved before. *)
Inductive LockedOp :=
| LkUpdateNetwork (hosts : HostCache) (spec : NetworkSpec)
| LkCreateMember (hosts : HostCache) (name : string) (role : Role) (spec : MemberSpec) (secret : string)
| LkUpdateMember (hosts : HostCache) (name : string) (spec : MemberSpec)
| LkRotateMember (name secret : string)
| LkForgetMember (name : string)
| LkSetDisabled (name : string) (disabled : bool).

Definition locked_run (keys : list KeyInfo) (rows : Rows) (n : NetState) (e : AdminEnv) (op : LockedOp) : Rows * NetState :=
  match op with
  | LkUpdateNetwork hosts spec => (update_network_locked enc resolve_host keys rows n hosts spec e).1
  | LkCreateMember hosts name role spec secret => (create_member_locked resolve_host rows n hosts name role spec secret e).1
  | LkUpdateMember hosts name spec => (update_member_locked enc resolve_host keys rows n hosts name spec e).1
  | LkRotateMember name secret => (rotate_member_locked enc keys rows n name secret e).1
  | LkForgetMember name => (forget_member_locked enc keys rows n name e).1
  | LkSetDisabled name disabled => (set_disabled_locked enc keys rows n name disabled e).1
  end.

Definition locked_saves (keys : list KeyInfo) (n : NetState) (e : AdminEnv) (op : LockedOp) : Saves :=
  match op with
  | LkUpdateNetwork hosts spec => update_network_saves keys n hosts spec e
  | LkCreateMember hosts name role spec secret => create_member_saves n hosts name role spec secret e
  | LkUpdateMember hosts name spec => update_member_saves keys n hosts name spec e
  | LkRotateMember name secret => rotate_member_saves keys n name secret e
  | LkForgetMember name => forget_member_saves keys n name e
  | LkSetDisabled name disabled => set_disabled_saves keys n name disabled e
  end.

(** ** A run beside its database *)

(** A configuration that is in force was not saved. *)
Definition unsaved (tr : Saves) : bool := existsb (λ p, match p with (OpSaveNetwork _ _, false) => true | _ => false end) tr.
(** Something was written. *)
Definition wrote (tr : Saves) : bool := existsb snd tr.
Definition mark (b : bool) (id : string) (off : gset string) : gset string := if b then {[id]} ∪ off else off.

Section db.
Context `{D : SqliteOps}.

(** The calls made on the connection; [None] where the database answers
    otherwise, or panics. *)
Fixpoint db_play (tr : Saves) (d : Conn) : option Conn :=
  match tr with
  | [] => Some d
  | (op, ok) :: tr =>
      match db_run op d, ok with
      | (d, Done _), true | (d, Failed), false => db_play tr d
      | _, _ => None
      end
  end.

(** The coordinator and its connection; the networks that were deleted, and those
    of which memory and database need not agree: a configuration in force was not
    saved, or an operation wrote for the network after it was deleted; creating,
    importing or deleting the network settles it. *)
Record Run := mkRun { ru_coord : Coord; ru_db : Conn; ru_gone : gset string; ru_off : gset string }.

Inductive run_step : Run → Run → Prop :=
| rn_locked c d gone off id n e op rows n' d' :
    as_networks (co_app c) !! id = Some n → locked_run (co_keys c) (co_rows c) n e op = (rows, n') →
    db_play (locked_saves (co_keys c) n e op) d = Some d' →
    run_step (mkRun c d gone off) (mkRun (mkCoord (as_set_net id n' (co_app c)) rows) d' gone (mark (unsaved (locked_saves (co_keys c) n e op)) id off))
(* on a network found before it was deleted, whatever has become of it *)
| rn_late c d gone off n e op rows n' d' :
    nc_network_id (ns_cfg n) ∈ gone → locked_run (co_keys c) (co_rows c) n e op = (rows, n') →
    db_play (locked_saves (co_keys c) n e op) d = Some d' →
    run_step (mkRun c d gone off) (mkRun (mkCoord (co_app c) rows) d' gone (mark (wrote (locked_saves (co_keys c) n e op)) (nc_network_id (ns_cfg n)) off))
| rn_late_publish c d gone off n now now_ms ok d' :
    nc_network_id (ns_cfg n) ∈ gone → db_play (publish_saves (co_keys c) now now_ms ok n) d = Some d' →
    run_step (mkRun c d gone off) (mkRun c d' gone (mark (wrote (publish_saves (co_keys c) now now_ms ok n)) (nc_network_id (ns_cfg n)) off))
| rn_join c d gone off id n name req peer je n' out d' :
    as_networks (co_app c) !! id = Some n →
    join_locked enc n (as_keyring (co_app c)) (as_control_port (co_app c)) name req peer je = (n', out) →
    db_play (join_saves n (as_keyring (co_app c)) name req peer je) d = Some d' →
    run_step (mkRun c d gone off) (mkRun (mkCoord (as_set_net id n' (co_app c)) (co_rows c)) d' gone off)
(* the control plane: its sessions and leases, and the view it publishes *)
| rn_quiet c d gone off id n n' :
    as_networks (co_app c) !! id = Some n → ns_face n' = ns_face n → ns_disk n' = ns_disk n →
    run_step (mkRun c d gone off) (mkRun (mkCoord (as_set_net id n' (co_app c)) (co_rows c)) d gone off)
| rn_publish c d gone off id n now now_ms ok d' :
    as_networks (co_app c) !! id = Some n → db_play (publish_saves (co_keys c) now now_ms ok n) d = Some d' →
    run_step (mkRun c d gone off)
      (mkRun (mkCoord (as_set_net id (publish enc n (co_keys c) now now_ms ok) (co_app c)) (co_rows c)) d' gone off)
(* the rate limiter, the keys *)
| rn_app c d gone off a :
    as_networks a = as_networks (co_app c) → run_step (mkRun c d gone off) (mkRun (mkCoord a (co_rows c)) d gone off)
| rn_create c d gone off spec uuid e c' r d' :
    create_network enc resolve_host c spec uuid e = (c', r) → db_play (create_network_saves c spec uuid e) d = Some d' →
    run_step (mkRun c d gone off) (mkRun c' d' gone (match r with Ok _ => off ∖ {[nsp_network_id spec]} | Err _ => off end))
| rn_delete c d gone off id e c' h r d' :
    delete_network c id e = (c', h, r) → db_play (delete_network_saves c id e) d = Some d' →
    run_step (mkRun c d gone off)
      match r with Ok _ => mkRun c' d' ({[id]} ∪ gone) (off ∖ {[id]}) | Err _ => mkRun c' d' gone off end
| rn_import c d gone off cfgs ie e c' r d' :
    import enc resolve_host c cfgs ie e = (c', r) → db_play (import_saves c cfgs ie e) d = Some d' →
    run_step (mkRun c d gone off) (mkRun c' d' gone (match r with Ok ids => off ∖ list_to_set ids | Err _ => off end)).
End db.

(** ** What the calls leave in the database *)

(** The store after the calls that were done. *)
Definition saves_store (tr : Saves) (s : Store) : Store := foldl (λ s p, if p.2 : bool then store_op p.1 s else s) s tr.

Lemma saves_store_app tr tr' s : saves_store (tr ++ tr') s = saves_store tr' (saves_store tr s).
Proof. apply foldl_app. Qed.

(** The calls are about one network. *)
Definition op_on (id : string) (op : DbOp) : Prop :=
  match op with
  | OpSaveNetwork cfg _ => nc_network_id cfg = id
  | OpSaveRegistry i _ _ => i = id
  | _ => False
  end.
Definition saves_on (id : string) (tr : Saves) : Prop := Forall (λ p, op_on id p.1) tr.

Lemma saves_on_other id tr s i : saves_on id tr → i ≠ id → saves_store tr s !! i = s !! i.
Proof.
  intros Ht Hi. revert s. induction Ht as [|[op []] tr Hop _ IH]; intros s; cbn; [done| |apply IH].
  fold (saves_store tr (store_op op s)). rewrite IH. destruct op; cbn in *; try done; subst.
  - unfold store_network. by rewrite lookup_insert_ne.
  - unfold store_registry. by rewrite lookup_alter_ne.
Qed.

Lemma saves_unwritten tr s : wrote tr = false → saves_store tr s = s.
Proof. revert s. induction tr as [|[op []] tr IH]; intros s; cbn; [done|done|apply IH]. Qed.

(** What is stored of a network that is served. *)
Definition stored_of (n : NetState) : NetworkConfig * option Registry := (stored_form (ns_cfg n), Some (ns_disk n)).

(** The calls do to the row of a network what its operation did to the network. *)
Definition tracks (n : NetState) (tr : Saves) (n' : NetState) : Prop :=
  saves_on (nc_network_id (ns_cfg n)) tr ∧ nc_network_id (ns_cfg n') = nc_network_id (ns_cfg n) ∧
  ∀ s, unsaved tr = false → s !! nc_network_id (ns_cfg n) = Some (stored_of n) →
    saves_store tr s !! nc_network_id (ns_cfg n) = Some (stored_of n').

Lemma tracks_app n1 tr n2 tr' n3 : tracks n1 tr n2 → tracks n2 tr' n3 → tracks n1 (tr ++ tr') n3.
Proof.
  intros (Ho & Hi & Hs) (Ho' & Hi' & Hs'). rewrite Hi in Ho', Hi', Hs'. split_and!; [by apply Forall_app|done|].
  intros s Hu Hn. unfold unsaved in Hu. rewrite existsb_app in Hu. apply orb_false_iff in Hu as [Hu Hu'].
  rewrite saves_store_app. by apply Hs', Hs.
Qed.

(** Nothing that is stored changes. *)
Lemma tracks_quiet n n' : ns_cfg n' = ns_cfg n → ns_disk n' = ns_disk n → tracks n [] n'.
Proof. intros Hc Hd. split_and!; [constructor|by rewrite Hc|]. intros s _ Hn. unfold stored_of. by rewrite Hc, Hd. Qed.

Lemma tracks_core n n' : ns_core n' = ns_core n → tracks n [] n'.
Proof. intros [= Hc _ Hd _]. by apply tracks_quiet. Qed.

Lemma tracks_then n tr n1 n2 : tracks n tr n1 → ns_cfg n2 = ns_cfg n1 → ns_disk n2 = ns_disk n1 → tracks n tr n2.
Proof. intros H Hc Hd. rewrite <- (app_nil_r tr). eapply tracks_app; [exact H|by apply tracks_quiet]. Qed.

Lemma tracks_after n n1 tr n2 : ns_cfg n1 = ns_cfg n → ns_disk n1 = ns_disk n → tracks n1 tr n2 → tracks n tr n2.
Proof. intros Hc Hd H. apply (tracks_app n [] n1); [by apply tracks_quiet|done]. Qed.

Lemma tracks_registry n reg now (ok : bool) n' :
  ns_cfg n' = ns_cfg n → ns_disk n' = (if ok then reg else ns_disk n) → tracks n [(OpSaveRegistry (nc_network_id (ns_cfg n)) reg now, ok)] n'.
Proof.
  intros Hc Hd. split_and!; [by repeat constructor|by rewrite Hc|]. intros s _ Hn. unfold stored_of. rewrite Hc, Hd. cbn.
  destruct ok; [|done]. cbn. unfold store_registry. by rewrite lookup_alter_eq, Hn.
Qed.

Lemma tracks_commit n now ok load_ok n' b : commit_registry n ok load_ok = (n', b) → tracks n (commit_saves n now ok) n'.
Proof. unfold commit_registry, commit_saves. destruct ok; intros [= <- <-]; by apply tracks_registry. Qed.

Lemma tracks_publish n keys now now_ms ok : tracks n (publish_saves keys now now_ms ok n) (publish enc n keys now now_ms ok).
Proof.
  unfold publish_saves, publish. cbn [ns_directory ns_cfg ns_registry ns_leases ns_set_publish].
  destruct (recompute _ _ _ _ _ _ _ _) as [d [delta|]]; [|by apply tracks_quiet]. cbn [ns_registry ns_set_directory].
  destruct (note_gen _ _) as [reg []]; cbn [andb]; [by apply tracks_registry; destruct ok|by apply tracks_quiet].
Qed.

Lemma tracks_config n cfg e rest n' : nc_network_id cfg = nc_network_id (ns_cfg n) →
  (ae_cfg_ok e = true → tracks (ns_set_cfg cfg n) rest n') → (ae_cfg_ok e = false → n' = ns_set_cfg cfg n) →
  tracks n (config_saves (ns_set_cfg cfg n) e rest) n'.
Proof.
  intros Hid Hok Hno. unfold config_saves. destruct (ae_cfg_ok e).
  - apply (tracks_app n [_] (ns_set_cfg cfg n)); [|by apply Hok]. split_and!; [by repeat constructor|done|].
    intros s _ Hn. cbn. unfold store_network. by rewrite <- Hid, lookup_insert_eq, Hid, Hn.
  - rewrite (Hno eq_refl). split_and!; [by repeat constructor|done|done].
Qed.

(** A commit that may fail, and what follows if it does not. *)
Lemma tracks_commit_then n now (ok load_ok : bool) rest n1 b n' : commit_registry n ok load_ok = (n1, b) →
  (ok = true → tracks (commit_registry n true true).1 rest n') → (ok = false → n' = n1) → tracks n (commit_then n now ok rest) n'.
Proof.
  intros Hc Hok Hno. unfold commit_then. destruct ok.
  - eapply tracks_app; [|by apply Hok]. eapply (tracks_commit n now true true _ true). done.
  - rewrite (Hno eq_refl), app_nil_r. by eapply tracks_commit.
Qed.

Lemma commit_ok_flag n ok load_ok n' b : commit_registry n ok load_ok = (n', b) → b = ok.
Proof. unfold commit_registry. by destruct ok; intros [= <- <-]. Qed.

Lemma core_publish n n1 keys e : ns_core n1 = ns_core n → tracks n (admin_publish_saves keys e n1) (admin_publish enc keys e n1).
Proof. intros [= Hc _ Hd _]. apply (tracks_after n n1); [exact Hc|exact Hd|]. unfold admin_publish_saves, admin_publish. apply tracks_publish. Qed.

Lemma tracks_edited n reg tr n' : tracks (ns_set_registry reg (ns_disk n) n) tr n' → tracks n tr n'.
Proof. apply tracks_after; [reflexivity|reflexivity]. Qed.

Lemma tracks_announce n tr n' : tracks n tr n' → tracks n tr (ns_announce n').
Proof. intros H. by apply (tracks_then _ _ n'). Qed.

Lemma remove_member_absent name cfg cfg' : remove_member name cfg = (cfg', false) → cfg' = cfg.
Proof.
  unfold remove_member. destruct (nc_clients cfg !! name) eqn:Hc; [done|]. case_bool_decide as Hr; [done|].
  intros [= <-]. rewrite delete_id by by apply eq_None_not_Some. by destruct cfg.
Qed.

Lemma remove_member_id name cfg : nc_network_id (remove_member name cfg).1 = nc_network_id cfg.
Proof. unfold remove_member. by case_match. Qed.

(** ** Each operation is tracked *)

Lemma update_network_tracked keys rows n hosts spec e :
  tracks n (update_network_saves keys n hosts spec e) (update_network_locked enc resolve_host keys rows n hosts spec e).1.2.
Proof.
  unfold update_network_saves, update_network_locked. destruct (check_change _ _ _ _) as [cfg|] eqn:Hc; [|by apply tracks_quiet].
  apply check_change_ok in Hc as ->. cbn zeta. unfold save_config. destruct (ae_cfg_ok e) eqn:Hok; cbn [fst snd].
  - apply tracks_config; [done| |congruence]. intros _. apply core_publish. destruct (everyone_must_rejoin _ _); [|done].
    by rewrite reconfigure_all_core.
  - apply tracks_config; [done|congruence|done].
Qed.

Lemma create_member_tracked rows n hosts name role spec secret e :
  tracks n (create_member_saves n hosts name role spec secret e) (create_member_locked resolve_host rows n hosts name role spec secret e).1.2.
Proof.
  unfold create_member_saves, create_member_locked. destruct (member_by_name _ _); [by apply tracks_quiet|].
  destruct (check_change _ _ _ _) as [cfg|] eqn:Hc; [|by apply tracks_quiet].
  apply check_change_ok in Hc as ->. cbn zeta. unfold save_config.
  destruct (ae_cfg_ok e) eqn:Hok; cbn [fst snd]; (apply tracks_config; [by destruct role| |]).
  - intros _. by apply tracks_quiet.
  - congruence.
  - congruence.
  - done.
Qed.

Lemma update_member_tracked keys rows n hosts name spec e :
  tracks n (update_member_saves keys n hosts name spec e) (update_member_locked enc resolve_host keys rows n hosts name spec e).1.2.
Proof.
  unfold update_member_saves, update_member_locked. destruct (member_by_name _ _); [|by apply tracks_quiet].
  destruct (check_change _ _ _ _) as [cfg|] eqn:Hc; [|by apply tracks_quiet].
  apply check_change_ok in Hc as ->. cbn zeta. unfold save_config. destruct (ae_cfg_ok e) eqn:Hok; cbn [fst snd].
  - apply tracks_config; [apply alter_member_id| |congruence]. intros _. apply tracks_announce, core_publish.
    apply foldl_core. intros. apply reconfigure_named_core.
  - apply tracks_config; [apply alter_member_id|congruence|done].
Qed.

Lemma rotate_member_tracked keys rows n name secret e :
  tracks n (rotate_member_saves keys n name secret e) (rotate_member_locked enc keys rows n name secret e).1.2.
Proof.
  unfold rotate_member_saves, rotate_member_locked, save_config. destruct (member_by_name _ _); [|by apply tracks_quiet].
  cbn zeta. destruct (ae_cfg_ok e) eqn:Hok; [|apply tracks_config; [apply alter_member_id|congruence|done]].
  apply tracks_config; [apply alter_member_id| |congruence]. intros _. destruct (id_of _ _) as [node|]; [|by apply tracks_quiet].
  destruct (commit_registry _ (ae_save_ok e) _) as [n1 b] eqn:Hc. pose proof (commit_ok_flag _ _ _ _ _ Hc) as ->.
  eapply tracks_edited. eapply tracks_commit_then; [exact Hc| |intros Hf; by rewrite Hf]. intros Ht. rewrite Ht in *. injection Hc as <-.
  apply core_publish, close_session_core.
Qed.

Lemma forget_member_tracked keys rows n name e :
  tracks n (forget_member_saves keys n name e) (forget_member_locked enc keys rows n name e).1.2.
Proof.
  unfold forget_member_saves, forget_member_locked, save_config. destruct (remove_member name (ns_cfg n)) as [cfg gone] eqn:Hr.
  pose proof (remove_member_id name (ns_cfg n)) as Hid. rewrite Hr in Hid. cbn zeta. cbn [fst] in Hid.
  destruct (negb gone && _) eqn:Hg.
  { apply andb_true_iff in Hg as [Hg%negb_true_iff _]. subst gone. apply remove_member_absent in Hr as ->. by apply tracks_quiet. }
  destruct (ae_cfg_ok e) eqn:Hok; [|apply tracks_config; [done|congruence|done]].
  apply tracks_config; [done| |congruence]. intros _. destruct (id_of _ _) as [node|]; [|by apply core_publish].
  destruct (commit_registry _ (ae_save_ok e) _) as [n1 b] eqn:Hc. pose proof (commit_ok_flag _ _ _ _ _ Hc) as ->.
  eapply tracks_edited. eapply tracks_commit_then; [exact Hc| |intros Hf; by rewrite Hf]. intros Ht. rewrite Ht in *. injection Hc as <-.
  apply core_publish. apply (close_session_core _ node CTL_CLOSE_EVICTED "member deleted").
Qed.

Lemma set_disabled_tracked keys rows n name b e :
  tracks n (set_disabled_saves keys n name b e) (set_disabled_locked enc keys rows n name b e).1.2.
Proof.
  unfold set_disabled_saves, set_disabled_locked. destruct (id_of _ _) as [node|]; [|by apply tracks_quiet].
  destruct (rg_members _ !! _) as [rec|]; [|by apply tracks_quiet]. cbn zeta.
  destruct (commit_registry _ (ae_save_ok e) _) as [n1 ok] eqn:Hc. pose proof (commit_ok_flag _ _ _ _ _ Hc) as ->.
  eapply tracks_edited. eapply tracks_commit_then; [exact Hc| |intros Hf; by rewrite Hf]. intros Ht. rewrite Ht in *. injection Hc as <-.
  apply core_publish. destruct b; [|done]. apply (close_session_core _ node CTL_CLOSE_EVICTED "member disabled").
Qed.

Lemma locked_tracked keys rows n e op rows' n' : locked_run keys rows n e op = (rows', n') → tracks n (locked_saves keys n e op) n'.
Proof.
  destruct op; cbn [locked_run locked_saves]; intros H; apply (f_equal snd) in H; cbn [snd] in H; subst n';
    [apply update_network_tracked|apply create_member_tracked|apply update_member_tracked|apply rotate_member_tracked|apply forget_member_tracked|apply set_disabled_tracked].
Qed.

Lemma publish_unsaved keys now now_ms ok n : unsaved (publish_saves keys now now_ms ok n) = false.
Proof. unfold publish_saves. destruct (recompute _ _ _ _ _ _ _ _) as [d [delta|]]; [|done]. by destruct (note_gen _ _) as [? []]. Qed.

Lemma join_tracked n k port name req peer je n' out :
  join_locked enc n k port name req peer je = (n', out) → tracks n (join_saves n k name req peer je) n' ∧ unsaved (join_saves n k name req peer je) = false.
Proof.
  unfold join_locked, join_saves. destruct (join_check n name req peer) as [[[m role] ra]|]; [|intros [= <- <-]; split; [by apply tracks_quiet|done]].
  destruct (join_addresses n m name je) as [reg [g|]]; [|intros [= <- <-]; split; [by apply tracks_quiet|done]].
  destruct (join_update _ _ _ _ _ _ _ _ _ _) as [reg' rec]. unfold join_finish.
  destruct (commit_registry _ (je_save_ok je) _) as [n1 b] eqn:Hc. pose proof (commit_ok_flag _ _ _ _ _ Hc) as ->. intros Hj. split.
  - eapply tracks_edited. eapply tracks_commit_then; [exact Hc| |intros Hf; rewrite Hf in Hj; by injection Hj].
    intros Ht. rewrite Ht in *. injection Hc as <-.
    set (x := join_committed n reg' rec (is_replaced (by_name (ns_registry n) name) req) peer) in *.
    assert (n' = publish enc x (key_infos k) (je_now je) (je_now_ms je) (je_mark_ok je)) as -> by (destruct (active k) as [[? ?]|]; by injection Hj).
    destruct (join_committed_frame n reg' rec (is_replaced (by_name (ns_registry n) name) req) peer) as (Fc & _ & _ & Fk).
    eapply tracks_after; [exact Fc|exact Fk|]. apply tracks_publish.
  - unfold commit_then. destruct (je_save_ok je); [apply publish_unsaved|done].
Qed.

(** ** Imports *)

Lemma import_ready_core p n : ns_core (import_ready p n) = (p.1, p.2, p.2, ns_deleted n).
Proof.
  destruct p as [cfg reg]. unfold import_ready.
  destruct (everyone_must_rejoin _ _); [rewrite reconfigure_all_core|rewrite foldl_core by (intros; apply reconfigure_named_core)];
    rewrite foldl_core by (intros; apply close_session_core); done.
Qed.

Lemma import_one_stored c e p s : s !! nc_network_id p.1 = Some (stored_form p.1, Some p.2) →
  let n' := imported_net enc (co_keys c) e p (as_networks (co_app c) !! nc_network_id p.1) in
  saves_on (nc_network_id p.1) (import_publishes c e p) ∧ nc_network_id (ns_cfg n') = nc_network_id p.1 ∧
  saves_store (import_publishes c e p) s !! nc_network_id p.1 = Some (stored_of n').
Proof.
  intros Hs. cbn zeta. unfold import_publishes, imported_net. destruct (as_networks _ !! _) as [n|]; [|split_and!; [constructor|done|exact Hs]].
  assert (import_apply enc (co_keys c) e p.1 p.2 n = admin_publish enc (co_keys c) e (import_ready p n)) as -> by by destruct p.
  pose proof (import_ready_core p n) as [= Hc _ Hd _].
  destruct (core_publish (import_ready p n) (import_ready p n) (co_keys c) e eq_refl) as (H1 & H2 & H3). rewrite Hc in H1, H2, H3.
  split_and!; [done|done|]. apply H3; [unfold admin_publish_saves; apply publish_unsaved|]. unfold stored_of. by rewrite Hc, Hd.
Qed.

Lemma import_all_stored c e pairs s : NoDup ((λ p : NetworkConfig * Registry, nc_network_id p.1) <$> pairs) →
  (∀ p, p ∈ pairs → s !! nc_network_id p.1 = Some (stored_form p.1, Some p.2)) →
  (∀ p, p ∈ pairs → saves_store (pairs ≫= import_publishes c e) s !! nc_network_id p.1 =
     Some (stored_of (imported_net enc (co_keys c) e p (as_networks (co_app c) !! nc_network_id p.1)))) ∧
  (∀ id, id ∉ (λ p : NetworkConfig * Registry, nc_network_id p.1) <$> pairs → saves_store (pairs ≫= import_publishes c e) s !! id = s !! id).
Proof.
  revert s. induction pairs as [|p pairs IH]; intros s Hnd Hs; [by split; [intros p Hp%not_elem_of_nil|]|].
  cbn [fmap list_fmap] in Hnd. apply NoDup_cons in Hnd as [Hp Hnd]. destruct (import_one_stored c e p s (Hs p ltac:(by left))) as (H1 & _ & H3).
  assert (∀ i, i ≠ nc_network_id p.1 → saves_store (import_publishes c e p) s !! i = s !! i) as Ho by (intros; by eapply saves_on_other).
  destruct (IH (saves_store (import_publishes c e p) s) Hnd) as [I1 I2].
  { intros q Hq. rewrite Ho; [apply Hs; by right|]. intros He. apply Hp. rewrite <- He. by apply (list_elem_of_fmap_2 (λ p : NetworkConfig * Registry, nc_network_id p.1)). }
  cbn [mbind list_bind]. rewrite saves_store_app. split.
  - intros q [->|Hq]%elem_of_cons; [by rewrite I2|by apply I1].
  - intros id [Hne Hid]%not_elem_of_cons. by rewrite I2, Ho.
Qed.

Lemma import_tracked c cfgs ie e c' r s : import enc resolve_host c cfgs ie e = (c', r) →
  match r with
  | Err _ => c' = c ∧ saves_store (import_saves c cfgs ie e) s = s
  | Ok ids =>
      (∀ id, id ∉ ids → as_networks (co_app c') !! id = as_networks (co_app c) !! id ∧ saves_store (import_saves c cfgs ie e) s !! id = s !! id) ∧
      (∀ id, id ∈ ids → ∃ n, as_networks (co_app c') !! id = Some n ∧ nc_network_id (ns_cfg n) = id ∧
         saves_store (import_saves c cfgs ie e) s !! id = Some (stored_of n))
  end.
Proof.
  unfold import, import_saves. destruct (import_check _ _ _) as [checked|] eqn:Hc; [|by intros [= <- <-]].
  apply import_check_ok in Hc as (-> & Hnd & _ & _). set (sorted := sort_by_key nc_network_id (normalized <$> cfgs)).
  assert (sorted ≡ₚ normalized <$> cfgs) as Hp by apply sort_by_key_perm.
  destruct (claim_all _ _); [|by intros [= <- <-]].
  destruct (import_registries _ _ _ sorted) as [pairs|] eqn:Hr; [|by intros [= <- <-]]. apply import_registries_ok in Hr as [Hfst _].
  cbn [negb]. destruct (ae_save_ok e); [|by intros [= <- <-]]. cbn [negb]. intros [= <- <-].
  assert ((λ p : NetworkConfig * Registry, nc_network_id p.1) <$> pairs = nc_network_id <$> sorted) as Hk
    by (rewrite <- Hfst, <- list_fmap_compose; done).
  assert (NoDup ((λ p : NetworkConfig * Registry, nc_network_id p.1) <$> pairs)) as Hnd2
    by (rewrite Hk, Hp, <- list_fmap_compose; exact Hnd).
  destruct (foldl_once (λ p : NetworkConfig * Registry, nc_network_id p.1) (imported_net enc (co_keys c) e) pairs (as_networks (co_app c)) Hnd2) as [N1 N2].
  destruct (foldl_once (λ p : NetworkConfig * Registry, nc_network_id p.1) (λ p _, (stored_form p.1, Some p.2)) pairs s Hnd2) as [S1 S2].
  destruct (import_all_stored c e pairs (foldl store_both s pairs) Hnd2 S1) as [I1 I2]. cbn [co_app]. rewrite import_fold, <- Hk.
  split.
  - intros id Hid. split; [by apply N2|]. cbn. fold (saves_store (pairs ≫= import_publishes c e) (foldl store_both s pairs)). rewrite I2 by done. by apply S2.
  - intros id (p & -> & Hin)%list_elem_of_fmap. eexists. split; [by apply N1|]. split; [|exact (I1 p Hin)].
    by apply (import_one_stored c e p (foldl store_both s pairs)), S1.
Qed.

(** ** Memory and database *)

Section coupled.
Context `{D : SqliteOps, C : !StoreCodecLaws, W : !SqliteLaws}.

Lemma db_play_settled tr d s d' : settled d s → db_play tr d = Some d' → settled d' (saves_store tr s).
Proof.
  revert d s. induction tr as [|[op ok] tr IH]; intros d s Hs; cbn; [by intros [= <-]|].
  destruct (db_run op d) as [d1 a] eqn:Hr. apply (db_run_refines _ _ s) in Hr as [Hs1 _]; [|done].
  destruct a, ok; try done; intros Hp; by eapply IH.
Qed.

(** Every network is served under its own id. *)
Definition named (nets : gmap string NetState) : Prop := ∀ id n, nets !! id = Some n → nc_network_id (ns_cfg n) = id.

(** The store is in step with the networks, but for those of [off]. *)
Definition coupled (off : gset string) (nets : gmap string NetState) (s : Store) : Prop :=
  named nets ∧ ∀ id, id ∉ off → s !! id = stored_of <$> nets !! id.

(** So is every row. *)
Definition rows_named (s : Store) : Prop := ∀ id p, s !! id = Some p → nc_network_id p.1 = id.

Definition run_inv (r : Run) : Prop := ∃ s, settled (ru_db r) s ∧ coupled (ru_off r) (as_networks (co_app (ru_coord r))) s ∧ rows_named s.

Lemma store_both_named pairs s : rows_named s → rows_named (foldl store_both s pairs).
Proof.
  revert s. induction pairs as [|p pairs IH]; intros s Hs; cbn; [done|]. apply IH. intros id q. unfold store_both.
  rewrite lookup_insert_Some. intros [[<- <-]|[_ Hq]]; [done|by apply Hs].
Qed.

Lemma saves_rows_named tr s : rows_named s → rows_named (saves_store tr s).
Proof.
  revert s. induction tr as [|[op []] tr IH]; intros s Hs; cbn; [done| |by apply IH]. apply IH. destruct op as [cfg now|id reg now|nets now|id|]; cbn; [..|done].
  - intros i p. unfold store_network. rewrite lookup_insert_Some. intros [[<- <-]|[_ Hp]]; [done|by apply Hs].
  - intros i p. unfold store_registry. rewrite lookup_alter_Some. intros [(<- & q & Hq & ->)|[_ Hp]]; [by apply (Hs _ _ Hq)|by apply Hs].
  - by apply store_both_named.
  - intros i p. rewrite lookup_delete_Some. intros [_ Hp]. by apply Hs.
Qed.

Lemma coupled_tracks off nets s id n tr n' : coupled off nets s → nets !! id = Some n → tracks n tr n' →
  coupled (mark (unsaved tr) id off) (<[id := n']> nets) (saves_store tr s).
Proof.
  intros [Hn Hs] Hid (Ho & Hi & Ht). rewrite (Hn _ _ Hid) in Ho, Hi, Ht. split.
  - intros i x. rewrite lookup_insert_Some. intros [[<- <-]|[_ Hx]]; [done|by apply Hn].
  - intros i Hoff. destruct (decide (i = id)) as [->|Hne].
    + rewrite lookup_insert_eq. unfold mark in Hoff. destruct (unsaved tr) eqn:Hu; [set_solver|]. apply Ht; [done|]. by rewrite Hs, Hid.
    + rewrite lookup_insert_ne, (saves_on_other id) by done. apply Hs. unfold mark in Hoff. case_match; set_solver.
Qed.

(** An operation that came too late: its network is marked if it wrote. *)
Lemma coupled_late off nets s id tr : coupled off nets s → saves_on id tr → coupled (mark (wrote tr) id off) nets (saves_store tr s).
Proof.
  intros [Hn Hs] Ho. split; [done|]. intros i Hoff. unfold mark in Hoff. destruct (wrote tr) eqn:Hw; [|rewrite saves_unwritten by done; by apply Hs].
  rewrite (saves_on_other id) by set_solver. apply Hs. set_solver.
Qed.

Lemma coupled_create c spec uuid e c' r s off : create_network enc resolve_host c spec uuid e = (c', r) → coupled off (as_networks (co_app c)) s →
  coupled (match r with Ok _ => off ∖ {[nsp_network_id spec]} | Err _ => off end) (as_networks (co_app c')) (saves_store (create_network_saves c spec uuid e) s).
Proof.
  unfold create_network, create_network_saves. intros Hc Hs. destruct (valid_name _); [|by injection Hc as <- <-].
  destruct (validate_network resolve_host _) as [cfg [u|]] eqn:Hv; [|by injection Hc as <- <-].
  assert (nc_network_id cfg = nsp_network_id spec) as Hid by (injection Hv as <-; done).
  case_bool_decide; [by injection Hc as <- <-|]. destruct (ae_cfg_ok e); injection Hc as <- <-; [|done]. destruct Hs as [Hn Hs]. split.
  - intros i x. cbn. rewrite lookup_insert_Some. intros [[<- <-]|[_ Hx]]; [done|by apply Hn].
  - intros i Hoff. cbn. unfold store_both. cbn. rewrite Hid. destruct (decide (i = nsp_network_id spec)) as [->|Hne]; [by rewrite !lookup_insert_eq|].
    rewrite !lookup_insert_ne by done. apply Hs. set_solver.
Qed.

Lemma coupled_delete c id e c' h r s off : delete_network c id e = (c', h, r) → coupled off (as_networks (co_app c)) s →
  coupled (match r with Ok _ => off ∖ {[id]} | Err _ => off end) (as_networks (co_app c')) (saves_store (delete_network_saves c id e) s).
Proof.
  unfold delete_network, delete_network_saves. intros Hc Hs. destruct (as_networks _ !! id); [|by injection Hc as <- <- <-].
  destruct (ae_cfg_ok e); injection Hc as <- <- <-; [|done]. destruct Hs as [Hn Hs]. split.
  - intros i x. cbn. rewrite lookup_delete_Some. intros [_ Hx]. by apply Hn.
  - intros i Hoff. cbn. destruct (decide (i = id)) as [->|Hne]; [by rewrite !lookup_delete_eq|]. rewrite !lookup_delete_ne by done. apply Hs. set_solver.
Qed.

Lemma coupled_import c cfgs ie e c' r s off : import enc resolve_host c cfgs ie e = (c', r) → coupled off (as_networks (co_app c)) s →
  coupled (match r with Ok ids => off ∖ list_to_set ids | Err _ => off end) (as_networks (co_app c')) (saves_store (import_saves c cfgs ie e) s).
Proof.
  intros Hc [Hn Hs]. apply (import_tracked _ _ _ _ _ _ s) in Hc. destruct r as [ids|]; [|destruct Hc as [-> ->]; by split].
  destruct Hc as [Hout Hin]. split.
  - intros i x Hx. destruct (decide (i ∈ ids)) as [Hi|Hi]; [|rewrite (proj1 (Hout i Hi)) in Hx; by apply Hn].
    destruct (Hin i Hi) as (y & Hy & Hid & _). rewrite Hx in Hy. by injection Hy as <-.
  - intros i Hoff. destruct (decide (i ∈ ids)) as [Hi|Hi]; [destruct (Hin i Hi) as (y & -> & _ & ->); done|].
    destruct (Hout i Hi) as [He Hse]. rewrite He, Hse. apply Hs. clear -Hoff Hi. set_solver.
Qed.

Lemma run_step_inv r r' : run_step r r' → run_inv r → run_inv r'.
Proof.
  destruct 1 as [c d gone off id n e op rows n' d' Hn Hl Hp|c d gone off n e op rows n' d' _ Hl Hp|c d gone off n now now_ms ok d' _ Hp
    |c d gone off id n name req peer je n' out d' Hn Hj Hp|c d gone off id n n' Hn [= Hc _] Hd|c d gone off id n now now_ms ok d' Hn Hp
    |c d gone off a Ha|c d gone off spec uuid e c' r d' Hc Hp|c d gone off id e c' h r d' Hc Hp|c d gone off cfgs ie e c' r d' Hc Hp];
    intros (s & Hset & Hs & Hrn); cbn in Hset, Hs; try (pose proof (db_play_settled _ _ _ _ Hset Hp) as Hset').
  - eexists; split_and!; [exact Hset'| |by apply saves_rows_named]. cbn. eapply coupled_tracks; [done|done|]. by eapply locked_tracked.
  - eexists; split_and!; [exact Hset'| |by apply saves_rows_named]. cbn. eapply coupled_late; [done|]. by eapply locked_tracked.
  - eexists; split_and!; [exact Hset'| |by apply saves_rows_named]. cbn. eapply coupled_late; [done|]. apply tracks_publish.
  - eexists; split_and!; [exact Hset'| |by apply saves_rows_named]. destruct (join_tracked _ _ _ _ _ _ _ _ _ Hj) as [Ht Hu]. pose proof (coupled_tracks _ _ _ _ _ _ _ Hs Hn Ht) as H.
    rewrite Hu in H. exact H.
  - exists s. split_and!; [done| |done]. exact (coupled_tracks _ _ _ _ _ [] _ Hs Hn (tracks_quiet _ _ Hc Hd)).
  - eexists; split_and!; [exact Hset'| |by apply saves_rows_named]. pose proof (coupled_tracks _ _ _ _ _ _ _ Hs Hn (tracks_publish n (co_keys c) now now_ms ok)) as H.
    rewrite publish_unsaved in H. exact H.
  - exists s. split_and!; [done| |done]. cbn. by rewrite Ha.
  - eexists; split_and!; [exact Hset'| |by apply saves_rows_named]. by eapply coupled_create.
  - exists (saves_store (delete_network_saves c id e) s). pose proof (coupled_delete _ _ _ _ _ _ s off Hc Hs). pose proof (saves_rows_named (delete_network_saves c id e) s Hrn). by destruct r.
  - eexists; split_and!; [exact Hset'| |by apply saves_rows_named]. by eapply coupled_import.
Qed.

Lemma run_steps_inv r r' : rtc run_step r r' → run_inv r → run_inv r'.
Proof. intros Hr Hi. eapply rtc_inv_preserved; [|exact Hi|exact Hr]. intros; by eapply run_step_inv. Qed.
End coupled.

(** ** The networks that are served again *)

Lemma serve_loaded_fold clock pairs a :
  as_networks (serve_loaded clock pairs a) =
  foldl (λ m p, <[nc_network_id p.1 := ns_announce (ns_new enc p.1 p.2 (clock (nc_network_id p.1)).1 (clock (nc_network_id p.1)).2)]> m)
    (as_networks a) pairs.
Proof. revert a. induction pairs as [|p pairs IH]; intros a; cbn; [done|]. apply IH. Qed.

(** A network that starts from what is stored of [n]. *)
Definition served_again (clock : string → Z * Z) (id : string) (n : NetState) : NetState :=
  ns_announce (ns_new enc (stored_form (ns_cfg n)) (ns_disk n) (clock id).1 (clock id).2).

(** The networks that start from a store. *)
Lemma serve_store clock uuid s a id : rows_named s → as_networks a = ∅ →
  as_networks (serve_loaded clock (store_all uuid s) a) !! id =
  (λ p, ns_announce (ns_new enc p.1 (default (registry_new (uuid id)) p.2) (clock id).1 (clock id).2)) <$> s !! id.
Proof.
  intros Hs Ha. rewrite serve_loaded_fold, Ha. unfold store_all.
  set (f := λ p : string * (NetworkConfig * option Registry), (p.2.1, default (registry_new (uuid p.1)) p.2.2)).
  assert (∀ p, p ∈ bt_iter s → nc_network_id (f p).1 = p.1) as Hp by (intros [k [cfg reg]] Hin%elem_of_bt_iter; by apply (Hs _ _ Hin)).
  assert ((λ p : NetworkConfig * Registry, nc_network_id p.1) <$> (f <$> bt_iter s) = bt_keys s) as Hids.
  { rewrite <- list_fmap_compose. apply list_fmap_ext. intros i x Hx%list_elem_of_lookup_2. by apply Hp. }
  destruct (foldl_once (λ p : NetworkConfig * Registry, nc_network_id p.1)
    (λ p _, ns_announce (ns_new enc p.1 p.2 (clock (nc_network_id p.1)).1 (clock (nc_network_id p.1)).2))
    (f <$> bt_iter s) ∅) as [H1 H2]; [rewrite Hids; apply bt_iter_NoDup|]. rewrite Hids in H2.
  destruct (s !! id) as [[cfg reg]|] eqn:Hid; cbn [fmap option_fmap option_map].
  - apply elem_of_bt_iter in Hid as Hin. pose proof (H1 _ (list_elem_of_fmap_2 f _ _ Hin)) as Hl. rewrite (Hp _ Hin) in Hl. exact Hl.
  - rewrite H2; [done|]. rewrite elem_of_bt_keys, Hid. by intros [? ?].
Qed.

(** What is stored is stored as it is. *)
Lemma stored_form_idem cfg : stored_form (stored_form cfg) = stored_form cfg.
Proof.
  assert (ipv4_cidr (stored_form cfg) = ipv4_cidr cfg ∧ ipv6_cidr (stored_form cfg) = ipv6_cidr cfg) as [H4 H6].
  { unfold ipv4_cidr, ipv6_cidr. cbn [stored_form nc_cidrs]. unfold ipv4_cidr, ipv6_cidr.
    destruct (List.find (λ c, ip_is_ipv4 (net_addr c)) (nc_cidrs cfg)) as [x|] eqn:Hx;
      destruct (List.find (λ c, negb (ip_is_ipv4 (net_addr c))) (nc_cidrs cfg)) as [y|] eqn:Hy; cbn; try done;
      try (apply find_some in Hx as [_ Hx]; rewrite Hx); try (apply find_some in Hy as [_ Hy]; rewrite Hy); cbn; try done.
    all: by apply negb_true_iff in Hy as ->. }
  unfold stored_form at 1. rewrite H4, H6. unfold stored_form. cbn [nc_network_id nc_settings nc_relays nc_clients].
  f_equal; by rewrite <- map_fmap_compose.
Qed.

Lemma served_again_stored clock id n : stored_of (served_again clock id n) = stored_of n.
Proof. unfold stored_of, served_again. cbn. by rewrite stored_form_idem. Qed.

(** ** Secrets *)

Lemma find_zip {A C K} (f : A → bool) (g : C → bool) (k : A → K) (h : C → K) l l' :
  Forall2 (λ x y, k x = h y ∧ f x = g y) l l' → k <$> List.find f l = h <$> List.find g l'.
Proof. induction 1 as [|x y l l' [Hk Hf] _ IH]; cbn; [done|]. rewrite <- Hf. destruct (f x); cbn; [by rewrite Hk|done]. Qed.

(** The members of a stored configuration hold the same secrets. *)
Lemma stored_members cfg :
  Forall2 (λ p q : string * MemberCfg * Role, p.1.1 = q.1.1 ∧ mc_secret p.1.2 = mc_secret q.1.2) (cfg_members (stored_form cfg)) (cfg_members cfg).
Proof.
  unfold cfg_members, stored_form. cbn [nc_clients nc_relays].
  assert (∀ (m : gmap string MemberCfg) (r : Role), Forall2 (λ p q : string * MemberCfg * Role, p.1.1 = q.1.1 ∧ mc_secret p.1.2 = mc_secret q.1.2)
    ((λ p : string * MemberCfg, (p.1, p.2, r)) <$> bt_iter (drop_pool <$> m)) ((λ p : string * MemberCfg, (p.1, p.2, r)) <$> bt_iter m)) as H.
  { intros m r. apply Forall2_fmap. eapply Forall2_impl; [apply bt_iter_zip|].
    - intros k. rewrite lookup_fmap. by destruct (m !! k); split; intros [? ?]; eauto.
    - intros [k x] [k' y] (He & Hx & Hy). cbn in *. subst k'. rewrite lookup_fmap, Hy in Hx. injection Hx as <-. done. }
  apply Forall2_app; apply H.
Qed.

Lemma resolve_again clock a0 a secret :
  (∀ id, as_networks a !! id = served_again clock id <$> as_networks a0 !! id) → resolve_secret a secret = resolve_secret a0 secret.
Proof.
  intros Ha. unfold resolve_secret. destruct (negb _); [done|]. apply find_zip.
  apply Forall2_bind. eapply Forall2_impl; [apply bt_iter_zip|].
  - intros k. rewrite Ha. by destruct (as_networks a0 !! k); split; intros [? ?]; eauto.
  - intros [k n'] [k' n] (He & Hn' & Hn). cbn in *. subst k'. rewrite Ha, Hn in Hn'. injection Hn' as <-.
    apply Forall2_fmap. eapply Forall2_impl; [apply stored_members|]. intros [[x m] r] [[y m'] r'] [Hx Hm]. cbn in *. subst y.
    split; [done|]. unfold secret_is. by rewrite Hm.
Qed.
End restart.


Module RestartExample.
#[export] Existing Instance StoreExample.codec.
#[export] Existing Instance StoreExample.codec_laws.
#[export] Existing Instance StoreExample.sqlite.
#[export] Existing Instance StoreExample.sqlite_laws.

Abbreviation enc := DirExample.enc.
Abbreviation env := AdminExample.env.
Abbreviation no_dns := AdminExample.no_dns.
Definition c0 : Coord (L := CredExample.lib) := AdminExample.c.
Definition pairs0 : list (NetworkConfig * Registry) := [(AdminExample.cfg, AdminExample.reg)].
Definition d0 : Conn := (db_run (OpSaveNetworks pairs0 5) StoreExample.empty).1.
Definition a0 : AppState (L := CredExample.lib) := mkAppState ∅ JoinExample.keyring rate_limiter_default 10 4433.
Definition clock (id : string) : Z * Z := (500, 500000).

Lemma d0_settled : settled d0 (stored_of <$> as_networks (co_app c0)).
Proof.
  pose proof (db_run_refines (OpSaveNetworks pairs0 5) StoreExample.empty ∅ d0 (Done true) (StoreExample.empty_settled _)) as H.
  destruct H as [H _]; [vm_compute; reflexivity|].
  assert (stored_of <$> as_networks (co_app c0) = store_runs [OpSaveNetworks pairs0 5] [Done true] ∅) as -> by (vm_compute; reflexivity). exact H.
Qed.

Lemma c0_named : named (as_networks (co_app c0)).
Proof. intros id n. cbn. rewrite lookup_singleton_Some. by intros [<- <-]. Qed.

(** A member's secret is rotated; a second network is created, and deleted. *)
Definition op1 : LockedOp := LkRotateMember "c1" "s-new".
Definition run1 := locked_run enc no_dns (co_keys c0) (co_rows c0) AdminExample.n env op1.
Definition c1 : Coord := mkCoord (as_set_net "net" run1.2 (co_app c0)) run1.1.
Definition d1 : Conn := default d0 (db_play (locked_saves enc no_dns (co_keys c0) AdminExample.n env op1) d0).
Definition spec2 : NetworkSpec := mkNetworkSpec "old" (10 * 2 ^ 24, 16) None settings_default.
Definition c2 : Coord := (create_network enc no_dns c1 spec2 "u2" env).1.
Definition d2 : Conn := default d0 (db_play (create_network_saves no_dns c1 spec2 "u2" env) d1).
Definition c3 : Coord := (delete_network c2 "old" env).1.1.
Definition d3 : Conn := default d0 (db_play (delete_network_saves c2 "old" env) d2).
Definition r3 : Run := mkRun c3 d3 {["old"%string]} ∅.

Lemma r3_run : rtc (run_step enc no_dns) (mkRun c0 d0 ∅ ∅) r3.
Proof.
  eapply rtc_l; [eapply (rn_locked enc no_dns c0 d0 ∅ ∅ "net" AdminExample.n env op1 run1.1 run1.2 d1); [vm_compute; reflexivity|apply surjective_pairing|vm_compute; reflexivity]|].
  eapply rtc_l; [eapply (rn_create enc no_dns c1 d1 ∅ _ spec2 "u2" env c2 (Ok tt) d2); [apply injective_projections; [reflexivity|vm_compute; reflexivity]|vm_compute; reflexivity]|].
  eapply rtc_l; [eapply (rn_delete enc no_dns c2 d2 ∅ _ "old" env c3 _ (Ok tt) d3); [apply injective_projections; [apply surjective_pairing|vm_compute; reflexivity]|vm_compute; reflexivity]|].
  assert (∀ gone off, gone = {["old"%string]} → off = ∅ → rtc (run_step enc no_dns) (mkRun c3 d3 gone off) r3) as H by (intros ? ? -> ->; apply rtc_refl).
  apply H; vm_compute; reflexivity.
Qed.

(** A member is declared in the second network by an operation that found it
    before it was deleted: the coordinator does not serve the network, and the
    next one does. *)
Definition n2 : NetState := default AdminExample.n (as_networks (co_app c2) !! "old"%string).
Definition op4 : LockedOp := LkCreateMember ∅ "late" Client AdminExample.spec "s-late".
Definition run4 := locked_run enc no_dns (co_keys c3) (co_rows c3) (retire_network n2) env op4.
Definition d4 : Conn := default d0 (db_play (locked_saves enc no_dns (co_keys c3) (retire_network n2) env op4) d3).
Definition r4 : Run := mkRun (mkCoord (co_app c3) run4.1) d4 {["old"%string]} {["old"%string]}.

Lemma deleted_network_returns :
  run_step enc no_dns r3 r4 ∧ as_networks (co_app (ru_coord r4)) !! "old"%string = None ∧
  ∃ pairs, db_load_all (λ _, "u"%string) (sq_reopen (ru_db r4)) = Some pairs ∧
    is_Some (as_networks (serve_loaded enc clock pairs a0) !! "old"%string) ∧
    resolve_secret (serve_loaded enc clock pairs a0) "s-late" = Some ("old"%string, "late"%string).
Proof.
  split_and!.
  - assert (mark (wrote (locked_saves enc no_dns (co_keys c3) (retire_network n2) env op4)) (nc_network_id (ns_cfg (retire_network n2))) ∅ =
      {["old"%string]}) as Hm by (vm_compute; reflexivity).
    unfold r4, r3. rewrite <- Hm.
    eapply rn_late; [by_decide|apply surjective_pairing|vm_compute; reflexivity].
  - vm_compute. reflexivity.
  - eexists. split; [vm_compute; reflexivity|]. split; vm_compute; [by eexists|reflexivity].
Qed.
End RestartExample.

