(* ===== verification/Api.v ===== *)
(** * The coordinator's HTTP API (crates/nqvpn-coord/src/api.rs, ws.rs)

    The routes, the handlers behind them, what they answer, and the live feed. axum
    and serde are parameters: how a path parameter is decoded, and what a request
    body says. What the handlers call is in [Admin], [Join], [AdminAuth] and [Token]. *)

From Stdlib Require Import Ascii.
From S2P Require Import Prelude Ordered Ipnet Text Control Replay Seal Credential Config Registry Leases Directory Ipam NetState RateLimit Join Validate.
From S2P Require Import Frame Tables RelayNet Admin Coordinator AdminAuth Token.

(** ** What the admin sees *)

Record NetworkSummary := mkNetworkSummary {
  sm_network_id : string; sm_members_total : Z; sm_relays_total : Z; sm_members_online : Z; sm_gen : Z;
}.

Record MemberStatus := mkMemberStatus {
  ms_name : string;
  ms_node_id : Z;
  ms_role : Role;
  ms_online : bool;
  ms_disabled : bool;
  ms_ip4 : option Z;
  ms_ip6 : option Z;
  ms_registered_cidrs : list IpNet;
  ms_attached_relay : option string;
  ms_advertised_reachable : option Reachability;
  ms_last_join_unix : option Z;
  ms_last_join_from : option string;
  ms_login_gen : Z;
  ms_replaced_unix : option Z;
  ms_replaced_from : option string;
  ms_reported_gen : option Z;
  ms_digest_ok : bool;
  ms_last_heartbeat_unix : option Z;
  ms_internet_gateway : bool;
  ms_exit_ready : option ExitReadiness;
}.

Record PrefixOwner := mkPrefixOwner { po_cidr : IpNet; po_owner : string; po_owner_node_id : Z; po_standby : list string }.

Record RelayLink := mkRelayLink { rl_peer : string; rl_link : LinkTraffic; rl_tx_bps : Z; rl_rx_bps : Z }.
Record RelayTraffic := mkRelayTraffic {
  rt_relay : string; rt_node_id : Z; rt_age_secs : Z; rt_links : list RelayLink;
  rt_local_bytes : Z; rt_local_pkts : Z; rt_terminated_bytes : Z; rt_terminated_pkts : Z;
}.

Record NetworkStatus := mkNetworkStatus {
  nst_network_id : string;
  nst_network_uuid : string;
  nst_gen : Z;
  nst_members : list MemberStatus;
  nst_prefix_table : list PrefixOwner;
  nst_relay_traffic : list RelayTraffic;
  nst_transport : string;
  nst_lanes : Z;
}.

Definition summary_of (p : string * NetState) : NetworkSummary :=
  mkNetworkSummary p.1 (Z.of_nat (length (cfg_members (ns_cfg p.2)))) (Z.of_nat (size (nc_relays (ns_cfg p.2))))
    (Z.of_nat (length (online_nodes (ns_leases p.2)))) (dir_gen (ns_directory p.2)).

Definition member_name (n : NetState) (node : Z) : string :=
  match rg_members (ns_registry n) !! node with Some r => mr_name r | None => ("#" +:+ pretty node)%string end.

Definition member_status (n : NetState) (p : string * MemberCfg * Role) : MemberStatus :=
  let '(name, m, role) := p in
  let rec := by_name (ns_registry n) name in
  let node := match rec with Some r => mr_node_id r | None => 0 end in
  let rep := report (ns_leases n) node in
  let gateway := match role with Relay => bool_decide (mc_internet_gateway m = Some true) | Client => false end in
  mkMemberStatus name node role
    (opt_some rec && is_online (ns_leases n) node)
    (match rec with Some r => mr_disabled r | None => false end)
    (match rec ≫= mr_ip4 with Some ip => Some ip | None => mc_preferred_ip4 m end)
    (match rec ≫= mr_ip6 with Some ip => Some ip | None => mc_preferred_ip6 m end)
    (match rec with
     | Some r => List.filter (λ c, negb (net_prefix_len c =? 0)) (rr_cidr <$> mr_routes r)
     | None => mc_local_cidrs m
     end)
    (member_name n <$> attachments (ns_leases n) !! node)
    (match role with Relay => dir_reachability (ns_directory n) !! node | Client => None end)
    (rec ≫= mr_last_join_unix) (rec ≫= mr_last_join_from)
    (match rec with Some r => mr_login_gen r | None => 0 end)
    (rec ≫= mr_replaced_unix) (rec ≫= mr_replaced_from)
    (r_gen <$> rep)
    (match rep with
     | Some r => (r_gen r =? dir_gen (ns_directory n)) && (r_digest r =? dir_published_digest (ns_directory n))
     | None => false
     end)
    ((λ ms, ms / 1000) <$> last_seen (ns_leases n) node)
    gateway
    (if gateway then dir_exit_readiness (ns_directory n) !! node else None).

(** A LAN prefix and its registrants, oldest first; default routes are not shown. *)
Definition lan_row `{O : IpNetOps} (n : NetState) (p : IpNet * list (Z * Z)) : option PrefixOwner :=
  if net_prefix_len p.1 =? 0 then None else
  Some match dir_owners (ns_directory n) !! net_to_string p.1 with
       | None => mkPrefixOwner p.1 "(withdrawn)" 0 (member_name n <$> p.2.*1)
       | Some owner => mkPrefixOwner p.1 (member_name n owner) owner (member_name n <$> List.filter (λ x, negb (x =? owner)) p.2.*1)
       end.

Definition host_rows (p : Z * MemberRecord) : list PrefixOwner :=
  opt_list ((λ ip, mkPrefixOwner (Net4 ip 32) (mr_name p.2) p.1 []) <$> mr_ip4 p.2) ++
  opt_list ((λ ip, mkPrefixOwner (Net6 ip 128) (mr_name p.2) p.1 []) <$> mr_ip6 p.2).

Definition traffic_row (n : NetState) (now : Z) (p : Z * TrafficSample) : RelayTraffic :=
  let r := tsm_report p.2 in
  mkRelayTraffic (member_name n p.1) p.1 (now ⊖ tsm_at p.2)
    ((λ l, mkRelayLink (member_name n (lt_peer_id l)) l (rate p.2 l true) (rate p.2 l false)) <$> tr_links r)
    (tr_local_bytes r) (tr_local_pkts r) (tr_terminated_bytes r) (tr_terminated_pkts r).

Definition network_status `{O : IpNetOps} (n : NetState) (id : string) (now : Z) : NetworkStatus :=
  mkNetworkStatus id (rg_network_uuid (ns_registry n)) (dir_gen (ns_directory n))
    (member_status n <$> cfg_members (ns_cfg n))
    (omap (lan_row n) (resolve_owners (ns_registry n)) ++ (bt_iter (rg_members (ns_registry n)) ≫= host_rows))
    (traffic_row n now <$> bt_iter (dir_traffic (ns_directory n)))
    (sc_transport (nc_settings (ns_cfg n))) (sc_lanes (nc_settings (ns_cfg n))).

(** One frame of the live feed. *)
Record LiveFrame := mkLiveFrame { lf_networks : list NetworkSummary; lf_status : list (string * NetworkStatus); lf_now : Z }.

Definition live_frame `{O : IpNetOps} (nets : gmap string NetState) (now : Z) : LiveFrame :=
  mkLiveFrame (summary_of <$> bt_iter nets) ((λ p : string * NetState, (p.1, network_status p.2 p.1 now)) <$> bt_iter nets) now.

(** ** Routes *)

Inductive ApiRoute :=
| RtJoin | RtLogin | RtLogout | RtMe | RtWs | RtCa | RtStatus | RtCreateNetwork
| RtUpdateNetwork (id : string) | RtDeleteNetwork (id : string) | RtNetworkStatus (id : string) | RtNetworkConfig (id : string)
| RtCreateMember (id : string) | RtMemberConfig (id name : string) | RtUpdateMember (id name : string) | RtDeleteMember (id name : string)
| RtSetDisabled (id name : string) (disabled : bool) | RtMemberToken (id name : string) | RtRotateMember (id name : string)
| RtReconnect (id name : string) | RtExport | RtImport | RtUi | RtRedirect.

Inductive Seg := Lit (s : string) | Par.

Definition here (r : ApiRoute) (ps : list string) : option ApiRoute := match ps with [] => Some r | _ => None end.
Definition of_net (f : string → ApiRoute) (ps : list string) : option ApiRoute := match ps with [id] => Some (f id) | _ => None end.
Definition of_member (f : string → string → ApiRoute) (ps : list string) : option ApiRoute := match ps with [id; name] => Some (f id name) | _ => None end.

Definition GET_ : string := "GET".
Definition POST_ : string := "POST".
Definition PUT_ : string := "PUT".
Definition DELETE_ : string := "DELETE".

(** The table of [router]: a path, and a handler per method. *)
Definition api_router : list (list Seg * list (string * (list string → option ApiRoute))) :=
  let api := [Lit "api"; Lit "v1"] in
  let networks := api ++ [Lit "networks"] in
  let member := networks ++ [Par; Lit "members"; Par] in
  [ (api ++ [Lit "join"], [(POST_, here RtJoin)]);
    (api ++ [Lit "login"], [(POST_, here RtLogin)]);
    (api ++ [Lit "logout"], [(POST_, here RtLogout)]);
    (api ++ [Lit "me"], [(GET_, here RtMe)]);
    (api ++ [Lit "ws"], [(GET_, here RtWs)]);
    (api ++ [Lit "ca"], [(GET_, here RtCa)]);
    (api ++ [Lit "status"], [(GET_, here RtStatus)]);
    (networks, [(GET_, here RtStatus); (POST_, here RtCreateNetwork)]);
    (networks ++ [Par], [(PUT_, of_net RtUpdateNetwork); (DELETE_, of_net RtDeleteNetwork)]);
    (networks ++ [Par; Lit "status"], [(GET_, of_net RtNetworkStatus)]);
    (networks ++ [Par; Lit "config"], [(GET_, of_net RtNetworkConfig)]);
    (networks ++ [Par; Lit "members"], [(POST_, of_net RtCreateMember)]);
    (member, [(GET_, of_member RtMemberConfig); (PUT_, of_member RtUpdateMember); (DELETE_, of_member RtDeleteMember)]);
    (member ++ [Lit "disable"], [(POST_, of_member (λ id name, RtSetDisabled id name true))]);
    (member ++ [Lit "enable"], [(POST_, of_member (λ id name, RtSetDisabled id name false))]);
    (member ++ [Lit "token"], [(GET_, of_member RtMemberToken); (POST_, of_member RtRotateMember)]);
    (member ++ [Lit "reconnect"], [(POST_, of_member RtReconnect)]);
    (api ++ [Lit "export"], [(GET_, here RtExport)]);
    (api ++ [Lit "import"], [(POST_, here RtImport)]);
    ([Lit "ui"], [(GET_, here RtUi)]);
    ([Lit "ui"; Lit ""], [(GET_, here RtUi)]);
    ([Lit ""], [(GET_, here RtRedirect)]) ].

Section routing.
(** How a path parameter is decoded. *)
Context (percent_decode : string → option string).

(** The parameters of a path that matches; a parameter is not empty. *)
Fixpoint match_path (pat : list Seg) (segs : list string) : option (list string) :=
  match pat, segs with
  | [], [] => Some []
  | Lit s :: pat, x :: segs => if String.eqb s x then match_path pat segs else None
  | Par :: pat, x :: segs =>
      if String.eqb x "" then None else p ← percent_decode x; ps ← match_path pat segs; Some (p :: ps)
  | _, _ => None
  end.

(** The segments after the leading slash. *)
Definition path_segs (path : string) : list string := tail (split_on "/" path).

(** [None]: not found, or not with this method; [get] answers HEAD as well. *)
Definition find_route (method path : string) : option ApiRoute :=
  let method := if String.eqb method "HEAD" then "GET"%string else method in
  head (omap (λ e : list Seg * list (string * (list string → option ApiRoute)),
    ps ← match_path e.1 (path_segs path);
    h ← snd <$> List.find (λ m, String.eqb m.1 method) e.2;
    h ps) api_router).
End routing.

(** ** Requests and answers *)

Record NewMember := mkNewMember { nm_name : string; nm_role : Role; nm_spec : MemberSpec }.

(** What serde makes of a body. *)
Class ApiJson := {
  json_join : list Z → option JoinRequest;
  json_login : list Z → option (string * string);
  json_network : list Z → option NetworkSpec;
  json_new_member : list Z → option NewMember;
  json_member : list Z → option MemberSpec;
  json_import : list Z → option (list NetworkConfig);
}.

Definition SMALL_BODY_LIMIT : Z := 8 * 1024.
(** axum's own limit for the other bodies. *)
Definition BODY_LIMIT : Z := 2 * 1024 * 1024.

Inductive Reply :=
| RpDone
| RpError (e : ApiError)
| RpDenied (e : AuthError)
| RpCrossOrigin
| RpRejected
| RpNotFound
| RpPanicked
| RpJoined (resp : JoinResponse) (probing : bool)
| RpLoggedIn (token user : string) (expires : Z)
| RpLoggedOut
| RpMe (user : string) (login_configured : bool)
| RpFeed
| RpCa (pem : string) (self_signed : bool)
| RpStatus (networks : list NetworkSummary)
| RpNetworkStatus (s : NetworkStatus)
| RpNetworkConfig (id : string) (v4 : IpNet) (v6 : option IpNet) (s : SettingsCfg) (members : list (string * Role * MemberSpec * bool))
| RpMember (name : string) (role : Role) (spec : MemberSpec)
| RpToken (id name : string) (role : Role) (token coordinator : string)
| RpReconnected (was_connected : bool)
| RpExport (cfgs : list NetworkConfig)
| RpApplied (ids : list string)
| RpUi.

(** The answers anyone may get. *)
Definition public_reply (r : Reply) : bool :=
  match r with
  | RpDone | RpMe _ _ | RpFeed | RpStatus _ | RpNetworkStatus _ | RpNetworkConfig _ _ _ _ _ | RpMember _ _ _ | RpToken _ _ _ _ _
  | RpReconnected _ | RpExport _ | RpApplied _ | RpPanicked => false
  | _ => true
  end.

(** The part of coordinator.toml the handlers read, and the certificate served. *)
Record ApiCfg := mkApiCfg {
  ac_admin : AdminCfg; ac_admin_token : option string; ac_public_url : option string; ac_cert : option (string * bool);
}.

(** The clocks, what is drawn at random, what the database and the prober answer,
    and whether the password task ran. *)
Record ApiEnv := mkApiEnv {
  ev_now : Z; ev_login_now : Z; ev_peer_ip : string; ev_admin : AdminEnv; ev_join : JoinEnv; ev_import : ImportEnv;
  ev_secret : string; ev_uuid : string; ev_session_token : string; ev_hashed : bool; ev_verdict : Reachability;
}.

Section handlers.
Context `{O : IpNetOps, Q : MpscOps, L : CredLib, B : Base64, !JoinLib L, J : ApiJson}.
Context (enc : Snapshot → list Z) (resolve_host : string → Z → list IpAddr).
Context (percent_decode : string → option string) (verify_password : string → string → bool) (pem_fingerprints : string → list string).
Context (cfg : ApiCfg).

Record ApiState := mkApi { ap_coord : Coord; ap_auth : AuthState }.

Definition set_coord (c : Coord) (s : ApiState) : ApiState := mkApi c (ap_auth s).
Definition set_auth (a : AuthState) (s : ApiState) : ApiState := mkApi (ap_coord s) a.

Definition header_raw (h : Headers) (name : string) : option (list Z) := snd <$> List.find (λ p, String.eqb p.1 name) h.
Definition visible_text (v : list Z) : option string :=
  if forallb (λ b, ((32 <=? b) && (b <? 127)) || (b =? 9)) v then Some (bytes_str v) else None.

Definition public_url (q : HttpRequest) : string :=
  match ac_public_url cfg with
  | Some u => trim_end_matches 47 u
  | None =>
      let raw := match header_raw (hq_headers q) "x-forwarded-host" with Some v => Some v | None => header_raw (hq_headers q) "host" end in
      let host := match raw ≫= visible_text with Some v => Some v | None => hq_authority q end in
      ("https://" +:+ default "localhost" host)%string
  end.

Definition cert_fp : option string :=
  match ac_cert cfg with Some (pem, true) => head (pem_fingerprints pem) | _ => None end.

Definition token_json (q : HttpRequest) (c : Coord) (id name : string) : Reply :=
  match member_token (co_app c) id name (public_url q) cert_fp with
  | Err e => RpError e
  | Ok (token, role) => RpToken id name role (token_encode token) (tk_coordinator token)
  end.

(** ** Handlers *)

(** The extractor of a body: too long or not understood. *)
Definition with_body {T} (limit : Z) (decode : list Z → option T) (body : list Z) (s : ApiState) (k : T → ApiState * Reply) : ApiState * Reply :=
  if limit <? Z.of_nat (length body) then (s, RpRejected) else
  match decode body with None => (s, RpRejected) | Some x => k x end.

(** [check_admin(..)?]. *)
Definition admin_only (q : HttpRequest) (now : Z) (s : ApiState) (k : ApiState * Reply) : ApiState * Reply :=
  match check_admin (ac_admin cfg) (ac_admin_token cfg) (hq_headers q) now (ap_auth s) with
  | Err e => (s, RpDenied e)
  | Ok _ => k
  end.

(** An operation of [Admin], and what to answer. *)
Definition answer_with {T} (s : ApiState) (r : Coord * Result T ApiError) (f : Coord → T → Reply) : ApiState * Reply :=
  (set_coord r.1 s, match r.2 with Err e => RpError e | Ok x => f r.1 x end).

Definition read_net (s : ApiState) (id : string) (f : NetState → Reply) : ApiState * Reply :=
  (s, match as_networks (co_app (ap_coord s)) !! id with None => RpError NotFound | Some n => f n end).

Definition set_reachability (v : gmap Z Reachability) (d : Directory) : Directory :=
  mkDirectory (dir_gen d) (dir_published d) (dir_published_digest d) (dir_ring d) (dir_owners d) (dir_hold_down_secs d)
    v (dir_reported_mtu d) (dir_traffic d) (dir_exit_readiness d).

(** The probe has its verdict. *)
Definition probe_done (id : string) (node : Z) (v : Reachability) (a : AppState) : AppState :=
  match as_networks a !! id with
  | None => a
  | Some n => as_set_net id (ns_set_directory (set_reachability (<[node := v]> (dir_reachability (ns_directory n))) (ns_directory n)) n) a
  end.

Definition join_handler (req : JoinRequest) (e : ApiEnv) (s : ApiState) : ApiState * Reply :=
  let put a := set_coord (mkCoord a (co_rows (ap_coord s))) s in
  match join enc (co_app (ap_coord s)) req (ev_peer_ip e) (ev_now e) (ev_join e) with
  | (a, Panicked) => (put a, RpError Internal)
  | (a, Returned (Err err)) => (put a, RpError err)
  | (a, Returned (Ok resp)) =>
      match jp_role resp with
      | Client => (put a, RpJoined resp false)
      | Relay =>
          match as_networks a !! jp_network_id resp, jp_relay_addr resp with
          | Some n, Some addr =>
              let policy := sc_relay_reachability (nc_settings (ns_cfg n)) in
              if String.eqb policy "off" then (put a, RpJoined resp false) else
              if String.eqb policy "deny" then
                let a := probe_done (jp_network_id resp) (jp_node_id resp) (ev_verdict e) a in
                (put a, match ev_verdict e with Unreachable => RpError RelayUnreachable | _ => RpJoined resp false end)
              else (put a, RpJoined resp true)
          | _, _ => (put a, RpJoined resp false)
          end
      end
  end.

(** Both halves of [AdminAuth]'s login, with nothing in between. *)
Definition login_handler (user password : string) (e : ApiEnv) (s : ApiState) : ApiState * Reply :=
  match login_begin (ac_admin cfg) (ev_peer_ip e) (ev_now e) (ap_auth s) with
  | (a, Err err) => (set_auth a s, RpDenied err)
  | (a, Ok _) =>
      match login_finish verify_password (ac_admin cfg) (ev_peer_ip e) user password (ev_session_token e) (ev_hashed e) (ev_login_now e) a with
      | (a, Err err) => (set_auth a s, RpDenied err)
      | (a, Ok token) =>
          (set_auth a s, RpLoggedIn token (default ""%string (ad_user (ac_admin cfg))) (ev_login_now e ⊕ session_ttl (ac_admin cfg)))
      end
  end.

Definition me_reply (q : HttpRequest) (now : Z) (s : ApiState) : Reply :=
  RpMe (match cookie_token (hq_headers q) ≫= λ c, session_lookup (au_live (ap_auth s)) c now with Some u => us_user u | None => "token"%string end)
    (opt_some (ad_password_hash (ac_admin cfg))).

Definition config_reply (n : NetState) : Reply :=
  match ipv4_cidr (ns_cfg n) with
  | None => RpPanicked
  | Some v4 =>
      RpNetworkConfig (nc_network_id (ns_cfg n)) v4 (ipv6_cidr (ns_cfg n)) (nc_settings (ns_cfg n))
        ((λ p : string * MemberCfg * Role, (p.1.1, p.2, spec_from_cfg p.1.2, opt_some (mc_secret p.1.2))) <$> cfg_members (ns_cfg n))
  end.

Definition member_reply (name : string) (n : NetState) : Reply :=
  match member_by_name (ns_cfg n) name with None => RpError NotFound | Some (m, role) => RpMember name role (spec_from_cfg m) end.

Definition serve_route (rt : ApiRoute) (q : HttpRequest) (body : list Z) (e : ApiEnv) (s : ApiState) : ApiState * Reply :=
  let c := ap_coord s in
  let admin := admin_only q (ev_now e) s in
  match rt with
  | RtJoin => with_body SMALL_BODY_LIMIT json_join body s (λ req, join_handler req e s)
  | RtLogin => with_body SMALL_BODY_LIMIT json_login body s (λ p, login_handler p.1 p.2 e s)
  | RtLogout => (set_auth (logout (hq_headers q) (ap_auth s)) s, RpLoggedOut)
  | RtMe => admin (s, me_reply q (ev_now e) s)
  | RtWs => admin (s, RpFeed)
  | RtCa => (s, match ac_cert cfg with Some (pem, b) => RpCa pem b | None => RpError NotFound end)
  | RtStatus => admin (s, RpStatus (summary_of <$> bt_iter (as_networks (co_app c))))
  | RtCreateNetwork => with_body BODY_LIMIT json_network body s (λ spec,
      admin (answer_with s (create_network enc resolve_host c spec (ev_uuid e) (ev_admin e)) (λ _ _, RpDone)))
  | RtUpdateNetwork id => with_body BODY_LIMIT json_network body s (λ spec,
      admin (answer_with s (update_network enc resolve_host c id spec (ev_admin e)) (λ _ _, RpDone)))
  | RtDeleteNetwork id => admin (answer_with s (let '(c, _, r) := delete_network c id (ev_admin e) in (c, r)) (λ _ _, RpDone))
  | RtNetworkStatus id => admin (read_net s id (λ n, RpNetworkStatus (network_status n id (ev_now e))))
  | RtNetworkConfig id => admin (read_net s id config_reply)
  | RtCreateMember id => with_body BODY_LIMIT json_new_member body s (λ m,
      admin (answer_with s (create_member resolve_host c id (nm_name m) (nm_role m) (nm_spec m) (ev_secret e) (ev_admin e))
               (λ c _, token_json q c id (nm_name m))))
  | RtMemberConfig id name => admin (read_net s id (member_reply name))
  | RtUpdateMember id name => with_body BODY_LIMIT json_member body s (λ spec,
      admin (answer_with s (update_member enc resolve_host c id name spec (ev_admin e)) (λ _ _, RpDone)))
  | RtDeleteMember id name => admin (answer_with s (forget_member enc c id name (ev_admin e)) (λ _ _, RpDone))
  | RtSetDisabled id name disabled => admin (answer_with s (set_disabled enc c id name disabled (ev_admin e)) (λ _ _, RpDone))
  | RtMemberToken id name => admin (s, token_json q c id name)
  | RtRotateMember id name => admin (answer_with s (rotate_member enc c id name (ev_secret e) (ev_admin e)) (λ c _, token_json q c id name))
  | RtReconnect id name => admin (answer_with s (reconnect_member c id name) (λ _ was, RpReconnected was))
  | RtExport => admin (s, RpExport (export c))
  | RtImport => with_body BODY_LIMIT json_import body s (λ cfgs,
      admin (answer_with s (import enc resolve_host c cfgs (ev_import e) (ev_admin e)) (λ _ ids, RpApplied ids)))
  | RtUi => (s, RpUi)
  | RtRedirect => (s, RpUi)
  end.

(** The guard, then the route. *)
Definition handle (q : HttpRequest) (body : list Z) (e : ApiEnv) (s : ApiState) : ApiState * Reply :=
  if negb (origin_guard (ac_public_url cfg) q) then (s, RpCrossOrigin) else
  match find_route percent_decode (hq_method q) (hq_path q) with
  | None => (s, RpNotFound)
  | Some rt => serve_route rt q body e s
  end.

(** ** The live feed ([ws::serve]) *)

Inductive FeedEvent := FeedWake | FeedPage | FeedGone.

(** Each wake-up (the timer, or events, drained) with the server as it is then;
    what the page says is ignored. The frames sent. *)
Fixpoint feed (q : HttpRequest) (events : list (FeedEvent * Z * ApiState)) : list (Z * LiveFrame) :=
  match events with
  | [] => []
  | (FeedGone, _, _) :: _ => []
  | (FeedPage, _, _) :: events => feed q events
  | (FeedWake, now, s) :: events =>
      match check_admin (ac_admin cfg) (ac_admin_token cfg) (hq_headers q) now (ap_auth s) with
      | Err _ => []
      | Ok _ => (now, live_frame (as_networks (co_app (ap_coord s))) now) :: feed q events
      end
  end.
End handlers.

(** ** What a request can do *)

(** The routes that only read. *)
Definition reading (rt : ApiRoute) : bool :=
  match rt with
  | RtMe | RtWs | RtCa | RtStatus | RtNetworkStatus _ | RtNetworkConfig _ | RtMemberConfig _ _ | RtMemberToken _ _ | RtExport | RtUi | RtRedirect => true
  | _ => false
  end.

(** [get] handlers only read. *)
Lemma get_reads decode path rt : find_route decode "GET" path = Some rt → reading rt = true.
Proof.
  unfold find_route. cbn [String.eqb]. change (if String.eqb "GET" "HEAD" then "GET"%string else "GET"%string) with "GET"%string.
  set (f := λ e : list Seg * list (string * (list string → option ApiRoute)), _).
  assert (Forall (λ e, ∀ rt, f e = Some rt → reading rt = true) api_router) as H.
  { assert (∀ e, (∀ ps rt, (h ← snd <$> List.find (λ m : string * (list string → option ApiRoute), String.eqb m.1 "GET") e.2; h ps) = Some rt → reading rt = true) →
      ∀ rt, f e = Some rt → reading rt = true) as Hf by (intros e He x; unfold f; destruct (match_path _ _ _) as [ps|]; [apply He|done]).
    unfold api_router. cbv zeta. repeat (constructor; [apply Hf; cbn; intros ps x;
      first [done|unfold here, of_net, of_member; repeat case_match; try done; by intros [= <-]]|]). constructor. }
  intros Hh. destruct (omap f api_router) as [|x l] eqn:Ho; [done|]. injection Hh as ->.
  assert (rt ∈ omap f api_router) as (e & He & Hx)%list_elem_of_omap by (rewrite Ho; left).
  rewrite Forall_forall in H. by eapply H.
Qed.

Lemma head_is_get decode path : find_route decode "HEAD" path = find_route decode "GET" path.
Proof. unfold find_route. by replace (if String.eqb "HEAD" "HEAD" then "GET"%string else "HEAD"%string) with "GET"%string by done. Qed.

Lemma options_nothing decode path : find_route decode "OPTIONS" path = None.
Proof.
  unfold find_route. change (if String.eqb "OPTIONS" "HEAD" then "GET"%string else "OPTIONS"%string) with "OPTIONS"%string.
  set (f := λ e : list Seg * list (string * (list string → option ApiRoute)), _).
  assert (omap f api_router = []) as ->; [|done]. apply elem_of_nil_inv. intros x (e & He & Hx)%list_elem_of_omap.
  assert (List.find (λ m : string * (list string → option ApiRoute), String.eqb m.1 "OPTIONS") e.2 = None) as Hn.
  { clear Hx. revert e He. apply Forall_forall. unfold api_router. cbv zeta. repeat (constructor; [done|]). constructor. }
  unfold f in Hx. rewrite Hn in Hx. by destruct (match_path _ _ _).
Qed.

Section guarded.
Context `{O : IpNetOps, Q : MpscOps, L : CredLib, B : Base64, !JoinLib L, J : ApiJson}.
Context (enc : Snapshot → list Z) (resolve_host : string → Z → list IpAddr).
Context (percent_decode : string → option string) (verify_password : string → string → bool) (pem_fingerprints : string → list string).
Context (cfg : ApiCfg).
#[local] Abbreviation serve := (serve_route enc resolve_host verify_password pem_fingerprints cfg).
#[local] Abbreviation is_admin q now s := (check_admin (ac_admin cfg) (ac_admin_token cfg) (hq_headers q) now (ap_auth s)).

Lemma with_body_inv {T} limit (decode : list Z → option T) body s k s' r : with_body limit decode body s k = (s', r) →
  (s' = s ∧ r = RpRejected) ∨ ∃ x, k x = (s', r).
Proof.
  unfold with_body. destruct (limit <? _); [intros [= <- <-]; by left|]. destruct (decode body); [eauto|intros [= <- <-]; by left].
Qed.

Lemma admin_only_inv q now s k s' r : admin_only cfg q now s k = (s', r) →
  (is_admin q now s = Ok tt ∧ k = (s', r)) ∨ (is_admin q now s ≠ Ok tt ∧ s' = s ∧ ∃ e, r = RpDenied e).
Proof. unfold admin_only. destruct (is_admin q now s) as [[]|e]; [auto|]. intros [= <- <-]. right. eauto. Qed.

(** Reading changes nothing. *)
Lemma serve_reads rt q body e s s' r : reading rt = true → serve rt q body e s = (s', r) → s' = s.
Proof.
  intros Hr. destruct rt; try done; cbn [serve_route]; try (by intros [= <- <-]);
    (intros [[_ H]|(_ & -> & _)]%admin_only_inv; [|done]); unfold read_net in H; by injection H.
Qed.

(** The networks a join or a probe leaves: the same configurations. *)
Definition same_configs (a a' : AppState) : Prop := ∀ id, ns_cfg <$> as_networks a' !! id = ns_cfg <$> as_networks a !! id.

Lemma same_configs_insert a a' id n n' : as_networks a !! id = Some n → as_networks a' = <[id := n']> (as_networks a) → ns_cfg n' = ns_cfg n → same_configs a a'.
Proof.
  intros Hn Ha Hc i. rewrite Ha. destruct (decide (i = id)) as [->|]; [|by rewrite lookup_insert_ne]. rewrite lookup_insert_eq, Hn. cbn. by rewrite Hc.
Qed.

Lemma join_configs req peer now je a a' out : join enc a req peer now je = (a', out) → same_configs a a'.
Proof.
  intros [He|(id & n & n' & Hn & [= Hc _] & He)]%join_networks; [intros i; by rewrite He|by eapply same_configs_insert].
Qed.

Lemma probe_configs id node v a : same_configs a (probe_done id node v a).
Proof. unfold probe_done. destruct (as_networks a !! id) as [n|] eqn:Hn; [by eapply same_configs_insert|done]. Qed.

Lemma same_configs_trans a b c : same_configs a b → same_configs b c → same_configs a c.
Proof. intros H1 H2 id. by rewrite H2. Qed.

Lemma join_step c a req peer now je out : join enc (co_app c) req peer now je = (a, out) →
  rtc (coord_step enc resolve_host) c (mkCoord a (co_rows c)).
Proof. intros H. eapply rtc_once, cs_join, H. Qed.

Lemma probe_step c id node v : rtc (coord_step enc resolve_host) c (mkCoord (probe_done id node v (co_app c)) (co_rows c)).
Proof.
  unfold probe_done. destruct (as_networks (co_app c) !! id) as [n|] eqn:Hn; [|by destruct c]. by eapply rtc_once, cs_handler.
Qed.

(** A join, and the probe it waits for. *)
Lemma join_handler_spec req e s s' r : join_handler enc req e s = (s', r) →
  ap_auth s' = ap_auth s ∧ co_rows (ap_coord s') = co_rows (ap_coord s) ∧ same_configs (co_app (ap_coord s)) (co_app (ap_coord s')) ∧
  rtc (coord_step enc resolve_host) (ap_coord s) (ap_coord s') ∧ public_reply r = true.
Proof.
  unfold join_handler. destruct (join _ _ _ _ _ _) as [a out] eqn:Hj.
  assert (∀ r0, public_reply r0 = true → (set_coord (mkCoord a (co_rows (ap_coord s))) s, r0) = (s', r) →
    ap_auth s' = ap_auth s ∧ co_rows (ap_coord s') = co_rows (ap_coord s) ∧ same_configs (co_app (ap_coord s)) (co_app (ap_coord s')) ∧
    rtc (coord_step enc resolve_host) (ap_coord s) (ap_coord s') ∧ public_reply r = true) as Hput.
  { intros r0 Hr [= <- <-]. split_and!; [done|done|by eapply join_configs|by eapply join_step|done]. }
  destruct out as [[resp|err]|]; [|by apply Hput..]. destruct (jp_role resp); [by apply Hput|].
  destruct (as_networks a !! jp_network_id resp) as [n|]; [|by apply Hput]. destruct (jp_relay_addr resp); [|by apply Hput].
  cbn zeta. destruct (String.eqb _ "off"); [by apply Hput|]. destruct (String.eqb _ "deny"); [|by apply Hput].
  intros [= <- <-]. split_and!; [done|done| | |by destruct (ev_verdict e)].
  - eapply same_configs_trans; [by eapply join_configs|apply probe_configs].
  - etransitivity; [by eapply join_step|]. apply (probe_step (mkCoord a (co_rows (ap_coord s)))).
Qed.

Lemma login_handler_spec user password e s s' r : login_handler verify_password cfg user password e s = (s', r) →
  ap_coord s' = ap_coord s ∧ public_reply r = true.
Proof.
  unfold login_handler. destruct (login_begin _ _ _ _) as [a [u|err]]; [|by intros [= <- <-]].
  destruct (login_finish _ _ _ _ _ _ _ _ _) as [a' [t|err]]; by intros [= <- <-].
Qed.

(** Without admin access. *)
Lemma serve_denied rt q body e s s' r : is_admin q (ev_now e) s ≠ Ok tt → serve rt q body e s = (s', r) →
  public_reply r = true ∧ co_rows (ap_coord s') = co_rows (ap_coord s) ∧ same_configs (co_app (ap_coord s)) (co_app (ap_coord s')) ∧
  (rt ≠ RtJoin → ap_coord s' = ap_coord s) ∧ (rt ≠ RtLogin → rt ≠ RtLogout → ap_auth s' = ap_auth s).
Proof.
  intros Hn. assert (∀ k, admin_only cfg q (ev_now e) s k = (s', r) → s' = s ∧ public_reply r = true) as Ha.
  { intros k [[H _]|(_ & -> & err & ->)]%admin_only_inv; done. }
  assert (s' = s ∧ public_reply r = true → public_reply r = true ∧ co_rows (ap_coord s') = co_rows (ap_coord s) ∧
    same_configs (co_app (ap_coord s)) (co_app (ap_coord s')) ∧ (rt ≠ RtJoin → ap_coord s' = ap_coord s) ∧
    (rt ≠ RtLogin → rt ≠ RtLogout → ap_auth s' = ap_auth s)) as Hsame by by intros [-> ?].
  destruct rt; cbn [serve_route]; try (intros H; apply Hsame; exact (Ha _ H)); try (intros [[-> ->]|[x Hx]]%with_body_inv;
    [by apply Hsame|first [apply Hsame; exact (Ha _ Hx)|cbn beta in Hx]]).
  - apply join_handler_spec in Hx as (Hau & Hro & Hcf & _ & Hp). by split_and!.
  - apply login_handler_spec in Hx as [Hc Hp]. rewrite Hc. by split_and!.
  - intros [= <- <-]. by split_and!.
  - intros [= <- <-]. apply Hsame. split; [done|]. by destruct (ac_cert cfg) as [[]|].
  - intros [= <- <-]. by apply Hsame.
  - intros [= <- <-]. by apply Hsame.
Qed.

(** Every change to the coordinator is an operation of it. *)
Lemma answer_step {T} s (op : Coord * Result T ApiError) f s' r :
  answer_with s op f = (s', r) → (∀ c' x, op = (c', x) → coord_step enc resolve_host (ap_coord s) c') → rtc (coord_step enc resolve_host) (ap_coord s) (ap_coord s').
Proof. intros [= <- <-] Hs. destruct op as [c' x]. apply rtc_once. by eapply Hs. Qed.

Lemma serve_steps rt q body e s s' r : fresh_secret (ap_coord s) (ev_secret e) → serve rt q body e s = (s', r) →
  rtc (coord_step enc resolve_host) (ap_coord s) (ap_coord s').
Proof.
  intros Hf Hs. destruct (reading rt) eqn:Hr; [by apply serve_reads in Hs as ->|].
  destruct rt; try done; cbn [serve_route] in Hs;
    try (apply with_body_inv in Hs as [[-> _]|[x Hs]]; [done|cbn beta in Hs]);
    try (apply admin_only_inv in Hs as [[_ Hs]|(_ & -> & _)]; [|done]).
  - by apply join_handler_spec in Hs as (_ & _ & _ & ? & _).
  - apply login_handler_spec in Hs as [-> _]. done.
  - by injection Hs as <- <-.
  - eapply answer_step; [exact Hs|]. intros c' y Hy. by eapply cs_create_network.
  - eapply answer_step; [exact Hs|]. intros c' y Hy. by eapply cs_update_network.
  - eapply answer_step; [exact Hs|]. intros c' y Hy. destruct (delete_network _ _ _) as [[c1 h] r1] eqn:Hd. injection Hy as <- <-. by eapply cs_delete_network.
  - eapply answer_step; [exact Hs|]. intros c' y Hy. by eapply cs_create_member.
  - eapply answer_step; [exact Hs|]. intros c' y Hy. by eapply cs_update_member.
  - eapply answer_step; [exact Hs|]. intros c' y Hy. by eapply cs_forget_member.
  - eapply answer_step; [exact Hs|]. intros c' y Hy. by eapply cs_set_disabled.
  - eapply answer_step; [exact Hs|]. intros c' y Hy. by eapply cs_rotate_member.
  - eapply answer_step; [exact Hs|]. intros c' y Hy. by eapply cs_reconnect.
  - eapply answer_step; [exact Hs|]. intros c' y Hy. by eapply cs_import.
Qed.

(** A page that is not the coordinator's, with the cookie. *)
Definition foreign_page (q : HttpRequest) : Prop :=
  ∃ c o, cookie_token (hq_headers q) = Some c ∧ header_str (hq_headers q) "origin" = Some o ∧
    ∀ host, authority o = Some host → host ∉ origin_candidates (ac_public_url cfg) (hq_headers q) (hq_authority q).

Lemma foreign_guard q : foreign_page q → hq_method q ∉ ["GET"; "HEAD"; "OPTIONS"]%string → origin_guard (ac_public_url cfg) q = false.
Proof.
  intros (c & o & Hc & Ho & Hno) Hm. unfold origin_guard. rewrite Hc.
  assert (existsb (String.eqb (hq_method q)) ["GET"; "HEAD"; "OPTIONS"]%string = false) as ->.
  { apply not_true_iff_false. rewrite existsb_exists. intros (x & Hx & Hq%String.eqb_eq). apply Hm. rewrite Hq. by apply list_elem_of_In. }
  cbn [negb orb andb]. destruct (List.find (λ p, String.eqb p.1 "origin") (hq_headers q)) as [p|] eqn:Hfd;
    [|unfold header_str in Ho; by rewrite Hfd in Ho].
  rewrite Ho. change (default "null"%string (Some o)) with o. unfold same_origin. destruct (authority o) as [host|]; [|done].
  apply not_true_iff_false. rewrite existsb_exists. intros (x & Hx & ->%String.eqb_eq). apply (Hno x); [done|by apply list_elem_of_In].
Qed.

Lemma foreign_changes_nothing q body e s s' r : foreign_page q →
  handle enc resolve_host percent_decode verify_password pem_fingerprints cfg q body e s = (s', r) → s' = s.
Proof.
  intros Hfp. unfold handle. destruct (origin_guard _ q) eqn:Hg; cbn [negb]; [|by intros [= <- <-]].
  destruct (find_route _ _ _) as [rt|] eqn:Hr; [|by intros [= <- <-]].
  destruct (decide (hq_method q ∈ ["GET"; "HEAD"; "OPTIONS"]%string)) as [Hm|Hm]; [|by rewrite foreign_guard in Hg].
  apply serve_reads. rewrite !elem_of_cons in Hm. destruct Hm as [Hm|[Hm|[Hm|Hm]]]; [| | |by apply elem_of_nil in Hm]; rewrite Hm in Hr.
  - by eapply get_reads.
  - rewrite head_is_get in Hr. by eapply get_reads.
  - by rewrite options_nothing in Hr.
Qed.

Lemma feed_admin q events now f : (now, f) ∈ feed cfg q events →
  ∃ s, (FeedWake, now, s) ∈ events ∧ is_admin q now s = Ok tt ∧ f = live_frame (as_networks (co_app (ap_coord s))) now.
Proof.
  induction events as [|[[[] t] s] events IH]; cbn; [by intros ?%elem_of_nil| | |by intros ?%elem_of_nil].
  - destruct (is_admin q t s) as [[]|] eqn:Ha; [|by intros ?%elem_of_nil].
    intros [[= -> ->]|Hin]%elem_of_cons; [exists s; split_and!; [left|done|done]|]. destruct (IH Hin) as (x & ? & ?). exists x. split; [by right|done].
  - intros Hin. destruct (IH Hin) as (x & ? & ?). exists x. split; [by right|done].
Qed.
End guarded.

(** C10: Only an admin, and only from the coordinator's own pages, administers it.
    Whatever the request, what it does to the coordinator is a sequence of its
    operations. A request that does not pass the admin check learns nothing but
    errors, a join's or a login's answer and the public pages, changes no
    configuration, in memory or in the database, changes the coordinator at all only
    by joining, and the sessions only by logging in or out. A request that carries
    the session cookie for a page of another origin changes nothing, whatever its
    method. And the live feed sends a frame only at moments its credentials pass the
    check. *)
Theorem api_guarded `{O : IpNetOps, Q : MpscOps, L : CredLib, B : Base64, !JoinLib L, J : ApiJson} enc resolve_host percent_decode
    verify_password pem_fingerprints cfg q body e s s' r (Hf : fresh_secret (ap_coord s) (ev_secret e))
    (Hh : handle enc resolve_host percent_decode verify_password pem_fingerprints cfg q body e s = (s', r)) :
  rtc (coord_step enc resolve_host) (ap_coord s) (ap_coord s') ∧
  (check_admin (ac_admin cfg) (ac_admin_token cfg) (hq_headers q) (ev_now e) (ap_auth s) ≠ Ok tt →
     public_reply r = true ∧ co_rows (ap_coord s') = co_rows (ap_coord s) ∧ same_configs (co_app (ap_coord s)) (co_app (ap_coord s')) ∧
     (find_route percent_decode (hq_method q) (hq_path q) ≠ Some RtJoin → ap_coord s' = ap_coord s) ∧
     (find_route percent_decode (hq_method q) (hq_path q) ∉ [Some RtLogin; Some RtLogout] → ap_auth s' = ap_auth s)) ∧
  (foreign_page cfg q → s' = s) ∧
  (∀ events now f, (now, f) ∈ feed cfg q events → ∃ x, (FeedWake, now, x) ∈ events ∧
     check_admin (ac_admin cfg) (ac_admin_token cfg) (hq_headers q) now (ap_auth x) = Ok tt ∧
     f = live_frame (as_networks (co_app (ap_coord x))) now).
Proof.
  split_and!; [| |intros Hfp; by eapply foreign_changes_nothing|intros; by apply feed_admin];
    revert Hh; unfold handle; (destruct (origin_guard _ q); cbn [negb]; [|by intros [= <- <-]]);
    (destruct (find_route _ _ _) as [rt|] eqn:Hrt; [|by intros [= <- <-]]); intros Hh.
  - by eapply serve_steps.
  - intros Hn. eapply serve_denied in Hh as (H1 & H2 & H3 & H4 & H5); [|exact Hn]. split_and!; [done..| |].
    + intros Hne. apply H4. congruence.
    + intros Hne. apply H5; intros ->; apply Hne; rewrite !elem_of_cons; auto.
Qed.

Module ApiExample.
#[export] Existing Instance ipnet_ref.
#[export] Existing Instance mpsc_ref.
#[export] Existing Instance JoinExample.join_lib.

(** The join of [JoinExample] is the only body there is. *)
#[export] Instance bodies : ApiJson := {|
  json_join _ := Some JoinExample.req; json_login _ := None; json_network _ := None; json_new_member _ := None;
  json_member _ := None; json_import _ := None;
|}.

Definition cfg : ApiCfg := mkApiCfg AuthExample.cfg None None None.
Definition env (v : Reachability) : ApiEnv :=
  mkApiEnv 43300 43300 JoinExample.peer AdminExample.env JoinExample.env (mkImportEnv (λ _, None) (λ _, "u"%string)) "s-new" "u" "tok" true v.
Definition serve (q : HttpRequest) (v : Reachability) (c : Coord (L := CredExample.lib)) : ApiState * Reply :=
  handle (L := CredExample.lib) DirExample.enc AdminExample.no_dns Some AuthExample.argon (λ _, []) cfg q [] (env v) (mkApi c AuthExample.logged_in).

(** A rotation without credentials, and one with a session, for this page and for
    another. *)
Definition rotate (h : Headers) : HttpRequest := mkHttpRequest "POST" "/api/v1/networks/net/members/c1/token" None h.
Definition is_token (r : Reply) : bool := match r with RpToken _ _ _ _ _ => true | _ => false end.

Lemma answers_served :
  (serve (rotate []) Unknown AdminExample.c).2 = RpDenied AdminUnauthorized ∧
  is_token (serve (rotate AuthExample.headers) Unknown AdminExample.c).2 = true ∧
  (serve (rotate (("origin"%string, str_bytes "https://evil.example") :: AuthExample.headers)) Unknown AdminExample.c).2 = RpCrossOrigin.
Proof. vm_compute. done. Qed.

(** A relay whose address is dialed before it is let in, with another key than the
    instance that is running: the join is refused, but the running instance has been
    replaced, durably, and its session is gone. *)
Definition deny : SettingsCfg := mkSettingsCfg 15 5 3 60 1350 "deny" "stream" 1 0 30 false.
Definition n : NetState :=
  ns_set_sessions {[1 := JoinExample.session]} (ns_new DirExample.enc (cfg_set_space (nc_cidrs JoinExample.cfg) deny JoinExample.cfg) DirExample.reg 10 10000).
Definition c : Coord (L := CredExample.lib) :=
  mkCoord (mkAppState {["net"%string := n]} JoinExample.keyring rate_limiter_default 10 4433) ∅.
Definition denied := serve (mkHttpRequest "POST" "/api/v1/join" None []) Unreachable c.

Lemma denied_join_committed :
  denied.2 = RpError RelayUnreachable ∧
  match as_networks (co_app (ap_coord denied.1)) !! "net"%string with
  | Some n' => ns_sessions n' !! 1 = None ∧ mr_login_gen <$> rg_members (ns_disk n') !! 1 = Some 2
  | None => False
  end.
Proof. vm_compute. done. Qed.

(** A record whose member an import left out: its address is in the prefix table,
    but it is not among the members. *)
Definition leftover : NetState := ns_set_cfg (remove_member "c1" AdminExample.cfg).1 AdminExample.n.

Lemma leftovers_not_listed :
  po_owner <$> nst_prefix_table (network_status leftover "net" 100) = ["c1"%string] ∧
  ms_name <$> nst_members (network_status leftover "net" 100) = ["c2"; "r1"]%string.
Proof. vm_compute. done. Qed.
End ApiExample.

Lemma api_guarded_witness :
  let s := mkApi AdminExample.c AuthExample.logged_in in
  let r := ApiExample.serve (ApiExample.rotate []) Unknown AdminExample.c in
  ap_coord r.1 = ap_coord s ∧ ap_auth r.1 = ap_auth s ∧ public_reply r.2 = true.
Proof.
  cbn zeta.
  destruct (api_guarded (L := CredExample.lib) (J := ApiExample.bodies) DirExample.enc AdminExample.no_dns Some AuthExample.argon (λ _, []) ApiExample.cfg
    (ApiExample.rotate []) [] (ApiExample.env Unknown) (mkApi AdminExample.c AuthExample.logged_in)
    (ApiExample.serve (ApiExample.rotate []) Unknown AdminExample.c).1 (ApiExample.serve (ApiExample.rotate []) Unknown AdminExample.c).2)
    as (_ & Hn & _ & _).
  - exact CoordinatorExample.new_fresh.
  - apply surjective_pairing.
  - assert (find_route Some "POST" "/api/v1/networks/net/members/c1/token" = Some (RtRotateMember "net" "c1")) as Hr by (vm_compute; reflexivity).
    destruct Hn as (H1 & _ & _ & H2 & H3); [vm_compute; discriminate|]. cbn [ApiExample.rotate hq_method hq_path] in H2, H3. rewrite Hr in H2, H3.
    split_and!; [by apply H2|apply H3; by intros [?|[?|[]%elem_of_nil]%elem_of_cons]%elem_of_cons|exact H1].
Defined.
