(* ===== verification/Trust.v ===== *)
(** * Whom a member trusts as its coordinator (crates/nqvpn-proto/src/quic.rs, joinapi.rs)

    From the member's configuration file and token (crates/nqvpn-client/src/config.rs,
    crates/nqvpn-relay/src/config.rs) to the certificates its TLS connections to the
    coordinator accept. Certificates, how PEM is read and what a chain to the trusted
    roots is are rustls' ([TlsLib]). *)

From Stdlib Require Import Ascii.
From S2P Require Import Prelude Ordered Ipnet Text Control Replay Seal Credential Config Registry Leases Directory Ipam NetState RateLimit Join Validate.
From S2P Require Import Frame Tables RelayNet Admin Peers Token Client.

Class TlsLib := {
  Cert : Type;
  fingerprint_der : Cert → string;
  (* the certificates of a PEM text that can be read *)
  certs_from_pem : list Z → list Cert;
  (* [WebPkiServerVerifier] over the platform roots and these: whether it can be
     built, and its verdict on a certificate, its intermediates, a host and a time *)
  webpki_builds : list Cert → bool;
  webpki_verifies : list Cert → Cert → list Cert → string → Z → bool;
}.

(** ** Verifiers *)

Section verifiers.
Context `{X : TlsLib}.

Inductive ServerVerifier :=
| PinnedServerCert (expected_fps : list string)
| CoordServerVerifier (pinned : list string) (extra : list Cert).

Definition pinned_verifies (expected_fps : list string) (cert : Cert) : bool :=
  if bool_decide (expected_fps = []) then true else bool_decide (fingerprint_der cert ∈ expected_fps).

Definition coord_verifies (pinned : list string) (extra : list Cert) (cert : Cert) (inter : list Cert) (host : string) (now : Z) : bool :=
  if negb (bool_decide (pinned = [])) && bool_decide (fingerprint_der cert ∈ pinned) then true
  else webpki_verifies extra cert inter host now.

Definition server_accepts (v : ServerVerifier) (cert : Cert) (inter : list Cert) (host : string) (now : Z) : bool :=
  match v with
  | PinnedServerCert fps => pinned_verifies fps cert
  | CoordServerVerifier pinned extra => coord_verifies pinned extra cert inter host now
  end.

(** [CoordServerVerifier::new]: the given pins, and the extra certificates' own. *)
Definition coord_verifier_new (pinned_fps : list string) (extra : list Cert) : option ServerVerifier :=
  if webpki_builds extra then Some (CoordServerVerifier (pinned_fps ++ (fingerprint_der <$> extra)) extra) else None.

Definition coordinator_verifier (pinned_fps : list string) (trust_any : bool) (extra_ca : list Cert) : option ServerVerifier :=
  if trust_any && bool_decide (pinned_fps = []) && bool_decide (extra_ca = []) then Some (PinnedServerCert [])
  else coord_verifier_new pinned_fps extra_ca.

(** The verifier of [client_config]: a relay is dialed with the fingerprint the
    coordinator published for it. *)
Definition relay_dial_verifier (expected_server_fp : option string) : ServerVerifier := PinnedServerCert (option_list expected_server_fp).

(** [peer_fingerprint]: of the first certificate presented. *)
Definition peer_fingerprint (certs : option (list Cert)) : option string := fingerprint_der <$> (certs ≫= head).
End verifiers.

(** ** The member's configuration *)

Record JoinTls := mkJoinTls { jt_trust_any_cert : bool; jt_ca_pem : option string; jt_ca_cert : option string; jt_pinned_fps : list string }.

Record MemberConfig := mkMemberConfig { mb_coordinator : string; mb_secret : string; mb_tls : JoinTls }.

Record ClientConfig := mkClientConfig {
  cc_token : option string;
  cc_token_file : option string;
  cc_trust_any_cert : bool;
  cc_ca : option string;
  cc_ca_cert : option string;
  cc_coordinator_fp : list string;
  cc_state_dir : string;
  cc_tun_name : option string;
  cc_routes_allow : option (list IpNet);
  cc_relay_via : option string;
}.

Definition client_config_default : ClientConfig := mkClientConfig None None false None None [] "/var/lib/nqvpn-client" None None None.

Record TokenOverride := mkTokenOverride { to_token : option string; to_token_file : option string; to_env : option string }.

Record NetworkCfg := mkNetworkCfg { nw_token : option string; nw_token_file : option string }.

Record RelayConfig := mkRelayConfig {
  rf_trust_any_cert : bool;
  rf_ca : option string;
  rf_ca_cert : option string;
  rf_coordinator_fp : list string;
  rf_networks : list NetworkCfg;
}.

Section config.
Context `{L : CredLib, X : TlsLib}.
(** The files of the machine. *)
Context (files : string → option (list Z)).

Definition read_to_string (path : string) : option string :=
  b ← files path; if utf8_valid b then Some (bytes_str b) else None.

(** Where the token is, by precedence; [None] if there is none, or its file
    cannot be read. *)
Definition token_text (cfg : ClientConfig) (o : TokenOverride) : option string :=
  match to_token o, to_token_file o, to_env o, cc_token cfg, cc_token_file cfg with
  | Some t, _, _, _, _ => Some t
  | None, Some f, _, _, _ => read_to_string f
  | None, None, Some t, _, _ => Some t
  | None, None, None, Some t, _ => Some t
  | None, None, None, None, Some f => read_to_string f
  | None, None, None, None, None => None
  end.

Definition parsed_token (s : string) : option Token := match token_parse s with Ok t => Some t | Err _ => None end.

Definition token_from (cfg : ClientConfig) (o : TokenOverride) : option Token :=
  raw ← token_text cfg o; parsed_token (trim raw).

Definition client_tls (cfg : ClientConfig) : JoinTls := mkJoinTls (cc_trust_any_cert cfg) (cc_ca cfg) (cc_ca_cert cfg) [].

Definition from_token (t : Token) (tls : JoinTls) : MemberConfig := mkMemberConfig (tk_coordinator t) (tk_secret t) tls.

(** The token's fingerprint, then those staged for a rotation. *)
Definition with_pins (t : Token) (staged : list string) (tls : JoinTls) : JoinTls :=
  mkJoinTls (jt_trust_any_cert tls) (jt_ca_pem tls) (jt_ca_cert tls) (option_list (tk_fp t) ++ staged).

Definition member_from (cfg : ClientConfig) (o : TokenOverride) : option MemberConfig :=
  t ← token_from cfg o; Some (from_token t (with_pins t (cc_coordinator_fp cfg) (client_tls cfg))).

Definition route_policy `{O : IpNetOps} (cfg : ClientConfig) : RoutePolicy :=
  match cc_routes_allow cfg with Some allow => allow_list allow | None => policy_default end.

(** [--relay-via] first; [None]: not understood. *)
Definition relay_via (cfg : ClientConfig) (cli : option string) : option (option RelayVia) :=
  match match cli with Some s => Some s | None => cc_relay_via cfg end with
  | None => Some None
  | Some s => match relay_via_parse s with Ok v => Some (Some v) | Err _ => None end
  end.

(** A relay's tokens, one per network. *)
Definition network_token (n : NetworkCfg) : option Token :=
  raw ← match nw_token n, nw_token_file n with
        | Some t, _ => Some t
        | None, Some f => read_to_string f
        | None, None => None
        end;
  parsed_token raw.

(** [RelayConfig::load], the file parsed: it names a network, and every token is
    understood. *)
Definition relay_loads (cfg : RelayConfig) : bool :=
  negb (bool_decide (rf_networks cfg = [])) && forallb (λ n, opt_some (network_token n)) (rf_networks cfg).

Definition relay_tls (cfg : RelayConfig) : JoinTls := mkJoinTls (rf_trust_any_cert cfg) (rf_ca cfg) (rf_ca_cert cfg) [].

Definition relay_member (cfg : RelayConfig) (n : NetworkCfg) : option MemberConfig :=
  t ← network_token n; Some (from_token t (with_pins t (rf_coordinator_fp cfg) (relay_tls cfg))).

(** ** Connections to the coordinator *)

(** [None]: the file cannot be read. *)
Definition extra_ca (tls : JoinTls) : option (list Cert) :=
  let inline := match jt_ca_cert tls with Some pem => certs_from_pem (str_bytes pem) | None => [] end in
  match jt_ca_pem tls with
  | Some path => pem ← files path; Some (inline ++ certs_from_pem pem)
  | None => Some inline
  end.

(** [tls_config] of the HTTPS join, and [coordinator_client_config] of the control
    plane: one decision. *)
Definition member_verifier (tls : JoinTls) : option ServerVerifier :=
  extra ← extra_ca tls; coordinator_verifier (jt_pinned_fps tls) (jt_trust_any_cert tls) extra.
End config.

(** ** What is accepted *)

Section trust.
Context `{L : CredLib, X : TlsLib}.
Context (files : string → option (list Z)).

(** The certificates that pass, for these pins and extra certificates. *)
Definition trusted (pins : list string) (trust_any : bool) (extra : list Cert) (cert : Cert) (inter : list Cert) (host : string) (now : Z) : Prop :=
  fingerprint_der cert ∈ pins ∨ (∃ ca, ca ∈ extra ∧ fingerprint_der ca = fingerprint_der cert) ∨
  webpki_verifies extra cert inter host now = true ∨ (pins = [] ∧ extra = [] ∧ trust_any = true).

Lemma coord_verifies_spec pins extra cert inter host now :
  coord_verifies (pins ++ (fingerprint_der <$> extra)) extra cert inter host now = true ↔
  fingerprint_der cert ∈ pins ∨ (∃ ca, ca ∈ extra ∧ fingerprint_der ca = fingerprint_der cert) ∨ webpki_verifies extra cert inter host now = true.
Proof.
  assert (fingerprint_der cert ∈ fingerprint_der <$> extra ↔ ∃ ca, ca ∈ extra ∧ fingerprint_der ca = fingerprint_der cert) as Hx
    by (rewrite list_elem_of_fmap; naive_solver).
  unfold coord_verifies. rewrite <- Hx. destruct (bool_decide (fingerprint_der cert ∈ _)) eqn:Hb.
  - apply bool_decide_eq_true in Hb. rewrite bool_decide_eq_false_2 by (intros He; rewrite He in Hb; by apply elem_of_nil in Hb).
    apply elem_of_app in Hb. cbn. naive_solver.
  - apply bool_decide_eq_false in Hb. rewrite elem_of_app in Hb. rewrite andb_false_r. naive_solver.
Qed.

Lemma coordinator_verifier_spec pins trust_any extra v : coordinator_verifier pins trust_any extra = Some v →
  ∀ cert inter host now, server_accepts v cert inter host now = true ↔ trusted pins trust_any extra cert inter host now.
Proof.
  unfold coordinator_verifier, coord_verifier_new, trusted. intros Hv cert inter host now.
  destruct trust_any; cbn [andb] in Hv; [repeat case_bool_decide; cbn [andb] in Hv|].
  1: { injection Hv as <-. cbn. naive_solver. }
  all: destruct (webpki_builds extra); [|done]; injection Hv as <-; cbn [server_accepts]; rewrite coord_verifies_spec; naive_solver.
Qed.

(** What a member made of a token and a configuration trusts. *)
Lemma member_verifier_spec t staged tls extra v : extra_ca files tls = Some extra →
  member_verifier files (with_pins t staged tls) = Some v →
  ∀ cert inter host now, server_accepts v cert inter host now = true ↔
    trusted (option_list (tk_fp t) ++ staged) (jt_trust_any_cert tls) extra cert inter host now.
Proof.
  intros He. unfold member_verifier. replace (extra_ca files (with_pins t staged tls)) with (extra_ca files tls) by done. rewrite He.
  cbn [mbind option_bind]. apply coordinator_verifier_spec.
Qed.

(** A relay and a client with the same settings trust the same. *)
Lemma relay_trusts_alike cfg n mc t : relay_member files cfg n = Some mc → network_token files n = Some t →
  mb_tls mc = with_pins t (rf_coordinator_fp cfg) (relay_tls cfg).
Proof. unfold relay_member. intros H Ht. rewrite Ht in H. by injection H as <-. Qed.
End trust.


Module TrustExample.
#[export] Existing Instance TokenExample.alphabet.
#[export] Existing Instance CredExample.lib_laws.

(** Certificates are their fingerprints; the roots vouch for one. *)
#[export] Instance tls : TlsLib := {|
  Cert := string;
  fingerprint_der c := c;
  certs_from_pem b := if bool_decide (b = []) then [] else [bytes_str b];
  webpki_builds _ := true;
  webpki_verifies extra cert _ _ _ := bool_decide (cert ∈ "public"%string :: extra);
|}.

Definition files (path : string) : option (list Z) := if String.eqb path "/etc/empty.pem" then Some [] else None.
Definition token : Token := mkToken "https://coord.example:8443" "s-c1" (Some "sha256:ab"%string).
Definition text : string := (" " +:+ token_encode (L := CredExample.lib) token +:+ String "010" "")%string.
Definition cfg : ClientConfig := mkClientConfig None None true None None ["sha256:next"%string] "/var/lib/nqvpn-client" None None None.
Definition o : TokenOverride := mkTokenOverride None None (Some text).
Definition mc : MemberConfig := mkMemberConfig "https://coord.example:8443" "s-c1" (mkJoinTls true None None ["sha256:ab"; "sha256:next"]%string).
Definition v : ServerVerifier := CoordServerVerifier ["sha256:ab"; "sha256:next"]%string [].

(** A CA that is configured but holds no certificate that can be read, and no pin:
    with [trust_any_cert], anything is accepted. *)
Lemma unreadable_ca_trusts_any :
  member_verifier files (mkJoinTls true (Some "/etc/empty.pem"%string) None []) = Some (PinnedServerCert []) ∧
  server_accepts (PinnedServerCert []) "sha256:evil"%string [] "coord.example" 0 = true.
Proof. vm_compute. done. Qed.

(** With the token's pin, a certificate that chains to the platform's roots is accepted as well. *)
Lemma public_beside_pin : server_accepts v "public"%string [] "coord.example" 0 = true ∧ "public"%string ∉ ["sha256:ab"; "sha256:next"]%string.
Proof. split; [vm_compute; reflexivity|by_decide]. Qed.
End TrustExample.

#[local] Existing Instance TokenExample.alphabet.
#[local] Existing Instance CredExample.lib_laws.

