(* ===== verification/Typed.v ===== *)
(** * What every stored and served configuration is

    [NetworkConfig::ipv4_cidr] panics on a configuration without an IPv4 prefix.
    It is called where a configuration is stored ([Store]), shown ([Api]) and where
    addresses are allocated ([Ipam]); that none of these can panic is an invariant of
    the whole coordinator. *)

From S2P Require Import Prelude Ordered Ipnet Text Control Replay Seal Credential Config Registry Leases Directory Ipam NetState RateLimit Join Validate.
From S2P Require Import Frame Tables RelayNet Admin Coordinator AdminAuth Token Store Restart Api.

Definition v4_ok (cfg : NetworkConfig) : Prop := is_Some (ipv4_cidr cfg).

Lemma v4_ok_same cfg cfg' : nc_cidrs cfg' = nc_cidrs cfg → v4_ok cfg → v4_ok cfg'.
Proof. unfold v4_ok, ipv4_cidr. by intros ->. Qed.

Section typed.
Context `{O : IpNetOps, Q : MpscOps, L : CredLib, B : Base64, !JoinLib L}.
Context (enc : Snapshot → list Z) (resolve_host : string → Z → list IpAddr).

Lemma set_disabled_rows keys rows n name b e rows' n' r :
  set_disabled_locked enc keys rows n name b e = (rows', n', r) → rows' = rows.
Proof.
  unfold set_disabled_locked. destruct (id_of _ _); [|by intros [= <- _ _]]. destruct (rg_members _ !! _); [|by intros [= <- _ _]].
  by destruct (commit_registry _ _ _) as [n1 []]; intros [= <- _ _].
Qed.

(** What validation lets through. *)
Lemma validated_v4 cfg hosts cfg' : validate_network_with resolve_host cfg hosts = (cfg', Ok tt) → v4_ok cfg'.
Proof.
  unfold validate_network_with. destruct (or_else _ _) eqn:E; [done|]. intros [= <-]. apply or_else_none in E as [E _].
  unfold check_network in E. rewrite !or_else_none, guards_none, !Forall_cons in E. destruct E as (_ & (H4 & _) & _). cbn [fst] in H4.
  apply negb_false_iff, Nat.eqb_eq, one_ipv4 in H4 as [v4 Hv]. by exists v4.
Qed.

Lemma check_change_v4 cfg hosts reg cfg' : check_change resolve_host cfg hosts reg = Ok cfg' → v4_ok cfg'.
Proof.
  unfold check_change. destruct (validate_network_with _ _ _) as [c [[]|]] eqn:Hv; [|done]. destruct (validate_assignments _ _); [|done].
  intros [= <-]. by eapply validated_v4.
Qed.

(** Every configuration in memory and every row. *)
Definition typed (c : Coord) : Prop :=
  (∀ id n, as_networks (co_app c) !! id = Some n → v4_ok (ns_cfg n)) ∧ (∀ id cfg, co_rows c !! id = Some cfg → v4_ok cfg).

(** What an operation under a network's lock makes of them. *)
Definition v4_kept (rows : Rows) (n : NetState) (rows' : Rows) (n' : NetState) : Prop :=
  v4_ok (ns_cfg n) → v4_ok (ns_cfg n') ∧ (rows' = rows ∨ ∃ id, rows' = <[id := ns_cfg n']> rows).

Lemma kept_same rows n n' : ns_face n' = ns_face n → v4_kept rows n rows n'.
Proof. intros [= Hc _] Hv. rewrite Hc. auto. Qed.

Lemma kept_saved rows n id cfg d n' : ns_face n' = (cfg, d) → (v4_ok (ns_cfg n) → v4_ok cfg) → v4_kept rows n (<[id := cfg]> rows) n'.
Proof. intros [= Hc _] Hv H. rewrite Hc. split; [auto|]. right. by exists id. Qed.

Lemma kept_unsaved rows n cfg d n' : ns_face n' = (cfg, d) → (v4_ok (ns_cfg n) → v4_ok cfg) → v4_kept rows n rows n'.
Proof. intros [= Hc _] Hv H. rewrite Hc. auto. Qed.

Lemma on_net_typed {T} c id (f : Rows → NetState → Rows * NetState * Result T ApiError) c' r :
  on_net c id f = (c', r) → typed c →
  (∀ n rows n', as_networks (co_app c) !! id = Some n → f (co_rows c) n = (rows, n', r) → v4_kept (co_rows c) n rows n') → typed c'.
Proof.
  intros Hc [Hn Hr] Hf. unfold on_net in Hc. destruct (as_networks _ !! id) as [n|] eqn:Hid; [|by injection Hc as <- <-].
  destruct (f _ n) as [[rows n'] x] eqn:Hx. injection Hc as <- ->.
  destruct (Hf n rows n' eq_refl Hx (Hn _ _ Hid)) as [Hv Hrows]. split; cbn.
  - intros i y [[<- <-]|[_ Hy]]%lookup_insert_Some; [done|by eapply Hn].
  - destruct Hrows as [->|[j ->]]; [done|]. intros i cfg [[<- <-]|[_ Hy]]%lookup_insert_Some; [done|by eapply Hr].
Qed.

Lemma update_network_v4 keys rows n hosts spec e rows' n' r :
  update_network_locked enc resolve_host keys rows n hosts spec e = (rows', n', r) → v4_kept rows n rows' n'.
Proof.
  unfold update_network_locked. destruct (check_change _ _ _ _) as [cfg|] eqn:Hc; [|intros [= <- <- <-]; by apply kept_same].
  apply check_change_v4 in Hc. unfold save_config. destruct (ae_cfg_ok e); intros [= <- <- <-]; [|by eapply kept_unsaved].
  eapply kept_saved; [|done]. rewrite publish_face. destruct (everyone_must_rejoin _ _); [|done].
  unfold reconfigure_all. cbn. by rewrite reconfigure_all_face.
Qed.

Lemma create_member_v4 rows n hosts name role spec secret e rows' n' r :
  create_member_locked resolve_host rows n hosts name role spec secret e = (rows', n', r) → v4_kept rows n rows' n'.
Proof.
  unfold create_member_locked. destruct (member_by_name _ _); [intros [= <- <- <-]; by apply kept_same|].
  destruct (check_change _ _ _ _) as [cfg|] eqn:Hc; [|intros [= <- <- <-]; by apply kept_same].
  apply check_change_v4 in Hc. unfold save_config. destruct (ae_cfg_ok e); intros [= <- <- <-]; [by eapply kept_saved|by eapply kept_unsaved].
Qed.

Lemma update_member_v4 keys rows n hosts name spec e rows' n' r :
  update_member_locked enc resolve_host keys rows n hosts name spec e = (rows', n', r) → v4_kept rows n rows' n'.
Proof.
  unfold update_member_locked. destruct (member_by_name _ _); [|intros [= <- <- <-]; by apply kept_same].
  destruct (check_change _ _ _ _) as [cfg|] eqn:Hc; [|intros [= <- <- <-]; by apply kept_same].
  apply check_change_v4 in Hc. unfold save_config. destruct (ae_cfg_ok e); intros [= <- <- <-]; [|by eapply kept_unsaved].
  eapply kept_saved; [|done]. by rewrite announce_face, publish_face, reconfigure_names_face.
Qed.

Lemma alter_member_v4 f name cfg : v4_ok cfg → v4_ok (alter_member f name cfg).
Proof. apply v4_ok_same. unfold alter_member. by case_match. Qed.

Lemma remove_member_v4 name cfg : v4_ok cfg → v4_ok (remove_member name cfg).1.
Proof. apply v4_ok_same. unfold remove_member. by case_match. Qed.

Lemma rotate_member_v4 keys rows n name secret e rows' n' r :
  rotate_member_locked enc keys rows n name secret e = (rows', n', r) → v4_kept rows n rows' n'.
Proof.
  unfold rotate_member_locked, save_config. destruct (member_by_name _ _); [|intros [= <- <- <-]; by apply kept_same].
  pose proof (alter_member_v4 (set_secret secret) name (ns_cfg n)) as Hv. cbn zeta.
  destruct (ae_cfg_ok e); [|intros [= <- <- <-]; by eapply kept_unsaved].
  destruct (id_of _ _) as [node|]; [|intros [= <- <- <-]; by eapply kept_saved].
  destruct (commit_registry _ _ _) as [n1 []] eqn:Hc; apply commit_face in Hc; intros [= <- <- <-]; (eapply kept_saved; [|exact Hv]).
  - by rewrite publish_face, close_face, Hc, set_registry_face.
  - by rewrite Hc, set_registry_face.
Qed.

Lemma forget_member_v4 keys rows n name e rows' n' r :
  forget_member_locked enc keys rows n name e = (rows', n', r) → v4_kept rows n rows' n'.
Proof.
  unfold forget_member_locked, save_config. pose proof (remove_member_v4 name (ns_cfg n)) as Hv.
  destruct (remove_member name (ns_cfg n)) as [cfg gone]. cbn [fst] in Hv. cbn zeta.
  destruct (negb gone && _); [intros [= <- <- <-]; by eapply kept_unsaved|].
  destruct (ae_cfg_ok e); [|intros [= <- <- <-]; by eapply kept_unsaved].
  destruct (id_of _ _) as [node|]; [|intros [= <- <- <-]; eapply kept_saved; [by rewrite publish_face|done]].
  destruct (commit_registry _ _ _) as [n1 []] eqn:Hc; apply commit_face in Hc; intros [= <- <- <-]; (eapply kept_saved; [|exact Hv]).
  - by rewrite publish_face, set_directory_face, set_leases_face, close_face, Hc, set_registry_face.
  - by rewrite Hc, set_registry_face.
Qed.

Lemma import_typed c cfgs ie e c' r : import enc resolve_host c cfgs ie e = (c', r) → keyed (as_networks (co_app c)) → typed c → typed c'.
Proof.
  intros Hi Hk [Hn Hr]. destruct r as [ids|err]; [|by apply import_err in Hi as ->].
  destruct (import_ok _ _ _ _ _ _ _ _ Hi) as (sorted & pairs & Hp & -> & _ & Hfst & Hv & _ & _ & Hin & Hout).
  assert (∀ p, p ∈ pairs → v4_ok p.1) as Hpairs.
  { intros p Hpin. assert (p.1 ∈ sorted) as Hs by (rewrite <- Hfst; by apply list_elem_of_fmap_2).
    rewrite Hp in Hs. apply list_elem_of_fmap in Hs as (cfg & -> & Hc). rewrite Forall_forall in Hv. by eapply validated_v4, Hv. }
  assert (∀ id, id ∈ nc_network_id <$> sorted → ∃ p, p ∈ pairs ∧ id = nc_network_id p.1) as Hids.
  { intros id Hid. rewrite <- Hfst, <- list_fmap_compose in Hid. apply list_elem_of_fmap in Hid as (p & -> & Hpin). eauto. }
  split.
  - intros id n Hid. destruct (decide (id ∈ nc_network_id <$> sorted)) as [(p & Hpin & ->)%Hids|Hni].
    + destruct (Hin p Hpin) as [He _]. rewrite He in Hid. injection Hid as <-.
      rewrite (proj1 (imported_net_face enc (co_keys c) e (as_networks (co_app c)) p Hk)). by apply Hpairs.
    + rewrite (proj1 (Hout id Hni)) in Hid. by eapply Hn.
  - intros id cfg Hid. destruct (decide (id ∈ nc_network_id <$> sorted)) as [(p & Hpin & ->)%Hids|Hni].
    + destruct (Hin p Hpin) as [_ He]. rewrite He in Hid. injection Hid as <-. by apply Hpairs.
    + rewrite (proj2 (Hout id Hni)) in Hid. by eapply Hr.
Qed.

Lemma same_configs_typed c a rows : (∀ id n', as_networks a !! id = Some n' → ∃ n, as_networks (co_app c) !! id = Some n ∧ ns_cfg n' = ns_cfg n) →
  rows = co_rows c → typed c → typed (mkCoord a rows).
Proof. intros Ha -> [Hn Hr]. split; [|done]. cbn. intros id n' (n & Hid & ->)%Ha. by eapply Hn. Qed.

Lemma coord_step_typed c c' : coord_step enc resolve_host c c' → keyed (as_networks (co_app c)) → typed c → typed c'.
Proof.
  destruct 1 as [c spec uuid e c' r H|c id spec e c' r H|c id e c' h r H|c id name role spec secret e c' r _ H|c id name spec e c' r H
    |c id name secret e c' r _ H|c id name e c' r H|c id name b e c' r H|c id name c' r H|c cfgs ie e c' r H|c req peer now je a out H
    |c id n n' Hn Hc _]; intros Hk Ht.
  - unfold create_network in H. destruct (valid_name _); [|by injection H as <- <-].
    destruct (validate_network resolve_host _) as [cfg [[]|]] eqn:Hv; [|by injection H as <- <-]. apply validated_v4 in Hv.
    case_bool_decide; [by injection H as <- <-|]. destruct (ae_cfg_ok e); injection H as <- <-; [|done]. destruct Ht as [Hn Hr].
    split; cbn; [intros i x [[<- <-]|[_ Hx]]%lookup_insert_Some; [done|by eapply Hn]|intros i x [[<- <-]|[_ Hx]]%lookup_insert_Some; [done|by eapply Hr]].
  - eapply on_net_typed; [exact H|done|]. intros n rows n' _ Hx. eapply update_network_v4. exact Hx.
  - unfold delete_network in H. destruct (as_networks _ !! id); [|by injection H as <- <- <-].
    destruct (ae_cfg_ok e); injection H as <- <- <-; [|done]. destruct Ht as [Hn Hr].
    split; cbn; [intros i x [_ Hx]%lookup_delete_Some; by eapply Hn|intros i x [_ Hx]%lookup_delete_Some; by eapply Hr].
  - unfold create_member in H. destruct (valid_name name); [|by injection H as <- <-].
    eapply on_net_typed; [exact H|done|]. intros n rows n' _ Hx. eapply create_member_v4. exact Hx.
  - eapply on_net_typed; [exact H|done|]. intros n rows n' _ Hx. eapply update_member_v4. exact Hx.
  - eapply on_net_typed; [exact H|done|]. intros n rows n' _ Hx. eapply rotate_member_v4. exact Hx.
  - eapply on_net_typed; [exact H|done|]. intros n rows n' _ Hx. eapply forget_member_v4. exact Hx.
  - eapply on_net_typed; [exact H|done|]. intros n rows n' _ Hx. pose proof (set_disabled_rows _ _ _ _ _ _ _ _ _ Hx) as ->.
    by eapply kept_same, set_disabled_ok, Hx.
  - eapply on_net_typed; [exact H|done|]. intros n rows n' _ Hx. cbn beta in Hx.
    destruct (id_of _ _); injection Hx as <- <- <-; [apply kept_same, core_face, close_session_core|by apply kept_same].
  - by eapply import_typed.
  - eapply same_configs_typed; [|done|exact Ht]. apply join_networks in H as [->|(id & n & n' & Hn & [= Hc _] & ->)]; [eauto|].
    intros i x [[<- <-]|[_ Hx]]%lookup_insert_Some; eauto.
  - eapply same_configs_typed; [|done|exact Ht]. cbn. intros i x [[<- <-]|[_ Hx]]%lookup_insert_Some; eauto.
Qed.

Lemma coord_steps_typed c c' : rtc (coord_step enc resolve_host) c c' → coord_inv c → typed c → coord_inv c' ∧ typed c'.
Proof.
  induction 1 as [|c c1 c2 Hst _ IH]; [done|]. intros Hi Ht.
  apply IH; [by eapply coord_step_inv|eapply coord_step_typed; [exact Hst|apply Hi|done]].
Qed.
End typed.

Section replies.
Context `{O : IpNetOps, Q : MpscOps, L : CredLib, B : Base64, !JoinLib L, J : ApiJson}.
Context (enc : Snapshot → list Z) (resolve_host : string → Z → list IpAddr).
Context (verify_password : string → string → bool) (pem_fingerprints : string → list string) (cfg : ApiCfg).

Lemma answer_never_panics {T} s (op : Coord * Result T ApiError) f s' r :
  answer_with s op f = (s', r) → (∀ c x, f c x ≠ RpPanicked) → r ≠ RpPanicked.
Proof. intros [= _ <-] Hf. by destruct op.2. Qed.

Lemma token_never_panics q c id name : token_json pem_fingerprints cfg q c id name ≠ RpPanicked.
Proof. unfold token_json. by destruct (member_token _ _ _ _ _) as [[]|]. Qed.

(** Only the configuration page may panic, on a network without an IPv4 prefix. *)
Lemma serve_never_panics rt q body e s s' r :
  (∀ id n, as_networks (co_app (ap_coord s)) !! id = Some n → v4_ok (ns_cfg n)) →
  serve_route enc resolve_host verify_password pem_fingerprints cfg rt q body e s = (s', r) → r ≠ RpPanicked.
Proof.
  intros Hn Hs. destruct rt; cbn [serve_route] in Hs;
    try (apply with_body_inv in Hs as [[_ ->]|[x Hs]]; [done|cbn beta in Hs]);
    try (apply admin_only_inv in Hs as [[_ Hs]|(_ & _ & err & ->)]; [|done]);
    try (eapply answer_never_panics; [exact Hs|]; intros; first [done|apply token_never_panics]);
    unfold read_net in *; try (by injection Hs as _ <-).
  - apply (join_handler_spec enc resolve_host) in Hs as (_ & _ & _ & _ & Hp). by intros ->.
  - apply login_handler_spec in Hs as [_ Hp]. by intros ->.
  - injection Hs as _ <-. by destruct (ac_cert cfg) as [[]|].
  - injection Hs as _ <-. by destruct (_ !! id).
  - injection Hs as _ <-. destruct (_ !! id) as [n|] eqn:Hid; [|done]. destruct (Hn _ _ Hid) as [v4 Hv]. unfold config_reply. by rewrite Hv.
  - injection Hs as _ <-. destruct (_ !! id) as [n|]; [|done]. unfold member_reply. by destruct (member_by_name _ _) as [[]|].
  - injection Hs as _ <-. apply token_never_panics.
Qed.
End replies.

Lemma stored_form_v4 cfg : v4_ok cfg → v4_ok (stored_form cfg).
Proof.
  intros [v4 Hv]. unfold v4_ok, ipv4_cidr, stored_form. cbn [nc_cidrs]. rewrite Hv. cbn.
  apply ipv4_cidr_some in Hv as (_ & a & l & ->). cbn. by eexists.
Qed.

(** C17: No configuration without an IPv4 prefix. Through every operation of the
    coordinator, failing ones included, every configuration it serves and every one
    in its database has the IPv4 prefix that [ipv4_cidr] expects, and keeps it when
    it is stored and loaded. So storing one never panics, the import's transaction
    neither, and no request for one makes the API panic. *)
Theorem configs_typed `{O : IpNetOps, Q : MpscOps, L : CredLib, B : Base64, !JoinLib L, J : ApiJson, D : SqliteOps} enc resolve_host c0 c
    (H0 : coord_inv c0) (Ht : typed c0) (Hr : rtc (coord_step enc resolve_host) c0 c) :
  (∀ id n, as_networks (co_app c) !! id = Some n → v4_ok (ns_cfg n) ∧ v4_ok (stored_form (ns_cfg n)) ∧
     ∀ now d, (db_save_network (ns_cfg n) now d).2 ≠ Unwound) ∧
  (∀ nets now d, (∀ p, p ∈ nets → ∃ id n, as_networks (co_app c) !! id = Some n ∧ p.1 = ns_cfg n) → (db_save_networks nets now d).2 ≠ Unwound) ∧
  (∀ percent_decode verify_password pem_fingerprints cfg q body e auth s' r,
     handle enc resolve_host percent_decode verify_password pem_fingerprints cfg q body e (mkApi c auth) = (s', r) → r ≠ RpPanicked).
Proof.
  destruct (coord_steps_typed enc resolve_host c0 c Hr H0 Ht) as [_ [Hn _]]. split_and!.
  - intros id n Hid. specialize (Hn _ _ Hid). split_and!; [done|by apply stored_form_v4|]. intros now d. unfold db_save_network, config_row.
    destruct (config_to_wire (ns_cfg n)) eqn:Hw; [|apply config_to_wire_none in Hw; destruct Hn as [v4 Hv]; congruence].
    cbn [fmap option_fmap option_map]. by destruct (sq_execute _ d) as [d' []].
  - intros nets now d Hnets. unfold db_save_networks. destruct (network_rows nets) as [rows|] eqn:Hw.
    + destruct (sq_begin d) as [d1 []]; [|done]. destruct (execute_rows rows now d1) as [d2 []]; [|done]. by destruct (sq_commit d2) as [d3 []].
    + apply network_rows_none in Hw as (p & Hp & Hv). destruct (Hnets p Hp) as (id & n & Hid & He). rewrite He in Hv.
      destruct (Hn _ _ Hid) as [v4 Hs]. congruence.
  - intros percent_decode verify_password pem_fingerprints cfg q body e auth s' r Hh ->. revert Hh. unfold handle.
    destruct (origin_guard _ _); cbn [negb]; [|done]. destruct (find_route _ _ _) as [rt|]; [|done]. intros Hh.
    by eapply serve_never_panics in Hh; [|exact Hn].
Qed.

Lemma configs_typed_witness :
  ∃ n, as_networks (co_app (AdminExample.rot).1) !! "net"%string = Some n ∧ v4_ok (ns_cfg n) ∧
    (db_save_network (D := StoreExample.sqlite) (ns_cfg n) 1000 StoreExample.empty).2 ≠ Unwound.
Proof.
  destruct (configs_typed (L := CredExample.lib) (J := ApiExample.bodies) (D := StoreExample.sqlite) DirExample.enc AdminExample.no_dns AdminExample.c
    (AdminExample.rot).1 CoordinatorExample.c_inv) as [H _].
  - split; intros id x; cbn; rewrite lookup_singleton_Some; intros [_ <-]; by eexists.
  - apply rtc_once, CoordinatorExample.rotated_step.
  - assert (is_none (as_networks (co_app (AdminExample.rot).1) !! "net"%string) = false) as Hs by (vm_compute; reflexivity).
    destruct (as_networks (co_app (AdminExample.rot).1) !! "net"%string) as [n|] eqn:Hn; [|done]. destruct (H _ _ Hn) as (Hv & _ & Hd). by exists n.
Defined.
