(* ===== verification/Host.v ===== *)
(** * What a member looks up on its host

    Whether an exit relay can forward to the internet
    (crates/nqvpn-relay/src/exitcheck.rs), what the host's interfaces route already
    (crates/nqvpn-endpoint/src/ifaces.rs), and the lock that keeps a second endpoint
    of a network off the host (crates/nqvpn-endpoint/src/endpoint_guard.rs). *)

From S2P Require Import Prelude Ordered Ipnet Text Control Config Validate Lanes Routes KernelRoutes Token Http.

(** ** Exit readiness *)

Section exit_check.
(** Which paths are files, what a program prints, and /proc/sys/net/ipv4/ip_forward. *)
Context (is_file : string → bool) (output : string → list string → option (list Z)) (proc_ip_forward : option (list Z)).

Definition TOOL_DIRS : list string := ["/usr/sbin"; "/sbin"; "/usr/bin"; "/bin"]%string.

Definition tool (name : string) : option string := List.find is_file ((λ d, d +:+ "/" +:+ name)%string <$> TOOL_DIRS).

Definition run_tool (name : string) (args : list string) : option (list Z) := p ← tool name; from_utf8_lossy <$> output p args.

Definition ip_forward_on : bool :=
  match proc_ip_forward with Some s => utf8_valid s && bool_decide (trim_text s = str_bytes "1") | None => false end.

(** The word after the first [dev] of a line, if there is such a word. *)
Fixpoint after_dev (words : list (list Z)) : option (option (list Z)) :=
  match words with
  | [] => None
  | w :: words => if bool_decide (w = str_bytes "dev") then Some (head words) else after_dev words
  end.

Definition egress_iface : option (list Z) :=
  s ← run_tool "ip" ["route"; "show"; "default"]%string;
  default None (head (omap (λ l, after_dev (split_whitespace l)) (str_lines s))).

(** A rule that is taken to cover traffic that leaves by [egress]. *)
Definition rule_covers (egress : option (list Z)) (line : list Z) : bool :=
  let l := to_ascii_lowercase line in
  contains (str_bytes "masquerade") l &&
  (match egress with
   | Some dev =>
       let dev := to_ascii_lowercase dev in
       contains (str_bytes "oifname " ++ [34] ++ dev ++ [34]) l || contains (str_bytes "-o " ++ dev ++ [32]) l ||
       match strip_bytes (rev (str_bytes "-o " ++ dev)) (rev l) with Some _ => true | None => false end
   | None => false
   end ||
   (negb (contains (str_bytes "oifname") l) && negb (contains (str_bytes "-o ") l))).

Definition firewall_tools : list (string * list string) :=
  [("nft", ["list"; "ruleset"]); ("iptables-save", ["-t"; "nat"]); ("iptables-legacy-save", ["-t"; "nat"]); ("ip6tables-save", ["-t"; "nat"])]%string.

Definition firewall_text : list Z :=
  firewall_tools ≫= λ c, match run_tool c.1 c.2 with Some o => o ++ [10] | None => [] end.

Definition masquerade_covers_egress : bool := existsb (rule_covers egress_iface) (str_lines firewall_text).

Definition exit_detect : ExitReadiness := mkExitReadiness ip_forward_on masquerade_covers_egress.

(** Only programs of the system's directories are run. *)
Lemma tool_dirs name p : tool name = Some p → is_file p = true ∧ ∃ d, d ∈ TOOL_DIRS ∧ p = (d +:+ "/" +:+ name)%string.
Proof.
  unfold tool. intros [Hin Hf]%List.find_some. apply list_elem_of_In, list_elem_of_fmap in Hin as (d & -> & Hd). eauto.
Qed.

(** What a relay that reports itself ready has. *)
Lemma exit_ready_means : exit_ok exit_detect = true →
  (∃ s, proc_ip_forward = Some s ∧ trim_text s = str_bytes "1") ∧
  ∃ line, line ∈ str_lines firewall_text ∧ rule_covers egress_iface line = true.
Proof.
  unfold exit_ok, exit_detect, ip_forward_on, masquerade_covers_egress. cbn. intros [H1 H2]%andb_true_iff. split.
  - destruct proc_ip_forward as [s|]; [|done]. apply andb_true_iff in H1 as [_ H1%bool_decide_eq_true]. eauto.
  - apply existsb_exists in H2 as (line & Hl & Hc). exists line. by rewrite list_elem_of_In.
Qed.
End exit_check.

(** ** The host's own prefixes *)

Record IfAddr := mkIfAddr { ia_name : string; ia_loopback : bool; ia_addr : option IpAddr; ia_netmask : option IpAddr }.

(** [count_ones] of a [w]-bit number. *)
Definition count_ones (w : nat) (m : Z) : Z := Z.of_nat (length (List.filter (λ i, Z.testbit m (Z.of_nat i)) (seq 0 w))).

Definition mask_len (addr : IpAddr) (mask : option IpAddr) : Z :=
  match addr, mask with
  | V4 _, Some (V4 m) => count_ones 32 m
  | V6 _, Some (V6 m) => count_ones 128 m
  | V4 _, _ => 32
  | V6 _, _ => 128
  end.

Definition is_link_local (n : IpNet) : bool := match n with Net6 a _ => v6_link_local a | Net4 _ _ => false end.

Section prefixes.
Context `{O : IpNetOps}.

Definition iface_prefix (exclude : string) (i : IfAddr) : option IpNet :=
  if String.eqb (ia_name i) exclude || ia_loopback i then None else
  addr ← ia_addr i;
  if ip_is_loopback addr || ip_is_unspecified addr then None else
  n ← ipnet_new addr (mask_len addr (ia_netmask i));
  if is_link_local n then None else Some (net_trunc n).

(** [None]: the interfaces cannot be listed. *)
Definition local_prefixes (exclude : string) (ifaces : option (list IfAddr)) : list IpNet :=
  match ifaces with
  | None => []
  | Some l => dedup_by (λ a b, bool_decide (a = b)) (sort_by_key net_to_string (omap (iface_prefix exclude) l))
  end.

Lemma count_ones_range w m : 0 ≤ count_ones w m ≤ Z.of_nat w.
Proof.
  unfold count_ones. split; [lia|]. apply Nat2Z.inj_le. etransitivity; [apply List.filter_length_le|]. by rewrite length_seq.
Qed.

Lemma mask_len_new addr mask : ∃ n, ipnet_new addr (mask_len addr mask) = Some n ∧ net_addr n = addr ∧
  net_prefix_len n = mask_len addr mask ∧ 0 ≤ mask_len addr mask ≤ net_width n.
Proof.
  assert (0 ≤ mask_len addr mask ≤ match addr with V4 _ => 32 | V6 _ => 128 end) as Hr.
  { unfold mask_len. destruct addr, mask as [[m|m]|]; try lia; [pose proof (count_ones_range 32 m)|pose proof (count_ones_range 128 m)]; lia. }
  destruct addr as [a|a]; unfold ipnet_new; [set (k := mask_len (V4 a) mask) in *|set (k := mask_len (V6 a) mask) in *];
    (rewrite (proj2 (Z.leb_le 0 k)) by lia); [rewrite (proj2 (Z.leb_le k 32)) by lia|rewrite (proj2 (Z.leb_le k 128)) by lia];
    eexists; (split; [reflexivity|]); split_and!; try done; first [exact (proj1 Hr)|exact (proj2 Hr)].
Qed.

Lemma elem_of_dedup {A} `{EqDecision A} (x : A) l : x ∈ dedup_by (λ a b, bool_decide (a = b)) l ↔ x ∈ l.
Proof.
  destruct l as [|y l]; [done|]. cbn [dedup_by]. rewrite !elem_of_cons. revert y. induction l as [|z l IH]; intros y; cbn [dedup_by_aux]; [done|].
  case_bool_decide as He; [subst z; rewrite elem_of_cons; specialize (IH y); tauto|]. rewrite !elem_of_cons. specialize (IH z). tauto.
Qed.

Lemma elem_of_local_prefixes exclude l n : n ∈ local_prefixes exclude (Some l) ↔ ∃ i, i ∈ l ∧ iface_prefix exclude i = Some n.
Proof. unfold local_prefixes. by rewrite elem_of_dedup, elem_of_sort_by_key, list_elem_of_omap. Qed.

(** Every address another interface of the host has, but loopback and link-local
    ones, lies in a prefix of the list, with all of the addresses its netmask says
    are on that link. *)
Lemma local_prefixes_cover `{!IpNetLaws O} exclude l i addr ip : i ∈ l → ia_name i ≠ exclude → ia_loopback i = false →
  ia_addr i = Some addr → wf_addr addr → ip_is_loopback addr = false → ip_is_unspecified addr = false →
  (∀ a, addr = V6 a → v6_link_local a = false) → wf_addr ip →
  (∃ n, ipnet_new addr (mask_len addr (ia_netmask i)) = Some n ∧ net_contains n ip = true) →
  ∃ n, n ∈ local_prefixes exclude (Some l) ∧ net_contains n ip = true.
Proof.
  intros Hin Hne Hlo Ha Hw Hl Hu Hll Hip (n & Hn & Hc). exists (net_trunc n). split.
  - apply elem_of_local_prefixes. exists i. split; [done|]. unfold iface_prefix.
    rewrite (proj2 (String.eqb_neq _ _)), Hlo, Ha by done. cbn. rewrite Hl, Hu. cbn. rewrite Hn. cbn.
    destruct (mask_len_new addr (ia_netmask i)) as (n' & Hn' & Hna & _). rewrite Hn in Hn'. injection Hn' as <-.
    destruct n as [a|a p]; [done|]. cbn in *. by rewrite Hll.
  - destruct (mask_len_new addr (ia_netmask i)) as (n' & Hn' & Hna & Hp & Hr). rewrite Hn in Hn'. injection Hn' as <-.
    assert (wf_net n) as Hwn by (split; [by rewrite Hna|by rewrite Hp]). by rewrite contains_trunc.
Qed.
End prefixes.

(** ** One endpoint per network *)

(** The file a network's lock is on: every character that could name a path is
    replaced (one character of several bytes by one underscore). *)
Definition lock_name (network_id : string) : string :=
  let keep b := is_ascii_alpha b || is_ascii_digit b || (b =? 45) || (b =? 95) in
  let chars := List.filter (λ b, negb ((128 <=? b) && (b <? 192))) (str_bytes network_id) in
  ("nqvpn-" +:+ bytes_str ((λ b, if keep b then b else 95) <$> chars) +:+ ".lock")%string.

(** Who holds which lock (an open file description each), and what the lock files
    say. *)
Record LockDir := mkLockDir { ld_held : gmap Z (string * string); ld_text : gmap string string }.

Definition lock_taken (d : LockDir) (file : string) : bool := existsb (λ p : Z * (string * string), String.eqb p.2.1 file) (map_to_list (ld_held d)).

(** [g] is the new description; an error names the holder. *)
Definition acquire_in (open_ok : bool) (g : Z) (network_id note : string) (d : LockDir) : LockDir * Result string string :=
  let file := lock_name network_id in
  if negb open_ok then (d, Err "opening endpoint lock"%string) else
  let d' := mkLockDir (ld_held d) (partial_alter (λ o, Some (default ""%string o)) file (ld_text d)) in
  if lock_taken d file then
    let held_by := trim (default ""%string (ld_text d !! file)) in
    (d', Err (if String.eqb held_by "" then "unknown"%string else held_by))
  else (mkLockDir (<[g := (file, network_id)]> (ld_held d)) (<[file := note]> (ld_text d)), Ok file).

(** The guard is dropped, or its process dies however it dies. *)
Definition release (g : Z) (d : LockDir) : LockDir := mkLockDir (delete g (ld_held d)) (ld_text d).

Inductive lock_step : LockDir → LockDir → Prop :=
| ls_acquire d open_ok g id note : ld_held d !! g = None → lock_step d (acquire_in open_ok g id note d).1
| ls_release d g : lock_step d (release g d).

Definition locks_exclusive (d : LockDir) : Prop :=
  (∀ g file id, ld_held d !! g = Some (file, id) → file = lock_name id) ∧
  (∀ g g' file id id', ld_held d !! g = Some (file, id) → ld_held d !! g' = Some (file, id') → g = g').

Lemma lock_taken_spec d file : lock_taken d file = true ↔ ∃ g id, ld_held d !! g = Some (file, id).
Proof.
  unfold lock_taken. rewrite existsb_exists. split.
  - intros ([g [f id]] & Hin & He%String.eqb_eq). cbn in He. subst f. apply list_elem_of_In, elem_of_map_to_list in Hin. eauto.
  - intros (g & id & Hg). exists (g, (file, id)). split; [by apply list_elem_of_In, elem_of_map_to_list|]. apply String.eqb_refl.
Qed.

Lemma lock_step_exclusive d d' : lock_step d d' → locks_exclusive d → locks_exclusive d'.
Proof.
  intros [d0 open_ok g id note Hg|d0 g] [Hn Hx].
  - unfold acquire_in. destruct open_ok; cbn [negb]; [|done]. destruct (lock_taken d0 (lock_name id)) eqn:Ht; [done|].
    assert (∀ g' id', ld_held d0 !! g' ≠ Some (lock_name id, id')) as Hfree.
    { intros g' id' Hg'. apply not_true_iff_false in Ht. apply Ht, lock_taken_spec. eauto. }
    split; cbn.
    + intros g' file id' [[<- [= <- <-]]|[_ Hg']]%lookup_insert_Some; [done|by eapply Hn].
    + intros g1 g2 file id1 id2 [[<- [= <- <-]]|[_ H1]]%lookup_insert_Some [[<- H2]|[_ H2]]%lookup_insert_Some; [done| | |by eapply Hx].
      * by apply Hfree in H2.
      * injection H2 as <- <-. by apply Hfree in H1.
  - split; cbn.
    + intros g' file id' [_ Hg']%lookup_delete_Some. by eapply Hn.
    + intros g1 g2 file id1 id2 [_ H1]%lookup_delete_Some [_ H2]%lookup_delete_Some. by eapply Hx.
Qed.

(** At most one endpoint of a network is on the host, whatever came and went and
    died; a new one is let in exactly when no other has its lock, whatever the file
    that is left says. *)
Lemma endpoint_exclusive d d' : locks_exclusive d → rtc lock_step d d' →
  (∀ g g' file file' id, ld_held d' !! g = Some (file, id) → ld_held d' !! g' = Some (file', id) → g = g') ∧
  (∀ g id note, is_ok (acquire_in true g id note d').2 = true ↔ ∀ g' file id', ld_held d' !! g' = Some (file, id') → lock_name id' ≠ lock_name id).
Proof.
  intros H0 Hr. assert (locks_exclusive d') as [Hn Hx] by (eapply rtc_inv_preserved; [|exact H0|exact Hr]; intros; by eapply lock_step_exclusive).
  split.
  - intros g g' file file' id H1 H2. pose proof (Hn _ _ _ H1) as ->. pose proof (Hn _ _ _ H2) as ->. by eapply Hx.
  - intros g id note. unfold acquire_in. cbn [negb]. destruct (lock_taken d' (lock_name id)) eqn:Ht; cbn; split; try done.
    + intros H. apply lock_taken_spec in Ht as (g' & id' & Hg). pose proof (Hn _ _ _ Hg) as He. by destruct (H _ _ _ Hg).
    + intros _ g' file id' Hg He. apply not_true_iff_false in Ht. apply Ht, lock_taken_spec. pose proof (Hn _ _ _ Hg) as ->. rewrite He in Hg. eauto.
Qed.

Module HostExample.
(** The uplink is eth0. A rule for another interface, written with [oif], counts as
    covering it. *)
Definition out (path : string) (args : list string) : option (list Z) :=
  if String.eqb path "/usr/sbin/ip" then Some (str_bytes "default via 192.0.2.1 dev eth0 proto dhcp") else
  if String.eqb path "/usr/sbin/nft" then Some (str_bytes "  oif wg0 masquerade") else None.

Lemma other_interface_counts :
  egress_iface (λ _, true) out = Some (str_bytes "eth0") ∧ masquerade_covers_egress (λ _, true) out = true.
Proof. vm_compute. done. Qed.

(** Two networks, one lock. *)
Lemma names_collide : lock_name "site.a" = lock_name "site_a" ∧
  let d := (acquire_in true 1 "site.a" "relay" (mkLockDir ∅ ∅)).1 in is_ok (acquire_in true 2 "site_a" "client" d).2 = false.
Proof. vm_compute. done. Qed.
End HostExample.
