(* ===== verification/AddrText.v ===== *)
(** * Addresses as text

    What the standard library prints for an address it reads back: the digits of
    a number, the octets of an IPv4 address, and the groups of an IPv6 address
    with their longest run of zeros left out or, for an IPv4-mapped one, its last
    two groups as octets. The journal of pins, the pushed views and the tokens of
    relays all go through this text. *)

From S2P Require Import Prelude Ipnet Text Http.

(** ** Digits *)

(** Where a number of this radix ends. *)
Definition stops (radix : Z) (s : list Z) : Prop := match s with [] => True | b :: _ => to_digit radix b = None end.

Section digits.
Context (radix : Z) (Hok : radix_ok radix).

Lemma radix_range : 2 ≤ radix ≤ 16.
Proof. unfold radix_ok in Hok. lia. Qed.

Lemma fmt_digits_length n x : (length (fmt_digits n radix x) ≤ n)%nat ∧ (n ≠ 0 → 1 ≤ length (fmt_digits n radix x))%nat.
Proof.
  revert x. induction n as [|n IH]; intros x; [cbn; lia|]. rewrite fmt_digits_S, length_app. specialize (IH (x / radix)).
  case_match; cbn [length]; lia.
Qed.

(** A first digit zero is the number zero. *)
Lemma fmt_digits_zero n x r : 0 ≤ x → fmt_digits (S n) radix x = 48 :: r → x < radix ^ Z.of_nat (S n) → x = 0 ∧ r = [].
Proof.
  pose proof radix_range as Hrr. revert x r. induction n as [|n IH]; intros x r Hx; rewrite fmt_digits_S.
  - intros He Hb. rewrite Z.pow_1_r in Hb. destruct (Z.ltb_spec x radix); [|lia]. cbn in He. injection He as He <-.
    rewrite Z.mod_small in He by lia. unfold digit_char in He. destruct (Z.ltb_spec x 10); split; try done; lia.
  - destruct (Z.ltb_spec x radix) as [Hs|Hs].
    + intros He _. cbn in He. injection He as He <-. rewrite Z.mod_small in He by lia.
      unfold digit_char in He. destruct (Z.ltb_spec x 10); split; try done; lia.
    + intros He Hb. pose proof (proj2 (fmt_digits_length (S n) (x / radix)) ltac:(done)) as Hl.
      destruct (fmt_digits (S n) radix (x / radix)) as [|b l] eqn:E; [cbn in Hl; lia|]. cbn in He. injection He as -> He.
      assert (1 ≤ x / radix) by (apply Z.div_le_lower_bound; lia).
      destruct (IH (x / radix) l) as [H0 _]; [lia|done| |lia].
      apply Z.div_lt_upper_bound; [lia|]. rewrite (Nat2Z.inj_succ (S n)), Z.pow_succ_r in Hb by lia. lia.
Qed.

Lemma read_digits_fmt n x left max acc rest : 0 ≤ x < radix ^ Z.of_nat n → 0 ≤ acc →
  let l := length (fmt_digits n radix x) in (l ≤ left)%nat → acc * radix ^ Z.of_nat l + x ≤ max →
  read_digits left radix max acc (fmt_digits n radix x ++ rest) = read_digits (left - l) radix max (acc * radix ^ Z.of_nat l + x) rest.
Proof.
  pose proof radix_range as Hrr. revert x left acc rest. induction n as [|n IH]; intros x left acc rest Hx Ha; cbn zeta.
  - cbn. intros _ _. rewrite Z.pow_0_r in Hx. f_equal; lia.
  - rewrite fmt_digits_S, <- app_assoc, length_app. cbn [length app].
    assert (0 ≤ x mod radix < radix) as Hm by (apply Z.mod_pos_bound; lia).
    assert (x = radix * (x / radix) + x mod radix) as Hd by (apply Z.div_mod; lia).
    assert (∀ left' acc', (1 ≤ left')%nat → acc' * radix + x mod radix ≤ max →
      read_digits left' radix max acc' (digit_char (x mod radix) :: rest) = read_digits (left' - 1) radix max (acc' * radix + x mod radix) rest) as Hstep.
    { intros left' acc' Hl Hle. destruct left' as [|left']; [lia|]. cbn [read_digits]. rewrite (proj1 (to_digit_char radix _ Hok Hm)).
      rewrite (proj2 (Z.leb_le _ _)) by done. f_equal. lia. }
    destruct (Z.ltb_spec x radix) as [Hs|Hs]; cbn [length app].
    + rewrite Z.mod_small in * by lia. change (Z.of_nat (0 + 1)) with 1. rewrite Z.pow_1_r. intros Hl Hle. rewrite Hstep by lia. done.
    + set (f := fmt_digits n radix (x / radix)) in *. rewrite Nat2Z.inj_add, Z.pow_add_r by lia. change (Z.of_nat 1) with 1. rewrite Z.pow_1_r.
      intros Hl Hle. assert (0 ≤ x / radix) by (apply Z.div_pos; lia).
      assert (0 < radix ^ Z.of_nat (length f)) by (apply Z.pow_pos_nonneg; lia).
      pose proof (IH (x / radix) left acc (digit_char (x mod radix) :: rest)) as HI. cbn zeta in HI. fold f in HI. rewrite HI; [|split; [done|]|done|lia|nia].
      * rewrite Hstep by (lia || nia). f_equal; [lia|nia].
      * apply Z.div_lt_upper_bound; [lia|]. rewrite Nat2Z.inj_succ, Z.pow_succ_r in Hx by lia. lia.
Qed.

(** A number is read back, whatever stops it. *)
Lemma read_number_fmt n x max zeros rest : 0 ≤ x < radix ^ Z.of_nat (S n) → x ≤ max → stops radix rest →
  read_number radix (S n) max zeros (fmt_digits (S n) radix x ++ rest) = Some (x, rest).
Proof.
  pose proof radix_range as Hrr. intros Hx Hm Hs. pose proof (fmt_digits_length (S n) x) as [Hl1 Hl2]. specialize (Hl2 ltac:(done)).
  assert (read_digits (S n) radix max 0 (fmt_digits (S n) radix x ++ rest) = Some (x, rest)) as Hr.
  { rewrite read_digits_fmt by lia. rewrite Z.mul_0_l, Z.add_0_l. destruct (S n - _)%nat, rest as [|b rest]; try done; cbn in Hs; cbn; by rewrite Hs. }
  unfold read_number. destruct (fmt_digits (S n) radix x) as [|b f] eqn:E; [cbn in Hl2; lia|]. cbn [app].
  cbn [app] in Hr. rewrite Hr. rewrite length_cons, length_app. replace (S (length f + length rest) - length rest)%nat with (S (length f)) by lia.
  cbn [Nat.eqb]. destruct (negb zeros && (b =? 48) && (1 <? S (length f))%nat) eqn:Hz; [|done].
  apply andb_true_iff in Hz as [Hz1 Hz2]. apply andb_true_iff in Hz1 as [_ Hz1]. apply Z.eqb_eq in Hz1. subst b.
  destruct (fmt_digits_zero n x f) as [_ ->]; [lia|done|lia|]. done.
Qed.

Lemma fmt_digits_elem n x b : 0 ≤ x → b ∈ fmt_digits n radix x → ∃ d, 0 ≤ d < radix ∧ b = digit_char d.
Proof.
  pose proof radix_range as Hrr. revert x. induction n as [|n IH]; intros x Hx; [by intros ?%not_elem_of_nil|]. rewrite fmt_digits_S. intros [Hb|Hb]%elem_of_app.
  - case_match; [by apply not_elem_of_nil in Hb|]. eapply IH; [|done]. apply Z.div_pos; lia.
  - apply list_elem_of_singleton in Hb. exists (x mod radix). split; [apply Z.mod_pos_bound; lia|done].
Qed.
End digits.

(** ** IPv4 *)

Lemma stops_of radix b s : to_digit radix b = None → stops radix (b :: s).
Proof. done. Qed.

Lemma read_u8_fmt o rest : is_byte o → stops 10 rest → read_number 10 3 255 false (fmt_u8 o ++ rest) = Some (o, rest).
Proof. intros Ho Hs. unfold is_byte in Ho. unfold fmt_u8. apply (read_number_fmt 10); [by left|change (10 ^ Z.of_nat 3) with 1000; lia|lia|done]. Qed.

Lemma read_ipv4_fmt a rest : 0 ≤ a < 2 ^ 32 → stops 10 rest → read_ipv4_addr (fmt_ipv4 a ++ rest) = Some (a, rest).
Proof.
  intros Ha Hs. unfold fmt_ipv4. pose proof (to_be_bytes 4 a) as Hb. pose proof (to_be_length 4 a) as Hl.
  rewrite <- (from_to_be 4 a) at 2 by (change (256 ^ Z.of_nat 4) with (2 ^ 32); done).
  destruct (to_be 4 a) as [|o1 [|o2 [|o3 [|o4 [|]]]]]; try done. repeat (apply Forall_cons in Hb as [? Hb]).
  cbn [fmap list_fmap join_with]. rewrite <- !app_assoc. unfold read_ipv4_addr. cbn [read_octets].
  cbn [read_separator Nat.ltb Nat.leb]. rewrite read_u8_fmt by done. cbn [app read_given_char Z.eqb Pos.eqb].
  rewrite read_u8_fmt by done. cbn [app read_given_char Z.eqb Pos.eqb]. rewrite read_u8_fmt by done. cbn [app read_given_char Z.eqb Pos.eqb].
  rewrite read_u8_fmt by done. done.
Qed.

(** No dot, no IPv4 address. *)
Lemma read_digits_suffix left radix max acc s v r : read_digits left radix max acc s = Some (v, r) → suffix r s.
Proof.
  revert acc s. induction left as [|left IH]; intros acc s; destruct s as [|b s]; cbn; try (intros [= _ <-]; done).
  - case_match; [done|]. by intros [= _ <-].
  - case_match; [|by intros [= _ <-]]. case_match; [|done]. intros Hr%IH. by apply suffix_cons_r.
Qed.

Lemma read_number_suffix radix n max z s v r : read_number radix n max z s = Some (v, r) → suffix r s.
Proof.
  unfold read_number. destruct s as [|b s]; [done|]. destruct (read_digits _ _ _ _ _) as [[v' r']|] eqn:E; [|done].
  apply read_digits_suffix in E. repeat case_match; try done. by intros [= _ <-].
Qed.

Lemma read_ipv4_no_dot s : 46 ∉ s → read_ipv4_addr s = None.
Proof.
  intros Hd. unfold read_ipv4_addr. cbn [read_octets]. cbn [read_separator Nat.ltb Nat.leb].
  destruct (read_number 10 3 255 false s) as [[o r]|] eqn:E; [|done]. apply read_number_suffix in E as [p ->].
  rewrite elem_of_app in Hd. destruct r as [|b r]; [done|]. cbn [read_given_char]. destruct (Z.eqb_spec b 46) as [->|]; [|done].
  destruct Hd. right. by left.
Qed.

(** Nor before a colon. *)
Lemma read_number_no_digit radix n max z b s : to_digit radix b = None → read_number radix n max z (b :: s) = None.
Proof.
  intros Hb. unfold read_number. destruct n; cbn [read_digits]; rewrite Hb; by rewrite Nat.sub_diag.
Qed.

Lemma read_ipv4_no_digit b s : to_digit 10 b = None → read_ipv4_addr (b :: s) = None.
Proof. intros Hb. unfold read_ipv4_addr. cbn [read_octets read_separator Nat.ltb Nat.leb]. by rewrite read_number_no_digit. Qed.

(** ** IPv6 *)

Definition is_group (g : Z) : Prop := 0 ≤ g < 2 ^ 16.
Definition colon_groups (gs : list Z) : list Z := concat ((λ g, 58 :: fmt_hex16 g) <$> gs).
Definition join_groups (gs : list Z) : list Z := join_with [58] (fmt_hex16 <$> gs).

Lemma join_groups_cons g gs : join_groups (g :: gs) = fmt_hex16 g ++ colon_groups gs.
Proof.
  revert g. induction gs as [|g' gs IH]; intros g; [by rewrite app_nil_r|].
  change (join_groups (g :: g' :: gs)) with (fmt_hex16 g ++ [58] ++ join_groups (g' :: gs)). by rewrite IH.
Qed.

Lemma read_hex_fmt g rest : is_group g → stops 16 rest → read_number 16 4 65535 true (fmt_hex16 g ++ rest) = Some (g, rest).
Proof. intros Hg Hs. unfold is_group in Hg. apply (read_number_fmt 16); [by right|change (16 ^ Z.of_nat 4) with (2 ^ 16); lia|lia|done]. Qed.

Lemma hex_no_dot g : is_group g → 46 ∉ fmt_hex16 g.
Proof.
  intros Hg Hin. apply (fmt_digits_elem 16) in Hin as (d & Hd & He); [|by right|unfold is_group in Hg; lia].
  unfold digit_char in He. destruct (d <? 10); lia.
Qed.
Lemma colon_groups_no_dot gs : Forall is_group gs → 46 ∉ colon_groups gs.
Proof.
  induction 1 as [|g gs Hg _ IH]; [by intros ?%not_elem_of_nil|]. cbn. intros [Hx|[Hx|Hx]%elem_of_app]%elem_of_cons; [done| |done].
  by apply hex_no_dot in Hx.
Qed.
Lemma join_groups_no_dot gs : Forall is_group gs → 46 ∉ join_groups gs.
Proof.
  intros Hg. destruct gs as [|g gs]; [by intros ?%not_elem_of_nil|]. apply Forall_cons in Hg as [Hg Hgs]. rewrite join_groups_cons.
  intros [Hx|Hx]%elem_of_app; [by apply hex_no_dot in Hx|by apply colon_groups_no_dot in Hx].
Qed.

Lemma sep_ipv4_no_dot index s : 46 ∉ s → read_separator 58 index read_ipv4_addr s = None.
Proof.
  intros Hd. unfold read_separator. destruct (0 <? index)%nat; [|by apply read_ipv4_no_dot]. destruct s as [|b s]; [done|].
  cbn [read_given_char]. destruct (b =? 58); [|done]. apply read_ipv4_no_dot. set_solver.
Qed.

(** Where a sequence of groups ends: at the end, or at the run left out. *)
Definition groups_end (s : list Z) : Prop := s = [] ∨ ∃ s', s = 58 :: 58 :: s'.

Lemma read_groups_end left index limit s : groups_end s → 46 ∉ s → read_groups left index limit s = ([], false, s).
Proof.
  intros He Hd. destruct left as [|left]; [done|]. cbn [read_groups]. rewrite sep_ipv4_no_dot by done.
  assert ((if (index <? limit - 1)%nat then None else None) = (None : option (Z * list Z))) as -> by by case_match.
  destruct He as [->|[s' ->]]; unfold read_separator; destruct (0 <? index)%nat; cbn [read_given_char Z.eqb Pos.eqb]; try done;
    by rewrite read_number_no_digit.
Qed.

Lemma groups_end_stops s : groups_end s → stops 16 s.
Proof. by intros [->|[s' ->]]. Qed.

Lemma read_colon_groups gs left index limit s : Forall is_group gs → (length gs ≤ left)%nat → groups_end s → 46 ∉ s →
  read_groups left (S index) limit (colon_groups gs ++ s) = (gs, false, s).
Proof.
  intros Hg. revert left index. induction Hg as [|g gs Hg Hgs IH]; intros left index Hl He Hd; [by apply read_groups_end|].
  destruct left as [|left]; [cbn in Hl; lia|]. cbn [read_groups]. rewrite sep_ipv4_no_dot.
  2: { intros [Hx|Hx]%elem_of_app; [|done]. apply colon_groups_no_dot in Hx; [done|by constructor]. }
  assert ((if (S index <? limit - 1)%nat then None else None) = (None : option (Z * list Z))) as -> by by case_match.
  change (colon_groups (g :: gs)) with (58 :: fmt_hex16 g ++ colon_groups gs). rewrite <- app_comm_cons, <- app_assoc.
  cbn [read_separator Nat.ltb Nat.leb read_given_char Z.eqb Pos.eqb]. rewrite read_hex_fmt; [|done|].
  - rewrite IH by (done || cbn in Hl; lia). done.
  - destruct gs; [by apply groups_end_stops|done].
Qed.

Lemma read_join_groups gs left limit s : Forall is_group gs → (length gs ≤ left)%nat → groups_end s → 46 ∉ s →
  read_groups left 0 limit (join_groups gs ++ s) = (gs, false, s).
Proof.
  intros Hg Hl He Hd. destruct gs as [|g gs]; [by apply read_groups_end|]. pose proof (join_groups_no_dot _ Hg) as Hj.
  apply Forall_cons in Hg as [Hg Hgs]. destruct left as [|left]; [cbn in Hl; lia|]. cbn [read_groups]. rewrite sep_ipv4_no_dot by set_solver.
  assert ((if (0 <? limit - 1)%nat then None else None) = (None : option (Z * list Z))) as -> by by case_match.
  rewrite join_groups_cons, <- app_assoc. cbn [read_separator Nat.ltb Nat.leb]. rewrite read_hex_fmt; [|done|].
  - rewrite read_colon_groups by (done || cbn in Hl; lia). done.
  - destruct gs; [by apply groups_end_stops|done].
Qed.

(** The run that is left out holds nothing but zeros. *)
Definition zero_run (G : list Z) (p : nat * nat) : Prop := (p.1 + p.2 ≤ length G)%nat ∧ take p.2 (drop p.1 G) = replicate p.2 0.

Lemma zero_run_app G l p : zero_run G p → zero_run (G ++ l) p.
Proof.
  intros [Hl Ht]. split; [rewrite length_app; lia|]. rewrite <- Ht, drop_app_le by lia. rewrite take_app_le; [done|]. rewrite length_drop. lia.
Qed.

Lemma zero_span_run gs pre longest current :
  zero_run pre longest → (current.2 = 0 ∨ current.1 + current.2 = length pre)%nat → zero_run pre current →
  zero_run (pre ++ gs) (zero_span (length pre) gs longest current).
Proof.
  revert pre longest current. induction gs as [|g gs IH]; intros pre longest current Hl Hc Hz; cbn [zero_span]; [by rewrite app_nil_r|].
  assert (pre ++ g :: gs = (pre ++ [g]) ++ gs) as -> by by rewrite <- app_assoc.
  assert (S (length pre) = length (pre ++ [g])) as Hlen by (rewrite length_app; cbn; lia).
  destruct (Z.eqb_spec g 0) as [->|Hg]; rewrite Hlen.
  - set (cur := ((if (current.2 =? 0)%nat then length pre else current.1), S current.2)).
    assert (cur.1 + current.2 = length pre)%nat as Hsum by (unfold cur; cbn; destruct (Nat.eqb_spec current.2 0); lia).
    assert (zero_run (pre ++ [0]) cur) as Hcur.
    { split; [rewrite <- Hlen; unfold cur in *; cbn in *; lia|]. change cur.2 with (S current.2). rewrite drop_app_le by lia.
      rewrite replicate_S_end. rewrite take_app_ge by (rewrite length_drop; lia). rewrite length_drop.
      replace (S current.2 - (length pre - cur.1))%nat with 1%nat by lia. f_equal.
      destruct Hz as [_ Hz]. unfold cur in *. cbn [fst snd] in *. destruct (Nat.eqb_spec current.2 0) as [H0|H0].
      - rewrite H0, drop_ge by lia. done.
      - rewrite <- Hz. symmetry. apply take_ge. rewrite length_drop. lia. }
    apply IH; [|right; change cur.2 with (S current.2); lia|done]. case_match; [done|by apply zero_run_app].
  - apply IH; [by apply zero_run_app|by left|]. split; cbn; [lia|done].
Qed.

Lemma segments_groups a : Forall is_group (segments a).
Proof. unfold segments. apply Forall_fmap, Forall_true. intros i. unfold segment, is_group. cbn. apply Z.mod_pos_bound. lia. Qed.

(** The last [n] groups of a number. *)
Lemma from_groups_snoc gs g : from_groups (gs ++ [g]) = from_groups gs * 2 ^ 16 + g.
Proof. unfold from_groups. by rewrite foldl_snoc. Qed.
Lemma from_groups_zeros n gs : from_groups (replicate n 0 ++ gs) = from_groups gs.
Proof. unfold from_groups. induction n as [|n IH]; [done|]. cbn [replicate app foldl]. exact IH. Qed.

Fixpoint to_groups (n : nat) (a : Z) : list Z :=
  match n with O => [] | S n => to_groups n (a / 2 ^ 16) ++ [a mod 2 ^ 16] end.

Lemma from_to_groups n a : 0 ≤ a < 2 ^ (16 * Z.of_nat n) → from_groups (to_groups n a) = a.
Proof.
  revert a. induction n as [|n IH]; intros a Ha; [cbn in *; lia|]. cbn [to_groups]. rewrite from_groups_snoc, IH.
  - pose proof (Z.div_mod a (2 ^ 16)). lia.
  - rewrite Nat2Z.inj_succ, Z.mul_succ_r, Z.pow_add_r in Ha by lia. split; [apply Z.div_pos; lia|]. apply Z.div_lt_upper_bound; lia.
Qed.

Lemma segments_to a : segments a = to_groups 8 a.
Proof.
  unfold segments, segment. cbn [to_groups app fmap list_fmap]. rewrite !Z.div_div by lia. rewrite <- !Z.pow_add_r by lia.
  cbn [Z.sub Z.mul Z.add Z.opp Z.pos_sub Pos.mul Pos.add]. by rewrite Z.div_1_r.
Qed.

Lemma from_segments a : 0 ≤ a < 2 ^ 128 → from_groups (segments a) = a.
Proof. intros Ha. rewrite segments_to. by apply from_to_groups. Qed.

(** A full address, and one with its run left out. *)
Lemma read_ipv6_full gs : Forall is_group gs → length gs = 8%nat → read_ipv6_addr (join_groups gs) = Some (from_groups gs, []).
Proof.
  intros Hg Hl. unfold read_ipv6_addr. rewrite <- (app_nil_r (join_groups gs)), read_join_groups; [|done|lia|by left|by intros ?%not_elem_of_nil].
  by rewrite Hl.
Qed.

Lemma read_ipv6_run front back : Forall is_group front → Forall is_group back → (length front + length back ≤ 6)%nat →
  read_ipv6_addr (join_groups front ++ [58; 58] ++ join_groups back) =
  Some (from_groups (front ++ replicate (8 - length front - length back) 0 ++ back), []).
Proof.
  intros Hf Hb Hl. unfold read_ipv6_addr. pose proof (join_groups_no_dot _ Hb) as Hd.
  rewrite read_join_groups; [|done|lia|right; by eexists|set_solver].
  destruct (Nat.eqb_spec (length front) 8); [lia|]. cbn [app read_given_char Z.eqb Pos.eqb].
  rewrite <- (app_nil_r (join_groups back)), read_join_groups; [done|done|lia|by left|by intros ?%not_elem_of_nil].
Qed.

Lemma fmt_ipv6_runs a start len : ipv4_mapped a = false → zero_span 0 (segments a) (0, 0)%nat (0, 0)%nat = (start, len) →
  fmt_ipv6 a = (if (1 <? len)%nat then join_groups (take start (segments a)) ++ [58; 58] ++ join_groups (drop (start + len) (segments a))
                else join_groups (segments a)).
Proof. intros Hm Hz. unfold fmt_ipv6. by rewrite Hm, Hz. Qed.

Lemma read_ipv6_fmt a : 0 ≤ a < 2 ^ 128 → ipv4_mapped a = false → 46 ∉ fmt_ipv6 a ∧ read_ipv6_addr (fmt_ipv6 a) = Some (a, []).
Proof.
  intros Ha Hm. pose proof (segments_groups a) as Hg. assert (length (segments a) = 8%nat) as H8 by done.
  destruct (zero_span 0 (segments a) (0, 0)%nat (0, 0)%nat) as [start len] eqn:Hz. rewrite (fmt_ipv6_runs a start len) by done.
  assert (zero_run (segments a) (start, len)) as [Hr1 Hr2].
  { rewrite <- Hz. apply (zero_span_run (segments a) []); [|by left|]; split; done. }
  cbn [fst snd] in Hr1, Hr2. rewrite H8 in Hr1. destruct (Nat.ltb_spec 1 len).
  - pose proof (Forall_take _ start _ Hg) as Hf. pose proof (Forall_drop _ (start + len) _ Hg) as Hb. split.
    + pose proof (join_groups_no_dot _ Hf). pose proof (join_groups_no_dot _ Hb). set_solver.
    + rewrite read_ipv6_run; [|done|done|rewrite length_take, length_drop; lia]. rewrite length_take, length_drop, H8.
      replace (8 - Nat.min start 8 - (8 - (start + len)))%nat with len by lia. rewrite <- Hr2, <- drop_drop, take_drop, take_drop, from_segments by done. done.
  - split; [by apply join_groups_no_dot|]. rewrite read_ipv6_full, from_segments by done. done.
Qed.

Lemma read_ipv6_mapped a : 0 ≤ a < 2 ^ 128 → ipv4_mapped a = true → read_ipv6_addr (fmt_ipv6 a) = Some (a, []).
Proof.
  intros Ha Hm. unfold fmt_ipv6. rewrite Hm. apply Z.eqb_eq in Hm. set (v := a mod 2 ^ 32).
  assert (0 ≤ v < 2 ^ 32) as Hv by (apply Z.mod_pos_bound; lia). assert (a = 65535 * 2 ^ 32 + v) as Hav by (rewrite (Z.div_mod a (2 ^ 32)) by lia; lia).
  change (str_bytes "::ffff:") with ([58; 58] ++ fmt_hex16 65535 ++ [58]). rewrite <- !app_assoc. set (t := fmt_ipv4 v).
  unfold read_ipv6_addr. cbn [app]. assert (read_groups 8 0 8 (58 :: 58 :: fmt_hex16 65535 ++ 58 :: t) = ([], false, 58 :: 58 :: fmt_hex16 65535 ++ 58 :: t)) as ->.
  { cbn [read_groups read_separator Nat.ltb Nat.leb]. rewrite read_ipv4_no_digit by done. cbn [Nat.sub Nat.ltb Nat.leb]. by rewrite read_number_no_digit. }
  cbn [length Nat.eqb read_given_char Z.eqb Pos.eqb Nat.sub Nat.add].
  assert (read_groups 7 0 7 (fmt_hex16 65535 ++ 58 :: t) = ([65535; v / 2 ^ 16; v mod 2 ^ 16], true, [])) as ->.
  { cbn [read_groups read_separator Nat.ltb Nat.leb Nat.sub]. assert (∀ s, read_ipv4_addr (fmt_hex16 65535 ++ s) = None) as -> by (intros s; by apply (read_ipv4_no_digit 102)).
    rewrite (read_hex_fmt 65535) by (unfold is_group; done || lia). cbn [read_given_char Z.eqb Pos.eqb].
    unfold t. rewrite <- (app_nil_r (fmt_ipv4 v)), read_ipv4_fmt by done. done. }
  cbn [length Nat.sub]. rewrite app_nil_l, from_groups_zeros. unfold from_groups. cbn [foldl]. f_equal. f_equal.
  pose proof (Z.div_mod v (2 ^ 16)). lia.
Qed.

Lemma fmt_ipv6_mapped_colon a : ipv4_mapped a = true → read_ipv4_addr (fmt_ipv6 a) = None.
Proof. intros Hm. unfold fmt_ipv6. rewrite Hm. by apply (read_ipv4_no_digit 58). Qed.

(** ** The text of an address *)

(** The characters of an address. *)
Definition addr_char (b : Z) : Prop := 48 ≤ b ≤ 58 ∨ b = 46 ∨ 97 ≤ b ≤ 102.

Lemma digits_addr_chars n radix x : radix_ok radix → 0 ≤ x → Forall addr_char (fmt_digits n radix x).
Proof.
  intros Hr Hx. pose proof (radix_range radix Hr) as Hrr. apply Forall_forall. intros b (d & Hd & ->)%(fmt_digits_elem radix Hr); [|done].
  unfold digit_char, addr_char. destruct (Z.ltb_spec d 10); lia.
Qed.

Lemma join_chars sep ps : addr_char sep → Forall (Forall addr_char) ps → Forall addr_char (join_with [sep] ps).
Proof.
  intros Hs. induction 1 as [|p [|q ps] Hp _ IH]; [constructor|done|]. cbn [join_with] in *. apply Forall_app. split; [done|]. by constructor.
Qed.

Lemma fmt_ipv4_chars a : Forall addr_char (fmt_ipv4 a).
Proof.
  apply join_chars; [unfold addr_char; lia|]. apply Forall_fmap. eapply Forall_impl; [apply to_be_bytes|]. intros o Ho.
  apply digits_addr_chars; [by left|unfold is_byte in Ho; lia].
Qed.

Lemma join_groups_chars gs : Forall is_group gs → Forall addr_char (join_groups gs).
Proof.
  intros Hg. apply join_chars; [unfold addr_char; lia|]. apply Forall_fmap. eapply Forall_impl; [exact Hg|]. intros g Hx.
  apply digits_addr_chars; [by right|unfold is_group in Hx; lia].
Qed.

Lemma fmt_ipv6_chars a : Forall addr_char (fmt_ipv6 a).
Proof.
  pose proof (segments_groups a) as Hg. destruct (ipv4_mapped a) eqn:Hm.
  - unfold fmt_ipv6. rewrite Hm. apply Forall_app. split; [|apply fmt_ipv4_chars]. vm_compute str_bytes. by repeat (apply Forall_cons_2; [unfold addr_char; lia|]).
  - destruct (zero_span 0 (segments a) (0, 0)%nat (0, 0)%nat) as [start len] eqn:Hz. rewrite (fmt_ipv6_runs a start len) by done.
    case_match; [|by apply join_groups_chars]. rewrite !Forall_app. split_and!; try (apply join_groups_chars; by apply Forall_take || by apply Forall_drop).
    by repeat (apply Forall_cons_2; [unfold addr_char; lia|]).
Qed.

Definition addr_bytes (ip : IpAddr) : list Z := match ip with V4 a => fmt_ipv4 a | V6 a => fmt_ipv6 a end.

Lemma addr_bytes_chars ip : Forall addr_char (addr_bytes ip).
Proof. destruct ip; [apply fmt_ipv4_chars|apply fmt_ipv6_chars]. Qed.

Lemma str_bytes_addr ip : str_bytes (ip_to_string ip) = addr_bytes ip.
Proof. apply str_bytes_bytes_str. eapply Forall_impl; [apply addr_bytes_chars|]. unfold addr_char, is_byte. lia. Qed.

(** An address is read back from its text. *)
Lemma ip_parse_to_string ip : wf_addr ip → ip_parse (ip_to_string ip) = Some ip.
Proof.
  unfold ip_parse. rewrite str_bytes_addr. destruct ip as [a|a]; cbn [addr_bytes]; intros Ha.
  - rewrite <- (app_nil_r (fmt_ipv4 a)), read_ipv4_fmt by done. done.
  - destruct (ipv4_mapped a) eqn:Hm.
    + rewrite fmt_ipv6_mapped_colon by done. rewrite read_ipv6_mapped by done. done.
    + destruct (read_ipv6_fmt a) as [Hd Hr]; [done|done|]. rewrite read_ipv4_no_dot, Hr by done. done.
Qed.

Corollary ip_to_string_inj a b : wf_addr a → wf_addr b → ip_to_string a = ip_to_string b → a = b.
Proof. intros Ha Hb He. apply ip_parse_to_string in Ha, Hb. congruence. Qed.
