(* ===== verification/Journal.v ===== *)
(** * The journal of pins as a file, and the resolvers (crates/nqvpn-endpoint/src/routes.rs)

    [Pins] keeps the journal as a map; here it is the text it is written as, on
    the directory of [KeyFiles]: a line per pin, an address and its gateway, the
    gateway with the index of its interface. What is read back after a process
    died, or the power went, is the journal from before or the one that was being
    written, whole. The names the resolvers are found by go through the same
    reader of addresses. *)

From S2P Require Import Rpc.
From S2P Require Import Prelude Ordered Ipnet Text Crash Pins Token Http AddrText KeyFiles KernelRoutes Host.

(** ** The text *)

(** [Display] and [FromStr] of a gateway. *)
Definition gateway_bytes (g : Gateway) : list Z :=
  addr_bytes (gw_addr g) ++ match gw_ifindex g with Some i => 37 :: fmt_digits 10 10 i | None => [] end.

Definition gateway_from_str (s : list Z) : option Gateway :=
  match split_bytes 37 s with
  | Some (a, i) => addr ← ip_parse (bytes_str a); i ← parse_uint 10 u32_max i; Some (mkGateway addr (Some i))
  | None => addr ← ip_parse (bytes_str s); Some (mkGateway addr None)
  end.

Definition pin_line (p : IpAddr * Gateway) : list Z := addr_bytes p.1 ++ 32 :: gateway_bytes p.2.
Definition journal_body (m : gmap IpAddr Gateway) : list Z := concat ((λ p, pin_line p ++ [10]) <$> bt_iter m).

Definition pin_of_line (line : list Z) : option (IpAddr * Gateway) :=
  match split_bytes 32 line with
  | Some (a, b) => ip ← ip_parse (bytes_str (trim_text a)); gw ← gateway_from_str (trim_text b); Some (ip, gw)
  | None => None
  end.

(** Lines that are not pins are passed over. *)
Definition journal_read (text : list Z) : gmap IpAddr Gateway :=
  bt_collect (omap pin_of_line (List.filter (λ l, negb (bool_decide (l = []))) (trim_text <$> str_lines text))).

(** ** The file *)

(** [ok]: can the file be read; one that is absent or not text is an empty journal. *)
Definition journal_load (ok : bool) (path : string) (w : Fs) : PinJournal :=
  mkPinJournal (Some path) (match fs_try_read ok path w with Some b => if utf8_valid b then journal_read b else ∅ | None => ∅ end).

(** [Path::with_extension], of a file's name. *)
Definition with_extension (name ext : string) : string :=
  let stem := match rsplit_once 46 name with Some (h, _) => if String.eqb h "" then name else h | None => name end in
  (stem +:+ "." +:+ ext)%string.

Definition write_file_atomic (dir_ok : bool) (ev : AtomicEnv) (path : string) (bytes : list Z) : Run Fs bool :=
  if dir_ok then write_private_atomic ev (with_extension path "tmp") path bytes else run_ret false.

(** [persist]; what fails is logged. *)
Definition journal_persist (dir_ok : bool) (ev : AtomicEnv) (j : PinJournal) : Run Fs bool :=
  match pj_path j with
  | None => run_ret true
  | Some path =>
      if decide (pj_map j = ∅) then fs_remove (av_remove ev) path
      else write_file_atomic dir_ok ev path (journal_body (pj_map j))
  end.

(** ** The resolvers *)

Definition parse_resolvers (text : list Z) : list IpAddr :=
  omap (λ l, rest ← strip_bytes (str_bytes "nameserver") (trim_text (first_piece 35 l)); ip_parse (bytes_str (first_piece 37 (trim_text rest))))
       (str_lines text).

Definition v4_link_local (a : Z) : bool := a / 2 ^ 16 =? 169 * 256 + 254.
Definition pinnable_resolver (ip : IpAddr) : bool :=
  match ip with
  | V4 a => negb (ip_is_loopback ip || v4_link_local a || ip_is_unspecified ip)
  | V6 a => negb (ip_is_loopback ip || ip_is_unspecified ip || v6_link_local a)
  end.

(** [files]: what [read_to_string] gives. *)
Definition system_resolvers (files : string → option (list Z)) : list IpAddr :=
  let read path := match files path with Some t => parse_resolvers t | None => [] end in
  let listed := read "/etc/resolv.conf"%string in
  let stub := if existsb ip_is_loopback listed then List.filter pinnable_resolver (read "/run/systemd/resolve/resolv.conf"%string) else [] in
  dedup_by (λ a b, bool_decide (a = b)) (sort_by_key (λ ip : IpAddr, ip) (List.filter pinnable_resolver listed ++ stub)).

(** ** What is written is read back *)

Definition wf_gateway (g : Gateway) : Prop := wf_addr (gw_addr g) ∧ ∀ i, gw_ifindex g = Some i → 0 ≤ i ≤ u32_max.
Definition wf_pins (m : gmap IpAddr Gateway) : Prop := ∀ ip g, m !! ip = Some g → wf_addr ip ∧ wf_gateway g.

Lemma addr_char_graphic b : addr_char b → graphic b ∧ b ≠ 37 ∧ b ≠ 35.
Proof. unfold addr_char, graphic. lia. Qed.

Lemma addr_graphic ip : Forall graphic (addr_bytes ip).
Proof. eapply Forall_impl; [apply addr_bytes_chars|]. apply addr_char_graphic. Qed.

Lemma addr_bytes_ne ip : wf_addr ip → addr_bytes ip ≠ [].
Proof.
  intros Hw Hn. pose proof (ip_parse_to_string ip Hw) as Hp. unfold ip_parse in Hp. rewrite str_bytes_addr, Hn in Hp. done.
Qed.

Lemma parse_addr_bytes ip : wf_addr ip → ip_parse (bytes_str (addr_bytes ip)) = Some ip.
Proof. intros Hw. rewrite <- (ip_parse_to_string ip Hw). by destruct ip. Qed.

Lemma split_none c l : Forall (λ b, b ≠ c) l → split_bytes c l = None.
Proof. induction 1 as [|b l Hb _ IH]; [done|]. cbn. apply Z.eqb_neq in Hb. by rewrite Hb, IH. Qed.

Lemma gateway_roundtrip g : wf_gateway g → gateway_from_str (gateway_bytes g) = Some g.
Proof.
  destruct g as [a [i|]]; intros [Ha Hi]; unfold gateway_from_str, gateway_bytes; cbn [gw_addr gw_ifindex] in *.
  - rewrite split_bytes_first by (eapply Forall_impl; [apply addr_bytes_chars|]; apply addr_char_graphic).
    rewrite parse_addr_bytes by done. cbn [mbind option_bind]. specialize (Hi i eq_refl). rewrite parse_fmt; [done|by left|lia|]. unfold u32_max in Hi. change (10 ^ Z.of_nat 10) with (10 ^ 10). lia.
  - rewrite app_nil_r, split_none by (eapply Forall_impl; [apply addr_bytes_chars|]; apply addr_char_graphic). by rewrite parse_addr_bytes.
Qed.

Lemma gateway_graphic g : wf_gateway g → Forall graphic (gateway_bytes g) ∧ gateway_bytes g ≠ [].
Proof.
  intros [Ha Hi]. unfold gateway_bytes. split.
  - apply Forall_app. split; [apply addr_graphic|]. destruct (gw_ifindex g) as [i|]; [|done]. constructor; [unfold graphic; lia|].
    specialize (Hi i eq_refl). eapply Forall_impl; [apply (fmt_digits_chars 10 10 i); [by left|lia]|]. by intros ? [].
  - intros [Hn _]%app_eq_nil. by apply addr_bytes_ne in Hn.
Qed.

(** A line that starts and ends in a visible character has nothing to trim. *)
Lemma graphic_edge b s : graphic b → strip_any white_space (b :: s) = None ∧ strip_any ((@rev Z) <$> white_space) (b :: s) = None.
Proof.
  intros Hb. assert (∀ ws, Forall (λ w, match w with x :: _ => (x <? 33) || (126 <? x) | [] => false end = true) ws → strip_any ws (b :: s) = None) as H.
  { intros ws Hw. apply strip_any_none. intros w s' Hin He. rewrite Forall_forall in Hw. specialize (Hw w Hin). destruct w as [|x w]; [done|].
    injection He as -> _. unfold graphic in Hb. apply orb_true_iff in Hw as [?%Z.ltb_lt|?%Z.ltb_lt]; lia. }
  split; apply H; by_decide.
Qed.

Lemma trim_text_edges a l b : graphic a → graphic b → trim_text (a :: l ++ [b]) = a :: l ++ [b].
Proof.
  intros Ha Hb. unfold trim_text. rewrite (trim_bytes_stop _ white_space (a :: l ++ [b]) (proj1 (graphic_edge a _ Ha))).
  assert (rev (a :: l ++ [b]) = b :: rev (a :: l)) as -> by (by rewrite app_comm_cons, rev_app_distr).
  rewrite (trim_bytes_stop _ _ (b :: rev (a :: l)) (proj2 (graphic_edge b _ Hb))). cbn [rev]. rewrite rev_app_distr, rev_involutive. done.
Qed.

Lemma pin_line_edges p : wf_addr p.1 → wf_gateway p.2 → ∃ a l b, pin_line p = a :: l ++ [b] ∧ graphic a ∧ graphic b ∧ Forall printable (pin_line p).
Proof.
  intros Hip Hg. destruct (gateway_graphic _ Hg) as [Hgg Hgn]. pose proof (addr_graphic p.1) as Hag. pose proof (addr_bytes_ne _ Hip) as Han.
  unfold pin_line. assert (Forall printable (addr_bytes p.1 ++ 32 :: gateway_bytes p.2)) as Hpr.
  { apply Forall_app. split; [eapply Forall_impl; [exact Hag|]; unfold graphic, printable; lia|]. constructor; [unfold printable; lia|].
    eapply Forall_impl; [exact Hgg|]. unfold graphic, printable. lia. }
  destruct (addr_bytes p.1) as [|a l]; [done|]. destruct (exists_last Hgn) as (l' & b & Hl'). exists a, (l ++ 32 :: l'), b. rewrite Hl' in *.
  split_and!; [by rewrite <- app_assoc|by apply Forall_cons in Hag as [? _]|by apply Forall_app in Hgg as [_ [? _]%Forall_cons]|done].
Qed.

Lemma pin_line_read p : wf_addr p.1 → wf_gateway p.2 → pin_of_line (pin_line p) = Some p.
Proof.
  intros Hip Hg. destruct p as [ip g]. cbn in *. unfold pin_of_line, pin_line. cbn [fst snd]. rewrite split_bytes_first.
  - rewrite !trim_text_graphic by (apply addr_graphic || by apply gateway_graphic). rewrite parse_addr_bytes by done. cbn. by rewrite gateway_roundtrip.
  - eapply Forall_impl; [apply addr_graphic|]. unfold graphic. lia.
Qed.

Lemma lines_run_newline l s : Forall printable l → l ≠ [] → lines_run [] (l ++ 10 :: s) = l :: lines_run [] s.
Proof.
  intros Hl Hn. rewrite lines_run_line by done. cbn [lines_run Z.eqb Pos.eqb]. rewrite app_nil_r, rev_involutive. f_equal.
  unfold chomp. destruct (exists_last Hn) as (l' & b & ->). rewrite rev_app_distr. cbn. apply Forall_app in Hl as [_ [Hb _]%Forall_cons]. unfold printable in Hb.
  destruct b as [|b|]; cbn; rewrite ?rev_involutive; try done. do 4 (destruct b as [b|b|]; cbn; rewrite ?rev_involutive; try done; try lia).
Qed.

Lemma read_pin_lines ps : Forall (λ p, wf_addr p.1 ∧ wf_gateway p.2) ps →
  omap pin_of_line (List.filter (λ l, negb (bool_decide (l = []))) (trim_text <$> str_lines (concat ((λ p, pin_line p ++ [10]) <$> ps)))) = ps.
Proof.
  unfold str_lines. induction 1 as [|p ps [Hip Hg] _ IH]; [done|]. destruct (pin_line_edges p Hip Hg) as (a & l & b & He & Ha & Hb & Hp).
  cbn [fmap list_fmap concat]. rewrite <- app_assoc. cbn [app]. rewrite lines_run_newline by (done || by rewrite He). cbn [fmap list_fmap].
  rewrite He, trim_text_edges by done. cbn [List.filter]. rewrite bool_decide_eq_false_2 by done. cbn [negb omap list_omap]. rewrite <- He, pin_line_read by done. by rewrite IH.
Qed.

Lemma bt_collect_iter {K V} `{Countable K, OrdKey K} (m : gmap K V) : bt_collect (bt_iter m) = m.
Proof.
  assert (∀ l : list (K * V), NoDup l.*1 → bt_collect l = list_to_map l) as Hl.
  { induction l as [|p l IH] using rev_ind; intros Hn; [done|]. rewrite bt_collect_snoc. rewrite fmap_app in Hn. apply NoDup_app in Hn as (Hn & Hx & _).
    rewrite IH by done. destruct p as [k v]. cbn. rewrite (list_to_map_snoc l k v); [done|]. intros Hk. apply (Hx k Hk). by left. }
  rewrite Hl by apply bt_iter_NoDup. rewrite (list_to_map_proper (bt_iter m) (map_to_list m)); [apply list_to_map_to_list|apply bt_iter_NoDup|apply sort_by_key_perm].
Qed.

Lemma journal_roundtrip m : wf_pins m → journal_read (journal_body m) = m ∧ utf8_valid (journal_body m) = true.
Proof.
  intros Hw. assert (Forall (λ p, wf_addr p.1 ∧ wf_gateway p.2) (bt_iter m)) as Hps.
  { apply Forall_forall. intros [ip g] Hin. apply elem_of_bt_iter in Hin. by apply Hw. }
  split; [unfold journal_read, journal_body; by rewrite read_pin_lines, bt_collect_iter|].
  apply utf8_ascii. unfold journal_body. induction Hps as [|p ps [Hip Hg] _ IH]; [constructor|]. cbn. rewrite <- app_assoc. apply Forall_app. split; [|by constructor; [lia|]].
  destruct (pin_line_edges p Hip Hg) as (_ & _ & _ & _ & _ & _ & Hp). eapply Forall_impl; [exact Hp|]. unfold printable. lia.
Qed.

(** ** The journal survives *)

Section survives.
Context (w0 : Fs) (path : string) (Hwf : fs_wf w0) (Hset : settled w0).
(** The journal is a file of its own, or absent. *)
Definition plain (w : Fs) : Prop := ∀ t, fs_names w !! path ≠ Some (ELink t).
Context (Hplain : plain w0).

Definition journal_now (w : Fs) : gmap IpAddr Gateway := pj_map (journal_load true path w).

Lemma read_plain v : fs_names v !! path = fs_names w0 !! path → (∀ i x, fs_nodes w0 !! i = Some x → fs_nodes v !! i = Some x) →
  fs_read v path = fs_read w0 path.
Proof.
  intros Hn Hx. unfold fs_read, fs_node. cbn [fs_resolve]. rewrite Hn. destruct (fs_names w0 !! path) as [[i|t]|] eqn:E; [|by apply Hplain in E|done].
  cbn. destruct (fw_names _ Hwf _ _ E) as [x Hi]. by rewrite Hi, (Hx _ _ Hi).
Qed.

Lemma read_new_file since v bytes mode : new_file since v path bytes mode → fs_read v path = Some bytes.
Proof. intros (i & x & Hn & Hi & _ & Hd & _). unfold fs_read, fs_node. cbn [fs_resolve]. rewrite Hn. cbn. by rewrite Hi, <- Hd. Qed.

Lemma now_of_read v b : fs_read v path = b → journal_now v = match b with Some b => if utf8_valid b then journal_read b else ∅ | None => ∅ end.
Proof. by intros <-. Qed.
Lemma now_same v : fs_read v path = fs_read w0 path → journal_now v = journal_now w0.
Proof. intros He. unfold journal_now, journal_load, fs_try_read. by rewrite He. Qed.
Lemma now_written v m : wf_pins m → fs_read v path = Some (journal_body m) → journal_now v = m.
Proof. intros Hm He. destruct (journal_roundtrip m Hm) as [Hr Hu]. by rewrite (now_of_read _ _ He), Hu, Hr. Qed.

Section written.
Context (tmp : string) (m : gmap IpAddr Gateway) (Htmp : tmp ≠ path) (Hm : wf_pins m).

(** Read by the next process, or after the power came back. *)
Definition old_or_new (u : Fs) : Prop :=
  (journal_now u = journal_now w0 ∨ journal_now u = m) ∧ ∀ v, power_cut u v → journal_now v = journal_now w0 ∨ journal_now v = m.

Lemma stage_old_or_new u : stage w0 tmp path (journal_body m) 384 u → old_or_new u.
Proof.
  intros Hs. split.
  - assert (∀ x i y, fs_nodes w0 !! i = Some y → <[fs_next w0 := x]> (fs_nodes w0) !! i = Some y) as Hk.
    { intros x i y Hi. rewrite lookup_insert_ne; [done|]. intros <-. by rewrite (new_unused w0) in Hi. }
    assert (∀ x durable, complete (journal_body m) 384 x →
      fs_read (with_new w0 (<[path := EFile (fs_next w0)]> (delete tmp (fs_names w0))) durable x) path = Some (journal_body m)) as Hn.
    { intros x durable (Hd & _). unfold fs_read, fs_node, with_new. cbn [fs_resolve fs_names]. rewrite lookup_insert_eq. cbn. rewrite lookup_insert_eq. cbn. by rewrite Hd. }
    destruct Hs as [| |x ?|x ?|x Hx|x Hx]; try (left; apply now_same, read_plain; cbn; [by simplify_map_eq|first [done|apply Hk]]); right; apply now_written; auto.
  - intros v Hv. destruct (stage_cut w0 tmp path (journal_body m) 384 Hwf Hset Htmp u v Hs Hv) as (_ & Hx & _ & [Hn|Hn]).
    + left. apply now_same, read_plain; done.
    + right. apply now_written; [done|]. by eapply read_new_file.
Qed.
End written.

(** Removing the file is not synced: a power cut may bring it back. *)
Lemma removed_old_or_new : old_or_new ∅ (set_names (delete path (fs_names w0)) w0).
Proof.
  split.
  - right. apply (now_of_read _ None). unfold fs_read, fs_node. cbn. by rewrite lookup_delete_eq.
  - intros v (Hn & _ & Hx & _). cbn in Hn, Hx. specialize (Hn path). rewrite lookup_delete_eq in Hn. destruct Hn as [Hn|Hn].
    + right. apply (now_of_read _ None). unfold fs_read, fs_node. cbn. by rewrite Hn.
    + left. apply now_same, read_plain; [by rewrite Hn, (proj1 Hset)|]. intros i x Hi. specialize (Hx i). rewrite Hi in Hx.
      destruct Hx as (x' & Hx' & _ & _ & He). by rewrite He in Hx' by (by eapply Hset).
Qed.

Lemma start_old_or_new m : old_or_new m w0.
Proof. split; [by left|]. intros v Hv. rewrite (settled_cut _ _ Hset Hv). by left. Qed.
End survives.

(** C33: The journal of pins survives whatever fails and wherever the process dies
    or the power goes: from a directory at rest, what the next process reads is
    the journal from before or the one being written, every address and gateway
    of either family exactly; once the write answered it is the new one, which is
    what the model of the pins takes its file to be, and unless it was the last
    pin that went, no power cut takes it back. *)
Theorem journal_survives dir_ok ev path m w0 (Hwf : fs_wf w0) (Hset : settled w0) (Hplain : plain path w0)
    (Htmp : with_extension path "tmp" ≠ path) (Hm : wf_pins m) :
  let '(ok, w, points) := journal_persist dir_ok ev (mkPinJournal (Some path) m) w0 in
  let now := journal_now path in
  (∀ u, u ∈ w :: points → (now u = now w0 ∨ now u = m) ∧ ∀ v, power_cut u v → now v = now w0 ∨ now v = m) ∧
  (ok = true → now w = m ∧ (m ≠ ∅ → fs_wf w ∧ settled w ∧ plain path w) ∧
     ∀ (H : Type) (h : H) f, now w = default ∅ (pw_file (persist (λ _, ok) (mkPinWorld h (mkPinJournal (Some path) m) f)))).
Proof.
  assert (triple (old_or_new w0 path m) (λ w, w = w0) (journal_persist dir_ok ev (mkPinJournal (Some path) m)) (λ ok w, old_or_new w0 path m w ∧
    (ok = true → journal_now path w = m ∧ (m ≠ ∅ → fs_wf w ∧ settled w ∧ plain path w)))) as Ht.
  { pose proof (start_old_or_new w0 path Hset m) as H0. unfold journal_persist. cbn [pj_path pj_map]. destruct (decide (m = ∅)) as [->|Hne].
    - unfold fs_remove. apply t_act. intros w ->. destruct (fs_names w0 !! path) eqn:E.
      + destruct (av_remove ev); cbn [fst snd].
        * pose proof (removed_old_or_new w0 path Hwf Hset Hplain) as Hr. split_and!; try done. intros _. split; [|done].
          apply (now_of_read path _ None). unfold fs_read, fs_node. cbn. by rewrite lookup_delete_eq.
        * done.
      + cbn [fst snd]. split_and!; try done. intros _. split; [|done]. apply (now_of_read path _ None). unfold fs_read, fs_node. cbn. by rewrite E.
    - unfold write_file_atomic. destruct dir_ok; [|apply t_ret; by intros w ->].
      eapply t_weaken; [eapply t_crash; [|by apply (write_private_stage w0 (with_extension path "tmp") path (journal_body m) 384)]| |].
      + intros u. by apply stage_old_or_new.
      + done.
      + intros [|] w Hw; [|split; [by eapply stage_old_or_new|done]].
        destruct (done_settled w0 _ _ _ _ Hwf Hset w Hw) as (Hw1 & Hw2 & _ & _ & Hr & (i & x & Hn & _)). split.
        * destruct Hw as (y & Hy & ->). eapply stage_old_or_new; try done. by apply stage_durable.
        * intros _. split; [by apply (now_written path w m)|]. intros _. split_and!; [done|done|]. intros t Ht. congruence. }
  specialize (Ht w0 eq_refl). destruct (journal_persist dir_ok ev (mkPinJournal (Some path) m) w0) as [[ok w] points]. destruct Ht as [Hp [Hw Hok]].
  cbn zeta. split.
  - intros u [->|Hu]%elem_of_cons; [exact Hw|]. rewrite Forall_forall in Hp. by apply Hp.
  - intros ->. destruct (Hok eq_refl) as [Hn Hs]. split_and!; [done|done|]. intros H h f. rewrite Hn. unfold persist. cbn. by case_decide; subst.
Qed.

(** ** Which resolvers are pinned *)

Lemma nameserver_read ip t : wf_addr ip → parse_resolvers (str_bytes "nameserver " ++ addr_bytes ip ++ 10 :: t) = ip :: parse_resolvers t.
Proof.
  intros Hw. pose proof (addr_bytes_ne ip Hw) as Hne. pose proof (addr_graphic ip) as Hg. unfold parse_resolvers, str_lines.
  assert (Forall printable (str_bytes "nameserver " ++ addr_bytes ip)) as Hp.
  { apply Forall_app. split; [unfold printable; by_decide|]. eapply Forall_impl; [exact Hg|]. unfold graphic, printable. lia. }
  rewrite app_assoc, lines_run_newline by (done || by intros [? _]%app_eq_nil). cbn [omap list_omap].
  assert (first_piece 35 (str_bytes "nameserver " ++ addr_bytes ip) = str_bytes "nameserver " ++ addr_bytes ip) as ->.
  { unfold first_piece. rewrite split_none; [done|]. apply Forall_app. split; [by_decide|]. eapply Forall_impl; [apply addr_bytes_chars|]. apply addr_char_graphic. }
  assert (trim_text (str_bytes "nameserver " ++ addr_bytes ip) = str_bytes "nameserver" ++ 32 :: addr_bytes ip) as ->.
  { destruct (exists_last Hne) as (l & b & Hl). rewrite Hl in *. apply Forall_app in Hg as [_ [Hb _]%Forall_cons].
    change (str_bytes "nameserver " ++ l ++ [b]) with (110 :: (str_bytes "ameserver " ++ l ++ [b])). rewrite app_assoc. rewrite trim_text_edges; [|unfold graphic; lia|done].
    by rewrite <- app_assoc. }
  rewrite (proj2 (strip_bytes_some _ _ _) eq_refl). cbn [mbind option_bind]. rewrite trim_text_space, trim_text_graphic by done.
  unfold first_piece. rewrite split_none by (eapply Forall_impl; [apply addr_bytes_chars|]; apply addr_char_graphic). by rewrite parse_addr_bytes.
Qed.

Lemma resolvers_exact files ip :
  let read path := match files path with Some t => parse_resolvers t | None => [] end in
  ip ∈ system_resolvers files ↔ pinnable_resolver ip = true ∧
    (ip ∈ read "/etc/resolv.conf"%string ∨
     (∃ stub, stub ∈ read "/etc/resolv.conf"%string ∧ ip_is_loopback stub = true) ∧ ip ∈ read "/run/systemd/resolve/resolv.conf"%string).
Proof.
  cbn zeta. unfold system_resolvers. set (l1 := match files "/etc/resolv.conf"%string with Some t => parse_resolvers t | None => [] end).
  set (l2 := match files "/run/systemd/resolve/resolv.conf"%string with Some t => parse_resolvers t | None => [] end).
  rewrite elem_of_dedup, elem_of_sort_by_key, elem_of_app, list_elem_of_In, filter_In, <- list_elem_of_In.
  assert (ip ∈ (if existsb ip_is_loopback l1 then List.filter pinnable_resolver l2 else []) ↔
    pinnable_resolver ip = true ∧ (∃ stub, stub ∈ l1 ∧ ip_is_loopback stub = true) ∧ ip ∈ l2) as ->; [|tauto].
  destruct (existsb ip_is_loopback l1) eqn:E.
  - apply existsb_exists in E as (stub & Hs & Hl). rewrite list_elem_of_In, filter_In, <- list_elem_of_In. rewrite <- list_elem_of_In in Hs. split; [|tauto].
    intros [? ?]. split_and!; try done. by exists stub.
  - split; [by intros ?%not_elem_of_nil|]. intros (_ & (stub & Hs & Hl) & _). rewrite list_elem_of_In in Hs.
    assert (existsb ip_is_loopback l1 = true) by (apply existsb_exists; eauto). congruence.
Qed.

(** ** A client's journal *)

Module JournalExample.
Definition m : gmap IpAddr Gateway :=
  {[V4 (10 * 2 ^ 24 + 1) := mkGateway (V4 (192 * 2 ^ 24 + 168 * 2 ^ 16 + 1)) (Some 2);
    V6 (2 ^ 125 + 5) := mkGateway (V6 (65152 * 2 ^ 112 + 1)) (Some 3)]}.
Definition disk : Fs := mkFs ∅ ∅ ∅ 0.
(** A call fails after four bytes. *)
Definition full : AtomicEnv := mkAtomicEnv 18 true true true (Some 4%nat) true true true.

Lemma text : bytes_str (pin_line (V6 (2 ^ 125 + 5), mkGateway (V6 (65152 * 2 ^ 112 + 1)) (Some 3))) = "2000::5 fe80::1%3"%string.
Proof. reflexivity. Qed.
Lemma mapped : ip_to_string (V6 (65535 * 2 ^ 32 + 10 * 2 ^ 24 + 1)) = "::ffff:10.0.0.1"%string.
Proof. reflexivity. Qed.

(** A write that fails half-way leaves the journal from before. *)
Lemma half_written : (journal_persist true full (mkPinJournal (Some "pins"%string) m) disk).1.1 = false ∧
  journal_now "pins" (journal_persist true full (mkPinJournal (Some "pins"%string) m) disk).1.2 = ∅.
Proof. split; vm_compute; reflexivity. Qed.

Lemma resolv_conf : parse_resolvers (str_bytes "# stub" ++ 10 :: str_bytes "nameserver 127.0.0.53 # local" ++ 10 :: str_bytes "nameserver fe80::1%eth0")
  = [V4 (127 * 2 ^ 24 + 53); V6 (65152 * 2 ^ 112 + 1)].
Proof. reflexivity. Qed.
Lemma fresh_disk_wf : fs_wf disk.
Proof. split; cbn; intros *; rewrite lookup_empty; [done|done|by intros []]. Qed.
Lemma fresh_disk_settled : settled disk.
Proof. split; [done|]. intros i x Hx. cbn in Hx. by rewrite lookup_empty in Hx. Qed.
End JournalExample.

Lemma journal_survives_witness :
  let '(ok, w, points) := journal_persist true KeyFilesExample.calm (mkPinJournal (Some "pins"%string) JournalExample.m) JournalExample.disk in
  ok = true ∧ journal_now "pins" w = JournalExample.m ∧ settled w.
Proof.
  assert (wf_pins JournalExample.m) as Hm.
  { intros ip g. unfold JournalExample.m. intros [[<- <-]|[_ [<- <-]%lookup_singleton_Some]]%lookup_insert_Some; 
      (split; [cbn; unfold u_range; lia|]); (split; [cbn; unfold u_range; lia|]); intros i [= <-]; unfold u32_max; lia. }
  pose proof (journal_survives true KeyFilesExample.calm "pins" JournalExample.m JournalExample.disk JournalExample.fresh_disk_wf JournalExample.fresh_disk_settled ltac:(by intros t) ltac:(done) Hm) as H.
  assert ((journal_persist true KeyFilesExample.calm (mkPinJournal (Some "pins"%string) JournalExample.m) JournalExample.disk).1.1 = true) as Hok by (vm_compute; reflexivity).
  destruct (journal_persist _ _ _ _) as [[ok w] points]. cbn [fst] in Hok. subst ok. destruct H as [_ H]. destruct (H eq_refl) as (Hn & Hs & _).
  split_and!; [done|done|]. by apply Hs.
Defined.
