(* ===== verification/Buckets.v ===== *)
(** * Token buckets (crates/nqvpn-relay/src/tables.rs, [TokenBucket]; crates/nqvpn-coord/src/control.rs,
      [HeartbeatBudget])

    Both limiters reckon in [f64]. The numbers are those of IEEE 754 in double
    precision, as the standard library specifies them, rounding included; an
    [Instant] is a number of nanoseconds. *)

From Stdlib Require Import SpecFloat.
From S2P Require Import Prelude.

(** ** Double precision *)

Abbreviation f64 := spec_float.
Definition f64_of (z : Z) : f64 := binary_normalize 53 1024 z 0 false.
Definition f64_add : f64 → f64 → f64 := SFadd 53 1024.
Definition f64_sub : f64 → f64 → f64 := SFsub 53 1024.
Definition f64_mul : f64 → f64 → f64 := SFmul 53 1024.
Definition f64_div : f64 → f64 → f64 := SFdiv 53 1024.

(** [f64::min]: the other one, if one is not a number. *)
Definition f64_min (x y : f64) : f64 :=
  match x, y with S754_nan, _ => y | _, S754_nan => x | _, _ => if SFltb y x then y else x end.

(** [Duration::as_secs_f64]. *)
Definition as_secs_f64 (ns : Z) : f64 := f64_add (f64_of (ns / 10 ^ 9)) (f64_div (f64_of (ns mod 10 ^ 9)) (f64_of (10 ^ 9))).
(** [Instant::duration_since] saturates. *)
Definition duration_since (now earlier : Z) : Z := Z.max 0 (now - earlier).

(** ** A session's bandwidth *)

Record TokenBucket := mkTokenBucket { tb_capacity : f64; tb_tokens : f64; tb_refill_per_sec : f64; tb_last : Z }.

Definition bucket_new (mbps now : Z) : option TokenBucket :=
  if mbps =? 0 then None else
  let bytes_per_sec := f64_div (f64_mul (f64_of mbps) (f64_of 1000000)) (f64_of 8) in
  Some (mkTokenBucket bytes_per_sec bytes_per_sec bytes_per_sec now).

Definition bucket_allow (len now : Z) (b : TokenBucket) : TokenBucket * bool :=
  let elapsed := as_secs_f64 (duration_since now (tb_last b)) in
  let tokens := f64_min (f64_add (tb_tokens b) (f64_mul elapsed (tb_refill_per_sec b))) (tb_capacity b) in
  if SFleb (f64_of len) tokens then (mkTokenBucket (tb_capacity b) (f64_sub tokens (f64_of len)) (tb_refill_per_sec b) now, true)
  else (mkTokenBucket (tb_capacity b) tokens (tb_refill_per_sec b) now, false).

(** ** A session's heartbeats *)

Definition HEARTBEAT_BURST : f64 := f64_of 8.
Definition HEARTBEATS_PER_SEC : f64 := f64_of 4.

Record HeartbeatBudget := mkHeartbeatBudget { bg_tokens : f64; bg_at : Z }.

Definition budget_new (now : Z) : HeartbeatBudget := mkHeartbeatBudget HEARTBEAT_BURST now.
Definition budget_refill (now : Z) (b : HeartbeatBudget) : HeartbeatBudget :=
  mkHeartbeatBudget (f64_min (f64_add (bg_tokens b) (f64_mul (as_secs_f64 (duration_since now (bg_at b))) HEARTBEATS_PER_SEC)) HEARTBEAT_BURST) now.
Definition budget_try_take (now : Z) (b : HeartbeatBudget) : HeartbeatBudget * bool :=
  let b := budget_refill now b in
  if SFleb (f64_of 1) (bg_tokens b) then (mkHeartbeatBudget (f64_sub (bg_tokens b) (f64_of 1)) (bg_at b), true) else (b, false).

(** ** What a bucket lets through *)

Definition is_num (x : f64) : bool := match x with S754_nan => false | _ => true end.

Lemma SFcompare_sym x y : SFcompare y x = CompOpp <$> SFcompare x y.
Proof.
  destruct x as [[]|[]| |[] m1 e1], y as [[]|[]| |[] m2 e2]; cbn; try done; rewrite (Z.compare_antisym e1 e2);
    destruct (e1 ?= e2)%Z; cbn; rewrite ?(Pos.compare_antisym m1 m2 : Pos.compare_cont Eq m2 m1 = _); try done;
    by rewrite ?CompOpp_involutive.
Qed.

Lemma SFcompare_num x y : is_num x = true → is_num y = true → is_Some (SFcompare x y).
Proof. destruct x, y; cbn; try done; intros; case_match; eauto. Qed.

Lemma f64_min_le x y : is_num y = true → SFleb (f64_min x y) y = true ∧ is_num (f64_min x y) = true.
Proof.
  intros Hy. assert (SFleb y y = true) as Hyy.
  { unfold SFleb. pose proof (SFcompare_sym y y) as Hs. destruct (SFcompare_num y y Hy Hy) as [c Hc]. rewrite Hc in *. by destruct c. }
  unfold f64_min. destruct (is_num x) eqn:Hx; [|by destruct x].
  assert (SFleb (if SFltb y x then y else x) y = true ∧ is_num (if SFltb y x then y else x) = true) as Hm.
  { unfold SFltb. destruct (SFcompare_num y x Hy Hx) as [c Hc]. unfold SFleb. rewrite Hc. pose proof (SFcompare_sym y x) as Hs. rewrite Hc in Hs. cbn in Hs.
    destruct c; [split; [by rewrite Hs|done]|exact (conj Hyy Hy)|split; [by rewrite Hs|done]]. }
  by destruct x, y.
Qed.

(** However long it waited, a session never has more than a second's worth, and
    what is let through was covered by it; a packet larger than that never is. *)
Lemma bucket_bounded len now b : is_num (tb_capacity b) = true →
  (∀ b', bucket_allow len now b = (b', true) → ∃ t, SFleb (f64_of len) t = true ∧ SFleb t (tb_capacity b) = true ∧ tb_tokens b' = f64_sub t (f64_of len)) ∧
  (∀ b', bucket_allow len now b = (b', false) → SFleb (tb_tokens b') (tb_capacity b) = true ∧ SFleb (f64_of len) (tb_tokens b') = false).
Proof.
  intros Hc. unfold bucket_allow. set (t := f64_min _ _). pose proof (f64_min_le (f64_add (tb_tokens b) (f64_mul (as_secs_f64 (duration_since now (tb_last b))) (tb_refill_per_sec b))) (tb_capacity b) Hc) as [Ht _].
  fold t in Ht. destruct (SFleb (f64_of len) t) eqn:E; (split; intros b' [= <-]); [by exists t|done].
Qed.

(** A session that takes more than it is given stops being heard: what the
    budget grants was covered, and it never holds more than its burst. *)
Lemma budget_bounded now b : SFleb (bg_tokens (budget_refill now b)) HEARTBEAT_BURST = true ∧
  (budget_try_take now b).2 = SFleb (f64_of 1) (bg_tokens (budget_refill now b)).
Proof.
  split; [by apply f64_min_le|]. unfold budget_try_take. by case_match.
Qed.

(** ** A minute of heartbeats *)

Module BucketsExample.
(** Eight at once and the ninth not; a quarter of a second later, one more. *)
Definition take (now : Z) (s : HeartbeatBudget * list bool) : HeartbeatBudget * list bool :=
  let '(b, r) := budget_try_take now s.1 in (b, s.2 ++ [r]).
Lemma nine_at_once :
  (take (250 * 10 ^ 6 + 5) (Nat.iter 9 (take 5) (budget_new 5, []))).2 = replicate 8 true ++ [false; true].
Proof. vm_compute. reflexivity. Qed.

(** A megabit per second: 125000 bytes at once. *)
Lemma one_megabit : (λ b, (bucket_allow 1500 7 b).2) <$> bucket_new 1 7 = Some true ∧ (λ b, (bucket_allow 125001 (10 ^ 12) b).2) <$> bucket_new 1 7 = Some false.
Proof. split; vm_compute; reflexivity. Qed.
End BucketsExample.
