(* ===== verification/ControlConn.v ===== *)
(** * A control connection at the coordinator (crates/nqvpn-coord/src/control.rs)

    From the first packet to the teardown: the cap on connections nobody has
    vouched for yet, the one message read before that, its checks, the
    registration, and the loop that takes the member's messages, with heartbeats
    over budget put aside. The handlers are those of [NetState] and [Rpc]; the
    encoding of the messages is a parameter. *)

From Stdlib Require Import SpecFloat.
From S2P Require Import Rpc.
From S2P Require Import Prelude Ordered Ipnet Text Control Envelope Replay Seal Credential Config Registry Leases Directory Ipam NetState RateLimit Join Validate.
From S2P Require Import Frame Tables RelayNet Admin Coordinator Buckets.

(** ** Before a peer is known *)

Definition MAX_UNAUTHENTICATED : Z := 256.
Definition CTL_CLOSE_VERSION : Z := 3.

(** The accept loop and its semaphore: connections waiting to say who they are. *)
Inductive ServeEvent := SeIncoming | SeSettled.
Definition serve_step (waiting : Z) (ev : ServeEvent) : Z * bool :=
  match ev with
  | SeIncoming => if waiting <? MAX_UNAUTHENTICATED then (waiting + 1, true) else (waiting, false)
  | SeSettled => (waiting - 1, true)
  end.

(** Nothing settles that is not waiting. *)
Inductive serve_run : Z → Prop :=
| sr_start : serve_run 0
| sr_incoming w : serve_run w → serve_run (serve_step w SeIncoming).1
| sr_settled w : serve_run w → 0 < w → serve_run (serve_step w SeSettled).1.

Lemma unauthenticated_capped w : serve_run w → 0 ≤ w ≤ MAX_UNAUTHENTICATED.
Proof.
  unfold MAX_UNAUTHENTICATED. induction 1 as [|w _ IH|w _ IH Hw]; [lia| |cbn; lia]. cbn. unfold MAX_UNAUTHENTICATED. destruct (Z.ltb_spec w 256); cbn; lia.
Qed.

(** What bincode makes of a payload. *)
Class CtlCodec := {
  hello_of : list Z → option (string * Z);
  heartbeat_of : list Z → option Heartbeat;
  exit_of : list Z → option ExitReadiness;
  resync_of : list Z → option Z;
  refresh_of : list Z → option string;
}.

(** The clocks a handler reads, whether the registry can be saved, and the time
    the budget sees. *)
Record CtlClock := mkCtlClock { ck_now : Z; ck_now_ms : Z; ck_now_ms' : Z; ck_now_ms'' : Z; ck_save_ok : bool; ck_instant : Z }.

(** The handshake and the first message, under one deadline, and the certificate. *)
Inductive HelloRead := HelloLate | HelloFailed | HelloGot (env : Envelope) (fp : option string).

Section conn.
Context `{O : IpNetOps, Q : MpscOps, L : CredLib, B : Base64, !JoinLib L, RC : RpcCodec, CC : CtlCodec}.
Context (enc : Snapshot → list Z).

(** Who it is, for which network, and the generation it holds; or no session,
    and with which code the connection is closed. *)
Definition conn_hello (a : AppState) (h : HelloRead) (now : Z) : Result (Claims * string * Z * string) (option Z) :=
  match h with
  | HelloLate | HelloFailed | HelloGot _ None => Err None
  | HelloGot env (Some fp) =>
      match check_version (env_major env) (env_minor env) with
      | Err _ => Err (Some CTL_CLOSE_VERSION)
      | Ok _ =>
          if negb (env_kind env =? kind_u16 KHello) then Err None else
          match hello_of (env_payload env) with
          | None => Err None
          | Some (credential, have_gen) =>
              match verify_credential (λ id, as_networks a !! id) (verifying_keys (as_keyring a)) credential fp now with
              | Ok (claims, network_id) => Ok (claims, network_id, have_gen, fp)
              | Err (ReplacedBy _ _) => Err (Some CLOSE_REPLACED)
              | Err _ => Err None
              end
          end
      end
  end.

Record CtlConn := mkCtlConn {
  cn_network : string; cn_node : Z; cn_role : Role; cn_fp : string; cn_session : Z; cn_ack_gen : Z;
  cn_budget : HeartbeatBudget; cn_pending : option Heartbeat; cn_rpc : RpcPeer;
}.
Definition set_pending (b : HeartbeatBudget) (p : option Heartbeat) (c : CtlConn) : CtlConn :=
  mkCtlConn (cn_network c) (cn_node c) (cn_role c) (cn_fp c) (cn_session c) (cn_ack_gen c) b p (cn_rpc c).
Definition set_rpc (p : RpcPeer) (c : CtlConn) : CtlConn :=
  mkCtlConn (cn_network c) (cn_node c) (cn_role c) (cn_fp c) (cn_session c) (cn_ack_gen c) (cn_budget c) (cn_pending c) p.

(** [net_of] and [lock]: a network that is gone ends the session. *)
Definition live_net (a : AppState) (id : string) : option NetState :=
  match as_networks a !! id with Some n => if ns_deleted n then None else Some n | None => None end.

Definition conn_register (a : AppState) (claims : Claims) (network_id : string) (have_gen : Z) (fp : string) (session_id : Z) (remote : string)
    (k : CtlClock) : AppState * option CtlConn :=
  match live_net a network_id with
  | None => (a, None)
  | Some n =>
      let '(n', gen) := register_session enc n session_id claims remote have_gen (key_infos (as_keyring a)) (ck_now k) (ck_now_ms k) (ck_now_ms' k) (ck_save_ok k) in
      (as_set_net network_id n' a,
       Some (mkCtlConn network_id (cl_node_id claims) (cl_role claims) fp session_id gen (budget_new (ck_instant k)) None rpc_new))
  end.

(** ** The loop *)

Inductive LoopEvent := LeTimer | LeEnvelope (env : Envelope) (q : Queue) | LeClosed | LeStreamError.

(** The session goes on, or ends, cleanly or not. *)
Inductive LoopEnd := Goes | EndsOk | EndsErr.

(** A debounced publication to come, and an RPC reply to send. *)
Record LoopOut := mkLoopOut { lo_timer : option Z; lo_reply : option (list Z) }.
Definition no_out : LoopOut := mkLoopOut None None.

Definition apply_heartbeat (c : CtlConn) (a : AppState) (hb : Heartbeat) (k : CtlClock) : AppState * LoopEnd * LoopOut :=
  match live_net a (cn_network c) with
  | None => (a, EndsErr, no_out)
  | Some n =>
      let '(n', timer) := on_heartbeat enc n (cn_node c) (cn_role c) hb (key_infos (as_keyring a)) (ck_now k) (ck_now_ms k) (ck_now_ms' k) (ck_now_ms'' k) (ck_save_ok k) in
      (as_set_net (cn_network c) n' a, Goes, mkLoopOut timer None)
  end.

Definition loop_message (c : CtlConn) (a : AppState) (env : Envelope) (k : CtlClock) : CtlConn * AppState * LoopEnd * LoopOut :=
  if env_kind env =? kind_u16 KHeartbeat then
    match heartbeat_of (env_payload env) with
    | None => (c, a, EndsErr, no_out)
    | Some hb =>
        if is_none (cn_pending c) then
          let '(b, ok) := budget_try_take (ck_instant k) (cn_budget c) in
          if ok then let '(a', e, o) := apply_heartbeat c a hb k in (set_pending b None c, a', e, o)
          else (set_pending b (Some hb) c, a, Goes, no_out)
        else (set_pending (cn_budget c) (Some hb) c, a, Goes, no_out)
    end
  else if env_kind env =? kind_u16 KExitReadiness then
    match exit_of (env_payload env) with
    | None => (c, a, EndsErr, no_out)
    | Some er =>
        match live_net a (cn_network c) with
        | None => (c, a, EndsErr, no_out)
        | Some n =>
            match on_exit_readiness enc n (cn_node c) (cn_role c) er (key_infos (as_keyring a)) (ck_now k) (ck_now_ms k) (ck_now_ms' k) (ck_save_ok k) with
            | None => (c, a, EndsErr, no_out)
            | Some (n', timer) => (c, as_set_net (cn_network c) n' a, Goes, mkLoopOut timer None)
            end
        end
    end
  else if env_kind env =? kind_u16 KResync then
    match resync_of (env_payload env), live_net a (cn_network c) with
    | Some have_gen, Some n => (c, as_set_net (cn_network c) (on_resync n (cn_node c) have_gen (ck_now k)) a, Goes, no_out)
    | _, _ => (c, a, EndsErr, no_out)
    end
  else if env_kind env =? kind_u16 KRefresh then
    match refresh_of (env_payload env) with
    | None => (c, a, EndsErr, no_out)
    | Some credential =>
        match verify_credential (λ id, as_networks a !! id) (verifying_keys (as_keyring a)) credential (cn_fp c) (ck_now k) with
        | Err _ => (c, a, EndsErr, no_out)
        | Ok (claims, net_id) =>
            match live_net a (cn_network c) with
            | None => (c, a, EndsErr, no_out)
            | Some n =>
                match on_refresh n (cn_node c) (cn_role c) (cn_fp c) (cn_network c) claims net_id (ck_now_ms k) with
                | None => (c, a, EndsErr, no_out)
                | Some n' => (c, as_set_net (cn_network c) n' a, Goes, no_out)
                end
            end
        end
    end
  else (c, a, Goes, no_out).

(** The timer runs only while a heartbeat waits. *)
Definition loop_step (c : CtlConn) (a : AppState) (ev : LoopEvent) (k : CtlClock) : CtlConn * AppState * LoopEnd * LoopOut :=
  match ev with
  | LeTimer =>
      match cn_pending c with
      | None => (c, a, Goes, no_out)
      | Some hb =>
          let '(b, ok) := budget_try_take (ck_instant k) (cn_budget c) in
          if ok then let '(a', e, o) := apply_heartbeat c a hb k in (set_pending b None c, a', e, o)
          else (set_pending b (Some hb) c, a, Goes, no_out)
      end
  | LeClosed => (c, a, EndsOk, no_out)
  | LeStreamError => (c, a, EndsErr, no_out)
  | LeEnvelope env q =>
      let '(p, reply, taken) := on_envelope NoVerbs q env (cn_rpc c) in
      if taken then
        (set_rpc p c, a, if rp_stopped p then EndsErr else Goes, mkLoopOut None reply)
      else loop_message c a env k
  end.

(** [rpc.close], the session dropped unless another took its place. *)
Definition conn_teardown (c : CtlConn) (a : AppState) (k : CtlClock) : CtlConn * AppState :=
  (set_rpc (rpc_close (cn_rpc c)) c,
   match live_net a (cn_network c) with
   | None => a
   | Some n => as_set_net (cn_network c) (teardown enc n (cn_node c) (cn_session c) (key_infos (as_keyring a)) (ck_now k) (ck_now_ms k) (ck_save_ok k)) a
   end).
End conn.

(** ** What a handler leaves alone *)

(** Configuration and deletion mark: what a handler of the control plane may not touch. *)
Definition handler_frame (n n' : NetState) : Prop := ns_cfg n' = ns_cfg n ∧ ns_deleted n' = ns_deleted n.

Section frames.
Context `{O : IpNetOps, Q : MpscOps} (enc : Snapshot → list Z).

Lemma publish_handler n keys now now_ms ok : handler_frame n (publish enc n keys now now_ms ok).
Proof. destruct (publish_frame enc n keys now now_ms ok) as (Hc & Hd & _). done. Qed.

Lemma publish_soon_handler n keys now t t' ok : handler_frame n (publish_soon enc n keys now t t' ok).1.
Proof. unfold publish_soon. repeat case_match; cbn [fst]; [apply publish_handler|done|done]. Qed.

Lemma frame_trans n1 n2 n3 : handler_frame n1 n2 → handler_frame n2 n3 → handler_frame n1 n3.
Proof. unfold handler_frame. intros [] []. split; congruence. Qed.

Lemma heartbeat_handler n node role hb keys now t1 t2 t3 ok : handler_frame n (on_heartbeat enc n node role hb keys now t1 t2 t3 ok).1.
Proof.
  unfold on_heartbeat. destruct (heartbeat _ _ _ _ _ _ _) as [l changed]. set (p := if 0 <? hb_usable_mtu hb then _ else _).
  assert (handler_frame n p.1) as Hp by (unfold p; by case_match). destruct p as [n1 mtu]. cbn [fst] in Hp.
  set (n2 := match hb_traffic hb, role with Some _, Relay => _ | _, _ => _ end).
  assert (handler_frame n n2) as H2 by (unfold n2; by repeat case_match).
  set (q := if changed || mtu then publish_soon _ _ _ _ _ _ _ else _).
  assert (handler_frame n q.1) as Hq by (unfold q; case_match; [eapply frame_trans; [exact H2|apply publish_soon_handler]|exact H2]).
  destruct q as [n3 timer]. cbn [fst] in Hq. by repeat case_match.
Qed.

Lemma exit_handler n node role er keys now t t' ok n' timer :
  on_exit_readiness enc n node role er keys now t t' ok = Some (n', timer) → handler_frame n n' ∧ role = Relay.
Proof.
  unfold on_exit_readiness. destruct (bool_decide (role = Relay)) eqn:Hr; cbn [negb]; [|done]. apply bool_decide_eq_true in Hr.
  set (n1 := ns_set_directory _ n). assert (handler_frame n n1) as H1 by done. case_match; intros [= He]; (split; [|done]).
  - pose proof (publish_soon_handler n1 keys now t t' ok) as Hp. rewrite He in Hp. by eapply frame_trans.
  - by inversion He; subst.
Qed.

Lemma teardown_handler n node sid keys now t ok : handler_frame n (teardown enc n node sid keys now t ok).
Proof.
  unfold teardown. destruct (ns_sessions n !! node) as [s|]; [|done]. case_match; [|done]. eapply frame_trans; [|apply publish_handler]. done.
Qed.

(** Who a session is of; pushing to it does not change that. *)
Definition ident (s : CtlSession) : Z * Role * Z * Z := (cs_id s, cs_role s, cs_exp s, cs_login_gen s).

Lemma try_send_ident p s s' : try_send p s = Some s' → ident s' = ident s.
Proof. unfold try_send. intros (q & _ & ->)%fmap_Some. done. Qed.
Lemma push_delta_ident d s : ident (push_delta d s) = ident s.
Proof. unfold push_delta. case_match; [done|]. case_match eqn:E; [|done]. by apply try_send_ident in E. Qed.
Lemma send_chain_ident chain s : ident (send_chain chain s).1 = ident s.
Proof.
  revert s. induction chain as [|d chain IH]; intros s; cbn; [done|]. destruct (try_send (PushDelta d) s) as [s'|] eqn:E; [|done].
  apply try_send_ident in E. by rewrite IH.
Qed.
Lemma catch_up_ident d gen s : ident (catch_up_session d gen s) = ident s.
Proof.
  unfold catch_up_session. destruct (deltas_since d gen) as [chain|].
  - pose proof (send_chain_ident chain s) as Hs. destruct (send_chain chain s) as [s' []]; cbn in *; done.
  - destruct (try_send _ s) as [s'|] eqn:E; [|done]. by apply try_send_ident in E.
Qed.

Lemma publish_ident n keys now t ok node : ident <$> ns_sessions (publish enc n keys now t ok) !! node = ident <$> ns_sessions n !! node.
Proof.
  unfold publish. destruct (recompute _ _ _ _ _ _ _ _) as [d [delta|]]; cbn; [|done]. destruct (note_gen _ _) as [reg save]. cbn.
  rewrite lookup_fmap. destruct (ns_sessions n !! node); cbn; [|done]. by rewrite push_delta_ident.
Qed.

(** The session of the node is the new one. *)
Lemma register_handler n sid c remote gen keys now t t' ok :
  let n' := (register_session enc n sid c remote gen keys now t t' ok).1 in
  handler_frame n n' ∧ ident <$> ns_sessions n' !! cl_node_id c = Some (sid, cl_role c, cl_exp c, cl_login_gen c).
Proof.
  cbn zeta. unfold register_session. cbn [fst]. set (n0 := match ns_sessions n !! cl_node_id c with Some _ => _ | None => _ end).
  assert (handler_frame n n0) as H0 by (unfold n0; by case_match). set (n1 := ns_set_leases _ _).
  assert (handler_frame n n1) as H1 by exact H0. assert (ns_sessions n1 !! cl_node_id c = Some (session_new sid c remote)) as Hs1 by (unfold n1; cbn; by rewrite lookup_insert_eq).
  set (n2 := publish enc n1 keys now t' ok). assert (handler_frame n n2) as H2 by (eapply frame_trans; [exact H1|apply publish_handler]).
  assert (ident <$> ns_sessions n2 !! cl_node_id c = Some (sid, cl_role c, cl_exp c, cl_login_gen c)) as Hs2 by (unfold n2; by rewrite publish_ident, Hs1).
  destruct (negb (in_grace n2 now)); [|done]. split; [exact H2|]. unfold catch_up. cbn. rewrite lookup_alter_eq. destruct (ns_sessions n2 !! cl_node_id c); [|done].
  cbn in *. by rewrite catch_up_ident.
Qed.

(** Afterwards the session is not this one. *)
Lemma teardown_gone n node sid keys now t ok s : ns_sessions (teardown enc n node sid keys now t ok) !! node = Some s → cs_id s ≠ sid.
Proof.
  unfold teardown. destruct (ns_sessions n !! node) as [s0|] eqn:E; [|congruence]. destruct (Z.eqb_spec (cs_id s0) sid) as [He|He]; [|congruence].
  set (n1 := ns_set_directory _ _). intros Hs. pose proof (publish_ident n1 keys now t ok node) as Hp. rewrite Hs in Hp. unfold n1 in Hp. cbn in Hp.
  by rewrite lookup_delete_eq in Hp.
Qed.
End frames.

(** ** A session from its Hello to its end *)

Section session.
Context `{O : IpNetOps, Q : MpscOps, L : CredLib, B : Base64, !JoinLib L, RC : RpcCodec, CC : CtlCodec}.
Context (enc : Snapshot → list Z) (resolve_host : string → Z → list IpAddr).

(** The heartbeat an event brings, and the one it makes count. *)
Definition loop_heard (ev : LoopEvent) : option Heartbeat :=
  match ev with LeEnvelope env _ => if env_kind env =? kind_u16 KHeartbeat then heartbeat_of (env_payload env) else None | _ => None end.

Definition loop_applied (c : CtlConn) (ev : LoopEvent) (k : CtlClock) : option Heartbeat :=
  let granted := (budget_try_take (ck_instant k) (cn_budget c)).2 in
  match ev with
  | LeTimer => if granted then cn_pending c else None
  | _ => if is_none (cn_pending c) && granted then loop_heard ev else None
  end.

(** The loop over any events, whatever else happens to the coordinator between them. *)
Inductive conn_run (c : CtlConn) : list Heartbeat → list Heartbeat → CtlConn → Prop :=
| cr_start : conn_run c [] [] c
| cr_step heard applied c1 a ev k c2 a' o : conn_run c heard applied c1 → loop_step enc c1 a ev k = (c2, a', Goes, o) →
    conn_run c (heard ++ option_list (loop_heard ev)) (applied ++ option_list (loop_applied c1 ev k)) c2.

Definition conn_who (c : CtlConn) : string * Z * Role * string * Z := (cn_network c, cn_node c, cn_role c, cn_fp c, cn_session c).

(** What an event does to the coordinator: nothing, or one handler on the session's network. *)
Definition own_handler (c : CtlConn) (a a' : AppState) : Prop :=
  a' = a ∨ ∃ n n', live_net a (cn_network c) = Some n ∧ handler_frame n n' ∧ a' = as_set_net (cn_network c) n' a.

Lemma apply_heartbeat_own c a hb k : own_handler c a (apply_heartbeat enc c a hb k).1.1.
Proof.
  unfold apply_heartbeat. destruct (live_net a (cn_network c)) as [n|] eqn:E; [|by left].
  pose proof (heartbeat_handler enc n (cn_node c) (cn_role c) hb (key_infos (as_keyring a)) (ck_now k) (ck_now_ms k) (ck_now_ms' k) (ck_now_ms'' k) (ck_save_ok k)) as H.
  destruct (on_heartbeat _ _ _ _ _ _ _ _ _ _ _) as [n' timer]. right. by exists n, n'.
Qed.

Lemma loop_message_own c a env k c' a' e o : loop_message enc c a env k = (c', a', e, o) → own_handler c a a' ∧ conn_who c' = conn_who c.
Proof.
  unfold loop_message. intros H. repeat case_match; simplify_eq; try (split; [by left|done]).
  - match goal with E : apply_heartbeat _ _ _ _ _ = _ |- _ => pose proof (apply_heartbeat_own c a h k) as Ho; rewrite E in Ho end. by split.
  - match goal with E : on_exit_readiness _ _ _ _ _ _ _ _ _ _ = _ |- _ => apply exit_handler in E as [Hf _] end. split; [|done]. right. eauto.
  - split; [|done]. right. eexists _, _. split_and!; [done| |done]. unfold on_resync. by case_match.
  - split; [|done]. right. eexists _, _. split_and!; [done| |done].
    match goal with E : on_refresh _ _ _ _ _ _ _ _ = _ |- _ => unfold on_refresh in E; case_match; [done|]; by injection E as <- end.
Qed.

Lemma loop_step_own c a ev k c' a' e o : loop_step enc c a ev k = (c', a', e, o) → own_handler c a a' ∧ conn_who c' = conn_who c.
Proof.
  unfold loop_step. intros H. destruct ev as [|env q| |]; try (simplify_eq; split; [by left|done]).
  - repeat case_match; simplify_eq; try (split; [by left|done]).
    match goal with E : apply_heartbeat _ _ _ ?h _ = _ |- _ => pose proof (apply_heartbeat_own c a h k) as Ho; rewrite E in Ho end. by split.
  - destruct (on_envelope NoVerbs q env (cn_rpc c)) as [[p reply] []]; [simplify_eq; split; [by left|done]|]. by eapply loop_message_own.
Qed.

(** A heartbeat is not an RPC. *)
Lemma heartbeat_not_rpc q env p : env_kind env = kind_u16 KHeartbeat → on_envelope NoVerbs q env p = (p, None, false).
Proof. intros He. unfold on_envelope. by rewrite He. Qed.

Lemma rpc_pending c p : cn_pending (set_rpc p c) = cn_pending c.
Proof. done. Qed.

(** The newest heartbeat counted, or it is the one that waits. *)
Lemma loop_step_pending c a ev k c' a' o : loop_step enc c a ev k = (c', a', Goes, o) →
  cn_pending c' = match loop_applied c ev k with Some _ => None | None => match loop_heard ev with Some hb => Some hb | None => cn_pending c end end ∧
  (∀ hb, loop_applied c ev k = Some hb → cn_pending c = Some hb ∧ loop_heard ev = None ∨ cn_pending c = None ∧ loop_heard ev = Some hb) ∧
  (∀ hb, loop_applied c ev k = Some hb → a' = (apply_heartbeat enc c a hb k).1.1).
Proof.
  unfold loop_step, loop_applied. destruct ev as [|env q| |]; [| |done|done].
  - destruct (cn_pending c) as [hb|] eqn:Hp; [|intros [= <- <- _]; rewrite Hp; repeat case_match; naive_solver].
    destruct (budget_try_take _ _) as [b ok]. destruct ok; cbn [snd]; [|by intros [= <- <- _]].
    destruct (apply_heartbeat enc c a hb k) as [[a1 e] o1] eqn:E. intros [= <- <- -> _]. split_and!; [done|naive_solver|]. intros ? [= <-]. by rewrite E.
  - cbn [loop_heard]. destruct (Z.eqb_spec (env_kind env) (kind_u16 KHeartbeat)) as [Hk|Hk].
    + rewrite heartbeat_not_rpc by done. unfold loop_message. rewrite (proj2 (Z.eqb_eq _ _) Hk). destruct (heartbeat_of (env_payload env)) as [hb|]; [|done].
      destruct (cn_pending c) as [hb0|] eqn:Hp; cbn [is_none andb]; [by intros [= <- <- _]|].
      destruct (budget_try_take _ _) as [b ok]. destruct ok; cbn [snd]; [|by intros [= <- <- _]].
      destruct (apply_heartbeat enc c a hb k) as [[a1 e] o1] eqn:E. intros [= <- <- -> _]. split_and!; [done|naive_solver|]. intros ? [= <-]. by rewrite E.
    + assert ((if is_none (cn_pending c) && (budget_try_take (ck_instant k) (cn_budget c)).2 then None else None) = (None : option Heartbeat)) as -> by by case_match.
      intros H. split; [|done]. destruct (on_envelope NoVerbs q env (cn_rpc c)) as [[p reply] []]; [by injection H as <- <- _|].
      unfold loop_message in H. rewrite (proj2 (Z.eqb_neq _ _) Hk) in H. repeat case_match; by simplify_eq.
Qed.

Lemma last_snoc_option {A} (l : list A) (o : option A) : last (l ++ option_list o) = match o with Some x => Some x | None => last l end.
Proof. destruct o; cbn; [by rewrite last_snoc|by rewrite app_nil_r]. Qed.

Lemma sublist_snoc_option {A} (l l' : list A) (o : option A) : l `sublist_of` l' → l ++ option_list o `sublist_of` l' ++ option_list o.
Proof. intros Hs. by apply sublist_app. Qed.

(** Heartbeats count in the order they came, none twice and none invented, and
    the newest is never lost: it counted, or it waits. *)
Definition coalesced (heard applied : list Heartbeat) (pending : option Heartbeat) : Prop :=
  applied ++ option_list pending `sublist_of` heard ∧ match pending with Some hb => last heard = Some hb | None => last applied = last heard end.

Lemma conn_run_coalesced c heard applied c' : cn_pending c = None → conn_run c heard applied c' →
  coalesced heard applied (cn_pending c') ∧ conn_who c' = conn_who c.
Proof.
  intros Hc. induction 1 as [|heard applied c1 a ev k c2 a' o _ [[IHs IHl] IHw] Hst]; [rewrite Hc; split; [split; [constructor|done]|done]|].
  destruct (loop_step_own _ _ _ _ _ _ _ _ Hst) as [_ Hw]. apply loop_step_pending in Hst as (Hp & Ha & _). split; [|congruence].
  unfold coalesced. rewrite !last_snoc_option, Hp. destruct (loop_applied c1 ev k) as [hb|] eqn:Eap.
  - destruct (Ha hb eq_refl) as [[Hpe Hh]|[Hpe Hh]]; rewrite Hh; cbn [option_list]; rewrite ?app_nil_r; rewrite Hpe in IHs, IHl; cbn [option_list] in IHs.
    + by split.
    + rewrite app_nil_r in IHs. split; [by apply sublist_app|done].
  - cbn [option_list]. rewrite app_nil_r. destruct (loop_heard ev) as [hb|]; cbn [option_list]; [|rewrite app_nil_r; by split].
    split; [|done]. apply sublist_app; [|done]. etrans; [|exact IHs]. by apply sublist_inserts_r.
Qed.

Lemma live_net_some a id n : live_net a id = Some n → as_networks a !! id = Some n ∧ ns_deleted n = false.
Proof. unfold live_net. destruct (as_networks a !! id) as [n0|]; [|done]. destruct (ns_deleted n0) eqn:E; [done|]. by intros [= ->]. Qed.

(** A handler is a step of the coordinator, and the other networks are not its business. *)
Lemma own_handler_step c a a' rows : own_handler c a a' →
  rtc (coord_step enc resolve_host) (mkCoord a rows) (mkCoord a' rows) ∧ ∀ id, id ≠ cn_network c → as_networks a' !! id = as_networks a !! id.
Proof.
  intros [->|(n & n' & Hl & [Hc Hd] & ->)]; [by split|]. apply live_net_some in Hl as [Hn _]. split.
  - apply rtc_once. by apply (cs_handler enc resolve_host (mkCoord a rows) (cn_network c) n n').
  - intros id Hid. cbn. by rewrite lookup_insert_ne.
Qed.

(** C24: A control session is held by whom the coordinator verified, and by nobody
    else. It opens only after a Hello of this protocol version, in time and from
    a peer with a certificate, whose credential the coordinator accepts for that
    certificate; then the node's session in that network is the new one, with the
    credential's expiry and login generation. Whatever the peer sends and whatever
    else happens, the session keeps its network, node, role and certificate, each
    event is at most one handler on that network, heartbeats over budget are put
    aside so that those that count come in order, none twice, and the newest
    counted or waits, to count at the first timer the budget grants; and after
    the teardown the node's session is not this one. *)
Theorem control_session_sound a0 h now claims id gen fp a1 sid remote k0 a2 c0 heard applied c
    (Hh : conn_hello a0 h now = Ok (claims, id, gen, fp)) (Hr : conn_register enc a1 claims id gen fp sid remote k0 = (a2, Some c0))
    (Hrun : conn_run c0 heard applied c) :
  (∃ env token, h = HelloGot env (Some fp) ∧ env_major env = PROTO_MAJOR ∧ env_minor env = PROTO_MINOR ∧ env_kind env = kind_u16 KHello ∧
     hello_of (env_payload env) = Some (token, gen) ∧
     verify_credential (λ id, as_networks a0 !! id) (verifying_keys (as_keyring a0)) token fp now = Ok (claims, id)) ∧
  (∃ n, as_networks a2 !! id = Some n ∧ ident <$> ns_sessions n !! cl_node_id claims = Some (sid, cl_role claims, cl_exp claims, cl_login_gen claims)) ∧
  conn_who c = (id, cl_node_id claims, cl_role claims, fp, sid) ∧
  (∀ a ev k c' a' e o rows, loop_step enc c a ev k = (c', a', e, o) →
     rtc (coord_step enc resolve_host) (mkCoord a rows) (mkCoord a' rows) ∧ ∀ id', id' ≠ id → as_networks a' !! id' = as_networks a !! id') ∧
  coalesced heard applied (cn_pending c) ∧
  (∀ hb a k n, cn_pending c = Some hb → SFleb (f64_of 1) (bg_tokens (budget_refill (ck_instant k) (cn_budget c))) = true → live_net a id = Some n →
     ∃ c' o, loop_step enc c a LeTimer k = (c', (apply_heartbeat enc c a hb k).1.1, Goes, o) ∧ cn_pending c' = None) ∧
  (∀ a k n s, live_net (conn_teardown enc c a k).2 id = Some n → ns_sessions n !! cl_node_id claims = Some s → cs_id s ≠ sid).
Proof.
  unfold conn_register in Hr. destruct (live_net a1 id) as [n1|] eqn:Hn1; [|done].
  pose proof (register_handler enc n1 sid claims remote gen (key_infos (as_keyring a1)) (ck_now k0) (ck_now_ms k0) (ck_now_ms' k0) (ck_save_ok k0)) as [_ Hreg].
  destruct (register_session _ _ _ _ _ _ _ _ _ _ _) as [n2 g]. injection Hr as <- <-. cbn [fst] in Hreg.
  apply conn_run_coalesced in Hrun as [Hco Hwho]; [|done]. assert (cn_network c = id) as Hnet by (by injection Hwho).
  assert (cn_node c = cl_node_id claims ∧ cn_session c = sid) as [Hnode Hsid] by (by injection Hwho). split_and!; [| |done| |done| |].
  - unfold conn_hello in Hh. destruct h as [| |env [fp'|]]; try done. unfold check_version in Hh.
    destruct ((env_major env =? PROTO_MAJOR) && (env_minor env =? PROTO_MINOR)) eqn:Ev; [|done]. apply andb_true_iff in Ev as [E1%Z.eqb_eq E2%Z.eqb_eq].
    destruct (Z.eqb_spec (env_kind env) (kind_u16 KHello)) as [Ek|]; [|done]. cbn [negb] in Hh. destruct (hello_of (env_payload env)) as [[token gen']|] eqn:Eh; [|done].
    destruct (verify_credential _ _ _ _ _) as [[cl id']|[]] eqn:Ec; try done. injection Hh as -> -> -> ->. by exists env, token.
  - exists n2. cbn. by rewrite lookup_insert_eq.
  - intros a ev k c' a' e o rows Hst. apply loop_step_own in Hst as [Hst _]. apply (own_handler_step _ _ _ rows) in Hst. by rewrite Hnet in Hst.
  - intros hb a k n Hp Hg Hl. cbn [loop_step]. rewrite Hp. unfold budget_try_take. rewrite Hg. unfold apply_heartbeat. rewrite Hnet, Hl.
    destruct (on_heartbeat _ _ _ _ _ _ _ _ _ _ _) as [n' timer]. eexists _, _. done.
  - intros a k n s. unfold conn_teardown. cbn [snd]. rewrite Hnet. destruct (live_net a id) as [n0|] eqn:El; [|congruence].
    intros [Hn _]%live_net_some. cbn in Hn. rewrite lookup_insert_eq in Hn. injection Hn as <-. rewrite Hnode, Hsid. apply teardown_gone.
Qed.
End session.

(** ** A relay's session *)

Module ControlConnExample.
#[export] Existing Instance ipnet_ref.
#[export] Existing Instance mpsc_ref.
#[export] Existing Instance JoinExample.join_lib.
#[export] Existing Instance RpcExample.codec.

(** The relay of [JoinExample], with the credential it was given. *)
Definition token : string := match (JoinExample.result).2 with Returned (Ok r) => jp_credential r | _ => ""%string end.
#[export] Instance messages : CtlCodec := {|
  hello_of _ := Some (token, 0);
  heartbeat_of p := Some (mkHeartbeat (default 0 (head p)) 0 [] [] None 0 None);
  exit_of _ := None; resync_of _ := None; refresh_of _ := None;
|}.

Definition a : AppState (L := CredExample.lib) := mkAppState {["net"%string := (JoinExample.result).1]} JoinExample.keyring rate_limiter_default 10 4433.
Definition msg (kind : Kind) (b : Z) : Envelope := mkEnvelope PROTO_MAJOR PROTO_MINOR (kind_u16 kind) [b].
Definition hello : HelloRead := HelloGot (msg KHello 0) (Some JoinExample.fp).
Definition relay_claims : Claims :=
  match conn_hello a hello 1000 with Ok (c, _, _, _) => c | Err _ => mkClaims ISS AUD "" "" 0 "" Relay "" "" [] 0 0 0 end.
Definition k (ns : Z) : CtlClock := mkCtlClock 1000 1000000 1000000 1000000 true ns.
Definition opened := conn_register DirExample.enc a relay_claims "net" 0 JoinExample.fp 11 "r" (k 5).
Definition c0 : CtlConn := default (mkCtlConn "" 0 Relay "" 0 0 (budget_new 0) None rpc_new) opened.2.
Definition beat (c : CtlConn) (x : AppState) (b : Z) := loop_step DirExample.enc c x (LeEnvelope (msg KHeartbeat b) QRoom) (k 5).

Lemma hello_ok : conn_hello a hello 1000 = Ok (relay_claims, "net"%string, 0, JoinExample.fp).
Proof. vm_compute. reflexivity. Qed.
Lemma opened_ok : opened = (opened.1, Some c0).
Proof. assert (is_none opened.2 = false) as H by (vm_compute; reflexivity). unfold c0. destruct opened as [x [c|]]; [done|done]. Qed.
Definition c1 : CtlConn := (beat c0 opened.1 3).1.1.1.
Lemma beat_ok : beat c0 opened.1 3 = (c1, (beat c0 opened.1 3).1.1.2, Goes, (beat c0 opened.1 3).2).
Proof.
  assert ((beat c0 opened.1 3).1.2 = Goes) as H by (vm_compute; reflexivity). unfold c1. destruct (beat c0 opened.1 3) as [[[? ?] ?] ?]. cbn in *. by rewrite H.
Qed.

(** Ten at once: eight count, the tenth waits in place of the ninth. *)
Lemma tenth_waits : hb_gen <$> cn_pending (foldl (λ p b, let '(c, x, _, _) := beat p.1 p.2 b in (c, x)) (c0, opened.1) [1; 2; 3; 4; 5; 6; 7; 8; 9; 10]).1 = Some 10.
Proof. vm_compute. reflexivity. Qed.

(** An older protocol is told so. *)
Lemma older_version : conn_hello a (HelloGot (mkEnvelope (PROTO_MAJOR - 1) PROTO_MINOR (kind_u16 KHello) []) (Some JoinExample.fp)) 1000 = Err (Some CTL_CLOSE_VERSION).
Proof. reflexivity. Qed.
End ControlConnExample.

#[local] Existing Instance ipnet_ref.
#[local] Existing Instance mpsc_ref.
#[local] Existing Instance RpcExample.codec.
#[local] Existing Instance ControlConnExample.messages.
#[local] Existing Instance JoinExample.join_lib.

Lemma control_session_sound_witness :
  conn_who ControlConnExample.c1 = ("net"%string, cl_node_id ControlConnExample.relay_claims, cl_role ControlConnExample.relay_claims, JoinExample.fp, 11) ∧
  cl_node_id ControlConnExample.relay_claims = 1.
Proof.
  pose proof (cr_step DirExample.enc ControlConnExample.c0 [] [] _ _ _ _ _ _ _ (cr_start DirExample.enc ControlConnExample.c0) ControlConnExample.beat_ok) as Hrun.
  pose proof (control_session_sound (L := CredExample.lib) DirExample.enc AdminExample.no_dns _ _ _ _ _ _ _ _ _ _ _ _ _ _ _ _
    ControlConnExample.hello_ok ControlConnExample.opened_ok Hrun) as (_ & _ & Hw & _).
  split; [exact Hw|vm_compute; reflexivity].
Defined.
