(* ===== verification/LinkTasks.v ===== *)
(** * The tasks beside the member's control loop (crates/nqvpn-sync/src/link.rs, reconcile.rs)

    Of a control session the task that writes: resync requests, renewed
    credentials, heartbeats, the exit's readiness. And the task that reconciles a
    node with its view, on every change and on a timer. Both run beside the read
    loop of [Sync], which changes the view, and share [LinkHandle] with the loop
    of [Member]. *)

From S2P Require Import Prelude Ordered Ipnet Control Credential Config Registry Leases Directory NetState Join Sync Member.

(** ** The writer *)

Inductive LinkMsg := LmResync (have_gen : Z) | LmRefresh (credential : string) | LmHeartbeat (hb : Heartbeat) | LmExit (er : ExitReadiness).

(** The shared handle, the permit [kick] holds, the requests of the read loop,
    and what this connection has told about the exit. *)
Record Writer := mkWriter { wr_handle : LinkHandle; wr_kick : bool; wr_resync : list Z; wr_reported : option ExitReadiness }.

(** What the member knows of itself when it is asked. *)
Record LocalFacts := mkLocalFacts { lf_heartbeat : Heartbeat; lf_exit_readiness : option ExitReadiness }.

Inductive WriterEvent :=
| WeTick (f : LocalFacts) | WeKick (f : LocalFacts) | WeResync
| WeRefresh (credential : string) | WeKicked | WeGap (have : Z).

Definition writer_open (h : LinkHandle) (kick : bool) : Writer := mkWriter h kick [] None.

Section writer.
Context (enc : Snapshot → list Z).

Definition writer_report (v : View) (f : LocalFacts) (w : Writer) : Writer * list LinkMsg :=
  let h := wr_handle w in
  let refresh := lh_refresh h in
  let h := mkLinkHandle (lh_stop h) (lh_notified h) None (lh_refused h) in
  let hb := set_hb_view (view_gen v) (view_digest enc v) (lf_heartbeat f) in
  let '(reported, told) :=
    match lf_exit_readiness f with
    | Some er => if bool_decide (lf_exit_readiness f ≠ wr_reported w) then (lf_exit_readiness f, [LmExit er]) else (wr_reported w, [])
    | None => (wr_reported w, [])
    end in
  (mkWriter h (wr_kick w) (wr_resync w) reported,
   match refresh with Some c => [LmRefresh c] | None => [] end ++ [LmHeartbeat hb] ++ told).

(** The three branches of the select, and what the rest of the process does to
    the handle and the queue. *)
Definition writer_step (v : View) (w : Writer) (ev : WriterEvent) : Writer * list LinkMsg :=
  match ev with
  | WeTick f => writer_report v f w
  | WeKick f =>
      if wr_kick w then writer_report v f (mkWriter (wr_handle w) false (wr_resync w) (wr_reported w)) else (w, [])
  | WeResync =>
      match wr_resync w with
      | have :: q => (mkWriter (wr_handle w) (wr_kick w) q (wr_reported w), [LmResync have])
      | [] => (w, [])
      end
  | WeRefresh c => (mkWriter (handle_refresh c (wr_handle w)) true (wr_resync w) (wr_reported w), [])
  | WeKicked => (mkWriter (wr_handle w) true (wr_resync w) (wr_reported w), [])
  | WeGap have => (mkWriter (wr_handle w) (wr_kick w) (ask_resync (wr_resync w) (Some have)) (wr_reported w), [])
  end.

(** A connection's run, whatever the view is at each event. *)
Inductive writer_ran (w0 : Writer) : list WriterEvent → Writer → list LinkMsg → Prop :=
| wn_start : writer_ran w0 [] w0 []
| wn_step evs w out v ev w' o : writer_ran w0 evs w out → writer_step v w ev = (w', o) → writer_ran w0 (evs ++ [ev]) w' (out ++ o).

Definition exit_msg (m : LinkMsg) : option ExitReadiness := match m with LmExit er => Some er | _ => None end.
Definition refresh_msg (m : LinkMsg) : option string := match m with LmRefresh c => Some c | _ => None end.
Definition resync_msg (m : LinkMsg) : option Z := match m with LmResync g => Some g | _ => None end.

Definition handed (ev : WriterEvent) : option string := match ev with WeRefresh c => Some c | _ => None end.

(** No two neighbours are the same. *)
Fixpoint changing {A} `{EqDecision A} (l : list A) : bool :=
  match l with
  | x :: (y :: _) as l' => bool_decide (x ≠ y) && changing l'
  | _ => true
  end.

Lemma changing_snoc {A} `{EqDecision A} (l : list A) x : changing (l ++ [x]) = changing l && bool_decide (last l ≠ Some x).
Proof.
  induction l as [|a [|b l] IH]; [done| |].
  - cbn. rewrite andb_true_r. apply bool_decide_ext. naive_solver.
  - change (last (a :: b :: l)) with (last (b :: l)). cbn [app changing] in *. rewrite IH. by rewrite andb_assoc.
Qed.

(** One report: the credential in the slot, the heartbeat with the view as it is,
    and the readiness if it is news. *)
Lemma writer_report_spec v f w w' o : writer_report v f w = (w', o) →
  ∃ told, o = option_list (LmRefresh <$> lh_refresh (wr_handle w)) ++
      LmHeartbeat (set_hb_view (view_gen v) (view_digest enc v) (lf_heartbeat f)) :: (LmExit <$> option_list told) ∧
    lh_refresh (wr_handle w') = None ∧ wr_kick w' = wr_kick w ∧ wr_resync w' = wr_resync w ∧
    (∀ er, lf_exit_readiness f = Some er → wr_reported w' = Some er) ∧
    match told with Some er => wr_reported w' = Some er ∧ wr_reported w ≠ Some er | None => wr_reported w' = wr_reported w end.
Proof.
  unfold writer_report. destruct (lf_exit_readiness f) as [er|] eqn:E.
  - case_bool_decide as Hn; intros [= <- <-].
    + exists (Some er). cbn. split_and!; [by destruct (lh_refresh _)|done..|congruence|done|congruence].
    + exists None. cbn. split_and!; [by destruct (lh_refresh _)|done..|congruence|done].
  - intros [= <- <-]. exists None. cbn. split_and!; [by destruct (lh_refresh _)|done..].
Qed.

(** What a connection tells the coordinator. Of the exit it says each change and
    nothing twice, and the last thing said is what it takes for reported; a
    credential in the slot has a wake-up waiting for it, and the one handed over
    last was presented last or is the one in the slot; resync requests go out in
    the order they were taken. *)
Record writer_inv (evs : list WriterEvent) (w : Writer) (out : list LinkMsg) : Prop := mkWriterInv {
  wi_exit : wr_reported w = last (omap exit_msg out);
  wi_news : changing (omap exit_msg out) = true;
  wi_slot : lh_refresh (wr_handle w) ≠ None → wr_kick w = true;
  wi_last : ∀ c, last (omap handed evs) = Some c → lh_refresh (wr_handle w) = Some c ∨ lh_refresh (wr_handle w) = None ∧ last (omap refresh_msg out) = Some c;
  wi_resync : (length (wr_resync w) ≤ RESYNC_QUEUE)%nat;
}.

Lemma omap_report {B} (g : LinkMsg → option B) r hb told :
  omap g (option_list (LmRefresh <$> r) ++ LmHeartbeat hb :: (LmExit <$> option_list told)) =
  omap g (option_list (LmRefresh <$> r)) ++ omap g [LmHeartbeat hb] ++ omap g (LmExit <$> option_list told).
Proof. rewrite omap_app. f_equal. by rewrite <- omap_app. Qed.

Lemma writer_inv_report evs w out ev v f w1 w' o : writer_inv evs w out → handed ev = None →
  wr_handle w1 = wr_handle w → wr_resync w1 = wr_resync w → wr_reported w1 = wr_reported w →
  writer_report v f w1 = (w', o) → writer_inv (evs ++ [ev]) w' (out ++ o).
Proof.
  intros [He Hn _ Hl Hq] Hev Hh Hr Hp (told & -> & Hs & _ & Hr' & _ & Ht)%writer_report_spec.
  assert (omap handed (evs ++ [ev]) = omap handed evs) as Hevs by (rewrite omap_app; cbn; rewrite Hev; apply app_nil_r).
  rewrite Hh, Hp in *. split; rewrite ?omap_app, ?omap_report.
  - destruct told as [er|], (lh_refresh (wr_handle w)); cbn; rewrite ?last_snoc, ?app_nil_r; [by destruct Ht..|congruence|congruence].
  - destruct told as [er|], (lh_refresh (wr_handle w)); cbn; rewrite ?app_nil_r, ?changing_snoc; try done; rewrite Hn, <- He; by apply bool_decide_eq_true_2, Ht.
  - congruence.
  - rewrite <- omap_app, Hevs. intros c Hc. right. split; [done|]. destruct (Hl c Hc) as [Hsl|[Hsl Hlast]]; rewrite Hsl;
      destruct told; cbn; rewrite ?last_snoc, ?app_nil_r; done.
  - congruence.
Qed.

Lemma ask_resync_bound q have : (length q ≤ RESYNC_QUEUE)%nat → (length (ask_resync q (Some have)) ≤ RESYNC_QUEUE)%nat.
Proof. intros Hq. cbn [ask_resync]. case_match eqn:E; [|done]. apply Nat.ltb_lt in E. rewrite length_app. cbn. lia. Qed.

Theorem writer_tells h kick evs w out : (lh_refresh h ≠ None → kick = true) → writer_ran (writer_open h kick) evs w out →
  writer_inv evs w out.
Proof.
  intros Hk. induction 1 as [|evs w out v ev w' o _ IH Hst]; [split; cbn; [done..|lia]|]. destruct ev as [f|f| |c| |have]; cbn in Hst.
  - by eapply writer_inv_report.
  - destruct (wr_kick w); [by eapply writer_inv_report; [exact IH|..|exact Hst]|]. injection Hst as <- <-. rewrite app_nil_r.
    destruct IH as [????]. split; try done. by rewrite omap_app, app_nil_r.
  - destruct (wr_resync w) as [|g q] eqn:Eq; injection Hst as <- <-; destruct IH as [He Hn Hs Hl Hq].
    + rewrite app_nil_r. split; try done. by rewrite omap_app, app_nil_r.
    + rewrite Eq in Hq. cbn in Hq. split; cbn [wr_handle wr_kick wr_resync wr_reported]; rewrite ?omap_app, ?app_nil_r; cbn; rewrite ?app_nil_r; try done. lia.
  - injection Hst as <- <-. destruct IH as [He Hn _ _ Hq]. rewrite app_nil_r. split; try done. intros c'. rewrite omap_app. cbn. rewrite last_snoc. intros [= <-]. by left.
  - injection Hst as <- <-. destruct IH as [He Hn _ Hl Hq]. rewrite app_nil_r. split; try done. by rewrite omap_app, app_nil_r.
  - injection Hst as <- <-. destruct IH as [He Hn Hs Hl Hq]. rewrite app_nil_r. split; try done; [by rewrite omap_app, app_nil_r|]. by apply ask_resync_bound.
Qed.

(** A credential handed over is presented at the next wake-up, before the heartbeat. *)
Lemma refresh_presented v v' w c f :
  let w1 := (writer_step v w (WeRefresh c)).1 in
  ∃ rest, (writer_step v' w1 (WeKick f)).2 = LmRefresh c :: LmHeartbeat (set_hb_view (view_gen v') (view_digest enc v') (lf_heartbeat f)) :: rest.
Proof.
  cbn. unfold writer_report. cbn. destruct (lf_exit_readiness f) as [er|]; [case_bool_decide|]; eexists; cbn; reflexivity.
Qed.
End writer.

(** ** The reconciler *)

(** What the view has been through: the read loop, the owner and its pokes. *)
Inductive view_step : View → View → Prop :=
| vs_replace v s : view_step v (replace v s)
| vs_poke v : view_step v (poke v)
| vs_install v s : view_step v (install v s).1
| vs_apply v d : view_step v (view_apply v d).1.

(** A view that is not announced as changed is the same. *)
Lemma view_step_announced v v' : view_step v v' → vw_changed v' = vw_changed v ⊕ 1 ∨ v' = v.
Proof.
  destruct 1 as [v s|v|v s|v d]; [by left..| |].
  - unfold install. case_match; [by right|by left].
  - unfold view_apply, apply, view_gen. destruct (d_gen d <=? s_gen (vw_snap v)) eqn:E1; [rewrite Z.eqb_refl; right; by destruct v|].
    destruct (negb (d_base_gen d =? s_gen (vw_snap v))); [right; by destruct v|]. left. cbn.
    apply Z.leb_gt in E1. assert (d_gen d ≠ s_gen (vw_snap v)) as Hn%Z.eqb_neq by lia. by rewrite Hn.
Qed.

Section reconciler.
Context {S : Type} (reconcile : Snapshot → S → S).

(** The version the receiver has seen, whether a turn is under way, the node,
    and the views it was reconciled with. *)
Record Reconciler := mkReconciler { rc_seen : Z; rc_turn : bool; rc_node : S; rc_log : list Snapshot }.

(** [RcDrift]: what happens to the node otherwise. *)
Inductive ReconcilerEvent := RcChanged | RcTick | RcRun | RcDrift (s : S).

Definition reconciler_start (v : View) (s : S) : Reconciler := mkReconciler (vw_changed v) false s [].

Definition reconciler_step (v : View) (c : Reconciler) (ev : ReconcilerEvent) : Reconciler :=
  match ev with
  | RcChanged => if rc_turn c || (vw_changed v =? rc_seen c) then c else mkReconciler (vw_changed v) true (rc_node c) (rc_log c)
  | RcTick => mkReconciler (rc_seen c) true (rc_node c) (rc_log c)
  | RcRun =>
      if rc_turn c then mkReconciler (rc_seen c) false (reconcile (vw_snap v) (rc_node c)) (rc_log c ++ [vw_snap v]) else c
  | RcDrift s => mkReconciler (rc_seen c) (rc_turn c) s (rc_log c)
  end.

(** The view and the task, in any order; the counter of changes does not wrap. *)
Inductive reconciler_ran (v0 : View) (s0 : S) : View → Reconciler → Prop :=
| rr_start : reconciler_ran v0 s0 v0 (reconciler_start v0 s0)
| rr_view v v' c : reconciler_ran v0 s0 v c → u_range 64 (vw_changed v + 1) → view_step v v' → reconciler_ran v0 s0 v' c
| rr_task v c ev : reconciler_ran v0 s0 v c → reconciler_ran v0 s0 v (reconciler_step v c ev).

(** Once it has had a turn, a reconciler that knows of no change was last run
    with the view as it is; one that has a change to see is run with the newest
    view at its next turn, and any turn heals what drifted. *)
Theorem reconciler_current v0 s0 v c : u_range 64 (vw_changed v0) → reconciler_ran v0 s0 v c →
  (rc_turn c = false → rc_seen c = vw_changed v → rc_log c ≠ [] → last (rc_log c) = Some (vw_snap v)) ∧
  (rc_turn c = false → rc_seen c ≠ vw_changed v →
     let c' := reconciler_step v (reconciler_step v c RcChanged) RcRun in
     rc_seen c' = vw_changed v ∧ rc_turn c' = false ∧ last (rc_log c') = Some (vw_snap v)) ∧
  (∀ s, rc_node (reconciler_step v (reconciler_step v (reconciler_step v c (RcDrift s)) RcTick) RcRun) = reconcile (vw_snap v) s).
Proof.
  intros H0 Hr. split_and!; [| |done].
  - assert (u_range 64 (vw_changed v) ∧ rc_seen c ≤ vw_changed v ∧
      (rc_turn c = false → rc_seen c = vw_changed v → rc_log c ≠ [] → last (rc_log c) = Some (vw_snap v))) as (_ & _ & H); [|done].
    induction Hr as [|v v' c _ (Hv & Hle & IH) Hb Hst|v c ev _ (Hv & Hle & IH)]; [done| |].
    + apply view_step_announced in Hst as [He| ->]; [|done]. unfold u_range in *. rewrite wadd64_small in He by lia.
      rewrite He. split_and!; try lia.
    + split; [done|]. unfold reconciler_step. destruct ev as [| | |s].
      * case_match; [by split|]. cbn. split; [lia|done].
      * by split.
      * destruct (rc_turn c) eqn:Et; cbn; [|split; [done|intros _; by apply IH]]. split; [done|]. intros _ _ _. by rewrite last_snoc.
      * by split.
  - intros Ht Hn. cbn [reconciler_step]. rewrite Ht. cbn [orb]. rewrite (proj2 (Z.eqb_neq _ _)) by congruence. cbn. split_and!; [done..|]. by rewrite last_snoc.
Qed.
End reconciler.

(** ** A renewal that comes while the session is down *)

Module LinkTasksExample.
#[export] Existing Instance MemberExample.lib.

(** The renewal task joined while the main loop was about to join again: the
    session is opened with the newer credential, and the writer then presents
    the older one, which is still in the slot. *)
Definition events : list MemberEvent :=
  [MeTop; MeSessionEnd SeLost 40; MeRenewWake; MeRenewJoin (Accepted (MemberExample.response "c1")); MePaused;
   MeJoin (Accepted (MemberExample.response "c2")); MeTop; MePresent].
Lemma older_refresh : omap (λ o, match o with MoSession _ c => Some (true, c) | MoRefresh c => Some (false, c) | _ => None end)
    (member_run MemberExample.url MemberExample.start events).2 = [(true, "c0"); (true, "c2"); (false, "c1")]%string.
Proof. vm_compute. reflexivity. Qed.

(** An exit that is ready, then not asked anything new, then not ready. *)
Definition facts (er : option ExitReadiness) : LocalFacts := mkLocalFacts (mkHeartbeat 0 0 [] [] None 0 None) er.
Definition ready : ExitReadiness := mkExitReadiness true true.
Definition unready : ExitReadiness := mkExitReadiness true false.
Definition told (evs : list WriterEvent) : list ExitReadiness :=
  omap exit_msg (foldl (λ p ev, let '(w, o) := writer_step (λ _, []) view_new p.1 ev in (w, p.2 ++ o)) (writer_open (mkLinkHandle None false None false) false, []) evs).2.
Lemma told_changes : told [WeTick (facts (Some ready)); WeTick (facts (Some ready)); WeTick (facts None); WeTick (facts (Some unready))] = [ready; unready].
Proof. vm_compute. reflexivity. Qed.
End LinkTasksExample.
